(* ===== verification/_CoqProject ===== *)
-Q . S2P
Prelude.v
Bitmanip.v
Memory.v
Bitmap.v
RegionSet.v
Intrusive.v
Buffers.v
ManagedArray.v
FrameManager.v
SpinLock.v
Scheduler.v
BlockingSync.v
SyncObjects.v
Paging.v
PagingBoot.v
AddressSpace.v
Ports.v
Apic.v
Keyboard.v
Descriptors.v
Interrupts.v
Files.v
Pci.v
Devices.v
Process.v
Perf.v
Gdb.v
GdbStop.v
Pthread.v
Asm.v
