(* ===== verification/Prelude.v ===== *)
(** * A verification library for the KOS kernel

    KOS is an operating system kernel for x86-64 in C++ (all files below are
    relative to [src/src/]).  This library models the kernel's own code as
    executable functions and step relations and proves what makes each part
    correct.  Code that is not part of the kernel (devices, the processor's
    paging unit, the heap) is a parameter of the models, an interface whose
    laws state its documented behaviour.

    ** The parts of the program and how they interact

    [generic/] holds data structures without locks; [runtime/] threads,
    schedulers and blocking synchronisation on top of [kernel/SpinLock.h];
    [kernel/] frames, address spaces, processes and system calls; [machine/]
    page tables, descriptors, interrupts and the processor; [devices/] the
    drivers; [world/] the files.  A file call goes from [kernel/syscalls.cc]
    to the handle table ([runtime/SynchronizedArray.h] on
    [generic/ManagedArray.h]) and to the object behind it ([world/Access.h]);
    a page fault goes from [machine/Machine.cc] to [kernel/AddressSpace.h], to
    [machine/Paging.h] and to [kernel/FrameManager.h], which keeps its frames
    in the bitmaps of [generic/Bitmap.h]; an interrupt goes from the wrappers
    ([machine/isr_wrapper.S]) to its handler or to the IRQ thread, which waits
    on a semaphore ([runtime/BlockingSync.h]).

    ** Files of the library

    - Prelude.v: faults and the error monad, machine words, lists indexed by
      words, reachability of step relations, tactics and hint databases.
    - Bitmanip.v, Bitmap.v, RegionSet.v, Intrusive.v, Buffers.v,
      ManagedArray.v: [generic/basics.h], [bitmanip.h], [Bitmap.h],
      [RegionSet.h], [IntrusiveContainers.h], [Buffers.h], [ManagedArray.h].
    - Memory.v, Paging.v: [machine/Memory.h], [machine/Paging.h].
    - FrameManager.v, AddressSpace.v: [kernel/FrameManager.h],
      [kernel/AddressSpace.h]; FrameManager.v needs a set of frames
      ([FrameSet], implemented by Bitmap.v), Paging.v a source of frames
      ([FrameSource], implemented by FrameManager.v).
    - SpinLock.v: [kernel/SpinLock.h] and the lock count of
      [machine/Processor.h].
    - Scheduler.v: [runtime/Scheduler.h], [Thread.h], [Thread.cc],
      [RuntimeImpl.h], [Stack.S].
    - BlockingSync.v, SyncObjects.v: [runtime/BlockingSync.h],
      [runtime/SyncQueues.h].
    - Ports.v, Apic.v, Keyboard.v, Pci.v: I/O instructions and the drivers in
      [machine/APIC.h], [devices/Keyboard.cc], [devices/PCI.h],
      [devices/PCI.cc], as programs in a monad over the state of the devices.
    - Descriptors.v, Interrupts.v: [machine/Descriptors.h], the tables of
      [machine/Processor.cc], [machine/isr_wrapper.S] and the interrupt part
      of [machine/Machine.cc].
    - Files.v: [world/Access.h], [world/Access.cc],
      [runtime/SynchronizedArray.h] and the file calls of
      [kernel/syscalls.cc].
(*MORE-FILES*)
    ** What the theorems show

    Containers: the hierarchical bitmap keeps its summary levels exact and
    finds what is there, region sets stay sorted and disjoint, intrusive lists
    and queues refine sequences, the ring buffer is a FIFO queue, indices of
    the managed array are unique while they are in use.  Memory: no frame is
    handed out twice and frames are zeroed when that is promised, [mapPage]
    and [unmap] change exactly one translation, the recursive page-table
    addresses are those of the entries, an unmapped page is released only when
    no processor can have it in its TLB, and it is released.  Concurrency:
    mutual exclusion of the spin locks for any interleaving of the processors,
    FIFO order of the ticket lock, no thread runs on two processors or on a
    destroyed stack, and blocking, time-outs and cancellation, interleaved at
    every shared access, refine an abstract machine in which a waiting thread
    is granted or fails in one step; mutex, semaphore and message queue are
    correct on that machine.  Interrupts: the tables lead each of the 256
    vectors to its handler, no recorded interrupt is lost.  Drivers: the
    keyboard handler ends, reads everything and decodes what is typed, PCI
    enumeration finds what can be reached.  Handles: no object is used after
    it is deleted, and all errors of the file calls.
(*MORE-THMS*)
    ** Conventions, bounds and fuel

    A C++ integer of [w] bits is a [Z] in [0, 2^w) with the wrap-around
    written out ([wrap], the notations of [word_scope]); pointers are
    addresses, 0 is null.  [KASSERT], [KABORT], accesses outside of an array
    or through a bad pointer are values of [fault].  Functions on state
    return [res]; where other threads or processors can interfere, a function
    is cut into steps and the theorem is about all interleavings.  Loops with
    a counter or a list are structural; other loops have fuel, and the
    theorems say how much is enough: [reserveIndex] calls itself at most once
    (2); bitmap searches need the number of levels; a page-table access
    faults at most once per level; busy-waiting needs one round on a device
    that is ready; the keyboard handler needs more rounds than there are
    bytes pending; PCI bridges nest at most 256 deep; reading a file needs
    one call more than there are bytes.

    ** Not modelled

    Third-party code in [extern/] (dlmalloc, the patched STL trees, elfio,
    cdi, lwip, multiboot), assembly that only moves registers, the output
    classes, tests and user programs.  Cache and TLB timing, and the contents
    of registers in a context switch, are abstracted to whether they are
    valid. *)
From Stdlib Require Import ZArith Lia Bool.
From stdpp Require Import base tactics option numbers list.

#[global] Set Default Goal Selector "!".
#[global] Open Scope Z_scope.

(** ** Failures

    A [KASSERT]/[GENASSERT] that does not hold prints a message and calls
    [Reboot], [KABORT] does the same unconditionally; neither returns.  An
    access outside an array is undefined behaviour in C++.  All of them end
    the modelled operation with a fault. *)
Inductive fault :=
  | AssertFailed      (* KASSERT / GENASSERT *)
  | Aborted           (* KABORT *)
  | OutOfBounds       (* an array access outside the array *)
  | NullDeref         (* access through a null or dangling pointer *)
  | Deadlock          (* a loop of the code that does not end *)
  | OutOfFuel.        (* the fuel of the model was too small *)

Inductive res (A : Type) :=
  | Ok (a : A)
  | Err (f : fault).
Arguments Ok {A} a.
Arguments Err {A} f.

#[export] Instance fault_eq_dec : EqDecision fault.
Proof. solve_decision. Defined.
#[export] Instance res_eq_dec {A} `{EqDecision A} : EqDecision (res A).
Proof. solve_decision. Defined.

#[export] Instance res_ret : MRet res := fun A a => Ok a.
#[export] Instance res_bind : MBind res := fun A B k m =>
  match m with Ok a => k a | Err f => Err f end.

Definition kassert (b : bool) : res unit := if b then Ok tt else Err AssertFailed.

(** reading an option as an array access *)
Definition in_bounds {A} (o : option A) : res A :=
  match o with Some a => Ok a | None => Err OutOfBounds end.

Definition is_ok {A} (r : res A) : bool := match r with Ok _ => true | Err _ => false end.

Lemma bind_Ok {A B} (m : res A) (k : A -> res B) b :
  mbind k m = Ok b -> exists a, m = Ok a /\ k a = Ok b.
Proof. destruct m; [eauto | done]. Qed.

Lemma kassert_Ok b u : kassert b = Ok u <-> b = true.
Proof. by destruct b, u. Qed.

Lemma in_bounds_Ok {A} (o : option A) a : in_bounds o = Ok a <-> o = Some a.
Proof. destruct o; simpl; split; congruence. Qed.

(** Take an equation [... = Ok _] between monadic terms apart. *)
Ltac res_inv :=
  repeat match goal with
  | H : mbind _ _ = Ok _ |- _ =>
      let a := fresh "a" in let E := fresh "E" in
      apply bind_Ok in H as (a & E & H)
  | H : kassert _ = Ok _ |- _ => apply kassert_Ok in H
  | H : in_bounds _ = Ok _ |- _ => apply in_bounds_Ok in H
  | H : Ok _ = Ok _ |- _ => injection H as H; subst
  | H : mret _ = Ok _ |- _ => injection H as H; subst
  | H : Err _ = Ok _ |- _ => discriminate H
  end.

(** ** Machine words

    A [w]-bit unsigned integer is a [Z] in [0, 2^w); [mword], [vaddr],
    [paddr] and [size_t] are 64 bits wide. *)
Definition wrap (w x : Z) : Z := x mod 2 ^ w.
Definition is_word (w x : Z) : Prop := 0 <= x < 2 ^ w.

Definition to_signed (w x : Z) : Z :=
  let y := wrap w x in if y <? 2 ^ (w - 1) then y else y - 2 ^ w.

Definition charbits : Z := 8.
Definition W : Z := 64.   (* bitsize<mword>() *)

Declare Scope word_scope.
Delimit Scope word_scope with w.
Notation "a + b" := (wrap 64 (Z.add a b)) : word_scope.
Notation "a - b" := (wrap 64 (Z.sub a b)) : word_scope.
Notation "a * b" := (wrap 64 (Z.mul a b)) : word_scope.
Notation "a << b" := (wrap 64 (Z.shiftl a b)) (at level 33, left associativity) : word_scope.
Notation "a >> b" := (Z.shiftr a b) (at level 33, left associativity) : word_scope.
Notation "'~w' a" := (wrap 64 (Z.lnot a)) (at level 30, right associativity) : word_scope.

Lemma wrap_bounds w x : 0 <= w -> 0 <= wrap w x < 2 ^ w.
Proof. intros. apply Z.mod_pos_bound. lia. Qed.

Lemma wrap_small w x : 0 <= x < 2 ^ w -> wrap w x = x.
Proof. apply Z.mod_small. Qed.

Lemma wrap_testbit w x i :
  0 <= w -> Z.testbit (wrap w x) i = (i <? w) && Z.testbit x i.
Proof.
  intros Hw. unfold wrap. destruct (Z.ltb_spec i w); simpl.
  - apply Z.mod_pow2_bits_low; lia.
  - apply Z.mod_pow2_bits_high; lia.
Qed.

Lemma word_testbit_high w x i : is_word w x -> w <= i -> Z.testbit x i = false.
Proof.
  intros Hx Hi. unfold is_word in Hx.
  assert (0 <= w) by (destruct (Z.neg_nonneg_cases w); [|done];
    rewrite Z.pow_neg_r in Hx by done; lia).
  rewrite <- (Z.mod_small x (2 ^ w)) by done. apply Z.mod_pow2_bits_high. lia.
Qed.

Lemma word_of_testbit w x :
  0 <= w -> 0 <= x -> (forall i, w <= i -> Z.testbit x i = false) -> is_word w x.
Proof.
  intros Hw Hx Hb. split; [done|].
  destruct (Z.eq_dec x 0) as [->|Hn]; [lia|].
  apply Z.log2_lt_pow2; [lia|].
  destruct (Z.lt_ge_cases (Z.log2 x) w) as [|Hc]; [done|].
  specialize (Hb (Z.log2 x) Hc). rewrite Z.bit_log2 in Hb; [done|lia].
Qed.

(** Rewriting with the specifications of the bit operations. *)
Create Rewrite HintDb bits.
#[export] Hint Rewrite Z.land_spec Z.lor_spec Z.lxor_spec Z.testbit_0_l : bits.
#[export] Hint Rewrite Z.lnot_spec Z.shiftl_spec Z.shiftr_spec wrap_testbit using lia : bits.
#[export] Hint Rewrite andb_true_l andb_true_r andb_false_l andb_false_r
  orb_true_l orb_true_r orb_false_l orb_false_r : bits.

Lemma ones_testbit w i : 0 <= w -> 0 <= i -> Z.testbit (2 ^ w - 1) i = (i <? w).
Proof.
  intros. replace (2 ^ w - 1) with (Z.ones w) by (rewrite Z.ones_equiv; lia).
  destruct (Z.ltb_spec i w); [apply Z.ones_spec_low | apply Z.ones_spec_high]; lia.
Qed.

Lemma pow2_testbit n i : 0 <= n -> Z.testbit (2 ^ n) i = (i =? n).
Proof.
  intros. destruct (Z.eqb_spec i n) as [->|]; [by apply Z.pow2_bits_true|].
  by apply Z.pow2_bits_false.
Qed.

Lemma word_eq_testbit x y :
  (forall i, 0 <= i -> Z.testbit x i = Z.testbit y i) -> x = y.
Proof. apply Z.bits_inj'. Qed.

Lemma word_zero_testbit w x :
  is_word w x -> (forall i, 0 <= i < w -> Z.testbit x i = false) -> x = 0.
Proof.
  intros Hx Hb. apply word_eq_testbit. intros i Hi. rewrite Z.testbit_0_l.
  destruct (Z.lt_ge_cases i w); [apply Hb; lia | by apply (word_testbit_high w)].
Qed.

Lemma word_nonzero_testbit w x :
  is_word w x -> x <> 0 -> exists i, 0 <= i < w /\ Z.testbit x i = true.
Proof.
  intros Hx Hn. exists (Z.log2 x). unfold is_word in *.
  pose proof (Z.log2_nonneg x).
  split; [split; [done|]; apply Z.log2_lt_pow2; lia | apply Z.bit_log2; lia].
Qed.

(** ** Lists indexed by words *)
Definition lookupZ {A} (l : list A) (i : Z) : option A :=
  if i <? 0 then None else l !! Z.to_nat i.
Definition insertZ {A} (i : Z) (x : A) (l : list A) : list A :=
  if i <? 0 then l else <[Z.to_nat i := x]> l.
Definition lenZ {A} (l : list A) : Z := Z.of_nat (length l).

Lemma lookupZ_nat {A} (l : list A) (i : nat) : lookupZ l (Z.of_nat i) = l !! i.
Proof. unfold lookupZ. rewrite (proj2 (Z.ltb_ge _ _)) by lia. by rewrite Nat2Z.id. Qed.

Lemma lookupZ_Some {A} (l : list A) i x : lookupZ l i = Some x -> 0 <= i < lenZ l.
Proof.
  unfold lookupZ, lenZ. destruct (Z.ltb_spec i 0); [done|].
  intros ?%lookup_lt_Some. lia.
Qed.

Lemma lookupZ_is_Some {A} (l : list A) i : 0 <= i < lenZ l -> is_Some (lookupZ l i).
Proof.
  unfold lookupZ, lenZ. intros. destruct (Z.ltb_spec i 0); [lia|].
  apply lookup_lt_is_Some. lia.
Qed.

Lemma lookupZ_None {A} (l : list A) i : lookupZ l i = None <-> i < 0 \/ lenZ l <= i.
Proof.
  unfold lookupZ, lenZ. destruct (Z.ltb_spec i 0); [split; auto|].
  rewrite lookup_ge_None. lia.
Qed.

Lemma lookupZ_insertZ_eq {A} (l : list A) i x :
  0 <= i < lenZ l -> lookupZ (insertZ i x l) i = Some x.
Proof.
  unfold lookupZ, insertZ, lenZ. intros. destruct (Z.ltb_spec i 0); [lia|].
  apply list_lookup_insert_eq. lia.
Qed.

Lemma lookupZ_insertZ_ne {A} (l : list A) i j x :
  i <> j -> lookupZ (insertZ i x l) j = lookupZ l j.
Proof.
  unfold lookupZ, insertZ. intros.
  destruct (Z.ltb_spec i 0), (Z.ltb_spec j 0); try done.
  apply list_lookup_insert_ne. lia.
Qed.

Lemma lenZ_insertZ {A} (l : list A) i x : lenZ (insertZ i x l) = lenZ l.
Proof. unfold lenZ, insertZ. destruct (i <? 0); [done|]. by rewrite length_insert. Qed.

Lemma lenZ_nonneg {A} (l : list A) : 0 <= lenZ l.
Proof. unfold lenZ. lia. Qed.

Lemma lenZ_cons {A} (x : A) l : lenZ (x :: l) = 1 + lenZ l.
Proof. unfold lenZ. simpl length. lia. Qed.

Lemma lenZ_app {A} (l k : list A) : lenZ (l ++ k) = lenZ l + lenZ k.
Proof. unfold lenZ. rewrite length_app. lia. Qed.

Create Rewrite HintDb lenZ.
#[export] Hint Rewrite @lenZ_insertZ @lenZ_cons @lenZ_app : lenZ.

Lemma alter_insert {A} (f : A -> A) (l : list A) i x : l !! i = Some x -> alter f i l = <[i := f x]> l.
Proof.
  intros Hi. pose proof (lookup_lt_Some _ _ _ Hi). apply list_eq. intros j. destruct (decide (i = j)) as [<-|Hne].
  - rewrite list_lookup_alter_eq, list_lookup_insert_eq by done. by rewrite Hi.
  - by rewrite list_lookup_alter_ne, list_lookup_insert_ne.
Qed.

Lemma Forall_mono {A} (P Q : A -> Prop) l :
  (forall x, P x -> Q x) -> Forall P l -> Forall Q l.
Proof. induction 2; constructor; auto. Qed.

(** ** The first index of an interval with a property *)
Definition first_from (P : Z -> bool) (lo hi r : Z) : Prop :=
  lo <= r <= hi /\ (forall j, lo <= j < r -> P j = false) /\ (r < hi -> P r = true).

Lemma first_from_unique P lo hi r r' :
  first_from P lo hi r -> first_from P lo hi r' -> r = r'.
Proof.
  intros (Hr & Hb & Ht) (Hr' & Hb' & Ht').
  destruct (Z.lt_trichotomy r r') as [|[|]]; [|done|].
  - specialize (Hb' r). specialize (Ht ltac:(lia)). rewrite Hb' in Ht; [done|lia].
  - specialize (Hb r'). specialize (Ht' ltac:(lia)). rewrite Hb in Ht'; [done|lia].
Qed.

Lemma first_from_app P lo mid hi r :
  lo <= mid <= hi -> first_from P mid hi r ->
  (forall j, lo <= j < mid -> P j = false) -> first_from P lo hi r.
Proof.
  intros Hm (Hr & Hb & Ht) Hlo. repeat split; try lia; [|done].
  intros j Hj. destruct (Z.lt_ge_cases j mid); [apply Hlo | apply Hb]; lia.
Qed.

(** ** Sums over a list *)
Definition lsum {A} (f : A -> Z) (l : list A) : Z := foldr (fun x n => f x + n) 0 l.

Section lsum.
Context {A : Type} (f : A -> Z).

Lemma lsum_app l k : lsum f (l ++ k) = lsum f l + lsum f k.
Proof. induction l as [|x l IH]; simpl; [lia|]. unfold lsum in *. simpl. lia. Qed.

Lemma lsum_insert l i x y : l !! i = Some x -> lsum f (<[i := y]> l) = lsum f l - f x + f y.
Proof.
  unfold lsum. revert i. induction l as [|x0 l IH]; intros [|i] Hi; simplify_eq/=; [lia|]. rewrite (IH _ Hi). lia.
Qed.

Lemma lsum_alter l i x g : l !! i = Some x -> lsum f (alter g i l) = lsum f l - f x + f (g x).
Proof.
  unfold lsum. revert i. induction l as [|x0 l IH]; intros [|i] Hi; simplify_eq/=; [lia|]. rewrite (IH _ Hi). lia.
Qed.

Lemma lsum_nonneg l : (forall x, 0 <= f x) -> 0 <= lsum f l.
Proof. intros Hf. unfold lsum. induction l as [|x l IH]; simpl; [lia|]. pose proof (Hf x). lia. Qed.

Lemma lsum_ge l i x : (forall x, 0 <= f x) -> l !! i = Some x -> f x <= lsum f l.
Proof.
  intros Hf. unfold lsum. revert i. induction l as [|x0 l IH]; intros [|i] Hi; simplify_eq/=.
  - pose proof (lsum_nonneg l Hf). unfold lsum in *. lia.
  - pose proof (IH _ Hi). pose proof (Hf x0). lia.
Qed.

Lemma lsum_ge2 l i j x y : (forall x, 0 <= f x) -> l !! i = Some x -> l !! j = Some y -> i <> j -> f x + f y <= lsum f l.
Proof.
  intros Hf. unfold lsum. revert i j. induction l as [|x0 l IH]; intros [|i] [|j] Hi Hj Hne; simplify_eq/=.
  - pose proof (lsum_ge _ _ _ Hf Hj). unfold lsum in *. lia.
  - pose proof (lsum_ge _ _ _ Hf Hi). unfold lsum in *. lia.
  - pose proof (IH i j Hi Hj ltac:(congruence)). pose proof (Hf x0). lia.
Qed.

Lemma lsum_pos l : 0 < lsum f l -> exists i x, l !! i = Some x /\ 0 < f x.
Proof.
  unfold lsum. induction l as [|x0 l IH]; cbn; [lia|]. intros H. destruct (Z.lt_ge_cases 0 (f x0)); [by exists 0%nat, x0|].
  destruct IH as (i & x & Hi & Hx); [lia|]. by exists (S i), x.
Qed.

Lemma lsum_le l : (forall x, f x <= 1) -> lsum f l <= Z.of_nat (length l).
Proof. intros Hf. unfold lsum. induction l as [|x l IH]; simpl; [lia|]. pose proof (Hf x). lia. Qed.

Lemma lsum_zero l : (forall i x, l !! i = Some x -> f x = 0) -> lsum f l = 0.
Proof.
  unfold lsum. induction l as [|x l IH]; intros H; [done|]. simpl. rewrite (H 0%nat x eq_refl).
  rewrite IH; [done|]. intros i y. apply (H (S i)).
Qed.
End lsum.

(** ** Reachability of a step relation *)
Section steps.
Context {S : Type} (step : S -> S -> Prop).

Inductive steps : S -> S -> Prop :=
  | steps_refl s : steps s s
  | steps_step s t u : step s t -> steps t u -> steps s u.

Lemma steps_one s t : step s t -> steps s t.
Proof. intros. eapply steps_step; [done | constructor]. Qed.

Lemma steps_trans s t u : steps s t -> steps t u -> steps s u.
Proof. induction 1; intros; [done | eapply steps_step; eauto]. Qed.

Lemma steps_invariant (I : S -> Prop) :
  (forall s t, I s -> step s t -> I t) -> forall s t, steps s t -> I s -> I t.
Proof. intros Hstep s t Hs. induction Hs; eauto. Qed.
End steps.
