(* ===== verification/Bitmanip.v ===== *)
(** * Bit manipulation: generic/basics.h and generic/bitmanip.h

    The arithmetic helpers on powers of two, the bit scans, [BitString]
    fields, the single-bit updates of a word and the two multi-word scans
    [multiscan] and [multiscan_rev].  Template parameters are arguments; the
    type parameter [T] is its width [w] in bits. *)
From Stdlib Require Import ZArith Lia Bool.
From stdpp Require Import base tactics option numbers list.
From S2P Require Import Prelude.

(** ** generic/basics.h *)
Definition pow2 (w x : Z) : Z := wrap w (Z.shiftl 1 x).
Definition ispow2 (w x : Z) : bool := Z.land x (wrap w (x - 1)) =? 0.
Definition align_up (w x a : Z) : Z :=
  Z.land (wrap w (x + a - 1)) (wrap w (Z.lnot (wrap w (a - 1)))).
Definition align_down (w x a : Z) : Z :=
  Z.land x (wrap w (Z.lnot (wrap w (a - 1)))).
Definition aligned (w x a : Z) : bool := Z.land x (wrap w (a - 1)) =? 0.
Definition divup (w n d : Z) : Z := wrap w (wrap w (n - 1) / d + 1).
Definition limit (w : Z) : Z := wrap w (Z.lnot 0).

(** ** generic/bitmanip.h: masks *)
Definition bitmask (w Width : Z) : Z :=
  if Width =? w then limit w else wrap w (pow2 w Width - 1).
Definition bitmask2 (w Pos Width : Z) : Z := wrap w (Z.shiftl (bitmask w Width) Pos).

(** ** the compiler builtins [ctz], [clz] and [popcount] *)
Fixpoint pos_ctz (p : positive) : Z :=
  match p with xO q => 1 + pos_ctz q | _ => 0 end.
Definition ctz (x : Z) : Z := match x with Zpos p => pos_ctz p | _ => 0 end.
Definition clz (w x : Z) : Z := w - 1 - Z.log2 x.
Fixpoint pos_popcount (p : positive) : Z :=
  match p with xH => 1 | xO q => pos_popcount q | xI q => 1 + pos_popcount q end.

(** ** bit scans; [alt] is the result for 0, converted to [int] *)
Definition lsb (x : Z) : Z := ctz x.
Definition msb (w x : Z) : Z := w - 1 - clz w x.
Definition lsbcond (x alt : Z) : Z := to_signed 32 (if x =? 0 then alt else ctz x).
Definition msbcond (w x alt : Z) : Z :=
  to_signed 32 (if x =? 0 then alt else w - 1 - clz w x).
Definition popcount (x : Z) : Z := match x with Zpos p => pos_popcount p | _ => 0 end.
Definition floorlog2 (w x : Z) : Z := msbcond w x w.
Definition ceilinglog2 (w x : Z) : Z := msbcond w (wrap w (x - 1)) (limit w) + 1.
Definition alignment (w x : Z) : Z := lsbcond x w.

(** ** BitString<T,Pos,Width>: a field of a word *)
Record BitString := { bs_w : Z; bs_Pos : Z; bs_Width : Z }.

(** the [static_assert] of the class *)
Definition bs_valid (b : BitString) : Prop :=
  0 <= bs_Pos b /\ 0 < bs_Width b /\ bs_Pos b + bs_Width b <= bs_w b.

Definition bs_mask (b : BitString) : Z := bitmask2 (bs_w b) (bs_Pos b) (bs_Width b).
Definition bs_put (b : BitString) (f : Z) : Z :=
  wrap (bs_w b) (Z.shiftl (Z.land f (bitmask (bs_w b) (bs_Width b))) (bs_Pos b)).
Definition bs_get (b : BitString) (f : Z) : Z :=
  Z.land (Z.shiftr f (bs_Pos b)) (bitmask (bs_w b) (bs_Width b)).
Definition bs_excl (b : BitString) (f : Z) : Z :=
  Z.land f (wrap (bs_w b) (Z.lnot (bs_mask b))).

(** ** single-bit updates of a word; the atomic variants do the same in one
    step *)
Definition bit_set (a idx : Z) : Z := Z.lor a (wrap 64 (Z.shiftl 1 idx)).
Definition bit_clr (a idx : Z) : Z :=
  Z.land a (wrap 64 (Z.lnot (wrap 64 (Z.shiftl 1 idx)))).
Definition bit_flp (a idx : Z) : Z := Z.lxor a (wrap 64 (Z.shiftl 1 idx)).

(** ** multiscan, multiscan_rev *)
Section multiscan.
Context (findset : bool) (data : list Z).

Definition datafield (i : Z) : res Z :=
  x ← in_bounds (lookupZ data i);
  mret (if findset then x else wrap 64 (Z.lnot x)).

(** the asm block: [bsfq] leaves [scan] alone and sets ZF for a zero
    operand; [cmovz] then writes [bitsize], [cmovnz] clears [newmask] *)
Definition scan_fwd (d newmask : Z) : Z * Z :=
  if d =? 0 then (64, newmask) else (ctz d, 0).
Definition scan_rev (d newmask : Z) : Z * Z :=
  if d =? 0 then (0, newmask) else (Z.log2 d, 0).

Fixpoint multiscan_loop (n : nat) (i result mask : Z) : res Z :=
  match n with
  | O => mret result
  | S n =>
      d ← datafield i;
      let '(scan, newmask) := scan_fwd d mask in
      multiscan_loop n (i + 1) (wrap 64 (result + Z.land scan mask)) newmask
  end.

Definition multiscan (N : Z) (idx : Z) : res Z :=
  let i := idx / 64 in
  let mask := limit 64 in
  if idx =? 0 then multiscan_loop (Z.to_nat (N - i)) i 0 mask
  else
    d0 ← datafield i;
    let d := Z.land d0 (wrap 64 (Z.lnot (bitmask 64 (idx mod 64)))) in
    let '(scan, newmask) := scan_fwd d mask in
    let result := wrap 64 (align_down 64 idx 64 + Z.land scan mask) in
    multiscan_loop (Z.to_nat (N - (i + 1))) (i + 1) result newmask.

Fixpoint multiscan_rev_loop (n : nat) (result mask : Z) : res Z :=
  match n with
  | O => mret result
  | S n =>
      d ← datafield (Z.of_nat n);
      let '(scan, newmask) := scan_rev d mask in
      multiscan_rev_loop n
        (wrap 64 (result + (Z.land scan mask + Z.land 64 (wrap 64 (Z.lnot mask)))))
        newmask
  end.

Definition multiscan_rev (N : Z) : res Z :=
  multiscan_rev_loop (Z.to_nat N) 0 (limit 64).
End multiscan.

(** ** Words: basic facts *)
Lemma limit_eq w : 0 <= w -> limit w = 2 ^ w - 1.
Proof.
  intros. unfold limit. change (Z.lnot 0) with (-1).
  pose proof (Z.pow_pos_nonneg 2 w). unfold wrap.
  symmetry. apply (Z.mod_unique_pos _ _ (-1)); lia.
Qed.

Lemma pow2_eq w x : 0 <= x < w -> pow2 w x = 2 ^ x.
Proof.
  intros. unfold pow2. rewrite Z.shiftl_1_l. apply wrap_small.
  split; [apply Z.pow_nonneg; lia | apply Z.pow_lt_mono_r; lia].
Qed.

Lemma bitmask_eq w n : 0 <= n <= w -> bitmask w n = 2 ^ n - 1.
Proof.
  intros. unfold bitmask. destruct (Z.eqb_spec n w) as [->|].
  - apply limit_eq. lia.
  - rewrite pow2_eq by lia. apply wrap_small.
    assert (0 < 2 ^ n < 2 ^ w) by (split; [apply Z.pow_pos_nonneg | apply Z.pow_lt_mono_r]; lia).
    lia.
Qed.

Lemma bitmask_testbit w n i :
  0 <= n <= w -> 0 <= i -> Z.testbit (bitmask w n) i = (i <? n).
Proof. intros. rewrite bitmask_eq by lia. apply ones_testbit; lia. Qed.

Lemma land_bitmask w x n : 0 <= n <= w -> Z.land x (bitmask w n) = x mod 2 ^ n.
Proof.
  intros. rewrite bitmask_eq by lia.
  replace (2 ^ n - 1) with (Z.ones n) by (rewrite Z.ones_equiv; lia).
  apply Z.land_ones. lia.
Qed.

Lemma pow2_word w k : 0 <= k < w -> is_word w (2 ^ k).
Proof. intros. split; [apply Z.pow_nonneg; lia | apply Z.pow_lt_mono_r; lia]. Qed.

Lemma wrap_pred_pow2 w k : 0 <= k < w -> wrap w (2 ^ k - 1) = 2 ^ k - 1.
Proof.
  intros. pose proof (pow2_word w k H) as [_ ?]. pose proof (Z.pow_pos_nonneg 2 k).
  apply wrap_small. lia.
Qed.

Lemma aligned_spec w x k :
  0 <= k < w -> aligned w x (2 ^ k) = (x mod 2 ^ k =? 0).
Proof.
  intros. unfold aligned. rewrite wrap_pred_pow2 by lia.
  rewrite <- (bitmask_eq w) by lia. by rewrite land_bitmask by lia.
Qed.

(** masking with [~(a - 1)] clears the low bits *)
Lemma land_not_low w x k :
  0 <= k < w -> is_word w x ->
  Z.land x (wrap w (Z.lnot (wrap w (2 ^ k - 1)))) = x / 2 ^ k * 2 ^ k.
Proof.
  intros Hk Hx. rewrite wrap_pred_pow2 by lia.
  replace (2 ^ k - 1) with (Z.ones k) by (rewrite Z.ones_equiv; lia).
  rewrite <- Z.shiftr_div_pow2, <- Z.shiftl_mul_pow2, <- Z.ldiff_ones_r by lia.
  apply word_eq_testbit. intros i Hi.
  rewrite Z.ldiff_spec, Z.land_spec, wrap_testbit, Z.lnot_spec by lia.
  destruct (Z.ltb_spec i w); [done|].
  rewrite (word_testbit_high w x i) by done. by rewrite andb_false_l.
Qed.

Lemma align_down_eq w x k :
  0 <= k < w -> is_word w x -> align_down w x (2 ^ k) = x / 2 ^ k * 2 ^ k.
Proof. apply land_not_low. Qed.

Lemma align_up_eq w x k :
  0 <= k < w -> 0 <= x -> x + 2 ^ k - 1 < 2 ^ w ->
  align_up w x (2 ^ k) = (x + 2 ^ k - 1) / 2 ^ k * 2 ^ k.
Proof.
  intros Hk Hx Hov. unfold align_up. pose proof (Z.pow_pos_nonneg 2 k).
  rewrite (wrap_small w (x + 2 ^ k - 1)) by lia.
  apply land_not_low; [lia | split; lia].
Qed.

(** [divup] rounds up for a positive dividend *)
Lemma divup_eq w n d :
  0 < d -> 0 < n < 2 ^ w -> divup w n d = (n - 1) / d + 1.
Proof.
  intros. unfold divup. rewrite (wrap_small w (n - 1)) by lia.
  apply wrap_small. pose proof (Z.div_pos (n - 1) d).
  assert ((n - 1) / d <= n - 1) by (apply Z.div_le_upper_bound; nia). lia.
Qed.

(** ** The builtins *)
Lemma pos_ctz_nonneg p : 0 <= pos_ctz p.
Proof. induction p; simpl; lia. Qed.

Lemma pos_ctz_spec p :
  Z.testbit (Zpos p) (pos_ctz p) = true /\
  forall i, 0 <= i < pos_ctz p -> Z.testbit (Zpos p) i = false.
Proof.
  induction p as [p IH|p IH|]; cbn [pos_ctz]; [split; [done|lia]| |split; [done|lia]].
  destruct IH as [IH1 IH2]. pose proof (pos_ctz_nonneg p).
  rewrite Pos2Z.inj_xO. split.
  - replace (1 + pos_ctz p) with (Z.succ (pos_ctz p)) by lia.
    by rewrite Z.testbit_even_succ by lia.
  - intros i Hi. destruct (Z.eq_dec i 0) as [->|]; [apply Z.testbit_even_0|].
    replace i with (Z.succ (Z.pred i)) by lia. rewrite Z.testbit_even_succ by lia.
    apply IH2. lia.
Qed.

Lemma ctz_spec w x :
  0 <= w -> is_word w x -> x <> 0 ->
  0 <= ctz x < w /\ Z.testbit x (ctz x) = true /\
  forall i, 0 <= i < ctz x -> Z.testbit x i = false.
Proof.
  intros Hw Hx Hn. destruct x as [|p|p]; [done| |destruct Hx; lia].
  simpl ctz. destruct (pos_ctz_spec p) as [H1 H2]. pose proof (pos_ctz_nonneg p).
  repeat split; [done| |done|done].
  destruct (Z.lt_ge_cases (pos_ctz p) w) as [|Hc]; [done|].
  by rewrite (word_testbit_high w) in H1.
Qed.

Lemma log2_spec w x :
  is_word w x -> x <> 0 ->
  0 <= Z.log2 x < w /\ Z.testbit x (Z.log2 x) = true /\
  forall i, Z.log2 x < i -> Z.testbit x i = false.
Proof.
  intros [Hx Hb] Hn. pose proof (Z.log2_nonneg x).
  split; [split; [done|apply Z.log2_lt_pow2; lia]|].
  split; [apply Z.bit_log2; lia|]. intros. apply Z.bits_above_log2; lia.
Qed.

(** ** Single-bit updates *)
Lemma shl1_eq i : 0 <= i < 64 -> wrap 64 (Z.shiftl 1 i) = 2 ^ i.
Proof. intros. apply (pow2_eq 64 i). lia. Qed.

Lemma bit_set_testbit a i j :
  0 <= i < 64 -> 0 <= j -> Z.testbit (bit_set a i) j = (j =? i) || Z.testbit a j.
Proof.
  intros. unfold bit_set. rewrite shl1_eq by lia.
  rewrite Z.lor_spec, pow2_testbit by lia. apply orb_comm.
Qed.

Lemma bit_clr_testbit a i j :
  0 <= i < 64 -> 0 <= j -> is_word 64 a ->
  Z.testbit (bit_clr a i) j = negb (j =? i) && Z.testbit a j.
Proof.
  intros. unfold bit_clr. rewrite shl1_eq by lia.
  rewrite Z.land_spec, wrap_testbit, Z.lnot_spec, pow2_testbit by lia.
  destruct (Z.ltb_spec j 64); [apply andb_comm|].
  rewrite (word_testbit_high 64 a j) by done. by destruct (j =? i).
Qed.

Lemma bit_flp_testbit a i j :
  0 <= i < 64 -> 0 <= j -> Z.testbit (bit_flp a i) j = xorb (Z.testbit a j) (j =? i).
Proof. intros. unfold bit_flp. rewrite shl1_eq by lia. by rewrite Z.lxor_spec, pow2_testbit by lia. Qed.

Lemma bit_set_word a i : 0 <= i < 64 -> is_word 64 a -> is_word 64 (bit_set a i).
Proof.
  intros Hi Ha. apply word_of_testbit; [lia| |].
  - unfold bit_set. apply Z.lor_nonneg. split; [apply Ha | apply wrap_bounds; lia].
  - intros j Hj. rewrite bit_set_testbit by lia.
    rewrite (word_testbit_high 64 a j) by (done || lia).
    destruct (Z.eqb_spec j i); [lia|done].
Qed.

Lemma bit_clr_word a i : 0 <= i < 64 -> is_word 64 a -> is_word 64 (bit_clr a i).
Proof.
  intros Hi Ha. apply word_of_testbit; [lia| |].
  - unfold bit_clr. apply Z.land_nonneg. left. apply Ha.
  - intros j Hj. rewrite bit_clr_testbit by (done || lia).
    rewrite (word_testbit_high 64 a j) by (done || lia). apply andb_false_r.
Qed.

Lemma bit_flp_word a i : 0 <= i < 64 -> is_word 64 a -> is_word 64 (bit_flp a i).
Proof.
  intros Hi Ha. apply word_of_testbit; [lia| |].
  - unfold bit_flp. apply Z.lxor_nonneg. split; intros; [apply wrap_bounds; lia | apply Ha].
  - intros j Hj. rewrite bit_flp_testbit by (done || lia).
    rewrite (word_testbit_high 64 a j) by (done || lia).
    destruct (Z.eqb_spec j i); [lia|done].
Qed.

(** ** Multi-word scans *)
(** bit [i] of a little-endian sequence of 64-bit words *)
Definition wbit (data : list Z) (i : Z) : bool :=
  match lookupZ data (i / 64) with Some x => Z.testbit x (i mod 64) | None => false end.

Definition words (data : list Z) : Prop := Forall (is_word 64) data.

(** the property the scans look for *)
Definition matches (findset : bool) (data : list Z) (i : Z) : bool :=
  Bool.eqb (wbit data i) findset.

Lemma words_lookupZ data i x : words data -> lookupZ data i = Some x -> is_word 64 x.
Proof.
  unfold lookupZ. destruct (i <? 0); [done|]. intros Hw Hl.
  by eapply Forall_lookup_1 in Hl.
Qed.

Lemma wbit_word data i j x :
  lookupZ data i = Some x -> 0 <= j < 64 -> wbit data (64 * i + j) = Z.testbit x j.
Proof.
  intros Hl Hj. unfold wbit.
  replace ((64 * i + j) / 64) with i by (rewrite Z.mul_comm, Z.div_add_l by lia; rewrite Z.div_small; lia).
  replace ((64 * i + j) mod 64) with j
    by (rewrite Z.mul_comm, Z.add_comm, Z.mod_add by lia; rewrite Z.mod_small; lia).
  by rewrite Hl.
Qed.

Section multiscan_facts.
Context (findset : bool) (data : list Z) (N : Z).
Hypothesis Hwords : words data.
Hypothesis Hlen : lenZ data = N.
Hypothesis Hsmall : 64 * N < 2 ^ 64.

Lemma datafield_spec i :
  0 <= i < N ->
  exists d, datafield findset data i = Ok d /\ is_word 64 d /\
    forall j, 0 <= j < 64 -> Z.testbit d j = matches findset data (64 * i + j).
Proof.
  intros Hi. destruct (lookupZ_is_Some data i) as [x Hx]; [lia|].
  pose proof (words_lookupZ _ _ _ Hwords Hx) as Hwx.
  unfold datafield. rewrite Hx. simpl. eexists. split; [done|].
  split; [destruct findset; [done|apply wrap_bounds; lia]|].
  intros j Hj. unfold matches. rewrite (wbit_word _ _ _ x) by done.
  destruct findset; [by destruct (Z.testbit x j)|].
  autorewrite with bits. destruct (Z.ltb_spec j 64); [|lia].
  by destruct (Z.testbit x j).
Qed.

Lemma multiscan_loop_done n i r :
  0 <= i -> i + Z.of_nat n = N -> is_word 64 r ->
  multiscan_loop findset data n i r 0 = Ok r.
Proof.
  revert i. induction n as [|n IH]; intros i Hi Hn Hr; [done|]. cbn [multiscan_loop].
  destruct (datafield_spec i) as (d & -> & _ & _); [lia|]. cbn [mbind res_bind].
  unfold scan_fwd. destruct (d =? 0).
  all: rewrite Z.land_0_r, Z.add_0_r, wrap_small by done; apply IH; lia || done.
Qed.

(** one word of a forward scan *)
Lemma scan_fwd_spec d lo i scan newmask :
  is_word 64 d -> 0 <= lo <= 64 ->
  (forall j, 0 <= j < 64 -> Z.testbit d j = (lo <=? j) && matches findset data (64 * i + j)) ->
  scan_fwd d (limit 64) = (scan, newmask) ->
  first_from (matches findset data) (64 * i + lo) (64 * i + 64) (64 * i + scan) /\
  0 <= scan <= 64 /\ newmask = (if scan =? 64 then limit 64 else 0).
Proof.
  intros Hd Hlo Hb Hscan. unfold scan_fwd in Hscan.
  destruct (Z.eqb_spec d 0) as [->|Hn]; injection Hscan as <- <-.
  - split; [|done]. split; [lia|]. split; [|lia]. intros j Hj.
    specialize (Hb (j - 64 * i) ltac:(lia)). rewrite Z.testbit_0_l in Hb.
    destruct (Z.leb_spec lo (j - 64 * i)); [|lia].
    by replace (64 * i + (j - 64 * i)) with j in Hb by lia.
  - destruct (ctz_spec 64 d) as (Hr & Ht & Hf); [lia|done..|].
    split; [|split; [lia|]; destruct (Z.eqb_spec (ctz d) 64); [lia|done]].
    rewrite Hb in Ht by lia. apply andb_prop in Ht as [Hle Ht]. apply Z.leb_le in Hle.
    split; [lia|]. split; [|done]. intros j Hj.
    specialize (Hf (j - 64 * i) ltac:(lia)). rewrite Hb in Hf by lia.
    destruct (Z.leb_spec lo (j - 64 * i)); [|lia].
    by replace (64 * i + (j - 64 * i)) with j in Hf by lia.
Qed.

Lemma land_scan scan : 0 <= scan <= 64 -> Z.land scan (limit 64) = scan.
Proof.
  intros. change (limit 64) with (bitmask 64 64). rewrite land_bitmask by lia.
  apply Z.mod_small. lia.
Qed.

Lemma multiscan_loop_search n i :
  0 <= i -> i + Z.of_nat n = N ->
  exists r, multiscan_loop findset data n i (64 * i) (limit 64) = Ok r /\
    first_from (matches findset data) (64 * i) (64 * N) r.
Proof.
  revert i. induction n as [|n IH]; intros i Hi Hn; cbn [multiscan_loop].
  { exists (64 * i). split; [done|]. split; [lia|]. split; lia. }
  destruct (datafield_spec i) as (d & -> & Hd & Hb); [lia|]. cbn [mbind res_bind].
  destruct (scan_fwd d (limit 64)) as [scan newmask] eqn:Hscan.
  destruct (scan_fwd_spec d 0 i scan newmask) as (Hf & Hr & ->); [done|lia| |done|].
  { intros j Hj. rewrite Hb by done. by destruct (Z.leb_spec 0 j); [|lia]. }
  rewrite land_scan by lia. rewrite wrap_small by lia. rewrite Z.add_0_r in Hf.
  destruct Hf as (Hf1 & Hf2 & Hf3). destruct (Z.eqb_spec scan 64) as [Hs|Hs]; [rewrite Hs in *|].
  - replace (64 * i + 64) with (64 * (i + 1)) by lia.
    destruct (IH (i + 1)) as (r & -> & Hr'); [lia..|]. exists r. split; [done|].
    apply (first_from_app _ _ (64 * (i + 1))); [lia|done|]. intros. apply Hf2. lia.
  - exists (64 * i + scan). split; [apply multiscan_loop_done; lia || (split; lia)|].
    split; [lia|]. split; [done|]. intros. apply Hf3. lia.
Qed.

(** the forward scan returns the first matching bit position
    at or after [idx], and [64 * N] when there is none *)
Lemma multiscan_first idx :
  0 <= idx < 64 * N ->
  exists r, multiscan findset data N idx = Ok r /\
    first_from (matches findset data) idx (64 * N) r.
Proof.
  intros Hidx. unfold multiscan. destruct (Z.eqb_spec idx 0) as [->|Hn].
  { rewrite Z.div_0_l by lia. apply (multiscan_loop_search _ 0); lia. }
  pose proof (Z.div_mod idx 64 ltac:(lia)) as Hdm.
  pose proof (Z.mod_pos_bound idx 64 ltac:(lia)) as Hm.
  set (i := idx / 64) in *. set (k := idx mod 64) in *.
  assert (0 <= i < N) by lia.
  destruct (datafield_spec i) as (d0 & -> & Hd0 & Hb); [lia|]. cbn [mbind res_bind].
  set (d := Z.land d0 _).
  assert (is_word 64 d) as Hd.
  { apply word_of_testbit; [lia|apply Z.land_nonneg; left; apply Hd0|].
    intros j Hj. unfold d. rewrite Z.land_spec, (word_testbit_high 64 d0) by done. done. }
  destruct (scan_fwd d (limit 64)) as [scan newmask] eqn:Hscan.
  destruct (scan_fwd_spec d k i scan newmask) as (Hf & Hr & ->); [done|lia| |done|].
  { intros j Hj. unfold d. rewrite Z.land_spec, Hb by lia.
    rewrite wrap_testbit, Z.lnot_spec, bitmask_testbit by lia.
    replace (j <? 64) with true by lia. rewrite Z.leb_antisym.
    destruct (j <? k); simpl; [apply andb_false_r | apply andb_true_r]. }
  change (align_down 64 idx 64) with (align_down 64 idx (2 ^ 6)).
  rewrite align_down_eq by (lia || (split; lia)).
  change (idx / 2 ^ 6 * 2 ^ 6) with (i * 64). rewrite (Z.mul_comm i 64).
  rewrite land_scan by lia. rewrite wrap_small by lia.
  destruct Hf as (Hf1 & Hf2 & Hf3). destruct (Z.eqb_spec scan 64) as [Hs|Hs]; [rewrite Hs in *|].
  - replace (64 * i + 64) with (64 * (i + 1)) by lia.
    destruct (multiscan_loop_search (Z.to_nat (N - (i + 1))) (i + 1)) as (r & -> & Hr'); [lia..|].
    exists r. split; [done|].
    apply (first_from_app _ _ (64 * (i + 1))); [lia|done|]. intros. apply Hf2. lia.
  - exists (64 * i + scan). split; [apply multiscan_loop_done; lia || (split; lia)|].
    split; [lia|]. split; [intros; apply Hf2; lia|]. intros. apply Hf3. lia.
Qed.

Lemma multiscan_rev_loop_done n r :
  Z.of_nat n <= N -> 0 <= r -> r + 64 * Z.of_nat n < 2 ^ 64 ->
  multiscan_rev_loop findset data n r 0 = Ok (r + 64 * Z.of_nat n).
Proof.
  revert r. induction n as [|n IH]; intros r Hn Hr Hb; cbn [multiscan_rev_loop].
  { f_equal. lia. }
  destruct (datafield_spec (Z.of_nat n)) as (d & -> & _ & _); [lia|].
  cbn [mbind res_bind]. unfold scan_rev. destruct (d =? 0).
  all: rewrite Z.land_0_r; change (Z.land 64 (wrap 64 (Z.lnot 0))) with 64;
    rewrite wrap_small by lia; rewrite IH by lia; f_equal; lia.
Qed.

(** the backward scan returns the last matching position, but 0 both when
    only position 0 matches and when none does *)
Lemma multiscan_rev_loop_search n :
  Z.of_nat n <= N ->
  exists r, multiscan_rev_loop findset data n 0 (limit 64) = Ok r /\
    (forall j, r < j < 64 * Z.of_nat n -> matches findset data j = false) /\
    (matches findset data r = true /\ 0 <= r < 64 * Z.of_nat n \/
     r = 0 /\ forall j, 0 <= j < 64 * Z.of_nat n -> matches findset data j = false).
Proof.
  induction n as [|n IH]; intros Hn; cbn [multiscan_rev_loop].
  { exists 0. split; [done|]. split; [lia|]. right. split; lia. }
  destruct (datafield_spec (Z.of_nat n)) as (d & -> & Hd & Hb); [lia|].
  cbn [mbind res_bind]. unfold scan_rev. destruct (Z.eqb_spec d 0) as [->|Hnz].
  - change (wrap 64 (0 + _)) with 0. destruct IH as (r & -> & Hab & Hr); [lia|].
    assert (forall j, 64 * Z.of_nat n <= j < 64 * Z.of_nat (S n) ->
      matches findset data j = false) as Hz.
    { intros j Hj. specialize (Hb (j - 64 * Z.of_nat n) ltac:(lia)).
      rewrite Z.testbit_0_l in Hb.
      by replace (64 * Z.of_nat n + (j - 64 * Z.of_nat n)) with j in Hb by lia. }
    exists r. split; [done|]. split.
    { intros j Hj. destruct (Z.lt_ge_cases j (64 * Z.of_nat n)); [apply Hab | apply Hz]; lia. }
    destruct Hr as [[Hm Hr]|[-> Hnone]]; [left; split; [done|lia]|].
    right. split; [done|]. intros j Hj.
    destruct (Z.lt_ge_cases j (64 * Z.of_nat n)); [apply Hnone | apply Hz]; lia.
  - destruct (log2_spec 64 d Hd Hnz) as (Hr & Ht & Hf).
    rewrite land_scan by lia. change (Z.land 64 (wrap 64 (Z.lnot (limit 64)))) with 0.
    rewrite Z.add_0_r, Z.add_0_l, wrap_small by lia.
    rewrite multiscan_rev_loop_done by lia.
    exists (Z.log2 d + 64 * Z.of_nat n). split; [done|]. split.
    + intros j Hj. specialize (Hf (j - 64 * Z.of_nat n) ltac:(lia)).
      rewrite Hb in Hf by lia.
      by replace (64 * Z.of_nat n + (j - 64 * Z.of_nat n)) with j in Hf by lia.
    + left. rewrite Hb in Ht by lia. rewrite Z.add_comm. split; [done|lia].
Qed.

Lemma multiscan_rev_last :
  exists r, multiscan_rev findset data N = Ok r /\
    (forall j, r < j < 64 * N -> matches findset data j = false) /\
    (matches findset data r = true /\ 0 <= r < 64 * N \/
     r = 0 /\ forall j, 0 <= j < 64 * N -> matches findset data j = false).
Proof.
  pose proof (lenZ_nonneg data).
  destruct (multiscan_rev_loop_search (Z.to_nat N)) as (r & ? & Hr); [lia|].
  rewrite Z2Nat.id in Hr by lia. by exists r.
Qed.
End multiscan_facts.

(** ** Powers of two and logarithms *)
Lemma land_pred_pow2 x : 0 < x -> Z.land x (x - 1) = 0 <-> x = 2 ^ Z.log2 x.
Proof.
  intros Hx. pose proof (Z.log2_nonneg x). pose proof (Z.log2_spec x Hx) as [Hlo Hhi].
  split.
  - intros Hl. destruct (Z.eq_dec x (2 ^ Z.log2 x)) as [|Hne]; [done|].
    assert (Z.testbit (Z.land x (x - 1)) (Z.log2 x) = true) as Hb; [|by rewrite Hl, Z.testbit_0_l in Hb].
    rewrite Z.land_spec, Z.bit_log2 by done.
    replace (Z.log2 x) with (Z.log2 (x - 1)); [rewrite Z.bit_log2; [done|]|].
    { pose proof (Z.pow_pos_nonneg 2 (Z.log2 x)). lia. }
    apply Z.log2_unique; lia.
  - intros ->. replace (2 ^ Z.log2 x - 1) with (Z.ones (Z.log2 x)) by (rewrite Z.ones_equiv; lia).
    rewrite Z.land_ones by done. apply Z.mod_same. apply Z.pow_nonzero; lia.
Qed.

(** [ispow2] decides powers of two, and accepts 0 *)
Lemma ispow2_spec w x :
  0 < w -> is_word w x ->
  ispow2 w x = true <-> x = 0 \/ exists k, 0 <= k < w /\ x = 2 ^ k.
Proof.
  intros Hw [Hx Hb]. unfold ispow2. rewrite Z.eqb_eq.
  destruct (Z.eq_dec x 0) as [->|Hn]; [split; [by left|by rewrite Z.land_0_l]|].
  rewrite (wrap_small w (x - 1)) by lia. rewrite land_pred_pow2 by lia. split.
  - intros Hp. right. exists (Z.log2 x). split; [|done].
    split; [apply Z.log2_nonneg | apply Z.log2_lt_pow2; lia].
  - intros [->|(k & Hk & ->)]; [done|]. by rewrite Z.log2_pow2 by lia.
Qed.

Lemma msb_eq w x : msb w x = Z.log2 x.
Proof. unfold msb, clz. lia. Qed.

Lemma to_signed_small w x : 0 < w -> 0 <= x < 2 ^ (w - 1) -> to_signed w x = x.
Proof.
  intros Hw Hx. unfold to_signed.
  assert (2 ^ (w - 1) < 2 ^ w) by (apply Z.pow_lt_mono_r; lia).
  rewrite wrap_small by lia. by destruct (Z.ltb_spec x (2 ^ (w - 1))); [|lia].
Qed.

Lemma floorlog2_eq w x : 0 < w <= 64 -> is_word w x -> 0 < x -> floorlog2 w x = Z.log2 x.
Proof.
  intros Hw Hx Hp. unfold floorlog2, msbcond, clz.
  destruct (log2_spec w x Hx) as (? & _ & _); [lia|].
  destruct (Z.eqb_spec x 0); [lia|]. rewrite to_signed_small by lia. lia.
Qed.

(** the alternative [limit<T>()] converts to -1, so [ceilinglog2(1)] is 0 *)
Lemma ceilinglog2_eq w x :
  32 <= w <= 64 -> is_word w x -> 0 < x -> ceilinglog2 w x = Z.log2_up x.
Proof.
  intros Hw [Hx Hb] Hp. unfold ceilinglog2. rewrite (wrap_small w (x - 1)) by lia.
  destruct (Z.eq_dec x 1) as [->|Hn].
  - unfold msbcond. change (1 - 1 =? 0) with true. cbn iota.
    rewrite limit_eq by lia. unfold to_signed, wrap.
    replace ((2 ^ w - 1) mod 2 ^ 32) with (2 ^ 32 - 1); [done|].
    replace (2 ^ w) with (2 ^ 32 * 2 ^ (w - 32)) by (rewrite <- Z.pow_add_r by lia; f_equal; lia).
    pose proof (Z.pow_pos_nonneg 2 (w - 32)).
    apply (Z.mod_unique_pos _ _ (2 ^ (w - 32) - 1)); lia.
  - change (msbcond w (x - 1) (limit w)) with
      (to_signed 32 (if x - 1 =? 0 then limit w else w - 1 - clz w (x - 1))).
    destruct (Z.eqb_spec (x - 1) 0); [lia|]. unfold clz.
    destruct (log2_spec w (x - 1)) as (? & _ & _); [split; lia|lia|].
    rewrite to_signed_small by lia. rewrite Z.log2_up_eqn by lia.
    replace (Z.pred x) with (x - 1) by lia. lia.
Qed.

(** ** BitString fields *)
Lemma bs_mask_testbit b i :
  bs_valid b -> 0 <= i ->
  Z.testbit (bs_mask b) i = (bs_Pos b <=? i) && (i <? bs_Pos b + bs_Width b).
Proof.
  intros (H1 & H2 & H3) Hi. unfold bs_mask, bitmask2.
  rewrite wrap_testbit, Z.shiftl_spec by lia.
  destruct (Z.leb_spec (bs_Pos b) i).
  - rewrite bitmask_testbit by lia.
    destruct (Z.ltb_spec i (bs_w b)), (Z.ltb_spec (i - bs_Pos b) (bs_Width b)),
      (Z.ltb_spec i (bs_Pos b + bs_Width b)); done || lia.
  - rewrite (Z.testbit_neg_r _ (i - _)) by lia. apply andb_false_r.
Qed.

Lemma bs_put_testbit b f i :
  bs_valid b -> 0 <= i ->
  Z.testbit (bs_put b f) i =
    (bs_Pos b <=? i) && (i <? bs_Pos b + bs_Width b) && Z.testbit f (i - bs_Pos b).
Proof.
  intros (H1 & H2 & H3) Hi. unfold bs_put.
  rewrite wrap_testbit, Z.shiftl_spec by lia.
  destruct (Z.leb_spec (bs_Pos b) i).
  - rewrite Z.land_spec, bitmask_testbit by lia.
    destruct (Z.ltb_spec i (bs_w b)), (Z.ltb_spec (i - bs_Pos b) (bs_Width b)),
      (Z.ltb_spec i (bs_Pos b + bs_Width b)); try lia; simpl; by rewrite ?andb_true_r, ?andb_false_r.
  - rewrite (Z.testbit_neg_r _ (i - _)) by lia. simpl. apply andb_false_r.
Qed.

Lemma bs_get_testbit b f i :
  bs_valid b -> 0 <= i ->
  Z.testbit (bs_get b f) i = (i <? bs_Width b) && Z.testbit f (i + bs_Pos b).
Proof.
  intros (H1 & H2 & H3) Hi. unfold bs_get.
  rewrite Z.land_spec, Z.shiftr_spec, bitmask_testbit by lia. apply andb_comm.
Qed.

Lemma bs_excl_testbit b f i :
  bs_valid b -> is_word (bs_w b) f -> 0 <= i ->
  Z.testbit (bs_excl b f) i =
    negb ((bs_Pos b <=? i) && (i <? bs_Pos b + bs_Width b)) && Z.testbit f i.
Proof.
  intros Hv Hf Hi. pose proof Hv as (H1 & H2 & H3). unfold bs_excl.
  rewrite Z.land_spec, wrap_testbit, Z.lnot_spec, bs_mask_testbit by (done || lia).
  destruct (Z.ltb_spec i (bs_w b)); [apply andb_comm|].
  rewrite (word_testbit_high (bs_w b) f i) by done. simpl. by rewrite andb_false_r.
Qed.

(** [field.get(field.put(f)) == f] for a value that fits *)
Lemma bs_get_put b f :
  bs_valid b -> 0 <= f < 2 ^ bs_Width b -> bs_get b (bs_put b f) = f.
Proof.
  intros Hv Hf. apply word_eq_testbit. intros i Hi. pose proof Hv as (H1 & H2 & H3).
  rewrite bs_get_testbit, bs_put_testbit by (done || lia).
  replace (i + bs_Pos b - bs_Pos b) with i by lia.
  destruct (Z.ltb_spec i (bs_Width b)), (Z.leb_spec (bs_Pos b) (i + bs_Pos b)),
    (Z.ltb_spec (i + bs_Pos b) (bs_Pos b + bs_Width b)); try lia; simpl; [done|].
  symmetry. by apply (word_testbit_high (bs_Width b)).
Qed.

(** fields that share no bit *)
Definition bs_disjoint (b c : BitString) : Prop :=
  bs_Pos b + bs_Width b <= bs_Pos c \/ bs_Pos c + bs_Width c <= bs_Pos b.

(** the bits of one field of [f] do not show in another *)
Lemma bs_get_put_disjoint b c f g :
  bs_valid b -> bs_valid c -> bs_disjoint b c ->
  bs_get c (Z.lor (bs_put b f) g) = bs_get c g.
Proof.
  intros Hb Hc Hd. apply word_eq_testbit. intros i Hi.
  pose proof Hb as (H1 & H2 & H3). pose proof Hc as (H4 & H5 & H6).
  rewrite !bs_get_testbit by done. destruct (Z.ltb_spec i (bs_Width c)); [|done].
  rewrite Z.lor_spec, bs_put_testbit by (done || lia). unfold bs_disjoint in Hd.
  destruct (Z.leb_spec (bs_Pos b) (i + bs_Pos c)),
    (Z.ltb_spec (i + bs_Pos c) (bs_Pos b + bs_Width b)); try lia; done.
Qed.

(** [field.put(f) | field.excl(g)] replaces the field and nothing else *)
Lemma bs_update b f g :
  bs_valid b -> is_word (bs_w b) g -> 0 <= f < 2 ^ bs_Width b ->
  bs_get b (Z.lor (bs_put b f) (bs_excl b g)) = f /\
  forall c, bs_valid c -> bs_disjoint b c ->
    bs_get c (Z.lor (bs_put b f) (bs_excl b g)) = bs_get c g.
Proof.
  intros Hv Hg Hf. pose proof Hv as (H1 & H2 & H3). split.
  - rewrite <- (bs_get_put b f) at 2 by done. apply word_eq_testbit. intros i Hi.
    rewrite !bs_get_testbit by done. destruct (Z.ltb_spec i (bs_Width b)); [|done].
    rewrite Z.lor_spec, bs_excl_testbit by (done || lia).
    destruct (Z.leb_spec (bs_Pos b) (i + bs_Pos b)),
      (Z.ltb_spec (i + bs_Pos b) (bs_Pos b + bs_Width b)); try lia.
    apply orb_false_r.
  - intros c Hc Hd. rewrite bs_get_put_disjoint by done.
    apply word_eq_testbit. intros i Hi. pose proof Hc as (H4 & H5 & H6).
    rewrite !bs_get_testbit by done. destruct (Z.ltb_spec i (bs_Width c)); [|done].
    rewrite bs_excl_testbit by (done || lia). unfold bs_disjoint in Hd.
    destruct (Z.leb_spec (bs_Pos b) (i + bs_Pos c)),
      (Z.ltb_spec (i + bs_Pos c) (bs_Pos b + bs_Width b)); try lia; done.
Qed.
