(* ===== verification/Memory.v ===== *)
(** * Page sizes and the layout of virtual memory: machine/Memory.h

    The constants of the memory layout, computed with 64-bit words as the
    compiler does, and the layout they produce. *)
From Stdlib Require Import ZArith Lia Bool.
From stdpp Require Import base tactics option numbers list.
From S2P Require Import Prelude Bitmanip.

Definition topaddr : Z := limit 64.
Definition pageoffsetbits : Z := 12.
Definition pagetablebits : Z := 9.
Definition pagelevels : Z := 4.
Definition pagebits : Z := pageoffsetbits + pagetablebits * pagelevels.
Definition framebits : Z := pageoffsetbits + 40.
Definition ptentries : Z := Z.shiftl 1 pagetablebits.

Definition pagesizebits (N : Z) : Z := pageoffsetbits + (N - 1) * pagetablebits.
Definition pagesize (N : Z) : Z := pow2 64 (pagesizebits N).
Definition pageoffset (N addr : Z) : Z := Z.land addr (bitmask 64 (pagesizebits N)).

Definition smallpl : Z := 1.
Definition smallps : Z := pagesize smallpl.
Definition pagetablepl : Z := 1.
Definition pagetableps : Z := pagesize pagetablepl.
Definition kernelpl : Z := 2.
Definition kernelps : Z := pagesize kernelpl.

Definition canonTest : Z := pow2 64 (pagebits - 1).
Definition canonPrefix : Z := wrap 64 (Z.lnot (bitmask 64 pagebits)).

Definition userbot : Z := pagesize 2.
Definition usertop : Z := (ptentries / 2 * pagesize pagelevels)%w.
Definition recptindex : Z := ptentries / 2.
Definition zeroBase : Z := Z.lor (usertop + pagesize pagelevels)%w canonPrefix.
Definition kernelbot : Z := Z.lor (zeroBase + pagesize pagelevels)%w canonPrefix.
Definition kerneltop : Z := Z.lor ((ptentries - 1) * pagesize pagelevels)%w canonPrefix.
Definition deviceAddr : Z := Z.lor ((ptentries - 1) * pagesize pagelevels)%w canonPrefix.

Definition apicAddr : Z := (deviceAddr + 0 * smallps)%w.
Definition ioApicAddr : Z := (deviceAddr + 1 * smallps)%w.
Definition videoAddr : Z := (deviceAddr + 2 * smallps)%w.
Definition cloneBase : Z := (deviceAddr + 3 * smallps)%w.
Definition deviceEnd : Z := (deviceAddr + 4 * smallps)%w.

(** Makefile.config *)
Definition KERNBASE : Z := 18446744071562067968.    (* 0xFFFFFFFF80000000 *)

Definition stackpl : Z := 1.
Definition minimumStack : Z := 1 * pagesize stackpl.
Definition defaultStack : Z := 2 * pagesize stackpl.
Definition defaultUserStack : Z := 2 * pagesize stackpl.
Definition idleStack : Z := 1 * pagesize stackpl.
Definition faultStack : Z := 1 * pagesize stackpl.
Definition stackGuardPage : Z := 1 * pagesize stackpl.

(** an address is canonical when the bits above bit 47 repeat bit 47 *)
Definition canonical (vma : Z) : Prop := vma < 2 ^ 47 \/ 2 ^ 64 - 2 ^ 47 <= vma < 2 ^ 64.

(** the page table recursion: the region that slot [recptindex] of the PML4
    covers *)
Definition recpt_start : Z := Z.lor (recptindex * pagesize pagelevels)%w canonPrefix.

Lemma pagesize_eq N : 1 <= N <= 5 -> pagesize N = 2 ^ pagesizebits N.
Proof.
  intros. unfold pagesize. apply pow2_eq. unfold pagesizebits, pageoffsetbits, pagetablebits. lia.
Qed.

Lemma pagesizebits_range N : 1 <= N <= 5 -> 12 <= pagesizebits N <= 48.
Proof. intros. unfold pagesizebits, pageoffsetbits, pagetablebits. lia. Qed.

Lemma pageoffset_eq N a : 1 <= N <= 5 -> pageoffset N a = a mod pagesize N.
Proof.
  intros. unfold pageoffset. pose proof (pagesizebits_range N).
  rewrite land_bitmask by lia. by rewrite pagesize_eq.
Qed.

(** The layout of virtual memory: every address that [userbot..usertop)
    and the kernel constants delimit is canonical, and user space, the window
    of the page table recursion, the zeroing windows, dynamic kernel memory, the
    device windows and the kernel image follow each other without overlap. *)
Theorem memory_layout :
  Forall canonical [userbot; usertop - 1; recpt_start; zeroBase; kernelbot; kerneltop;
    deviceAddr; deviceEnd; KERNBASE] /\
  userbot < usertop /\ usertop <= recpt_start /\
  recpt_start + pagesize pagelevels <= zeroBase /\
  zeroBase + pagesize pagelevels <= kernelbot /\ kernelbot < kerneltop /\
  kerneltop <= deviceAddr /\
  apicAddr + smallps <= ioApicAddr /\ ioApicAddr + smallps <= videoAddr /\
  videoAddr + smallps <= cloneBase /\ cloneBase + smallps <= deviceEnd /\
  deviceEnd <= KERNBASE.
Proof.
  change userbot with (2 ^ 21). change usertop with (2 ^ 47). change recpt_start with (2 ^ 64 - 2 ^ 47).
  change zeroBase with (2 ^ 64 - 2 ^ 47 + 2 ^ 39). change kernelbot with (2 ^ 64 - 2 ^ 47 + 2 ^ 40).
  change kerneltop with (2 ^ 64 - 2 ^ 39). change deviceAddr with (2 ^ 64 - 2 ^ 39).
  change apicAddr with (2 ^ 64 - 2 ^ 39). change ioApicAddr with (2 ^ 64 - 2 ^ 39 + 2 ^ 12).
  change videoAddr with (2 ^ 64 - 2 ^ 39 + 2 * 2 ^ 12). change cloneBase with (2 ^ 64 - 2 ^ 39 + 3 * 2 ^ 12).
  change deviceEnd with (2 ^ 64 - 2 ^ 39 + 4 * 2 ^ 12). change KERNBASE with (2 ^ 64 - 2 ^ 31).
  change (pagesize pagelevels) with (2 ^ 39). change smallps with (2 ^ 12).
  unfold canonical. repeat split; try lia. repeat (apply List.Forall_cons; [lia|]). apply List.Forall_nil.
Qed.
