(* ===== verification/Bitmap.v ===== *)
(** * Bitmaps: generic/Bitmap.h

    [Bitmap<B>] is the list of its [N] words; [HierarchicalBitmap<B,W>] is
    the list of its levels, each the array of the bitmaps of that level.  Bit
    [i] of level [l+1] tells whether block [i] of level [l] has a set bit: the
    summary invariant.  An access outside an array is [Err OutOfBounds]. *)
From Stdlib Require Import ZArith Lia Bool.
From stdpp Require Import base tactics option numbers list.
From S2P Require Import Prelude Bitmanip.

(** ** Bitmap<B> *)
Abbreviation bitmap := (list Z).

Fixpoint BitmapEmptyHelper (X : nat) (bits : bitmap) : Z :=
  match X with
  | O => nth 0 bits 0
  | S Y => Z.lor (nth X bits 0) (BitmapEmptyHelper Y bits)
  end.
Fixpoint BitmapFullHelper (X : nat) (bits : bitmap) : Z :=
  match X with
  | O => nth 0 bits 0
  | S Y => Z.land (nth X bits 0) (BitmapFullHelper Y bits)
  end.
Fixpoint BitmapCountHelper (X : nat) (bits : bitmap) : Z :=
  match X with
  | O => popcount (nth 0 bits 0)
  | S Y => wrap 64 (popcount (nth X bits 0) + BitmapCountHelper Y bits)
  end.

Section Bitmap.
Context (B : Z).

Definition bm_N : Z := divup 64 B 64.
Definition bm_valid (idx : Z) : bool := idx <? wrap 64 (bm_N * 64).
Definition bm_fill (b : Z) : bitmap := replicate (Z.to_nat bm_N) b.
Definition bm_filled : bitmap := bm_fill (wrap 64 (Z.lnot 0)).
Definition bm_setB (bits : bitmap) : bitmap := map (fun _ => wrap 64 (Z.lnot 0)) bits.
Definition bm_clrB (bits : bitmap) : bitmap := map (fun _ => 0) bits.
Definition bm_flpB (bits : bitmap) : bitmap := map (fun x => wrap 64 (Z.lnot x)) bits.

Definition bm_upd (f : Z -> Z -> Z) (idx : Z) (bits : bitmap) : res bitmap :=
  x ← in_bounds (lookupZ bits (idx / 64));
  mret (insertZ (idx / 64) (f x (idx mod 64)) bits).
Definition bm_set : Z -> bitmap -> res bitmap := bm_upd bit_set.
Definition bm_clr : Z -> bitmap -> res bitmap := bm_upd bit_clr.
Definition bm_flp : Z -> bitmap -> res bitmap := bm_upd bit_flp.
Definition bm_test (idx : Z) (bits : bitmap) : res bool :=
  x ← in_bounds (lookupZ bits (idx / 64));
  mret (negb (Z.land x (wrap 64 (Z.shiftl 1 (idx mod 64))) =? 0)).

Definition bm_empty (bits : bitmap) : bool :=
  BitmapEmptyHelper (Z.to_nat (bm_N - 1)) bits =? 0.
Definition bm_full (bits : bitmap) : bool :=
  BitmapFullHelper (Z.to_nat (bm_N - 1)) bits =? wrap 64 (Z.lnot 0).
Definition bm_count (bits : bitmap) : Z :=
  BitmapCountHelper (Z.to_nat (bm_N - 1)) bits.
Definition bm_find (findset : bool) (idx : Z) (bits : bitmap) : res Z :=
  multiscan findset bits bm_N idx.
Definition bm_find_rev (findset : bool) (bits : bitmap) : res Z :=
  multiscan_rev findset bits bm_N.
End Bitmap.

(** ** HierarchicalBitmap<B,W> *)
(** [bitmaps[l]] is the array of level [l] *)
Abbreviation hbitmap := (list (list bitmap)).

Section HierarchicalBitmap.
Context (B Wd : Z).

Definition hb_logB : Z := floorlog2 64 B.
Definition hb_Levels : nat := Z.to_nat (divup 64 Wd hb_logB).

Definition hb_block (l : nat) (b : Z) (hb : hbitmap) : res bitmap :=
  lv ← in_bounds (hb !! l); in_bounds (lookupZ lv b).
Definition hb_put (l : nat) (b : Z) (bm : bitmap) (hb : hbitmap) : hbitmap :=
  alter (insertZ b bm) l hb.

Fixpoint find_rec (fuel : nat) (findset : bool) (sidx ridx : Z) (l : nat)
    (hb : hbitmap) : res Z :=
  match fuel with
  | O => Err OutOfFuel
  | S fuel =>
      if decide (l = hb_Levels) then mret (limit 64) else
      bm ← hb_block l sidx hb;
      fidx ← bm_find B findset ridx bm;
      if fidx =? B then
        find_rec fuel findset (wrap 64 (sidx + 1) / B) (wrap 64 (sidx + 1) mod B) (S l) hb
      else match l with
      | O => mret (wrap 64 (sidx * B + fidx))
      | S l' => find_rec fuel findset (wrap 64 (sidx * B + fidx)) 0 l' hb
      end
  end.

(** at most [Levels] steps up and [Levels] steps down *)
Definition find_fuel : nat := 2 * hb_Levels + 2.

(** [sizeof(Bitmap<B>)] *)
Definition bm_size : Z := 8 * bm_N B.

Fixpoint allocsize_loop (n : nat) (bitcount mapcount : Z) : Z :=
  match n with
  | O => wrap 64 (bm_size * mapcount)
  | S n => let bitcount := divup 64 bitcount B in
           allocsize_loop n bitcount (wrap 64 (mapcount + bitcount))
  end.
Definition hb_allocsize (bitcount : Z) : Z := allocsize_loop hb_Levels bitcount 0.

(** the constructor [Bitmap()] leaves the words of the memory at [p] alone *)
Fixpoint chunks (n : nat) (mem : list Z) : list bitmap :=
  match n with
  | O => []
  | S n => take (Z.to_nat (bm_N B)) mem :: chunks n (drop (Z.to_nat (bm_N B)) mem)
  end.
Fixpoint init_loop (n : nat) (bitcount : Z) (mem : list Z) : hbitmap :=
  match n with
  | O => []
  | S n => let bitcount := divup 64 bitcount B in
           chunks (Z.to_nat bitcount) mem ::
           init_loop n bitcount (drop (Z.to_nat (bm_N B * bitcount)) mem)
  end.
Definition hb_init (bitcount : Z) (mem : list Z) : hbitmap :=
  init_loop hb_Levels bitcount mem.

Fixpoint set_loop (n l : nat) (idx : Z) (hb : hbitmap) : res hbitmap :=
  match n with
  | O => kassert (idx =? 0);; mret hb
  | S n =>
      let r := idx mod B in
      let idx := idx / B in
      bm ← hb_block l idx hb;
      t ← bm_test r bm;
      if (t : bool) then mret hb else
      bm' ← bm_set r bm;
      set_loop n (S l) idx (hb_put l idx bm' hb)
  end.
Definition hb_set (idx : Z) (botlevel : nat) (hb : hbitmap) : res hbitmap :=
  set_loop (hb_Levels - botlevel) botlevel idx hb.

Fixpoint clr_loop (n l : nat) (idx : Z) (hb : hbitmap) : res hbitmap :=
  match n with
  | O => kassert (idx =? 0);; mret hb
  | S n =>
      let r := idx mod B in
      let idx := idx / B in
      bm ← hb_block l idx hb;
      bm' ← bm_clr r bm;
      let hb := hb_put l idx bm' hb in
      if negb (bm_empty B bm') then mret hb else clr_loop n (S l) idx hb
  end.
Definition hb_clr (idx : Z) (botlevel : nat) (hb : hbitmap) : res hbitmap :=
  clr_loop (hb_Levels - botlevel) botlevel idx hb.

Definition hb_blockset (idx : Z) (hb : hbitmap) : res hbitmap :=
  bm ← hb_block 0 (idx / B) hb;
  hb_set (idx / B) 1 (hb_put 0 (idx / B) (bm_setB bm) hb).
Definition hb_blockclr (idx : Z) (hb : hbitmap) : res hbitmap :=
  bm ← hb_block 0 (idx / B) hb;
  hb_clr (idx / B) 1 (hb_put 0 (idx / B) (bm_clrB bm) hb).

Definition hb_test (idx : Z) (hb : hbitmap) : res bool :=
  bm ← hb_block 0 (idx / B) hb; bm_test (idx mod B) bm.
Definition hb_empty (hb : hbitmap) : res bool :=
  bm ← hb_block (hb_Levels - 1) 0 hb; mret (bm_empty B bm).
Definition hb_blockempty (idx : Z) (hb : hbitmap) : res bool :=
  bm ← hb_block 0 (idx / B) hb; mret (bm_empty B bm).
Definition hb_blockfull (idx : Z) (hb : hbitmap) : res bool :=
  bm ← hb_block 0 (idx / B) hb; mret (bm_full B bm).

Definition hb_find (findset : bool) (hb : hbitmap) : res Z :=
  find_rec find_fuel findset 0 0 (hb_Levels - 1) hb.
(** [find(idx, findset)]: the search starts after [idx] *)
Definition hb_find_from (idx : Z) (findset : bool) (hb : hbitmap) : res Z :=
  find_rec find_fuel findset (wrap 64 (idx + 1) / B) (wrap 64 (idx + 1) mod B) 0 hb.

(** the new [start] and the result *)
Definition hb_findrange (start max : Z) (hb : hbitmap) : res (Z * Z) :=
  start ← hb_find_from start true hb;
  if start =? limit 64 then mret (start, 0) else
  e ← hb_find_from start false hb;
  let e := if e =? limit 64 then max else e in
  mret (start, wrap 64 (e - start)).

Fixpoint find_rev_loop (i : nat) (findset : bool) (idx : Z) (hb : hbitmap) : res Z :=
  bm ← hb_block i idx hb;
  ldx ← bm_find_rev B findset bm;
  if ldx =? B then mret (limit 64) else
  let idx := wrap 64 (idx * B + ldx) in
  match i with
  | O => mret idx
  | S i => find_rev_loop i findset idx hb
  end.
Definition hb_find_rev (findset : bool) (hb : hbitmap) : res Z :=
  find_rev_loop (hb_Levels - 1) findset 0 hb.
End HierarchicalBitmap.

(** ** Bitmap<B>: every operation on the bits *)
Lemma wbit_set_word (x : Z) bits q k :
  lookupZ bits q = Some x -> 0 <= k < 64 -> wbit bits (64 * q + k) = Z.testbit x k.
Proof. intros. by apply wbit_word. Qed.

Lemma wbit_insert bits q x y i :
  lookupZ bits q = Some x ->
  wbit (insertZ q y bits) i = if decide (i / 64 = q) then Z.testbit y (i mod 64) else wbit bits i.
Proof.
  intros Hq. unfold wbit. destruct (decide _) as [->|Hne].
  - rewrite lookupZ_insertZ_eq; [done|by eapply lookupZ_Some].
  - by rewrite lookupZ_insertZ_ne.
Qed.

Lemma div_mod_64_inj i j : i / 64 = j / 64 -> (i mod 64 =? j mod 64) = (i =? j).
Proof.
  intros. pose proof (Z.div_mod i 64). pose proof (Z.div_mod j 64).
  destruct (Z.eqb_spec (i mod 64) (j mod 64)), (Z.eqb_spec i j); lia || (subst; done).
Qed.

Lemma div_mod_64_ne i j : i / 64 <> j / 64 -> (i =? j) = false.
Proof. intros Hn. apply Z.eqb_neq. by intros ->. Qed.

Lemma words_insertZ bits q y : words bits -> is_word 64 y -> words (insertZ q y bits).
Proof.
  intros Hw Hy. unfold insertZ. destruct (q <? 0); [done|].
  by apply Forall_insert.
Qed.

Lemma BitmapEmptyHelper_spec X bits :
  words bits -> (X < length bits)%nat ->
  BitmapEmptyHelper X bits = 0 <-> forall j, 0 <= j < 64 * (Z.of_nat X + 1) -> wbit bits j = false.
Proof.
  intros Hw. induction X as [|X IH]; intros HX.
  - cbn [BitmapEmptyHelper]. destruct bits as [|x bits]; [simpl in HX; lia|]. simpl nth.
    inversion_clear Hw. split.
    + intros -> j Hj. unfold wbit. rewrite Z.div_small by lia. simpl. apply Z.testbit_0_l.
    + intros Hb. apply (word_zero_testbit 64); [done|]. intros i Hi.
      rewrite <- (wbit_set_word x (x :: bits) 0 i); [apply Hb; lia|done|lia].
  - cbn [BitmapEmptyHelper]. rewrite Z.lor_eq_0_iff, IH by lia.
    destruct (lookup_lt_is_Some_2 bits (S X)) as [x Hx]; [lia|].
    rewrite (nth_lookup_Some _ _ _ _ Hx).
    assert (lookupZ bits (Z.of_nat (S X)) = Some x) as HxZ.
    { unfold lookupZ. destruct (Z.ltb_spec (Z.of_nat (S X)) 0); [lia|]. by rewrite Nat2Z.id. }
    pose proof (words_lookupZ _ _ _ Hw HxZ). split.
    + intros [-> Hb] j Hj. destruct (Z.lt_ge_cases j (64 * (Z.of_nat X + 1))); [apply Hb; lia|].
      replace j with (64 * Z.of_nat (S X) + (j - 64 * Z.of_nat (S X))) by lia.
      rewrite (wbit_set_word 0) by (done || lia). apply Z.testbit_0_l.
    + intros Hb. split; [|intros; apply Hb; lia].
      apply (word_zero_testbit 64); [done|]. intros i Hi.
      rewrite <- (wbit_set_word x bits (Z.of_nat (S X)) i); [apply Hb; lia|done|lia].
Qed.

Lemma land_ones_iff x y :
  is_word 64 x -> is_word 64 y ->
  Z.land x y = 2 ^ 64 - 1 <-> x = 2 ^ 64 - 1 /\ y = 2 ^ 64 - 1.
Proof.
  intros Hx Hy. split; [|by intros [-> ->]]. intros Hl.
  assert (forall z, is_word 64 z ->
    (forall i, 0 <= i < 64 -> Z.testbit z i = true) -> z = 2 ^ 64 - 1) as Hones.
  { intros z Hz Hb. apply word_eq_testbit. intros i Hi. rewrite ones_testbit by lia.
    destruct (Z.ltb_spec i 64); [apply Hb; lia | by apply (word_testbit_high 64)]. }
  assert (forall i, 0 <= i < 64 -> Z.testbit x i && Z.testbit y i = true) as Hb.
  { intros i Hi. rewrite <- Z.land_spec, Hl, ones_testbit by lia. lia. }
  split; apply Hones; try done; intros i Hi; by destruct (andb_prop _ _ (Hb i Hi)).
Qed.

Lemma BitmapFullHelper_word X bits :
  words bits -> (X < length bits)%nat -> is_word 64 (BitmapFullHelper X bits).
Proof.
  intros Hw. assert (forall k, (k < length bits)%nat -> is_word 64 (nth k bits 0)) as Hn.
  { intros k Hk. destruct (lookup_lt_is_Some_2 bits k Hk) as [x Hx].
    rewrite (nth_lookup_Some _ _ _ _ Hx). by eapply Forall_lookup_1 in Hx. }
  induction X as [|X IH]; intros HX; cbn [BitmapFullHelper]; [by apply Hn|].
  apply word_of_testbit; [lia| |].
  - apply Z.land_nonneg. left. by apply Hn.
  - intros i Hi. rewrite Z.land_spec, (word_testbit_high 64 (nth _ _ _)) by (done || by apply Hn).
    done.
Qed.

Lemma BitmapFullHelper_spec X bits :
  words bits -> (X < length bits)%nat ->
  BitmapFullHelper X bits = 2 ^ 64 - 1 <->
  forall j, 0 <= j < 64 * (Z.of_nat X + 1) -> wbit bits j = true.
Proof.
  intros Hw HX.
  assert (forall k, (k < length bits)%nat -> is_word 64 (nth k bits 0) /\
    (nth k bits 0 = 2 ^ 64 - 1 <->
     forall i, 0 <= i < 64 -> wbit bits (64 * Z.of_nat k + i) = true)) as Hn.
  { intros k Hk. destruct (lookup_lt_is_Some_2 bits k Hk) as [x Hx].
    rewrite (nth_lookup_Some _ _ _ _ Hx).
    assert (lookupZ bits (Z.of_nat k) = Some x) as HxZ.
    { unfold lookupZ. destruct (Z.ltb_spec (Z.of_nat k) 0); [lia|]. by rewrite Nat2Z.id. }
    pose proof (words_lookupZ _ _ _ Hw HxZ). split; [done|]. split.
    - intros -> i Hi. rewrite (wbit_set_word (2 ^ 64 - 1)) by done.
      rewrite ones_testbit by lia. lia.
    - intros Hb. apply word_eq_testbit. intros i Hi. rewrite ones_testbit by lia.
      destruct (Z.ltb_spec i 64); [|by apply (word_testbit_high 64)].
      rewrite <- (wbit_set_word x bits (Z.of_nat k)) by (done || lia). apply Hb. lia. }
  induction X as [|X IH]; cbn [BitmapFullHelper].
  - destruct (Hn O HX) as [_ ->]. split; intros Hb i Hi; [|apply Hb; lia].
    replace i with (64 * Z.of_nat 0 + i) by lia. apply Hb. lia.
  - destruct (Hn (S X) HX) as [? Hiff].
    rewrite land_ones_iff by (done || apply BitmapFullHelper_word; done || lia).
    rewrite IH, Hiff by lia. split.
    + intros [H1 H2] j Hj. destruct (Z.lt_ge_cases j (64 * (Z.of_nat X + 1))); [apply H2; lia|].
      replace j with (64 * Z.of_nat (S X) + (j - 64 * Z.of_nat (S X))) by lia. apply H1. lia.
    + intros Hb. split; intros; apply Hb; lia.
Qed.

Section Bitmap_facts.
Context (B : Z).
Hypothesis HN : 0 < bm_N B.
Hypothesis Hsmall : 64 * bm_N B < 2 ^ 64.
Abbreviation bits_of := (64 * bm_N B).

Definition bm_wf (bm : bitmap) : Prop := lenZ bm = bm_N B /\ words bm.

Lemma bm_word bm i :
  bm_wf bm -> 0 <= i < bits_of -> exists x, lookupZ bm (i / 64) = Some x /\ is_word 64 x.
Proof.
  intros [Hl Hw] Hi. destruct (lookupZ_is_Some bm (i / 64)) as [x Hx].
  { rewrite Hl. split; [apply Z.div_pos; lia | apply Z.div_lt_upper_bound; lia]. }
  exists x. split; [done | by eapply words_lookupZ].
Qed.

Lemma bm_upd_spec f g i bm :
  bm_wf bm -> 0 <= i < bits_of ->
  (forall x k, 0 <= k < 64 -> is_word 64 x -> is_word 64 (f x k) /\
    forall j, 0 <= j -> Z.testbit (f x k) j = g (j =? k) (Z.testbit x j)) ->
  (forall b, g false b = b) ->
  exists bm', bm_upd f i bm = Ok bm' /\ bm_wf bm' /\
    forall j, 0 <= j < bits_of -> wbit bm' j = g (j =? i) (wbit bm j).
Proof.
  intros Hwf Hi Hf Hg. destruct (bm_word bm i Hwf Hi) as (x & Hx & Hwx).
  pose proof (Z.mod_pos_bound i 64 ltac:(lia)) as Hk.
  destruct (Hf x (i mod 64) Hk Hwx) as [Hfw Hfb]. destruct Hwf as [Hl Hw].
  unfold bm_upd. rewrite Hx. cbn. eexists. split; [done|]. split.
  { split; [by rewrite lenZ_insertZ | by apply words_insertZ]. }
  intros j Hj. rewrite (wbit_insert _ _ x) by done.
  destruct (decide _) as [He|Hne].
  - pose proof (Z.mod_pos_bound j 64 ltac:(lia)). rewrite Hfb by lia.
    rewrite div_mod_64_inj by done. unfold wbit. by rewrite He, Hx.
  - by rewrite div_mod_64_ne.
Qed.

Lemma bm_set_spec i bm :
  bm_wf bm -> 0 <= i < bits_of ->
  exists bm', bm_set i bm = Ok bm' /\ bm_wf bm' /\
    forall j, 0 <= j < bits_of -> wbit bm' j = (j =? i) || wbit bm j.
Proof.
  intros. apply bm_upd_spec; try done. intros x k Hk Hx.
  split; [by apply bit_set_word|]. intros. by apply bit_set_testbit.
Qed.

Lemma bm_clr_spec i bm :
  bm_wf bm -> 0 <= i < bits_of ->
  exists bm', bm_clr i bm = Ok bm' /\ bm_wf bm' /\
    forall j, 0 <= j < bits_of -> wbit bm' j = negb (j =? i) && wbit bm j.
Proof.
  intros. apply (bm_upd_spec _ (fun e b => negb e && b)); try done. intros x k Hk Hx.
  split; [by apply bit_clr_word|]. intros. by apply bit_clr_testbit.
Qed.

Lemma bm_flp_spec i bm :
  bm_wf bm -> 0 <= i < bits_of ->
  exists bm', bm_flp i bm = Ok bm' /\ bm_wf bm' /\
    forall j, 0 <= j < bits_of -> wbit bm' j = xorb (wbit bm j) (j =? i).
Proof.
  intros. apply (bm_upd_spec _ (fun e b => xorb b e)); try done.
  - intros x k Hk Hx. split; [by apply bit_flp_word|]. intros. by apply bit_flp_testbit.
  - intros b. by destruct b.
Qed.

Lemma bm_test_spec i bm :
  bm_wf bm -> 0 <= i < bits_of -> bm_test i bm = Ok (wbit bm i).
Proof.
  intros Hwf Hi. destruct (bm_word bm i Hwf Hi) as (x & Hx & Hwx).
  unfold bm_test, wbit. rewrite Hx. cbn. f_equal.
  pose proof (Z.mod_pos_bound i 64 ltac:(lia)). rewrite shl1_eq by lia.
  set (k := i mod 64) in *. destruct (Z.eqb_spec (Z.land x (2 ^ k)) 0) as [He|Hne]; simpl.
  - assert (Z.testbit (Z.land x (2 ^ k)) k = false) as Hb by (rewrite He; apply Z.testbit_0_l).
    rewrite Z.land_spec, pow2_testbit, Z.eqb_refl, andb_true_r in Hb by lia. done.
  - destruct (Z.testbit x k) eqn:Hb; [done|]. destruct Hne.
    apply word_eq_testbit. intros j Hj. rewrite Z.land_spec, pow2_testbit, Z.testbit_0_l by lia.
    destruct (Z.eqb_spec j k) as [->|]; [by rewrite Hb | apply andb_false_r].
Qed.

Lemma bm_empty_spec bm :
  bm_wf bm -> bm_empty B bm = true <-> forall j, 0 <= j < bits_of -> wbit bm j = false.
Proof.
  intros [Hl Hw]. unfold bm_empty. rewrite Z.eqb_eq. unfold lenZ in Hl.
  rewrite BitmapEmptyHelper_spec by (done || lia).
  by replace (Z.of_nat (Z.to_nat (bm_N B - 1)) + 1) with (bm_N B) by lia.
Qed.

Lemma bm_empty_false bm :
  bm_wf bm -> bm_empty B bm = false -> exists j, 0 <= j < bits_of /\ wbit bm j = true.
Proof.
  intros Hwf He. destruct Hwf as [Hl Hw].
  destruct (multiscan_first true bm (bm_N B) Hw Hl Hsmall 0) as (r & _ & Hr & Hf & Ht); [lia|].
  unfold matches in *. destruct (Z.lt_ge_cases r bits_of).
  - exists r. split; [lia|]. specialize (Ht ltac:(lia)). by destruct (wbit bm r).
  - assert (bm_empty B bm = true) as Hc; [|by rewrite Hc in He].
    apply bm_empty_spec; [done|]. intros j Hj. specialize (Hf j ltac:(lia)).
    by destruct (wbit bm j).
Qed.

Lemma bm_full_spec bm :
  bm_wf bm -> bm_full B bm = true <-> forall j, 0 <= j < bits_of -> wbit bm j = true.
Proof.
  intros [Hl Hw]. unfold bm_full. rewrite Z.eqb_eq. unfold lenZ in Hl.
  change (wrap 64 (Z.lnot 0)) with (2 ^ 64 - 1).
  rewrite BitmapFullHelper_spec by (done || lia).
  by replace (Z.of_nat (Z.to_nat (bm_N B - 1)) + 1) with (bm_N B) by lia.
Qed.

Lemma bm_fill_spec (f : Z -> Z) (b : bool) bm :
  (forall x, is_word 64 (f x) /\ forall j, 0 <= j < 64 -> Z.testbit (f x) j = b) ->
  bm_wf bm -> bm_wf (map f bm) /\ forall j, 0 <= j < bits_of -> wbit (map f bm) j = b.
Proof.
  intros Hf Hwf. pose proof Hwf as [Hl Hw]. split.
  - split; [unfold lenZ in *; by rewrite length_map|].
    unfold words. rewrite Forall_map. apply Forall_true. intros. apply Hf.
  - intros j Hj. destruct (bm_word bm j Hwf Hj) as (x & Hx & _).
    unfold wbit. replace (lookupZ (map f bm) (j / 64)) with (Some (f x)).
    { apply Hf. apply Z.mod_pos_bound. lia. }
    unfold lookupZ in *. destruct (j / 64 <? 0); [done|].
    rewrite list_lookup_fmap, Hx. done.
Qed.

Lemma bm_setB_spec bm :
  bm_wf bm -> bm_wf (bm_setB bm) /\ forall j, 0 <= j < bits_of -> wbit (bm_setB bm) j = true.
Proof.
  apply (bm_fill_spec (fun _ => wrap 64 (Z.lnot 0)) true). intros _.
  change (wrap 64 (Z.lnot 0)) with (2 ^ 64 - 1). split; [split; lia|].
  intros. rewrite ones_testbit by lia. lia.
Qed.

Lemma bm_clrB_spec bm :
  bm_wf bm -> bm_wf (bm_clrB bm) /\ forall j, 0 <= j < bits_of -> wbit (bm_clrB bm) j = false.
Proof.
  apply (bm_fill_spec (fun _ => 0) false). intros _. split; [split; lia|].
  intros. apply Z.testbit_0_l.
Qed.

Lemma bm_find_first findset idx bm :
  bm_wf bm -> 0 <= idx < bits_of ->
  exists r, bm_find B findset idx bm = Ok r /\
    first_from (matches findset bm) idx bits_of r.
Proof. intros [Hl Hw] Hi. by apply multiscan_first. Qed.
End Bitmap_facts.

(** ** HierarchicalBitmap: the summary invariant *)
Section hierarchy.
Context (B Wd : Z).

(** bit [i] of level [l] *)
Definition hb_bit (hb : hbitmap) (l : nat) (i : Z) : bool :=
  match hb !! l with
  | Some lv => match lookupZ lv (i / B) with
               | Some bm => wbit bm (i mod B)
               | None => false
               end
  | None => false
  end.

(** the number of bits of level [l] *)
Definition hb_size (hb : hbitmap) (l : nat) : Z :=
  match hb !! l with Some lv => B * lenZ lv | None => 0 end.

(** [Levels] arrays of bitmaps; each level has a bit for every bitmap of the
    level below, and the last one has a single bitmap *)
Record hb_wf (hb : hbitmap) : Prop := {
  wf_levels : length hb = hb_Levels B Wd;
  wf_bitmaps l lv : hb !! l = Some lv -> Forall (bm_wf B) lv;
  wf_size l lv lv' :
    hb !! l = Some lv -> hb !! S l = Some lv' -> lenZ lv <= B * lenZ lv' < lenZ lv + B;
  wf_pos l lv : hb !! l = Some lv -> 0 < lenZ lv < 2 ^ 64 / B;
  wf_top lv : hb !! (hb_Levels B Wd - 1)%nat = Some lv -> lenZ lv = 1
}.

(** bit [b] of level [l+1] tells whether block [b] of level [l] has a set bit *)
Definition block_used (hb : hbitmap) (l : nat) (b : Z) : Prop :=
  exists j, 0 <= j < B /\ hb_bit hb l (b * B + j) = true.
Definition summary_at (hb : hbitmap) (l : nat) (b : Z) : Prop :=
  hb_bit hb (S l) b = true <-> block_used hb l b.
Definition summary (hb : hbitmap) : Prop :=
  forall l b, (S l < hb_Levels B Wd)%nat -> 0 <= b -> summary_at hb l b.

Definition hb_inv (hb : hbitmap) : Prop := hb_wf hb /\ summary hb.
End hierarchy.

Section HierarchicalBitmap_facts.
Context (B Wd : Z).
Hypothesis HB : B = 64 * bm_N B.
Hypothesis HB0 : 0 < bm_N B.
Hypothesis HBs : B <= 2 ^ 32.
Hypothesis HL : (0 < hb_Levels B Wd)%nat.

Abbreviation Levels := (hb_Levels B Wd).
Abbreviation bit := (hb_bit B).
Abbreviation wf := (hb_wf B Wd).

Lemma B_small : 64 * bm_N B < 2 ^ 64.
Proof. lia. Qed.
Hint Resolve B_small : core.

Lemma bm_inv_parts b j : 0 <= j < B -> (b * B + j) / B = b /\ (b * B + j) mod B = j.
Proof.
  intros. rewrite Z.div_add_l, Z.div_small by lia. split; [lia|].
  rewrite Z.add_comm, Z.mod_add by lia. by apply Z.mod_small.
Qed.

Lemma div_mod_B i : i = i / B * B + i mod B /\ 0 <= i mod B < B.
Proof.
  pose proof (Z.div_mod i B). pose proof (Z.mod_pos_bound i B). lia.
Qed.

Lemma hb_block_spec hb l b :
  wf hb -> (l < Levels)%nat -> 0 <= b * B < hb_size B hb l ->
  exists bm, hb_block l b hb = Ok bm /\ bm_wf B bm /\
    forall j, 0 <= j < B -> bit hb l (b * B + j) = wbit bm j.
Proof.
  intros Hwf Hl Hb. destruct (lookup_lt_is_Some_2 hb l) as [lv Hlv].
  { by rewrite (wf_levels _ _ _ Hwf). }
  unfold hb_size in Hb. rewrite Hlv in Hb.
  destruct (lookupZ_is_Some lv b) as [bm Hbm]; [nia|].
  exists bm. unfold hb_block. rewrite Hlv. cbn. rewrite Hbm. split; [done|]. split.
  - unfold lookupZ in Hbm. destruct (b <? 0); [done|].
    eapply Forall_lookup_1; [by eapply wf_bitmaps | done].
  - intros j Hj. destruct (bm_inv_parts b j Hj) as [Hd Hm].
    unfold hb_bit. by rewrite Hlv, Hd, Hm, Hbm.
Qed.

(** replacing a bitmap *)
Lemma hb_put_spec hb l b bm bm' :
  wf hb -> hb_block l b hb = Ok bm -> bm_wf B bm' ->
  wf (hb_put l b bm' hb) /\
  (forall l', hb_size B (hb_put l b bm' hb) l' = hb_size B hb l') /\
  (forall l' i, bit (hb_put l b bm' hb) l' i =
    if decide (l' = l /\ i / B = b) then wbit bm' (i mod B) else bit hb l' i).
Proof.
  intros Hwf Hbm Hbm'. unfold hb_block in Hbm. res_inv. rename a into lv.
  pose proof (lookupZ_Some _ _ _ Hbm) as Hlt.
  assert (forall l', hb_put l b bm' hb !! l' =
    if decide (l' = l) then Some (insertZ b bm' lv) else hb !! l') as Hput.
  { intros l'. unfold hb_put. destruct (decide _) as [->|].
    - by rewrite list_lookup_alter_eq, E.
    - by rewrite list_lookup_alter_ne. }
  assert (forall l' lv', hb_put l b bm' hb !! l' = Some lv' ->
    exists lv0, hb !! l' = Some lv0 /\ lenZ lv' = lenZ lv0) as Hlen.
  { intros l' lv'. rewrite Hput. destruct (decide _) as [->|]; [|eauto].
    intros [= <-]. exists lv. by rewrite lenZ_insertZ. }
  split; [split|split].
  - unfold hb_put. rewrite length_alter. apply Hwf.
  - intros l' lv'. rewrite Hput. destruct (decide _); [|by apply Hwf].
    intros [= <-]. unfold insertZ. destruct (b <? 0); [by eapply Hwf|].
    apply Forall_insert; [by eapply Hwf|done].
  - intros l' lv1 lv2 H1 H2. destruct (Hlen _ _ H1) as (? & ? & ->).
    destruct (Hlen _ _ H2) as (? & ? & ->). by eapply wf_size.
  - intros l' lv' H'. destruct (Hlen _ _ H') as (? & ? & ->). by eapply wf_pos.
  - intros lv' H'. destruct (Hlen _ _ H') as (? & ? & ->). by eapply wf_top.
  - intros l'. unfold hb_size. rewrite Hput. destruct (decide _) as [->|]; [|done].
    by rewrite E, lenZ_insertZ.
  - intros l' i. unfold hb_bit. rewrite Hput.
    destruct (decide (l' = l)) as [->|Hne]; destruct (decide _) as [Hd|Hd]; try tauto.
    + destruct Hd as [_ ->]. rewrite lookupZ_insertZ_eq by done. done.
    + rewrite lookupZ_insertZ_ne by lia. by rewrite E.
Qed.

Lemma hb_bit_bounds hb l i :
  wf hb -> bit hb l i = true -> 0 <= i < hb_size B hb l /\ (l < Levels)%nat.
Proof.
  intros Hwf Hb. unfold hb_bit, hb_size in *. destruct (hb !! l) as [lv|] eqn:Hlv; [|done].
  destruct (lookupZ lv (i / B)) as [bm|] eqn:Hbm; [|done].
  apply lookupZ_Some in Hbm. apply lookup_lt_Some in Hlv.
  rewrite (wf_levels _ _ _ Hwf) in Hlv. destruct (div_mod_B i) as [? ?].
  split; [|done]. nia.
Qed.

Lemma hb_size_lookup hb l :
  wf hb -> (l < Levels)%nat ->
  exists lv, hb !! l = Some lv /\ hb_size B hb l = B * lenZ lv /\ 0 < lenZ lv < 2 ^ 64 / B.
Proof.
  intros Hwf Hl. destruct (lookup_lt_is_Some_2 hb l) as [lv Hlv].
  { by rewrite (wf_levels _ _ _ Hwf). }
  exists lv. unfold hb_size. rewrite Hlv. split; [done|]. split; [done|]. by eapply wf_pos.
Qed.

Lemma hb_size_word hb l : wf hb -> (l < Levels)%nat -> hb_size B hb l < 2 ^ 64.
Proof.
  intros Hwf Hl. destruct (hb_size_lookup hb l Hwf Hl) as (lv & _ & -> & Hp).
  assert (B * (2 ^ 64 / B) <= 2 ^ 64) by (apply Z.mul_div_le; lia). nia.
Qed.

(** a position of a level is a bit of the level above *)
Lemma hb_size_up hb l i :
  wf hb -> (S l < Levels)%nat -> 0 <= i * B < hb_size B hb l -> 0 <= i < hb_size B hb (S l).
Proof.
  intros Hwf Hl Hi. destruct (hb_size_lookup hb l) as (lv & Hlv & Hs & _); [done|lia|].
  destruct (hb_size_lookup hb (S l)) as (lv' & Hlv' & Hs' & _); [done|lia|].
  pose proof (wf_size _ _ _ Hwf l lv lv' Hlv Hlv'). rewrite Hs in Hi. rewrite Hs'. nia.
Qed.

Lemma hb_size_top hb l i :
  wf hb -> S l = Levels -> 0 <= i * B < hb_size B hb l -> i = 0.
Proof.
  intros Hwf Hl Hi. destruct (hb_size_lookup hb l) as (lv & Hlv & Hs & _); [done|lia|].
  replace l with (Levels - 1)%nat in * by lia.
  pose proof (wf_top _ _ _ Hwf lv Hlv). rewrite Hs in Hi. nia.
Qed.

Lemma hb_size_block hb l i :
  0 <= i < hb_size B hb l -> 0 <= i / B * B < hb_size B hb l.
Proof.
  intros. destruct (div_mod_B i). pose proof (Z.div_pos i B ltac:(lia) ltac:(lia)). nia.
Qed.

Lemma summary_at_ext hb hb' l b :
  bit hb' (S l) b = bit hb (S l) b ->
  (forall j, 0 <= j < B -> bit hb' l (b * B + j) = bit hb l (b * B + j)) ->
  summary_at B hb l b -> summary_at B hb' l b.
Proof.
  intros H1 H2 Hs. unfold summary_at, block_used in *. rewrite H1, Hs.
  split; intros (j & Hj & Hb); exists j; split; try done; rewrite <- Hb; [by rewrite H2|].
  symmetry. by apply H2.
Qed.

(** the valid indices of level [l]; one past the last level only 0 is left *)
Definition idx_ok (hb : hbitmap) (l : nat) (idx : Z) : Prop :=
  0 <= idx < (if decide (l < Levels)%nat then hb_size B hb l else 1).

Lemma idx_ok_lt hb l idx :
  (l < Levels)%nat -> idx_ok hb l idx <-> 0 <= idx < hb_size B hb l.
Proof. intros. unfold idx_ok. by destruct (decide _). Qed.

Lemma idx_ok_up hb l idx :
  wf hb -> (l < Levels)%nat -> idx_ok hb l idx -> idx_ok hb (S l) (idx / B).
Proof.
  intros Hwf Hl Hi. rewrite idx_ok_lt in Hi by done. apply hb_size_block in Hi.
  unfold idx_ok. destruct (decide _).
  - by apply (hb_size_up hb l).
  - rewrite (hb_size_top hb l (idx / B)) by (done || lia). lia.
Qed.

(** one bit of level [l] changes to [v] *)
Definition hb_assign (hb hb' : hbitmap) (l : nat) (idx : Z) (v : bool) : Prop :=
  forall l' i, 0 <= i ->
    bit hb' l' i = if decide (l' = l /\ i = idx) then v else bit hb l' i.

(** one level of [set] and [clr] *)
Lemma hb_step f v hb l idx :
  wf hb -> (l < Levels)%nat -> idx_ok hb l idx ->
  (forall i bm, bm_wf B bm -> 0 <= i < 64 * bm_N B ->
    exists bm', f i bm = Ok bm' /\ bm_wf B bm' /\
      forall j, 0 <= j < 64 * bm_N B -> wbit bm' j = if decide (j = i) then v else wbit bm j) ->
  exists bm bm',
    hb_block l (idx / B) hb = Ok bm /\ bm_test (idx mod B) bm = Ok (bit hb l idx) /\
    f (idx mod B) bm = Ok bm' /\
    (if bm_empty B bm' then ~ block_used B (hb_put l (idx / B) bm' hb) l (idx / B)
     else block_used B (hb_put l (idx / B) bm' hb) l (idx / B)) /\
    wf (hb_put l (idx / B) bm' hb) /\
    (forall l', hb_size B (hb_put l (idx / B) bm' hb) l' = hb_size B hb l') /\
    hb_assign hb (hb_put l (idx / B) bm' hb) l idx v.
Proof.
  intros Hwf Hl Hi Hf. rewrite idx_ok_lt in Hi by done.
  destruct (div_mod_B idx) as [He Hm].
  destruct (hb_block_spec hb l (idx / B)) as (bm & Hbm & Hbw & Hbits); [done..| |].
  { by apply hb_size_block. }
  destruct (Hf (idx mod B) bm Hbw) as (bm' & Hbm' & Hbw' & Hbits'); [lia|].
  destruct (hb_put_spec hb l (idx / B) bm bm' Hwf Hbm Hbw') as (Hwf' & Hsize & Hput).
  exists bm, bm'. split; [done|]. split.
  { rewrite (bm_test_spec B) by (done || lia). by rewrite <- Hbits, <- He by lia. }
  split; [done|]. split.
  { unfold block_used.
    assert (forall j, 0 <= j < B ->
      bit (hb_put l (idx / B) bm' hb) l (idx / B * B + j) = wbit bm' j) as Hj.
    { intros j Hj. rewrite Hput. destruct (bm_inv_parts (idx / B) j Hj) as [-> ->].
      by rewrite decide_True. }
    destruct (bm_empty B bm') eqn:Hem.
    - intros (j & Hjr & Hb). rewrite (bm_empty_spec B) in Hem by done.
      rewrite Hj, Hem in Hb by (done || lia). done.
    - destruct (bm_empty_false B HB0 B_small bm' Hbw' Hem) as (j & Hjr & Hb).
      exists j. rewrite Hj by lia. split; [lia|done]. }
  split; [done|]. split; [done|]. intros l' i Hi0. rewrite Hput.
  destruct (div_mod_B i) as [He' Hm'].
  destruct (decide (l' = l /\ i / B = idx / B)) as [[-> Hq]|Hne].
  - rewrite Hbits', <- (Hbits (i mod B)), <- Hq, <- He' by lia. clear Hbits Hbits'.
    destruct (decide (i mod B = idx mod B)), (decide (l = l /\ i = idx)); try done;
      exfalso; naive_solver lia.
  - destruct (decide (l' = l /\ i = idx)); [naive_solver|done].
Qed.

(** the summary of [(l, b)] for all blocks but one *)
Definition summary_but (hb : hbitmap) (l : nat) (idx : Z) : Prop :=
  forall l' b, (S l' < Levels)%nat -> 0 <= b -> S l' <> l \/ b <> idx -> summary_at B hb l' b.

Lemma summary_assign hb hb1 l idx v :
  0 <= idx -> hb_assign hb hb1 l idx v -> summary_but hb l idx ->
  (forall l', S l' = l -> (v = true <-> block_used B hb l' idx)) ->
  summary_but hb1 (S l) (idx / B).
Proof.
  intros Hidx Ha Hs Hv l' b Hl Hb Hne. destruct (div_mod_B idx) as [He Hm].
  destruct (decide (S l' = l /\ b = idx)) as [[<- ->]|Hother].
  - unfold summary_at. rewrite Ha by done. rewrite decide_True by done.
    rewrite Hv by done. unfold block_used.
    split; intros (j & Hj & Hbit); exists j; (split; [done|]).
    all: rewrite <- Hbit, Ha by nia; rewrite decide_False by lia; done.
  - apply (summary_at_ext hb); [| |apply Hs; try done; lia].
    + rewrite Ha by done. by rewrite decide_False.
    + intros j Hj. rewrite Ha by nia. rewrite decide_False; [done|].
      intros [-> <-]. destruct (bm_inv_parts b j Hj) as [Hq _]. lia.
Qed.

(** a caller sees: the invariant, the levels below [l], and level [l] *)
Definition hb_result (hb hb' : hbitmap) (l : nat) (idx : Z) (v : bool) : Prop :=
  hb_inv B Wd hb' /\ (forall l', hb_size B hb' l' = hb_size B hb l') /\
  forall l' i, (l' <= l)%nat -> (l' < Levels)%nat -> 0 <= i ->
    bit hb' l' i = if decide (l' = l /\ i = idx) then v else bit hb l' i.

Lemma hb_result_trans hb hb1 hb2 l idx v :
  hb_assign hb hb1 l idx v -> (forall l', hb_size B hb1 l' = hb_size B hb l') ->
  hb_result hb1 hb2 (S l) (idx / B) v -> hb_result hb hb2 l idx v.
Proof.
  intros Ha Hsz (Hi & Hsz' & Hb). split; [done|]. split; [by intros; rewrite Hsz', Hsz|].
  intros l' i Hl Hl' Hi0. rewrite Hb by lia. rewrite decide_False by lia. by apply Ha.
Qed.

Lemma summary_full hb l idx :
  summary_but hb l idx -> (forall l', S l' = l -> (l < Levels)%nat -> summary_at B hb l' idx) ->
  summary B Wd hb.
Proof.
  intros Hs Hx l' b Hl Hb.
  destruct (decide (S l' = l /\ b = idx)) as [[? ->]|]; [apply Hx; lia|].
  apply Hs; [done..|lia].
Qed.

Lemma set_loop_spec n l idx hb :
  wf hb -> (l + n)%nat = Levels -> idx_ok hb l idx -> summary_but hb l idx ->
  (forall l', S l' = l -> block_used B hb l' idx) ->
  exists hb', set_loop B n l idx hb = Ok hb' /\ hb_result hb hb' l idx true.
Proof.
  revert l idx hb. induction n as [|n IH]; intros l idx hb Hwf Hl Hok Hs Hblk; cbn [set_loop].
  { unfold idx_ok in Hok. rewrite decide_False in Hok by lia.
    replace idx with 0 in * by lia. exists hb. split; [done|].
    split; [split; [done|intros l' b ? ?; apply Hs; lia]|]. split; [done|].
    intros l' i ? ? ?. rewrite decide_False by lia. done. }
  destruct (hb_step bm_set true hb l idx) as (bm & bm' & -> & Ht & Hset & _ & Hwf' & Hsz & Ha);
    [done|lia|done| |].
  { intros i b Hbw Hi. destruct (bm_set_spec B i b Hbw Hi) as (b' & ? & ? & Hb).
    exists b'. split; [done|]. split; [done|]. intros j Hj. rewrite Hb by done.
    by destruct (Z.eqb_spec j i), (decide (j = i)). }
  cbn [mbind res_bind]. rewrite Ht. cbn [mbind res_bind].
  assert (0 <= idx) by apply Hok.
  destruct (bit hb l idx) eqn:Hbit.
  - exists hb. split; [done|]. split; [split; [done|]|split; [done|]].
    + apply (summary_full hb l idx); [done|]. intros l' <- _. unfold summary_at.
      rewrite Hbit. split; [intros _; by apply Hblk|done].
    + intros l' i _ _ _. by destruct (decide _) as [[-> ->]|].
  - rewrite Hset. cbn [mbind res_bind].
    destruct (IH (S l) (idx / B) (hb_put l (idx / B) bm' hb)) as (hb' & -> & Hr).
    + done.
    + lia.
    + pose proof (idx_ok_up hb l idx Hwf ltac:(lia) Hok) as Hok'.
      unfold idx_ok in *. destruct (decide (S l < Levels)%nat); [by rewrite Hsz|done].
    + eapply summary_assign; [done..|]. intros. split; [intros _; by apply Hblk|done].
    + intros l' [= ->]. destruct (div_mod_B idx) as [He Hm]. exists (idx mod B).
      split; [lia|]. rewrite <- He, Ha by done. by rewrite decide_True.
    + exists hb'. split; [done|]. by eapply hb_result_trans.
Qed.

Lemma clr_loop_spec n l idx hb :
  wf hb -> (l + n)%nat = Levels -> idx_ok hb l idx -> summary_but hb l idx ->
  (forall l', S l' = l -> ~ block_used B hb l' idx) ->
  exists hb', clr_loop B n l idx hb = Ok hb' /\ hb_result hb hb' l idx false.
Proof.
  revert l idx hb. induction n as [|n IH]; intros l idx hb Hwf Hl Hok Hs Hblk; cbn [clr_loop].
  { unfold idx_ok in Hok. rewrite decide_False in Hok by lia.
    replace idx with 0 in * by lia. exists hb. split; [done|].
    split; [split; [done|intros l' b ? ?; apply Hs; lia]|]. split; [done|].
    intros l' i ? ? ?. rewrite decide_False by lia. done. }
  destruct (hb_step bm_clr false hb l idx) as (bm & bm' & -> & _ & Hclr & Hem & Hwf' & Hsz & Ha);
    [done|lia|done| |].
  { intros i b Hbw Hi. destruct (bm_clr_spec B i b Hbw Hi) as (b' & ? & ? & Hb).
    exists b'. split; [done|]. split; [done|]. intros j Hj. rewrite Hb by done.
    by destruct (Z.eqb_spec j i), (decide (j = i)). }
  cbn [mbind res_bind]. rewrite Hclr. cbn [mbind res_bind].
  assert (0 <= idx) by apply Hok.
  assert (summary_but (hb_put l (idx / B) bm' hb) (S l) (idx / B)) as Hs'.
  { eapply summary_assign; [done..|]. intros. split; [done|]. by intros ?%Hblk. }
  destruct (bm_empty B bm') eqn:He; cbn [negb].
  - destruct (IH (S l) (idx / B) (hb_put l (idx / B) bm' hb)) as (hb' & -> & Hr).
    + done.
    + lia.
    + pose proof (idx_ok_up hb l idx Hwf ltac:(lia) Hok) as Hok'.
      unfold idx_ok in *. destruct (decide (S l < Levels)%nat); [by rewrite Hsz|done].
    + done.
    + intros l' [= ->]. by apply Hem.
    + exists hb'. split; [done|]. by eapply hb_result_trans.
  - eexists. split; [done|]. split; [split; [done|]|split; [done|]].
    + apply (summary_full _ (S l) (idx / B)); [done|]. intros l' [= ->] Hlt.
      split; [done|]. intros _.
      pose proof (Z.div_pos idx B ltac:(lia) ltac:(lia)).
      rewrite Ha by done. rewrite decide_False by lia. apply Hs; [done..|lia|].
      destruct Hem as (j & Hj & Hb). exists j. split; [done|].
      rewrite Ha in Hb by nia. by destruct (decide _).
    + intros l' i _ _ Hi. by apply Ha.
Qed.

(** [set] and [clr] change one bit of level 0 and keep the summaries *)
Lemma hb_set_spec hb idx :
  hb_inv B Wd hb -> 0 <= idx < hb_size B hb 0 ->
  exists hb', hb_set B Wd idx 0 hb = Ok hb' /\ hb_inv B Wd hb' /\
    (forall l, hb_size B hb' l = hb_size B hb l) /\
    forall i, 0 <= i -> bit hb' 0 i = (i =? idx) || bit hb 0 i.
Proof.
  intros [Hwf Hs] Hi. destruct (set_loop_spec Levels 0 idx hb) as (hb' & Hr & Hinv & Hsz & Hb).
  - done.
  - done.
  - by apply idx_ok_lt.
  - intros l b ? ? _. by apply Hs.
  - done.
  - exists hb'. unfold hb_set. rewrite Nat.sub_0_r. split; [done|]. split; [done|].
    split; [done|]. intros i Hi0. rewrite Hb by (done || lia).
    destruct (Z.eqb_spec i idx), (decide _); done || lia.
Qed.

Lemma hb_clr_spec hb idx :
  hb_inv B Wd hb -> 0 <= idx < hb_size B hb 0 ->
  exists hb', hb_clr B Wd idx 0 hb = Ok hb' /\ hb_inv B Wd hb' /\
    (forall l, hb_size B hb' l = hb_size B hb l) /\
    forall i, 0 <= i -> bit hb' 0 i = negb (i =? idx) && bit hb 0 i.
Proof.
  intros [Hwf Hs] Hi. destruct (clr_loop_spec Levels 0 idx hb) as (hb' & Hr & Hinv & Hsz & Hb).
  - done.
  - done.
  - by apply idx_ok_lt.
  - intros l b ? ? _. by apply Hs.
  - done.
  - exists hb'. unfold hb_clr. rewrite Nat.sub_0_r. split; [done|]. split; [done|].
    split; [done|]. intros i Hi0. rewrite Hb by (done || lia).
    destruct (Z.eqb_spec i idx), (decide _); done || lia.
Qed.

(** the first half of [blockset] and [blockclr] *)
Lemma hb_block_fill f v hb idx :
  hb_inv B Wd hb -> 0 <= idx < hb_size B hb 0 ->
  (forall bm, bm_wf B bm -> bm_wf B (f bm) /\ forall j, 0 <= j < 64 * bm_N B -> wbit (f bm) j = v) ->
  exists bm hb1, hb_block 0 (idx / B) hb = Ok bm /\ hb1 = hb_put 0 (idx / B) (f bm) hb /\
    wf hb1 /\ (forall l, hb_size B hb1 l = hb_size B hb l) /\
    (forall l i, 0 <= i -> bit hb1 l i =
      if decide (l = 0%nat /\ i / B = idx / B) then v else bit hb l i) /\
    summary_but hb1 1 (idx / B) /\ idx_ok hb1 1 (idx / B).
Proof.
  intros [Hwf Hs] Hi Hf.
  destruct (hb_block_spec hb 0 (idx / B)) as (bm & Hbm & Hbw & _); [done..| |].
  { by apply hb_size_block. }
  destruct (Hf bm Hbw) as [Hbw' Hbits].
  destruct (hb_put_spec hb 0 (idx / B) bm (f bm) Hwf Hbm Hbw') as (Hwf1 & Hsz & Hput).
  assert (forall l i, 0 <= i -> bit (hb_put 0 (idx / B) (f bm) hb) l i =
    if decide (l = 0%nat /\ i / B = idx / B) then v else bit hb l i) as Hb.
  { intros l i Hi0. rewrite Hput. destruct (decide _); [|done].
    destruct (div_mod_B i). apply Hbits. lia. }
  exists bm, (hb_put 0 (idx / B) (f bm) hb). do 5 (split; [done|]). split.
  - intros l b Hl Hb0 Hne. apply (summary_at_ext hb); [| |by apply Hs].
    + rewrite Hb by done. by rewrite decide_False by lia.
    + intros j Hj. rewrite Hb by nia. rewrite decide_False; [done|].
      intros [-> Hq]. destruct (bm_inv_parts b j Hj) as [Hq' _]. lia.
  - pose proof (idx_ok_up hb 0 idx Hwf HL) as Hok. unfold idx_ok in *.
    rewrite Hsz. apply Hok. by rewrite decide_True.
Qed.

(** [blockset] sets, [blockclr] clears all bits of the block of [idx] *)
Lemma hb_blockset_spec hb idx :
  hb_inv B Wd hb -> 0 <= idx < hb_size B hb 0 ->
  exists hb', hb_blockset B Wd idx hb = Ok hb' /\ hb_inv B Wd hb' /\
    (forall l, hb_size B hb' l = hb_size B hb l) /\
    forall i, 0 <= i -> bit hb' 0 i = (i / B =? idx / B) || bit hb 0 i.
Proof.
  intros Hinv Hi.
  destruct (hb_block_fill bm_setB true hb idx) as (bm & hb1 & Hbm & Hhb1 & Hwf & Hsz & Hb & Hs & Hok);
    [done..|intros; by apply bm_setB_spec|].
  destruct (set_loop_spec (Levels - 1) 1 (idx / B) hb1) as (hb' & Hr & Hinv' & Hsz' & Hb');
    [done|lia|done..| |].
  { intros l' [= ->]. exists 0. split; [lia|]. pose proof (Z.div_pos idx B ltac:(lia) ltac:(lia)).
    rewrite Hb by nia. rewrite decide_True; [done|]. split; [done|]. apply bm_inv_parts. lia. }
  exists hb'. unfold hb_blockset, hb_set. rewrite Hbm. cbn [mbind res_bind].
  rewrite <- Hhb1. split; [done|]. split; [done|]. split; [intros; by rewrite Hsz', Hsz|].
  intros i Hi0. rewrite Hb' by lia. rewrite decide_False by lia. rewrite Hb by done.
  destruct (decide _) as [[_ ->]|Hne]; [by rewrite Z.eqb_refl|].
  destruct (Z.eqb_spec (i / B) (idx / B)); [by destruct Hne|done].
Qed.

Lemma hb_blockclr_spec hb idx :
  hb_inv B Wd hb -> 0 <= idx < hb_size B hb 0 ->
  exists hb', hb_blockclr B Wd idx hb = Ok hb' /\ hb_inv B Wd hb' /\
    (forall l, hb_size B hb' l = hb_size B hb l) /\
    forall i, 0 <= i -> bit hb' 0 i = negb (i / B =? idx / B) && bit hb 0 i.
Proof.
  intros Hinv Hi.
  destruct (hb_block_fill bm_clrB false hb idx) as (bm & hb1 & Hbm & Hhb1 & Hwf & Hsz & Hb & Hs & Hok);
    [done..|intros; by apply bm_clrB_spec|].
  destruct (clr_loop_spec (Levels - 1) 1 (idx / B) hb1) as (hb' & Hr & Hinv' & Hsz' & Hb');
    [done|lia|done..| |].
  { intros l' [= ->] (j & Hj & Hbit). pose proof (Z.div_pos idx B ltac:(lia) ltac:(lia)).
    rewrite Hb in Hbit by nia. rewrite decide_True in Hbit; [done|].
    split; [done|]. by apply bm_inv_parts. }
  exists hb'. unfold hb_blockclr, hb_clr. rewrite Hbm. cbn [mbind res_bind].
  rewrite <- Hhb1. split; [done|]. split; [done|]. split; [intros; by rewrite Hsz', Hsz|].
  intros i Hi0. rewrite Hb' by lia. rewrite decide_False by lia. rewrite Hb by done.
  destruct (decide _) as [[_ ->]|Hne]; [by rewrite Z.eqb_refl|].
  destruct (Z.eqb_spec (i / B) (idx / B)); [by destruct Hne|done].
Qed.

(** *** find *)

(** the first set bit at or after [lo], [limit<size_t>()] if there is none *)
Definition find_ok (hb : hbitmap) (lo r : Z) : Prop :=
  (r = limit 64 /\ forall j, lo <= j -> bit hb 0 j = false) \/
  (lo <= r /\ bit hb 0 r = true /\ forall j, lo <= j < r -> bit hb 0 j = false).

Lemma B_pow_pos l : 0 < B ^ Z.of_nat l.
Proof. apply Z.pow_pos_nonneg; lia. Qed.
Hint Resolve B_pow_pos : core.

Lemma B_pow_S l : B ^ Z.of_nat (S l) = B ^ Z.of_nat l * B.
Proof. rewrite Nat2Z.inj_succ, Z.pow_succ_r by lia. lia. Qed.

Lemma pow_mono l a b : a <= b -> a * B ^ Z.of_nat l <= b * B ^ Z.of_nat l.
Proof. intros. apply Z.mul_le_mono_nonneg_r; [pose proof (B_pow_pos l); lia | done]. Qed.

(** a set bit of level 0 shows on every level *)
Lemma bit_up hb l j :
  hb_inv B Wd hb -> (l < Levels)%nat -> bit hb 0 j = true -> bit hb l (j / B ^ Z.of_nat l) = true.
Proof.
  intros [Hwf Hs] Hl Hb. assert (0 <= j) by by apply (hb_bit_bounds hb 0 j).
  induction l as [|l IH]; [simpl; by rewrite Z.div_1_r|].
  rewrite B_pow_S, <- Z.div_div by (lia || pose proof (B_pow_pos l); lia).
  set (q := j / B ^ Z.of_nat l) in *. destruct (div_mod_B q) as [He Hm].
  apply Hs; [done| |].
  - apply Z.div_pos; [|lia]. apply Z.div_pos; [lia|done].
  - exists (q mod B). split; [done|]. rewrite <- He. apply IH. lia.
Qed.

Lemma bit_up_none hb l lo hi j :
  hb_inv B Wd hb -> (l < Levels)%nat ->
  (forall i, lo <= i < hi -> bit hb l i = false) ->
  lo * B ^ Z.of_nat l <= j < hi * B ^ Z.of_nat l -> bit hb 0 j = false.
Proof.
  intros Hinv Hl Hn Hj. destruct (bit hb 0 j) eqn:Hb; [|done].
  pose proof (bit_up hb l j Hinv Hl Hb) as Hu. pose proof (B_pow_pos l).
  rewrite Hn in Hu; [done|]. split.
  - apply Z.div_le_lower_bound; [done|lia].
  - apply Z.div_lt_upper_bound; [done|lia].
Qed.

(** one bitmap of the search *)
Lemma block_find hb l sidx ridx :
  hb_inv B Wd hb -> (l < Levels)%nat -> 0 <= ridx < B -> 0 <= sidx * B < hb_size B hb l ->
  exists bm fidx, hb_block l sidx hb = Ok bm /\ bm_find B true ridx bm = Ok fidx /\
    ridx <= fidx <= B /\
    (forall i, sidx * B + ridx <= i < sidx * B + fidx -> bit hb l i = false) /\
    (fidx < B -> bit hb l (sidx * B + fidx) = true).
Proof.
  intros [Hwf Hs] Hl Hr Hsz.
  destruct (hb_block_spec hb l sidx) as (bm & Hbm & Hbw & Hbits); [done..|].
  destruct (bm_find_first B B_small true ridx bm Hbw) as (f & Hf & Hrange & Hno & Hyes); [lia|].
  exists bm, f. split; [done|]. split; [done|]. split; [lia|]. unfold matches in *. split.
  - intros i Hi. specialize (Hno (i - sidx * B) ltac:(lia)).
    replace i with (sidx * B + (i - sidx * B)) by lia. rewrite Hbits by lia.
    by destruct (wbit bm _).
  - intros Hlt. specialize (Hyes ltac:(lia)). rewrite Hbits by lia. by destruct (wbit bm f).
Qed.

Lemma find_descend hb l fuel sidx ridx i :
  hb_inv B Wd hb -> (l < Levels)%nat -> (l < fuel)%nat ->
  0 <= ridx <= i -> i < B -> 0 <= sidx * B < hb_size B hb l -> bit hb l (sidx * B + i) = true ->
  exists r, find_rec B Wd fuel true sidx ridx l hb = Ok r /\
    (sidx * B + ridx) * B ^ Z.of_nat l <= r /\ bit hb 0 r = true /\
    forall j, (sidx * B + ridx) * B ^ Z.of_nat l <= j < r -> bit hb 0 j = false.
Proof.
  intros Hinv. revert fuel sidx ridx i.
  induction l as [|l IH]; intros [|fuel] sidx ridx i Hl Hfuel Hr Hi Hsz Hb; try lia.
  all: destruct (block_find hb _ sidx ridx Hinv Hl ltac:(lia) Hsz)
    as (bm & f & Hbm & Hf & Hfr & Hno & Hyes); cbn [find_rec].
  all: rewrite decide_False, Hbm by lia; cbn [mbind res_bind]; rewrite Hf; cbn [mbind res_bind].
  all: assert (f < B) as HfB by (destruct (Z.lt_ge_cases f B); [done|];
    rewrite Hno in Hb by lia; done).
  all: destruct (Z.eqb_spec f B); [lia|]; specialize (Hyes HfB).
  all: destruct (hb_bit_bounds hb _ _ (proj1 Hinv) Hyes) as [Hbd _];
    pose proof (hb_size_word hb _ (proj1 Hinv) Hl); rewrite wrap_small by lia.
  - exists (sidx * B + f). split; [done|]. simpl Z.of_nat. rewrite Z.pow_0_r, Z.mul_1_r.
    split; [lia|]. split; [done|]. apply Hno.
  - pose proof Hinv as [Hwf Hs]. apply Hs in Hyes as (i' & Hi' & Hb'); [|done|lia].
    destruct (IH fuel (sidx * B + f) 0 i') as (r & Hr' & Hle & Hbr & Hbefore); [lia..| |done|].
    { destruct (hb_bit_bounds hb _ _ Hwf Hb'). nia. }
    exists r. split; [done|]. rewrite B_pow_S. rewrite Z.add_0_r in *.
    rewrite <- Z.mul_assoc, (Z.mul_comm B) in Hle, Hbefore. rewrite <- B_pow_S in *.
    split; [pose proof (pow_mono (S l) (sidx * B + ridx) (sidx * B + f)); lia|].
    split; [done|]. intros j Hj.
    destruct (Z.lt_ge_cases j ((sidx * B + f) * B ^ Z.of_nat (S l))); [|apply Hbefore; lia].
    eapply (bit_up_none hb (S l) (sidx * B + ridx) (sidx * B + f)); [done..|lia].
Qed.

(** no level above [l] is addressed behind its last bitmap: some bit is set
    at or after [lo], or no level above [l] is filled to its last bit *)
Definition find_safe (hb : hbitmap) (l : nat) (lo : Z) : Prop :=
  (exists j, lo <= j /\ bit hb 0 j = true) \/
  (forall l', (l <= l')%nat -> (S l' < Levels)%nat -> hb_size B hb l' <> B * hb_size B hb (S l')).

Lemma find_safe_up hb l sidx lo :
  hb_inv B Wd hb -> (S l < Levels)%nat -> 0 <= sidx -> sidx * B < hb_size B hb l ->
  (forall j, lo <= j < (sidx + 1) * B ^ Z.of_nat (S l) -> bit hb 0 j = false) ->
  find_safe hb l lo ->
  sidx + 1 < hb_size B hb (S l) /\ find_safe hb (S l) ((sidx + 1) * B ^ Z.of_nat (S l)).
Proof.
  intros Hinv Hl H0 Hsz Hno [(j & Hlo & Hb)|Hroom].
  - assert ((sidx + 1) * B ^ Z.of_nat (S l) <= j) as Hle.
    { destruct (Z.lt_ge_cases j ((sidx + 1) * B ^ Z.of_nat (S l))); [|done].
      rewrite Hno in Hb by done. done. }
    split; [|left; by exists j].
    pose proof (bit_up hb (S l) j Hinv Hl Hb) as Hu.
    destruct (hb_bit_bounds hb _ _ (proj1 Hinv) Hu) as [Hbd _].
    assert (sidx + 1 <= j / B ^ Z.of_nat (S l)); [|lia].
    apply Z.div_le_lower_bound; [done|lia].
  - split; [|right; intros; apply Hroom; lia].
    specialize (Hroom l ltac:(lia) Hl). pose proof (proj1 Hinv) as Hwf.
    pose proof (Z.mul_nonneg_nonneg sidx B H0 ltac:(lia)).
    pose proof (hb_size_up hb l sidx Hwf Hl ltac:(lia)).
    destruct (Z.eq_dec (sidx + 1) (hb_size B hb (S l))) as [He|]; [|lia].
    destruct (hb_size_lookup hb l) as (lv & Hlv & Hs & _); [done|lia|].
    destruct (hb_size_lookup hb (S l)) as (lv' & Hlv' & Hs' & _); [done|lia|].
    pose proof (wf_size _ _ _ Hwf l lv lv' Hlv Hlv').
    assert (sidx < lenZ lv) by (apply (Z.mul_lt_mono_pos_r B); lia).
    destruct Hroom. rewrite Hs. f_equal. lia.
Qed.

Lemma hb_size_0 hb j : hb_inv B Wd hb -> bit hb 0 j = true -> j < B ^ Z.of_nat Levels.
Proof.
  intros Hinv Hb. pose proof (bit_up hb (Levels - 1) j Hinv ltac:(lia) Hb) as Hu.
  destruct (hb_bit_bounds hb _ _ (proj1 Hinv) Hu) as [Hbd _].
  destruct (hb_size_lookup hb (Levels - 1)) as (lv & Hlv & Hs & _); [apply Hinv|lia|].
  rewrite Hs, (wf_top _ _ _ (proj1 Hinv) lv Hlv) in Hbd.
  replace Levels with (S (Levels - 1)) at 1 by lia. rewrite B_pow_S.
  pose proof (B_pow_pos (Levels - 1)) as Hp.
  pose proof (Z.mul_succ_div_gt j (B ^ Z.of_nat (Levels - 1)) Hp). nia.
Qed.

Lemma find_ascend hb k l fuel sidx ridx :
  hb_inv B Wd hb -> (l + k = Levels)%nat -> (k + Levels < fuel)%nat ->
  0 <= ridx < B -> 0 <= sidx ->
  (if decide (l = Levels) then 1 <= sidx * B + ridx else sidx * B < hb_size B hb l) ->
  find_safe hb l ((sidx * B + ridx) * B ^ Z.of_nat l) ->
  exists r, find_rec B Wd fuel true sidx ridx l hb = Ok r /\
    find_ok hb ((sidx * B + ridx) * B ^ Z.of_nat l) r.
Proof.
  intros Hinv. revert l fuel sidx ridx.
  induction k as [|k IH]; intros l [|fuel] sidx ridx Hl Hfuel Hr H0 Hsz Hsafe; try lia.
  { cbn [find_rec]. rewrite (decide_True (P := l = Levels)) by lia. exists (limit 64). split; [done|].
    left. split; [done|]. intros j Hj. destruct (bit hb 0 j) eqn:Hb; [|done].
    pose proof (hb_size_0 hb j Hinv Hb). assert (l = Levels) as El by lia.
    rewrite decide_True in Hsz by done. rewrite El in Hj.
    pose proof (pow_mono Levels 1 (sidx * B + ridx) Hsz). lia. }
  rewrite decide_False in Hsz by lia.
  destruct (block_find hb l sidx ridx Hinv ltac:(lia) Hr ltac:(lia))
    as (bm & f & Hbm & Hf & Hfr & Hno & Hyes).
  destruct (Z.lt_ge_cases f B) as [HfB|HfB].
  - destruct (find_descend hb l (S fuel) sidx ridx f) as (r & ? & ? & ? & ?);
      [done|lia..|auto|]. exists r. split; [done|]. right. done.
  - replace f with B in * by lia. cbn [find_rec]. rewrite decide_False, Hbm by lia.
    cbn [mbind res_bind]. rewrite Hf. cbn [mbind res_bind]. rewrite Z.eqb_refl.
    pose proof (hb_size_word hb l (proj1 Hinv) ltac:(lia)).
    rewrite wrap_small by nia. destruct (div_mod_B (sidx + 1)) as [He Hm].
    pose proof (Z.div_pos (sidx + 1) B ltac:(lia) ltac:(lia)).
    assert (forall j, (sidx * B + ridx) * B ^ Z.of_nat l <= j < (sidx + 1) * B ^ Z.of_nat (S l) ->
      bit hb 0 j = false) as Hskip.
    { intros j Hj. apply (bit_up_none hb l (sidx * B + ridx) (sidx * B + B)); [done|lia|done|].
      rewrite B_pow_S in Hj. nia. }
    destruct (IH (S l) fuel ((sidx + 1) / B) ((sidx + 1) mod B)) as (r & Hr' & Hok);
      [lia..| | |].
    + destruct (decide _); [lia|]. destruct (find_safe_up hb l sidx _ Hinv ltac:(lia) H0 Hsz Hskip Hsafe). lia.
    + rewrite <- He. destruct (decide (S l < Levels)%nat); [|by right; intros; lia].
      by apply (find_safe_up hb l sidx _ Hinv ltac:(lia) H0 Hsz Hskip Hsafe).
    + exists r. split; [done|]. rewrite <- He in Hok.
      destruct Hok as [[-> Hall]|(Hle & Hb & Hbefore)]; [left|right].
      * split; [done|]. intros j Hj.
        destruct (Z.lt_ge_cases j ((sidx + 1) * B ^ Z.of_nat (S l)));
          [apply Hskip; lia | by apply Hall].
      * split; [|split; [done|]].
        -- rewrite B_pow_S in Hle. pose proof (pow_mono l (sidx * B + ridx) ((sidx + 1) * B)). lia.
        -- intros j Hj. destruct (Z.lt_ge_cases j ((sidx + 1) * B ^ Z.of_nat (S l)));
             [apply Hskip | apply Hbefore]; lia.
Qed.

(** [find()] returns the first set bit, [limit<size_t>()] if all are clear *)
Lemma hb_find_spec hb :
  hb_inv B Wd hb ->
  exists r, hb_find B Wd true hb = Ok r /\ find_ok hb 0 r.
Proof.
  intros Hinv. unfold hb_find.
  destruct (find_ascend hb 1 (Levels - 1) (find_fuel B Wd) 0 0) as (r & ? & ?); try done.
  all: try (unfold find_fuel; lia).
  - rewrite decide_False by lia.
    destruct (hb_size_lookup hb (Levels - 1) (proj1 Hinv) ltac:(lia)) as (lv & _ & -> & ?). nia.
  - right. intros; lia.
  - by exists r.
Qed.

(** [find(idx)] returns the first set bit after [idx] *)
Lemma hb_find_from_spec hb idx :
  hb_inv B Wd hb -> 0 <= idx -> idx + 1 < hb_size B hb 0 -> find_safe hb 0 (idx + 1) ->
  exists r, hb_find_from B Wd idx true hb = Ok r /\ find_ok hb (idx + 1) r.
Proof.
  intros Hinv H0 Hsz Hsafe. unfold hb_find_from.
  pose proof (hb_size_word hb 0 (proj1 Hinv) HL). rewrite wrap_small by lia.
  destruct (div_mod_B (idx + 1)) as [He Hm].
  pose proof (Z.div_pos (idx + 1) B ltac:(lia) ltac:(lia)).
  destruct (find_ascend hb Levels 0 (find_fuel B Wd) ((idx + 1) / B) ((idx + 1) mod B))
    as (r & Hr & Hok); try done; try (unfold find_fuel; lia).
  - rewrite decide_False by lia. lia.
  - simpl Z.of_nat. by rewrite <- He, Z.pow_0_r, Z.mul_1_r.
  - exists r. split; [done|]. simpl Z.of_nat in Hok. by rewrite <- He, Z.pow_0_r, Z.mul_1_r in Hok.
Qed.

(** *** init *)

(** the numbers of bitmaps of the levels *)
Fixpoint counts (n : nat) (bitcount : Z) : list Z :=
  match n with
  | O => []
  | S n => let c := divup 64 bitcount B in c :: counts n c
  end.
Definition zero_level (c : Z) : list bitmap :=
  replicate (Z.to_nat c) (replicate (Z.to_nat (bm_N B)) 0).

Lemma chunks_zero n k :
  (n * Z.to_nat (bm_N B) <= k)%nat ->
  chunks B n (replicate k 0) = replicate n (replicate (Z.to_nat (bm_N B)) 0).
Proof.
  revert k. induction n as [|n IH]; intros k Hk; [done|]. simpl in *.
  rewrite take_replicate, drop_replicate, IH by lia. by rewrite Nat.min_l by lia.
Qed.

Lemma divup_B n :
  0 < n < 2 ^ 64 ->
  divup 64 n B = (n - 1) / B + 1 /\ n <= B * divup 64 n B < n + B /\ 0 < divup 64 n B <= n.
Proof.
  intros Hn. rewrite divup_eq by lia. pose proof (Z.div_mod (n - 1) B ltac:(lia)).
  pose proof (Z.mod_pos_bound (n - 1) B ltac:(lia)).
  pose proof (Z.div_pos (n - 1) B ltac:(lia) ltac:(lia)).
  assert ((n - 1) / B <= n - 1) by (apply Z.div_le_upper_bound; nia). lia.
Qed.

(** the bitmaps of all levels *)
Definition total (l : list Z) : Z := foldr Z.add 0 l.

Lemma counts_pos n bc : 0 < bc < 2 ^ 64 -> Forall (fun c => 0 < c <= bc) (counts n bc).
Proof.
  revert bc. induction n as [|n IH]; intros bc Hbc; cbn [counts]; [constructor|].
  destruct (divup_B bc Hbc) as (_ & _ & Hc). constructor; [done|].
  eapply Forall_mono; [|exact (IH (divup 64 bc B) ltac:(lia))]. simpl. lia.
Qed.

Lemma total_nonneg l : Forall (fun c => 0 <= c) l -> 0 <= total l.
Proof. induction 1; simpl; lia. Qed.

Lemma counts_total_nonneg n bc : 0 < bc < 2 ^ 64 -> 0 <= total (counts n bc).
Proof.
  intros Hbc. apply total_nonneg. eapply Forall_mono; [|exact (counts_pos n bc Hbc)]. simpl. lia.
Qed.

Lemma init_loop_zero n bc k :
  0 < bc < 2 ^ 64 -> bm_N B * total (counts n bc) <= Z.of_nat k ->
  init_loop B n bc (replicate k 0) = map zero_level (counts n bc).
Proof.
  revert bc k. induction n as [|n IH]; intros bc k Hbc Hk; [done|].
  cbn [counts total foldr init_loop map] in *. destruct (divup_B bc Hbc) as (_ & _ & Hc).
  set (c := divup 64 bc B) in *. fold (total (counts n c)) in Hk.
  pose proof (counts_total_nonneg n c ltac:(lia)). f_equal.
  - apply chunks_zero. nia.
  - rewrite drop_replicate. apply IH; [lia|]. nia.
Qed.

Lemma counts_length n bc : length (counts n bc) = n.
Proof. revert bc. induction n as [|n IH]; intros bc; simpl; [done|]. by rewrite IH. Qed.

Lemma counts_total_le n bc : 0 < bc < 2 ^ 64 -> total (counts n bc) <= Z.of_nat n * bc.
Proof.
  revert bc. induction n as [|n IH]; intros bc Hbc; cbn [counts total foldr]; [lia|].
  destruct (divup_B bc Hbc) as (_ & _ & Hc). specialize (IH (divup 64 bc B) ltac:(lia)).
  fold (total (counts n (divup 64 bc B))). nia.
Qed.

Lemma counts_0 n bc : (0 < n)%nat -> counts n bc !! 0%nat = Some (divup 64 bc B).
Proof. destruct n; [lia|done]. Qed.

Lemma counts_step n bc l c c' :
  0 < bc < 2 ^ 64 -> counts n bc !! l = Some c -> counts n bc !! S l = Some c' ->
  c <= B * c' < c + B.
Proof.
  revert bc l. induction n as [|n IH]; intros bc l Hbc H1 H2; [done|].
  cbn [counts] in *. destruct (divup_B bc Hbc) as (_ & _ & Hc).
  destruct l as [|l]; simpl in H1, H2.
  - injection H1 as <-. destruct n as [|n]; [done|]. cbn [counts] in H2. simpl in H2.
    injection H2 as <-. apply divup_B. lia.
  - eapply IH; [|done..]. lia.
Qed.

Lemma counts_pow n bc l c :
  0 < bc < 2 ^ 64 -> bc <= B ^ Z.of_nat n -> counts n bc !! l = Some c ->
  c <= B ^ (Z.of_nat n - 1 - Z.of_nat l).
Proof.
  revert bc l. induction n as [|n IH]; intros bc l Hbc Hp H1; [done|].
  cbn [counts] in H1. destruct (divup_B bc Hbc) as (_ & Hc1 & Hc).
  assert (divup 64 bc B <= B ^ Z.of_nat n) as Hle.
  { rewrite B_pow_S in Hp. pose proof (B_pow_pos n).
    assert (B * divup 64 bc B < B * (B ^ Z.of_nat n + 1)) by lia. nia. }
  destruct l as [|l]; simpl in H1.
  - injection H1 as <-. by replace (Z.of_nat (S n) - 1 - Z.of_nat 0) with (Z.of_nat n) by lia.
  - replace (Z.of_nat (S n) - 1 - Z.of_nat (S l)) with (Z.of_nat n - 1 - Z.of_nat l) by lia.
    eapply IH; [|done..]. lia.
Qed.

Lemma zero_level_spec c :
  0 <= c -> lenZ (zero_level c) = c /\ Forall (bm_wf B) (zero_level c) /\
  forall b bm, lookupZ (zero_level c) b = Some bm -> forall i, wbit bm i = false.
Proof.
  intros Hc. unfold zero_level. split; [unfold lenZ; rewrite length_replicate; lia|].
  assert (bm_wf B (replicate (Z.to_nat (bm_N B)) 0)) as Hwf.
  { split; [unfold lenZ; rewrite length_replicate; lia|].
    apply Forall_replicate. split; lia. }
  split; [by apply Forall_replicate|].
  intros b bm. unfold lookupZ at 1. destruct (b <? 0); [done|].
  intros [-> _]%lookup_replicate i. unfold wbit, lookupZ. destruct (_ <? 0); [done|].
  destruct (_ !! _) as [x|] eqn:Hx; [|done]. apply lookup_replicate in Hx as [-> _].
  apply Z.testbit_0_l.
Qed.

(** [init] on zeroed memory of [allocsize] bytes gives the empty bitmap *)
Lemma hb_init_spec bitcount k :
  0 < bitcount < 2 ^ 64 / B -> bitcount <= B ^ Z.of_nat Levels ->
  bm_N B * total (counts Levels bitcount) <= Z.of_nat k ->
  hb_inv B Wd (hb_init B Wd bitcount (replicate k 0)) /\
  (forall i, bit (hb_init B Wd bitcount (replicate k 0)) 0 i = false) /\
  bitcount <= hb_size B (hb_init B Wd bitcount (replicate k 0)) 0 < bitcount + B.
Proof.
  intros Hbc Hp Hk.
  assert (2 ^ 64 / B <= 2 ^ 64) by (apply Z.div_le_upper_bound; nia).
  unfold hb_init. rewrite init_loop_zero by lia.
  assert (forall l lv, map zero_level (counts Levels bitcount) !! l = Some lv ->
    exists c, counts Levels bitcount !! l = Some c /\ lv = zero_level c /\ 0 < c <= bitcount) as Hlv.
  { intros l lv Hl. rewrite list_lookup_fmap in Hl.
    destruct (counts Levels bitcount !! l) as [c|] eqn:Hc; [|done]. injection Hl as <-.
    exists c. split; [done|]. split; [done|].
    by eapply (Forall_lookup_1 (fun c => 0 < c <= bitcount)); [apply counts_pos; lia|]. }
  assert (forall l i, bit (map zero_level (counts Levels bitcount)) l i = false) as Hz.
  { intros l i. unfold hb_bit. destruct (_ !! l) as [lv|] eqn:Hl; [|done].
    destruct (Hlv l lv Hl) as (c & _ & -> & Hc).
    destruct (lookupZ _ _) as [bm|] eqn:Hbm; [|done].
    destruct (zero_level_spec c) as (_ & _ & Hbits); [lia|]. by eapply Hbits. }
  split; [split|split; [apply Hz|]].
  - split.
    + by rewrite length_map, counts_length.
    + intros l lv Hl. destruct (Hlv l lv Hl) as (c & _ & -> & Hc).
      apply zero_level_spec. lia.
    + intros l lv lv' H1 H2. destruct (Hlv l lv H1) as (c & Hc1 & -> & Hc).
      destruct (Hlv (S l) lv' H2) as (c' & Hc1' & -> & Hc').
      destruct (zero_level_spec c) as (-> & _ & _); [lia|].
      destruct (zero_level_spec c') as (-> & _ & _); [lia|].
      by apply (counts_step Levels bitcount l); [lia|..].
    + intros l lv H1. destruct (Hlv l lv H1) as (c & Hc1 & -> & Hc).
      destruct (zero_level_spec c) as (-> & _ & _); lia.
    + intros lv H1. destruct (Hlv _ lv H1) as (c & Hc1 & -> & Hc).
      destruct (zero_level_spec c) as (-> & _ & _); [lia|].
      apply counts_pow in Hc1; [|lia|done].
      replace (Z.of_nat Levels - 1 - Z.of_nat (Levels - 1)) with 0 in Hc1 by lia.
      rewrite Z.pow_0_r in Hc1. lia.
  - intros l b Hl Hb. unfold summary_at, block_used. rewrite Hz.
    split; [done|]. intros (j & _ & Hj). by rewrite Hz in Hj.
  - unfold hb_size. destruct (map zero_level _ !! 0%nat) as [lv|] eqn:Hl.
    + destruct (Hlv _ lv Hl) as (c & Hc1 & -> & Hc).
      destruct (zero_level_spec c) as (-> & _ & _); [lia|].
      rewrite counts_0 in Hc1 by done. injection Hc1 as <-.
      destruct (divup_B bitcount); lia.
    + apply lookup_ge_None in Hl. rewrite length_map, counts_length in Hl. lia.
Qed.

(** [allocsize] is the number of bytes the bitmaps of all levels need *)
Lemma hb_allocsize_eq bitcount :
  0 < bitcount < 2 ^ 64 -> 8 * bm_N B * total (counts Levels bitcount) < 2 ^ 64 ->
  hb_allocsize B Wd bitcount = 8 * (bm_N B * total (counts Levels bitcount)).
Proof.
  unfold hb_allocsize. intros Hbc Hs.
  assert (forall n bc m, 0 < bc < 2 ^ 64 -> 0 <= m ->
    8 * bm_N B * (m + total (counts n bc)) < 2 ^ 64 ->
    allocsize_loop B n bc m = 8 * (bm_N B * (m + total (counts n bc)))) as Hloop.
  { induction n as [|n IH]; intros bc m Hb Hm Hlt; cbn [allocsize_loop counts total foldr] in *.
    { unfold bm_size. rewrite Z.add_0_r in *.
      pose proof (Z.mul_nonneg_nonneg (8 * bm_N B) m ltac:(lia) Hm).
      rewrite wrap_small by lia. lia. }
    destruct (divup_B bc Hb) as (_ & _ & Hc). set (c := divup 64 bc B) in *.
    fold (total (counts n c)) in *. pose proof (counts_total_nonneg n c ltac:(lia)).
    pose proof (Z.mul_le_mono_nonneg_r 1 (8 * bm_N B) (m + (c + total (counts n c)))).
    rewrite (wrap_small 64 (m + c)) by lia. rewrite IH; [f_equal; lia..| |]; lia. }
  rewrite Hloop by (done || lia). f_equal.
Qed.

(** *** queries *)
Lemma hb_query hb idx :
  hb_inv B Wd hb -> 0 <= idx < hb_size B hb 0 ->
  exists bm, hb_block 0 (idx / B) hb = Ok bm /\ bm_wf B bm /\
    (forall j, 0 <= j < B -> bit hb 0 (idx / B * B + j) = wbit bm j).
Proof. intros [Hwf _] Hi. apply hb_block_spec; [done..|by apply hb_size_block]. Qed.

Lemma hb_test_spec hb idx :
  hb_inv B Wd hb -> 0 <= idx < hb_size B hb 0 -> hb_test B idx hb = Ok (bit hb 0 idx).
Proof.
  intros Hinv Hi. destruct (hb_query hb idx Hinv Hi) as (bm & Hbm & Hbw & Hb).
  destruct (div_mod_B idx). unfold hb_test. rewrite Hbm. cbn [mbind res_bind].
  rewrite (bm_test_spec B) by (done || lia). by rewrite <- Hb, <- H by done.
Qed.

(** a property of all bits of the block of [idx] *)
Definition block_all (hb : hbitmap) (idx : Z) (v : bool) : Prop :=
  forall i, 0 <= i -> i / B = idx / B -> bit hb 0 i = v.

Lemma block_all_bits hb idx bm v :
  0 <= idx -> (forall j, 0 <= j < B -> bit hb 0 (idx / B * B + j) = wbit bm j) ->
  block_all hb idx v <-> (forall j, 0 <= j < B -> wbit bm j = v).
Proof.
  intros H0 Hb. pose proof (Z.div_pos idx B H0 ltac:(lia)). split.
  - intros Ha j Hj. rewrite <- Hb by done. apply Ha; [nia|]. by apply bm_inv_parts.
  - intros Ha i Hi Hq. destruct (div_mod_B i) as [He Hm]. rewrite He, Hq, Hb by done. by apply Ha.
Qed.

Lemma hb_blockfull_spec hb idx :
  hb_inv B Wd hb -> 0 <= idx < hb_size B hb 0 ->
  exists b, hb_blockfull B idx hb = Ok b /\ (b = true <-> block_all hb idx true).
Proof.
  intros Hinv Hi. destruct (hb_query hb idx Hinv Hi) as (bm & Hbm & Hbw & Hb).
  exists (bm_full B bm). unfold hb_blockfull. rewrite Hbm. split; [done|].
  rewrite (bm_full_spec B), (block_all_bits _ _ bm) by (done || lia). by rewrite <- HB.
Qed.

Lemma hb_blockempty_spec hb idx :
  hb_inv B Wd hb -> 0 <= idx < hb_size B hb 0 ->
  exists b, hb_blockempty B idx hb = Ok b /\ (b = true <-> block_all hb idx false).
Proof.
  intros Hinv Hi. destruct (hb_query hb idx Hinv Hi) as (bm & Hbm & Hbw & Hb).
  exists (bm_empty B bm). unfold hb_blockempty. rewrite Hbm. split; [done|].
  rewrite (bm_empty_spec B), (block_all_bits _ _ bm) by (done || lia). by rewrite <- HB.
Qed.

(** the top bitmap summarises the whole set *)
Lemma hb_empty_spec hb :
  hb_inv B Wd hb ->
  exists b, hb_empty B Wd hb = Ok b /\ (b = true <-> forall i, bit hb 0 i = false).
Proof.
  intros Hinv. destruct (hb_size_lookup hb (Levels - 1) (proj1 Hinv) ltac:(lia)) as (lv & _ & Hs & Hp).
  destruct (hb_block_spec hb (Levels - 1) 0 (proj1 Hinv)) as (bm & Hbm & Hbw & Hb); [lia..|nia|].
  exists (bm_empty B bm). unfold hb_empty. rewrite Hbm. split; [done|].
  rewrite (bm_empty_spec B) by done. rewrite <- HB. split.
  - intros Hz i. destruct (bit hb 0 i) eqn:Hi; [|done].
    pose proof (bit_up hb (Levels - 1) i Hinv ltac:(lia) Hi) as Hu.
    destruct (hb_bit_bounds hb _ _ (proj1 Hinv) Hu) as [Hbd _].
    destruct (hb_size_lookup hb (Levels - 1) (proj1 Hinv) ltac:(lia)) as (lv' & Hlv' & Hs' & _).
    rewrite Hs', (wf_top _ _ _ (proj1 Hinv) lv' Hlv') in Hbd.
    rewrite Z.mul_1_r in Hbd. specialize (Hb _ Hbd).
    rewrite Z.mul_0_l, Z.add_0_l in Hb. by rewrite Hb, Hz in Hu.
  - intros Hz j Hj. rewrite <- Hb by done. destruct (bit hb (Levels - 1) (0 * B + j)) eqn:Hbit; [|done].
    assert (forall l j, (l < Levels)%nat -> bit hb l j = true -> exists i, bit hb 0 i = true) as Hdown.
    { induction l as [|l IH]; intros k Hl Hk; [by exists k|].
      apply Hinv in Hk as (j' & _ & Hj'); [|done|by apply (hb_bit_bounds hb (S l) k); [apply Hinv|]].
      by apply (IH _ ltac:(lia) Hj'). }
    destruct (Hdown (Levels - 1)%nat _ ltac:(lia) Hbit) as (i & Hi). by rewrite Hz in Hi.
Qed.
End HierarchicalBitmap_facts.

(** ** Properties *)

(** the [static_assert]s of the class, and sizes below the word size *)
Definition hb_params (B Wd : Z) : Prop :=
  B = 64 * bm_N B /\ 0 < bm_N B /\ B <= 2 ^ 32 /\ (0 < hb_Levels B Wd)%nat.

(** C14. The updates of the hierarchical bitmap never leave its arrays, never
    fail their assertion, keep the summary invariant of all levels, and act
    on the set of bits of the lowest level as set operations: [set] adds and
    [clr] removes one index, [blockset] adds and [blockclr] removes all
    indices of a block. *)
Theorem hierarchical_updates (B Wd : Z) (hb : hbitmap) (idx : Z) :
  hb_params B Wd -> hb_inv B Wd hb -> 0 <= idx < hb_size B hb 0 ->
  let ok r upd := exists hb', r = Ok hb' /\ hb_inv B Wd hb' /\
    (forall l, hb_size B hb' l = hb_size B hb l) /\
    (forall i, 0 <= i -> hb_bit B hb' 0 i = upd i (hb_bit B hb 0 i)) in
  ok (hb_set B Wd idx 0 hb) (fun i b => (i =? idx) || b) /\
  ok (hb_clr B Wd idx 0 hb) (fun i b => negb (i =? idx) && b) /\
  ok (hb_blockset B Wd idx hb) (fun i b => (i / B =? idx / B) || b) /\
  ok (hb_blockclr B Wd idx hb) (fun i b => negb (i / B =? idx / B) && b).
Proof.
  intros (H1 & H2 & H3 & H4) Hinv Hi ok. unfold ok.
  by repeat split; [apply hb_set_spec | apply hb_clr_spec
    | apply hb_blockset_spec | apply hb_blockclr_spec].
Qed.

(** [find()] returns the first set bit and [find(idx)] the first set bit
    after [idx], each [limit<size_t>()] when there is none; the search ends
    within [2 * Levels + 2] bitmap scans. *)
Theorem hierarchical_find (B Wd : Z) (hb : hbitmap) :
  hb_params B Wd -> hb_inv B Wd hb ->
  (exists r, hb_find B Wd true hb = Ok r /\ find_ok B hb 0 r) /\
  (forall idx, 0 <= idx -> idx + 1 < hb_size B hb 0 -> find_safe B Wd hb 0 (idx + 1) ->
    exists r, hb_find_from B Wd idx true hb = Ok r /\ find_ok B hb (idx + 1) r).
Proof.
  intros (H1 & H2 & H3 & H4) Hinv. split; [by apply hb_find_spec|].
  intros. by apply hb_find_from_spec.
Qed.

(** [allocsize] is the size of the memory that [init] divides among the
    levels, and [init] on zeroed memory of that size gives the empty set over
    at least [bitcount] indices. *)
Theorem hierarchical_init (B Wd bitcount : Z) :
  hb_params B Wd -> 0 < bitcount < 2 ^ 64 / B -> bitcount <= B ^ Z.of_nat (hb_Levels B Wd) ->
  8 * bm_N B * total (counts B (hb_Levels B Wd) bitcount) < 2 ^ 64 ->
  let hb := hb_init B Wd bitcount (replicate (Z.to_nat (hb_allocsize B Wd bitcount / 8)) 0) in
  hb_inv B Wd hb /\ (forall i, hb_bit B hb 0 i = false) /\
  bitcount <= hb_size B hb 0 < bitcount + B.
Proof.
  intros (H1 & H2 & H3 & H4) Hb Hp Ht hb. apply hb_init_spec; [done..|].
  assert (2 ^ 64 / B <= 2 ^ 64) by (apply Z.div_le_upper_bound; nia).
  rewrite hb_allocsize_eq by (done || lia).
  rewrite (Z.mul_comm 8 (bm_N B * _)), Z.div_mul by lia. lia.
Qed.

Lemma hb_params_64_12 : hb_params 64 12.
Proof.
  split; [reflexivity|]. split; [reflexivity|]. split; [lia|]. vm_compute. lia.
Qed.

(** 4096 bits in two levels of 64-bit bitmaps, bit 100 set *)
Definition hb_example : hbitmap :=
  match hb_set 64 12 100 0 (hb_init 64 12 4096 (replicate 65 0)) with
  | Ok hb => hb
  | Err _ => []
  end.

Lemma hb_example_inv :
  hb_inv 64 12 hb_example /\ hb_size 64 hb_example 0 = 4096 /\
  forall i, 0 <= i -> hb_bit 64 hb_example 0 i = (i =? 100).
Proof.
  destruct hb_params_64_12 as (H1 & H2 & H3 & H4).
  destruct (hb_init_spec 64 12 H1 H2 H3 H4 4096 65) as (Hinv & Hz & Hsz); [done|done|vm_compute; done|].
  destruct (hb_set_spec 64 12 H1 H2 H3 H4 _ 100 Hinv) as (hb' & Hr & Hinv' & Hsz' & Hb); [done|].
  unfold hb_example. rewrite Hr. split; [done|]. split; [by rewrite Hsz'|].
  intros i Hi. by rewrite Hb, Hz, orb_false_r.
Qed.

Lemma hierarchical_updates_witness :
  exists hb', hb_blockset 64 12 200 hb_example = Ok hb' /\ hb_inv 64 12 hb' /\
    hb_bit 64 hb' 0 255 = true /\ hb_bit 64 hb' 0 100 = true.
Proof.
  destruct hb_example_inv as (Hinv & Hsz & Hb).
  destruct (hierarchical_updates 64 12 hb_example 200 hb_params_64_12 Hinv ltac:(rewrite Hsz; lia))
    as (_ & _ & (hb' & Hr & Hinv' & _ & Hb') & _).
  exists hb'. split; [exact Hr|]. split; [exact Hinv'|].
  rewrite !Hb' by lia. rewrite !Hb by lia. split; reflexivity.
Defined.

Lemma hierarchical_find_witness :
  hb_find 64 12 true hb_example = Ok 100 /\
  exists r, hb_find 64 12 true hb_example = Ok r /\ find_ok 64 hb_example 0 r.
Proof.
  split; [vm_compute; reflexivity|].
  exact (proj1 (hierarchical_find 64 12 hb_example hb_params_64_12 (proj1 hb_example_inv))).
Defined.

Lemma hierarchical_init_witness :
  hb_allocsize 64 12 4000 = 512 /\
  hb_inv 64 12 (hb_init 64 12 4000 (replicate (Z.to_nat (hb_allocsize 64 12 4000 / 8)) 0)).
Proof.
  split; [vm_compute; reflexivity|].
  apply (hierarchical_init 64 12 4000 hb_params_64_12); vm_compute; done.
Defined.
