(* ===== verification/RegionSet.v ===== *)
(** * Region sets: generic/RegionSet.h

    [Region<T>] is a half-open interval of 64-bit addresses and
    [RegionSet<R>] a [std::set] of regions.  The set orders regions by
    [a.end < b.start], so regions that overlap or touch are equivalent.  A
    [std::set] is modelled by the list of its elements in order; an iterator
    is a split of this list into the elements before it and the elements from
    it on. *)
From Stdlib Require Import ZArith Lia Bool.
From stdpp Require Import base tactics option numbers sets list.
From S2P Require Import Prelude Bitmanip.

Record Region := mkRegion { r_start : Z; r_end : Z }.

#[export] Instance Region_eq_dec : EqDecision Region.
Proof. solve_decision. Defined.

Definition r_valid (r : Region) : bool := r_start r <? r_end r.
(** [operator<] *)
Definition r_lt (l r : Region) : bool := r_end l <? r_start r.
(** [operator>] *)
Definition r_gt (r l : Region) : bool := r_end l <? r_start r.
(** the code assigns: the result is the assigned value, and [end] changes *)
Definition leftAdjacent (l r : Region) : Region * bool :=
  (mkRegion (r_start l) (r_start r), negb (r_start r =? 0)).
(** here the left region [l] changes *)
Definition rightAdjacent (r l : Region) : Region * bool :=
  (mkRegion (r_start l) (r_start r), negb (r_start r =? 0)).
Definition r_covers (r o : Region) : bool :=
  (r_start r <=? r_start o) && (r_end o <=? r_end r).
Definition r_error : Z := limit 64.

Definition regions := list Region.

(** ** std::set<R> *)

(** the elements before, and from, the first element not less than [r] *)
Fixpoint lower_bound (r : Region) (l : list Region) : list Region * list Region :=
  match l with
  | [] => ([], [])
  | x :: l' => if r_lt x r then let '(a, b) := lower_bound r l' in (x :: a, b) else ([], l)
  end.
(** ... the first element greater than [r] *)
Fixpoint upper_bound (r : Region) (l : list Region) : list Region * list Region :=
  match l with
  | [] => ([], [])
  | x :: l' => if r_lt r x then ([], l) else let '(a, b) := upper_bound r l' in (x :: a, b)
  end.
(** [set::insert]: an element equivalent to [r] keeps [r] out; the hint of the
    insertion only affects its cost *)
Definition set_insert (r : Region) (l : list Region) : list Region :=
  match lower_bound r l with
  | (a, x :: b) => if r_lt r x then a ++ r :: x :: b else a ++ x :: b
  | (a, []) => a ++ [r]
  end.

(** ** RegionSet *)

(** [while (it->end <= r.end) it = erase(it)] *)
Fixpoint erase_covered (r : Region) (post : list Region) : list Region :=
  match post with
  | [] => []
  | x :: post' => if r_end x <=? r_end r then erase_covered r post' else post
  end.

(** [if (it->start <= r.end)]: merge with the last region that overlaps *)
Definition merge_last (r : Region) (post : list Region) : Region * list Region :=
  match post with
  | [] => (r, [])
  | x :: post' =>
      if r_start x <=? r_end r then (mkRegion (r_start r) (r_end x), post') else (r, post)
  end.

Definition rs_insert (r : Region) (l : list Region) : list Region * Region :=
  let '(pre, post) := lower_bound r l in
  match post with
  | [] => (set_insert r (pre ++ post), r)
  | x :: _ =>
      let r := if r_start x <? r_start r then mkRegion (r_start x) (r_end r) else r in
      let '(r, post) := merge_last r (erase_covered r post) in
      (set_insert r (pre ++ post), r)
  end.

Definition rs_remove (fault : bool) (r : Region) (l : list Region) : res (list Region * bool) :=
  let '(pre, post) := lower_bound r l in
  match post with
  | t :: post' =>
      if (r_start t <=? r_start r) && (r_end r <=? r_end t) then
        let l := pre ++ post' in
        let l := if r_end r <? r_end t then set_insert (mkRegion (r_end r) (r_end t)) l else l in
        let l := if r_start t <? r_start r then set_insert (mkRegion (r_start t) (r_start r)) l else l in
        mret (l, true)
      else kassert fault;; mret (l, false)
  | [] => kassert fault;; mret (l, false)
  end.

Fixpoint front_loop (fault : bool) (s : Z) (its : list Region) (l : list Region)
    : res (list Region * Z) :=
  match its with
  | [] => kassert fault;; mret (l, r_error)
  | it :: its =>
      let astart := align_up 64 (r_start it) s in
      if wrap 64 (astart + s) <=? r_end it then
        '(l, _) ← rs_remove false (mkRegion astart (wrap 64 (astart + s))) l;
        mret (l, astart)
      else front_loop fault s its l
  end.
Definition retrieve_front (fault : bool) (s : Z) (l : list Region) : res (list Region * Z) :=
  front_loop fault s l l.

Fixpoint back_loop (fault : bool) (s : Z) (its : list Region) (l : list Region)
    : res (list Region * Z) :=
  match its with
  | [] => kassert fault;; mret (l, r_error)
  | it :: its =>
      let aend := align_down 64 (r_end it) s in
      if r_start it <=? wrap 64 (aend - s) then
        '(l, _) ← rs_remove false (mkRegion (wrap 64 (aend - s)) aend) l;
        mret (l, wrap 64 (aend - s))
      else back_loop fault s its l
  end.
Definition retrieve_back (fault : bool) (s : Z) (l : list Region) : res (list Region * Z) :=
  back_loop fault s (rev l) l.

Definition rs_in (r : Region) (l : list Region) : bool :=
  match lower_bound r l with
  | (_, it :: _) => (r_start it <=? r_start r) && (r_end r <=? r_end it)
  | (_, []) => false
  end.

(** the iterator is decremented before [empty()] is tested; the result of
    decrementing [begin()] cannot be dereferenced *)
Definition rs_out (r : Region) (l : list Region) : res bool :=
  if decide (l = []) then mret true else
  match rev (upper_bound r l).1 with
  | it :: _ => mret ((r_end r <=? r_start it) || (r_end it <=? r_start r))
  | [] => Err OutOfBounds
  end.

(** membership in an explicit list *)
Ltac elem_solve := repeat rewrite ?elem_of_app, ?elem_of_cons; tauto.

(** ** The invariant: non-empty regions, in order, that do not touch *)
Fixpoint rs_wf (l : list Region) : Prop :=
  match l with
  | [] => True
  | x :: l' => r_start x < r_end x /\ Forall (fun y => r_end x < r_start y) l' /\ rs_wf l'
  end.

(** the addresses of a set *)
Definition covered (l : list Region) (a : Z) : Prop :=
  Exists (fun r => r_start r <= a < r_end r) l.
Definition inside (r : Region) (a : Z) : Prop := r_start r <= a < r_end r.

Lemma covered_app l k a : covered (l ++ k) a <-> covered l a \/ covered k a.
Proof. apply Exists_app. Qed.
Lemma covered_cons x l a : covered (x :: l) a <-> inside x a \/ covered l a.
Proof. apply Exists_cons. Qed.
Lemma covered_nil a : covered [] a <-> False.
Proof. apply Exists_nil. Qed.

Lemma rs_wf_app l k :
  rs_wf (l ++ k) <->
  rs_wf l /\ rs_wf k /\ Forall (fun x => Forall (fun y => r_end x < r_start y) k) l.
Proof.
  induction l as [|x l IH]; simpl; [split; [intros; repeat split; auto | tauto]|].
  rewrite IH, Forall_app, Forall_cons_iff. tauto.
Qed.

Lemma covered_bounds l lo a :
  Forall (fun y => lo < r_start y) l -> covered l a -> lo < a.
Proof.
  unfold covered. rewrite Forall_forall, Exists_exists. intros Hf (y & Hy & Ha).
  specialize (Hf y Hy). simpl in Hf. lia.
Qed.

Lemma covered_bounds_up l hi a :
  Forall (fun y => r_end y < hi) l -> covered l a -> a < hi.
Proof.
  unfold covered. rewrite Forall_forall, Exists_exists. intros Hf (y & Hy & Ha).
  specialize (Hf y Hy). simpl in Hf. lia.
Qed.

(** [lower_bound] splits the set at the regions that end before [r] *)
Lemma lower_bound_spec r l :
  let '(a, b) := lower_bound r l in
  l = a ++ b /\ Forall (fun x => r_end x < r_start r) a /\
  match b with [] => True | x :: _ => r_start r <= r_end x end.
Proof.
  induction l as [|x l IH]; simpl; [done|]. unfold r_lt.
  destruct (Z.ltb_spec (r_end x) (r_start r)).
  - destruct (lower_bound r l) as [a b]. destruct IH as (-> & Ha & Hb). by repeat constructor.
  - repeat split; [constructor|lia].
Qed.

Lemma lower_bound_unique r a b :
  Forall (fun x => r_end x < r_start r) a ->
  (match b with [] => True | x :: _ => r_start r <= r_end x end) ->
  lower_bound r (a ++ b) = (a, b).
Proof.
  intros Ha Hb. induction Ha as [|x a Hx Ha IH]; simpl.
  - destruct b as [|y b]; [done|]. simpl. unfold r_lt.
    by destruct (Z.ltb_spec (r_end y) (r_start r)); [lia|].
  - unfold r_lt. destruct (Z.ltb_spec (r_end x) (r_start r)); [|lia]. by rewrite IH.
Qed.

(** an element that touches no other goes to its place *)
Lemma set_insert_sep r a b :
  Forall (fun x => r_end x < r_start r) a -> Forall (fun x => r_end r < r_start x) b ->
  r_start r <= r_end r -> rs_wf b -> set_insert r (a ++ b) = a ++ r :: b.
Proof.
  intros Ha Hb Hr Hwf. unfold set_insert. rewrite lower_bound_unique; [|done|].
  - destruct b as [|y b]; [done|]. inversion_clear Hb. unfold r_lt.
    by destruct (Z.ltb_spec (r_end r) (r_start y)); [|lia].
  - destruct b as [|y b]; [done|]. inversion_clear Hb. destruct Hwf. lia.
Qed.

(** the set with [r] between [a] and [b] *)
Lemma rs_wf_mid a r b :
  r_start r < r_end r -> rs_wf a -> rs_wf b ->
  Forall (fun x => r_end x < r_start r) a -> Forall (fun y => r_end r < r_start y) b ->
  rs_wf (a ++ r :: b).
Proof.
  intros Hr Ha Hb Hra Hrb. rewrite rs_wf_app. split; [done|]. split; [by simpl|].
  eapply Forall_mono; [|exact Hra]. simpl. intros x Hx.
  constructor; [done|]. eapply Forall_mono; [|exact Hrb]. simpl. lia.
Qed.

(** the loop erases regions inside [r] and stops at one that ends after it *)
Lemma erase_covered_spec r post :
  rs_wf post ->
  exists gone, post = gone ++ erase_covered r post /\
    Forall (fun x => r_end x <= r_end r) gone /\
    match erase_covered r post with [] => True | x :: _ => r_end r < r_end x end.
Proof.
  induction post as [|x post IH]; simpl; intros Hwf; [by exists []|].
  destruct (Z.leb_spec (r_end x) (r_end r)).
  - destruct IH as (gone & He & Hg & Hh); [tauto|]. exists (x :: gone).
    split; [simpl; by f_equal|]. split; [by constructor|done].
  - exists []. repeat split; [constructor|done].
Qed.

Lemma rs_wf_head_bounds x l a :
  rs_wf (x :: l) -> covered (x :: l) a -> r_start x <= a.
Proof.
  intros (Hx & Hl & _) [Hin|Hc]%covered_cons; [unfold inside in Hin; lia|].
  pose proof (covered_bounds l (r_end x) a Hl Hc). lia.
Qed.

Lemma covered_le l hi a : Forall (fun y => r_end y <= hi) l -> covered l a -> a < hi.
Proof.
  intros Hf Hc. apply (covered_bounds_up l (hi + 1)) in Hc as Hc'.
  - unfold covered in Hc. rewrite Forall_forall in Hf. rewrite Exists_exists in Hc.
    destruct Hc as (y & Hy & ?). specialize (Hf y Hy). simpl in Hf. lia.
  - eapply Forall_mono; [|exact Hf]. simpl. lia.
Qed.

(** merging a valid [r'] that starts before [post] with the regions it meets;
    [r'] touches the first of them when it was extended to the left *)
Lemma insert_post r x post :
  r_start r < r_end r -> rs_wf (x :: post) -> r_start r <= r_end x ->
  let r1 := if r_start x <? r_start r then mkRegion (r_start x) (r_end r) else r in
  let '(r2, rest) := merge_last r1 (erase_covered r1 (x :: post)) in
  r_start r2 = Z.min (r_start x) (r_start r) /\ r_end r <= r_end r2 /\
  r_start r2 < r_end r2 /\ rs_wf rest /\
  Forall (fun y => r_end r2 < r_start y) rest /\
  (forall a, inside r2 a \/ covered rest a <-> inside r a \/ covered (x :: post) a).
Proof.
  intros Hr Hwf Hx r1.
  assert (r_start r1 = Z.min (r_start x) (r_start r) /\ r_end r1 = r_end r) as [Hs1 He1].
  { unfold r1. destruct (Z.ltb_spec (r_start x) (r_start r)); simpl; lia. }
  destruct (erase_covered_spec r1 (x :: post) Hwf) as (gone & Heq & Hgone & Hhead).
  rewrite He1 in *. set (rest := erase_covered r1 (x :: post)) in *.
  pose proof (fun a => rs_wf_head_bounds x post a Hwf) as Hlow. rewrite Heq in Hwf |- *.
  apply rs_wf_app in Hwf as (Hwg & Hwr & Hsep).
  assert (forall a, covered gone a -> r_start x <= a < r_end r) as Hg.
  { intros a Ha. split; [apply Hlow; rewrite Heq; apply covered_app; by left|].
    by apply (covered_le gone). }
  assert (forall a, r_start x <= a < r_start r -> inside x a) as Hxin by (unfold inside; lia).
  assert (forall a, inside x a -> covered gone a \/ covered rest a) as Hxg.
  { intros a Ha. apply covered_app. rewrite <- Heq. apply covered_cons. by left. }
  unfold merge_last. destruct rest as [|y rest'].
  { split; [done|]. rewrite He1. split; [lia|]. split; [lia|]. split; [done|]. split; [constructor|].
    intros a. rewrite covered_app, covered_nil. unfold inside. rewrite Hs1, He1.
    specialize (Hg a). specialize (Hxin a). specialize (Hxg a). rewrite covered_nil in Hxg.
    destruct (Z.lt_ge_cases a (r_start r)), (Z.lt_ge_cases a (r_start x)); intuition lia. }
  destruct Hwr as (Hy & Hyr & Hwr'). destruct (Z.leb_spec (r_start y) (r_end r1)); simpl.
  - split; [done|]. split; [lia|]. split; [lia|]. split; [done|]. split; [done|].
    intros a. rewrite covered_app, !covered_cons. unfold inside. simpl.
    specialize (Hg a). specialize (Hxin a). specialize (Hxg a).
    rewrite covered_cons in Hxg. unfold inside in *.
    assert (r_start y <= a -> r_start x <= a) as Hxy.
    { intros. assert (r_start x <= r_start y); [|lia]. apply Hlow. rewrite Heq.
      apply covered_app. right. apply covered_cons. left. unfold inside. lia. }
    destruct (Z.lt_ge_cases a (r_start r)), (Z.lt_ge_cases a (r_start x)),
      (Z.lt_ge_cases a (r_start y)), (Z.lt_ge_cases a (r_end r)); intuition lia.
  - split; [done|]. rewrite He1 in *. split; [lia|]. split; [lia|]. split; [done|].
    split; [constructor; [done|]; eapply Forall_mono; [|exact Hyr]; simpl; lia|].
    intros a. rewrite covered_app. unfold inside. rewrite Hs1, He1.
    specialize (Hg a). specialize (Hxin a). specialize (Hxg a).
    assert (covered (y :: rest') a -> r_end r < a) as Hc.
    { intros Ha. pose proof (rs_wf_head_bounds y rest' a ltac:(by simpl) Ha). lia. }
    destruct (Z.lt_ge_cases a (r_start r)), (Z.lt_ge_cases a (r_start x)); intuition lia.
Qed.

(** [insert] adds the addresses of a valid region, merges the regions that
    overlap or touch it and returns the merged region *)
Lemma rs_insert_spec r l :
  rs_wf l -> r_start r < r_end r ->
  let '(l', m) := rs_insert r l in
  rs_wf l' /\ m ∈ l' /\ (forall a, inside r a -> inside m a) /\
  forall a, covered l' a <-> inside r a \/ covered l a.
Proof.
  intros Hwf Hr. unfold rs_insert. pose proof (lower_bound_spec r l) as Hlb.
  destruct (lower_bound r l) as [pre post]. destruct Hlb as (-> & Hpre & Hpost).
  apply rs_wf_app in Hwf as (Hwp & Hwq & Hsep). destruct post as [|x post].
  - rewrite set_insert_sep by (done || constructor || lia).
    split; [apply rs_wf_mid; done || constructor|]. split; [elem_solve|]. split; [done|].
    intros a. rewrite !covered_app, covered_cons. tauto.
  - pose proof (insert_post r x post Hr Hwq Hpost) as Hins. cbn zeta in Hins.
    destruct (merge_last _ _) as [r2 rest]. destruct Hins as (Hs & He & Hr2 & Hwr & Hrest & Hcov).
    assert (Forall (fun y => r_end y < r_start r2) pre) as Hpre2.
    { rewrite Hs. rewrite Forall_forall in *. intros y Hy.
      pose proof (Hpre y Hy) as H1. pose proof (Hsep y Hy) as H2. apply Forall_inv in H2.
      simpl in *. lia. }
    rewrite set_insert_sep by (done || lia).
    split; [by apply rs_wf_mid|]. split; [elem_solve|]. split.
    + intros a Ha. unfold inside in *. lia.
    + intros a. rewrite !covered_app, covered_cons. specialize (Hcov a). tauto.
Qed.

(** the first region not less than a valid [r] is the only one that can cover it *)
Lemma lower_bound_covers r l :
  rs_wf l -> r_start r < r_end r ->
  let '(pre, post) := lower_bound r l in
  (exists t, t ∈ l /\ r_covers t r = true) <->
  match post with [] => False | t :: _ => r_start t <= r_start r /\ r_end r <= r_end t end.
Proof.
  intros Hwf Hr. pose proof (lower_bound_spec r l) as Hlb.
  destruct (lower_bound r l) as [pre post]. destruct Hlb as (-> & Hpre & Hpost).
  apply rs_wf_app in Hwf as (Hwp & Hwq & Hsep). unfold r_covers. split.
  - intros (t & Ht & Hc). apply andb_prop in Hc as [H1%Z.leb_le H2%Z.leb_le].
    apply elem_of_app in Ht as [Ht|Ht].
    + rewrite Forall_forall in Hpre. specialize (Hpre t Ht). simpl in Hpre. lia.
    + destruct post as [|x post]; [by apply elem_of_nil in Ht|].
      apply elem_of_cons in Ht as [->|Ht]; [done|]. destruct Hwq as (_ & Hx & _).
      rewrite Forall_forall in Hx. specialize (Hx t Ht). simpl in Hx. lia.
  - destruct post as [|t post]; [done|]. intros [H1 H2]. exists t. split; [elem_solve|].
    apply andb_true_intro. split; lia.
Qed.

(** for convex sets without touching regions: all addresses of [r] are in the
    set exactly if one region covers [r] *)
Lemma covers_iff r l :
  rs_wf l -> r_start r < r_end r ->
  (exists t, t ∈ l /\ r_covers t r = true) <-> (forall a, inside r a -> covered l a).
Proof.
  intros Hwf Hr. unfold r_covers. split.
  - intros (t & Ht & Hc) a Ha. apply andb_prop in Hc as [H1%Z.leb_le H2%Z.leb_le].
    unfold covered. apply Exists_exists. exists t. unfold inside in Ha. split; [done|lia].
  - intros Hall. induction l as [|x l IH].
    { exfalso. apply (covered_nil (r_start r)), Hall. unfold inside. lia. }
    destruct Hwf as (Hx & Hsep & Hwf).
    destruct (Z.lt_ge_cases (r_start r) (r_end x)) as [Hlt|Hge].
    + exists x. split; [elem_solve|].
      assert (forall a, inside r a -> a <= r_end x -> inside x a) as Hin.
      { intros a Ha Hle. destruct (proj1 (covered_cons x l a) (Hall a Ha)) as [|Hc]; [done|].
        pose proof (covered_bounds l _ _ Hsep Hc). lia. }
      unfold inside in *. pose proof (Hin (r_start r) ltac:(lia) ltac:(lia)).
      assert (r_end r <= r_end x \/ r_end x < r_end r) as [|Hbad] by lia; [lia|].
      pose proof (Hin (r_end x) ltac:(lia) ltac:(lia)). lia.
    + destruct IH as (t & Ht & Hc); [done| |exists t; split; [elem_solve|done]].
      intros a Ha. destruct (proj1 (covered_cons x l a) (Hall a Ha)) as [Hc|]; [|done].
      unfold inside in *. lia.
Qed.

(** [remove] takes away exactly the addresses of [r], which one region covers;
    otherwise it leaves the set alone and reports [false] or asserts *)
Lemma rs_remove_spec fault r l :
  rs_wf l -> r_start r < r_end r ->
  (exists t, t ∈ l /\ r_covers t r = true) ->
  exists l', rs_remove fault r l = Ok (l', true) /\ rs_wf l' /\
    forall a, covered l' a <-> covered l a /\ ~ inside r a.
Proof.
  intros Hwf Hr Hcov. pose proof (lower_bound_covers r l Hwf Hr) as Hc.
  pose proof (lower_bound_spec r l) as Hlb. unfold rs_remove.
  destruct (lower_bound r l) as [pre post]. destruct Hlb as (-> & Hpre & Hpost).
  apply Hc in Hcov. destruct post as [|t post]; [done|]. destruct Hcov as [H1 H2].
  destruct (Z.leb_spec (r_start t) (r_start r)); [|lia].
  destruct (Z.leb_spec (r_end r) (r_end t)); [|lia]. cbn [andb].
  apply rs_wf_app in Hwf as (Hwp & (Ht & Htp & Hwq) & Hsep).
  assert (Forall (fun x => r_end x < r_start t) pre) as Hpt.
  { eapply Forall_mono; [|exact Hsep]. simpl. intros x Hx. by apply Forall_inv in Hx. }
  set (tail := if r_end r <? r_end t then mkRegion (r_end r) (r_end t) :: post else post).
  assert ((if r_end r <? r_end t then set_insert (mkRegion (r_end r) (r_end t)) (pre ++ post)
           else pre ++ post) = pre ++ tail) as ->.
  { unfold tail. destruct (Z.ltb_spec (r_end r) (r_end t)); [|done].
    apply set_insert_sep; simpl; try done; try lia. eapply Forall_mono; [|exact Hpre]. simpl. lia. }
  assert (rs_wf tail /\ Forall (fun y => r_start r < r_start y) tail /\
    forall a, covered tail a <-> r_end r <= a < r_end t \/ covered post a) as (Hwt & Htail & Hct).
  { unfold tail. destruct (Z.ltb_spec (r_end r) (r_end t)); simpl.
    - split; [done|]. split.
      + constructor; simpl; [lia|]. eapply Forall_mono; [|exact Htp]. simpl. lia.
      + intros a. by rewrite covered_cons.
    - split; [done|]. split; [eapply Forall_mono; [|exact Htp]; simpl; lia|].
      intros a. split; [tauto|]. intros [|]; [lia|done]. }
  assert (forall a, covered pre a -> a < r_start t) as Hcp
    by (intros a; apply covered_bounds_up, Hpt).
  assert (forall a, covered post a -> r_end t < a) as Hcq
    by (intros a; apply covered_bounds, Htp).
  eexists. split; [done|]. destruct (Z.ltb_spec (r_start t) (r_start r)).
  - rewrite set_insert_sep; simpl; try done; try lia. split.
    + apply rs_wf_mid; simpl; done.
    + intros a. rewrite !covered_app, !covered_cons, Hct. unfold inside. simpl.
      specialize (Hcp a). specialize (Hcq a). intuition lia.
  - split.
    + rewrite rs_wf_app. split; [done|]. split; [done|].
      eapply Forall_mono; [|exact Hpre]. simpl. intros x Hx.
      eapply Forall_mono; [|exact Htail]. simpl. lia.
    + intros a. rewrite !covered_app, !covered_cons, Hct. unfold inside. simpl.
      specialize (Hcp a). specialize (Hcq a). intuition lia.
Qed.

Lemma rs_remove_none fault r l :
  rs_wf l -> r_start r < r_end r ->
  ~ (exists t, t ∈ l /\ r_covers t r = true) ->
  rs_remove fault r l = if fault then Ok (l, false) else Err AssertFailed.
Proof.
  intros Hwf Hr Hcov. pose proof (lower_bound_covers r l Hwf Hr) as Hc. unfold rs_remove.
  destruct (lower_bound r l) as [pre post]. rewrite Hc in Hcov. destruct post as [|t post].
  - by destruct fault.
  - destruct (Z.leb_spec (r_start t) (r_start r)), (Z.leb_spec (r_end r) (r_end t));
      try (destruct Hcov; lia); by destruct fault.
Qed.

(** ** retrieve_front: first fit of an aligned block *)
Lemma align_up_least k x :
  0 <= k < 64 -> 0 <= x -> x + 2 ^ k - 1 < 2 ^ 64 ->
  let a := align_up 64 x (2 ^ k) in
  x <= a < x + 2 ^ k /\ a mod 2 ^ k = 0 /\
  forall b, b mod 2 ^ k = 0 -> x <= b -> a <= b.
Proof.
  intros Hk Hx Hs a. unfold a. rewrite align_up_eq by done.
  pose proof (Z.pow_pos_nonneg 2 k ltac:(lia) ltac:(lia)) as Hp. set (s := 2 ^ k) in *.
  pose proof (Z.div_mod (x + s - 1) s ltac:(lia)). pose proof (Z.mod_pos_bound (x + s - 1) s Hp).
  split; [lia|]. split; [by apply Z.mod_mul; lia|].
  intros b Hb Hxb. pose proof (Z.div_mod b s ltac:(lia)). rewrite Hb in *.
  assert ((x + s - 1) / s <= b / s); [|nia].
  apply Z.lt_succ_r. apply Z.div_lt_upper_bound; [done|]. nia.
Qed.

Section retrieve.
Context (k : Z) (l : list Region).
Hypothesis Hk : 0 <= k < 64.
Hypothesis Hwf : rs_wf l.
Hypothesis Hbounds : Forall (fun r => 0 <= r_start r /\ r_end r + 2 * 2 ^ k <= 2 ^ 64) l.

(** the aligned block at [b] is free *)
Definition fits (b : Z) : Prop :=
  b mod 2 ^ k = 0 /\ forall a, b <= a < b + 2 ^ k -> covered l a.

Lemma s_pos : 0 < 2 ^ k.
Proof. apply Z.pow_pos_nonneg; lia. Qed.

Lemma fits_region b :
  fits b <-> b mod 2 ^ k = 0 /\
    exists t, t ∈ l /\ r_start t <= b /\ b + 2 ^ k <= r_end t.
Proof.
  unfold fits. pose proof s_pos. split; intros [Hb H']; (split; [done|]).
  - destruct (proj2 (covers_iff (mkRegion b (b + 2 ^ k)) l Hwf ltac:(simpl; lia)) H') as (t & Ht & Hc).
    exists t. split; [done|]. unfold r_covers in Hc. simpl in Hc. lia.
  - destruct H' as (t & Ht & H1 & H2).
    apply (proj1 (covers_iff (mkRegion b (b + 2 ^ k)) l Hwf ltac:(simpl; lia))).
    exists t. split; [done|]. unfold r_covers. simpl. lia.
Qed.

Lemma front_loop_spec fault pre its :
  l = pre ++ its -> (forall t b, t ∈ pre -> b mod 2 ^ k = 0 -> r_start t <= b -> r_end t < b + 2 ^ k) ->
  (exists l' a, front_loop fault (2 ^ k) its l = Ok (l', a) /\ fits a /\
    (forall b, fits b -> a <= b) /\ rs_wf l' /\
    forall x, covered l' x <-> covered l x /\ ~ a <= x < a + 2 ^ k) \/
  ((forall b, ~ fits b) /\
   front_loop fault (2 ^ k) its l = if fault then Ok (l, r_error) else Err AssertFailed).
Proof.
  pose proof s_pos as Hs. revert pre.
  induction its as [|it its IH]; intros pre Hl Hpre; cbn [front_loop].
  { right. split; [|by destruct fault]. intros b Hb. apply fits_region in Hb as (Hb & t & Ht & H1 & H2).
    rewrite app_nil_r in Hl. rewrite Hl in Ht. specialize (Hpre t b Ht Hb H1). lia. }
  assert (it ∈ l) as Hit by (rewrite Hl; elem_solve).
  pose proof Hbounds as HB. rewrite Forall_forall in HB.
  destruct (HB it Hit) as [Hb1 Hb2]. simpl in Hb1, Hb2.
  assert (r_start it < r_end it) as Hv.
  { rewrite Hl in Hwf. apply rs_wf_app in Hwf as (_ & [Hw _] & _). done. }
  destruct (align_up_least k (r_start it) Hk ltac:(lia) ltac:(lia)) as (Ha1 & Ha2 & Ha3).
  set (a := align_up 64 (r_start it) (2 ^ k)) in *. cbv zeta.
  rewrite (wrap_small 64 (a + 2 ^ k)) by lia.
  destruct (Z.leb_spec (a + 2 ^ k) (r_end it)) as [Hle|Hgt].
  - left. destruct (rs_remove_spec false (mkRegion a (a + 2 ^ k)) l Hwf) as (l' & Hr & Hwf' & Hc).
    + simpl. lia.
    + exists it. split; [done|]. unfold r_covers. simpl. lia.
    + exists l', a. rewrite Hr. cbn [mbind res_bind]. split; [done|].
      assert (fits a) as Hfit by (apply fits_region; split; [done|]; exists it; split; [done|lia]).
      split; [done|]. split; [|by split].
      intros b Hb. apply fits_region in Hb as (Hb & t & Ht & H1 & H2).
      rewrite Hl in Ht. apply elem_of_app in Ht as [Ht|Ht].
      { specialize (Hpre t b Ht Hb H1). lia. }
      apply Ha3; [done|]. apply elem_of_cons in Ht as [->|Ht]; [done|].
      rewrite Hl in Hwf. apply rs_wf_app in Hwf as (_ & (_ & Hsep & _) & _).
      rewrite Forall_forall in Hsep. specialize (Hsep t Ht). simpl in Hsep. lia.
  - destruct (IH (pre ++ [it])) as [Hok|Hno]; [| |by left|by right].
    + by rewrite <- app_assoc.
    + intros t b Ht Hb Hle. apply elem_of_app in Ht as [Ht|Ht]; [by apply (Hpre t)|].
      apply list_elem_of_singleton in Ht as ->. specialize (Ha3 b Hb Hle). lia.
Qed.
End retrieve.

(** ** Properties *)

(** C36. [insert] keeps the regions of the set non-empty, ordered and
    untouching, adds exactly the addresses of the inserted region, and returns
    the merged region, which is in the set and contains the inserted one. *)
Theorem region_insert (r : Region) (l : regions) :
  rs_wf l -> r_valid r = true ->
  rs_wf (rs_insert r l).1 /\ (rs_insert r l).2 ∈ (rs_insert r l).1 /\
  (forall a, inside r a -> inside (rs_insert r l).2 a) /\
  forall a, covered (rs_insert r l).1 a <-> inside r a \/ covered l a.
Proof.
  intros Hwf Hr%Z.ltb_lt. pose proof (rs_insert_spec r l Hwf Hr) as H.
  by destruct (rs_insert r l) as [l' m].
Qed.

Lemma region_insert_witness :
  rs_insert (mkRegion 5 12) [mkRegion 0 5; mkRegion 7 9; mkRegion 11 20; mkRegion 30 40]
    = ([mkRegion 0 20; mkRegion 30 40], mkRegion 0 20) /\
  rs_wf (rs_insert (mkRegion 5 12) [mkRegion 0 5; mkRegion 7 9; mkRegion 11 20; mkRegion 30 40]).1.
Proof.
  split; [reflexivity|]. apply region_insert; [|reflexivity].
  cbn. repeat split; repeat constructor; cbn; lia.
Defined.

(** [remove] takes away exactly the addresses of the given region when the
    set contains all of them, and otherwise leaves the set alone and returns
    false (or asserts, for the instance that does not allow the fault). *)
Theorem region_remove (fault : bool) (r : Region) (l : regions) :
  rs_wf l -> r_valid r = true ->
  if decide (rs_in r l = true) then
    (forall a, inside r a -> covered l a) /\
    exists l', rs_remove fault r l = Ok (l', true) /\ rs_wf l' /\
      forall a, covered l' a <-> covered l a /\ ~ inside r a
  else
    ~ (forall a, inside r a -> covered l a) /\
    rs_remove fault r l = if fault then Ok (l, false) else Err AssertFailed.
Proof.
  intros Hwf Hr%Z.ltb_lt.
  assert (rs_in r l = true <-> exists t, t ∈ l /\ r_covers t r = true) as Hin.
  { pose proof (lower_bound_covers r l Hwf Hr) as Hc. unfold rs_in.
    destruct (lower_bound r l) as [pre [|t post]]; rewrite Hc; [done|].
    rewrite andb_true_iff, !Z.leb_le. done. }
  destruct (decide _) as [Hd|Hd]; rewrite <- (covers_iff r l) by done; rewrite Hin in Hd.
  - split; [done|]. by apply rs_remove_spec.
  - split; [done|]. by apply rs_remove_none.
Qed.

Lemma region_remove_witness :
  rs_remove false (mkRegion 3 5) [mkRegion 0 10] = Ok ([mkRegion 0 3; mkRegion 5 10], true) /\
  exists l', rs_remove false (mkRegion 3 5) [mkRegion 0 10] = Ok (l', true) /\ rs_wf l'.
Proof.
  split; [reflexivity|].
  pose proof (region_remove false (mkRegion 3 5) [mkRegion 0 10]) as H.
  destruct H as [_ (l' & H1 & H2 & _)].
  - cbn. repeat split; repeat constructor; cbn; lia.
  - reflexivity.
  - exists l'. split; [exact H1 | exact H2].
Defined.

(** [retrieve_front(s)], for a power of two [s] and regions that end at
    least [2 * s] below 2^64, removes the lowest aligned block of [s] bytes
    that the set contains and returns its address; without such a block it
    returns the error value (or asserts). *)
Theorem region_retrieve_front (fault : bool) (k : Z) (l : regions) :
  0 <= k < 64 -> rs_wf l ->
  Forall (fun r => 0 <= r_start r /\ r_end r + 2 * 2 ^ k <= 2 ^ 64) l ->
  (exists l' a, retrieve_front fault (2 ^ k) l = Ok (l', a) /\ fits k l a /\
    (forall b, fits k l b -> a <= b) /\ rs_wf l' /\
    forall x, covered l' x <-> covered l x /\ ~ a <= x < a + 2 ^ k) \/
  ((forall b, ~ fits k l b) /\
   retrieve_front fault (2 ^ k) l = if fault then Ok (l, r_error) else Err AssertFailed).
Proof.
  intros Hk Hwf Hb. apply (front_loop_spec k l Hk Hwf Hb fault []); [done|].
  intros t b Ht. by apply elem_of_nil in Ht.
Qed.

Lemma region_retrieve_front_witness :
  retrieve_front false (2 ^ 12) [mkRegion 256 4352; mkRegion 5000 20000]
    = Ok ([mkRegion 256 4352; mkRegion 5000 8192; mkRegion 12288 20000], 8192) /\
  ((exists l' a, retrieve_front false (2 ^ 12) [mkRegion 256 4352; mkRegion 5000 20000] = Ok (l', a) /\
    fits 12 [mkRegion 256 4352; mkRegion 5000 20000] a) \/
   forall b, ~ fits 12 [mkRegion 256 4352; mkRegion 5000 20000] b).
Proof.
  split; [vm_compute; reflexivity|].
  destruct (region_retrieve_front false 12 [mkRegion 256 4352; mkRegion 5000 20000])
    as [(l' & a & H1 & H2 & _)|[H _]].
  - lia.
  - cbn. repeat split; repeat constructor; cbn; lia.
  - repeat constructor; cbn; lia.
  - left. exists l', a. split; [exact H1 | exact H2].
  - right. exact H.
Defined.

(** [retrieve_back] subtracts without a test: a region that ends below [s]
    makes it assert although a later region would do *)
Lemma retrieve_back_underflow :
  retrieve_back true (2 ^ 21) [mkRegion 4096 8192] = Err AssertFailed.
Proof. reflexivity. Qed.

(** [out] looks at one region only and overlooks an overlap with an earlier one *)
Lemma rs_out_wrong :
  rs_out (mkRegion 5 12) [mkRegion 0 10; mkRegion 12 20] = Ok true /\
  covered [mkRegion 0 10; mkRegion 12 20] 5 /\ inside (mkRegion 5 12) 5.
Proof.
  split; [reflexivity|]. split; [|unfold inside; simpl; lia].
  apply covered_cons. left. unfold inside. simpl. lia.
Qed.
