(* ===== verification/Intrusive.v ===== *)
(** * Intrusive lists and queues: generic/IntrusiveContainers.h

    The links of all objects are a heap from addresses to [Link]s; an object
    and its link have the same address (the list requires that [Link] is
    first in [T]), and 0 is [nullptr].  An access through an address without a
    link is [Err NullDeref].  The representation predicates relate the heap to
    the sequence of objects on a list or queue; the operations refine the
    sequence operations. *)
From Stdlib Require Import ZArith Lia Bool.
From stdpp Require Import base tactics list option numbers gmap.
From S2P Require Import Prelude.

Record Link := mkLink { l_prev : Z; l_next : Z }.
#[export] Instance Link_eq_dec : EqDecision Link.
Proof. solve_decision. Defined.

Abbreviation heap := (gmap Z Link).

Definition get_prev (p : Z) (h : heap) : res Z :=
  match h !! p with Some k => mret (l_prev k) | None => Err NullDeref end.
Definition get_next (p : Z) (h : heap) : res Z :=
  match h !! p with Some k => mret (l_next k) | None => Err NullDeref end.
Definition set_prev (p v : Z) (h : heap) : res heap :=
  match h !! p with Some k => mret (<[p := mkLink v (l_next k)]> h) | None => Err NullDeref end.
Definition set_next (p v : Z) (h : heap) : res heap :=
  match h !! p with Some k => mret (<[p := mkLink (l_prev k) v]> h) | None => Err NullDeref end.

(** ** IntrusiveList *)
Module IList.

(** [Link::onList] *)
Definition onList (p : Z) (h : heap) : res bool :=
  pr ← get_prev p h; nx ← get_next p h;
  kassert (Bool.eqb (pr =? 0) (nx =? 0));;
  mret (negb (nx =? 0)).

(** the constructor: [anchor.next = anchor.prev = &anchor] *)
Definition init (anchor : Z) (h : heap) : heap := <[anchor := mkLink anchor anchor]> h.

Definition empty (anchor : Z) (h : heap) : res bool :=
  n ← get_next anchor h; mret (anchor =? n).
Definition front (anchor : Z) (h : heap) : res Z := get_next anchor h.
Definition back (anchor : Z) (h : heap) : res Z := get_prev anchor h.

Definition insert_before (next elem : Z) (h : heap) : res heap :=
  e ← onList elem h; kassert (negb e);;
  n ← onList next h; kassert n;;
  p ← get_prev next h; h ← set_next p elem h;
  p ← get_prev next h; h ← set_prev elem p h;
  h ← set_prev next elem h;
  set_next elem next h.

Definition insert_after (prev first last : Z) (h : heap) : res heap :=
  fp ← get_prev first h; kassert (fp =? 0);;
  ln ← get_next last h; kassert (ln =? 0);;
  p ← onList prev h; kassert p;;
  n ← get_next prev h; h ← set_prev n last h;
  n ← get_next prev h; h ← set_next last n h;
  h ← set_next prev first h;
  set_prev first prev h.

Definition remove (elem : Z) (h : heap) : res heap :=
  e ← onList elem h; kassert e;;
  p ← get_prev elem h; n ← get_next elem h; h ← set_next p n h;
  n ← get_next elem h; p ← get_prev elem h; h ← set_prev n p h;
  h ← set_prev elem 0 h;
  set_next elem 0 h.

(** [for (i = 1; i < count; i += 1)]: [n] iterations are left; the result is
    [last] and the new [count] *)
Fixpoint remove_loop (anchor : Z) (n : nat) (i count last : Z) (h : heap) : res (Z * Z) :=
  match n with
  | O => mret (last, count)
  | S n =>
      nx ← get_next last h;
      if nx =? anchor then mret (last, i)
      else remove_loop anchor n (i + 1) count nx h
  end.

Definition remove_n (anchor first count : Z) (h : heap) : res (heap * Z * Z) :=
  f ← onList first h; kassert f;;
  '(last, count) ← remove_loop anchor (Z.to_nat (count - 1)) 1 count first h;
  p ← get_prev first h; n ← get_next last h; h ← set_next p n h;
  n ← get_next last h; p ← get_prev first h; h ← set_prev n p h;
  h ← set_prev first 0 h;
  h ← set_next last 0 h;
  mret (h, last, count).

Definition push_front (anchor elem : Z) (h : heap) : res heap :=
  f ← front anchor h; insert_before f elem h.
Definition push_back (anchor elem : Z) (h : heap) : res heap :=
  b ← back anchor h; insert_after b elem elem h.
Definition splice_back (anchor first last : Z) (h : heap) : res heap :=
  b ← back anchor h; insert_after b first last h.

Definition pop_front (anchor : Z) (h : heap) : res (heap * Z) :=
  e ← empty anchor h; kassert (negb e);;
  f ← front anchor h; h ← remove f h; mret (h, f).
Definition pop_back (anchor : Z) (h : heap) : res (heap * Z) :=
  e ← empty anchor h; kassert (negb e);;
  b ← back anchor h; h ← remove b h; mret (h, b).

(** moves up to [count] elements of the list at [other] to this one *)
Definition transferFrom (anchor other count : Z) (h : heap) : res (heap * Z) :=
  e ← empty other h; kassert (negb e);;
  first ← front other h;
  '(h, last, count) ← remove_n other first count h;
  h ← splice_back anchor first last h;
  mret (h, count).

(** ** Representation *)
Definition nxt (h : heap) (p : Z) : option Z := l_next <$> h !! p.
Definition prv (h : heap) (p : Z) : option Z := l_prev <$> h !! p.

(** consecutive elements point at each other *)
Fixpoint chain (h : heap) (l : list Z) : Prop :=
  match l with
  | x :: ((y :: _) as t) => nxt h x = Some y /\ prv h y = Some x /\ chain h t
  | _ => True
  end.

(** the list at [anchor] holds [xs] *)
Definition rep (h : heap) (anchor : Z) (xs : list Z) : Prop :=
  NoDup (anchor :: xs) /\ (0 ∉ anchor :: xs) /\ chain h (anchor :: xs ++ [anchor]).

(** an object that is on no list *)
Definition off_list (h : heap) (x : Z) : Prop := x <> 0 /\ h !! x = Some (mkLink 0 0).

(** a detached segment, as [remove_n] leaves it *)
Definition segment (h : heap) (ys : list Z) : Prop :=
  NoDup ys /\ (0 ∉ ys) /\ chain h ys /\
  exists f l, head ys = Some f /\ last ys = Some l /\ prv h f = Some 0 /\ nxt h l = Some 0.

(** *** the four link accesses *)
Lemma get_next_Ok h p v : nxt h p = Some v <-> get_next p h = Ok v.
Proof. unfold nxt, get_next. destruct (h !! p) as [k|]; unfold mret, res_ret; simpl; naive_solver. Qed.
Lemma get_prev_Ok h p v : prv h p = Some v <-> get_prev p h = Ok v.
Proof. unfold prv, get_prev. destruct (h !! p) as [k|]; unfold mret, res_ret; simpl; naive_solver. Qed.

(** [h'] is [h] with the two links of [p] set *)
Lemma set_next_spec h p v w :
  nxt h p = Some w -> exists h', set_next p v h = Ok h' /\
    nxt h' p = Some v /\ (forall q, q <> p -> nxt h' q = nxt h q) /\ (forall q, prv h' q = prv h q) /\
    (forall q, q <> p -> h' !! q = h !! q).
Proof.
  unfold nxt, prv, set_next. destruct (h !! p) as [k|] eqn:Hk; [|done]. intros _.
  eexists. split; [done|]. split; [by rewrite lookup_insert_eq|].
  split; [intros; by rewrite lookup_insert_ne|].
  split; [|intros; by rewrite lookup_insert_ne].
  intros q. destruct (decide (q = p)) as [->|]; [by rewrite lookup_insert_eq, Hk|].
  by rewrite lookup_insert_ne.
Qed.

Lemma set_prev_spec h p v w :
  prv h p = Some w -> exists h', set_prev p v h = Ok h' /\
    prv h' p = Some v /\ (forall q, q <> p -> prv h' q = prv h q) /\ (forall q, nxt h' q = nxt h q) /\
    (forall q, q <> p -> h' !! q = h !! q).
Proof.
  unfold nxt, prv, set_prev. destruct (h !! p) as [k|] eqn:Hk; [|done]. intros _.
  eexists. split; [done|]. split; [by rewrite lookup_insert_eq|].
  split; [intros; by rewrite lookup_insert_ne|].
  split; [|intros; by rewrite lookup_insert_ne].
  intros q. destruct (decide (q = p)) as [->|]; [by rewrite lookup_insert_eq, Hk|].
  by rewrite lookup_insert_ne.
Qed.

Lemma chain_app h l1 x l2 :
  chain h (l1 ++ x :: l2) <-> chain h (l1 ++ [x]) /\ chain h (x :: l2).
Proof.
  induction l1 as [|y l1 IH]; [simpl; tauto|].
  destruct l1 as [|z l1]; simpl in *; [tauto|]. rewrite IH. tauto.
Qed.

(** a chain only depends on the [next] of all elements but the last and the
    [prev] of all elements but the first *)
Lemma chain_ext h h' l :
  (forall x, x ∈ removelast l -> nxt h' x = nxt h x) ->
  (forall x, x ∈ tail l -> prv h' x = prv h x) -> chain h l -> chain h' l.
Proof.
  induction l as [|x [|y l] IH]; intros Hn Hp Hc; [done..|].
  destruct Hc as (H1 & H2 & H3). cbn [chain]. split; [|split].
  - rewrite Hn; [done|]. apply elem_of_cons. by left.
  - rewrite Hp; [done|]. simpl. apply elem_of_cons. by left.
  - apply IH; [| |done].
    + intros z Hz. apply Hn. change (removelast (x :: y :: l)) with (x :: removelast (y :: l)).
      apply elem_of_cons. by right.
    + intros z Hz. apply Hp. simpl in *. apply elem_of_cons. by right.
Qed.

(** the four link updates of an insertion or removal: [p] gets the [next] link
    [a] and [l] the [next] link [b], [f] the [prev] link [c] and [n] the [prev]
    link [d]; nothing else changes *)
Definition relinked (h h' : heap) (p a l b f c n d : Z) : Prop :=
  nxt h' p = Some a /\ nxt h' l = Some b /\ (forall q, q <> p -> q <> l -> nxt h' q = nxt h q) /\
  prv h' f = Some c /\ prv h' n = Some d /\ (forall q, q <> f -> q <> n -> prv h' q = prv h q) /\
  (forall q, q <> p -> q <> l -> q <> f -> q <> n -> h' !! q = h !! q).

(** a position of a list: the neighbours [p] and [n] around a part [ys] *)
Lemma rep_split h a xs1 ys xs2 :
  rep h a (xs1 ++ ys ++ xs2) ->
  exists L p n R, a :: xs1 = L ++ [p] /\ xs2 ++ [a] = n :: R /\
    chain h (L ++ [p]) /\ chain h (p :: ys ++ [n]) /\ chain h (n :: R) /\
    (p ∉ L) /\ (n ∉ R) /\ (n ∉ tail (L ++ [p])) /\ (p ∉ xs2) /\ (p ∉ ys) /\ (n ∉ ys) /\
    p <> 0 /\ n <> 0.
Proof.
  intros (Hnd & H0 & Hc).
  destruct (exists_last (l := a :: xs1)) as (L & p & HL); [done|].
  destruct (xs2 ++ [a]) as [|n R] eqn:HR; [by destruct xs2|].
  assert (a :: (xs1 ++ ys ++ xs2) ++ [a] = L ++ p :: ys ++ n :: R) as Hcyc.
  { rewrite <- !app_assoc, HR, app_comm_cons, HL, <- app_assoc. done. }
  rewrite Hcyc in Hc. apply chain_app in Hc as [Hc1 Hc2].
  change (p :: ys ++ n :: R) with ((p :: ys) ++ n :: R) in Hc2.
  apply chain_app in Hc2 as [Hc2 Hc3].
  assert (NoDup (L ++ p :: ys ++ xs2)) as Hnd1.
  { change (a :: xs1 ++ ys ++ xs2) with ((a :: xs1) ++ ys ++ xs2) in Hnd.
    by rewrite HL, <- app_assoc in Hnd. }
  assert (NoDup (xs1 ++ ys ++ n :: R)) as Hnd2.
  { rewrite <- HR, !app_assoc, <- Permutation_cons_append. by rewrite <- !app_assoc. }
  assert (tail (L ++ [p]) = xs1) as Htl by by rewrite <- HL.
  exists L, p, n, R. rewrite Htl.
  apply NoDup_app in Hnd1 as (_ & Hd1 & (Hp & _)%NoDup_cons).
  apply NoDup_app in Hnd2 as (_ & Hd2 & (_ & Hd3 & (Hn & _)%NoDup_cons)%NoDup_app).
  repeat split; try done.
  - intros Hx. apply (Hd1 p Hx). apply elem_of_cons. by left.
  - intros Hx. apply (Hd2 n Hx). apply elem_of_app. right. apply elem_of_cons. by left.
  - intros Hx. apply Hp. apply elem_of_app. by right.
  - intros Hx. apply Hp. apply elem_of_app. by left.
  - intros Hx. apply (Hd3 n Hx). apply elem_of_cons. by left.
  - intros ->. apply H0. change (a :: xs1 ++ ys ++ xs2) with ((a :: xs1) ++ ys ++ xs2).
    rewrite HL. rewrite !elem_of_app, elem_of_cons. tauto.
  - intros ->. apply H0.
    assert (0 ∈ xs2 ++ [a]) as Hx by (rewrite HR; apply elem_of_cons; by left).
    rewrite elem_of_app, list_elem_of_singleton in Hx.
    rewrite elem_of_cons, !elem_of_app. tauto.
Qed.

Lemma chain_link h L p ys n R f l :
  chain h (L ++ [p]) -> chain h ys -> chain h (n :: R) -> head ys = Some f -> last ys = Some l ->
  nxt h p = Some f -> prv h f = Some p -> nxt h l = Some n -> prv h n = Some l ->
  chain h (L ++ p :: ys ++ n :: R).
Proof.
  intros Hc1 Hc2 Hc3 Hf Hl H1 H2 H3 H4. apply chain_app. split; [done|].
  apply last_Some in Hl as (ys' & ->). rewrite <- app_assoc. simpl.
  assert (chain h (ys' ++ l :: n :: R)) as Hy by (apply chain_app; done).
  destruct ys' as [|y ys']; injection Hf as <-; simpl in *; done.
Qed.

Lemma in_removelast {A} (x : A) l : x ∈ removelast l -> x ∈ l.
Proof.
  induction l as [|y [|z l] IH]; intros Hx; [done|by apply elem_of_nil in Hx|].
  change (removelast (y :: z :: l)) with (y :: removelast (z :: l)) in Hx.
  apply elem_of_cons in Hx as [->|Hx]; apply elem_of_cons; [by left|right; by apply IH].
Qed.

Lemma in_tail {A} (x : A) l : x ∈ tail l -> x ∈ l.
Proof. destruct l; [done|]. intros. apply elem_of_cons. by right. Qed.

(** the first element is not in the tail, the last not before the end *)
Lemma head_not_tail {A} (l : list A) x : NoDup l -> head l = Some x -> x ∉ tail l.
Proof. destruct l; [done|]. intros [H _]%NoDup_cons [= ->]. done. Qed.
Lemma last_not_removelast {A} (l : list A) x : NoDup l -> last l = Some x -> x ∉ removelast l.
Proof.
  intros Hnd (l' & ->)%last_Some. rewrite removelast_last.
  apply NoDup_app in Hnd as (_ & Hd & _). intros Hx. apply (Hd x Hx). by apply list_elem_of_singleton.
Qed.

Lemma chain_relinked h h' p a l b f c n d zs :
  relinked h h' p a l b f c n d -> chain h zs ->
  p ∉ removelast zs -> l ∉ removelast zs -> f ∉ tail zs -> n ∉ tail zs -> chain h' zs.
Proof.
  intros (_ & _ & Hnx & _ & _ & Hpv & _) Hc H1 H2 H3 H4. apply (chain_ext h); [| |done].
  - intros x Hx. apply Hnx; congruence.
  - intros x Hx. apply Hpv; congruence.
Qed.

Lemma removelast_cyc {A} (xs : list A) a n R : xs ++ [a] = n :: R -> removelast (n :: R) = xs.
Proof. intros <-. apply removelast_last. Qed.

Lemma chain_nxt h l x :
  chain h l -> x ∈ removelast l -> exists y, nxt h x = Some y /\ y ∈ l.
Proof.
  induction l as [|y [|z l] IH]; intros Hc Hx; [by apply elem_of_nil in Hx..|].
  change (removelast (y :: z :: l)) with (y :: removelast (z :: l)) in Hx.
  destruct Hc as (H1 & H2 & H3). apply elem_of_cons in Hx as [->|Hx].
  - exists z. split; [done|]. rewrite !elem_of_cons. tauto.
  - destruct (IH H3 Hx) as (w & ? & ?). exists w. split; [done|]. rewrite elem_of_cons. tauto.
Qed.

Lemma chain_prv h l x :
  chain h l -> x ∈ tail l -> exists y, prv h x = Some y /\ y ∈ l.
Proof.
  induction l as [|y [|z l] IH]; intros Hc Hx; [by apply elem_of_nil in Hx..|].
  destruct Hc as (H1 & H2 & H3). simpl in Hx. apply elem_of_cons in Hx as [->|Hx].
  - exists y. split; [done|]. rewrite !elem_of_cons. tauto.
  - destruct (IH H3 Hx) as (w & ? & ?). exists w. split; [done|]. rewrite elem_of_cons. tauto.
Qed.

(** every element of a list, and its anchor, has two non-null links *)
Lemma rep_links h a xs x :
  rep h a xs -> x ∈ a :: xs ->
  exists u v, prv h x = Some u /\ nxt h x = Some v /\ u <> 0 /\ v <> 0.
Proof.
  intros (Hnd & H0 & Hc) Hx.
  assert (forall y, y ∈ a :: xs ++ [a] -> y <> 0) as Hnz.
  { intros y Hy ->. apply H0. rewrite elem_of_cons in Hy |- *.
    rewrite elem_of_app, list_elem_of_singleton in Hy. tauto. }
  destruct (chain_nxt h (a :: xs ++ [a]) x Hc) as (v & Hv & Hv').
  { rewrite app_comm_cons, removelast_last. done. }
  destruct (chain_prv h (a :: xs ++ [a]) x Hc) as (u & Hu & Hu').
  { simpl. rewrite elem_of_app, list_elem_of_singleton. rewrite elem_of_cons in Hx. tauto. }
  exists u, v. repeat split; auto.
Qed.

Lemma onList_rep h a xs x : rep h a xs -> x ∈ a :: xs -> onList x h = Ok true.
Proof.
  intros Hrep Hx. destruct (rep_links h a xs x Hrep Hx) as (u & v & Hu & Hv & Hu0 & Hv0).
  unfold onList. rewrite (proj1 (get_prev_Ok _ _ _) Hu), (proj1 (get_next_Ok _ _ _) Hv).
  cbn [mbind res_bind]. destruct (Z.eqb_spec u 0), (Z.eqb_spec v 0); done.
Qed.

(** run the link accesses of an operation, whose values are in the context *)
Ltac link_read :=
  match goal with
  | H : nxt ?h ?p = Some ?v |- context [get_next ?p ?h] =>
      rewrite (proj1 (get_next_Ok h p v) H)
  | H : prv ?h ?p = Some ?v |- context [get_prev ?p ?h] =>
      rewrite (proj1 (get_prev_Ok h p v) H)
  end; cbn [mbind res_bind].

Lemma off_list_segment h e : off_list h e -> segment h [e].
Proof.
  intros [H0 He]. split; [apply NoDup_singleton|]. split; [intros Hx%list_elem_of_singleton; congruence|].
  split; [done|]. exists e, e. unfold prv, nxt. by rewrite He.
Qed.

(** a segment [ys] put between [p] and [n] by the four updates of an insertion *)
Lemma attach h h' a xs1 ys xs2 L p n R f l :
  rep h a (xs1 ++ xs2) -> a :: xs1 = L ++ [p] -> xs2 ++ [a] = n :: R ->
  chain h (L ++ [p]) -> chain h (n :: R) -> p ∉ L -> n ∉ R -> n ∉ tail (L ++ [p]) -> p ∉ xs2 ->
  segment h ys -> head ys = Some f -> last ys = Some l ->
  (forall x, x ∈ ys -> x ∉ a :: xs1 ++ xs2) -> relinked h h' p f l n f p n l ->
  rep h' a (xs1 ++ ys ++ xs2) /\ forall q, q ∉ a :: xs1 ++ ys ++ xs2 -> h' !! q = h !! q.
Proof.
  intros Hrep HL HR Hc1 Hc3 HpL HnR HnL Hpx (Hndy & H0y & Hcy & _) Hf Hl Hdis Hre.
  assert (l ∈ ys) as Hly by (apply last_Some in Hl as (? & ->); apply elem_of_app; right; by apply list_elem_of_singleton).
  assert (f ∈ ys) as Hfy by (destruct ys; [done|]; injection Hf as ->; apply elem_of_cons; by left).
  assert (forall x, x ∈ L ++ [p] -> x ∉ ys) as HLy.
  { intros x Hx Hy. apply (Hdis x Hy). rewrite app_comm_cons, HL. apply elem_of_app. by left. }
  assert (forall x, x ∈ n :: R -> x ∉ ys) as HRy.
  { intros x Hx Hy. apply (Hdis x Hy). rewrite <- HR in Hx. rewrite elem_of_cons, elem_of_app.
    rewrite elem_of_app, list_elem_of_singleton in Hx. tauto. }
  assert (p ∈ L ++ [p]) as HpL' by (apply elem_of_app; right; by apply list_elem_of_singleton).
  assert (n ∈ n :: R) as HnR' by (apply elem_of_cons; by left).
  destruct Hrep as (Hnd & H0 & _).
  assert (a :: xs1 ++ ys ++ xs2 ≡ₚ ys ++ a :: xs1 ++ xs2) as Hperm by solve_Permutation.
  split; [split; [|split]|].
  - rewrite Hperm. apply NoDup_app. done.
  - rewrite Hperm, elem_of_app. tauto.
  - replace (a :: (xs1 ++ ys ++ xs2) ++ [a]) with (L ++ p :: ys ++ n :: R)
      by (symmetry; rewrite <- !app_assoc, HR, app_comm_cons, HL, <- app_assoc; done).
    assert (NoDup (n :: R)) as HndR.
    { rewrite <- HR, <- Permutation_cons_append.
      rewrite app_comm_cons, Permutation_app_comm in Hnd. apply NoDup_app in Hnd as (? & Hd & _).
      apply NoDup_cons. split; [|done]. intros Ha. apply (Hd a Ha). apply elem_of_cons. by left. }
    eapply (chain_link h' L p ys n R f l); [| | |done|done|apply Hre..].
    + apply (chain_relinked h _ _ _ _ _ _ _ _ _ _ Hre Hc1).
      * by rewrite removelast_last.
      * intros Hx%in_removelast. by apply (HLy l).
      * intros Hx%in_tail. by apply (HLy f).
      * done.
    + apply (chain_relinked h _ _ _ _ _ _ _ _ _ _ Hre Hcy).
      * intros Hx%in_removelast. by apply (HLy p).
      * by apply last_not_removelast.
      * by apply head_not_tail.
      * intros Hx%in_tail. by apply (HRy n).
    + apply (chain_relinked h _ _ _ _ _ _ _ _ _ _ Hre Hc3).
      * by rewrite (removelast_cyc _ _ _ _ HR).
      * intros Hx%in_removelast. by apply (HRy l).
      * intros Hx%in_tail. by apply (HRy f).
      * done.
  - intros q Hq. rewrite Hperm, elem_of_app in Hq. apply Hre; intros ->; apply Hq.
    + right. rewrite app_comm_cons, elem_of_app, HL. by left.
    + by left.
    + by left.
    + right. rewrite elem_of_cons, elem_of_app.
      rewrite <- HR, elem_of_app, list_elem_of_singleton in HnR'. tauto.
Qed.

Lemma insert_after_spec h a xs1 xs2 p ys f l :
  rep h a (xs1 ++ xs2) -> last (a :: xs1) = Some p ->
  segment h ys -> head ys = Some f -> last ys = Some l ->
  (forall x, x ∈ ys -> x ∉ a :: xs1 ++ xs2) ->
  exists h', insert_after p f l h = Ok h' /\ rep h' a (xs1 ++ ys ++ xs2) /\
    forall q, q ∉ a :: xs1 ++ ys ++ xs2 -> h' !! q = h !! q.
Proof.
  intros Hrep Hp Hseg Hf Hl Hdis.
  pose proof Hseg as (Hndy & H0y & Hcy & f' & l' & Hf' & Hl' & Hpf & Hnl).
  rewrite Hf in Hf'. rewrite Hl in Hl'. injection Hf' as <-. injection Hl' as <-.
  destruct (rep_split h a xs1 [] xs2 Hrep)
    as (L & p' & n & R & HL & HR & Hc1 & Hc2 & Hc3 & HpL & HnR & HnL & Hpx & _ & _ & Hp0 & Hn0).
  rewrite HL, last_snoc in Hp. injection Hp as ->. destruct Hc2 as (Hpn & Hnp & _).
  assert (l ∈ ys) as Hly by (apply last_Some in Hl as (? & ->); apply elem_of_app; right; by apply list_elem_of_singleton).
  assert (f ∈ ys) as Hfy by (destruct ys; [done|]; injection Hf as ->; apply elem_of_cons; by left).
  assert (forall x, x ∈ L ++ [p] -> x ∉ ys) as HLy.
  { intros x Hx Hy. apply (Hdis x Hy). rewrite app_comm_cons, HL. apply elem_of_app. by left. }
  assert (forall x, x ∈ n :: R -> x ∉ ys) as HRy.
  { intros x Hx Hy. apply (Hdis x Hy). rewrite <- HR in Hx. rewrite elem_of_cons, elem_of_app.
    rewrite elem_of_app, list_elem_of_singleton in Hx. tauto. }
  assert (p ∈ L ++ [p]) as HpL' by (apply elem_of_app; right; by apply list_elem_of_singleton).
  assert (n ∈ n :: R) as HnR' by (apply elem_of_cons; by left).
  assert (p <> l /\ f <> n) as [Hplne Hfnne]
    by (split; intros ->; [by apply (HLy l) | by apply (HRy n)]).
  assert (onList p h = Ok true) as Hon.
  { apply (onList_rep h a (xs1 ++ xs2)); [done|].
    rewrite app_comm_cons, elem_of_app, HL. by left. }
  unfold insert_after. do 2 (link_read; change (kassert (0 =? 0)) with (Ok tt); cbn [mbind res_bind]).
  rewrite Hon. cbn [mbind res_bind kassert]. link_read.
  destruct (set_prev_spec h n l p Hnp) as (h1 & -> & Hp1 & Hpo1 & Hn1 & Hf1). cbn [mbind res_bind].
  rewrite <- Hn1 in Hpn. rewrite <- Hn1 in Hnl. link_read.
  destruct (set_next_spec h1 l n 0 Hnl) as (h2 & -> & Hn2 & Hno2 & Hp2 & Hf2). cbn [mbind res_bind].
  rewrite <- Hno2 in Hpn by done.
  destruct (set_next_spec h2 p f n Hpn) as (h3 & -> & Hn3 & Hno3 & Hp3 & Hf3). cbn [mbind res_bind].
  rewrite <- Hpo1, <- Hp2, <- Hp3 in Hpf by done.
  destruct (set_prev_spec h3 f p 0 Hpf) as (h4 & -> & Hp4 & Hpo4 & Hn4 & Hf4).
  assert (relinked h h4 p f l n f p n l) as Hre.
  { split; [by rewrite Hn4|]. split; [by rewrite Hn4, Hno3 by done|].
    split; [intros; by rewrite Hn4, Hno3, Hno2, Hn1 by done|].
    split; [done|]. split; [by rewrite Hpo4, Hp3, Hp2 by done|].
    split; [intros; by rewrite Hpo4, Hp3, Hp2, Hpo1 by done|].
    intros; by rewrite Hf4, Hf3, Hf2, Hf1 by done. }
  exists h4. split; [done|]. apply (attach h h4 a xs1 ys xs2 L p n R f l); done.
Qed.

(** [insert_before] puts a single object before [n] *)
Lemma insert_before_spec h a xs1 xs2 n e :
  rep h a (xs1 ++ xs2) -> head (xs2 ++ [a]) = Some n -> off_list h e -> e ∉ a :: xs1 ++ xs2 ->
  exists h', insert_before n e h = Ok h' /\ rep h' a (xs1 ++ e :: xs2) /\
    forall q, q ∉ a :: xs1 ++ e :: xs2 -> h' !! q = h !! q.
Proof.
  intros Hrep Hn [He0 He] Hdis.
  destruct (rep_split h a xs1 [] xs2 Hrep)
    as (L & p & n' & R & HL & HR & Hc1 & Hc2 & Hc3 & HpL & HnR & HnL & Hpx & _ & _ & Hp0 & Hn0).
  rewrite HR in Hn. injection Hn as ->. destruct Hc2 as (Hpn & Hnp & _).
  assert (prv h e = Some 0 /\ nxt h e = Some 0) as [Hpe Hne] by (unfold prv, nxt; by rewrite He).
  assert (p ∈ a :: xs1 ++ xs2 /\ n ∈ a :: xs1 ++ xs2) as [Hpin Hnin].
  { split; [rewrite app_comm_cons, HL, !elem_of_app, list_elem_of_singleton; tauto|].
    assert (n ∈ xs2 ++ [a]) as Hx by (rewrite HR; apply elem_of_cons; by left).
    rewrite elem_of_app, list_elem_of_singleton in Hx. rewrite elem_of_cons, elem_of_app. tauto. }
  assert (e <> p /\ e <> n) as [Hep Hen] by (split; intros ->; done).
  unfold insert_before. rewrite (onList_rep h a (xs1 ++ xs2) n Hrep Hnin).
  assert (onList e h = Ok false) as ->
    by (unfold onList; do 2 link_read; done).
  cbn [mbind res_bind kassert negb]. link_read.
  destruct (set_next_spec h p e n Hpn) as (h1 & -> & Hn1 & Hno1 & Hp1 & Hf1). cbn [mbind res_bind].
  rewrite <- Hp1 in Hnp, Hpe. link_read.
  destruct (set_prev_spec h1 e p 0 Hpe) as (h2 & -> & Hp2 & Hpo2 & Hn2 & Hf2). cbn [mbind res_bind].
  rewrite <- Hpo2 in Hnp by done.
  destruct (set_prev_spec h2 n e p Hnp) as (h3 & -> & Hp3 & Hpo3 & Hn3 & Hf3). cbn [mbind res_bind].
  rewrite <- Hno1, <- Hn2, <- Hn3 in Hne by done.
  destruct (set_next_spec h3 e n 0 Hne) as (h4 & -> & Hn4 & Hno4 & Hp4 & Hf4).
  assert (relinked h h4 p e e n e p n e) as Hre.
  { split; [by rewrite Hno4, Hn3, Hn2 by done|]. split; [done|].
    split; [intros; by rewrite Hno4, Hn3, Hn2, Hno1 by done|].
    split; [by rewrite Hp4, Hpo3 by done|]. split; [by rewrite Hp4|].
    split; [intros; by rewrite Hp4, Hpo3, Hpo2, Hp1 by done|].
    intros; by rewrite Hf4, Hf3, Hf2, Hf1 by done. }
  exists h4. split; [done|]. eapply (attach h h4 a xs1 [e] xs2); try done.
  - apply off_list_segment. by split.
  - intros x ->%list_elem_of_singleton. done.
Qed.

(** the part [ys] of a list, cut out by the four updates of [remove] *)
Lemma detach h h' a xs1 ys xs2 L p n R f l :
  rep h a (xs1 ++ ys ++ xs2) -> a :: xs1 = L ++ [p] -> xs2 ++ [a] = n :: R ->
  chain h (L ++ [p]) -> chain h (p :: ys ++ [n]) -> chain h (n :: R) ->
  p ∉ L -> n ∉ R -> n ∉ tail (L ++ [p]) -> p ∉ xs2 -> p ∉ ys -> n ∉ ys ->
  head ys = Some f -> last ys = Some l -> relinked h h' p n l 0 f 0 n p ->
  rep h' a (xs1 ++ xs2) /\ segment h' ys /\
  forall q, q ∉ a :: xs1 ++ ys ++ xs2 -> h' !! q = h !! q.
Proof.
  intros (Hnd & H0 & _) HL HR Hc1 Hc2 Hc3 HpL HnR HnL Hpx Hpy Hny Hf Hl Hre.
  assert (a :: xs1 ++ ys ++ xs2 ≡ₚ ys ++ a :: xs1 ++ xs2) as Hperm by solve_Permutation.
  rewrite Hperm in Hnd, H0. apply NoDup_app in Hnd as (Hndy & Hdis & Hnd).
  rewrite elem_of_app in H0.
  assert (l ∈ ys) as Hly by (apply last_Some in Hl as (? & ->); apply elem_of_app; right; by apply list_elem_of_singleton).
  assert (f ∈ ys) as Hfy by (destruct ys; [done|]; injection Hf as ->; apply elem_of_cons; by left).
  assert (forall x, x ∈ L ++ [p] -> x ∉ ys) as HLy.
  { intros x Hx Hy. apply (Hdis x Hy). rewrite app_comm_cons, HL. apply elem_of_app. by left. }
  assert (forall x, x ∈ n :: R -> x ∉ ys) as HRy.
  { intros x Hx Hy. apply (Hdis x Hy). rewrite <- HR in Hx. rewrite elem_of_cons, elem_of_app.
    rewrite elem_of_app, list_elem_of_singleton in Hx. tauto. }
  assert (chain h ys) as Hcy.
  { destruct ys as [|y ys]; [done|]. destruct Hc2 as (_ & _ & Hc2).
    destruct (exists_last (l := y :: ys)) as (ys' & z & Hz); [done|].
    change (chain h ((y :: ys) ++ [n])) in Hc2.
    rewrite Hz, <- app_assoc in Hc2. rewrite Hz.
    apply (chain_app h ys' z [n]) in Hc2. apply Hc2. }
  split; [split; [done|split; [tauto|]]|split].
  - replace (a :: (xs1 ++ xs2) ++ [a]) with (L ++ p :: n :: R)
      by (symmetry; rewrite <- !app_assoc, HR, app_comm_cons, HL, <- app_assoc; done).
    apply chain_app. split.
    + apply (chain_relinked h _ _ _ _ _ _ _ _ _ _ Hre Hc1).
      * by rewrite removelast_last.
      * intros Hx%in_removelast. by apply (HLy l).
      * intros Hx%in_tail. by apply (HLy f).
      * done.
    + split; [apply Hre|]. split; [apply Hre|].
      apply (chain_relinked h _ _ _ _ _ _ _ _ _ _ Hre Hc3).
      * by rewrite (removelast_cyc _ _ _ _ HR).
      * intros Hx%in_removelast. by apply (HRy l).
      * intros Hx%in_tail. by apply (HRy f).
      * done.
  - split; [done|]. split; [tauto|]. split.
    + apply (chain_relinked h _ _ _ _ _ _ _ _ _ _ Hre Hcy).
      * by intros Hx%in_removelast.
      * by apply last_not_removelast.
      * by apply head_not_tail.
      * by intros Hx%in_tail.
    + exists f, l. repeat split; try done; apply Hre.
  - intros q Hq. rewrite Hperm, elem_of_app in Hq. apply Hre; intros ->; apply Hq.
    + right. rewrite app_comm_cons, elem_of_app, HL. left. rewrite elem_of_app, list_elem_of_singleton. tauto.
    + by left.
    + by left.
    + right. assert (n ∈ xs2 ++ [a]) as Hn by (rewrite HR; apply elem_of_cons; by left).
      rewrite elem_of_cons, elem_of_app. rewrite elem_of_app, list_elem_of_singleton in Hn. tauto.
Qed.

(** the updates themselves, for the first and last element of a part *)
Lemma unlink_run h p n f l :
  prv h f = Some p -> nxt h l = Some n -> (exists v, nxt h p = Some v) -> (exists v, prv h n = Some v) ->
  p <> l -> f <> n ->
  exists h1 h2 h3 h4, set_next p n h = Ok h1 /\ nxt h1 l = Some n /\ prv h1 f = Some p /\
    set_prev n p h1 = Ok h2 /\ set_prev f 0 h2 = Ok h3 /\ set_next l 0 h3 = Ok h4 /\
    relinked h h4 p n l 0 f 0 n p.
Proof.
  intros Hpf Hnl (v & Hv) (w & Hw) Hpl Hfn.
  destruct (set_next_spec h p n v Hv) as (h1 & H1 & Hn1 & Hno1 & Hp1 & Hf1).
  rewrite <- Hp1 in Hw. destruct (set_prev_spec h1 n p w Hw) as (h2 & H2 & Hp2 & Hpo2 & Hn2 & Hf2).
  assert (prv h2 f = Some p) as Hpf2 by by rewrite Hpo2, Hp1.
  destruct (set_prev_spec h2 f 0 p Hpf2) as (h3 & H3 & Hp3 & Hpo3 & Hn3 & Hf3).
  assert (nxt h3 l = Some n) as Hnl3 by by rewrite Hn3, Hn2, Hno1.
  destruct (set_next_spec h3 l 0 n Hnl3) as (h4 & H4 & Hn4 & Hno4 & Hp4 & Hf4).
  exists h1, h2, h3, h4. split; [done|]. split; [by rewrite Hno1|]. split; [by rewrite Hp1|].
  do 3 (split; [done|]). split; [by rewrite Hno4, Hn3, Hn2 by done|].
  split; [done|]. split; [intros; by rewrite Hno4, Hn3, Hn2, Hno1 by done|].
  split; [by rewrite Hp4|]. split; [by rewrite Hp4, Hpo3, Hp2 by done|].
  split; [intros; by rewrite Hp4, Hpo3, Hpo2, Hp1 by done|].
  intros; by rewrite Hf4, Hf3, Hf2, Hf1 by done.
Qed.

(** the ends of a part point at its neighbours *)
Lemma chain_ends h p ys n f l :
  chain h (p :: ys ++ [n]) -> head ys = Some f -> last ys = Some l ->
  prv h f = Some p /\ nxt h l = Some n /\ (exists v, nxt h p = Some v) /\ (exists v, prv h n = Some v).
Proof.
  intros Hc Hf (ys' & ->)%last_Some. rewrite <- app_assoc in Hc.
  change (chain h ((p :: ys') ++ l :: [n])) in Hc. apply chain_app in Hc as [Hc1 (H1 & H2 & _)].
  assert (exists v, nxt h p = Some v /\ prv h f = Some p) as (v & Hv & Hpf).
  { destruct ys' as [|y ys']; injection Hf as <-; destruct Hc1 as (Hv & ? & _); by exists y + by exists l. }
  repeat split; eauto.
Qed.

(** *** the operations on a list of the heap *)
Lemma rep_front h a xs : rep h a xs -> nxt h a = head (xs ++ [a]).
Proof. intros (_ & _ & Hc). destruct xs; apply Hc. Qed.

Lemma rep_back h a xs : rep h a xs -> prv h a = last (a :: xs).
Proof.
  intros (_ & _ & Hc). destruct (exists_last (l := a :: xs)) as (L & p & HL); [done|].
  rewrite HL, last_snoc. rewrite app_comm_cons, HL, <- app_assoc in Hc.
  apply (chain_app h L p [a]) in Hc as [_ (_ & ? & _)]. done.
Qed.

Lemma empty_spec h a xs : rep h a xs -> empty a h = Ok (bool_decide (xs = [])).
Proof.
  intros Hrep. unfold empty. pose proof (rep_front h a xs Hrep) as Hf.
  destruct xs as [|x xs]; simpl in Hf; link_read.
  - rewrite Z.eqb_refl. done.
  - destruct Hrep as ((Ha & _)%NoDup_cons & _ & _). rewrite elem_of_cons in Ha.
    destruct (Z.eqb_spec a x); [tauto|done].
Qed.

Lemma remove_spec h a xs1 e xs2 :
  rep h a (xs1 ++ e :: xs2) ->
  exists h', remove e h = Ok h' /\ rep h' a (xs1 ++ xs2) /\ off_list h' e /\
    forall q, q ∉ a :: xs1 ++ e :: xs2 -> h' !! q = h !! q.
Proof.
  intros Hrep. destruct (rep_split h a xs1 [e] xs2 Hrep)
    as (L & p & n & R & HL & HR & Hc1 & Hc2 & Hc3 & HpL & HnR & HnL & Hpx & Hpy & Hny & Hp0 & Hn0).
  destruct (chain_ends h p [e] n e e Hc2) as (Hpf & Hnl & Hv & Hw); [done..|].
  destruct (unlink_run h p n e e Hpf Hnl Hv Hw) as (h1 & h2 & h3 & h4 & H1 & H1n & H1p & H2 & H3 & H4 & Hre).
  { intros ->. by apply Hpy, list_elem_of_singleton. }
  { intros ->. by apply Hny, list_elem_of_singleton. }
  assert (onList e h = Ok true) as Hon.
  { apply (onList_rep h a (xs1 ++ e :: xs2)); [done|].
    rewrite elem_of_cons, elem_of_app, elem_of_cons. tauto. }
  exists h4. unfold remove. rewrite Hon. cbn [mbind res_bind kassert]. do 2 link_read.
  rewrite H1. cbn [mbind res_bind]. do 2 link_read. rewrite H2. cbn [mbind res_bind].
  rewrite H3. cbn [mbind res_bind]. split; [done|].
  destruct (detach h h4 a xs1 [e] xs2 L p n R e e) as (Hrep' & Hseg & Hfr); [done..|].
  split; [done|]. split; [|done]. destruct Hseg as (_ & H0 & _ & f & l & Hf & Hl & Hp & Hn).
  injection Hf as <-. injection Hl as <-. split.
  - intros ->. by apply H0, list_elem_of_singleton.
  - unfold nxt, prv in *. destruct (h4 !! e) as [[u v]|]; [|done]. simpl in *. congruence.
Qed.

Lemma push_back_spec h a xs e :
  rep h a xs -> off_list h e -> e ∉ a :: xs ->
  exists h', push_back a e h = Ok h' /\ rep h' a (xs ++ [e]) /\
    forall q, q ∉ a :: xs ++ [e] -> h' !! q = h !! q.
Proof.
  intros Hrep He Hdis. destruct (exists_last (l := a :: xs)) as (L & p & HL); [done|].
  pose proof (rep_back h a xs Hrep) as Hb. rewrite HL, last_snoc in Hb.
  destruct (insert_after_spec h a xs [] p [e] e e) as (h' & Hr & Hrep' & Hf).
  - by rewrite app_nil_r.
  - by rewrite HL, last_snoc.
  - by apply off_list_segment.
  - done.
  - done.
  - intros x ->%list_elem_of_singleton. by rewrite app_nil_r.
  - exists h'. unfold push_back, back. link_read. done.
Qed.

Lemma push_front_spec h a xs e :
  rep h a xs -> off_list h e -> e ∉ a :: xs ->
  exists h', push_front a e h = Ok h' /\ rep h' a (e :: xs) /\
    forall q, q ∉ a :: e :: xs -> h' !! q = h !! q.
Proof.
  intros Hrep He Hdis. pose proof (rep_front h a xs Hrep) as Hf.
  destruct (xs ++ [a]) as [|n R] eqn:HR; [by destruct xs|]. simpl in Hf.
  unfold push_front, front. link_read.
  apply (insert_before_spec h a [] xs n e); [done|by rewrite HR|done..].
Qed.

Lemma pop_front_spec h a x xs :
  rep h a (x :: xs) ->
  exists h', pop_front a h = Ok (h', x) /\ rep h' a xs /\ off_list h' x /\
    forall q, q ∉ a :: x :: xs -> h' !! q = h !! q.
Proof.
  intros Hrep. destruct (remove_spec h a [] x xs Hrep) as (h' & Hr & ?).
  exists h'. unfold pop_front. rewrite (empty_spec h a (x :: xs)) by done.
  pose proof (rep_front h a _ Hrep) as Hf. simpl in Hf.
  cbn [mbind res_bind]. rewrite bool_decide_false by done. cbn [negb kassert mbind res_bind].
  unfold front. link_read. rewrite Hr. done.
Qed.

Lemma pop_back_spec h a x xs :
  rep h a (xs ++ [x]) ->
  exists h', pop_back a h = Ok (h', x) /\ rep h' a xs /\ off_list h' x /\
    forall q, q ∉ a :: xs ++ [x] -> h' !! q = h !! q.
Proof.
  intros Hrep. destruct (remove_spec h a xs x [] Hrep) as (h' & Hr & Hrep' & ?).
  rewrite app_nil_r in Hrep'. exists h'. unfold pop_back.
  rewrite (empty_spec h a (xs ++ [x])) by done.
  pose proof (rep_back h a _ Hrep) as Hf. rewrite app_comm_cons, last_snoc in Hf.
  cbn [mbind res_bind]. rewrite bool_decide_false by by destruct xs.
  cbn [negb kassert mbind res_bind]. unfold back. link_read. rewrite Hr. done.
Qed.

Lemma remove_loop_spec h a n zs i count l :
  chain h (l :: zs ++ [a]) -> a ∉ zs ->
  remove_loop a n i count l h =
    Ok (default l (last (take n zs)), if (n <=? length zs)%nat then count else i + lenZ zs).
Proof.
  revert zs i l. induction n as [|n IH]; intros zs i l Hc Ha; [done|]. cbn [remove_loop].
  destruct zs as [|z zs]; destruct Hc as (Hn & Hp & Hc); link_read.
  - rewrite Z.eqb_refl. unfold lenZ. simpl. by rewrite Z.add_0_r.
  - apply not_elem_of_cons in Ha as [Ha1 Ha2]. destruct (Z.eqb_spec z a); [done|].
    rewrite (IH zs) by done. rewrite lenZ_cons. cbn [take length]. f_equal. f_equal.
    + destruct (take n zs) as [|w ws] eqn:E; [done|]. rewrite (last_cons_cons z w ws).
      destruct (last (w :: ws)) eqn:El; [done|]. by apply last_None in El.
    + change (S n <=? S (length zs))%nat with (n <=? length zs)%nat.
      destruct (n <=? length zs)%nat; [done|]. lia.
Qed.

(** [remove(first, count)] cuts out up to [count] objects from [first] on *)
Lemma remove_n_spec h a xs1 f rest count :
  rep h a (xs1 ++ f :: rest) -> 1 <= count ->
  let ys := f :: take (Z.to_nat (count - 1)) rest in
  exists h' l, remove_n a f count h = Ok (h', l, lenZ ys) /\ last ys = Some l /\
    rep h' a (xs1 ++ drop (Z.to_nat (count - 1)) rest) /\ segment h' ys /\
    forall q, q ∉ a :: xs1 ++ f :: rest -> h' !! q = h !! q.
Proof.
  intros Hrep Hcount ys. set (k := Z.to_nat (count - 1)) in *.
  assert (f :: rest = ys ++ drop k rest) as Hys by (unfold ys; simpl; by rewrite take_drop).
  pose proof Hrep as Hrep0. rewrite Hys in Hrep.
  destruct (rep_split h a xs1 ys (drop k rest) Hrep)
    as (L & p & n & R & HL & HR & Hc1 & Hc2 & Hc3 & HpL & HnR & HnL & Hpx & Hpy & Hny & Hp0 & Hn0).
  set (l := default f (last (take k rest))).
  assert (last ys = Some l) as Hl.
  { unfold ys, l. destruct (take k rest) as [|w ws] eqn:E; [done|]. rewrite last_cons_cons.
    destruct (last (w :: ws)) eqn:El; [done|]. by apply last_None in El. }
  destruct (chain_ends h p ys n f l Hc2) as (Hpf & Hnl & Hv & Hw); [done..|].
  assert (f ∈ ys /\ l ∈ ys) as [Hfy Hly].
  { split; [apply elem_of_cons; by left|]. apply last_Some in Hl as (? & ->).
    apply elem_of_app. right. by apply list_elem_of_singleton. }
  destruct (unlink_run h p n f l Hpf Hnl Hv Hw) as (h1 & h2 & h3 & h4 & H1 & H1n & H1p & H2 & H3 & H4 & Hre);
    [congruence..|].
  assert (remove_loop a k 1 count f h = Ok (l, lenZ ys)) as Hloop.
  { destruct Hrep0 as (Hnd & _ & Hc). rewrite app_comm_cons in Hnd.
    rewrite (remove_loop_spec h a k rest).
    - unfold l, ys. rewrite lenZ_cons. unfold lenZ. rewrite length_take. f_equal. f_equal.
      destruct (Nat.leb_spec k (length rest)); lia.
    - replace (a :: (xs1 ++ f :: rest) ++ [a]) with ((a :: xs1) ++ f :: (rest ++ [a])) in Hc
        by (simpl; by rewrite <- app_assoc).
      by apply chain_app in Hc as [_ Hc].
    - apply NoDup_app in Hnd as (_ & Hd & _). intros Ha.
      apply (Hd a); [apply elem_of_cons; by left | apply elem_of_cons; by right]. }
  exists h4, l. unfold remove_n.
  rewrite (onList_rep h a (xs1 ++ f :: rest) f Hrep0) by (rewrite elem_of_cons, elem_of_app, elem_of_cons; tauto).
  cbn [mbind res_bind kassert]. fold k. rewrite Hloop. cbn [mbind res_bind]. do 2 link_read.
  rewrite H1. cbn [mbind res_bind]. do 2 link_read. rewrite H2. cbn [mbind res_bind].
  rewrite H3. cbn [mbind res_bind]. rewrite H4. cbn [mbind res_bind].
  split; [done|]. split; [done|]. rewrite Hys.
  by apply (detach h h4 a xs1 ys (drop k rest) L p n R f l).
Qed.

Lemma rep_frame h h' a xs :
  (forall x, x ∈ a :: xs -> h' !! x = h !! x) -> rep h a xs -> rep h' a xs.
Proof.
  intros Hf (Hnd & H0 & Hc). split; [done|]. split; [done|].
  assert (forall x, x ∈ a :: xs ++ [a] -> h' !! x = h !! x) as Hf'.
  { intros x Hx. apply Hf. rewrite elem_of_cons, elem_of_app, list_elem_of_singleton in Hx.
    rewrite elem_of_cons. tauto. }
  apply (chain_ext h); [| |done]; intros x Hx; unfold nxt, prv; rewrite Hf'; try done.
  - by apply in_removelast.
  - by apply in_tail.
Qed.

(** [transferFrom] moves the first [count] objects of the list at [b] to the
    end of the list at [a] *)
Lemma transferFrom_spec h a b xs y ys count :
  rep h a xs -> rep h b (y :: ys) -> (forall x, x ∈ a :: xs -> x ∉ b :: y :: ys) -> 1 <= count ->
  exists h', transferFrom a b count h = Ok (h', Z.min count (lenZ (y :: ys))) /\
    rep h' a (xs ++ take (Z.to_nat count) (y :: ys)) /\ rep h' b (drop (Z.to_nat count) (y :: ys)) /\
    forall q, q ∉ a :: xs -> q ∉ b :: y :: ys -> h' !! q = h !! q.
Proof.
  intros Ha Hb Hdis Hcount.
  destruct (remove_n_spec h b [] y ys count Hb Hcount) as (h1 & l & Hr & Hl & Hb1 & Hseg & Hf1).
  simpl in Hb1, Hf1. replace (Z.to_nat count) with (S (Z.to_nat (count - 1))) by lia.
  cbn [take drop]. set (k := Z.to_nat (count - 1)) in *. set (zs := y :: take k ys) in *.
  assert (y :: ys = zs ++ drop k ys) as Hys by (unfold zs; simpl; by rewrite take_drop).
  assert (rep h1 a xs) as Ha1 by (apply (rep_frame h); [intros x Hx; by apply Hf1, Hdis|done]).
  destruct (exists_last (l := a :: xs)) as (L & p & HL); [done|].
  pose proof (rep_back h1 a xs Ha1) as Hback. rewrite HL, last_snoc in Hback.
  destruct (insert_after_spec h1 a xs [] p zs y l) as (h2 & Hi & Ha2 & Hf2).
  - by rewrite app_nil_r.
  - by rewrite HL, last_snoc.
  - done.
  - done.
  - done.
  - intros x Hx Hin. rewrite app_nil_r in Hin. apply (Hdis x Hin). rewrite Hys.
    rewrite elem_of_cons, elem_of_app. tauto.
  - rewrite app_nil_r in Ha2, Hf2. exists h2. unfold transferFrom.
    rewrite (empty_spec h b (y :: ys)) by done. cbn [mbind res_bind].
    rewrite bool_decide_false by done. cbn [negb kassert mbind res_bind].
    pose proof (rep_front h b _ Hb) as Hfr. simpl in Hfr. unfold front. link_read.
    rewrite Hr. cbn [mbind res_bind]. unfold splice_back, back. link_read. rewrite Hi.
    cbn [mbind res_bind]. split.
    { unfold mret, res_ret. f_equal. f_equal. unfold zs. rewrite !lenZ_cons. unfold lenZ, k.
      rewrite length_take. lia. }
    split; [done|]. destruct Hb as (Hnd & _ & _). rewrite Hys in Hnd. split.
    + apply (rep_frame h1); [|done]. intros x Hx. apply Hf2. intros Hin.
      rewrite app_comm_cons, elem_of_app in Hin. destruct Hin as [Hin|Hin].
      * apply (Hdis x Hin). rewrite Hys. rewrite elem_of_cons in Hx |- *. rewrite elem_of_app. tauto.
      * apply NoDup_cons in Hnd as (Hnb & Hnd). apply NoDup_app in Hnd as (_ & Hd & _).
        apply elem_of_cons in Hx as [->|Hx]; [apply Hnb, elem_of_app; by left|by apply (Hd x Hin)].
    + intros q Hqa Hqb. rewrite Hf2, Hf1; [done|done|]. intros Hin.
      rewrite app_comm_cons, elem_of_app in Hin. destruct Hin as [|Hin]; [done|].
      apply Hqb. rewrite Hys, elem_of_cons, elem_of_app. tauto.
Qed.
End IList.

(** ** IntrusiveQueue: singly linked, with head and tail *)
Module IQueue.
Record queue := mkQ { q_head : Z; q_tail : Z }.
(** the [next] links *)
Abbreviation qheap := (gmap Z Z).

Definition next (p : Z) (h : qheap) : res Z :=
  match h !! p with Some v => mret v | None => Err NullDeref end.
Definition q_set_next (p v : Z) (h : qheap) : res qheap :=
  match h !! p with Some _ => mret (<[p := v]> h) | None => Err NullDeref end.
Definition onQueue (p : Z) (h : qheap) : res bool := n ← next p h; mret (negb (n =? 0)).

Definition q_init : queue := mkQ 0 0.
Definition q_empty (q : queue) : res bool :=
  kassert (Bool.eqb (q_head q =? 0) (q_tail q =? 0));; mret (q_head q =? 0).

Definition push2 (first last : Z) (q : queue) (h : qheap) : res (queue * qheap) :=
  o ← onQueue last h; kassert (negb o);;
  if q_head q =? 0 then mret (mkQ first last, h)
  else
    kassert (negb (q_tail q =? 0));;
    h ← q_set_next (q_tail q) first h;
    mret (mkQ (q_head q) last, h).
Definition push (elem : Z) (q : queue) (h : qheap) : res (queue * qheap) := push2 elem elem q h.

Definition pop (q : queue) (h : qheap) : res (Z * queue * qheap) :=
  e ← q_empty q; kassert (negb e);;
  let last := q_head q in
  n ← next last h;
  let q := mkQ n (if q_tail q =? last then 0 else q_tail q) in
  h ← q_set_next last 0 h;
  mret (last, q, h).

Fixpoint pop_loop (n : nat) (i count last : Z) (h : qheap) : res (Z * Z) :=
  match n with
  | O => mret (last, count)
  | S n =>
      nx ← next last h;
      if nx =? 0 then mret (last, i) else pop_loop n (i + 1) count nx h
  end.

(** [pop(count)]: the last popped object and the new [count] *)
Definition pop_n (count : Z) (q : queue) (h : qheap) : res (Z * Z * queue * qheap) :=
  e ← q_empty q; kassert (negb e);;
  '(last, count) ← pop_loop (Z.to_nat (count - 1)) 1 count (q_head q) h;
  n ← next last h;
  let q := mkQ n (if q_tail q =? last then 0 else q_tail q) in
  h ← q_set_next last 0 h;
  mret (last, count, q, h).

Definition q_transferFrom (q eq : queue) (count : Z) (h : qheap) : res (queue * queue * Z * qheap) :=
  e ← q_empty eq; kassert (negb e);;
  let first := q_head eq in
  '(last, count, eq, h) ← pop_n count eq h;
  '(q, h) ← push2 first last q h;
  mret (q, eq, count, h).

(** *** Representation *)
Fixpoint qchain (h : qheap) (l : list Z) (z : Z) : Prop :=
  match l with
  | [] => True
  | [x] => h !! x = Some z
  | x :: ((y :: _) as t) => h !! x = Some y /\ qchain h t z
  end.
Definition qrep (h : qheap) (q : queue) (xs : list Z) : Prop :=
  NoDup xs /\ (0 ∉ xs) /\ qchain h xs 0 /\
  q_head q = default 0 (head xs) /\ q_tail q = default 0 (last xs).

Lemma qchain_app h l k y z :
  qchain h (l ++ y :: k) z <-> qchain h l y /\ qchain h (y :: k) z.
Proof.
  induction l as [|x l IH]; [simpl; tauto|]. destruct l as [|w l]; [done|].
  change (qchain h ((x :: w :: l) ++ y :: k) z) with (h !! x = Some w /\ qchain h ((w :: l) ++ y :: k) z).
  rewrite IH. simpl. tauto.
Qed.

Lemma qchain_ext h h' l z :
  (forall x, x ∈ l -> h' !! x = h !! x) -> qchain h l z -> qchain h' l z.
Proof.
  induction l as [|x l IH]; [done|]. intros Hf Hc.
  assert (forall y, y ∈ l -> h' !! y = h !! y) as Hf' by (intros; apply Hf, elem_of_cons; by right).
  assert (h' !! x = h !! x) as Hx by (apply Hf, elem_of_cons; by left).
  destruct l as [|y l]; simpl in *; rewrite Hx; [done|]. split; [apply Hc|]. apply IH; [done|apply Hc].
Qed.

Lemma q_empty_spec h q xs : qrep h q xs -> q_empty q = Ok (bool_decide (xs = [])).
Proof.
  intros (Hnd & H0 & Hc & Hh & Ht). unfold q_empty. destruct xs as [|x xs].
  - rewrite Hh, Ht. done.
  - destruct (exists_last (l := x :: xs)) as (L & y & HL); [done|].
    rewrite HL, last_snoc in Ht. simpl in Hh, Ht.
    assert (x <> 0 /\ y <> 0) as [Hx Hy].
    { split; intros ->; apply H0; [apply elem_of_cons; by left|].
      rewrite HL. apply elem_of_app. right. by apply list_elem_of_singleton. }
    rewrite Hh, Ht. destruct (Z.eqb_spec x 0), (Z.eqb_spec y 0); done.
Qed.

Lemma push2_spec h q xs ys f l :
  qrep h q xs -> NoDup ys -> 0 ∉ ys -> qchain h ys 0 -> (forall x, x ∈ xs -> x ∉ ys) ->
  head ys = Some f -> last ys = Some l ->
  exists q' h', push2 f l q h = Ok (q', h') /\ qrep h' q' (xs ++ ys) /\
    forall p, p ∉ xs -> h' !! p = h !! p.
Proof.
  intros (Hnd & H0 & Hc & Hh & Ht) Hndy H0y Hcy Hdis Hf Hl.
  assert (h !! l = Some 0) as Hl0.
  { apply last_Some in Hl as (ys' & ->). by apply qchain_app in Hcy as [_ Hcy]. }
  assert (default 0 (last (xs ++ ys)) = l) as Hlast.
  { apply last_Some in Hl as (ys' & ->). by rewrite app_assoc, last_snoc. }
  unfold push2, onQueue, next. rewrite Hl0. cbn [mbind res_bind mret res_ret].
  rewrite Z.eqb_refl. cbn [negb kassert mbind res_bind].
  assert (NoDup (xs ++ ys)) as Hnd' by by apply NoDup_app.
  assert (0 ∉ xs ++ ys) as H0' by (rewrite elem_of_app; tauto).
  destruct xs as [|x xs].
  - rewrite Hh. simpl. exists (mkQ f l), h. split; [done|]. split; [|done].
    repeat (split; [done|]). simpl. by rewrite Hf, Hl.
  - simpl in Hh. destruct (exists_last (l := x :: xs)) as (L & t & HL); [done|].
    rewrite HL, last_snoc in Ht. simpl in Ht.
    assert (x <> 0) by (intros ->; apply H0; apply elem_of_cons; by left).
    assert (t ∈ x :: xs) as Htx by (rewrite HL; apply elem_of_app; right; by apply list_elem_of_singleton).
    assert (t <> 0) by congruence.
    rewrite Hh, Ht. destruct (Z.eqb_spec x 0), (Z.eqb_spec t 0); try done.
    cbn [negb kassert mbind res_bind]. unfold q_set_next.
    rewrite HL in Hc, Hnd. apply qchain_app in Hc as [HcL Hct]. simpl in Hct. rewrite Hct.
    cbn [mbind res_bind mret res_ret]. eexists _, _. split; [done|]. split.
    + split; [done|]. split; [done|]. split; [|split; [done|by rewrite Hlast]].
      destruct ys as [|y ys]; [done|]. injection Hf as ->.
      apply NoDup_app in Hnd as (_ & Hd & _). apply qchain_app. split.
      * rewrite HL. apply qchain_app. split; [|simpl; by rewrite lookup_insert_eq].
        eapply qchain_ext; [|done]. intros p Hp. rewrite lookup_insert_ne; [done|].
        intros ->. apply (Hd p Hp). by apply list_elem_of_singleton.
      * eapply qchain_ext; [|done]. intros p Hp. rewrite lookup_insert_ne; [done|].
        intros ->. by apply (Hdis p).
    + intros p Hp. rewrite lookup_insert_ne; [done|]. by intros ->.
Qed.

Lemma pop_loop_spec h zs n i count l :
  qchain h (l :: zs) 0 -> 0 ∉ zs ->
  pop_loop n i count l h =
    Ok (default l (last (take n zs)), if (n <=? length zs)%nat then count else i + lenZ zs).
Proof.
  revert zs i l. induction n as [|n IH]; intros zs i l Hc H0; [done|]. cbn [pop_loop].
  destruct zs as [|z zs].
  - simpl in Hc. unfold next. rewrite Hc. cbn [mbind res_bind mret res_ret].
    rewrite Z.eqb_refl. unfold lenZ. simpl. by rewrite Z.add_0_r.
  - destruct Hc as [Hn Hc]. unfold next. rewrite Hn. cbn [mbind res_bind mret res_ret].
    apply not_elem_of_cons in H0 as [H1 H2]. destruct (Z.eqb_spec z 0); [done|].
    rewrite (IH zs) by done. rewrite lenZ_cons. cbn [take length]. f_equal. f_equal.
    + destruct (take n zs) as [|w ws] eqn:E; [done|]. rewrite (last_cons_cons z w ws).
      destruct (last (w :: ws)) eqn:El; [done|]. by apply last_None in El.
    + change (S n <=? S (length zs))%nat with (n <=? length zs)%nat.
      destruct (n <=? length zs)%nat; [done|]. lia.
Qed.

Lemma pop_n_spec h q x xs count :
  qrep h q (x :: xs) -> 1 <= count ->
  let k := Z.to_nat (count - 1) in
  exists l q' h', pop_n count q h = Ok (l, Z.min count (lenZ (x :: xs)), q', h') /\
    last (x :: take k xs) = Some l /\ qrep h' q' (drop k xs) /\
    qchain h' (x :: take k xs) 0 /\ forall p, p ∉ x :: xs -> h' !! p = h !! p.
Proof.
  intros Hrep Hcount k. pose proof (q_empty_spec _ _ _ Hrep) as Hem.
  destruct Hrep as (Hnd & H0 & Hc & Hh & Ht). simpl in Hh.
  set (l := default x (last (take k xs))).
  assert (last (x :: take k xs) = Some l) as Hl.
  { unfold l. destruct (take k xs) as [|w ws] eqn:E; [done|]. rewrite last_cons_cons.
    destruct (last (w :: ws)) eqn:El; [done|]. by apply last_None in El. }
  unfold pop_n. rewrite Hem. cbn [mbind res_bind]. rewrite bool_decide_false by done.
  cbn [negb kassert mbind res_bind]. fold k. rewrite Hh, (pop_loop_spec h xs) by
    (done || by apply not_elem_of_cons in H0 as [_ H0]).
  cbn [mbind res_bind]. fold l.
  assert (x :: xs = (x :: take k xs) ++ drop k xs) as Hxs by (simpl; by rewrite take_drop).
  apply last_Some in Hl as (L & HL).
  assert (x :: xs = L ++ l :: drop k xs) as Hxs' by (rewrite Hxs, HL, <- app_assoc; done).
  rewrite Hxs' in Hc, Hnd, H0, Ht.
  apply qchain_app in Hc as [HcL Hcl].
  apply NoDup_app in Hnd as (HndL & Hd & (Hld & Hndd)%NoDup_cons).
  assert (h !! l = Some (default 0 (head (drop k xs)))) as Hnext.
  { destruct (drop k xs); simpl in *; [done|apply Hcl]. }
  unfold next, q_set_next. rewrite Hnext. cbn [mbind res_bind mret res_ret].
  assert ((if (k <=? length xs)%nat then count else 1 + lenZ xs) = Z.min count (lenZ (x :: xs))) as ->.
  { rewrite lenZ_cons. unfold lenZ, k.
    destruct (Nat.leb_spec (Z.to_nat (count - 1)) (length xs)); lia. }
  eexists l, _, _. split; [done|].
  assert (forall p, p <> l -> <[l:=0]> h !! p = h !! p) as Hfr by (intros; by rewrite lookup_insert_ne).
  split; [rewrite HL; by apply last_snoc|]. split; [|split].
  - split; [done|]. split; [rewrite elem_of_app, elem_of_cons in H0; tauto|]. split; [|split; [done|]].
    + destruct (drop k xs) as [|d ds]; [done|]. eapply qchain_ext; [|apply Hcl].
      intros p Hp. apply Hfr. by intros ->.
    + simpl. rewrite Ht. destruct (drop k xs) as [|d ds] eqn:E.
      * rewrite last_snoc. simpl. by rewrite Z.eqb_refl.
      * assert (last (L ++ l :: d :: ds) = last (d :: ds)) as ->.
        { rewrite last_app, !last_cons_cons. destruct (last (d :: ds)) eqn:El; [done|]. by apply last_None in El. }
        destruct (last (d :: ds)) as [t|] eqn:El; simpl; [|by apply last_None in El].
        destruct (Z.eqb_spec t l) as [->|]; [|done]. exfalso. apply Hld.
        apply last_Some in El as (? & ->). apply elem_of_app. right. by apply list_elem_of_singleton.
  - rewrite HL. apply qchain_app. split; [|simpl; by rewrite lookup_insert_eq].
    eapply qchain_ext; [|done]. intros p Hp. apply Hfr. intros ->. apply (Hd l Hp), elem_of_cons. by left.
  - intros p Hp. apply Hfr. intros ->. apply Hp. rewrite Hxs'. apply elem_of_app. right.
    apply elem_of_cons. by left.
Qed.

Lemma pop_pop_n q h : pop q h = '(l, _, q, h) ← pop_n 1 q h; mret (l, q, h).
Proof.
  unfold pop, pop_n. destruct (q_empty q) as [e|]; [|done]. cbn [mbind res_bind].
  destruct (kassert (negb e)); [|done]. cbn [mbind res_bind].
  change (pop_loop (Z.to_nat (1 - 1)) 1 1 (q_head q) h) with (Ok (q_head q, 1)).
  cbn [mbind res_bind]. destruct (next (q_head q) h) as [n|]; [|done]. cbn [mbind res_bind].
  by destruct (q_set_next (q_head q) 0 h).
Qed.

Lemma qrep_frame h h' q xs :
  (forall x, x ∈ xs -> h' !! x = h !! x) -> qrep h q xs -> qrep h' q xs.
Proof.
  intros Hf (Hnd & H0 & Hc & Hh). repeat (split; [done|]). split; [|done]. by eapply qchain_ext.
Qed.

Lemma q_transferFrom_spec h q eq xs y ys count :
  qrep h q xs -> qrep h eq (y :: ys) -> (forall x, x ∈ xs -> x ∉ y :: ys) -> 1 <= count ->
  exists q' eq' h', q_transferFrom q eq count h = Ok (q', eq', Z.min count (lenZ (y :: ys)), h') /\
    qrep h' q' (xs ++ take (Z.to_nat count) (y :: ys)) /\ qrep h' eq' (drop (Z.to_nat count) (y :: ys)).
Proof.
  intros Hq He Hdis Hcount. replace (Z.to_nat count) with (S (Z.to_nat (count - 1))) by lia.
  cbn [take drop]. set (k := Z.to_nat (count - 1)).
  destruct (pop_n_spec h eq y ys count He Hcount) as (l & eq' & h1 & Hr & Hl & He1 & Hc1 & Hf1).
  fold k in Hl, He1, Hc1.
  assert (y :: ys = (y :: take k ys) ++ drop k ys) as Hys by (simpl; by rewrite take_drop).
  pose proof He as (Hnd & H0 & _ & Hh & _). rewrite Hys in Hnd, H0.
  apply NoDup_app in Hnd as (Hnd & Hd & _). rewrite elem_of_app in H0.
  destruct (push2_spec h1 q xs (y :: take k ys) y l) as (q' & h2 & Hp & Hq2 & Hf2); try done.
  - apply (qrep_frame h); [|done]. intros x Hx. by apply Hf1, Hdis.
  - tauto.
  - intros x Hx Hin. apply (Hdis x Hx). rewrite Hys, elem_of_app. tauto.
  - exists q', eq', h2. unfold q_transferFrom. rewrite (q_empty_spec h eq (y :: ys)) by done.
    cbn [mbind res_bind]. rewrite bool_decide_false by done. cbn [negb kassert mbind res_bind].
    rewrite Hr. cbn [mbind res_bind]. simpl in Hh. rewrite Hh, Hp. cbn [mbind res_bind].
    split; [done|]. split; [done|]. apply (qrep_frame h1); [|done]. intros x Hx. apply Hf2.
    intros Hin. apply (Hdis x Hin). rewrite Hys, elem_of_app. tauto.
Qed.
End IQueue.

(** ** Properties *)

(** C37. The intrusive list implements a sequence: on a heap where the list at
    [a] holds [xs], the pushes put a free object at the ends, the pops take
    the objects at the ends, [remove] takes an object from the middle, and
    each writes to no link but those of the list and the object. *)
Theorem ilist_operations (h : heap) (a : Z) (xs : list Z) :
  IList.rep h a xs ->
  let ok r xs' cells Q := exists h', r = Ok h' /\ IList.rep h' a xs' /\ Q h' /\
    forall q, q ∉ a :: cells -> h' !! q = h !! q in
  let okv (r : res (heap * Z)) v xs' cells := exists h', r = Ok (h', v) /\ IList.rep h' a xs' /\
    IList.off_list h' v /\ forall q, q ∉ a :: cells -> h' !! q = h !! q in
  IList.empty a h = Ok (bool_decide (xs = [])) /\
  (forall e, IList.off_list h e -> e ∉ a :: xs ->
    ok (IList.push_back a e h) (xs ++ [e]) (xs ++ [e]) (fun _ => True) /\
    ok (IList.push_front a e h) (e :: xs) (e :: xs) (fun _ => True)) /\
  (forall x xs', xs = x :: xs' -> okv (IList.pop_front a h) x xs' xs) /\
  (forall x xs', xs = xs' ++ [x] -> okv (IList.pop_back a h) x xs' xs) /\
  (forall x xs1 xs2, xs = xs1 ++ x :: xs2 ->
    ok (IList.remove x h) (xs1 ++ xs2) xs (fun h' => IList.off_list h' x)).
Proof.
  intros Hrep ok okv. unfold ok, okv. split; [by apply IList.empty_spec|]. split; [|split; [|split]].
  - intros e He Hn. split.
    + destruct (IList.push_back_spec h a xs e Hrep He Hn) as (h' & ? & ? & ?). by exists h'.
    + destruct (IList.push_front_spec h a xs e Hrep He Hn) as (h' & ? & ? & ?). by exists h'.
  - intros x xs' ->. by apply IList.pop_front_spec.
  - intros x xs' ->. by apply IList.pop_back_spec.
  - intros x xs1 xs2 ->. by apply IList.remove_spec.
Qed.

(** [transferFrom] moves the first [count] objects of another non-empty
    list to the end of this one, keeping their order, reports how many it
    moved, and writes to no other link. *)
Theorem ilist_transferFrom (h : heap) (a b : Z) (xs ys : list Z) (count : Z) :
  IList.rep h a xs -> IList.rep h b ys -> (forall x, x ∈ a :: xs -> x ∉ b :: ys) ->
  ys <> [] -> 1 <= count ->
  exists h', IList.transferFrom a b count h = Ok (h', Z.min count (lenZ ys)) /\
    IList.rep h' a (xs ++ take (Z.to_nat count) ys) /\ IList.rep h' b (drop (Z.to_nat count) ys) /\
    forall q, q ∉ a :: xs -> q ∉ b :: ys -> h' !! q = h !! q.
Proof. intros Ha Hb Hd Hy Hc. destruct ys as [|y ys]; [done|]. by apply IList.transferFrom_spec. Qed.

(** The intrusive queue is a FIFO: [push] appends a free object, [pop]
    takes the first one and clears its link, and [transferFrom] moves the first
    [count] objects of another non-empty queue to the end of this one. *)
Theorem iqueue_operations (h : IQueue.qheap) (q : IQueue.queue) (xs : list Z) :
  IQueue.qrep h q xs ->
  IQueue.q_empty q = Ok (bool_decide (xs = [])) /\
  (forall e, e <> 0 -> h !! e = Some 0 -> e ∉ xs -> exists q' h',
    IQueue.push e q h = Ok (q', h') /\ IQueue.qrep h' q' (xs ++ [e])) /\
  (forall x xs', xs = x :: xs' -> exists q' h',
    IQueue.pop q h = Ok (x, q', h') /\ IQueue.qrep h' q' xs' /\ h' !! x = Some 0) /\
  (forall eq ys count, IQueue.qrep h eq ys -> (forall x, x ∈ xs -> x ∉ ys) -> ys <> [] -> 1 <= count ->
    exists q' eq' h', IQueue.q_transferFrom q eq count h = Ok (q', eq', Z.min count (lenZ ys), h') /\
      IQueue.qrep h' q' (xs ++ take (Z.to_nat count) ys) /\ IQueue.qrep h' eq' (drop (Z.to_nat count) ys)).
Proof.
  intros Hrep. split; [by apply (IQueue.q_empty_spec h)|]. split; [|split].
  - intros e He0 He Hn. destruct (IQueue.push2_spec h q xs [e] e e) as (q' & h' & ? & ? & _); try done.
    + apply NoDup_singleton.
    + intros Hx%list_elem_of_singleton. congruence.
    + intros x Hx Hin%list_elem_of_singleton. congruence.
    + by exists q', h'.
  - intros x xs' ->. rewrite IQueue.pop_pop_n.
    destruct (IQueue.pop_n_spec h q x xs' 1 Hrep) as (l & q' & h' & -> & Hl & Hr & Hc & _); [lia|].
    injection Hl as <-. by exists q', h'.
  - intros eq ys count He Hd Hy Hc. destruct ys as [|y ys]; [done|].
    by apply IQueue.q_transferFrom_spec.
Qed.

(** two lists, at 100 and 200, and a free object at 3 *)
Definition ilist_example : heap :=
  <[100 := mkLink 1 1]> (<[1 := mkLink 100 100]>
  (<[200 := mkLink 5 4]> (<[4 := mkLink 200 5]> (<[5 := mkLink 4 200]>
  (<[3 := mkLink 0 0]> ∅))))).

Lemma ilist_example_rep :
  IList.rep ilist_example 100 [1] /\ IList.rep ilist_example 200 [4; 5].
Proof.
  split; (split; [|split]).
  all: try (vm_compute; tauto).
  all: apply (bool_decide_unpack _); vm_compute; done.
Qed.

Lemma ilist_operations_witness :
  exists h', IList.push_back 100 3 ilist_example = Ok h' /\ IList.rep h' 100 [1; 3].
Proof.
  destruct (ilist_operations ilist_example 100 [1] (proj1 ilist_example_rep)) as (_ & H & _).
  destruct (H 3) as [(h' & H1 & H2 & _) _].
  - split; [lia|reflexivity].
  - apply (bool_decide_unpack _). vm_compute. exact I.
  - exists h'. split; [exact H1 | exact H2].
Defined.

Lemma ilist_transferFrom_witness :
  exists h', IList.transferFrom 100 200 1 ilist_example = Ok (h', 1) /\
    IList.rep h' 100 [1; 4] /\ IList.rep h' 200 [5].
Proof.
  destruct (ilist_transferFrom ilist_example 100 200 [1] [4; 5] 1) as (h' & H1 & H2 & H3 & _).
  - apply ilist_example_rep.
  - apply ilist_example_rep.
  - intros x Hx. apply elem_of_cons in Hx as [->|Hx%list_elem_of_singleton].
    + apply (bool_decide_unpack _). vm_compute. exact I.
    + subst. apply (bool_decide_unpack _). vm_compute. exact I.
  - discriminate.
  - lia.
  - exists h'. split; [exact H1|]. split; [exact H2 | exact H3].
Defined.

Lemma iqueue_operations_witness :
  exists q' h', IQueue.push 7 (IQueue.mkQ 5 6) (<[5 := 6]> (<[6 := 0]> {[7 := 0]})) = Ok (q', h') /\
    IQueue.qrep h' q' [5; 6; 7].
Proof.
  destruct (iqueue_operations (<[5 := 6]> (<[6 := 0]> {[7 := 0]})) (IQueue.mkQ 5 6) [5; 6]) as (_ & H & _).
  - split; [apply (bool_decide_unpack _); vm_compute; exact I|].
    split; [apply (bool_decide_unpack _); vm_compute; exact I|].
    split; [split; reflexivity|]. split; reflexivity.
  - destruct (H 7) as (q' & h' & H1 & H2).
    + discriminate.
    + reflexivity.
    + apply (bool_decide_unpack _). vm_compute. exact I.
    + exists q', h'. split; [exact H1 | exact H2].
Defined.
