(* ===== verification/Buffers.v ===== *)
(** * Buffers: generic/Buffers.h

    [RingBuffer] over an array of [N] elements and [QueueBuffer] over
    [std::queue], both bounded FIFO buffers.  [BoundedBuffer] is the interface
    that [MessageQueue] (runtime/SyncQueues.h) uses; both buffers implement
    it. *)
From Stdlib Require Import ZArith Lia Bool.
From stdpp Require Import base tactics option numbers list.
From S2P Require Import Prelude.

(** ** The interface *)
Class BoundedBuffer (Element buf : Type) := {
  bb_empty : buf -> bool;
  bb_full : buf -> bool;
  bb_front : buf -> res Element;
  bb_push : Element -> buf -> res buf;
  bb_pop : buf -> res buf;
  bb_max : buf -> Z;
  (** the buffer holds this sequence, first element first *)
  bb_holds : buf -> list Element -> Prop
}.

Class BoundedBufferLaws (Element buf : Type) `{BoundedBuffer Element buf} : Prop := {
  bb_holds_max b l : bb_holds b l -> lenZ l <= bb_max b /\ 0 < bb_max b;
  bb_empty_law b l : bb_holds b l -> bb_empty b = true <-> l = [];
  bb_full_law b l : bb_holds b l -> bb_full b = true <-> lenZ l = bb_max b;
  bb_front_law b x l : bb_holds b (x :: l) -> bb_front b = Ok x;
  bb_push_law b x l : bb_holds b l -> lenZ l < bb_max b ->
    exists b', bb_push x b = Ok b' /\ bb_holds b' (l ++ [x]) /\ bb_max b' = bb_max b;
  bb_pop_law b x l : bb_holds b (x :: l) ->
    exists b', bb_pop b = Ok b' /\ bb_holds b' l /\ bb_max b' = bb_max b
}.

Section RingBuffer.
Context {Element : Type}.

(** ** RingBuffer<Array> *)
Record RingBuffer := mkRing { rb_next : Z; rb_count : Z; rb_array : list Element }.

(** [FixedArray<Element,N>] and [RuntimeArray]: an array of [N] elements whose
    initial values [a] nothing reads; [RuntimeArray] asserts [N] *)
Definition RuntimeArray_new (N : Z) (a : list Element) : res (list Element) :=
  kassert (negb (N =? 0));; mret (take (Z.to_nat N) a).
Definition rb_new (a : list Element) : RingBuffer := mkRing 0 0 a.

Definition rb_size (r : RingBuffer) : Z := rb_count r.
Definition rb_max_size (r : RingBuffer) : Z := lenZ (rb_array r).
Definition rb_empty (r : RingBuffer) : bool := rb_size r =? 0.
Definition rb_full (r : RingBuffer) : bool := rb_size r =? rb_max_size r.
Definition rb_front (r : RingBuffer) : res Element :=
  kassert (negb (rb_empty r));; in_bounds (lookupZ (rb_array r) (rb_next r)).
Definition rb_back (r : RingBuffer) : res Element :=
  kassert (negb (rb_empty r));;
  in_bounds (lookupZ (rb_array r) (wrap 64 (rb_next r + rb_count r - 1) mod rb_max_size r)).
Definition rb_push (x : Element) (r : RingBuffer) : res RingBuffer :=
  kassert (negb (rb_full r));;
  let i := wrap 64 (rb_next r + rb_count r) mod rb_max_size r in
  _ ← in_bounds (lookupZ (rb_array r) i);
  mret (mkRing (rb_next r) (wrap 64 (rb_count r + 1)) (insertZ i x (rb_array r))).
Definition rb_pop (r : RingBuffer) : res RingBuffer :=
  kassert (negb (rb_empty r));;
  mret (mkRing (wrap 64 (rb_next r + 1) mod rb_max_size r) (wrap 64 (rb_count r - 1)) (rb_array r)).

(** element [i] of the sequence is at [(next + i) mod max] *)
Definition rb_holds (r : RingBuffer) (l : list Element) : Prop :=
  0 < rb_max_size r < 2 ^ 63 /\ 0 <= rb_next r < rb_max_size r /\
  rb_count r = lenZ l /\ lenZ l <= rb_max_size r /\
  forall i x, lookupZ l i = Some x ->
    lookupZ (rb_array r) ((rb_next r + i) mod rb_max_size r) = Some x.

Lemma rb_new_holds a : 0 < lenZ a < 2 ^ 63 -> rb_holds (rb_new a) [].
Proof.
  intros Ha. split; [done|]. split; [simpl; unfold rb_max_size; simpl; lia|]. split; [done|].
  split; [unfold rb_max_size, rb_new, lenZ in *; simpl in *; lia|].
  intros i x Hx%lookupZ_Some. unfold lenZ in Hx. simpl in Hx. lia.
Qed.

(** two positions of a ring differ *)
Lemma ring_ne n i j m :
  0 < m -> 0 <= i < m -> 0 <= j < m -> i <> j -> (n + i) mod m <> (n + j) mod m.
Proof.
  intros Hm Hi Hj Hne He. apply Hne.
  pose proof (Z.div_mod (n + i) m ltac:(lia)). pose proof (Z.div_mod (n + j) m ltac:(lia)).
  assert ((n + i) / m = (n + j) / m) by nia. lia.
Qed.

Lemma lookupZ_app (l k : list Element) i :
  lookupZ (l ++ k) i = if i <? lenZ l then lookupZ l i else lookupZ k (i - lenZ l).
Proof.
  unfold lookupZ, lenZ. destruct (Z.ltb_spec i 0).
  - destruct (Z.ltb_spec i (Z.of_nat (length l))); [done|lia].
  - destruct (Z.ltb_spec i (Z.of_nat (length l))); [by rewrite lookup_app_l by lia|].
    destruct (Z.ltb_spec (i - Z.of_nat (length l)) 0); [lia|].
    rewrite lookup_app_r by lia. f_equal. lia.
Qed.

Lemma rb_push_spec r x l :
  rb_holds r l -> lenZ l < rb_max_size r ->
  exists r', rb_push x r = Ok r' /\ rb_holds r' (l ++ [x]) /\ rb_max_size r' = rb_max_size r.
Proof.
  intros (Hm & Hn & Hc & Hl & Hget) Hlt. pose proof (lenZ_nonneg l).
  unfold rb_push, rb_full, rb_size. destruct (Z.eqb_spec (rb_count r) (rb_max_size r)); [lia|].
  cbn [negb kassert mbind res_bind]. rewrite !wrap_small by lia. rewrite Hc in *.
  set (p := (rb_next r + lenZ l) mod rb_max_size r).
  assert (0 <= p < rb_max_size r) as Hp by (apply Z.mod_pos_bound; lia).
  destruct (lookupZ_is_Some (rb_array r) p Hp) as [y ->]. cbn [in_bounds mbind res_bind].
  eexists. split; [done|].
  unfold rb_holds, rb_max_size. simpl. rewrite lenZ_insertZ, lenZ_app.
  change (lenZ (rb_array r)) with (rb_max_size r). change (lenZ [x]) with 1.
  split; [|done]. split; [done|]. split; [done|]. split; [done|]. split; [lia|].
  intros i z. rewrite lookupZ_app. destruct (Z.ltb_spec i (lenZ l)).
  - intros Hz. pose proof (lookupZ_Some _ _ _ Hz). rewrite lookupZ_insertZ_ne; [by apply Hget|].
    apply not_eq_sym, ring_ne; lia.
  - intros Hz. pose proof (lookupZ_Some _ _ _ Hz) as Hb. change (lenZ [x]) with 1 in Hb.
    replace i with (lenZ l) in * by lia. rewrite Z.sub_diag in Hz. injection Hz as <-.
    by apply lookupZ_insertZ_eq.
Qed.

Lemma rb_front_spec r x l : rb_holds r (x :: l) -> rb_front r = Ok x.
Proof.
  intros (Hm & Hn & Hc & Hl & Hget). rewrite lenZ_cons in *. pose proof (lenZ_nonneg l).
  unfold rb_front, rb_empty, rb_size. destruct (Z.eqb_spec (rb_count r) 0); [lia|].
  cbn [negb kassert mbind res_bind]. specialize (Hget 0 x eq_refl).
  rewrite Z.add_0_r, Z.mod_small in Hget by done. by rewrite Hget.
Qed.

Lemma rb_back_spec r x l : rb_holds r (l ++ [x]) -> rb_back r = Ok x.
Proof.
  intros (Hm & Hn & Hc & Hl & Hget). rewrite lenZ_app in *. change (lenZ [x]) with 1 in *.
  pose proof (lenZ_nonneg l). unfold rb_back, rb_empty, rb_size.
  destruct (Z.eqb_spec (rb_count r) 0); [lia|]. cbn [negb kassert mbind res_bind].
  rewrite wrap_small by lia. rewrite Hc.
  replace (rb_next r + (lenZ l + 1) - 1) with (rb_next r + lenZ l) by lia.
  rewrite (Hget (lenZ l) x); [done|]. rewrite lookupZ_app, Z.sub_diag.
  by destruct (Z.ltb_spec (lenZ l) (lenZ l)); [lia|].
Qed.

Lemma rb_pop_spec r x l :
  rb_holds r (x :: l) ->
  exists r', rb_pop r = Ok r' /\ rb_holds r' l /\ rb_max_size r' = rb_max_size r.
Proof.
  intros (Hm & Hn & Hc & Hl & Hget). rewrite lenZ_cons in *. pose proof (lenZ_nonneg l).
  unfold rb_pop, rb_empty, rb_size. destruct (Z.eqb_spec (rb_count r) 0); [lia|].
  cbn [negb kassert mbind res_bind]. rewrite !wrap_small by lia. eexists. split; [done|].
  unfold rb_holds, rb_max_size. simpl. change (lenZ (rb_array r)) with (rb_max_size r).
  split; [|done]. split; [done|]. split; [apply Z.mod_pos_bound; lia|].
  split; [lia|]. split; [lia|]. intros i y Hy. pose proof (lookupZ_Some _ _ _ Hy).
  rewrite Zplus_mod_idemp_l. replace (rb_next r + 1 + i) with (rb_next r + (i + 1)) by lia.
  apply Hget. unfold lookupZ in *. destruct (Z.ltb_spec i 0), (Z.ltb_spec (i + 1) 0); try lia.
  by replace (Z.to_nat (i + 1)) with (S (Z.to_nat i)) by lia.
Qed.

#[export] Instance RingBuffer_bounded : BoundedBuffer Element RingBuffer := {
  bb_empty := rb_empty; bb_full := rb_full; bb_front := rb_front; bb_push := rb_push;
  bb_pop := rb_pop; bb_max := rb_max_size; bb_holds := rb_holds
}.

#[export] Instance RingBuffer_laws : BoundedBufferLaws Element RingBuffer.
Proof.
  split; simpl.
  - intros r l (? & ? & ? & ? & ?). lia.
  - intros r l (? & ? & Hc & ? & ?). unfold rb_empty, rb_size. rewrite Hc, Z.eqb_eq.
    destruct l; [done|]. rewrite lenZ_cons. pose proof (lenZ_nonneg l). split; [lia|done].
  - intros r l (? & ? & Hc & ? & ?). unfold rb_full, rb_size. by rewrite Hc, Z.eqb_eq.
  - intros. by eapply rb_front_spec.
  - intros. by apply rb_push_spec.
  - intros. by eapply rb_pop_spec.
Qed.

(** ** QueueBuffer: std::queue with a maximal size *)
Record QueueBuffer := mkQB { qb_queue : list Element; qb_max : Z }.

Definition qb_new (N : Z) : res QueueBuffer := kassert (negb (N =? 0));; mret (mkQB [] N).
Definition qb_full (q : QueueBuffer) : bool := lenZ (qb_queue q) =? qb_max q.
(** [std::queue]: [front] and [pop] of an empty queue are undefined *)
Definition qb_empty (q : QueueBuffer) : bool := bool_decide (length (qb_queue q) = O).
Definition qb_front (q : QueueBuffer) : res Element := in_bounds (head (qb_queue q)).
Definition qb_push (x : Element) (q : QueueBuffer) : res QueueBuffer :=
  mret (mkQB (qb_queue q ++ [x]) (qb_max q)).
Definition qb_pop (q : QueueBuffer) : res QueueBuffer :=
  match qb_queue q with [] => Err OutOfBounds | _ :: l => mret (mkQB l (qb_max q)) end.

#[export] Instance QueueBuffer_bounded : BoundedBuffer Element QueueBuffer := {
  bb_empty := qb_empty; bb_full := qb_full; bb_front := qb_front; bb_push := qb_push;
  bb_pop := qb_pop; bb_max := qb_max;
  bb_holds q l := qb_queue q = l /\ lenZ l <= qb_max q /\ 0 < qb_max q
}.

#[export] Instance QueueBuffer_laws : BoundedBufferLaws Element QueueBuffer.
Proof.
  split; simpl.
  - intros q l (? & ? & ?). lia.
  - intros q l (Hq & _ & _). unfold qb_empty. rewrite Hq, bool_decide_eq_true.
    split; [by intros ?%nil_length_inv | by intros ->].
  - intros q l (Hq & _ & _). unfold qb_full. by rewrite Hq, Z.eqb_eq.
  - intros q x l (Hq & _ & _). unfold qb_front. by rewrite Hq.
  - intros q x l (Hq & Hl & Hm) Hlt. eexists. split; [done|]. simpl. rewrite Hq, lenZ_app.
    change (lenZ [x]) with 1. split; [split; [done|lia]|done].
  - intros q x l (Hq & Hl & Hm). unfold qb_pop. rewrite Hq. eexists. split; [done|].
    rewrite lenZ_cons in Hl. pose proof (lenZ_nonneg l). simpl. split; [split; [done|lia]|done].
Qed.
End RingBuffer.
Arguments RingBuffer : clear implicits.
Arguments QueueBuffer : clear implicits.

(** ** Properties *)

(** C21. The ring buffer is a bounded FIFO for arrays of every size below
    2^63: wrap-around of the indices never loses, reorders or overwrites an
    element, [full] and [empty] are exact, [push] is possible exactly below the
    capacity, and the assertions fail exactly for [push] on a full and for
    [front], [back] and [pop] on an empty buffer. *)
Theorem ring_buffer_fifo {Element} (r : RingBuffer Element) (l : list Element) :
  rb_holds r l ->
  (rb_empty r = true <-> l = []) /\ (rb_full r = true <-> lenZ l = rb_max_size r) /\
  (forall x, if decide (lenZ l = rb_max_size r) then rb_push x r = Err AssertFailed
    else exists r', rb_push x r = Ok r' /\ rb_holds r' (l ++ [x])) /\
  match l with
  | [] => rb_front r = Err AssertFailed /\ rb_back r = Err AssertFailed /\ rb_pop r = Err AssertFailed
  | x :: l' => rb_front r = Ok x /\ (exists y, last l = Some y /\ rb_back r = Ok y) /\
      exists r', rb_pop r = Ok r' /\ rb_holds r' l'
  end.
Proof.
  intros Hr. pose proof (bb_empty_law r l Hr) as He. pose proof (bb_full_law r l Hr) as Hf.
  simpl in He, Hf. split; [done|]. split; [done|]. split.
  - intros x. destruct (decide _) as [Hd|Hd].
    + unfold rb_push. by rewrite (proj2 Hf Hd).
    + pose proof (proj1 (bb_holds_max (Element := Element) r l Hr)) as Hm. simpl in Hm.
      destruct (rb_push_spec r x l Hr) as (r' & ? & ? & _); [lia|]. by exists r'.
  - destruct l as [|x l].
    + unfold rb_front, rb_back, rb_pop. by rewrite (proj2 He eq_refl).
    + split; [by eapply rb_front_spec|]. split.
      * destruct (exists_last (l := x :: l)) as (l' & y & Hl); [done|].
        exists y. rewrite Hl, last_snoc. split; [done|]. apply (rb_back_spec r y l'). by rewrite <- Hl.
      * destruct (rb_pop_spec r x l Hr) as (r' & ? & ? & _). by exists r'.
Qed.

Lemma ring_buffer_fifo_witness :
  (r ← rb_push 1 (rb_new [0; 0]); r ← rb_push 2 r; r ← rb_pop r; r ← rb_push 3 r; rb_back r) = Ok 3 /\
  exists r', rb_push 5 (rb_new [0; 0]) = Ok r' /\ rb_holds r' [5].
Proof.
  split; [vm_compute; reflexivity|].
  assert (rb_holds (rb_new [0; 0]) []) as H0 by (apply rb_new_holds; vm_compute; split; reflexivity).
  destruct (ring_buffer_fifo (rb_new [0; 0]) [] H0) as (_ & _ & H & _). exact (H 5).
Defined.
