(* ===== verification/ManagedArray.v ===== *)
(** * Managed arrays: generic/ManagedArray.h

    [ManagedArray<T,Alloc>] hands out indices of a growing array.  An index is
    valid (set), reserved (handed out, not set) or free; free cells of the
    array hold the links of the free stack.  The addresses of cells are
    modelled by their indices.  [alloc_ok n] says whether [Alloc<T>::allocate]
    succeeds for [n] elements. *)
From Stdlib Require Import ZArith Lia Bool.
From stdpp Require Import base tactics option numbers list.
From S2P Require Import Prelude Bitmanip.

Section ManagedArray.
Context {T : Type} (alloc_ok : Z -> bool).

(** a cell of [data]: raw memory, an element, or a link of the free stack *)
Inductive cell := Raw | Elem (x : T) | FreeLink (next : option Z).

Record marray := mkMA {
  data : list cell;
  freestack : option Z;
  index : Z;
  capacity : Z;
  freecount : Z;
  checkbits : list bool
}.

Definition ma_new (n : Z) : marray :=
  mkMA (replicate (Z.to_nat n) Raw) None 0 n 0 (replicate (Z.to_nat n) false).

Definition checkbit (m : marray) (idx : Z) : res bool := in_bounds (lookupZ (checkbits m) idx).

Definition internalSet (idx : Z) (elem : T) (m : marray) : res marray :=
  _ ← checkbit m idx;
  _ ← in_bounds (lookupZ (data m) idx);
  mret (mkMA (insertZ idx (Elem elem) (data m)) (freestack m) (index m) (capacity m)
    (freecount m) (insertZ idx true (checkbits m))).

Definition internalRemove (idx : Z) (m : marray) : res marray :=
  _ ← in_bounds (lookupZ (data m) idx);
  mret (mkMA (insertZ idx (FreeLink (freestack m)) (data m)) (Some idx) (index m) (capacity m)
    (wrap 64 (freecount m + 1)) (checkbits m)).

(** [idx < index && checkbits[idx]] *)
Definition valid (m : marray) (idx : Z) : res bool :=
  if idx <? index m then checkbit m idx else mret false.
Definition clear (m : marray) (idx : Z) : res bool :=
  if idx <? index m then b ← checkbit m idx; mret (negb b) else mret false.
Definition ma_size (m : marray) : Z := wrap 64 (index m - freecount m).
Definition currentIndex (m : marray) : Z := index m.
Definition currentCapacity (m : marray) : Z := capacity m.
Definition ma_empty (m : marray) : bool := ma_size m =? 0.

(** the last branch of [reserveIndex]: twice the capacity; [None] when the
    allocation fails *)
Definition grow (m : marray) : option marray * marray :=
  let newCapacity := if capacity m =? 0 then 1 else wrap 64 (capacity m * 2) in
  let bits := take (Z.to_nat newCapacity) (checkbits m) ++
    replicate (Z.to_nat newCapacity - length (checkbits m)) false in
  let m := mkMA (data m) (freestack m) (index m) (capacity m) (freecount m) bits in
  if negb (alloc_ok newCapacity) then (None, m)
  else (Some (mkMA (take (Z.to_nat (capacity m)) (data m) ++
      replicate (Z.to_nat newCapacity - Z.to_nat (capacity m)) Raw)
    (freestack m) (index m) newCapacity (freecount m) bits), m).

Fixpoint reserveIndex_fuel (fuel : nat) (m : marray) : res (Z * marray) :=
  match fuel with
  | O => Err OutOfFuel
  | S fuel =>
      match freestack m with
      | Some idx =>
          c ← in_bounds (lookupZ (data m) idx);
          next ← match c with FreeLink n => mret n | _ => Err NullDeref end;
          b ← checkbit m idx;
          kassert (negb b);;
          mret (idx, mkMA (data m) next (index m) (capacity m) (wrap 64 (freecount m - 1)) (checkbits m))
      | None =>
          if index m <? capacity m then
            b ← checkbit m (index m);
            kassert (negb b);;
            mret (index m, mkMA (data m) (freestack m) (wrap 64 (index m + 1)) (capacity m)
              (freecount m) (checkbits m))
          else
            match grow m with
            | (None, m) => mret (limit 64, m)
            | (Some m, _) => reserveIndex_fuel fuel m
            end
      end
  end.
(** after growing, the second call takes the second branch *)
Definition reserveIndex : marray -> res (Z * marray) := reserveIndex_fuel 2.

Definition ma_set (idx : Z) (elem : T) (m : marray) : res marray :=
  c ← clear m idx; kassert c;; internalSet idx elem m.

Definition ma_put (elem : T) (m : marray) : res (Z * marray) :=
  '(idx, m) ← reserveIndex m;
  m ← internalSet idx elem m;
  mret (idx, m).

(** the element read from a cell; raw memory and links have no value of [T] *)
Definition read_cell (m : marray) (idx : Z) : res T :=
  c ← in_bounds (lookupZ (data m) idx);
  match c with Elem x => mret x | _ => Err NullDeref end.

Definition ma_get (idx : Z) (m : marray) : res T :=
  v ← valid m idx; kassert v;; read_cell m idx.

Definition invalidate (idx : Z) (m : marray) : res marray :=
  v ← valid m idx; kassert v;;
  mret (mkMA (data m) (freestack m) (index m) (capacity m) (freecount m)
    (insertZ idx false (checkbits m))).

Definition ma_release (idx : Z) (m : marray) : res marray :=
  c ← clear m idx; kassert c;; internalRemove idx m.

Definition ma_remove (idx : Z) (m : marray) : res marray :=
  m ← invalidate idx m; internalRemove idx m.

(** [get(idx, elem)]: copy out and remove, without resetting the check bit *)
Definition ma_take (idx : Z) (m : marray) : res (option T * marray) :=
  v ← valid m idx;
  if (v : bool) then
    x ← read_cell m idx; m ← internalRemove idx m; mret (Some x, m)
  else mret (None, m).

(** ** The invariant *)

(** the free stack [fs] is linked through the cells *)
Fixpoint fchain (d : list cell) (fs : list Z) : Prop :=
  match fs with
  | [] => True
  | i :: fs' => lookupZ d i = Some (FreeLink (head fs')) /\ fchain d fs'
  end.

Record ma_inv (m : marray) (fs : list Z) : Prop := {
  inv_cap : lenZ (data m) = capacity m;
  inv_bits : lenZ (checkbits m) = capacity m;
  inv_index : 0 <= index m <= capacity m;
  inv_small : capacity m < 2 ^ 63;
  inv_nodup : NoDup fs;
  inv_head : freestack m = head fs;
  inv_chain : fchain (data m) fs;
  inv_count : freecount m = lenZ fs;
  inv_free i : i ∈ fs -> 0 <= i < index m /\ lookupZ (checkbits m) i = Some false;
  inv_valid i : lookupZ (checkbits m) i = Some true ->
    i < index m /\ exists x, lookupZ (data m) i = Some (Elem x)
}.

(** the abstract state: the element of a valid index, and the indices that
    are handed out but not set *)
Definition value (m : marray) (i : Z) : option T :=
  match lookupZ (checkbits m) i, lookupZ (data m) i with
  | Some true, Some (Elem x) => Some x
  | _, _ => None
  end.
Definition reserved (m : marray) (fs : list Z) (i : Z) : Prop :=
  0 <= i < index m /\ lookupZ (checkbits m) i = Some false /\ i ∉ fs.

Lemma fchain_ext d d' fs :
  (forall i, i ∈ fs -> lookupZ d' i = lookupZ d i) -> fchain d fs -> fchain d' fs.
Proof.
  induction fs as [|i fs IH]; [done|]. intros Hf [H1 H2]. split.
  - rewrite Hf; [done|]. apply elem_of_cons. by left.
  - apply IH; [|done]. intros. apply Hf, elem_of_cons. by right.
Qed.

Lemma NoDup_range (l : list Z) n :
  NoDup l -> (forall i, i ∈ l -> 0 <= i < n) -> lenZ l <= Z.max n 0.
Proof.
  intros Hnd Hr. assert (l ⊆ map Z.of_nat (seq 0 (Z.to_nat n))) as Hsub.
  { intros i Hi. specialize (Hr i Hi). apply list_elem_of_fmap.
    exists (Z.to_nat i). split; [lia|]. apply elem_of_seq. lia. }
  pose proof (NoDup_incl_length (l := l) (l' := map Z.of_nat (seq 0 (Z.to_nat n)))) as Hlen.
  rewrite length_map, length_seq in Hlen. unfold lenZ.
  assert (length l <= Z.to_nat n)%nat; [|lia]. apply Hlen.
  - by apply NoDup_ListNoDup.
  - intros x Hx. apply list_elem_of_In. apply Hsub. by apply list_elem_of_In.
Qed.

Lemma inv_freecount m fs : ma_inv m fs -> 0 <= lenZ fs <= index m.
Proof.
  intros Hi. pose proof (lenZ_nonneg fs).
  pose proof (NoDup_range fs (index m) (inv_nodup _ _ Hi) (fun i H => proj1 (inv_free _ _ Hi i H))).
  pose proof (inv_index _ _ Hi). lia.
Qed.

Lemma ma_new_inv n : 0 <= n < 2 ^ 63 -> ma_inv (ma_new n) [].
Proof.
  intros Hn. split; simpl; try done; try lia.
  - unfold lenZ. rewrite length_replicate. lia.
  - unfold lenZ. rewrite length_replicate. lia.
  - apply NoDup_nil_2.
  - intros i Hi%elem_of_nil. done.
  - intros i Hi. unfold lookupZ in Hi. destruct (i <? 0); [done|].
    by apply lookup_replicate in Hi as [? _].
Qed.

Lemma checkbit_Ok m fs i : ma_inv m fs -> 0 <= i < capacity m ->
  exists b, lookupZ (checkbits m) i = Some b.
Proof. intros Hi Hr. apply lookupZ_is_Some. by rewrite (inv_bits _ _ Hi). Qed.

Lemma cell_Ok m fs i : ma_inv m fs -> 0 <= i < capacity m ->
  exists c, lookupZ (data m) i = Some c.
Proof. intros Hi Hr. apply lookupZ_is_Some. by rewrite (inv_cap _ _ Hi). Qed.

Lemma lookupZ_app_l {A} (l k : list A) i : i < lenZ l -> lookupZ (l ++ k) i = lookupZ l i.
Proof.
  unfold lookupZ, lenZ. intros. destruct (Z.ltb_spec i 0); [done|]. apply lookup_app_l. lia.
Qed.

Lemma lookupZ_app_replicate {A} (l : list A) n x i y :
  lookupZ (l ++ replicate n x) i = Some y -> lookupZ l i = Some y \/ lenZ l <= i /\ y = x.
Proof.
  intros Hy. destruct (Z.lt_ge_cases i (lenZ l)); [left; by rewrite lookupZ_app_l in Hy|right].
  split; [done|]. unfold lookupZ, lenZ in *. destruct (Z.ltb_spec i 0); [done|].
  rewrite lookup_app_r in Hy by lia. by apply lookup_replicate in Hy as [? _].
Qed.

(** the values and reservations of two states agree *)
Definition same_view (m m' : marray) (fs fs' : list Z) : Prop :=
  (forall i, value m' i = value m i) /\ (forall i, reserved m' fs' i <-> reserved m fs i).

Lemma grow_spec m :
  ma_inv m [] -> index m = capacity m -> capacity m < 2 ^ 61 ->
  alloc_ok (if capacity m =? 0 then 1 else capacity m * 2) = true ->
  exists m' m0, grow m = (Some m', m0) /\ ma_inv m' [] /\ index m' = index m /\
    capacity m < capacity m' /\ capacity m' < 2 ^ 62 /\ same_view m m' [] [].
Proof.
  intros Hi Hx Hs Ha. pose proof (inv_index _ _ Hi) as Hidx.
  pose proof (inv_cap _ _ Hi) as Hcap. pose proof (inv_bits _ _ Hi) as Hbits.
  unfold grow. rewrite (wrap_small 64 (capacity m * 2)) by lia.
  set (nc := if capacity m =? 0 then 1 else capacity m * 2) in *.
  assert (capacity m < nc < 2 ^ 62 /\ 0 < nc) as [Hnc1 Hnc2].
  { unfold nc. destruct (Z.eqb_spec (capacity m) 0); lia. }
  rewrite Ha. cbn [negb]. unfold lenZ in Hcap, Hbits.
  clearbody nc. rewrite (take_ge (checkbits m)) by lia. cbn [data freestack index capacity freecount].
  rewrite (take_ge (data m)) by lia.
  eexists _, _. split; [reflexivity|].
  set (m' := mkMA _ _ _ _ _ _).
  assert (forall i b, lookupZ (checkbits m') i = Some b ->
    lookupZ (checkbits m) i = Some b \/ capacity m <= i /\ b = false) as Hcb.
  { intros i b Hb. simpl in Hb. apply lookupZ_app_replicate in Hb as [|[? ->]]; [by left|].
    right. unfold lenZ in *. split; [lia|done]. }
  assert (forall i, i < capacity m -> lookupZ (checkbits m') i = lookupZ (checkbits m) i /\
    lookupZ (data m') i = lookupZ (data m) i) as Hlow.
  { intros i Hlt. simpl. split; apply lookupZ_app_l; unfold lenZ; lia. }
  split; [split; simpl; try apply Hi; try lia|].
  - unfold lenZ. rewrite length_app, length_replicate. lia.
  - unfold lenZ. rewrite length_app, length_replicate. lia.
  - intros i Hi'%elem_of_nil. done.
  - intros i Hb. destruct (Hcb i true Hb) as [Hb'|[_ ?]]; [|done].
    destruct (inv_valid _ _ Hi i Hb') as (? & x & Hd). split; [done|]. exists x.
    destruct (Hlow i) as [_ Hl]; [lia|]. simpl in Hl. by rewrite Hl.
  - split; [done|]. split; [simpl; lia|]. split; [simpl; lia|]. split.
    + intros i. unfold value. destruct (Z.lt_ge_cases i (capacity m)) as [Hlt|Hge].
      * by destruct (Hlow i Hlt) as [-> ->].
      * rewrite (proj2 (lookupZ_None (checkbits m) i)) by (right; unfold lenZ; lia).
        destruct (lookupZ (checkbits m') i) as [[]|] eqn:Hb; [|done..].
        destruct (Hcb i true Hb) as [Hb'|[_ ?]]; [|done].
        apply lookupZ_Some in Hb'. unfold lenZ in Hb'. lia.
    + intros i. unfold reserved. simpl (index m').
      split; intros (H1 & H2 & H3); (split; [done|split; [|done]]).
      * rewrite <- H2. symmetry. apply Hlow. lia.
      * rewrite <- H2. apply Hlow. lia.
Qed.

(** a cell of the free stack is taken *)
Lemma reserve_free m i fs :
  ma_inv m (i :: fs) ->
  exists m', reserveIndex m = Ok (i, m') /\ ma_inv m' fs /\
    (forall j, value m' j = value m j) /\ value m i = None /\
    forall j, reserved m' fs j <-> j = i \/ reserved m (i :: fs) j.
Proof.
  intros Hi. pose proof (inv_freecount _ _ Hi) as Hfc. rewrite lenZ_cons in Hfc.
  pose proof (lenZ_nonneg fs). pose proof (inv_index _ _ Hi). pose proof (inv_small _ _ Hi).
  destruct (inv_chain _ _ Hi) as [Hd Hc].
  destruct (inv_free _ _ Hi i ltac:(apply elem_of_cons; by left)) as [Hr Hb].
  destruct (proj1 (NoDup_cons _ _) (inv_nodup _ _ Hi)) as [Hn Hnd].
  unfold reserveIndex. cbn [reserveIndex_fuel]. rewrite (inv_head _ _ Hi). cbn [head].
  rewrite Hd. cbn [in_bounds mbind res_bind]. unfold checkbit. rewrite Hb.
  cbn [in_bounds mbind res_bind mret res_ret kassert negb].
  rewrite (inv_count _ _ Hi), lenZ_cons, wrap_small by lia.
  eexists. split; [reflexivity|]. split; [|split; [done|split]].
  - split; simpl; try apply Hi; try done; try lia.
    intros j Hj. apply (inv_free _ _ Hi), elem_of_cons. by right.
  - unfold value. by rewrite Hb.
  - intros j. unfold reserved. simpl. rewrite not_elem_of_cons.
    split; [intros (? & ? & ?)|intros [->|(? & ? & ? & ?)]; [done|done]].
    destruct (decide (j = i)); [by left|right]. done.
Qed.

(** a fresh cell at [index] *)
Lemma reserve_fresh m fuel :
  ma_inv m [] -> index m < capacity m ->
  exists m', reserveIndex_fuel (S fuel) m = Ok (index m, m') /\ ma_inv m' [] /\
    (forall j, value m' j = value m j) /\ value m (index m) = None /\
    forall j, reserved m' [] j <-> j = index m \/ reserved m [] j.
Proof.
  intros Hi Hlt. pose proof (inv_index _ _ Hi). pose proof (inv_small _ _ Hi).
  assert (lookupZ (checkbits m) (index m) = Some false) as Hb.
  { destruct (checkbit_Ok m [] (index m) Hi) as [[] Hb]; [lia| |done].
    destruct (inv_valid _ _ Hi _ Hb). lia. }
  cbn [reserveIndex_fuel]. rewrite (inv_head _ _ Hi). cbn [head].
  destruct (Z.ltb_spec (index m) (capacity m)); [|lia]. unfold checkbit. rewrite Hb.
  cbn [in_bounds mbind res_bind mret res_ret kassert negb]. rewrite wrap_small by lia.
  eexists. split; [reflexivity|]. split; [|split; [done|split]].
  - split; simpl; try apply Hi; try done; try lia.
    + intros j Hj%elem_of_nil. done.
    + intros j Hj. destruct (inv_valid _ _ Hi j Hj). split; [lia|done].
  - unfold value. by rewrite Hb.
  - intros j. unfold reserved. simpl.
    split; [intros (? & ? & ?)|intros [->|(? & ? & ?)]; repeat split; done || lia || apply not_elem_of_nil].
    destruct (decide (j = index m)); [by left|right]. repeat split; done || lia.
Qed.

(** [reserveIndex]: an index that was neither valid nor reserved becomes
    reserved *)
Lemma reserveIndex_spec m fs :
  ma_inv m fs -> capacity m < 2 ^ 61 ->
  alloc_ok (if capacity m =? 0 then 1 else capacity m * 2) = true ->
  exists idx m' fs', reserveIndex m = Ok (idx, m') /\ ma_inv m' fs' /\
    (forall j, value m' j = value m j) /\ value m idx = None /\ ~ reserved m fs idx /\
    (forall j, reserved m' fs' j <-> j = idx \/ reserved m fs j) /\
    idx = default (index m) (head fs).
Proof.
  intros Hi Hs Ha. destruct fs as [|i fs].
  - destruct (Z.lt_ge_cases (index m) (capacity m)) as [Hlt|Hge].
    + destruct (reserve_fresh m 1 Hi Hlt) as (m' & Hr & Hi' & Hv & Hn & Hres).
      exists (index m), m', []. repeat (split; [done|]). split; [|done]. intros (? & _). lia.
    + assert (index m = capacity m) as He by (pose proof (inv_index _ _ Hi); lia).
      destruct (grow_spec m Hi He Hs Ha) as (m1 & m0 & Hg & Hi1 & Hx1 & Hc1 & Hc2 & Hv1 & Hr1).
      destruct (reserve_fresh m1 0 Hi1) as (m' & Hr & Hi' & Hv & Hn & Hres); [lia|].
      exists (index m), m', []. rewrite Hx1 in *. split.
      { unfold reserveIndex. cbn [reserveIndex_fuel]. rewrite (inv_head _ _ Hi). cbn [head].
        destruct (Z.ltb_spec (index m) (capacity m)); [lia|]. by rewrite Hg. }
      split; [done|]. split; [intros; by rewrite Hv|]. split; [by rewrite <- Hv1|].
      split; [intros (? & _); lia|]. split; [|done]. intros j. by rewrite Hres, Hr1.
  - destruct (reserve_free m i fs Hi) as (m' & Hr & Hi' & Hv & Hn & Hres).
    exists i, m', fs. repeat (split; [done|]). split; [|done].
    intros (_ & _ & Hni). apply Hni, elem_of_cons. by left.
Qed.

Lemma internalSet_spec m fs idx x :
  ma_inv m fs -> reserved m fs idx ->
  exists m', internalSet idx x m = Ok m' /\ ma_inv m' fs /\ capacity m' = capacity m /\
    (forall j, value m' j = if decide (j = idx) then Some x else value m j) /\
    (forall j, reserved m' fs j <-> reserved m fs j /\ j <> idx).
Proof.
  clear alloc_ok.
  intros Hi (Hr & Hb & Hn). pose proof (inv_index _ _ Hi).
  destruct (cell_Ok m fs idx Hi) as [c Hc]; [lia|].
  unfold internalSet, checkbit. rewrite Hb, Hc. cbn [in_bounds mbind res_bind].
  eexists. split; [reflexivity|].
  assert (0 <= idx < lenZ (checkbits m)) by (rewrite (inv_bits _ _ Hi); lia).
  assert (0 <= idx < lenZ (data m)) by (rewrite (inv_cap _ _ Hi); lia).
  split; [split; simpl; try rewrite lenZ_insertZ; try apply Hi; try lia|split; [done|split]].
  - apply (fchain_ext (data m)); [|apply Hi]. intros j Hj. rewrite lookupZ_insertZ_ne; [done|].
    by intros ->.
  - intros j Hj. destruct (inv_free _ _ Hi j Hj). split; [done|].
    rewrite lookupZ_insertZ_ne; [done|]. by intros ->.
  - intros j Hj. destruct (decide (j = idx)) as [->|Hne].
    + split; [lia|]. exists x. by apply lookupZ_insertZ_eq.
    + rewrite lookupZ_insertZ_ne in Hj by done. rewrite lookupZ_insertZ_ne by done.
      by apply (inv_valid _ _ Hi).
  - intros j. unfold value. simpl. destruct (decide (j = idx)) as [->|Hne].
    + by rewrite !lookupZ_insertZ_eq.
    + by rewrite !lookupZ_insertZ_ne.
  - intros j. unfold reserved. simpl. destruct (decide (j = idx)) as [->|Hne].
    + rewrite lookupZ_insertZ_eq by done. naive_solver.
    + rewrite lookupZ_insertZ_ne by done. naive_solver.
Qed.

Lemma internalRemove_spec m fs idx :
  ma_inv m fs -> reserved m fs idx ->
  exists m', internalRemove idx m = Ok m' /\ ma_inv m' (idx :: fs) /\
    (forall j, value m' j = value m j) /\
    (forall j, reserved m' (idx :: fs) j <-> reserved m fs j /\ j <> idx).
Proof.
  clear alloc_ok.
  intros Hi (Hr & Hb & Hn). pose proof (inv_index _ _ Hi). pose proof (inv_small _ _ Hi).
  pose proof (inv_freecount _ _ Hi).
  destruct (cell_Ok m fs idx Hi) as [c Hc]; [lia|].
  unfold internalRemove. rewrite Hc. cbn [in_bounds mbind res_bind].
  rewrite (inv_count _ _ Hi), wrap_small by lia. eexists. split; [reflexivity|].
  assert (0 <= idx < lenZ (data m)) by (rewrite (inv_cap _ _ Hi); lia).
  split; [split; simpl; try rewrite lenZ_insertZ; try apply Hi; try lia|split].
  - apply NoDup_cons. split; [done|apply Hi].
  - done.
  - rewrite lookupZ_insertZ_eq by done. rewrite (inv_head _ _ Hi). split; [done|].
    apply (fchain_ext (data m)); [|apply Hi]. intros j Hj. rewrite lookupZ_insertZ_ne; [done|].
    by intros ->.
  - rewrite lenZ_cons. lia.
  - intros j [->|Hj]%elem_of_cons; [done|]. by apply (inv_free _ _ Hi).
  - intros j Hj. destruct (inv_valid _ _ Hi j Hj) as (? & x & Hx). split; [done|]. exists x.
    rewrite lookupZ_insertZ_ne; [done|]. intros ->. congruence.
  - intros j. unfold value. simpl. destruct (decide (j = idx)) as [->|Hne]; [by rewrite Hb|].
    by rewrite lookupZ_insertZ_ne.
  - intros j. unfold reserved. simpl. rewrite not_elem_of_cons. tauto.
Qed.

(** the tests of the index state *)
Lemma valid_spec m fs i :
  ma_inv m fs -> 0 <= i -> valid m i = Ok (bool_decide (is_Some (value m i))).
Proof.
  intros Hi H0. unfold valid, checkbit. pose proof (inv_index _ _ Hi).
  destruct (Z.ltb_spec i (index m)).
  - destruct (checkbit_Ok m fs i Hi) as [b Hb]; [lia|]. rewrite Hb. cbn [in_bounds]. f_equal.
    unfold value. rewrite Hb. destruct b.
    + destruct (inv_valid _ _ Hi i Hb) as (_ & x & ->). by rewrite bool_decide_true.
    + by rewrite bool_decide_false by by intros [].
  - unfold mret, res_ret. f_equal. symmetry. apply bool_decide_false. intros [x Hx].
    unfold value in Hx. destruct (lookupZ (checkbits m) i) as [[]|] eqn:Hb; try done.
    destruct (inv_valid _ _ Hi i Hb). lia.
Qed.

Lemma clear_reserved m fs i : ma_inv m fs -> reserved m fs i -> clear m i = Ok true.
Proof.
  intros Hi (Hr & Hb & _). unfold clear, checkbit. destruct (Z.ltb_spec i (index m)); [|lia].
  by rewrite Hb.
Qed.

Lemma invalidate_spec m fs i x :
  ma_inv m fs -> value m i = Some x ->
  exists m', invalidate i m = Ok m' /\ ma_inv m' fs /\
    (forall j, value m' j = if decide (j = i) then None else value m j) /\
    (forall j, reserved m' fs j <-> j = i \/ reserved m fs j).
Proof.
  clear alloc_ok.
  intros Hi Hv. assert (lookupZ (checkbits m) i = Some true) as Hb.
  { unfold value in Hv. by destruct (lookupZ (checkbits m) i) as [[]|]. }
  pose proof (lookupZ_Some _ _ _ Hb) as Hr.
  unfold invalidate. rewrite (valid_spec m fs i Hi), bool_decide_true by (done || lia).
  cbn [mbind res_bind kassert]. eexists. split; [reflexivity|].
  split; [split; simpl; try rewrite lenZ_insertZ; try apply Hi|split].
  - intros j Hj. destruct (inv_free _ _ Hi j Hj). split; [done|].
    rewrite lookupZ_insertZ_ne; [done|]. intros ->. congruence.
  - intros j Hj. destruct (decide (j = i)) as [->|Hne].
    + by rewrite lookupZ_insertZ_eq in Hj.
    + rewrite lookupZ_insertZ_ne in Hj by done. by apply (inv_valid _ _ Hi).
  - intros j. unfold value. simpl. destruct (decide (j = i)) as [->|Hne].
    + by rewrite lookupZ_insertZ_eq.
    + by rewrite lookupZ_insertZ_ne.
  - intros j. unfold reserved. simpl. destruct (decide (j = i)) as [->|Hne].
    + rewrite lookupZ_insertZ_eq by done. destruct (inv_valid _ _ Hi i Hb) as [? _].
      split; [by left|]. intros _. repeat split; try lia.
      intros Hin. destruct (inv_free _ _ Hi i Hin). congruence.
    + rewrite lookupZ_insertZ_ne by done. naive_solver.
Qed.
End ManagedArray.

Arguments cell : clear implicits.
Arguments marray : clear implicits.

(** ** Operations of the array in a state of the invariant *)
Section facts.
Context {T : Type} (m : marray T) (fs : list Z) (Hm : ma_inv m fs).

Lemma value_nonneg i x : value m i = Some x -> 0 <= i.
Proof using.
  unfold value. destruct (lookupZ (checkbits m) i) eqn:Hb; [|done].
  apply lookupZ_Some in Hb. lia.
Qed.

Lemma value_cell i x : value m i = Some x -> lookupZ (data m) i = Some (Elem x).
Proof using.
  unfold value. destruct (lookupZ (checkbits m) i) as [[]|]; [|done..].
  destruct (lookupZ (data m) i) as [[]|]; congruence.
Qed.

Lemma valid_value i x : value m i = Some x -> valid m i = Ok true.
Proof using Hm.
  intros Hx. rewrite (valid_spec m fs i Hm) by by eapply value_nonneg.
  rewrite Hx. by rewrite bool_decide_true.
Qed.

Lemma valid_none i : 0 <= i -> value m i = None -> valid m i = Ok false.
Proof using Hm.
  intros Hi Hx. rewrite (valid_spec m fs i Hm Hi), Hx. by rewrite bool_decide_false by by intros [].
Qed.

Lemma get_value i x : value m i = Some x -> ma_get i m = Ok x.
Proof using Hm.
  intros Hx. unfold ma_get, read_cell. by rewrite (valid_value i x Hx), (value_cell i x Hx).
Qed.

Lemma invalidate_data i m' : invalidate i m = Ok m' -> data m' = data m /\ capacity m' = capacity m.
Proof using. unfold invalidate. intros H. res_inv. done. Qed.

Lemma set_reserved i x : reserved m fs i -> exists m', ma_set i x m = Ok m' /\ ma_inv m' fs /\
  (forall j, value m' j = if decide (j = i) then Some x else value m j) /\
  (forall j, reserved m' fs j <-> reserved m fs j /\ j <> i).
Proof using Hm.
  intros Hr. destruct (internalSet_spec m fs i x Hm Hr) as (m' & H1 & H2 & _ & H3 & H4).
  exists m'. unfold ma_set. rewrite (clear_reserved m fs i Hm Hr). done.
Qed.

Lemma release_reserved i : reserved m fs i -> exists m', ma_release i m = Ok m' /\ ma_inv m' (i :: fs) /\
  (forall j, value m' j = value m j) /\ (forall j, reserved m' (i :: fs) j <-> reserved m fs j /\ j <> i).
Proof using Hm.
  intros Hr. destruct (internalRemove_spec m fs i Hm Hr) as (m' & H1 & H2 & H3 & H4).
  exists m'. unfold ma_release. rewrite (clear_reserved m fs i Hm Hr). done.
Qed.

Lemma reserved_no_value i : reserved m fs i -> value m i = None.
Proof using. intros (_ & Hb & _). unfold value. by rewrite Hb. Qed.
End facts.

Lemma ma_put_spec {T} (alloc_ok : Z -> bool) (m : marray T) fs x :
  ma_inv m fs -> capacity m < 2 ^ 61 ->
  alloc_ok (if capacity m =? 0 then 1 else capacity m * 2) = true ->
  exists idx m' fs', ma_put alloc_ok x m = Ok (idx, m') /\ ma_inv m' fs' /\
    value m idx = None /\ ~ reserved m fs idx /\
    (forall j, value m' j = if decide (j = idx) then Some x else value m j) /\
    (forall j, reserved m' fs' j <-> reserved m fs j).
Proof.
  intros Hi Hc Ha. destruct (reserveIndex_spec alloc_ok m fs Hi Hc Ha)
    as (idx & m1 & fs1 & Hr & Hi1 & Hv1 & Hn & Hnr & Hres1 & _).
  destruct (internalSet_spec m1 fs1 idx x Hi1) as (m2 & Hs2 & Hi2 & _ & Hv2 & Hres2); [apply Hres1; by left|].
  exists idx, m2, fs1. unfold ma_put. rewrite Hr. cbn [mbind res_bind]. rewrite Hs2.
  split; [done|]. split; [done|]. split; [done|]. split; [done|]. split.
  - intros j. rewrite Hv2. by destruct (decide (j = idx)).
  - intros j. rewrite Hres2, Hres1. naive_solver.
Qed.

Lemma ma_remove_spec {T} (m : marray T) fs i x : ma_inv m fs -> value m i = Some x ->
  exists m', ma_remove i m = Ok m' /\ ma_inv m' (i :: fs) /\
    (forall j, value m' j = if decide (j = i) then None else value m j) /\
    (forall j, reserved m' (i :: fs) j <-> reserved m fs j).
Proof.
  intros Hi Hx. destruct (invalidate_spec m fs i x Hi Hx) as (m2 & Hs2 & Hi2 & Hv2 & Hres2).
  destruct (internalRemove_spec m2 fs i Hi2) as (m3 & Hs3 & Hi3 & Hv3 & Hres3); [apply Hres2; by left|].
  exists m3. unfold ma_remove. rewrite Hs2. cbn [mbind res_bind]. split; [done|]. split; [done|].
  split; [intros j; by rewrite Hv3|]. intros j. rewrite Hres3, Hres2.
  split; [naive_solver|]. intros Hrj. split; [by right|]. intros ->.
  destruct Hrj as (_ & Hb & _). unfold value in Hx. by rewrite Hb in Hx.
Qed.

(** when no index is reserved, the array is empty iff no index is valid *)
Lemma ma_empty_spec {T} (m : marray T) fs : ma_inv m fs -> (forall i, ~ reserved m fs i) ->
  ma_empty m = true <-> forall i, value m i = None.
Proof.
  intros Hi Hres. pose proof (inv_freecount _ _ Hi). pose proof (inv_index _ _ Hi). pose proof (inv_small _ _ Hi).
  set (range := map Z.of_nat (seq 0 (Z.to_nat (index m)))).
  assert (forall i, In i range <-> 0 <= i < index m) as Hrange.
  { intros i. unfold range. rewrite in_map_iff. split.
    - intros (k & <- & Hk%in_seq). lia.
    - intros Hk. exists (Z.to_nat i). split; [lia|]. apply in_seq. lia. }
  assert (length range = Z.to_nat (index m)) as Hlen by (unfold range; by rewrite length_map, length_seq).
  assert (List.NoDup fs) as Hnd by apply NoDup_ListNoDup, Hi.
  assert (incl fs range) as Hsub.
  { intros i Hin. apply Hrange, (inv_free _ _ Hi). by apply list_elem_of_In. }
  unfold ma_empty, ma_size. rewrite (inv_count _ _ Hi), wrap_small by lia. rewrite Z.eqb_eq. split.
  - intros He i. destruct (value m i) as [x|] eqn:Hx; [|done]. exfalso.
    assert (lookupZ (checkbits m) i = Some true) as Hb by (unfold value in Hx; by destruct (lookupZ _ i) as [[]|]).
    destruct (inv_valid _ _ Hi i Hb) as [Hlt _]. pose proof (lookupZ_Some _ _ _ Hb).
    assert (In i fs) as Hin.
    { apply (NoDup_length_incl (l' := range) Hnd); [rewrite Hlen; unfold lenZ in *; lia|done|].
      apply Hrange. lia. }
    apply list_elem_of_In in Hin. destruct (inv_free _ _ Hi i Hin). congruence.
  - intros Hv. assert (incl range fs) as Hsub'.
    { intros i Hin%Hrange. destruct (checkbit_Ok m fs i Hi) as [b Hb]; [lia|]. destruct b.
      - destruct (inv_valid _ _ Hi i Hb) as (_ & x & Hx). specialize (Hv i). unfold value in Hv.
        by rewrite Hb, Hx in Hv.
      - destruct (decide (i ∈ fs)) as [Hf|Hf]; [by apply list_elem_of_In|]. by destruct (Hres i). }
    assert (List.NoDup range) as Hndr.
    { unfold range. apply NoDup_ListNoDup. apply NoDup_fmap_2; [apply _|apply NoDup_seq]. }
    pose proof (NoDup_incl_length Hndr Hsub'). rewrite Hlen in *. unfold lenZ in *. lia.
Qed.

(** ** Properties *)

(** C38. The life cycle of an index: while [reserveIndex] or [put] can grow the
    array, they return an index that is neither valid nor reserved (the last
    one freed, else the first never used); [set] gives a reserved index its
    element, [get] returns it, [invalidate] makes a valid index reserved again,
    [release] frees a reserved and [remove] a valid index; no operation
    touches the element or the state of another index; and [get],
    [invalidate] and [remove] assert that the index is valid. *)
Theorem managed_array_indices {T} (alloc_ok : Z -> bool) (m : marray T) (fs : list Z) :
  ma_inv m fs -> capacity m < 2 ^ 61 ->
  alloc_ok (if capacity m =? 0 then 1 else capacity m * 2) = true ->
  let to m' fs' (val : Z -> option T) (res : Z -> Prop) :=
    ma_inv m' fs' /\ (forall j, value m' j = val j) /\ (forall j, reserved m' fs' j <-> res j) in
  (exists idx m' fs', reserveIndex alloc_ok m = Ok (idx, m') /\
    value m idx = None /\ ~ reserved m fs idx /\ idx = default (index m) (head fs) /\
    to m' fs' (value m) (fun j => j = idx \/ reserved m fs j)) /\
  (forall x, exists idx m' fs', ma_put alloc_ok x m = Ok (idx, m') /\
    value m idx = None /\ ~ reserved m fs idx /\
    to m' fs' (fun j => if decide (j = idx) then Some x else value m j) (reserved m fs)) /\
  (forall i x, reserved m fs i -> exists m', ma_set i x m = Ok m' /\
    to m' fs (fun j => if decide (j = i) then Some x else value m j)
      (fun j => reserved m fs j /\ j <> i)) /\
  (forall i, reserved m fs i -> exists m', ma_release i m = Ok m' /\
    to m' (i :: fs) (value m) (fun j => reserved m fs j /\ j <> i)) /\
  (forall i x, value m i = Some x -> ma_get i m = Ok x /\
    (exists m', invalidate i m = Ok m' /\
      to m' fs (fun j => if decide (j = i) then None else value m j)
        (fun j => j = i \/ reserved m fs j)) /\
    exists m', ma_remove i m = Ok m' /\
      to m' (i :: fs) (fun j => if decide (j = i) then None else value m j) (reserved m fs)) /\
  (forall i, 0 <= i -> value m i = None -> ma_get i m = Err AssertFailed /\
    invalidate i m = Err AssertFailed /\ ma_remove i m = Err AssertFailed).
Proof.
  intros Hi Hs Ha to. unfold to.
  destruct (reserveIndex_spec alloc_ok m fs Hi Hs Ha)
    as (idx & m1 & fs1 & Hr & Hi1 & Hv1 & Hn & Hnr & Hres1 & Hidx).
  split; [by exists idx, m1, fs1|]. split; [|split; [|split; [|split]]].
  - intros x. destruct (ma_put_spec alloc_ok m fs x Hi Hs Ha) as (i & m2 & fs2 & Hp & Hi2 & Hn2 & Hnr2 & Hv2 & Hres2).
    by exists i, m2, fs2.
  - intros i x Hri. destruct (set_reserved m fs Hi i x Hri) as (m2 & Hset & Hrest). by exists m2.
  - intros i Hri. destruct (release_reserved m fs Hi i Hri) as (m2 & Hrel & Hrest). by exists m2.
  - intros i x Hx. split; [by eapply get_value|]. split.
    + destruct (invalidate_spec m fs i x Hi Hx) as (m2 & Hs2 & Hrest). by exists m2.
    + destruct (ma_remove_spec m fs i x Hi Hx) as (m2 & Hs2 & Hrest). by exists m2.
  - intros i H0 Hn0. unfold ma_get, ma_remove, invalidate.
    rewrite (valid_spec m fs i Hi H0), Hn0. by rewrite bool_decide_false by by intros [].
Qed.

Lemma managed_array_indices_witness :
  exists idx m' fs', ma_put (fun _ => true) 7 (ma_new 2) = Ok (idx, m') /\ ma_inv m' fs' /\
    value m' idx = Some 7.
Proof.
  destruct (managed_array_indices (fun _ => true) (ma_new (T := Z) 2) []) as (_ & H & _).
  - apply ma_new_inv. lia.
  - vm_compute. reflexivity.
  - reflexivity.
  - destruct (H 7) as (idx & m' & fs' & H1 & _ & _ & H2 & H3 & _).
    exists idx, m', fs'. split; [exact H1|]. split; [exact H2|]. rewrite H3.
    destruct (decide (idx = idx)) as [|Hne]; [reflexivity|destruct (Hne eq_refl)].
Defined.

(** [get(idx, elem)] frees the index but leaves its check bit set: the index is
    still valid, and the next [reserveIndex] takes it and asserts *)
Lemma ma_take_stale :
  exists m', (m ← ma_put (fun _ => true) 7 (ma_new (T := Z) 2); ma_take 0 m.2) = Ok (Some 7, m') /\
    valid m' 0 = Ok true /\ reserveIndex (fun _ => true) m' = Err AssertFailed.
Proof. eexists. split; [reflexivity|]. split; reflexivity. Qed.
