(* ===== verification/FrameManager.v ===== *)
(** * Frame management: kernel/FrameManager.h, FrameManager.cc

    [FrameMap<PL>] inherits from [FrameMap<PL+1>], up to the terminator
    [FrameMap<kernelpl+1>]; the model is a list of levels, innermost page size
    first, and the empty list is the terminator.  A level has the set of free
    zeroed frames and the set of free frames that still have to be zeroed.
    [FrameSet] is the interface of the sets; the hierarchical bitmap
    implements it.  Locks are taken per level in the order of the levels, and
    the model runs the operations of one processor: [zeroInternal], which gives
    up its lock while it clears a frame, has that frame in no set meanwhile. *)
From Stdlib Require Import ZArith Lia Bool.
From stdpp Require Import base tactics option numbers list.
From S2P Require Import Prelude Bitmanip Memory Bitmap.

(** ** The interface of the sets of frames *)
Class FrameSet (S : Type) := {
  fs_set : Z -> S -> res S;
  fs_clr : Z -> S -> res S;
  fs_blockset : Z -> S -> res S;
  fs_blockclr : Z -> S -> res S;
  fs_blockfull : Z -> S -> res bool;
  fs_find : S -> res Z;
  fs_findrange : Z -> Z -> S -> res (Z * Z);
  (** the members, the size of the index space, well-formedness *)
  fs_elem : S -> Z -> bool;
  fs_size : S -> Z;
  fs_inv : S -> Prop
}.

(** what the frame maps rely on; [B] is the block size *)
Class FrameSetLaws (B : Z) (S : Type) `{FrameSet S} : Prop := {
  fs_B_pow2 : exists k, 0 <= k < 32 /\ B = 2 ^ k;
  fs_elem_bounds s i : fs_inv s -> fs_elem s i = true -> 0 <= i < fs_size s;
  fs_size_bounds s : fs_inv s -> fs_size s < 2 ^ 64 - 1 /\ fs_size s mod B = 0;
  fs_set_law s i : fs_inv s -> 0 <= i < fs_size s ->
    exists s', fs_set i s = Ok s' /\ fs_inv s' /\ fs_size s' = fs_size s /\
      forall j, 0 <= j -> fs_elem s' j = (j =? i) || fs_elem s j;
  fs_clr_law s i : fs_inv s -> 0 <= i < fs_size s ->
    exists s', fs_clr i s = Ok s' /\ fs_inv s' /\ fs_size s' = fs_size s /\
      forall j, 0 <= j -> fs_elem s' j = negb (j =? i) && fs_elem s j;
  fs_blockset_law s i : fs_inv s -> 0 <= i < fs_size s ->
    exists s', fs_blockset i s = Ok s' /\ fs_inv s' /\ fs_size s' = fs_size s /\
      forall j, 0 <= j -> fs_elem s' j = (j / B =? i / B) || fs_elem s j;
  fs_blockclr_law s i : fs_inv s -> 0 <= i < fs_size s ->
    exists s', fs_blockclr i s = Ok s' /\ fs_inv s' /\ fs_size s' = fs_size s /\
      forall j, 0 <= j -> fs_elem s' j = negb (j / B =? i / B) && fs_elem s j;
  fs_blockfull_law s i : fs_inv s -> 0 <= i < fs_size s ->
    exists b, fs_blockfull i s = Ok b /\
      (b = true <-> forall j, 0 <= j -> j / B = i / B -> fs_elem s j = true);
  fs_find_law s : fs_inv s ->
    exists r, fs_find s = Ok r /\
      ((r = limit 64 /\ forall j, fs_elem s j = false) \/
       (r <> limit 64 /\ fs_elem s r = true))
}.

(** ** FrameMap *)
Section FrameMap.
Context {S : Type} `{FrameSet S} (B : Z).

Record level := mkLevel { frames : S; tozero : S }.
Abbreviation fmap := (list level).

Definition with_frames (f : S) (lv : level) : level := mkLevel f (tozero lv).
Definition with_tozero (t : S) (lv : level) : level := mkLevel (frames lv) t.

(** [releaseInternal], the body of [releaseDirect] *)
Fixpoint releaseDirect (idx : Z) (m : fmap) : res (bool * fmap) :=
  match m with
  | [] => mret (false, [])
  | lv :: up =>
      f ← fs_set idx (frames lv);
      full ← fs_blockfull idx f;
      if (full : bool) then
        '(r, up) ← releaseDirect (idx / B) up;
        if (r : bool) then f ← fs_blockclr idx f; mret (true, with_frames f lv :: up)
        else mret (true, with_frames f lv :: up)
      else mret (true, with_frames f lv :: up)
  end.
Definition releaseInternal : Z -> fmap -> res (bool * fmap) := releaseDirect.

(** the memory that [FrameZero] clears is not part of the state *)
Definition zeroInternal (m : fmap) : res (bool * fmap) :=
  match m with
  | [] => mret (false, [])
  | lv :: up =>
      idx ← fs_find (tozero lv);
      if idx =? limit 64 then mret (false, m) else
      t ← fs_clr idx (tozero lv);
      '(_, m) ← releaseInternal idx (with_tozero t lv :: up);
      mret (true, m)
  end.

(** one level of [release], with the next level's [release] as [rec] *)
Fixpoint release_loop (rec : Z -> Z -> fmap -> res (bool * fmap))
    (n : nat) (idx cnt : Z) (lv : level) (up : fmap) : res (bool * fmap) :=
  if cnt =? 0 then mret (true, lv :: up) else
  match n with
  | O => Err OutOfFuel
  | Datatypes.S n =>
      '(r, up) ← (if aligned 64 idx B && (B <=? cnt)
                  then rec (idx / B) (cnt / B) up else mret (false, up));
      if (r : bool) then
        release_loop rec n (wrap 64 (idx + align_down 64 cnt B))
          (wrap 64 (cnt - align_down 64 cnt B)) lv up
      else
        t ← fs_set idx (tozero lv);
        release_loop rec n (wrap 64 (idx + 1)) (wrap 64 (cnt - 1)) (with_tozero t lv) up
  end.

(** [d] bounds the levels; a level needs at most [cnt] iterations *)
Fixpoint release (d : nat) (idx cnt : Z) (m : fmap) : res (bool * fmap) :=
  match m, d with
  | [], _ => mret (false, [])
  | _, O => Err OutOfFuel
  | lv :: up, Datatypes.S d => release_loop (release d) (Z.to_nat cnt) idx cnt lv up
  end.

(** [zeroLocked(ff) || FrameMap<PL+1>::zero(ff)] *)
Fixpoint zero (m : fmap) : res (bool * fmap) :=
  match m with
  | [] => mret (false, [])
  | lv :: up =>
      '(r, m) ← zeroInternal m;
      if (r : bool) then mret (true, m)
      else '(r, up) ← zero up; mret (r, lv :: up)
  end.

(** the loop of [alloc] zeroes frames until one is free or none is left to
    zero; [rec] is the next level's [alloc] *)
Fixpoint alloc_loop (rec : fmap -> res (Z * fmap)) (n : nat) (lv : level) (up : fmap)
    : res (Z * fmap) :=
  match n with
  | O => Err OutOfFuel
  | Datatypes.S n =>
      idx ← fs_find (frames lv);
      if negb (idx =? limit 64) then
        f ← fs_clr idx (frames lv); mret (idx, with_frames f lv :: up)
      else
        '(z, m) ← zeroInternal (lv :: up);
        if (z : bool) then
          match m with
          | lv :: up => alloc_loop rec n lv up
          | [] => Err NullDeref
          end
        else
          '(i, up) ← rec up;
          let idx := wrap 64 (i * B) in
          f ← fs_blockset idx (frames lv);
          f ← fs_clr idx f;
          mret (idx, with_frames f lv :: up)
  end.

(** an iteration zeroes a frame, so the size of the set bounds the loop *)
Fixpoint alloc (d : nat) (m : fmap) : res (Z * fmap) :=
  match m, d with
  | [], _ => Err Aborted
  | _, O => Err OutOfFuel
  | lv :: up, Datatypes.S d =>
      alloc_loop (alloc d) (Datatypes.S (Z.to_nat (fs_size (tozero lv)))) lv up
  end.

(** [allocRegion]: a run of frames found by [findrange], or a larger frame *)
Fixpoint clr_run (n : nat) (idx : Z) (f : S) : res S :=
  match n with
  | O => mret f
  | Datatypes.S n => f ← fs_clr idx f; clr_run n (wrap 64 (idx + 1)) f
  end.

Fixpoint region_loop (rec : Z -> Z -> fmap -> res (Z * fmap)) (fsize : Z) (n : nat)
    (idx cnt lim range : Z) (lv : level) (up : fmap) : res (Z * fmap) :=
  match n with
  | O => Err OutOfFuel
  | Datatypes.S n =>
      '(idx, c) ← fs_findrange idx (range / fsize) (frames lv);
      '(idx, c, lv, up) ← (if (c =? 0) || (lim <? idx) then
          '(i, up) ← rec (divup 64 cnt B) (lim / B) up;
          let idx := wrap 64 (i * B) in
          f ← fs_blockset idx (frames lv);
          mret (idx, B, with_frames f lv, up)
        else mret (idx, c, lv, up));
      if cnt <=? c then
        f ← clr_run (Z.to_nat cnt) idx (frames lv);
        mret (idx, with_frames f lv :: up)
      else region_loop rec fsize n (wrap 64 (idx + c)) cnt lim range lv up
  end.
Fixpoint allocRegion (d : nat) (PL cnt lim range : Z) (m : fmap) : res (Z * fmap) :=
  match m, d with
  | [], _ => Err Aborted
  | _, O => Err OutOfFuel
  | lv :: up, Datatypes.S d =>
      region_loop (fun c l u => allocRegion d (PL + 1) c l range u) (pagesize PL)
        (Datatypes.S (Z.to_nat (fs_size (frames lv)))) 0 cnt lim range lv up
  end.
End FrameMap.

(** ** The invariant: no frame is free twice *)
Section FrameMap_facts.
Context {S : Type} (B : Z) `{HL : FrameSetLaws B S}.
Abbreviation fmap := (list (level (S := S))).

(** small frame [i] is free: in a set of this level, or part of a larger frame
    that is free on a level above *)
Fixpoint is_free (m : fmap) (i : Z) : bool :=
  match m with
  | [] => false
  | lv :: up => fs_elem (frames lv) i || fs_elem (tozero lv) i || is_free up (i / B)
  end.

Definition fm_size (m : fmap) : Z :=
  match m with [] => 0 | lv :: _ => fs_size (frames lv) end.

Record level_inv (lv : level) (up : fmap) : Prop := {
  li_frames : fs_inv (frames lv);
  li_tozero : fs_inv (tozero lv);
  li_size : fs_size (tozero lv) = fs_size (frames lv);
  li_disj i : fs_elem (frames lv) i = true -> fs_elem (tozero lv) i = false;
  li_up i : fs_elem (frames lv) i || fs_elem (tozero lv) i = true -> is_free up (i / B) = false;
  li_range j : is_free up j = true -> 0 <= j /\ j * B < fs_size (frames lv);
  li_next i : up <> [] -> 0 <= i < fs_size (frames lv) -> 0 <= i / B < fm_size up
}.

Fixpoint fm_inv (m : fmap) : Prop :=
  match m with
  | [] => True
  | lv :: up => level_inv lv up /\ fm_inv up
  end.

Lemma B_pos : 0 < B.
Proof. destruct (fs_B_pow2 (B := B)) as (k & Hk & ->). apply Z.pow_pos_nonneg; lia. Qed.

Lemma block_in i j : j * B <= i < (j + 1) * B <-> i / B = j.
Proof.
  pose proof B_pos. pose proof (Z.div_mod i B ltac:(lia)). pose proof (Z.mod_pos_bound i B ltac:(lia)).
  split; [|intros <-; lia]. intros. symmetry. apply (Z.div_unique_pos _ _ _ (i - B * j)); lia.
Qed.

(** sizes are whole blocks *)
Lemma size_block s i j : fs_inv s -> i / B = j / B -> 0 <= i < fs_size s -> 0 <= j < fs_size s.
Proof.
  intros Hs Hij Hi. pose proof B_pos. destruct (fs_size_bounds (B := B) s Hs) as [_ Hm].
  pose proof (Z.div_mod (fs_size s) B ltac:(lia)) as Hd. rewrite Hm, Z.add_0_r in Hd.
  assert (0 <= j) as Hj.
  { pose proof (Z.div_pos i B ltac:(lia) ltac:(lia)).
    pose proof (Z.mul_div_le j B ltac:(lia)). nia. }
  split; [done|]. assert (i / B < fs_size s / B) by (apply Z.div_lt_upper_bound; lia).
  pose proof (Z.mul_succ_div_gt j B ltac:(lia)).
  assert (B * Z.succ (j / B) <= B * (fs_size s / B)) by (apply Z.mul_le_mono_nonneg_l; lia). lia.
Qed.

Lemma is_free_bounds m i : fm_inv m -> is_free m i = true -> 0 <= i < fm_size m.
Proof.
  destruct m as [|lv up]; [done|]. intros [Hl _] Hf. simpl in Hf. pose proof B_pos.
  apply orb_prop in Hf as [[Hf|Hf]%orb_prop|Hf].
  - by apply (fs_elem_bounds (B := B)) in Hf; [|apply Hl].
  - apply (fs_elem_bounds (B := B)) in Hf; [|apply Hl]. rewrite (li_size _ _ Hl) in Hf. done.
  - apply (li_range _ _ Hl) in Hf as [Hj0 Hr]. simpl.
    apply (size_block _ (i / B * B)); [apply Hl|by rewrite Z.div_mul by lia|nia].
Qed.

(** [m'] is [m] with another set of free frames *)
Definition fm_to (m m' : fmap) (free : Z -> bool) : Prop :=
  fm_inv m' /\ fm_size m' = fm_size m /\ length m' = length m /\
  forall i, 0 <= i -> is_free m' i = free i.

Lemma length_nil (m m' : fmap) : length m' = length m -> m' <> [] -> m <> [].
Proof. by destruct m, m'. Qed.

(** replacing the levels above by ones with fewer free frames *)
Lemma level_inv_up lv up up' :
  level_inv lv up -> fm_inv up' -> fm_size up' = fm_size up -> length up' = length up ->
  (forall j, 0 <= j -> is_free up' j = true -> is_free up j = true) -> level_inv lv up'.
Proof.
  intros Hl Hi Hsz Hlen Hsub. pose proof B_pos.
  assert (forall j, is_free up' j = true -> is_free up j = true) as Hsub'.
  { intros j Hj. apply Hsub; [|done]. apply (is_free_bounds up') in Hj; [lia|done]. }
  split; try apply Hl.
  - intros i Hf. destruct (is_free up' (i / B)) eqn:Hj; [|done].
    apply Hsub' in Hj. by rewrite (li_up _ _ Hl i Hf) in Hj.
  - intros j Hj. by apply (li_range _ _ Hl), Hsub'.
  - intros i Hn Hir. rewrite Hsz. apply (li_next _ _ Hl); [|done]. by apply (length_nil up up').
Qed.

(** changing the sets of a level *)
Lemma level_inv_sets lv lv' up :
  level_inv lv up -> fs_inv (frames lv') -> fs_inv (tozero lv') ->
  fs_size (frames lv') = fs_size (frames lv) -> fs_size (tozero lv') = fs_size (frames lv) ->
  (forall i, 0 <= i -> fs_elem (frames lv') i = true ->
    fs_elem (tozero lv') i = false /\ is_free up (i / B) = false) ->
  (forall i, 0 <= i -> fs_elem (tozero lv') i = true -> is_free up (i / B) = false) ->
  level_inv lv' up.
Proof.
  intros Hl Hf Ht Hsf Hst H1 H2.
  assert (forall i, fs_elem (frames lv') i = true -> 0 <= i) as Hb1
    by (intros i Hx; apply (fs_elem_bounds (B := B)) in Hx; [lia|done]).
  assert (forall i, fs_elem (tozero lv') i = true -> 0 <= i) as Hb2
    by (intros i Hx; apply (fs_elem_bounds (B := B)) in Hx; [lia|done]).
  split; try done.
  - by rewrite Hst, Hsf.
  - intros i Hx. apply H1; [by apply Hb1|done].
  - intros i [Hx|Hx]%orb_prop; [apply H1|apply H2]; auto.
  - intros j Hj. rewrite Hsf. by apply (li_range _ _ Hl).
  - rewrite Hsf. apply (li_next _ _ Hl).
Qed.

Lemma neg_not_free m i : fm_inv m -> i < 0 -> is_free m i = false.
Proof.
  intros Hi Hn. destruct (is_free m i) eqn:Hf; [|done]. apply is_free_bounds in Hf; [lia|done].
Qed.

(** [releaseDirect] frees one frame; a full block moves to the next level *)
Lemma releaseDirect_spec m i :
  m <> [] -> fm_inv m -> 0 <= i < fm_size m -> is_free m i = false ->
  exists m', releaseDirect B i m = Ok (true, m') /\ fm_to m m' (fun j => (j =? i) || is_free m j).
Proof.
  revert i. induction m as [|lv up IH]; [done|]. intros i _ [Hl Hiu] Hr Hnf. simpl in Hr.
  cbn [releaseDirect]. pose proof B_pos as HB.
  destruct (fs_set_law (B := B) (frames lv) i (li_frames _ _ Hl) Hr) as (f & -> & Hf & Hsf & Hef).
  cbn [mbind res_bind].
  destruct (fs_blockfull_law (B := B) f i Hf ltac:(by rewrite Hsf)) as (full & -> & Hfull).
  cbn [mbind res_bind]. simpl in Hnf.
  apply orb_false_elim in Hnf as [[Hnf1 Hnf2]%orb_false_elim Hnf3].
  assert (level_inv (with_frames f lv) up) as Hl1.
  { apply (level_inv_sets lv); simpl; try done.
    - apply Hl.
    - by rewrite (li_size _ _ Hl).
    - intros j Hj Hx. rewrite Hef in Hx by done. destruct (Z.eqb_spec j i) as [->|].
      + done.
      + split; [by apply (li_disj _ _ Hl)|]. apply (li_up _ _ Hl). simpl in Hx. by rewrite Hx.
    - intros j Hj Hx. apply (li_up _ _ Hl). by rewrite Hx, orb_true_r. }
  assert (fm_to (lv :: up) (with_frames f lv :: up) (fun j => (j =? i) || is_free (lv :: up) j)) as Hto1.
  { split; [done|]. split; [done|]. split; [done|]. intros j Hj. simpl. rewrite Hef by done.
    by rewrite !orb_assoc. }
  destruct full; [|by eexists].
  destruct up as [|lv2 up].
  { simpl. eexists. split; [done|]. done. }
  set (upm := lv2 :: up) in *.
  destruct (IH (i / B)) as (up' & Hrel & Hto); [done|done|by apply (li_next _ _ Hl)|done|].
  rewrite Hrel. cbn [mbind res_bind].
  destruct (fs_blockclr_law (B := B) f i Hf ltac:(by rewrite Hsf)) as (f' & -> & Hf' & Hsf' & Hef').
  cbn [mbind res_bind]. eexists. split; [done|].
  destruct Hto as (Hiu' & Hszu & Hlenu & Hfree).
  assert (forall j, 0 <= j -> j / B = i / B -> fs_elem f j = true) as Hall by (by apply Hfull).
  assert (forall j, 0 <= j -> fs_elem f' j = negb (j / B =? i / B) && fs_elem f j) as Hef2 by done.
  split; [split; [|done]|split; [simpl; by rewrite Hsf', Hsf|split; [simpl; by rewrite Hlenu|]]].
  - split; simpl; try done; try apply Hl.
    + by rewrite Hsf', Hsf, (li_size _ _ Hl).
    + intros j Hx. destruct (Z.lt_ge_cases j 0) as [|Hj].
      { apply (fs_elem_bounds (B := B)) in Hx; [lia|done]. }
      rewrite Hef2 in Hx by done. apply andb_prop in Hx as [_ Hx].
      by apply (li_disj _ _ Hl1).
    + intros j Hx. destruct (Z.lt_ge_cases j 0) as [|Hj].
      { apply orb_prop in Hx as [Hx|Hx]; apply (fs_elem_bounds (B := B)) in Hx; try lia; [done|apply Hl]. }
      pose proof (Z.div_pos j B Hj HB). rewrite Hfree by done.
      destruct (Z.eqb_spec (j / B) (i / B)) as [He|Hne].
      * exfalso. rewrite Hef2, He, Z.eqb_refl in Hx by done. simpl in Hx.
        assert (fs_elem f j = true) as Hfj by auto.
        pose proof (li_disj _ _ Hl1 j Hfj) as Hd. simpl in Hd. congruence.
      * simpl. apply (li_up _ _ Hl1). simpl. rewrite Hef2 in Hx by done.
        apply Z.eqb_neq in Hne. rewrite Hne in Hx. done.
    + intros j Hj. rewrite Hsf', Hsf. destruct (Z.lt_ge_cases j 0) as [|Hj0].
      { by rewrite neg_not_free in Hj. }
      rewrite Hfree in Hj by done. apply orb_prop in Hj as [->%Z.eqb_eq|Hj].
      * pose proof (Z.mul_div_le i B HB). split; [done|lia].
      * by apply (li_range _ _ Hl).
    + intros j _ Hjr. rewrite Hszu. rewrite Hsf', Hsf in Hjr. by apply (li_next _ _ Hl).
  - intros j Hj. change (fs_elem f' j || fs_elem (tozero lv) j || is_free up' (j / B) =
      (j =? i) || (fs_elem (frames lv) j || fs_elem (tozero lv) j || is_free upm (j / B))).
    pose proof (Z.div_pos j B Hj HB). rewrite Hef2, Hfree by done.
    destruct (Z.eqb_spec (j / B) (i / B)) as [He|Hne].
    + rewrite orb_true_l, orb_true_r. simpl. symmetry.
      pose proof (Hall j Hj He) as Hx. rewrite Hef in Hx by done.
      apply orb_prop in Hx as [-> | ->]; [done|]. by rewrite orb_true_r.
    + simpl. rewrite Hef by done. by rewrite !orb_assoc.
Qed.

Lemma releaseDirect_head i lv up r m' :
  releaseDirect B i (lv :: up) = Ok (r, m') -> exists f up', m' = with_frames f lv :: up'.
Proof.
  cbn [releaseDirect]. intros Hr.
  apply bind_Ok in Hr as (f & _ & Hr). apply bind_Ok in Hr as ([] & _ & Hr).
  - apply bind_Ok in Hr as ([[] up'] & _ & Hr); [apply bind_Ok in Hr as (f' & _ & Hr)|].
    all: injection Hr as <- <-; eauto.
  - injection Hr as <- <-. eauto.
Qed.

(** [zeroInternal] moves a frame from one set to the other *)
Lemma zeroInternal_spec lv up :
  fm_inv (lv :: up) ->
  (zeroInternal B (lv :: up) = Ok (false, lv :: up) /\ forall j, fs_elem (tozero lv) j = false) \/
  (exists lv' up' i, zeroInternal B (lv :: up) = Ok (true, lv' :: up') /\
    fm_to (lv :: up) (lv' :: up') (is_free (lv :: up)) /\
    0 <= i < fs_size (tozero lv) /\ fs_elem (tozero lv) i = true /\
    fs_size (tozero lv') = fs_size (tozero lv) /\
    forall j, 0 <= j -> fs_elem (tozero lv') j = negb (j =? i) && fs_elem (tozero lv) j).
Proof.
  intros Hinv. pose proof Hinv as [Hl Hiu]. cbn [zeroInternal].
  destruct (fs_find_law (B := B) (tozero lv) (li_tozero _ _ Hl)) as (i & -> & Hi).
  cbn [mbind res_bind]. destruct Hi as [[-> Hnone]|[Hne Hel]]; [by left|right].
  destruct (Z.eqb_spec i (limit 64)); [done|].
  pose proof (fs_elem_bounds (B := B) _ _ (li_tozero _ _ Hl) Hel) as Hr.
  destruct (fs_clr_law (B := B) (tozero lv) i (li_tozero _ _ Hl) Hr) as (t & -> & Ht & Hst & Het).
  cbn [mbind res_bind]. set (lv1 := with_tozero t lv).
  assert (level_inv lv1 up) as Hl1.
  { apply (level_inv_sets lv); simpl; try done; try apply Hl.
    - by rewrite Hst, (li_size _ _ Hl).
    - intros j Hj Hx. rewrite Het, (li_disj _ _ Hl j Hx), andb_false_r by done.
      split; [done|]. apply (li_up _ _ Hl). by rewrite Hx.
    - intros j Hj Hx. rewrite Het in Hx by done. apply andb_prop in Hx as [_ Hx].
      apply (li_up _ _ Hl). by rewrite Hx, orb_true_r. }
  assert (fs_elem (frames lv) i = false) as Hfi.
  { destruct (fs_elem (frames lv) i) eqn:Hx; [|done]. by rewrite (li_disj _ _ Hl i Hx) in Hel. }
  assert (is_free up (i / B) = false) as Hui by (apply (li_up _ _ Hl); by rewrite Hel, orb_true_r).
  assert (is_free (lv1 :: up) i = false) as Hfree1.
  { simpl. rewrite Het, Z.eqb_refl, Hfi, Hui by lia. done. }
  rewrite (li_size _ _ Hl) in Hr.
  destruct (releaseDirect_spec (lv1 :: up) i) as (m' & Hrel & Hinv' & Hsz' & Hlen' & Hfr');
    [done|done|done|done|].
  destruct (releaseDirect_head _ _ _ _ _ Hrel) as (f & up' & ->).
  unfold releaseInternal. rewrite Hrel. cbn [mbind res_bind].
  eexists _, _, i. split; [done|]. split.
  - split; [done|]. split; [done|]. split; [done|]. intros j Hj. rewrite Hfr' by done. simpl.
    rewrite Het by done. destruct (Z.eqb_spec j i) as [->|]; simpl; [|done].
    by rewrite Hel, orb_true_r.
  - rewrite (li_size _ _ Hl). simpl. rewrite Hst, (li_size _ _ Hl). done.
Qed.

(** the number of members below [n] *)
Fixpoint count (f : Z -> bool) (n : nat) : nat :=
  match n with
  | O => O
  | Datatypes.S n => ((if f (Z.of_nat n) then 1 else 0) + count f n)%nat
  end.

Lemma count_le f n : (count f n <= n)%nat.
Proof. induction n as [|n IH]; simpl; [done|]. destruct (f _); lia. Qed.

Lemma count_ext f g n :
  (forall j, 0 <= j < Z.of_nat n -> f j = g j) -> count f n = count g n.
Proof.
  induction n as [|n IH]; intros Hf; [done|]. simpl. rewrite Hf by lia. f_equal.
  apply IH. intros. apply Hf. lia.
Qed.

Lemma count_clr f g n i :
  0 <= i < Z.of_nat n -> f i = true -> (forall j, 0 <= j -> g j = negb (j =? i) && f j) ->
  count f n = Datatypes.S (count g n).
Proof.
  intros Hi Hfi Hg. induction n as [|n IH]; [lia|]. simpl. rewrite Hg by lia.
  destruct (Z.eqb_spec (Z.of_nat n) i) as [He|Hne]; simpl.
  - rewrite He, Hfi. simpl. f_equal. apply count_ext. intros j Hj. rewrite Hg by lia.
    destruct (Z.eqb_spec j i); [lia|done].
  - rewrite IH by lia. lia.
Qed.

Definition alloc_ok (m : fmap) (r : res (Z * fmap)) : Prop :=
  (exists idx m', r = Ok (idx, m') /\ 0 <= idx < fm_size m /\ is_free m idx = true /\
    fm_to m m' (fun j => negb (j =? idx) && is_free m j)) \/
  ((forall j, is_free m j = false) /\ r = Err Aborted).

Lemma alloc_ok_to m m1 r :
  fm_inv m -> fm_to m m1 (is_free m) -> alloc_ok m1 r -> alloc_ok m r.
Proof.
  intros Hinv (Hi1 & Hs1 & Hl1 & Hf1) [(idx & m' & -> & Hr & Hfr & Hi' & Hs' & Hl' & Hf')|[Hno ->]].
  - left. exists idx, m'. rewrite Hf1 in Hfr by lia. rewrite Hs1 in Hr.
    do 4 (split; [done|]). split; [lia|]. split; [lia|].
    intros j Hj. by rewrite Hf', Hf1.
  - right. split; [|done]. intros j. destruct (Z.lt_ge_cases j 0); [by apply neg_not_free|].
    by rewrite <- Hf1.
Qed.

(** the end of [alloc]: a free frame of this level is taken *)
Lemma alloc_take lv up idx :
  fm_inv (lv :: up) -> fs_elem (frames lv) idx = true ->
  exists f, fs_clr idx (frames lv) = Ok f /\
    fm_to (lv :: up) (with_frames f lv :: up) (fun j => negb (j =? idx) && is_free (lv :: up) j).
Proof.
  intros [Hl Hiu] Hel. pose proof (fs_elem_bounds (B := B) _ _ (li_frames _ _ Hl) Hel) as Hr.
  destruct (fs_clr_law (B := B) (frames lv) idx (li_frames _ _ Hl) Hr) as (f & -> & Hf & Hsf & Hef).
  exists f. split; [done|]. split; [split; [|done]|split; [done|split; [done|]]].
  - apply (level_inv_sets lv); simpl; try done; try apply Hl.
    + intros j Hj Hx. rewrite Hef in Hx by done. apply andb_prop in Hx as [_ Hx].
      split; [by apply (li_disj _ _ Hl)|]. apply (li_up _ _ Hl). by rewrite Hx.
    + intros j Hj Hx. apply (li_up _ _ Hl). by rewrite Hx, orb_true_r.
  - intros j Hj. simpl. rewrite Hef by done. destruct (Z.eqb_spec j idx) as [->|]; simpl; [|done].
    rewrite (li_disj _ _ Hl idx Hel). apply (li_up _ _ Hl). by rewrite Hel.
Qed.

(** the end of [alloc]: a larger frame [i] was allocated and is split *)
Lemma alloc_split lv up up' i :
  fm_inv (lv :: up) -> (forall j, fs_elem (frames lv) j = false) ->
  0 <= i -> is_free up i = true -> fm_to up up' (fun j => negb (j =? i) && is_free up j) ->
  exists f1 f2, fs_blockset (wrap 64 (i * B)) (frames lv) = Ok f1 /\ fs_clr (wrap 64 (i * B)) f1 = Ok f2 /\
    0 <= wrap 64 (i * B) < fm_size (lv :: up) /\ is_free (lv :: up) (wrap 64 (i * B)) = true /\
    fm_to (lv :: up) (with_frames f2 lv :: up')
      (fun j => negb (j =? wrap 64 (i * B)) && is_free (lv :: up) j).
Proof.
  intros [Hl Hiu] Hnone Hi Hfi (Hi' & Hs' & Hlen & Hf'). pose proof B_pos as HB.
  destruct (li_range _ _ Hl i Hfi) as [_ Hlt].
  destruct (fs_size_bounds (B := B) _ (li_frames _ _ Hl)) as [Hsz _].
  pose proof (Z.mul_nonneg_nonneg i B Hi ltac:(lia)).
  rewrite wrap_small by lia. set (idx := i * B) in *.
  assert (idx / B = i) as Hidx by (unfold idx; apply Z.div_mul; lia).
  destruct (fs_blockset_law (B := B) (frames lv) idx (li_frames _ _ Hl) ltac:(lia))
    as (f1 & -> & Hf1 & Hs1 & He1).
  destruct (fs_clr_law (B := B) f1 idx Hf1 ltac:(lia)) as (f2 & H2 & Hf2 & Hs2 & He2).
  exists f1, f2. split; [done|]. split; [done|]. split; [simpl; lia|].
  split; [simpl; by rewrite Hidx, Hfi, orb_true_r|].
  assert (forall j, 0 <= j -> fs_elem f2 j = negb (j =? idx) && (j / B =? i)) as Hef2.
  { intros j Hj. by rewrite He2, He1, Hnone, Hidx, orb_false_r by done. }
  assert (forall j, is_free up j = true -> fs_elem (tozero lv) j = true -> True) by done.
  assert (forall j, j / B = i -> fs_elem (tozero lv) j = false) as Htz.
  { intros j Hj. destruct (fs_elem (tozero lv) j) eqn:Hx; [|done].
    pose proof (li_up _ _ Hl j ltac:(by rewrite Hx, orb_true_r)) as Hc. rewrite Hj in Hc. congruence. }
  split; [split; [|done]|split; [simpl; lia|split; [simpl; by rewrite Hlen|]]].
  - assert (level_inv lv up') as Hl'.
    { apply (level_inv_up lv up); try done. intros j Hj Hx. rewrite Hf' in Hx by done.
      by apply andb_prop in Hx as [_ Hx]. }
    apply (level_inv_sets lv); simpl; try done; try apply Hl; try lia.
    + intros j Hj Hx. rewrite Hef2 in Hx by done. apply andb_prop in Hx as [_ Hx%Z.eqb_eq].
      split; [by apply Htz|]. rewrite Hx, Hf', Z.eqb_refl by done. done.
    + intros j Hj Hx. apply (li_up _ _ Hl'). by rewrite Hx, orb_true_r.
  - intros j Hj. simpl. rewrite Hef2, Hnone by done. pose proof (Z.div_pos j B Hj HB).
    rewrite Hf' by done. destruct (Z.eqb_spec (j / B) i) as [He|Hne]; simpl.
    + rewrite He, Hfi, (Htz j He). by destruct (j =? idx).
    + rewrite andb_false_r. simpl. destruct (Z.eqb_spec j idx) as [->|]; [done|]. done.
Qed.

Lemma alloc_loop_spec rec n lv up :
  fm_inv (lv :: up) ->
  (count (fs_elem (tozero lv)) (Z.to_nat (fs_size (tozero lv))) < n)%nat ->
  (forall up', fm_inv up' -> length up' = length up -> alloc_ok up' (rec up')) ->
  alloc_ok (lv :: up) (alloc_loop B rec n lv up).
Proof.
  revert lv up. induction n as [|n IH]; intros lv up Hinv Hn Hrec; [lia|]. cbn [alloc_loop].
  pose proof Hinv as [Hl Hiu].
  destruct (fs_find_law (B := B) (frames lv) (li_frames _ _ Hl)) as (idx & -> & Hidx).
  cbn [mbind res_bind]. destruct Hidx as [[-> Hnone]|[Hne Hel]].
  - rewrite Z.eqb_refl. cbn [negb].
    destruct (zeroInternal_spec lv up Hinv) as [[-> Hnt]|(lv' & up' & i & -> & Hto & Hi & Hti & Hst & Het)];
      cbn [mbind res_bind].
    + destruct (Hrec up Hiu eq_refl) as [(i & up' & -> & Hir & Hfi & Hto)|[Hno ->]]; cbn [mbind res_bind].
      * destruct (alloc_split lv up up' i Hinv Hnone ltac:(lia) Hfi Hto)
          as (f1 & f2 & -> & H2 & Hr & Hfr & Hto'). cbn [mbind res_bind]. rewrite H2.
        left. eexists _, _. split; [reflexivity|]. done.
      * right. split; [|done]. intros j. simpl. by rewrite Hnone, Hnt, Hno.
    + pose proof Hto as (Hinv' & Hsz & Hlen & Hf). apply (alloc_ok_to _ (lv' :: up')); [done|done|].
      apply IH; [done| |].
      * rewrite Hst. rewrite (count_clr _ (fs_elem (tozero lv')) _ i) in Hn; [lia|lia|done|done].
      * intros up2 Hi2 Hl2. apply Hrec; [done|]. simpl in Hlen. lia.
  - destruct (Z.eqb_spec idx (limit 64)); [done|]. cbn [negb].
    destruct (alloc_take lv up idx Hinv Hel) as (f & -> & Hto). cbn [mbind res_bind].
    left. exists idx, (with_frames f lv :: up). split; [done|].
    split; [by apply (fs_elem_bounds (B := B)); [apply Hl|]|].
    split; [simpl; by rewrite Hel|done].
Qed.

(** [alloc] returns a free frame as long as there is one on any level, and it
    is free no more *)
Lemma alloc_spec d m : (length m <= d)%nat -> fm_inv m -> alloc_ok m (alloc B d m).
Proof.
  revert m. induction d as [|d IH]; intros m Hd Hinv.
  - destruct m; [by right|simpl in Hd; lia].
  - destruct m as [|lv up]; [by right|]. cbn [alloc]. apply alloc_loop_spec; [done| |].
    + pose proof (count_le (fs_elem (tozero lv)) (Z.to_nat (fs_size (tozero lv)))). lia.
    + intros up' Hi' Hl'. apply IH; [simpl in Hd; lia|done].
Qed.

Definition in_range (i c j : Z) : bool := (i <=? j) && (j <? i + c).

Lemma aligned_B idx : is_word 64 idx -> aligned 64 idx B = (idx mod B =? 0).
Proof. destruct (fs_B_pow2 (B := B)) as (k & Hk & ->). intros. apply aligned_spec. lia. Qed.

Lemma align_down_B x : is_word 64 x -> align_down 64 x B = x / B * B.
Proof. destruct (fs_B_pow2 (B := B)) as (k & Hk & ->). intros. apply align_down_eq; [lia|done]. Qed.

(** blocks that become free on the next level *)
Lemma release_up lv up up' i c :
  fm_inv (lv :: up) -> up <> [] -> 0 <= i -> fm_to up up' (fun j => in_range i c j || is_free up j) ->
  (forall j, in_range i c j = true -> j * B < fs_size (frames lv)) ->
  (forall s, 0 <= s -> in_range i c (s / B) = true -> is_free (lv :: up) s = false) ->
  fm_to (lv :: up) (lv :: up') (fun s => in_range i c (s / B) || is_free (lv :: up) s).
Proof.
  intros [Hl Hiu] Hne Hi (Hi' & Hs' & Hlen & Hf') Hsz Hno. pose proof B_pos as HB.
  split; [split; [|done]|split; [done|split; [simpl; by rewrite Hlen|]]].
  - split; try apply Hl.
    + intros s Hs. assert (0 <= s) as Hs0.
      { apply orb_prop in Hs as [Hs|Hs]; apply (fs_elem_bounds (B := B)) in Hs; try lia; apply Hl. }
      rewrite Hf' by (by apply Z.div_pos). rewrite (li_up _ _ Hl s Hs), orb_false_r.
      destruct (in_range i c (s / B)) eqn:Hr; [|done]. specialize (Hno s Hs0 Hr). simpl in Hno.
      by rewrite Hs in Hno.
    + intros j Hj. destruct (Z.lt_ge_cases j 0); [by rewrite neg_not_free in Hj|].
      rewrite Hf' in Hj by done. apply orb_prop in Hj as [Hj|Hj].
      * split; [done|by apply Hsz].
      * by apply (li_range _ _ Hl).
    + intros s _ Hs. rewrite Hs'. by apply (li_next _ _ Hl).
  - intros s Hs. simpl. rewrite Hf' by (by apply Z.div_pos).
    destruct (in_range i c (s / B)); simpl; [by rewrite orb_true_r|done].
Qed.

(** one frame that becomes free on this level, still to be zeroed *)
Lemma release_one lv up i :
  fm_inv (lv :: up) -> 0 <= i < fm_size (lv :: up) -> is_free (lv :: up) i = false ->
  exists t, fs_set i (tozero lv) = Ok t /\
    fm_to (lv :: up) (with_tozero t lv :: up) (fun j => (j =? i) || is_free (lv :: up) j).
Proof.
  intros [Hl Hiu] Hr Hno. simpl in Hr, Hno. rewrite <- (li_size _ _ Hl) in Hr.
  destruct (fs_set_law (B := B) (tozero lv) i (li_tozero _ _ Hl) Hr) as (t & -> & Ht & Hst & Het).
  apply orb_false_elim in Hno as [[Hno1 Hno2]%orb_false_elim Hno3].
  exists t. split; [done|]. split; [split; [|done]|split; [done|split; [done|]]].
  - apply (level_inv_sets lv); simpl; try done; try apply Hl.
    + by rewrite Hst, (li_size _ _ Hl).
    + intros j Hj Hx. rewrite Het by done. split.
      * rewrite (li_disj _ _ Hl j Hx), orb_false_r. destruct (Z.eqb_spec j i); congruence.
      * apply (li_up _ _ Hl). by rewrite Hx.
    + intros j Hj Hx. rewrite Het in Hx by done. apply orb_prop in Hx as [->%Z.eqb_eq|Hx]; [done|].
      apply (li_up _ _ Hl). by rewrite Hx, orb_true_r.
  - intros j Hj. simpl. rewrite Het by done.
    destruct (fs_elem (frames lv) j), (j =? i), (fs_elem (tozero lv) j); done.
Qed.

Definition release_pre (m : fmap) (i c : Z) : Prop :=
  0 <= i /\ 0 <= c /\ (c = 0 \/ i + c <= fm_size m) /\
  forall j, in_range i c j = true -> is_free m j = false.

Lemma fm_to_trans m1 m2 m3 f g : fm_to m1 m2 f -> fm_to m2 m3 g -> fm_to m1 m3 g.
Proof. intros (_ & Hs & Hl & _) (Hi' & Hs' & Hl' & Hf'). split; [done|]. split; [lia|]. split; [lia|done]. Qed.

Lemma fm_to_ext m m' f g : fm_to m m' f -> (forall i, 0 <= i -> f i = g i) -> fm_to m m' g.
Proof. intros (Hi & Hs & Hl & Hf) Hfg. repeat (split; [done|]). intros i H0. by rewrite Hf, Hfg. Qed.

Lemma div_in_range i c s : 0 <= s -> i mod B = 0 -> in_range (i / B) c (s / B) = in_range i (c * B) s.
Proof.
  intros Hs Hm. pose proof B_pos as HB. pose proof (Z.div_mod i B ltac:(lia)).
  pose proof (Z.div_mod s B ltac:(lia)). pose proof (Z.mod_pos_bound s B HB).
  unfold in_range. apply eq_true_iff_eq. rewrite !andb_true_iff, !Z.leb_le, !Z.ltb_lt. nia.
Qed.

Lemma release_loop_spec rec n i c lv up :
  fm_inv (lv :: up) -> release_pre (lv :: up) i c -> c <= Z.of_nat n -> fm_size (lv :: up) < 2 ^ 64 ->
  (forall up' j k, fm_inv up' -> length up' = length up ->
    match up' with
    | [] => rec j k up' = Ok (false, [])
    | _ => release_pre up' j k -> exists up'', rec j k up' = Ok (true, up'') /\
  fm_to up' up'' (fun x => in_range j k x || is_free up' x)
    end) ->
  exists m', release_loop B rec n i c lv up = Ok (true, m') /\
  fm_to (lv :: up) m' (fun j => in_range i c j || is_free (lv :: up) j).
Proof.
  revert i c lv up. induction n as [|n IH]; intros i c lv up Hinv (H0 & Hc & Hsz & Hno) Hn Hw Hrec.
  - replace c with 0 in * by lia. exists (lv :: up). split; [done|]. split; [done|]. split; [done|].
    split; [done|]. intros j Hj. unfold in_range. destruct (Z.leb_spec i j), (Z.ltb_spec j (i + 0)); done || lia.
  - cbn [release_loop]. destruct (Z.eqb_spec c 0) as [->|Hc0].
    { exists (lv :: up). split; [done|]. split; [done|]. split; [done|].
      split; [done|]. intros j Hj. unfold in_range. destruct (Z.leb_spec i j), (Z.ltb_spec j (i + 0)); done || lia. }
    pose proof B_pos as HB. pose proof Hinv as [Hl Hiu].
    rewrite aligned_B, align_down_B by (split; lia).
    assert (forall lv' up', length up' = length up ->
      fm_to (lv :: up) (lv' :: up') (fun j => (j =? i) || is_free (lv :: up) j) ->
      exists m', release_loop B rec n (i + 1) (c - 1) lv' up' = Ok (true, m') /\
  fm_to (lv :: up) m' (fun j => in_range i c j || is_free (lv :: up) j)) as Hone.
    { intros lv' up' Hlen Hto. pose proof Hto as (Hi' & Hs' & _ & Hf').
      destruct (IH (i + 1) (c - 1) lv' up') as (m' & Hm & Hto2); [done| |lia|lia| |].
      - split; [lia|]. split; [lia|]. split; [right; lia|]. intros j Hj. unfold in_range in *.
        rewrite Hf' by lia. rewrite Hno by lia. destruct (Z.eqb_spec j i); [lia|done].
      - intros up2 j k Hi2 Hl2. apply Hrec; [done|congruence].
      - exists m'. split; [done|]. eapply fm_to_ext; [eapply fm_to_trans; [exact Hto|exact Hto2]|].
        intros j Hj. cbn beta. rewrite Hf' by done. rewrite orb_assoc. f_equal. unfold in_range.
        apply eq_true_iff_eq. rewrite orb_true_iff, !andb_true_iff, !Z.leb_le, !Z.ltb_lt, Z.eqb_eq. lia. }
    assert (exists m', (t ← fs_set i (tozero lv);
      release_loop B rec n (wrap 64 (i + 1)) (wrap 64 (c - 1)) (with_tozero t lv) up) = Ok (true, m') /\
  fm_to (lv :: up) m' (fun j => in_range i c j || is_free (lv :: up) j)) as Hsmall.
    { destruct (release_one lv up i Hinv) as (t & -> & Hto); [lia|apply Hno; unfold in_range; lia|].
      cbn [mbind res_bind]. rewrite !wrap_small by lia. by apply Hone. }
    destruct (Z.eqb_spec (i mod B) 0) as [Hal|]; [|exact Hsmall].
    destruct (Z.leb_spec B c) as [HBc|]; [|exact Hsmall]. cbn [andb].
    pose proof (Z.div_mod i B ltac:(lia)). pose proof (Z.mul_div_le c B HB).
    pose proof (Z.div_pos i B H0 HB). assert (1 <= c / B) by (apply Z.div_le_lower_bound; lia).
    pose proof (Hrec up (i / B) (c / B) Hiu eq_refl) as Hup.
    assert (up <> [] -> release_pre up (i / B) (c / B)) as Hpre.
    { intros Hne. split; [lia|]. split; [lia|]. split.
      - right. destruct Hsz as [|Hsz]; [lia|]. simpl in Hsz.
        pose proof (li_next _ _ Hl ((i / B + c / B - 1) * B) Hne ltac:(nia)) as Hb.
        rewrite Z.div_mul in Hb by lia. lia.
      - intros j Hj. assert (in_range i c (j * B) = true) as Hin by (unfold in_range in *; nia).
        specialize (Hno _ Hin). simpl in Hno. rewrite Z.div_mul in Hno by lia.
        by apply orb_false_elim in Hno as [_ Hno]. }
    destruct up as [|lv2 up]; [rewrite Hup; exact Hsmall|]. set (upm := lv2 :: up) in *.
    destruct Hup as (up' & -> & Htou); [by apply Hpre|]. cbn [mbind res_bind].
    pose proof (release_up lv upm up' (i / B) (c / B) Hinv ltac:(done) ltac:(lia) Htou) as Hto.
    assert (forall s, 0 <= s -> in_range (i / B) (c / B) (s / B) = in_range i (c / B * B) s) as Hdiv
      by (intros; by apply div_in_range).
    assert (fm_to (lv :: upm) (lv :: up') (fun s => in_range i (c / B * B) s || is_free (lv :: upm) s))
      as Hto1.
    { eapply fm_to_ext; [apply Hto|].
      - intros j Hj. destruct Hsz as [|Hsz]; [lia|]. simpl in Hsz. unfold in_range in Hj. nia.
      - intros s Hs Hr. rewrite Hdiv in Hr by done. apply Hno. unfold in_range in *. lia.
      - intros s Hs. simpl. by rewrite Hdiv. }
    rewrite !wrap_small by lia. pose proof Hto1 as (Hi1 & Hs1 & Hl1 & Hf1).
    destruct (IH (i + c / B * B) (c - c / B * B) lv up') as (m' & Hm & Hto2); [done| |lia|lia| |].
    + split; [lia|]. split; [lia|]. split; [right; lia|]. intros j Hj. unfold in_range in *.
      rewrite Hf1 by lia. rewrite Hno by lia. rewrite orb_false_r. lia.
    + intros up2 j k Hi2 Hl2. apply Hrec; [done|]. unfold upm in *. simpl in *. lia.
    + exists m'. split; [done|]. eapply fm_to_ext; [eapply fm_to_trans; [exact Hto1|exact Hto2]|].
      intros j Hj. cbn beta. rewrite Hf1 by done. rewrite orb_assoc. f_equal. unfold in_range.
      apply eq_true_iff_eq. rewrite orb_true_iff, !andb_true_iff, !Z.leb_le, !Z.ltb_lt. lia.
Qed.

(** [release] makes exactly the frames [idx .. idx+cnt) free *)
Lemma release_spec d m i c :
  (length m <= d)%nat -> fm_inv m -> m <> [] -> fm_size m < 2 ^ 64 -> release_pre m i c ->
  exists m', release B d i c m = Ok (true, m') /\
    fm_to m m' (fun j => in_range i c j || is_free m j).
Proof.
  revert m i c. induction d as [|d IH]; intros m i c Hd Hinv Hne Hw Hpre.
  - destruct m; [done|simpl in Hd; lia].
  - destruct m as [|lv up]; [done|]. cbn [release]. simpl in Hd.
    apply release_loop_spec; [done|done|destruct Hpre; lia|done|].
    intros up' j k Hi' Hl'. destruct up' as [|lv2 up']; [by destruct d|].
    intros Hp. apply IH; [simpl in *; lia|done|done| |done].
    destruct Hi' as [Hl2 _]. destruct (fs_size_bounds (B := B) _ (li_frames _ _ Hl2)). simpl. lia.
Qed.

(** [zero] changes no free set *)
Lemma zero_spec m :
  fm_inv m -> exists b m', zero B m = Ok (b, m') /\ fm_to m m' (is_free m).
Proof.
  induction m as [|lv up IH]; intros Hinv; [by exists false, []|]. cbn [zero].
  destruct (zeroInternal_spec lv up Hinv) as [[-> _]|(lv' & up' & i & -> & Hto & _)];
    cbn [mbind res_bind].
  - destruct Hinv as [Hl Hiu]. destruct (IH Hiu) as (b & up' & -> & Hi' & Hs' & Hl' & Hf').
    cbn [mbind res_bind]. exists b, (lv :: up'). split; [done|].
    split; [split; [|done]|split; [done|split; [simpl; by rewrite Hl'|]]].
    + apply (level_inv_up lv up); try done. intros j Hj. by rewrite Hf'.
    + intros j Hj. simpl. pose proof B_pos. rewrite Hf' by (apply Z.div_pos; lia). done.
  - eexists _, _. split; [reflexivity|done].
Qed.
End FrameMap_facts.

(** ** The hierarchical bitmap implements the interface *)
Record sized_bitmap := mkSB { sb_W : Z; sb_bits : hbitmap }.

Definition sb_lift (f : Z -> hbitmap -> res hbitmap) (s : sized_bitmap) : res sized_bitmap :=
  h ← f (sb_W s) (sb_bits s); mret (mkSB (sb_W s) h).

#[export] Instance sized_bitmap_FrameSet : FrameSet sized_bitmap := {
  fs_set i := sb_lift (fun w => hb_set ptentries w i 0);
  fs_clr i := sb_lift (fun w => hb_clr ptentries w i 0);
  fs_blockset i := sb_lift (fun w => hb_blockset ptentries w i);
  fs_blockclr i := sb_lift (fun w => hb_blockclr ptentries w i);
  fs_blockfull i s := hb_blockfull ptentries i (sb_bits s);
  fs_find s := hb_find ptentries (sb_W s) true (sb_bits s);
  fs_findrange i max s := hb_findrange ptentries (sb_W s) i max (sb_bits s);
  fs_elem s := hb_bit ptentries (sb_bits s) 0;
  fs_size s := hb_size ptentries (sb_bits s) 0;
  fs_inv s := hb_params ptentries (sb_W s) /\ hb_inv ptentries (sb_W s) (sb_bits s)
}.

Lemma sb_lift_spec (f : Z -> hbitmap -> res hbitmap) s upd :
  hb_params ptentries (sb_W s) ->
  (exists h, f (sb_W s) (sb_bits s) = Ok h /\ hb_inv ptentries (sb_W s) h /\
    (forall l, hb_size ptentries h l = hb_size ptentries (sb_bits s) l) /\
    forall i, 0 <= i -> hb_bit ptentries h 0 i = upd i (hb_bit ptentries (sb_bits s) 0 i)) ->
  exists s', sb_lift f s = Ok s' /\ fs_inv s' /\ fs_size s' = fs_size s /\
    forall j, 0 <= j -> fs_elem s' j = upd j (fs_elem s j).
Proof.
  intros Hp (h & Hf & Hi & Hs & Hb). exists (mkSB (sb_W s) h). unfold sb_lift. rewrite Hf.
  split; [done|]. split; [done|]. split; [apply Hs|done].
Qed.

#[export] Instance sized_bitmap_laws : FrameSetLaws ptentries sized_bitmap.
Proof.
  split.
  - exists 9. split; [lia|done].
  - intros s i [(H1 & H2 & H3 & H4) [Hwf _]] Hb.
    exact (proj1 (hb_bit_bounds ptentries (sb_W s) H1 H2 H3 H4 (sb_bits s) 0 i Hwf Hb)).
  - intros s [(H1 & H2 & H3 & H4) [Hwf _]]. simpl.
    pose proof (hb_size_word ptentries (sb_W s) H1 H2 H4 (sb_bits s) 0 Hwf H4) as Hw.
    destruct (hb_size_lookup ptentries (sb_W s) (sb_bits s) 0 Hwf H4) as (lv & _ & He & _).
    rewrite He in *. change ptentries with 512 in *. rewrite Z.mul_comm, Z.mod_mul by lia. lia.
  - intros s i [Hp Hi] Hr. apply (sb_lift_spec _ _ (fun j b => (j =? i) || b)); [done|].
    destruct Hp as (H1 & H2 & H3 & H4). by apply hb_set_spec.
  - intros s i [Hp Hi] Hr. apply (sb_lift_spec _ _ (fun j b => negb (j =? i) && b)); [done|].
    destruct Hp as (H1 & H2 & H3 & H4). by apply hb_clr_spec.
  - intros s i [Hp Hi] Hr. apply (sb_lift_spec _ _ (fun j b => (j / ptentries =? i / ptentries) || b)); [done|].
    destruct Hp as (H1 & H2 & H3 & H4). by apply hb_blockset_spec.
  - intros s i [Hp Hi] Hr. apply (sb_lift_spec _ _ (fun j b => negb (j / ptentries =? i / ptentries) && b)); [done|].
    destruct Hp as (H1 & H2 & H3 & H4). by apply hb_blockclr_spec.
  - intros s i [(H1 & H2 & H3 & H4) Hi] Hr.
    simpl. destruct (hb_blockfull_spec ptentries (sb_W s) H1 H2 H3 H4 (sb_bits s) i Hi Hr) as (b & Hb & Hall).
    by exists b.
  - intros s [(H1 & H2 & H3 & H4) Hi]. simpl.
    destruct (hb_find_spec ptentries (sb_W s) H1 H2 H3 H4 (sb_bits s) Hi) as (r & Hr & Hok).
    exists r. split; [done|]. destruct Hok as [[-> Hno]|(_ & Hb & _)].
    + left. split; [done|]. intros j. destruct (Z.lt_ge_cases j 0) as [|Hj]; [|by apply Hno].
      destruct (hb_bit ptentries (sb_bits s) 0 j) eqn:Hb; [|done].
      apply (hb_bit_bounds ptentries (sb_W s) H1 H2 H3 H4) in Hb; [lia|apply Hi].
    + right. split; [|done]. intros ->.
      pose proof (hb_size_word ptentries (sb_W s) H1 H2 H4 (sb_bits s) 0 (proj1 Hi) H4) as Hw.
      destruct (hb_size_lookup ptentries (sb_W s) (sb_bits s) 0 (proj1 Hi) H4) as (lv & _ & He & _).
      apply (hb_bit_bounds ptentries (sb_W s) H1 H2 H3 H4) in Hb as [Hb _]; [|apply Hi].
      change (limit 64) with (2 ^ 64 - 1) in Hb. rewrite He in *. change ptentries with 512 in *. lia.
Qed.

(** ** FrameManager *)
Abbreviation fmaps := (list (level (S := sized_bitmap))).

(** [FrameMap<PL>] and the maps it inherits from: [d] levels *)
Fixpoint fm_allocsize (d : nat) (PL range : Z) : Z :=
  match d with
  | O => 0
  | S d =>
      let n := divup 64 range (pagesize PL) in
      let sz := hb_allocsize ptentries (framebits - pagesizebits PL) n in
      wrap 64 (wrap 64 (sz + sz) + fm_allocsize d (PL + 1) range)
  end.
(** [mem]: the words of the memory at [p] *)
Fixpoint fm_init (d : nat) (PL range : Z) (mem : list Z) : fmaps :=
  match d with
  | O => []
  | S d =>
      let n := divup 64 range (pagesize PL) in
      let W := framebits - pagesizebits PL in
      let mem2 := drop (Z.to_nat (hb_allocsize ptentries W n / 8)) mem in
      let mem3 := drop (Z.to_nat (hb_allocsize ptentries W n / 8)) mem2 in
      mkLevel (mkSB W (hb_init ptentries W n mem)) (mkSB W (hb_init ptentries W n mem2)) ::
      fm_init d (PL + 1) range mem3
  end.

(** levels from [smallpl] to [kernelpl] *)
Definition fm_depth : nat := 2.

Record FrameManager := mkFM { fm_map : fmaps; baseAddress : Z; memRange : Z }.

Definition preinit (base top : Z) (fm : FrameManager) : Z * FrameManager :=
  (fm_allocsize fm_depth smallpl (wrap 64 (top - base)), mkFM (fm_map fm) base (wrap 64 (top - base))).
Definition fmgr_init (mem : list Z) (fm : FrameManager) : FrameManager :=
  mkFM (fm_init fm_depth smallpl (memRange fm) mem) (baseAddress fm) (memRange fm).

Definition fmgr_release (addr size : Z) (fm : FrameManager) : res FrameManager :=
  kassert (aligned 64 addr smallps);;
  kassert (aligned 64 size smallps);;
  '(_, m) ← release ptentries fm_depth (wrap 64 (addr - baseAddress fm) / smallps) (size / smallps) (fm_map fm);
  mret (mkFM m (baseAddress fm) (memRange fm)).

Definition zeroMemory (fm : FrameManager) : res (bool * FrameManager) :=
  '(b, m) ← zero ptentries (fm_map fm); mret (b, mkFM m (baseAddress fm) (memRange fm)).

(** [fmap.FrameMap<N>::alloc]: the map of page level [N] *)
Fixpoint alloc_at (n : nat) (m : fmaps) : res (Z * fmaps) :=
  match n, m with
  | S n, lv :: up => '(i, up) ← alloc_at n up; mret (i, lv :: up)
  | _, _ => alloc ptentries fm_depth m
  end.
Definition allocFrame (N : Z) (fm : FrameManager) : res (Z * FrameManager) :=
  '(i, m) ← alloc_at (Z.to_nat (N - 1)) (fm_map fm);
  mret (wrap 64 (baseAddress fm + wrap 64 (i * pagesize N)), mkFM m (baseAddress fm) (memRange fm)).

(** the result and the new value of [size] *)
Definition fmgr_allocRegion (size align limitAddress : Z) (fm : FrameManager)
    : res (Z * Z * FrameManager) :=
  kassert (align <=? smallps);;
  let size := align_up 64 size smallps in
  kassert (size <=? pagesize (smallpl + 1));;
  let limitAddress := wrap 64 (limitAddress - size) in
  let cnt := size / smallps in
  let lim := wrap 64 (limitAddress - baseAddress fm) / smallps in
  '(i, m) ← allocRegion ptentries fm_depth smallpl cnt lim (memRange fm) (fm_map fm);
  mret (wrap 64 (baseAddress fm + wrap 64 (i * smallps)), size, mkFM m (baseAddress fm) (memRange fm)).

(** ** Properties *)

(** the frame manager: two consistent levels over a page-aligned range *)
Definition fmgr_inv (fm : FrameManager) : Prop :=
  fm_inv ptentries (fm_map fm) /\ length (fm_map fm) = 2%nat /\
  baseAddress fm mod smallps = 0 /\ 0 <= baseAddress fm /\
  baseAddress fm + fm_size (fm_map fm) * smallps <= 2 ^ 64.

(** small frame [i] of the range *)
Definition frame_free (fm : FrameManager) (i : Z) : bool := is_free ptentries (fm_map fm) i.
Definition frame_no (fm : FrameManager) (addr : Z) : Z := (addr - baseAddress fm) / smallps.

(** [fm'] is [fm] with other free frames *)
Definition fmgr_to (fm fm' : FrameManager) (free : Z -> bool) : Prop :=
  fmgr_inv fm' /\ baseAddress fm' = baseAddress fm /\ memRange fm' = memRange fm /\
  fm_size (fm_map fm') = fm_size (fm_map fm) /\
  forall i, 0 <= i -> frame_free fm' i = free i.

Lemma fmgr_to_intro fm m' free :
  fmgr_inv fm -> fm_to ptentries (fm_map fm) m' free ->
  fmgr_to fm (mkFM m' (baseAddress fm) (memRange fm)) free.
Proof.
  intros (Hi & Hl & Ha & H0 & Hb) (Hi' & Hs' & Hl' & Hf').
  split; [split; [done|]; simpl; rewrite Hs', Hl'; done|]. done.
Qed.

Lemma alloc_upper lv up d :
  fm_inv ptentries (lv :: up) -> (length up <= d)%nat ->
  (exists i up', alloc ptentries d up = Ok (i, up') /\ 0 <= i < fm_size up /\
    (forall s, 0 <= s -> s / ptentries = i -> is_free ptentries (lv :: up) s = true /\
      s < fm_size (lv :: up)) /\
    fm_to ptentries (lv :: up) (lv :: up')
      (fun s => negb (s / ptentries =? i) && is_free ptentries (lv :: up) s)) \/
  ((forall j, is_free ptentries up j = false) /\ alloc ptentries d up = Err Aborted).
Proof.
  intros Hinv Hd. pose proof Hinv as [Hl Hiu].
  destruct (alloc_spec ptentries d up Hd Hiu) as [(i & up' & Ha & Hr & Hf & Hi' & Hs' & Hl' & Hf')|?];
    [left|by right].
  assert (forall s, 0 <= s -> s / ptentries = i -> is_free ptentries (lv :: up) s = true) as Hfree.
  { intros s Hs He. simpl. by rewrite He, Hf, orb_true_r. }
  exists i, up'. split; [done|]. split; [done|]. split.
  - intros s Hs He. split; [by apply Hfree|].
    by apply (is_free_bounds ptentries (lv :: up) s Hinv (Hfree s Hs He)).
  - split; [split; [|done]|split; [done|split; [simpl; by rewrite Hl'|]]].
    + apply (level_inv_up ptentries lv up); try done. intros j Hj Hx. rewrite Hf' in Hx by done.
      by apply andb_prop in Hx as [_ Hx].
    + intros s Hs. simpl. rewrite Hf' by (apply Z.div_pos; [done|by compute]).
      destruct (Z.eqb_spec (s / ptentries) i) as [He|Hne]; simpl; [|done].
      rewrite orb_false_r.
      destruct (fs_elem (frames lv) s || fs_elem (tozero lv) s) eqn:Hx; [|done].
      pose proof (li_up _ _ _ Hl s Hx) as Hc. rewrite He in Hc. congruence.
Qed.

(** the address of a frame, and back *)
Lemma frame_addr fm i N :
  fmgr_inv fm -> 0 <= i -> 1 <= N <= 2 -> i * pagesize N < fm_size (fm_map fm) * smallps ->
  wrap 64 (baseAddress fm + wrap 64 (i * pagesize N)) = baseAddress fm + i * pagesize N /\
  frame_no fm (baseAddress fm + i * pagesize N) = i * (pagesize N / smallps).
Proof.
  intros (_ & _ & _ & H0 & Hb) Hi HN Hlt.
  assert (pagesize N = pagesize N / smallps * smallps /\ 0 < pagesize N / smallps) as [Hp Hp0].
  { assert (N = 1 \/ N = 2) as [->| ->] by lia; by split. }
  assert (0 <= i * pagesize N) by (apply Z.mul_nonneg_nonneg; [lia|]; rewrite Hp;
    apply Z.mul_nonneg_nonneg; [lia|done]).
  rewrite (wrap_small 64 (i * pagesize N)) by lia. rewrite wrap_small by lia.
  split; [done|]. unfold frame_no.
  replace (baseAddress fm + i * pagesize N - baseAddress fm) with (i * (pagesize N / smallps) * smallps) by lia.
  by rewrite Z.div_mul.
Qed.

(** [allocFrame] of the two page levels *)
Definition alloc_small_ok (fm : FrameManager) (r : res (Z * FrameManager)) : Prop :=
  (exists a fm', r = Ok (a, fm') /\
    frame_free fm (frame_no fm a) = true /\ a = baseAddress fm + frame_no fm a * smallps /\
    fmgr_to fm fm' (fun i => negb (i =? frame_no fm a) && frame_free fm i)) \/
  ((forall i, frame_free fm i = false) /\ r = Err Aborted).
Definition alloc_large_ok (fm : FrameManager) (r : res (Z * FrameManager)) : Prop :=
  (exists a fm', r = Ok (a, fm') /\
    frame_no fm a mod ptentries = 0 /\ a = baseAddress fm + frame_no fm a * smallps /\
    (forall i, in_range (frame_no fm a) ptentries i = true -> frame_free fm i = true) /\
    fmgr_to fm fm' (fun i => negb (in_range (frame_no fm a) ptentries i) && frame_free fm i)) \/
  r = Err Aborted.

Lemma allocFrame_small fm : fmgr_inv fm -> alloc_small_ok fm (allocFrame 1 fm).
Proof.
  intros Hfm. pose proof Hfm as (Hinv & Hlen & _). unfold allocFrame.
  destruct (alloc_spec ptentries fm_depth (fm_map fm)) as [(i & m' & Ha & Hr & Hf & Hto)|[Hno Ha]];
    [by rewrite Hlen|done| |].
  + left. destruct (frame_addr fm i 1 Hfm) as [Haddr Hno]; [lia|lia|change (pagesize 1) with smallps; change smallps with 4096; lia|].
    change (pagesize 1) with smallps in *. rewrite Z.div_same, Z.mul_1_r in Hno by done.
    exists (baseAddress fm + i * smallps), (mkFM m' (baseAddress fm) (memRange fm)).
    change (Z.to_nat (1 - 1)) with O. cbn [alloc_at].
    rewrite Ha. cbn [mbind res_bind]. rewrite Haddr, Hno.
    split; [done|]. split; [done|]. split; [done|]. by apply fmgr_to_intro.
  + right. split; [done|]. change (Z.to_nat (1 - 1)) with O. cbn [alloc_at]. by rewrite Ha.
Qed.

Lemma allocFrame_large fm : fmgr_inv fm -> alloc_large_ok fm (allocFrame 2 fm).
Proof.
  intros Hfm. pose proof Hfm as (Hinv & Hlen & _). unfold allocFrame.
  destruct (fm_map fm) as [|lv up] eqn:Em; [done|].
  change (Z.to_nat (2 - 1)) with 1%nat. cbn [alloc_at].
  destruct (alloc_upper lv up fm_depth Hinv) as [(i & up' & Ha & Hr & Hall & Hto)|[_ Ha]].
  { simpl in Hlen. unfold fm_depth. lia. }
  + left. assert (i * ptentries < fm_size (lv :: up)) as Hlt.
    { apply Hall; [change ptentries with 512; lia|]. by apply Z.div_mul. }
    destruct (frame_addr fm i 2 Hfm) as [Haddr Hno]; [lia|lia| |].
    { rewrite Em. change (pagesize 2) with (ptentries * smallps). change smallps with 4096. nia. }
    change (pagesize 2 / smallps) with ptentries in Hno.
    exists (baseAddress fm + i * pagesize 2), (mkFM (lv :: up') (baseAddress fm) (memRange fm)).
    rewrite Ha. cbn [mbind res_bind mret res_ret]. rewrite Haddr, Hno.
    assert (forall s, in_range (i * ptentries) ptentries s = (0 <=? s) && (s / ptentries =? i)) as Hin.
    { intros s. unfold in_range. apply eq_true_iff_eq.
      rewrite !andb_true_iff, !Z.leb_le, Z.ltb_lt, Z.eqb_eq. change ptentries with 512.
      pose proof (Z.div_mod s 512 ltac:(lia)). pose proof (Z.mod_pos_bound s 512 ltac:(lia)). lia. }
    split; [done|]. split; [by apply Z.mod_mul|]. split; [change (pagesize 2) with (ptentries * smallps); lia|].
    split.
    * intros s Hs. rewrite Hin in Hs. apply andb_prop in Hs as [H0%Z.leb_le He%Z.eqb_eq].
      unfold frame_free. rewrite Em. by apply Hall.
    * apply fmgr_to_intro; [done|]. rewrite Em. eapply fm_to_ext; [exact Hto|].
      intros s Hs. cbn beta. rewrite Hin. unfold frame_free. rewrite Em.
      by destruct (Z.leb_spec 0 s); [|lia].
  + right. by rewrite Ha.
Qed.


Lemma fmgr_release_spec (fm : FrameManager) (addr size : Z) :
  fmgr_inv fm -> is_word 64 addr -> is_word 64 size ->
  if decide (addr mod smallps = 0 /\ size mod smallps = 0) then
    baseAddress fm <= addr -> addr + size <= baseAddress fm + fm_size (fm_map fm) * smallps ->
    (forall i, in_range (frame_no fm addr) (size / smallps) i = true -> frame_free fm i = false) ->
    exists fm', fmgr_release addr size fm = Ok fm' /\
      fmgr_to fm fm' (fun i => in_range (frame_no fm addr) (size / smallps) i || frame_free fm i)
  else fmgr_release addr size fm = Err AssertFailed.
Proof.
  intros Hfm Ha Hs. pose proof Hfm as (Hinv & Hlen & Hal & H0 & Hb).
  assert (forall x, aligned 64 x smallps = (x mod smallps =? 0)) as Haligned
    by (intros; by apply (aligned_spec 64 x 12)).
  unfold fmgr_release. rewrite !Haligned. destruct (decide _) as [[Hma Hms]|Hno].
  - intros Hlo Hhi Hfree. rewrite Hma, Hms. cbn [kassert mbind res_bind Z.eqb].
    unfold is_word in *. rewrite wrap_small by lia. fold (frame_no fm addr).
    assert (size = size / smallps * smallps) as Hsz.
    { pose proof (Z.div_mod size smallps ltac:(done)). lia. }
    assert (addr - baseAddress fm = frame_no fm addr * smallps) as Hno.
    { unfold frame_no. pose proof (Z.div_mod (addr - baseAddress fm) smallps ltac:(done)) as Hd.
      rewrite Zminus_mod, Hma, Hal in Hd. change ((0 - 0) mod smallps) with 0 in Hd. lia. }
    change smallps with 4096 in *.
    destruct (release_spec ptentries fm_depth (fm_map fm) (frame_no fm addr) (size / 4096))
      as (m' & Hr & Hto); [by rewrite Hlen|done|by destruct (fm_map fm)| | |].
    + destruct (fm_map fm) as [|lv up]; [done|]. destruct Hinv as [Hl _].
      destruct (fs_size_bounds (B := ptentries) _ (li_frames _ _ _ Hl)).
      change (fs_size (frames lv) < 2 ^ 64). lia.
    + split; [lia|]. split; [lia|]. split; [right; lia|done].
    + rewrite Hr. cbn [mbind res_bind]. eexists. split; [reflexivity|]. by apply fmgr_to_intro.
  - destruct (Z.eqb_spec (addr mod smallps) 0); [|done]. cbn [kassert mbind res_bind].
    destruct (Z.eqb_spec (size mod smallps) 0); [|done]. by destruct Hno.
Qed.

(** [release] of a page-aligned range inside the managed memory, none of
    whose frames is free, makes exactly these frames free, and does not fail;
    an address or a size that is not page-aligned fails its assertion. *)
Theorem frame_release (fm : FrameManager) (addr size : Z) :
  fmgr_inv fm -> is_word 64 addr -> is_word 64 size ->
  if decide (addr mod smallps = 0 /\ size mod smallps = 0) then
    baseAddress fm <= addr -> addr + size <= baseAddress fm + fm_size (fm_map fm) * smallps ->
    (forall i, in_range (frame_no fm addr) (size / smallps) i = true -> frame_free fm i = false) ->
    exists fm', fmgr_release addr size fm = Ok fm' /\
      fmgr_to fm fm' (fun i => in_range (frame_no fm addr) (size / smallps) i || frame_free fm i)
  else fmgr_release addr size fm = Err AssertFailed.
Proof. apply fmgr_release_spec. Qed.

(** ** Initialisation *)
Lemma hb_params_ptentries W : 0 < W <= 64 -> hb_params ptentries W.
Proof.
  intros HW. split; [done|]. split; [done|]. split; [done|].
  unfold hb_Levels. change (hb_logB ptentries) with 9. rewrite divup_eq by lia.
  pose proof (Z.div_pos (W - 1) 9). lia.
Qed.

Lemma new_set W n k :
  0 < W <= 64 -> (hb_Levels ptentries W <= 5)%nat -> 0 < n <= 2 ^ 40 ->
  n <= ptentries ^ Z.of_nat (hb_Levels ptentries W) ->
  hb_allocsize ptentries W n <= 8 * Z.of_nat k ->
  let s := mkSB W (hb_init ptentries W n (replicate k 0)) in
  fs_inv s /\ (forall i, fs_elem s i = false) /\ n <= fs_size s < n + ptentries /\
  0 <= hb_allocsize ptentries W n < 2 ^ 50 /\ hb_allocsize ptentries W n mod 8 = 0.
Proof.
  intros HW HL Hn Hp Hk s. pose proof (hb_params_ptentries W HW) as Hpar.
  pose proof Hpar as (H1 & H2 & H3 & H4).
  pose proof (counts_total_le ptentries W H1 H2 H4 (hb_Levels ptentries W) n ltac:(lia)) as Ht.
  pose proof (counts_total_nonneg ptentries W H1 H2 H4 (hb_Levels ptentries W) n ltac:(lia)) as Ht0.
  change (bm_N ptentries) with 8 in *. set (t := total _) in *.
  assert (t <= 5 * 2 ^ 40) by nia.
  rewrite (hb_allocsize_eq ptentries W H1 H2 H4) in * by (change (bm_N ptentries) with 8; fold t; lia).
  change (bm_N ptentries) with 8 in *. fold t in Hk |- *.
  destruct (hb_init_spec ptentries W H1 H2 H3 H4 n k) as (Hi & Hz & Hsz).
  - change (2 ^ 64 / ptentries) with (2 ^ 55). lia.
  - done.
  - change (bm_N ptentries) with 8. fold t. lia.
  - split; [done|]. split; [done|]. split; [done|]. split; [lia|].
    rewrite Z.mul_comm. by apply Z.mod_mul.
Qed.

Lemma fmgr_init_spec (base range : Z) (m : fmaps) :
  0 <= base -> base mod smallps = 0 -> 0 < range <= 2 ^ 52 -> base + range + 2 ^ 22 <= 2 ^ 64 ->
  let '(sz, fm) := preinit base (base + range) (mkFM m 0 0) in
  let fm := fmgr_init (replicate (Z.to_nat (sz / 8)) 0) fm in
  fmgr_inv fm /\ (forall i, frame_free fm i = false) /\ baseAddress fm = base /\
  range <= fm_size (fm_map fm) * smallps.
Proof.
  intros Hb0 Hbm Hr Htop. unfold preinit. rewrite !(wrap_small 64 (base + range - base)) by lia.
  replace (base + range - base) with range by lia.
  set (n1 := divup 64 range (pagesize 1)). set (n2 := divup 64 range (pagesize 2)).
  assert (n1 = (range - 1) / 2 ^ 12 + 1) as Hn1 by (apply divup_eq; [done|lia]).
  assert (n2 = (range - 1) / 2 ^ 21 + 1) as Hn2 by (apply divup_eq; [done|lia]).
  pose proof (Z.div_mod (range - 1) (2 ^ 12) ltac:(lia)). pose proof (Z.mod_pos_bound (range - 1) (2 ^ 12) ltac:(lia)).
  pose proof (Z.div_mod (range - 1) (2 ^ 21) ltac:(lia)). pose proof (Z.mod_pos_bound (range - 1) (2 ^ 21) ltac:(lia)).
  set (W1 := framebits - pagesizebits 1). set (W2 := framebits - pagesizebits 2).
  set (a1 := hb_allocsize ptentries W1 n1). set (a2 := hb_allocsize ptentries W2 n2).
  assert (forall k, a1 <= 8 * Z.of_nat k -> let s := mkSB W1 (hb_init ptentries W1 n1 (replicate k 0)) in
    fs_inv s /\ (forall i, fs_elem s i = false) /\ n1 <= fs_size s < n1 + ptentries /\
    0 <= a1 < 2 ^ 50 /\ a1 mod 8 = 0) as Hset1.
  { intros k Hk. apply new_set; [done|by compute; lia| |change (ptentries ^ _) with (2 ^ 45)|done]; lia. }
  assert (forall k, a2 <= 8 * Z.of_nat k -> let s := mkSB W2 (hb_init ptentries W2 n2 (replicate k 0)) in
    fs_inv s /\ (forall i, fs_elem s i = false) /\ n2 <= fs_size s < n2 + ptentries /\
    0 <= a2 < 2 ^ 50 /\ a2 mod 8 = 0) as Hset2.
  { intros k Hk. apply new_set; [done|by compute; lia| |change (ptentries ^ _) with (2 ^ 36)|done]; lia. }
  assert (0 <= a1 < 2 ^ 50 /\ a1 mod 8 = 0) as [Ha1 Hm1] by (apply (Hset1 (Z.to_nat a1)); lia).
  assert (0 <= a2 < 2 ^ 50 /\ a2 mod 8 = 0) as [Ha2 Hm2] by (apply (Hset2 (Z.to_nat a2)); lia).
  assert (fm_allocsize fm_depth smallpl range = 2 * a1 + 2 * a2) as Hsz.
  { unfold fm_depth, smallpl. cbn [fm_allocsize]. change (1 + 1) with 2.
    fold n1 n2 W1 W2 a1 a2. rewrite (wrap_small 64 (a1 + a1)), (wrap_small 64 (a2 + a2)) by lia.
    rewrite (wrap_small 64 (a2 + a2 + 0)) by lia. rewrite wrap_small by lia. lia. }
  rewrite Hsz. pose proof (Z.div_mod a1 8 ltac:(lia)). pose proof (Z.div_mod a2 8 ltac:(lia)).
  replace ((2 * a1 + 2 * a2) / 8) with (2 * (a1 / 8) + 2 * (a2 / 8))
    by (apply (Z.div_unique_pos _ _ _ 0); lia).
  set (k := Z.to_nat (2 * (a1 / 8) + 2 * (a2 / 8))).
  set (k1 := Z.to_nat (a1 / 8)). set (k2 := Z.to_nat (a2 / 8)).
  unfold fmgr_init, fm_depth, smallpl. cbn [fm_init memRange fm_map baseAddress].
  change (1 + 1) with 2. fold n1 n2 W1 W2 a1 a2 k1 k2. rewrite !drop_replicate.
  destruct (Hset1 k) as (If1 & Ef1 & Sf1 & _); [lia|].
  destruct (Hset1 (k - k1)%nat) as (It1 & Et1 & St1 & _); [lia|].
  destruct (Hset2 (k - k1 - k1)%nat) as (If2 & Ef2 & Sf2 & _); [lia|].
  destruct (Hset2 (k - k1 - k1 - k2)%nat) as (It2 & Et2 & St2 & _); [lia|].
  set (f1 := mkSB W1 (hb_init ptentries W1 n1 (replicate k 0))) in *.
  set (t1 := mkSB W1 (hb_init ptentries W1 n1 (replicate (k - k1) 0))) in *.
  set (f2 := mkSB W2 (hb_init ptentries W2 n2 (replicate (k - k1 - k1) 0))) in *.
  set (t2 := mkSB W2 (hb_init ptentries W2 n2 (replicate (k - k1 - k1 - k2) 0))) in *.
  clearbody f1 t1 f2 t2.
  assert (forall s : sized_bitmap, fs_inv s -> fs_size s mod 512 = 0) as Hmod
    by (intros s Hs; by apply (fs_size_bounds (B := ptentries))).
  pose proof (Hmod f1 If1) as Hmf1. pose proof (Hmod t1 It1) as Hmt1.
  pose proof (Hmod f2 If2) as Hmf2. pose proof (Hmod t2 It2) as Hmt2.
  change ptentries with 512 in Sf1, St1, Sf2, St2.
  assert (fs_size t1 = fs_size f1 /\ fs_size t2 = fs_size f2) as [Heq1 Heq2]
    by (split; Z.div_mod_to_equations; lia).
  assert (forall i, is_free ptentries [mkLevel f1 t1; mkLevel f2 t2] i = false) as Hnone.
  { intros i. cbn [is_free frames tozero]. by rewrite Ef1, Et1, Ef2, Et2. }
  split; [split; [split; [|split; [|done]]|]|].
  - split; cbn [frames tozero]; [done|done|done| | | |].
    + intros i Hx. by rewrite Ef1 in Hx.
    + intros i Hx. by rewrite Ef1, Et1 in Hx.
    + intros j Hx. cbn [is_free frames tozero] in Hx. by rewrite Ef2, Et2 in Hx.
    + intros i _ Hi. change (fm_size _) with (fs_size f2). change ptentries with 512.
      split; [apply Z.div_pos; lia|]. apply Z.div_lt_upper_bound; [lia|].
      Z.div_mod_to_equations. lia.
  - split; cbn [frames tozero]; [done|done|done| |done|done|done].
    intros i Hx. by rewrite Ef2 in Hx.
  - cbn [length fm_map baseAddress]. split; [done|]. split; [done|]. split; [done|].
    change (fm_size _) with (fs_size f1). change smallps with 4096. Z.div_mod_to_equations. lia.
  - split; [exact Hnone|]. split; [done|]. cbn [fm_map]. change (fm_size _) with (fs_size f1).
    change smallps with 4096. Z.div_mod_to_equations. lia.
Qed.

(** For every range of up to 2^52 bytes, [preinit] reports the memory that
    the four bitmaps need, and [init] on that much zeroed memory gives a
    consistent frame manager with no free frame and a place for every frame of
    the range. *)
Theorem frame_init (base range : Z) (m : fmaps) :
  0 <= base -> base mod smallps = 0 -> 0 < range <= 2 ^ 52 -> base + range + 2 ^ 22 <= 2 ^ 64 ->
  let '(sz, fm) := preinit base (base + range) (mkFM m 0 0) in
  let fm := fmgr_init (replicate (Z.to_nat (sz / 8)) 0) fm in
  fmgr_inv fm /\ (forall i, frame_free fm i = false) /\ baseAddress fm = base /\
  range <= fm_size (fm_map fm) * smallps.
Proof. apply fmgr_init_spec. Qed.

(** ** Histories: allocation is exclusive *)

(** the frame manager and the small frames that its clients hold *)
Definition fm_state : Type := FrameManager * (Z -> bool).

Inductive fm_step : fm_state -> fm_state -> Prop :=
  | step_alloc_small fm own a fm' :
      allocFrame 1 fm = Ok (a, fm') ->
      fm_step (fm, own) (fm', fun i => (i =? frame_no fm a) || own i)
  | step_alloc_large fm own a fm' :
      allocFrame 2 fm = Ok (a, fm') ->
      fm_step (fm, own) (fm', fun i => in_range (frame_no fm a) ptentries i || own i)
  | step_release fm own addr size fm' :
      is_word 64 addr -> is_word 64 size ->
      baseAddress fm <= addr -> addr + size <= baseAddress fm + fm_size (fm_map fm) * smallps ->
      (forall i, in_range (frame_no fm addr) (size / smallps) i = true -> own i = true) ->
      fmgr_release addr size fm = Ok fm' ->
      fm_step (fm, own) (fm', fun i => negb (in_range (frame_no fm addr) (size / smallps) i) && own i)
  | step_zero fm own b fm' :
      zeroMemory fm = Ok (b, fm') -> fm_step (fm, own) (fm', own).

(** no frame is both held and free, and [all] are the frames that are either *)
Definition exclusive (all : Z -> bool) (s : fm_state) : Prop :=
  fmgr_inv s.1 /\ forall i, 0 <= i ->
    s.2 i && frame_free s.1 i = false /\ s.2 i || frame_free s.1 i = all i.

(** the two steps exchange free and held frames *)
Lemma exclusive_alloc all fm own fm' (taken : Z -> bool) :
  exclusive all (fm, own) -> (forall i, 0 <= i -> taken i = true -> frame_free fm i = true) ->
  fmgr_to fm fm' (fun i => negb (taken i) && frame_free fm i) ->
  exclusive all (fm', fun i => taken i || own i).
Proof.
  intros (_ & He) Ht (Hi' & _ & _ & _ & Hf'). split; [done|]. intros i Hi. simpl in *.
  rewrite Hf' by done. specialize (He i Hi) as [H1 H2]. specialize (Ht i Hi). simpl in *.
  rewrite <- H2. destruct (taken i), (own i), (frame_free fm i); simpl in *; intuition congruence.
Qed.

Lemma exclusive_release all fm own fm' (given : Z -> bool) :
  exclusive all (fm, own) -> (forall i, 0 <= i -> given i = true -> own i = true) ->
  fmgr_to fm fm' (fun i => given i || frame_free fm i) ->
  exclusive all (fm', fun i => negb (given i) && own i).
Proof.
  intros (_ & He) Hg (Hi' & _ & _ & _ & Hf'). split; [done|]. intros i Hi. simpl in *.
  rewrite Hf' by done. specialize (He i Hi) as [H1 H2]. specialize (Hg i Hi). simpl in *.
  rewrite <- H2. destruct (given i), (own i), (frame_free fm i); simpl in *; intuition congruence.
Qed.

Lemma zeroMemory_spec fm :
  fmgr_inv fm -> exists b fm', zeroMemory fm = Ok (b, fm') /\ fmgr_to fm fm' (frame_free fm).
Proof.
  intros Hfm. destruct (zero_spec ptentries (fm_map fm)) as (b & m' & Hz & Hto); [apply Hfm|].
  unfold zeroMemory. rewrite Hz. eexists b, _. split; [reflexivity|]. by apply fmgr_to_intro.
Qed.

Lemma fm_step_exclusive all s t : exclusive all s -> fm_step s t -> exclusive all t.
Proof.
  intros He Hst. pose proof He as (Hfm & Hx).
  destruct Hst as [fm own a fm' Ha|fm own a fm' Ha|fm own addr size fm' Wa Ws H1 H2 Hown Hr|fm own b fm' Hz];
    simpl in Hfm, Hx.
  - destruct (allocFrame_small fm Hfm) as [(a' & fm2 & Ha2 & Hf & _ & Hto)|[_ Hno]]; [|congruence].
    rewrite Ha in Ha2. injection Ha2 as <- <-.
    apply (exclusive_alloc all fm own fm' (fun i => i =? frame_no fm a) He); [|done].
    intros i _ ->%Z.eqb_eq. done.
  - destruct (allocFrame_large fm Hfm) as [(a' & fm2 & Ha2 & _ & _ & Hf & Hto)|Hno]; [|congruence].
    rewrite Ha in Ha2. injection Ha2 as <- <-.
    apply (exclusive_alloc all fm own fm' (in_range (frame_no fm a) ptentries) He); [|done].
    intros i _. apply Hf.
  - pose proof (fmgr_release_spec fm addr size Hfm Wa Ws) as Hrel.
    destruct (decide _) as [Hal|]; [|congruence].
    assert (0 <= frame_no fm addr) as H0.
    { unfold frame_no. apply Z.div_pos; [lia|done]. }
    destruct Hrel as (fm2 & Hr2 & Hto); [done|done| |].
    { intros i Hi. assert (0 <= i) as Hi0 by (unfold in_range in Hi; lia).
      destruct (Hx i Hi0) as [Hd _]. by rewrite (Hown i Hi) in Hd. }
    rewrite Hr in Hr2. injection Hr2 as <-.
    apply (exclusive_release all fm own fm' (in_range (frame_no fm addr) (size / smallps)) He); [|done].
    intros i _. apply Hown.
  - destruct (zeroMemory_spec fm Hfm) as (b' & fm2 & Hz2 & Hi' & _ & _ & _ & Hf').
    rewrite Hz in Hz2. injection Hz2 as <- <-. split; [done|]. intros i Hi. simpl.
    rewrite Hf' by done. by apply Hx.
Qed.

(** C6. No double allocation: whatever sequence of allocations of both page
    sizes, releases of held frames and zeroing follows, no frame that a client
    holds is free, and the frames that are held or free stay the same, so no
    frame is ever handed out twice or lost. *)
Theorem frame_exclusive (all : Z -> bool) (s t : fm_state) :
  exclusive all s -> steps fm_step s t -> exclusive all t.
Proof.
  intros Hs Hst. revert Hs. apply (steps_invariant fm_step (exclusive all)); [|done].
  intros. by eapply fm_step_exclusive.
Qed.

(** ** An example: 8 MB, of which frames 510, 511 and 513 are free *)
Definition fm_empty : FrameManager :=
  let '(sz, fm) := preinit 0 (0 + 2 ^ 23) (mkFM [] 0 0) in
  fmgr_init (replicate (Z.to_nat (sz / 8)) 0) fm.

Definition fm_example : FrameManager :=
  match fmgr_release (510 * 4096) 8192 fm_empty ≫= fmgr_release (513 * 4096) 4096 with
  | Ok fm => fm
  | Err _ => fm_empty
  end.

Lemma fm_empty_inv : fmgr_inv fm_empty /\ forall i, frame_free fm_empty i = false.
Proof.
  pose proof (fmgr_init_spec 0 (2 ^ 23) []) as H. unfold fm_empty.
  destruct (preinit 0 (0 + 2 ^ 23) (mkFM [] 0 0)) as [sz fm]. split; apply H; done.
Qed.

Lemma fm_example_inv :
  fmgr_inv fm_example /\
  forall i, 0 <= i -> frame_free fm_example i = (i =? 510) || (i =? 511) || (i =? 513).
Proof.
  destruct fm_empty_inv as [H0 Hf0].
  pose proof (fmgr_release_spec fm_empty (510 * 4096) 8192 H0) as H1.
  destruct H1 as (fm1 & Hr1 & Hi1 & Hb1 & _ & Hs1 & Hf1); [by split|by split|done..|].
  pose proof (fmgr_release_spec fm1 (513 * 4096) 4096 Hi1) as H2.
  destruct H2 as (fm2 & Hr2 & Hi2 & _ & _ & _ & Hf2); [by split|by split|by rewrite Hb1|by rewrite Hb1, Hs1| |].
  { intros i Hi. unfold in_range, frame_no in *. rewrite Hb1 in Hi.
    change (baseAddress fm_empty) with 0 in *. change smallps with 4096 in *.
    change ((513 * 4096 - 0) / 4096) with 513 in Hi. change (4096 / 4096) with 1 in Hi.
    rewrite Hf1 by lia. rewrite Hf0. change ((510 * 4096 - 0) / 4096) with 510.
    change (8192 / 4096) with 2. lia. }
  assert (fm_example = fm2) as ->.
  { unfold fm_example. rewrite Hr1. cbn [mbind res_bind]. by rewrite Hr2. }
  split; [done|]. intros i Hi. rewrite Hf2, Hf1, Hf0 by done. unfold in_range, frame_no.
  rewrite Hb1. change (baseAddress fm_empty) with 0. change smallps with 4096.
  change ((513 * 4096 - 0) / 4096) with 513. change (4096 / 4096) with 1.
  change ((510 * 4096 - 0) / 4096) with 510. change (8192 / 4096) with 2.
  apply eq_true_iff_eq. rewrite !orb_true_iff, !andb_true_iff, !Z.leb_le, !Z.ltb_lt, !Z.eqb_eq.
  split; lia.
Qed.


Lemma fm_example_layout : baseAddress fm_example = 0 /\ fm_size (fm_map fm_example) = 2048.
Proof. split; vm_compute; reflexivity. Qed.

Lemma frame_release_witness :
  exists fm', fmgr_release 4096 8192 fm_example = Ok fm' /\ fmgr_inv fm'.
Proof.
  pose proof (frame_release fm_example 4096 8192 (proj1 fm_example_inv)) as H.
  destruct fm_example_layout as [Hb Hs]. unfold frame_no in H. rewrite Hb, Hs in H.
  destruct H as (fm' & H1 & H2 & _).
  - split; reflexivity || discriminate.
  - split; reflexivity || discriminate.
  - lia.
  - change smallps with 4096. lia.
  - intros i Hi. change ((4096 - 0) / smallps) with 1 in Hi. change (8192 / smallps) with 2 in Hi.
    unfold in_range in Hi. rewrite (proj2 fm_example_inv); lia.
  - exists fm'. split; [exact H1 | exact H2].
Defined.

Lemma frame_init_witness :
  let fm := fmgr_init (replicate (Z.to_nat ((preinit 4096 (4096 + 5000) (mkFM [] 0 0)).1 / 8)) 0)
    (preinit 4096 (4096 + 5000) (mkFM [] 0 0)).2 in
  fmgr_inv fm /\ 5000 <= fm_size (fm_map fm) * smallps.
Proof.
  pose proof (frame_init 4096 5000 [] ltac:(lia) eq_refl ltac:(lia) ltac:(lia)) as H.
  destruct (preinit 4096 (4096 + 5000) (mkFM [] 0 0)) as [sz fm].
  split; [exact (proj1 H) | exact (proj2 (proj2 (proj2 H)))].
Defined.

Lemma frame_exclusive_witness :
  exclusive (fun i => (i =? 510) || (i =? 511) || (i =? 513)) (fm_example, fun _ => false) /\
  forall t, steps fm_step (fm_example, fun _ => false) t ->
    exclusive (fun i => (i =? 510) || (i =? 511) || (i =? 513)) t.
Proof.
  assert (exclusive (fun i => (i =? 510) || (i =? 511) || (i =? 513)) (fm_example, fun _ => false)) as H0.
  { split; [exact (proj1 fm_example_inv)|]. intros i Hi. simpl.
    split; [reflexivity|exact (proj2 fm_example_inv i Hi)]. }
  split; [exact H0|]. intros t Ht. exact (frame_exclusive _ _ t H0 Ht).
Defined.

(** [allocRegion] relies on [findrange], whose search for a clear bit skips
    every block that has some set bit: with frames 510, 511 and 513 free and
    512 not, it hands out the four frames from 510 on *)
Lemma allocRegion_not_free :
  exists fm, fmgr_inv fm /\ frame_free fm 512 = false /\
    exists fm', fmgr_allocRegion (4 * 4096) 1 (2 ^ 23) fm = Ok (510 * 4096, 4 * 4096, fm').
Proof.
  assert (exists fm, (r ← zeroMemory fm_example; r ← zeroMemory r.2; r ← zeroMemory r.2; mret r.2) = Ok fm /\
    fmgr_inv fm /\ forall i, 0 <= i -> frame_free fm i = frame_free fm_example i) as (fm & He & Hi & Hf).
  { destruct (zeroMemory_spec fm_example) as (b1 & fm1 & -> & Hi1 & _ & _ & _ & Hf1); [apply fm_example_inv|].
    destruct (zeroMemory_spec fm1 Hi1) as (b2 & fm2 & H2 & Hi2 & _ & _ & _ & Hf2).
    destruct (zeroMemory_spec fm2 Hi2) as (b3 & fm3 & H3 & Hi3 & _ & _ & _ & Hf3).
    cbn [mbind res_bind]. simpl. rewrite H2. cbn [mbind res_bind]. simpl. rewrite H3.
    exists fm3. split; [done|]. split; [done|]. intros i H0. by rewrite Hf3, Hf2, Hf1. }
  exists fm. split; [done|]. split; [by rewrite Hf, (proj2 fm_example_inv)|].
  assert ((fm ← (r ← zeroMemory fm_example; r ← zeroMemory r.2; r ← zeroMemory r.2; mret r.2);
    '(a, s, _) ← fmgr_allocRegion (4 * 4096) 1 (2 ^ 23) fm; mret (a, s)) = Ok (510 * 4096, 4 * 4096)) as Hc
    by (vm_compute; reflexivity).
  rewrite He in Hc. cbn [mbind res_bind] in Hc.
  destruct (fmgr_allocRegion (4 * 4096) 1 (2 ^ 23) fm) as [[[a s] fm']|]; [|done].
  injection Hc as -> ->. by exists fm'.
Qed.
