(* ===== verification/SpinLock.v ===== *)
(** * Spin locks: kernel/SpinLock.h and LocalProcessor of machine/Processor.h

    A machine is the shared lock word and one local state per processor; a
    step is one atomic action of one processor, so a run interleaves the
    processors arbitrarily.  The bodies of [acquire], [tryAcquire] and
    [release] are cut at each access of the shared lock word.  [SpinLock] and
    [OwnerLock] include the lock count and interrupt flag of the processor.
    [TicketSpinLock] refines a FIFO queue of processors. *)
From Stdlib Require Import ZArith Lia Bool.
From stdpp Require Import base tactics option numbers list.
From S2P Require Import Prelude.

(** ** LocalProcessor: lock count and interrupts *)
Record cpu := mkCpu { ints : bool; lockCount : Z }.

Definition incLockCount (c : cpu) : cpu := mkCpu (ints c) (wrap 64 (lockCount c + 1)).
Definition decLockCount (c : cpu) : cpu := mkCpu (ints c) (wrap 64 (lockCount c - 1)).

Definition checkLock (c : cpu) : res Z :=
  kassert (Bool.eqb (ints c) (lockCount c =? 0));; mret (lockCount c).

Definition lockFake (c : cpu) : res cpu := kassert (negb (ints c));; mret (incLockCount c).
Definition unlockFake (c : cpu) : res cpu := kassert (negb (ints c));; mret (decLockCount c).

Definition cpu_lock (check : bool) (c : cpu) : res cpu :=
  (if check then n ← checkLock c; kassert (n =? 0) else mret tt);;
  mret (incLockCount (if lockCount c =? 0 then mkCpu false (lockCount c) else c)).

Definition cpu_unlock (check : bool) (c : cpu) : res cpu :=
  (if check then n ← checkLock c; kassert (n =? 1) else mret tt);;
  let c := decLockCount c in
  mret (if lockCount c =? 0 then mkCpu true (lockCount c) else c).

(** what [checkLock] asserts *)
Definition cpu_ok (c : cpu) : Prop :=
  is_word 64 (lockCount c) /\ ints c = (lockCount c =? 0).

Lemma incLockCount_small c :
  is_word 64 (lockCount c + 1) -> lockCount (incLockCount c) = lockCount c + 1.
Proof. intros. by apply wrap_small. Qed.

Lemma cpu_lock_spec c :
  cpu_ok c -> lockCount c < 2 ^ 64 - 1 ->
  exists c', cpu_lock false c = Ok c' /\ cpu_ok c' /\
             lockCount c' = lockCount c + 1 /\ ints c' = false.
Proof.
  intros [Hw Hi] Hb. unfold is_word in Hw. eexists. split; [reflexivity|].
  unfold cpu_ok, incLockCount. destruct (Z.eqb_spec (lockCount c) 0) as [E|E]; simpl;
    rewrite (wrap_small 64 (lockCount c + 1)) by lia.
  all: assert ((lockCount c + 1 =? 0) = false) as En by (apply Z.eqb_neq; lia).
  all: rewrite En; try rewrite Hi; repeat split; simpl; lia.
Qed.

Lemma cpu_unlock_spec c :
  cpu_ok c -> 0 < lockCount c ->
  exists c', cpu_unlock false c = Ok c' /\ cpu_ok c' /\ lockCount c' = lockCount c - 1.
Proof.
  intros [Hw Hi] Hb. unfold is_word in Hw. eexists. split; [reflexivity|].
  unfold cpu_ok, decLockCount. simpl. rewrite (wrap_small 64 (lockCount c - 1)) by lia.
  destruct (Z.eqb_spec (lockCount c - 1) 0) as [E|E]; simpl.
  - repeat split; simpl; lia.
  - apply Z.eqb_neq in E as E'. rewrite E', Hi. repeat split; simpl; lia.
Qed.

(** ** A machine of several processors *)
Section machine.
Context {Sh L : Type} (local : nat -> Sh -> L -> Sh -> L -> Prop).

Inductive mstep : Sh * list L -> Sh * list L -> Prop :=
  | mstep_intro i sh ls l sh' l' :
      ls !! i = Some l -> local i sh l sh' l' -> mstep (sh, ls) (sh', <[i := l']> ls).

Lemma mstep_length c c' : mstep c c' -> length c'.2 = length c.2.
Proof. destruct 1. apply length_insert. Qed.

End machine.

(** the state of processor [j] after processor [i] moved *)
Lemma moved_lookup {L} (ls : list L) i j l l0 x :
  ls !! i = Some l0 -> <[i := l]> ls !! j = Some x -> (j = i /\ x = l) \/ (j <> i /\ ls !! j = Some x).
Proof. intros ?. rewrite list_lookup_insert_Some. intros [(-> & -> & ?)|[? ?]]; auto. Qed.

Lemma moved_eq {L} (ls : list L) i (l l0 : L) : ls !! i = Some l0 -> <[i := l]> ls !! i = Some l.
Proof. intros H. apply list_lookup_insert_eq. eapply lookup_lt_Some, H. Qed.

(** ** BinarySpinLock and SpinLock *)
Module Spin.

(** where a processor is in the code of [SpinLock] *)
Inductive spin_pc :=
  | Idle                    (* outside: does not hold the lock *)
  | AcqTas                  (* acquire: before __atomic_test_and_set *)
  | AcqWait                 (* acquire: in while (locked) Pause() *)
  | TryTas                  (* tryAcquire: before __atomic_test_and_set *)
  | TryUndo                 (* tryAcquire: failed, before LocalProcessor::unlock *)
  | Held                    (* holds the lock *)
  | RelClear                (* release: before __atomic_clear *)
  | RelUnlock               (* release: before LocalProcessor::unlock *)
  | Faulted (f : fault).

Record spin_proc := mkProc { p_cpu : cpu; p_pc : spin_pc }.

Definition spin_fault_or {A} (p : spin_proc) (m : res A) (k : A -> bool * spin_proc) (locked : bool) : bool * spin_proc :=
  match m with Ok a => k a | Err f => (locked, mkProc (p_cpu p) (Faulted f)) end.

(** the next action of an operation in progress *)
Definition spin_advance (locked : bool) (p : spin_proc) : bool * spin_proc :=
  let c := p_cpu p in
  match p_pc p with
  | AcqTas =>
      spin_fault_or p (kassert (negb (ints c)))
        (fun _ => (true, mkProc c (if locked then AcqWait else Held))) locked
  | AcqWait => (locked, mkProc c (if locked then AcqWait else AcqTas))
  | TryTas =>
      spin_fault_or p (kassert (negb (ints c)))
        (fun _ => (true, mkProc c (if locked then TryUndo else Held))) locked
  | TryUndo => spin_fault_or p (cpu_unlock false c) (fun c => (locked, mkProc c Idle)) locked
  | RelClear =>
      spin_fault_or p (kassert (negb (ints c));; kassert locked)
        (fun _ => (false, mkProc c RelUnlock)) locked
  | RelUnlock => spin_fault_or p (cpu_unlock false c) (fun c => (locked, mkProc c Idle)) locked
  | Idle | Held | Faulted _ => (locked, p)
  end.

(** calls of the lock's operations; the callers release only what they hold.
    [call_nested]/[call_unnest]: other locks of the same processor. *)
Inductive spin_call : spin_proc -> spin_proc -> Prop :=
  | call_acquire c c' : cpu_lock false c = Ok c' -> lockCount c < 2 ^ 64 - 1 ->
      spin_call (mkProc c Idle) (mkProc c' AcqTas)
  | call_try c c' : cpu_lock false c = Ok c' -> lockCount c < 2 ^ 64 - 1 ->
      spin_call (mkProc c Idle) (mkProc c' TryTas)
  | call_release c : spin_call (mkProc c Held) (mkProc c RelClear)
  | call_nested c c' q : q = Idle \/ q = Held -> lockCount c < 2 ^ 64 - 1 ->
      cpu_lock false c = Ok c' -> spin_call (mkProc c q) (mkProc c' q)
  | call_unnest c c' q : q = Idle /\ 0 < lockCount c \/ q = Held /\ 1 < lockCount c ->
      cpu_unlock false c = Ok c' -> spin_call (mkProc c q) (mkProc c' q).

Inductive local (i : nat) (locked : bool) (p : spin_proc) : bool -> spin_proc -> Prop :=
  | local_call p' : spin_call p p' -> local i locked p locked p'
  | local_advance sh' p' : spin_advance locked p = (sh', p') -> local i locked p sh' p'.

Definition step := mstep local.

(** the processor owns the lock: from the winning test-and-set to the clear *)
Definition spin_owns (q : spin_pc) : bool := match q with Held | RelClear => true | _ => false end.

Definition proc_ok (p : spin_proc) : Prop :=
  cpu_ok (p_cpu p) /\
  match p_pc p with Idle => True | Faulted _ => False | _ => 0 < lockCount (p_cpu p) end.

Definition inv (c : bool * list spin_proc) : Prop :=
  Forall proc_ok c.2 /\
  (forall i j p q, c.2 !! i = Some p -> c.2 !! j = Some q ->
     spin_owns (p_pc p) = true -> spin_owns (p_pc q) = true -> i = j) /\
  (c.1 = true <-> exists i p, c.2 !! i = Some p /\ spin_owns (p_pc p) = true).

Lemma cpu_ok_disabled c : cpu_ok c -> 0 < lockCount c -> ints c = false.
Proof. intros [_ ->] ?. apply Z.eqb_neq. lia. Qed.

#[local] Opaque cpu_lock cpu_unlock.

Lemma spin_call_ok p p' : proc_ok p -> spin_call p p' -> proc_ok p' /\ spin_owns (p_pc p') = spin_owns (p_pc p).
Proof.
  intros [Hc Hp] Hcall. destruct Hcall as [c c' E L|c c' E L|c|c c' q Q L E|c c' q Q E]; simpl in *.
  1,2,4: destruct (cpu_lock_spec c Hc L) as (c1 & E1 & Hok & Hn & _); rewrite E in E1;
    injection E1 as <-; unfold cpu_ok in Hc; destruct Hc as [[? ?] ?].
  1,2: split; [split; simpl; [done|lia] | done].
  - split; [|done]. split; [done|]. simpl. destruct Q as [->| ->]; [done|lia].
  - split; [|done]. by split.
  - destruct (cpu_unlock_spec c Hc) as (c1 & E1 & Hok & Hn).
    { destruct Q as [[-> ?]|[-> ?]]; lia. }
    rewrite E in E1. injection E1 as <-. split; [|done]. split; [done|]. simpl.
    destruct Q as [[-> ?]|[-> ?]]; [done|lia].
Qed.

(** what an action does to the lock word and to ownership *)
Definition effect (locked : bool) (q : spin_pc) (locked' : bool) (q' : spin_pc) : Prop :=
  (locked' = locked /\ spin_owns q' = spin_owns q) \/
  (locked = false /\ locked' = true /\ spin_owns q = false /\ spin_owns q' = true) \/
  (locked' = false /\ spin_owns q = true /\ spin_owns q' = false).

Lemma spin_advance_ok locked p sh' p' :
  proc_ok p -> (spin_owns (p_pc p) = true -> locked = true) -> spin_advance locked p = (sh', p') ->
  proc_ok p' /\ effect locked (p_pc p) sh' (p_pc p').
Proof.
  intros [Hc Hp] Hl. unfold spin_advance, effect, spin_fault_or. destruct p as [c q]; simpl in *.
  destruct q; simpl in *; try done; try (specialize (Hl eq_refl); subst locked);
    try rewrite (cpu_ok_disabled c Hc Hp); simpl;
    try (destruct (cpu_unlock_spec c Hc Hp) as (c1 & E1 & Hok & _); rewrite E1);
    intros [= <- <-]; try destruct locked; simpl;
    (split; [split; simpl; [done|first [done|lia]]|]); naive_solver.
Qed.

Lemma spin_inv_step c c' : inv c -> step c c' -> inv c'.
Proof.
  intros (Hf & Hex & Hl) Hs. destruct Hs as [i sh ls p sh' p' Hi Hloc]. simpl in *.
  assert (proc_ok p) as Hp by (rewrite Forall_lookup in Hf; eauto).
  assert (spin_owns (p_pc p) = true -> sh = true) as Ho by (intros; apply Hl; eauto).
  assert (proc_ok p' /\ effect sh (p_pc p) sh' (p_pc p')) as [Hp' Heff].
  { destruct Hloc as [p' Hcall|]; [|by apply spin_advance_ok].
    destruct (spin_call_ok _ _ Hp Hcall). split; [done|by left]. }
  split; [|split]; simpl.
  - by apply Forall_insert.
  - intros j k q r Hj Hk Hoj Hok.
    apply (moved_lookup _ _ _ _ _ _ Hi) in Hj, Hk.
    destruct Hj as [[-> ->]|[? Hj]], Hk as [[-> ->]|[? Hk]]; [done| | |eauto].
    + destruct Heff as [[-> E]|[(-> & _)|(-> & _ & ?)]]; [|exfalso|congruence].
      * rewrite E in Hoj. eauto.
      * destruct Hl as [_ Hl]. discriminate Hl. eauto.
    + destruct Heff as [[-> E]|[(-> & _)|(-> & _ & ?)]]; [|exfalso|congruence].
      * rewrite E in Hok. eauto.
      * destruct Hl as [_ Hl]. discriminate Hl. eauto.
  - split.
    + intros ->. destruct Heff as [[<- E]|[(_ & _ & _ & ?)|(? & _)]]; [|eauto using moved_eq|done].
      destruct Hl as [Hl _]. destruct (Hl eq_refl) as (j & q & Hj & Hoj).
      destruct (decide (j = i)) as [->|].
      * exists i, p'. split; [by eapply moved_eq|]. congruence.
      * exists j, q. split; [|done]. by rewrite list_lookup_insert_ne.
    + intros (j & q & Hj & Hoj).
      apply (moved_lookup _ _ _ _ _ _ Hi) in Hj as [[-> ->]|[? Hj]].
      * destruct Heff as [[-> E]|[(_ & -> & _)|(_ & _ & ?)]]; [|done|congruence].
        apply Ho. congruence.
      * destruct Heff as [[-> E]|[(_ & -> & _)|(_ & Hop & _)]]; [|done|].
        -- apply Hl. eauto.
        -- exfalso. eauto.
Qed.

(** the boot state: nobody is in the code, the lock is free *)
Definition initial (c : bool * list spin_proc) : Prop :=
  c.1 = false /\ Forall (fun p => cpu_ok (p_cpu p) /\ p_pc p = Idle) c.2.

Lemma spin_inv_initial c : initial c -> inv c.
Proof.
  intros [Hl Hf]. rewrite Forall_lookup in Hf. split; [|split].
  - rewrite Forall_lookup. intros i p Hi. destruct (Hf i p Hi) as [? E]. split; [done|]. by rewrite E.
  - intros i j p q Hi _ Ho. destruct (Hf i p Hi) as [_ E]. by rewrite E in Ho.
  - rewrite Hl. split; [done|]. intros (i & p & Hi & Ho). destruct (Hf i p Hi) as [_ E]. by rewrite E in Ho.
Qed.

(** C16. [SpinLock] (with [BinarySpinLock] and [LocalProcessor]): in every
    interleaving of any number of processors that acquire, try to acquire,
    release and nest locks, at most one processor is between the winning
    test-and-set and the clear; the lock word says whether there is one; no
    assertion fails (interrupts are off at every access of the lock, a release
    finds it locked); on each processor interrupts are enabled exactly when its
    lock count is 0; and a processor that waits while the lock is free owns it
    after two of its own actions. *)
Theorem spinlock_mutual_exclusion c c' :
  initial c -> steps step c c' ->
  (forall i j p q, c'.2 !! i = Some p -> c'.2 !! j = Some q ->
     spin_owns (p_pc p) = true -> spin_owns (p_pc q) = true -> i = j) /\
  (c'.1 = true <-> exists i p, c'.2 !! i = Some p /\ spin_owns (p_pc p) = true) /\
  (forall i p, c'.2 !! i = Some p ->
     (forall f, p_pc p <> Faulted f) /\ checkLock (p_cpu p) = Ok (lockCount (p_cpu p)) /\
     (p_pc p <> Idle -> ints (p_cpu p) = false) /\
     (p_pc p = AcqWait -> c'.1 = false ->
        let '(l1, p1) := spin_advance false p in let '(l2, p2) := spin_advance l1 p1 in
        l2 = true /\ p_pc p2 = Held)).
Proof.
  intros Hi Hs. destruct (steps_invariant _ inv spin_inv_step _ _ Hs (spin_inv_initial _ Hi)) as (Hf & Hex & Hl).
  split; [done|]. split; [done|]. intros i p Hp. rewrite Forall_lookup in Hf.
  destruct (Hf i p Hp) as [Hc Hpc]. split; [|split; [|split]].
  - intros f E. by rewrite E in Hpc.
  - destruct Hc as [_ E]. unfold checkLock. rewrite E.
    by destruct (lockCount (p_cpu p) =? 0).
  - intros. apply cpu_ok_disabled; [done|]. by destruct (p_pc p).
  - intros E _. destruct p as [cp q]; simpl in *. subst q. unfold spin_advance. simpl.
    by rewrite (cpu_ok_disabled cp Hc Hpc).
Qed.

#[local] Transparent cpu_lock cpu_unlock.

(** two processors race for the lock and the first wins *)
Lemma spinlock_mutual_exclusion_witness :
  exists c c', initial c /\ steps step c c' /\ c'.1 = true /\
    forall i p, c'.2 !! i = Some p -> (p_pc p <> Idle -> ints (p_cpu p) = false).
Proof.
  exists (false, [mkProc (mkCpu true 0) Idle; mkProc (mkCpu true 0) Idle]).
  set (c' := (true, [mkProc (mkCpu false 1) Held; mkProc (mkCpu false 1) AcqWait])).
  exists c'.
  assert (initial (false, [mkProc (mkCpu true 0) Idle; mkProc (mkCpu true 0) Idle])) as Hi.
  { split; [done|]. repeat constructor; simpl; lia. }
  assert (steps step (false, [mkProc (mkCpu true 0) Idle; mkProc (mkCpu true 0) Idle]) c') as Hs.
  { eapply steps_step; [eapply (mstep_intro _ 0); [done|apply local_call, call_acquire; [done|vm_compute; done]]|].
    eapply steps_step; [eapply (mstep_intro _ 1); [done|apply local_call, call_acquire; [done|vm_compute; done]]|].
    eapply steps_step; [eapply (mstep_intro _ 0); [done|apply local_advance; reflexivity]|].
    eapply steps_step; [eapply (mstep_intro _ 1); [done|apply local_advance; reflexivity]|].
    apply steps_refl. }
  split; [done|]. split; [done|]. split; [done|].
  intros i p Hp. apply (spinlock_mutual_exclusion _ _ Hi Hs) in Hp. apply Hp.
Defined.

End Spin.

(** ** OwnerSpinLock and OwnerLock *)
Module Owner.

Definition noOwner : Z := 2 ^ 64 - 1.     (* limit<mword>() *)

Record owner_lock := mkLock { owner : Z; counter : Z }.

Inductive owner_pc :=
  | Idle                    (* outside the code; holds the lock [depth] times *)
  | AcqTest | AcqCas | AcqWait | AcqInc     (* acquire *)
  | TryTest | TryCas | TryInc | TryUndo     (* tryAcquire *)
  | RelDec | RelStore | RelUnlock           (* release *)
  | Faulted (f : fault).

(** [depth]: the acquisitions this processor has not yet released *)
Record owner_proc := mkProc { p_cpu : cpu; depth : Z; p_pc : owner_pc }.

Definition at_pc (p : owner_proc) (q : owner_pc) : owner_proc := mkProc (p_cpu p) (depth p) q.

Definition owner_fault_or {A} (p : owner_proc) (m : res A) (k : A -> owner_lock * owner_proc) (l : owner_lock) : owner_lock * owner_proc :=
  match m with Ok a => k a | Err f => (l, at_pc p (Faulted f)) end.

(** [i] is the index of the processor, [LocalProcessor::getIndex()] *)
Definition owner_advance (i : Z) (l : owner_lock) (p : owner_proc) : owner_lock * owner_proc :=
  let off := kassert (negb (ints (p_cpu p))) in
  match p_pc p with
  | AcqTest =>
      owner_fault_or p off (fun _ => (l, at_pc p (if owner l =? i then AcqInc else AcqCas))) l
  | AcqCas =>
      if owner l =? noOwner then (mkLock i (counter l), at_pc p AcqInc) else (l, at_pc p AcqWait)
  | AcqWait => (l, at_pc p (if owner l =? noOwner then AcqCas else AcqWait))
  | AcqInc | TryInc =>
      (mkLock (owner l) (wrap 64 (counter l + 1)), mkProc (p_cpu p) (depth p + 1) Idle)
  | TryTest =>
      owner_fault_or p off (fun _ => (l, at_pc p (if owner l =? i then TryInc else TryCas))) l
  | TryCas =>
      if owner l =? noOwner then (mkLock i (counter l), at_pc p TryInc) else (l, at_pc p TryUndo)
  | TryUndo | RelUnlock =>
      owner_fault_or p (cpu_unlock false (p_cpu p)) (fun c => (l, mkProc c (depth p) Idle)) l
  | RelDec =>
      owner_fault_or p (off;; kassert (owner l =? i))
        (fun _ => (mkLock (owner l) (wrap 64 (counter l - 1)), mkProc (p_cpu p) (depth p - 1) RelStore)) l
  | RelStore =>
      (if counter l =? 0 then mkLock noOwner (counter l) else l, at_pc p RelUnlock)
  | Idle | Faulted _ => (l, p)
  end.

Inductive owner_call : owner_proc -> owner_proc -> Prop :=
  | call_acquire c c' d : cpu_lock false c = Ok c' -> lockCount c < 2 ^ 64 - 1 ->
      owner_call (mkProc c d Idle) (mkProc c' d AcqTest)
  | call_try c c' d : cpu_lock false c = Ok c' -> lockCount c < 2 ^ 64 - 1 ->
      owner_call (mkProc c d Idle) (mkProc c' d TryTest)
  | call_release c d : 0 < d -> owner_call (mkProc c d Idle) (mkProc c d RelDec).

Inductive local (i : nat) (l : owner_lock) (p : owner_proc) : owner_lock -> owner_proc -> Prop :=
  | local_call p' : owner_call p p' -> local i l p l p'
  | local_advance l' p' : owner_advance (Z.of_nat i) l p = (l', p') -> local i l p l' p'.

Definition step := mstep local.

(** what the processor has added to [counter] *)
Definition holds (p : owner_proc) : Prop :=
  0 < depth p \/ p_pc p = AcqInc \/ p_pc p = TryInc \/ p_pc p = RelStore.

(** in progress: one more lock count than the depth *)
Definition busy (q : owner_pc) : Z := match q with Idle => 0 | RelDec => 0 | _ => 1 end.

Definition proc_ok (p : owner_proc) : Prop :=
  cpu_ok (p_cpu p) /\ 0 <= depth p /\ depth p + busy (p_pc p) <= lockCount (p_cpu p) /\
  match p_pc p with
  | Faulted _ => False
  | RelDec => 0 < depth p
  | AcqCas | AcqWait | TryCas | TryUndo => depth p = 0
  | _ => True
  end.

Definition inv (n : nat) (c : owner_lock * list owner_proc) : Prop :=
  length c.2 = n /\ Forall proc_ok c.2 /\
  (forall i p, c.2 !! i = Some p -> holds p -> owner c.1 = Z.of_nat i /\ counter c.1 = depth p) /\
  (owner c.1 = noOwner /\ counter c.1 = 0 \/
   exists i p, owner c.1 = Z.of_nat i /\ c.2 !! i = Some p /\ holds p).

#[local] Opaque cpu_lock cpu_unlock.

Lemma off_ok p : proc_ok p -> p_pc p <> Idle -> ints (p_cpu p) = false.
Proof.
  intros (Hc & Hd & Hn & Hp) Hi. apply Spin.cpu_ok_disabled; [done|].
  destruct (p_pc p); simpl in *; lia || done.
Qed.

Ltac pok := unfold proc_ok, cpu_ok, is_word in *; simpl; split_and!; first [done | lia | by split | by intuition].

Lemma owner_call_ok p p' :
  proc_ok p -> owner_call p p' -> proc_ok p' /\ (holds p' <-> holds p) /\ depth p' = depth p.
Proof.
  intros (Hc & Hd & Hn & Hp) Hcall. destruct Hcall as [c c' d E L|c c' d E L|c d L]; simpl in *.
  1,2: destruct (cpu_lock_spec c Hc L) as (c1 & E1 & Hok & Hl & _); rewrite E in E1; injection E1 as <-.
  all: split; [pok|].
  all: unfold holds; simpl; split; [|done]; naive_solver.
Qed.

(** an action leaves the lock alone, takes it, or changes it as its holder *)
Definition effect (i : Z) (l : owner_lock) (p : owner_proc) (l' : owner_lock) (p' : owner_proc) : Prop :=
  (l' = l /\ (holds p' <-> holds p) /\ depth p' = depth p) \/
  (owner l = noOwner /\ ~ holds p /\ holds p' /\ l' = mkLock i (counter l) /\ depth p' = depth p /\ depth p = 0) \/
  (holds p /\ (holds p' /\ owner l' = owner l \/ ~ holds p' /\ owner l' = noOwner) /\ counter l' = depth p').

Lemma owner_advance_ok i l p l' p' :
  proc_ok p -> (holds p -> owner l = i /\ counter l = depth p) -> (owner l = i -> holds p) ->
  owner_advance i l p = (l', p') -> proc_ok p' /\ effect i l p l' p'.
Proof.
  intros Hok Hl Ho. pose proof (off_ok p Hok) as Hoff. revert Hoff.
  destruct Hok as (Hc & Hd & Hn & Hp). destruct p as [c d q]. unfold owner_advance, owner_fault_or, at_pc.
  destruct q; simpl in *; intros Hoff; try specialize (Hoff ltac:(done)).
  all: try (rewrite Hoff; simpl).
  - intros [= <- <-]. split; [pok|by left].
  - intros [= <- <-]. destruct (Z.eqb_spec (owner l) i) as [E|E].
    + split; [pok|]. left. split; [done|]. specialize (Ho E). unfold holds; simpl. naive_solver.
    + assert (~ holds (mkProc c d AcqTest)) as Hh by (intros H; destruct (Hl H); done).
      unfold holds in Hh; simpl in Hh. split.
      * pok.
      * left. unfold holds; simpl. naive_solver.
  - destruct (Z.eqb_spec (owner l) noOwner) as [E|E]; intros [= <- <-].
    + split; [pok|]. right; left. unfold holds; simpl. repeat split; try done; [|by auto].
      intros [?|?]; [lia|naive_solver].
    + split; [pok|]. left. unfold holds; simpl. naive_solver.
  - intros [= <- <-]. split; [destruct (owner l =? noOwner); pok|].
    left. unfold holds; simpl. destruct (_ =? _); naive_solver.
  - intros [= <- <-]. destruct (Hl ltac:(unfold holds; auto)) as [E1 E2]. destruct Hc as [Hc Hc2].
    unfold is_word in Hc. split; [pok|].
    right; right. unfold holds; simpl. rewrite E2, wrap_small by lia.
    repeat split; [auto|left; split; [lia|done]].
  - intros [= <- <-]. destruct (Z.eqb_spec (owner l) i) as [E|E].
    + split; [pok|]. left. split; [done|]. specialize (Ho E). unfold holds; simpl. naive_solver.
    + assert (~ holds (mkProc c d TryTest)) as Hh by (intros H; destruct (Hl H); done).
      unfold holds in Hh; simpl in Hh. split.
      * pok.
      * left. unfold holds; simpl. naive_solver.
  - destruct (Z.eqb_spec (owner l) noOwner) as [E|E]; intros [= <- <-].
    + split; [pok|]. right; left. unfold holds; simpl. repeat split; try done; [|by auto].
      intros [?|?]; [lia|naive_solver].
    + split; [pok|]. left. unfold holds; simpl. naive_solver.
  - intros [= <- <-]. destruct (Hl ltac:(unfold holds; auto)) as [E1 E2]. destruct Hc as [Hc Hc2].
    unfold is_word in Hc. split; [pok|].
    right; right. unfold holds; simpl. rewrite E2, wrap_small by lia.
    repeat split; [auto|left; split; [lia|done]].
  - destruct (cpu_unlock_spec c Hc ltac:(lia)) as (c1 & E1 & Hok & Hn1). rewrite E1.
    intros [= <- <-]. split; [pok|].
    left. unfold holds; simpl. naive_solver.
  - destruct (Hl ltac:(left; simpl; lia)) as [E1 E2]. rewrite E1, Z.eqb_refl. simpl.
    intros [= <- <-]. destruct Hc as [Hc Hc2]. unfold is_word in Hc.
    split; [pok|].
    right; right. unfold holds; simpl. rewrite E2, wrap_small by lia.
    repeat split; [auto|left; split; [auto|done]].
  - destruct (Hl ltac:(unfold holds; auto)) as [E1 E2]. intros [= <- <-].
    split; [pok|]. right; right. split; [unfold holds; auto|]. unfold holds; simpl.
    rewrite E2. destruct (Z.eqb_spec d 0) as [->|]; simpl.
    + split; [right; split; [|done]|done]. intros [?|?]; [lia|naive_solver].
    + split; [left; split; [lia|done]|done].
  - destruct (cpu_unlock_spec c Hc ltac:(lia)) as (c1 & E1 & Hok & Hn1). rewrite E1.
    intros [= <- <-]. split; [pok|].
    left. unfold holds; simpl. naive_solver.
  - done.
Qed.

Lemma owner_inv_step n c c' :
  Z.of_nat n <= noOwner -> inv n c -> step c c' -> inv n c'.
Proof.
  intros Hn (Hlen & Hf & Hh & Hfree) Hs. destruct Hs as [i l ls p l' p' Hi Hloc]. simpl in *.
  assert (proc_ok p) as Hp by (rewrite Forall_lookup in Hf; eauto).
  assert (Z.of_nat i < noOwner) as Hin by (apply lookup_lt_Some in Hi; lia).
  assert (owner l = Z.of_nat i -> holds p) as Ho.
  { intros E. destruct Hfree as [[E' _]|(j & q & E' & Hq & Hhq)]; [lia|].
    assert (j = i) as -> by lia. congruence. }
  assert (proc_ok p' /\ effect (Z.of_nat i) l p l' p') as [Hp' Heff].
  { destruct Hloc as [p' Hcall|]; [|apply owner_advance_ok; eauto].
    destruct (owner_call_ok _ _ Hp Hcall) as (? & ? & ?). split; [done|by left]. }
  unfold inv. simpl. rewrite length_insert. split; [done|]. split; [by apply Forall_insert|].
  destruct Heff as [(-> & Hiff & Hd)|[(E & Hnp & Hhp & -> & Hd & Hd0)|(Hhp & Hor & Hcnt)]].
  - split.
    + intros j q [[-> ->]|[? Hj]]%(moved_lookup _ _ _ _ _ _ Hi) Hq; [|eauto].
      rewrite Hd. apply Hh; [done|]. by apply Hiff.
    + destruct Hfree as [|(j & q & E & Hj & Hhq)]; [by left|right].
      destruct (decide (j = i)) as [->|].
      * exists i, p'. split; [done|]. split; [by eapply moved_eq|]. apply Hiff. congruence.
      * exists j, q. split; [done|]. split; [|done]. by rewrite list_lookup_insert_ne.
  - destruct Hfree as [[_ E0]|(j & q & E' & Hj & _)]; [|apply lookup_lt_Some in Hj; lia].
    split; simpl.
    + intros j q [[-> ->]|[? Hj]]%(moved_lookup _ _ _ _ _ _ Hi) Hq; [split; [done|lia]|].
      destruct (Hh j q Hj Hq). apply lookup_lt_Some in Hj. lia.
    + right. exists i, p'. split; [done|]. split; [by eapply moved_eq|done].
  - destruct (Hh i p Hi Hhp) as [E Ec]. split.
    + intros j q [[-> ->]|[Hne Hj]]%(moved_lookup _ _ _ _ _ _ Hi) Hq.
      * split; [|done]. destruct Hor as [[_ ->]|[? _]]; done.
      * destruct (Hh j q Hj Hq). lia.
    + destruct Hor as [[Hh' Ho']|[Hh' Ho']].
      * right. exists i, p'. split; [congruence|]. split; [by eapply moved_eq|done].
      * left. split; [done|]. rewrite Hcnt. destruct Hp' as (_ & Hd & _). unfold holds in Hh'. lia.
Qed.

(** boot: the lock is in zeroed static memory, so [counter] is 0 although the
    constructor does not set it *)
Definition owner_new (counter : Z) : owner_lock := mkLock noOwner counter.

Definition initial (c : owner_lock * list owner_proc) : Prop :=
  c.1 = owner_new 0 /\ Forall (fun p => cpu_ok (p_cpu p) /\ depth p = 0 /\ p_pc p = Idle) c.2.

Lemma owner_inv_initial c : initial c -> inv (length c.2) c.
Proof.
  intros [Hl Hf]. rewrite Forall_lookup in Hf. split; [done|split; [|split]].
  - rewrite Forall_lookup. intros i p Hi. destruct (Hf i p Hi) as ([[? ?] ?] & ? & E).
    unfold proc_ok. rewrite E. simpl. repeat split; lia || done.
  - intros i p Hi Hh. destruct (Hf i p Hi) as (_ & ? & E). unfold holds in Hh.
    rewrite E in Hh. destruct Hh as [?|[?|[?|?]]]; [lia|done|done|done].
  - left. by rewrite Hl.
Qed.

Lemma step_length c c' : step c c' -> length c'.2 = length c.2.
Proof. apply mstep_length. Qed.

(** [OwnerLock] ([OwnerSpinLock] with the processor's index as owner), with
    [counter] 0 at the start: in every interleaving a processor that holds the
    lock is the recorded owner and [counter] is the number of acquisitions it
    has not released, so at most one processor holds it; when no processor
    holds it the lock is free again; and no assertion fails. *)
Theorem ownerlock_recursive_exclusion c c' :
  initial c -> Z.of_nat (length c.2) <= noOwner -> steps step c c' ->
  (forall i p, c'.2 !! i = Some p -> holds p ->
     owner c'.1 = Z.of_nat i /\ counter c'.1 = depth p) /\
  ((forall i p, c'.2 !! i = Some p -> ~ holds p) -> c'.1 = owner_new 0) /\
  (forall i p, c'.2 !! i = Some p ->
     (forall f, p_pc p <> Faulted f) /\ (p_pc p <> Idle -> ints (p_cpu p) = false)).
Proof.
  intros Hi Hn Hs.
  destruct (steps_invariant _ _ (fun s t Hs => owner_inv_step _ s t Hn Hs) _ _ Hs (owner_inv_initial _ Hi))
    as (_ & Hf & Hh & Hfree).
  split; [done|]. split.
  - intros Hnone. destruct c' as [[o k] ls]. destruct Hfree as [[E1 E2]|(j & q & _ & Hj & Hq)].
    + simpl in *. by subst.
    + exfalso. by eapply Hnone.
  - intros i p Hp. rewrite Forall_lookup in Hf. specialize (Hf i p Hp). split; [|by apply off_ok].
    intros f E. unfold proc_ok in Hf. rewrite E in Hf. naive_solver.
Qed.

#[local] Transparent cpu_lock cpu_unlock.

(** processor 1 takes the lock twice while processor 0 fails to *)
Lemma ownerlock_recursive_exclusion_witness :
  exists c c', steps step c c' /\ owner c'.1 = 1 /\ counter c'.1 = 2.
Proof.
  set (p0 := mkProc (mkCpu true 0) 0 Idle).
  set (c' := (mkLock 1 2, [mkProc (mkCpu true 0) 0 Idle; mkProc (mkCpu false 2) 2 Idle])).
  assert (initial (owner_new 0, [p0; p0])) as Hi by (split; [done|]; repeat constructor; simpl; lia).
  assert (steps step (owner_new 0, [p0; p0]) c') as Hs.
  { eapply steps_step; [eapply (mstep_intro _ 1); [done|apply local_call, call_acquire; [done|vm_compute; done]]|].
    do 3 (eapply steps_step; [eapply (mstep_intro _ 1); [done|apply local_advance; reflexivity]|]).
    eapply steps_step; [eapply (mstep_intro _ 0); [done|apply local_call, call_try; [done|vm_compute; done]]|].
    do 3 (eapply steps_step; [eapply (mstep_intro _ 0); [done|apply local_advance; reflexivity]|]).
    eapply steps_step; [eapply (mstep_intro _ 1); [done|apply local_call, call_acquire; [done|vm_compute; done]]|].
    do 2 (eapply steps_step; [eapply (mstep_intro _ 1); [done|apply local_advance; reflexivity]|]).
    apply steps_refl. }
  exists (owner_new 0, [p0; p0]), c'. split; [done|].
  destruct (ownerlock_recursive_exclusion _ _ Hi ltac:(done) Hs) as [H _].
  apply (H 1%nat (mkProc (mkCpu false 2) 2 Idle)); [done|left; simpl; lia].
Defined.

(** with another initial [counter] an acquire and release leave the lock taken *)
Lemma counter_uninitialised :
  let p q := mkProc (mkCpu false 1) 0 q in
  let '(l1, p1) := owner_advance 0 (owner_new 7) (p AcqCas) in
  let '(l2, p2) := owner_advance 0 l1 p1 in
  let '(l3, p3) := owner_advance 0 l2 (at_pc p2 RelDec) in
  let '(l4, p4) := owner_advance 0 l3 p3 in
  p_pc p4 = RelUnlock /\ depth p4 = 0 /\ l4 = mkLock 0 7.
Proof. vm_compute. auto. Qed.

End Owner.

(** ** TicketSpinLock *)
Module Ticket.

Record ticket_lock := mkLock { serving : Z; ticket : Z }.

Definition ticket_new : ticket_lock := mkLock 0 0.
(** [sword(ticket-serving) > 0] *)
Definition ticket_check (l : ticket_lock) : bool := 0 <? to_signed 64 (ticket l - serving l).

Inductive ticket_pc :=
  | Idle
  | AcqAdd                  (* acquire: before __atomic_fetch_add *)
  | Spin (myticket : Z)     (* acquire: in while (myticket != serving) *)
  | TryRead                 (* tryAcquire: before reading serving *)
  | TryCas (tryticket : Z)  (* tryAcquire: before the compare-exchange *)
  | Held
  | Rel                     (* release: before __atomic_fetch_add *)
  | Faulted (f : fault).

Record ticket_proc := mkProc { p_ints : bool; p_pc : ticket_pc }.

Definition ticket_fault_or {A} (p : ticket_proc) (m : res A) (k : A -> ticket_lock * ticket_proc) (l : ticket_lock) : ticket_lock * ticket_proc :=
  match m with Ok a => k a | Err f => (l, mkProc (p_ints p) (Faulted f)) end.

Definition ticket_advance (l : ticket_lock) (p : ticket_proc) : ticket_lock * ticket_proc :=
  let off := kassert (negb (p_ints p)) in
  let goto q := mkProc (p_ints p) q in
  match p_pc p with
  | AcqAdd =>
      ticket_fault_or p off
        (fun _ => (mkLock (serving l) (wrap 64 (ticket l + 1)), goto (Spin (ticket l)))) l
  | Spin myticket => (l, if myticket =? serving l then goto Held else p)
  | TryRead => ticket_fault_or p off (fun _ => (l, goto (TryCas (serving l)))) l
  | TryCas tryticket =>
      if ticket l =? tryticket then (mkLock (serving l) (wrap 64 (tryticket + 1)), goto Held)
      else (l, goto Idle)
  | Rel =>
      ticket_fault_or p (off;; kassert (ticket_check l))
        (fun _ => (mkLock (wrap 64 (serving l + 1)) (ticket l), goto Idle)) l
  | Idle | Held | Faulted _ => (l, p)
  end.

(** the callers switch interrupts off first, and release what they hold *)
Inductive ticket_call : ticket_proc -> ticket_proc -> Prop :=
  | call_acquire : ticket_call (mkProc false Idle) (mkProc false AcqAdd)
  | call_try : ticket_call (mkProc false Idle) (mkProc false TryRead)
  | call_release b : ticket_call (mkProc b Held) (mkProc b Rel)
  | call_ints b b' : ticket_call (mkProc b Idle) (mkProc b' Idle).

Inductive local (i : nat) (l : ticket_lock) (p : ticket_proc) : ticket_lock -> ticket_proc -> Prop :=
  | local_call p' : ticket_call p p' -> local i l p l p'
  | local_advance l' p' : ticket_advance l p = (l', p') -> local i l p l' p'.

Definition step := mstep local.

(** the specification: processors queue up and are served in order *)
Inductive qstep : list nat -> list nat -> Prop :=
  | qstep_other q : qstep q q
  | qstep_enqueue q i : (i ∉ q) -> qstep q (q ++ [i])
  | qstep_serve i q : qstep (i :: q) q.

Definition proc_rel (l : ticket_lock) (q : list nat) (i : nat) (p : ticket_proc) : Prop :=
  match p_pc p with
  | Idle => (i ∉ q)
  | AcqAdd | TryRead => (i ∉ q) /\ p_ints p = false
  | TryCas s => (i ∉ q) /\ s <= serving l /\ p_ints p = false
  | Spin my => q !! Z.to_nat (my - serving l) = Some i /\ serving l <= my /\ p_ints p = false
  | Held | Rel => head q = Some i /\ p_ints p = false
  | Faulted _ => False
  end.

Definition rel (c : ticket_lock * list ticket_proc) (q : list nat) : Prop :=
  NoDup q /\ 0 <= serving c.1 /\ ticket c.1 = serving c.1 + lenZ q /\ ticket c.1 < 2 ^ 63 /\
  forall i p, c.2 !! i = Some p -> proc_rel c.1 q i p.

Definition initial (c : ticket_lock * list ticket_proc) : Prop :=
  c.1 = ticket_new /\ Forall (fun p => p_pc p = Idle) c.2.

Lemma ticket_rel_initial c : initial c -> rel c [].
Proof.
  destruct c as [l ls]. intros [Hl Hf]. simpl in *. subst l.
  repeat split; simpl; try done; [constructor|].
  intros i p Hi. rewrite Forall_lookup in Hf. unfold proc_rel. rewrite (Hf i p Hi).
  by intros ?%elem_of_nil.
Qed.

(** joining the queue keeps the others' places *)
Lemma proc_rel_enqueue s t t' q i j p :
  i <> j -> proc_rel (mkLock s t) q j p -> proc_rel (mkLock s t') (q ++ [i]) j p.
Proof.
  intros Hne. unfold proc_rel. simpl.
  assert (j ∉ q -> j ∉ q ++ [i]) as Hout by (rewrite elem_of_app, list_elem_of_singleton; naive_solver).
  assert (head q = Some j -> head (q ++ [i]) = Some j) by (by destruct q).
  destruct (p_pc p); try naive_solver.
  intros (H1 & ? & ?). split; [|done]. by apply lookup_app_l_Some.
Qed.

(** serving the head moves the others up by one *)
Lemma proc_rel_serve s t i q j p :
  NoDup (i :: q) -> i <> j -> proc_rel (mkLock s t) (i :: q) j p -> proc_rel (mkLock (s + 1) t) q j p.
Proof.
  intros Hnd Hne. unfold proc_rel. simpl.
  assert ((j ∉ i :: q) -> (j ∉ q)) as Hout by (rewrite not_elem_of_cons; naive_solver).
  destruct (p_pc p); try naive_solver.
  - intros (H1 & H2 & H3). destruct (decide (myticket = s)) as [->|].
    { rewrite Z.sub_diag in H1. naive_solver. }
    replace (Z.to_nat (myticket - s)) with (S (Z.to_nat (myticket - (s + 1)))) in H1 by lia.
    split; [done|]. split; [lia|done].
  - intros (? & ? & ?). repeat split; [auto|lia|done].
Qed.

Lemma rel_step c c' q :
  rel c q -> ticket c.1 + 1 < 2 ^ 63 -> step c c' ->
  exists q', qstep q q' /\ rel c' q' /\ ticket c'.1 <= ticket c.1 + 1.
Proof.
  intros (Hnd & Hs & Ht & Hb & Hr) Hb' Hstep.
  destruct Hstep as [i l ls p l' p' Hi Hloc]. simpl in *.
  pose proof (Hr i p Hi) as Hp. pose proof (lenZ_nonneg q) as Hq.
  (* the lock is unchanged and the processor keeps its place *)
  assert (forall p', proc_rel l q i p' ->
    exists q', qstep q q' /\ rel (l, <[i := p']> ls) q' /\ ticket l <= ticket l + 1) as Hsame.
  { intros p1 Hp1. exists q. split; [constructor|]. split; [|lia].
    repeat split; simpl; try done. intros j r [[-> ->]|[? Hj]]%(moved_lookup _ _ _ _ _ _ Hi); auto. }
  (* the processor joins the queue *)
  assert (forall l' p', (i ∉ q) -> l' = mkLock (serving l) (ticket l + 1) -> proc_rel l' (q ++ [i]) i p' ->
    exists q', qstep q q' /\ rel (l', <[i := p']> ls) q' /\ ticket l' <= ticket l + 1) as Hjoin.
  { intros ? p1 Hni -> Hp1. exists (q ++ [i]). split; [by constructor|]. split; [|simpl; lia].
    split; [apply NoDup_app; repeat split; [done| |apply NoDup_singleton]|].
    { intros x Hx ->%list_elem_of_singleton. done. }
    unfold rel. simpl. rewrite lenZ_app. unfold lenZ at 2. simpl. repeat split; try lia.
    intros j r [[-> ->]|[? Hj]]%(moved_lookup _ _ _ _ _ _ Hi); [done|].
    destruct l as [s t]. apply (proc_rel_enqueue s t); [done|by apply Hr]. }
  destruct Hloc as [p' Hcall|l' p' Hadv].
  { apply Hsame. destruct Hcall; unfold proc_rel in *; naive_solver. }
  destruct p as [b pcp]. unfold ticket_advance, ticket_fault_or in Hadv. unfold proc_rel in Hp. simpl in *.
  destruct pcp; simpl in *; try (destruct Hp as [Hp ->]); simpl in Hadv.
  - injection Hadv as <- <-. by apply Hsame.
  - injection Hadv as <- <-. rewrite wrap_small by lia. apply Hjoin; [done|done|].
    unfold proc_rel. simpl. split; [|split; [lia|done]].
    assert (Z.to_nat (ticket l - serving l) = length q) as -> by (unfold lenZ in *; lia).
    rewrite lookup_app_r by done. by rewrite Nat.sub_diag.
  - injection Hadv as <- <-. apply Hsame. destruct Hp as (H1 & H2 & H3).
    destruct (Z.eqb_spec myticket (serving l)) as [->|]; [|done].
    unfold proc_rel. simpl. split; [|done]. rewrite Z.sub_diag in H1. by destruct q.
  - injection Hadv as <- <-. apply Hsame. unfold proc_rel. simpl. repeat split; [done|lia].
  - destruct Hp as (H1 & H2 & ->). destruct (Z.eqb_spec (ticket l) tryticket) as [E|E];
      injection Hadv as <- <-; [|by apply Hsame].
    rewrite wrap_small by lia. apply Hjoin; [done|f_equal; lia|].
    assert (q = []) as -> by (destruct q; [done|]; rewrite lenZ_cons in Ht; pose proof (lenZ_nonneg q); lia).
    done.
  - injection Hadv as <- <-. by apply Hsame.
  - destruct q as [|i' q]; [done|]. injection Hp as ->. rewrite lenZ_cons in Ht.
    pose proof (lenZ_nonneg q).
    assert (ticket_check l = true) as Ec.
    { unfold ticket_check, to_signed. apply Z.ltb_lt. rewrite wrap_small by lia.
      destruct (Z.ltb_spec (ticket l - serving l) (2 ^ (64 - 1))); lia. }
    rewrite Ec in Hadv. simpl in Hadv. injection Hadv as <- <-. rewrite wrap_small by lia.
    exists q. split; [constructor|]. split; [|simpl; lia].
    pose proof Hnd as [Hni Hnd']%NoDup_cons.
    repeat split; simpl; try lia; [done|].
    intros j r [[-> ->]|[? Hj]]%(moved_lookup _ _ _ _ _ _ Hi); [done|].
    destruct l as [s t]. simpl. apply (proc_rel_serve s t i); auto.
  - done.
Qed.

Inductive run : nat -> ticket_lock * list ticket_proc -> ticket_lock * list ticket_proc -> Prop :=
  | run_nil c : run 0 c c
  | run_cons n c c1 c' : step c c1 -> run n c1 c' -> run (S n) c c'.

Lemma rel_run n c c' :
  run n c c' -> forall q, rel c q -> ticket c.1 + Z.of_nat n < 2 ^ 63 ->
  exists q', steps qstep q q' /\ rel c' q'.
Proof.
  induction 1 as [c|n c c1 c' Hs Hr IH]; intros q Hrel Hn.
  - exists q. split; [constructor|done].
  - destruct (rel_step _ _ _ Hrel ltac:(lia) Hs) as (q1 & Hq & Hrel' & Ht).
    destruct (IH q1 Hrel' ltac:(lia)) as (q' & Hq' & Hrel'').
    exists q'. split; [by eapply steps_step|done].
Qed.

(** C23. [TicketSpinLock] implements a first-come-first-served queue: in every
    run of fewer than 2^63 steps there is a queue of processors, changed only
    by appending at its end and serving at its front, such that the holder is
    the first of the queue (so there is at most one), a processor with ticket
    [serving + k] is the one at position [k], tickets outstanding are as many
    as queued processors, the first of the queue acquires the lock in its next
    action, and no assertion fails. *)
Theorem ticketlock_fifo n c c' :
  initial c -> run n c c' -> Z.of_nat n < 2 ^ 63 ->
  exists q, steps qstep [] q /\ NoDup q /\
    ticket c'.1 = serving c'.1 + lenZ q /\
    forall i p, c'.2 !! i = Some p ->
      (p_pc p = Held -> head q = Some i) /\
      (forall my, p_pc p = Spin my -> q !! Z.to_nat (my - serving c'.1) = Some i) /\
      (forall my, p_pc p = Spin my -> head q = Some i -> p_pc (ticket_advance c'.1 p).2 = Held) /\
      (forall f, p_pc p <> Faulted f).
Proof.
  intros Hi Hr Hn.
  assert (ticket c.1 + Z.of_nat n < 2 ^ 63) as Hn' by (destruct Hi as [-> _]; done).
  destruct (rel_run _ _ _ Hr [] (ticket_rel_initial _ Hi) Hn') as (q & Hq & Hnd & Hs & Ht & Hb & Hp).
  exists q. repeat split; try done; intros; specialize (Hp i p ltac:(done)); unfold proc_rel in Hp.
  - rewrite H0 in Hp. naive_solver.
  - rewrite H0 in Hp. naive_solver.
  - rewrite H0 in Hp. destruct Hp as (Hk & Hle & _). unfold ticket_advance. rewrite H0. simpl.
    assert (Z.to_nat (my - serving c'.1) = 0)%nat as E.
    { eapply NoDup_lookup; [done|done|]. by destruct q. }
    destruct (Z.eqb_spec my (serving c'.1)); [done|lia].
  - intros E. by rewrite E in Hp.
Qed.

(** processor 1 holds the lock, 0 queues behind it *)
Lemma ticketlock_fifo_witness :
  exists c c' q, run 6 c c' /\ steps qstep [] q /\ q !! 0%nat = Some 1%nat /\ q !! 1%nat = Some 0%nat.
Proof.
  set (c := (ticket_new, [mkProc false Idle; mkProc false Idle])).
  set (c' := (mkLock 0 2, [mkProc false (Spin 1); mkProc false Held])).
  assert (run 6 c c') as Hr.
  { eapply run_cons; [eapply (mstep_intro _ 1); [done|apply local_call, call_acquire]|].
    eapply run_cons; [eapply (mstep_intro _ 1); [done|apply local_advance; reflexivity]|].
    eapply run_cons; [eapply (mstep_intro _ 0); [done|apply local_call, call_acquire]|].
    eapply run_cons; [eapply (mstep_intro _ 0); [done|apply local_advance; reflexivity]|].
    eapply run_cons; [eapply (mstep_intro _ 1); [done|apply local_advance; reflexivity]|].
    eapply run_cons; [eapply (mstep_intro _ 0); [done|apply local_advance; reflexivity]|].
    apply run_nil. }
  destruct (ticketlock_fifo 6 c c' ltac:(split; [done|repeat constructor]) Hr ltac:(done))
    as (q & Hq & _ & _ & Hp).
  exists c, c', q. split; [done|]. split; [done|].
  destruct (Hp 1%nat (mkProc false Held) eq_refl) as (Hh & _).
  destruct (Hp 0%nat (mkProc false (Spin 1)) eq_refl) as (_ & Hs & _).
  specialize (Hh eq_refl). split; [by destruct q|]. by apply (Hs 1).
Defined.

End Ticket.
