(* ===== verification/Scheduler.v ===== *)
(** * Threads, schedulers and the thread switch: runtime/Scheduler.h, runtime/Thread.h, runtime/Thread.cc

    Every processor has a scheduler; a thread has a current scheduler.  The
    intrusive lists of a scheduler are lists of thread numbers
    ([Intrusive.ilist_operations] shows that [push_back] and [pop_front]
    implement the list operations).  A thread switch is cut at the points
    where another processor can interfere: the locks are released before
    [stackSwitch] saves the context of the suspended thread, so a thread can
    be resumed while it is still running on its stack. *)
From Stdlib Require Import ZArith Lia Bool.
From stdpp Require Import base tactics option numbers list gmap.
From S2P Require Import Prelude.

Abbreviation tid := nat.

Definition topPriority : nat := 0.
Definition defPriority : nat := 1.
Definition idlePriority : nat := 2.
Definition maxPriority : nat := 3.

Inductive tstate := Running | Cancelled | Finishing.
#[export] Instance tstate_eq_dec : EqDecision tstate.
Proof. solve_decision. Defined.

(** [saved]: [stackPointer] holds the context with which the thread can run *)
Record thread := mkThread {
  scheduler : option nat; affinity : bool; priority : nat; state : tstate; saved : bool }.

Definition cancelled (t : thread) : bool := bool_decide (state t = Cancelled).
Definition finishing (t : thread) : bool := bool_decide (state t = Finishing).
Definition setPriority (p : nat) (t : thread) : thread :=
  mkThread (scheduler t) (affinity t) p (state t) (saved t).
Definition setAffinity (a : bool) (t : thread) : thread :=
  mkThread (scheduler t) a (priority t) (state t) (saved t).
Definition setScheduler (s : nat) (t : thread) : thread :=
  mkThread (Some s) (affinity t) (priority t) (state t) (saved t).
Definition setState (st : tstate) (t : thread) : thread :=
  mkThread (scheduler t) (affinity t) (priority t) st (saved t).
Definition setSaved (b : bool) (t : thread) : thread :=
  mkThread (scheduler t) (affinity t) (priority t) (state t) b.
(** the constructor; [Thread::setup] prepares the first context *)
Definition newThread : thread := mkThread None false defPriority Running false.
Definition thread_setup (cur_sched : option nat) (t : thread) : thread :=
  setSaved true (if affinity t then t
                 else mkThread cur_sched (affinity t) (priority t) (state t) (saved t)).

(** ** BaseScheduler *)
Record sched := mkSched { readyCount : Z; readyQueue : list (list tid); peer : nat }.

Definition sched_new (self : nat) : sched := mkSched 0 (replicate maxPriority []) self.
Definition sched_empty (s : sched) : bool := readyCount s =? 0.
Definition setPeer (p : nat) (s : sched) : sched := mkSched (readyCount s) (readyQueue s) p.

(** the first non-empty queue of the levels [i <= .. < maxlevel] *)
Fixpoint dequeue_loop (n i : nat) (s : sched) : option (tid * sched) :=
  match n with
  | O => None
  | S n =>
      match readyQueue s !! i with
      | Some (t :: q) =>
          Some (t, mkSched (wrap 64 (readyCount s - 1)) (<[i := q]> (readyQueue s)) (peer s))
      | _ => dequeue_loop n (S i) s
      end
  end.
Definition dequeue (maxlevel : nat) (s : sched) : option (tid * sched) := dequeue_loop maxlevel 0 s.

(** [enqueue]: the new state and whether to call [wakeUp] *)
Definition enqueue (t : tid) (prio : nat) (s : sched) : res (sched * bool) :=
  kassert (prio <? maxPriority)%nat;;
  q ← in_bounds (readyQueue s !! prio);
  mret (mkSched (wrap 64 (readyCount s + 1)) (<[prio := q ++ [t]]> (readyQueue s)) (peer s),
        readyCount s =? 0).

Definition ready (s : sched) : list tid := concat (readyQueue s).

Definition sched_ok (s : sched) : Prop :=
  length (readyQueue s) = maxPriority /\ readyCount s = lenZ (ready s) /\ lenZ (ready s) < 2 ^ 64 - 1.

Lemma concat_insert_perm {A} (l : list (list A)) i x y :
  l !! i = Some x -> concat (<[i := y]> l) ++ x ≡ₚ y ++ concat l.
Proof.
  revert i. induction l as [|z l IH]; intros [|i] H; simplify_eq/=.
  - rewrite <- (assoc_L (++)). f_equiv. apply Permutation_app_comm.
  - rewrite <- (assoc_L (++)), (IH i H). rewrite !(assoc_L (++)). f_equiv. apply Permutation_app_comm.
Qed.

Lemma dequeue_loop_spec n i s t s' :
  dequeue_loop n i s = Some (t, s') ->
  exists l q, (i <= l < i + n)%nat /\ readyQueue s !! l = Some (t :: q) /\
    (forall j qj, (i <= j < l)%nat -> readyQueue s !! j = Some qj -> qj = []) /\
    s' = mkSched (wrap 64 (readyCount s - 1)) (<[l := q]> (readyQueue s)) (peer s).
Proof.
  revert i. induction n as [|n IH]; simpl; [done|]. intros i H.
  destruct (readyQueue s !! i) as [[|t0 q]|] eqn:E.
  2: { injection H as <- <-. exists i, q. split; [lia|]. split; [done|]. split; [|done]. intros; lia. }
  all: destruct (IH _ H) as (l & q' & Hl & Hq & Hb & ->); exists l, q';
    (split; [lia|]; split; [done|]; split; [|done]); intros j qj Hj Hqj;
    (destruct (decide (j = i)) as [->|]; [congruence|apply (Hb j); [lia|done]]).
Qed.

Lemma dequeue_loop_None n i s :
  dequeue_loop n i s = None -> forall j q, (i <= j < i + n)%nat -> readyQueue s !! j = Some q -> q = [].
Proof.
  revert i. induction n as [|n IH]; simpl; [intros; lia|]. intros i H j q Hj Hq.
  destruct (decide (j = i)) as [->|].
  - rewrite Hq in H. by destruct q.
  - apply (IH (S i)) with j; [|lia|done]. by destruct (readyQueue s !! i) as [[|? ?]|].
Qed.

Lemma dequeue_ok m s t s' :
  sched_ok s -> dequeue m s = Some (t, s') ->
  sched_ok s' /\ ready s ≡ₚ t :: ready s' /\ peer s' = peer s.
Proof.
  intros (Hl & Hc & Hb) H. apply dequeue_loop_spec in H as (l & q & _ & Hq & _ & ->).
  pose proof (concat_insert_perm _ l (t :: q) q Hq) as Hp.
  assert (ready s ≡ₚ t :: concat (<[l := q]> (readyQueue s))) as Hp'.
  { unfold ready. rewrite Permutation_app_comm in Hp. simpl in Hp.
    apply (Permutation_app_inv_l q). rewrite <- Hp. by rewrite Permutation_middle. }
  split; [|done]. assert (lenZ (ready s) = 1 + lenZ (concat (<[l := q]> (readyQueue s)))) as El.
  { unfold lenZ. rewrite Hp'. simpl length. lia. }
  pose proof (lenZ_nonneg (concat (<[l := q]> (readyQueue s)))).
  unfold sched_ok, ready. simpl. rewrite length_insert. fold (ready s) in *.
  rewrite wrap_small by lia. repeat split; [done|lia|lia].
Qed.

Lemma enqueue_ok t p s :
  sched_ok s -> (p < maxPriority)%nat -> lenZ (ready s) + 1 < 2 ^ 64 - 1 ->
  exists s' w, enqueue t p s = Ok (s', w) /\ sched_ok s' /\ ready s' ≡ₚ t :: ready s /\ peer s' = peer s.
Proof.
  intros (Hl & Hc & Hb) Hp Hlen. unfold enqueue.
  destruct (Nat.ltb_spec p maxPriority); [|lia]. simpl.
  destruct (lookup_lt_is_Some_2 (readyQueue s) p) as [q Hq]; [lia|]. rewrite Hq. simpl.
  eexists _, _. split; [done|].
  pose proof (concat_insert_perm _ p q (q ++ [t]) Hq) as Hperm.
  assert (concat (<[p := q ++ [t]]> (readyQueue s)) ≡ₚ t :: ready s) as Hp'.
  { apply (Permutation_app_inv_r q). rewrite Hperm. unfold ready. simpl.
    rewrite <- (assoc_L (++)). simpl. by rewrite <- Permutation_middle, Permutation_app_comm. }
  split; [|done]. pose proof (lenZ_nonneg (ready s)).
  unfold sched_ok, ready in *. simpl. rewrite length_insert.
  assert (lenZ (concat (<[p := q ++ [t]]> (readyQueue s))) = 1 + lenZ (concat (readyQueue s))) as El.
  { unfold lenZ. rewrite Hp'. simpl length. lia. }
  rewrite wrap_small by lia. repeat split; [done|lia|lia].
Qed.

(** A scheduler is [maxPriority] FIFO queues: [enqueue] appends to the
    queue of the priority (and asserts that the priority is a level, and asks
    for a wake-up exactly if nothing was ready); [dequeue] takes the oldest
    thread of the first non-empty level below [maxlevel] and fails only if
    those levels are empty; [readyCount] counts the queued threads. *)
Theorem scheduler_queues s :
  sched_ok s ->
  (forall t p, lenZ (ready s) + 1 < 2 ^ 64 - 1 ->
     match enqueue t p s with
     | Ok (s', wake) => (p < maxPriority)%nat /\ sched_ok s' /\ wake = bool_decide (ready s = []) /\
         forall l, readyQueue s' !! l = if decide (l = p) then (fun q => q ++ [t]) <$> readyQueue s !! l
                                        else readyQueue s !! l
     | Err f => f = AssertFailed /\ (maxPriority <= p)%nat
     end) /\
  (forall m, (m <= maxPriority)%nat ->
     match dequeue m s with
     | Some (t, s') => sched_ok s' /\ exists l q, (l < m)%nat /\ readyQueue s !! l = Some (t :: q) /\
         readyQueue s' = <[l := q]> (readyQueue s) /\
         forall j, (j < l)%nat -> readyQueue s !! j = Some []
     | None => forall j, (j < m)%nat -> readyQueue s !! j = Some []
     end) /\
  (sched_empty s = true <-> ready s = []).
Proof.
  intros Hok. pose proof Hok as (Hl & Hc & Hb).
  assert (sched_empty s = true <-> ready s = []) as Hempty.
  { unfold sched_empty. rewrite Z.eqb_eq, Hc. unfold lenZ.
    destruct (ready s); simpl; split; (done || lia). }
  assert (forall j, (j < maxPriority)%nat -> exists q, readyQueue s !! j = Some q) as Hlev
    by (intros j Hj; apply lookup_lt_is_Some_2; lia).
  split; [|split; [|done]].
  - intros t p Hlen. destruct (Nat.ltb_spec p maxPriority) as [Hp|Hp].
    + destruct (enqueue_ok t p s Hok Hp Hlen) as (s' & w & E & Hok' & _). rewrite E.
      split; [done|]. split; [done|]. revert E. unfold enqueue.
      destruct (Nat.ltb_spec p maxPriority); [|lia]. destruct (Hlev p Hp) as [q Hq]. rewrite Hq. simpl.
      intros [= <- <-]. split.
      * apply eq_bool_prop_intro. rewrite !Is_true_true, bool_decide_eq_true. exact Hempty.
      * intros l. simpl. case_decide as Hd; [subst l|by apply list_lookup_insert_ne].
        rewrite Hq. apply list_lookup_insert_eq. lia.
    + unfold enqueue. destruct (Nat.ltb_spec p maxPriority); [lia|]. simpl. auto.
  - intros m Hm. destruct (dequeue m s) as [[t s']|] eqn:E.
    + split; [by eapply dequeue_ok|]. apply dequeue_loop_spec in E as (l & q & Hlm & Hq & Hbef & ->).
      exists l, q. split; [lia|]. split; [done|]. split; [done|].
      intros j Hj. destruct (Hlev j ltac:(lia)) as [qj Hqj]. rewrite Hqj. f_equal. apply (Hbef j); [lia|done].
    + intros j Hj. destruct (Hlev j ltac:(lia)) as [qj Hqj]. rewrite Hqj. f_equal.
      apply (dequeue_loop_None _ _ _ E j); [lia|done].
Qed.

(** an idle thread (5) and two others are ready *)
Lemma scheduler_queues_witness :
  exists s', dequeue maxPriority (mkSched 3 [[]; [4; 7]; [5]]%nat 0) = Some (4%nat, s') /\ sched_ok s'.
Proof.
  assert (sched_ok (mkSched 3 [[]; [4; 7]; [5]]%nat 0)) as H by (repeat split; done).
  eexists. split; [reflexivity|].
  apply (proj1 (proj1 (proj2 (scheduler_queues _ H)) maxPriority (le_n _))).
Defined.

(** ** The thread switch *)
Module Switching.

(** where a processor is in [switchThread] *)
Inductive phase :=
  | Run                               (* executes its current thread *)
  | Switch (next : tid) (yield : bool)  (* dequeued next, locks released, before stackSwitch *)
  | Post (prev : tid) (yield : bool)  (* on the new stack, before postYield/postSuspend *)
  | Tail.                             (* before the test for cancellation *)

Record cpu := mkCpu { cur : tid; ph : phase }.

Record world := mkWorld {
  threads : gmap tid thread;
  scheds : list sched;                (* one per processor *)
  cpus : list cpu;
  blocked : list tid;                 (* suspended and not yet resumed *)
  dying : list tid }.                 (* terminated and not destroyed *)

Definition get_thread (t : tid) (w : world) : res thread :=
  match threads w !! t with Some x => mret x | None => Err NullDeref end.
Definition get_sched (s : nat) (w : world) : res sched := in_bounds (scheds w !! s).
Definition put_thread (t : tid) (x : thread) (w : world) : world :=
  mkWorld (<[t := x]> (threads w)) (scheds w) (cpus w) (blocked w) (dying w).
Definition put_sched (s : nat) (x : sched) (w : world) : world :=
  mkWorld (threads w) (<[s := x]> (scheds w)) (cpus w) (blocked w) (dying w).
Definition put_cpu (c : nat) (x : cpu) (w : world) : world :=
  mkWorld (threads w) (scheds w) (<[c := x]> (cpus w)) (blocked w) (dying w).
Definition set_blocked (l : list tid) (w : world) : world :=
  mkWorld (threads w) (scheds w) (cpus w) l (dying w).
Definition set_dying (l : list tid) (w : world) : world :=
  mkWorld (threads w) (scheds w) (cpus w) (blocked w) l.

(** [scheduler->...] of a thread *)
Definition sched_of (x : thread) : res nat :=
  match scheduler x with Some s => mret s | None => Err NullDeref end.

(** [s.enqueue(t)] *)
Definition do_enqueue (s : nat) (t : tid) (w : world) : res world :=
  x ← get_thread t w; sc ← get_sched s w;
  '(sc, _) ← enqueue t (priority x) sc;
  mret (put_sched s sc w).

(** [s.enqueueBalanced(t)] *)
Definition enqueueBalanced (s : nat) (t : tid) (w : world) : res world :=
  x ← get_thread t w; sc ← get_sched s w; pe ← get_sched (peer sc) w;
  if wrap 64 (readyCount pe + 2) <? readyCount sc
  then do_enqueue (peer sc) t (put_thread t (setScheduler (peer sc) x) w)
  else do_enqueue s t w.

(** [switchThread] up to [stackSwitch]; [leave] says what becomes of a thread
    that does not yield *)
Definition switch_begin (c : nat) (yield : bool) (leave : tid -> world -> world) (w : world) : res world :=
  p ← in_bounds (cpus w !! c);
  x ← get_thread (cur p) w; s ← sched_of x; sc ← get_sched s w;
  match dequeue (if yield then idlePriority else maxPriority) sc with
  | Some (next, sc) =>
      kassert (negb (cur p =? next)%nat);;
      let w := put_sched s sc w in
      let w := if yield then w else leave (cur p) w in
      mret (put_cpu c (mkCpu (cur p) (Switch next yield)) w)
  | None => kassert yield;; mret (put_cpu c (mkCpu (cur p) Tail) w)
  end.

(** [Thread::yield], [Thread::preempt] *)
Definition yield (c : nat) (w : world) : res world := switch_begin c true (fun _ w => w) w.
(** [Thread::suspend]: the locks under which [t] can be found are released *)
Definition suspend (c : nat) (w : world) : res world :=
  switch_begin c false (fun t w => set_blocked (t :: blocked w) w) w.
Definition finish (c : nat) (w : world) : res world :=
  p ← in_bounds (cpus w !! c); x ← get_thread (cur p) w;
  switch_begin c false (fun t w => set_dying (t :: dying w) w)
    (put_thread (cur p) (setState Finishing x) w).
(** [Thread::terminate] *)
Definition terminate := finish.

(** the register switch of Stack.S: the context of the current thread is
    saved, that of [next] is used up *)
Definition stackSwitch (c : nat) (w : world) : res world :=
  p ← in_bounds (cpus w !! c);
  match ph p with
  | Switch next y =>
      x ← get_thread (cur p) w; n ← get_thread next w;
      kassert (saved n);;
      mret (put_cpu c (mkCpu next (Post (cur p) y))
             (put_thread next (setSaved false n) (put_thread (cur p) (setSaved true x) w)))
  | _ => Err Aborted
  end.

(** [postYield] and [postSuspend] with [postThreadSwitch] *)
Definition postYield (prev : tid) (w : world) : res world :=
  x ← get_thread prev w;
  kassert (negb (finishing x));;
  s ← sched_of x;
  if affinity x then do_enqueue s prev w else enqueueBalanced s prev w.
Definition destroy (t : tid) (w : world) : res world :=
  x ← get_thread t w; kassert (finishing x);;
  mret (mkWorld (delete t (threads w)) (scheds w) (cpus w) (blocked w)
         (list_difference (dying w) [t])).
Definition postSuspend (prev : tid) (w : world) : res world :=
  x ← get_thread prev w;
  if finishing x then destroy prev w else mret w.
Definition postSwitch (c : nat) (w : world) : res world :=
  p ← in_bounds (cpus w !! c);
  match ph p with
  | Post prev y =>
      w ← (if y then postYield prev w else postSuspend prev w);
      mret (put_cpu c (mkCpu (cur p) Tail) w)
  | _ => Err Aborted
  end.

(** [if (state == Cancelled) ...] at the end of [switchThread] *)
Definition tail (c : nat) (w : world) : res world :=
  p ← in_bounds (cpus w !! c); x ← get_thread (cur p) w;
  if cancelled x then finish c w else mret (put_cpu c (mkCpu (cur p) Run) w).

(** [Thread::resume] *)
Definition resume (t : tid) (w : world) : res world :=
  x ← get_thread t w; s ← sched_of x;
  do_enqueue s t (set_blocked (list_difference (blocked w) [t]) w).

(** [Thread::create], the setters, [setup] and [resume] ([Thread::start]) *)
Definition start (c : nat) (t : tid) (sa : option nat) (prio : nat) (w : world) : res world :=
  p ← in_bounds (cpus w !! c); x ← get_thread (cur p) w;
  let n := setPriority prio newThread in
  let n := match sa with Some s => setAffinity true (setScheduler s n) | None => n end in
  let n := thread_setup (scheduler x) n in
  resume t (put_thread t n w).

(** the state change of [Thread::cancel]; the rest is in BlockingSync.v *)
Definition cancel_state (t : tid) (w : world) : res world :=
  x ← get_thread t w; mret (put_thread t (setState Cancelled x) w).

Inductive op :=
  | OYield | OSuspend | OTerminate | OSwitch | OPost | OTail
  | OResume (t : tid) | OStart (t : tid) (sa : option nat) (prio : nat) | OCancel (t : tid)
  | OSetPeer (s p : nat).

Definition exec (o : op) (c : nat) (w : world) : res world :=
  match o with
  | OYield => yield c w
  | OSuspend => suspend c w
  | OTerminate => terminate c w
  | OSwitch => stackSwitch c w
  | OPost => postSwitch c w
  | OTail => tail c w
  | OResume t => resume t w
  | OStart t sa prio => start c t sa prio w
  | OCancel t => cancel_state t w
  | OSetPeer s p => sc ← get_sched s w; mret (put_sched s (setPeer p sc) w)
  end.

(** ** Who can do what, and when

    The idle thread of each processor only yields and is not cancelled; a
    blocked thread is resumed by the one that took it off its queue; threads
    start with a level of the scheduler and, with affinity, an existing one;
    thread counts fit their words. *)
Definition is_idle (w : world) (t : tid) : Prop :=
  exists x, threads w !! t = Some x /\ priority x = idlePriority.

Definition room (w : world) : Prop := forall s sc, scheds w !! s = Some sc -> lenZ (ready sc) + 3 < 2 ^ 64 - 1.

Definition enabled (o : op) (c : nat) (w : world) : Prop :=
  room w /\ exists p, cpus w !! c = Some p /\
  match o with
  | OYield => ph p = Run
  | OSuspend | OTerminate => ph p = Run /\ ~ is_idle w (cur p)
  | OSwitch => exists n y, ph p = Switch n y
  | OPost => exists n y, ph p = Post n y
  | OTail => ph p = Tail
  | OResume t => t ∈ blocked w
  | OStart t sa prio => ph p = Run /\ threads w !! t = None /\
      (prio < idlePriority)%nat /\ match sa with Some s => s < length (scheds w) | None => True end%nat
  | OCancel t => t <> cur p /\ is_Some (threads w !! t) /\ ~ is_idle w t
  | OSetPeer s p => (s < length (scheds w) /\ p < length (scheds w))%nat
  end.

(** [Processor::startup] on a further processor: its current thread and its
    idle thread, which is resumed *)
Definition startup (w : world) : world :=
  let c := length (cpus w) in
  let cu := (2 * c)%nat in let id := (2 * c + 1)%nat in
  mkWorld (<[id := mkThread (Some c) true idlePriority Running true]>
            (<[cu := mkThread (Some c) true defPriority Running false]> (threads w)))
    (scheds w ++ [mkSched 1 [[]; []; [id]] c]) (cpus w ++ [mkCpu cu Run]) (blocked w) (dying w).
Definition boot (n : nat) : world := Nat.iter n startup (mkWorld ∅ [] [] [] []).

Definition step (w w' : world) : Prop := exists o c, enabled o c w /\ exec o c w = Ok w'.

(** ** Where threads are *)
Definition at_cpu (p : cpu) : list tid :=
  match ph p with
  | Run | Tail => [cur p]
  | Switch n true => [cur p; n]
  | Switch n false => [n]
  | Post q true => [cur p; q]
  | Post q false => [cur p]
  end.

(** the thread that left the processor without yielding *)
Definition outgoing (p : cpu) : option tid :=
  match ph p with
  | Switch _ false => Some (cur p)
  | Post q false => Some q
  | _ => None
  end.

Inductive loc := OnCpu (c : nat) | Ready (s : nat) | Blocked | Dying.
#[global] Instance loc_eq_dec : EqDecision loc.
Proof. solve_decision. Defined.

Definition threads_at (w : world) (l : loc) : list tid :=
  match l with
  | OnCpu c => match cpus w !! c with Some p => at_cpu p | None => [] end
  | Ready s => match scheds w !! s with Some sc => ready sc | None => [] end
  | Blocked => blocked w
  | Dying => dying w
  end.

(** [L] is the place of each thread *)
Definition placed (f : loc -> list tid) (L : tid -> option loc) : Prop :=
  (forall l, NoDup (f l)) /\ (forall l t, t ∈ f l <-> L t = Some l).

Definition put (t : tid) (l : option loc) (L : tid -> option loc) : tid -> option loc :=
  fun k => if decide (k = t) then l else L k.

Lemma placed_ext f f' L : placed f L -> (forall l, f' l ≡ₚ f l) -> placed f' L.
Proof. intros [Hn Hp] He. split; intros; rewrite (He l); auto. Qed.

(** [t] moves from [l] to [l'] *)
Lemma placed_move f f' L t l l' :
  placed f L -> l <> l' -> f l ≡ₚ t :: f' l -> f' l' ≡ₚ t :: f l' ->
  (forall k, k <> l -> k <> l' -> f' k ≡ₚ f k) -> placed f' (put t (Some l') L).
Proof.
  intros [Hn Hp] Hne Hl Hl' Hk.
  assert (L t = Some l) as Ht by (apply Hp; rewrite Hl; left).
  pose proof (Hn l) as Hnl. rewrite Hl in Hnl. apply NoDup_cons in Hnl as [Hnt Hnl].
  assert (t ∉ f l') as Hnt' by (rewrite Hp; congruence).
  split.
  - intros k. destruct (decide (k = l)) as [->|]; [done|].
    destruct (decide (k = l')) as [->|]; [rewrite Hl'; by apply NoDup_cons|by rewrite Hk].
  - intros k u. unfold put. destruct (decide (u = t)) as [->|Hu].
    + destruct (decide (k = l')) as [->|Hkl']; [rewrite Hl'; set_solver|].
      destruct (decide (k = l)) as [->|]; [split; [done|congruence]|].
      rewrite Hk by done. rewrite Hp. split; congruence.
    + rewrite <- Hp. destruct (decide (k = l)) as [->|]; [rewrite Hl; set_solver|].
      destruct (decide (k = l')) as [->|]; [rewrite Hl'; set_solver|]. by rewrite Hk.
Qed.

Lemma placed_add f f' L t l :
  placed f L -> L t = None -> f' l ≡ₚ t :: f l -> (forall k, k <> l -> f' k ≡ₚ f k) ->
  placed f' (put t (Some l) L).
Proof.
  intros [Hn Hp] Ht Hl Hk. split.
  - intros k. destruct (decide (k = l)) as [->|]; [|by rewrite Hk].
    rewrite Hl. apply NoDup_cons. split; [rewrite Hp; congruence|done].
  - intros k u. unfold put. destruct (decide (u = t)) as [->|Hu].
    + destruct (decide (k = l)) as [->|]; [rewrite Hl; set_solver|].
      rewrite Hk, Hp by done. split; congruence.
    + rewrite <- Hp. destruct (decide (k = l)) as [->|]; [rewrite Hl; set_solver|]. by rewrite Hk.
Qed.

Lemma placed_remove f f' L t l :
  placed f L -> f l ≡ₚ t :: f' l -> (forall k, k <> l -> f' k ≡ₚ f k) -> placed f' (put t None L).
Proof.
  intros [Hn Hp] Hl Hk. pose proof (Hn l) as Hnl. rewrite Hl in Hnl. apply NoDup_cons in Hnl as [Hnt Hnl].
  assert (L t = Some l) as Ht by (apply Hp; rewrite Hl; left).
  split.
  - intros k. destruct (decide (k = l)) as [->|]; [done|by rewrite Hk].
  - intros k u. unfold put. destruct (decide (u = t)) as [->|Hu].
    + destruct (decide (k = l)) as [->|]; [split; [done|congruence]|].
      rewrite Hk, Hp by done. split; congruence.
    + rewrite <- Hp. destruct (decide (k = l)) as [->|]; [rewrite Hl; set_solver|]. by rewrite Hk.
Qed.

(** [t] left its processor [c] but its context is not saved yet *)
Definition leaving (w : world) (c : nat) (t : tid) : Prop :=
  exists p n, cpus w !! c = Some p /\ cur p = t /\ ph p = Switch n false.

Definition thread_ok (w : world) (t : tid) (l : loc) : Prop :=
  exists x s, threads w !! t = Some x /\ scheduler x = Some s /\ (s < length (scheds w))%nat /\
    (priority x < maxPriority)%nat /\
    (priority x = idlePriority -> state x = Running /\ affinity x = true) /\
    match l with
    | OnCpu c => s = c /\ state x <> Finishing
    | Ready c => s = c /\ state x <> Finishing /\ (saved x = true \/ leaving w s t)
    | Blocked => state x <> Finishing /\ (saved x = true \/ leaving w s t)
    | Dying => True
    end.

Definition idle_ok (w : world) (L : tid -> option loc) (c : nat) : Prop :=
  exists t x, threads w !! t = Some x /\ priority x = idlePriority /\ affinity x = true /\
    state x = Running /\ (L t = Some (OnCpu c) \/ L t = Some (Ready c)).

Definition inv_at (w : world) (L : tid -> option loc) : Prop :=
  length (cpus w) = length (scheds w) /\
  placed (threads_at w) L /\
  (forall c sc, scheds w !! c = Some sc -> sched_ok sc /\ (peer sc < length (scheds w))%nat) /\
  (forall t l, L t = Some l -> thread_ok w t l) /\
  (forall c p t, cpus w !! c = Some p -> outgoing p = Some t ->
     (exists x, threads w !! t = Some x /\ scheduler x = Some c) /\
     (L t = Some Dying \/ L t = Some Blocked \/ L t = Some (Ready c))) /\
  (forall c p n y, cpus w !! c = Some p -> ph p = Switch n y ->
     cur p <> n /\ exists x, threads w !! n = Some x /\ saved x = true) /\
  (forall c p q, cpus w !! c = Some p -> ph p = Post q true ->
     exists x, threads w !! q = Some x /\ saved x = true) /\
  (forall c, (c < length (cpus w))%nat -> idle_ok w L c).

Definition inv (w : world) : Prop := exists L, inv_at w L.

(** *** facts used by every operation *)
Lemma cpu_lt w L c p : inv_at w L -> cpus w !! c = Some p -> (c < length (scheds w))%nat.
Proof. intros (<- & _) H. by eapply lookup_lt_Some. Qed.

Lemma at_cpu_loc w L c p t : inv_at w L -> cpus w !! c = Some p -> t ∈ at_cpu p <-> L t = Some (OnCpu c).
Proof. intros (_ & [_ Hp] & _) H. rewrite <- Hp. simpl. by rewrite H. Qed.

Lemma ready_loc w L c sc t : inv_at w L -> scheds w !! c = Some sc -> t ∈ ready sc <-> L t = Some (Ready c).
Proof. intros (_ & [_ Hp] & _) H. rewrite <- Hp. simpl. by rewrite H. Qed.

Lemma cur_at_cpu p : (forall n, ph p <> Switch n false) -> cur p ∈ at_cpu p.
Proof. intros H. unfold at_cpu. destruct (ph p) as [|n [|]|q [|]|]; try set_solver. Qed.

(** a thread that is ready where its processor is not switching can run *)
Lemma ready_saved w L c p t :
  inv_at w L -> cpus w !! c = Some p -> (forall n, ph p <> Switch n false) ->
  L t = Some (Ready c) -> exists x, threads w !! t = Some x /\ saved x = true.
Proof.
  intros (_ & _ & _ & Hth & _) Hc Hph Ht. destruct (Hth _ _ Ht) as (x & s & Hx & _ & _ & _ & _ & -> & _ & Hs).
  exists x. split; [done|]. destruct Hs as [|(p' & n & Hp' & _ & Hs)]; [done|].
  rewrite Hc in Hp'. injection Hp' as <-. by destruct (Hph n).
Qed.

(** what a thread keeps when other threads and processors change *)
Lemma thread_ok_frame w w' t l :
  thread_ok w t l -> threads w' !! t = threads w !! t -> length (scheds w') = length (scheds w) ->
  (forall c, leaving w c t -> leaving w' c t) -> thread_ok w' t l.
Proof.
  intros (x & s & Hx & Hs & Hlt & Hp & Hi & Hl) Ht Hlen Hlv. exists x, s. rewrite Ht, Hlen.
  split_and!; try done. destruct l; naive_solver.
Qed.

Lemma leaving_put_cpu w w' c p q s t :
  cpus w !! c = Some p -> cpus w' = <[c := q]> (cpus w) -> (forall n, ph p <> Switch n false) ->
  leaving w s t -> leaving w' s t.
Proof.
  intros Hc Hw' Hph (p' & n & Hp' & Ht & Hs). exists p', n. split; [|done]. rewrite Hw'.
  destruct (decide (s = c)) as [->|]; [|by rewrite list_lookup_insert_ne].
  rewrite Hc in Hp'. injection Hp' as <-. by destruct (Hph n).
Qed.

Lemma lookup_put_cpu (l : list cpu) c q j p p' :
  l !! c = Some p' -> <[c := q]> l !! j = Some p -> (j = c /\ p = q) \/ (j <> c /\ l !! j = Some p).
Proof. intros ?. rewrite list_lookup_insert_Some. intros [(-> & -> & ?)|[? ?]]; auto. Qed.

Lemma lookup_put_sched (l : list sched) c q j p :
  <[c := q]> l !! j = Some p -> (j = c /\ p = q) \/ (j <> c /\ l !! j = Some p).
Proof. rewrite list_lookup_insert_Some. intros [(-> & -> & ?)|[? ?]]; auto. Qed.

Lemma put_eq t l L : put t l L t = l.
Proof. unfold put. by rewrite decide_True. Qed.
Lemma put_ne t l L u : u <> t -> put t l L u = L u.
Proof. intros. unfold put. by rewrite decide_False. Qed.

(** *** the first part of [switchThread] *)
Lemma dequeue_next w L c p m sc next sc' :
  inv_at w L -> cpus w !! c = Some p -> ph p = Run \/ ph p = Tail -> scheds w !! c = Some sc ->
  dequeue m sc = Some (next, sc') ->
  inv_at (put_cpu c (mkCpu (cur p) (Switch next true)) (put_sched c sc' w)) (put next (Some (OnCpu c)) L) /\
  L next = Some (Ready c) /\ L (cur p) = Some (OnCpu c).
Proof.
  intros Hinv Hc Hph Hsc Hdq. pose proof Hinv as (Hlen & Hpl & Hsch & Hth & Hout & Hsw & Hpo & Hid).
  destruct (Hsch _ _ Hsc) as [Hok Hpeer].
  destruct (dequeue_ok _ _ _ _ Hok Hdq) as (Hok' & Hperm & Hpeer').
  assert (forall n, ph p <> Switch n false) as Hns by (intros n E; destruct Hph; congruence).
  assert (L next = Some (Ready c)) as Hnext.
  { apply (ready_loc w L c sc next Hinv Hsc). rewrite Hperm. left. }
  assert (L (cur p) = Some (OnCpu c)) as Hcur.
  { apply (at_cpu_loc w L c p _ Hinv Hc). by apply cur_at_cpu. }
  split; [|done]. unfold inv_at; simpl. rewrite !length_insert.
  split; [done|]. split.
  { apply (placed_move (threads_at w) _ L next (Ready c) (OnCpu c)); [done|done| | |].
    - simpl. rewrite Hsc, list_lookup_insert_eq by (by eapply lookup_lt_Some). done.
    - simpl. rewrite Hc, list_lookup_insert_eq by (by eapply lookup_lt_Some). unfold at_cpu. simpl.
      destruct Hph as [-> | ->]; apply Permutation_swap.
    - intros [k|k| |] H1 H2; simpl; try done; rewrite list_lookup_insert_ne by congruence; done. }
  split.
  { intros j sj [[-> ->]|[? Hj]]%lookup_put_sched; [split; [done|by rewrite Hpeer']|by apply Hsch in Hj]. }
  split.
  { intros t l Ht. unfold put in Ht. destruct (decide (t = next)) as [->|].
    - injection Ht as <-. destruct (Hth _ _ Hnext) as (x & s & Hx & Hs & Hlt & Hpr & Hip & -> & Hst & _).
      exists x, c. simpl. rewrite length_insert. done.
    - apply (thread_ok_frame w); [by apply Hth|done|simpl; by rewrite length_insert|].
      intros s Hl. by eapply leaving_put_cpu. }
  split.
  { intros j pj t [[-> ->]|[? Hj]]%(lookup_put_cpu _ _ _ _ _ _ Hc) Ho; [done|].
    destruct (Hout _ _ _ Hj Ho) as [? Hor]. split; [done|].
    rewrite put_ne; [done|]. intros ->. destruct Hor as [?|[?|?]]; congruence. }
  split.
  { intros j pj n y [[-> ->]|[? Hj]]%(lookup_put_cpu _ _ _ _ _ _ Hc) Hy; [|by eapply Hsw].
    simpl in *. injection Hy as <- <-. split; [congruence|]. by eapply ready_saved. }
  split.
  { intros j pj q [[-> ->]|[? Hj]]%(lookup_put_cpu _ _ _ _ _ _ Hc) Hq; [done|]. by eapply Hpo. }
  intros j Hj. destruct (Hid j Hj) as (t & x & Hx & H1 & H2 & H3 & H4). exists t, x. repeat split; try done.
  unfold put. destruct (decide (t = next)) as [->|]; [|done]. left. destruct H4 as [H4|H4]; congruence.
Qed.

(** *** the current thread leaves: [l] is [Blocked] or [Dying] *)
Lemma cur_leaves w L c p next x x' l b d :
  inv_at w L -> cpus w !! c = Some p -> ph p = Switch next true ->
  threads w !! cur p = Some x -> scheduler x' = scheduler x -> priority x' = priority x ->
  ~ is_idle w (cur p) ->
  (l = Blocked /\ state x' <> Finishing /\ b = cur p :: blocked w /\ d = dying w) \/
  (l = Dying /\ b = blocked w /\ d = cur p :: dying w) ->
  inv_at (mkWorld (<[cur p := x']> (threads w)) (scheds w)
            (<[c := mkCpu (cur p) (Switch next false)]> (cpus w)) b d) (put (cur p) (Some l) L).
Proof.
  intros Hinv Hc Hph Hx Es Ep Hni Hl. pose proof Hinv as (Hlen & Hpl & Hsch & Hth & Hout & Hsw & Hpo & Hid).
  assert (L (cur p) = Some (OnCpu c)) as Hcur.
  { apply (at_cpu_loc w L c p _ Hinv Hc). apply cur_at_cpu. congruence. }
  destruct (Hsw _ _ _ _ Hc Hph) as [Hne _].
  destruct (Hth _ _ Hcur) as (x0 & s & Hx0 & Hs & Hlt & Hpr & Hip & -> & Hst).
  assert (x0 = x) as -> by congruence.
  unfold inv_at; simpl. rewrite !length_insert. split; [done|]. split.
  { apply (placed_move (threads_at w) _ L (cur p) (OnCpu c) l); [done|naive_solver| | |].
    - simpl. rewrite Hc, list_lookup_insert_eq by (by eapply lookup_lt_Some). unfold at_cpu. by rewrite Hph.
    - destruct Hl as [(-> & _ & -> & _)|(-> & _ & ->)]; done.
    - intros [k|k| |] H1 H2; simpl; try done; try (rewrite list_lookup_insert_ne by congruence; done);
        destruct Hl as [(-> & _ & -> & ->)|(-> & -> & ->)]; done. }
  split; [done|]. split.
  { intros t lt Ht. unfold put in Ht. destruct (decide (t = cur p)) as [->|].
    - injection Ht as <-. exists x', c. simpl. rewrite lookup_insert_eq, Es, Ep. split_and!; try done.
      { intros Hidle. destruct Hni. by exists x. }
      destruct Hl as [(-> & Hf & _)|(-> & _)]; [|done]. split; [done|]. right.
      exists (mkCpu (cur p) (Switch next false)), next. simpl.
      rewrite list_lookup_insert_eq by (by eapply lookup_lt_Some). done.
    - apply (thread_ok_frame w); [by apply Hth|simpl; by rewrite lookup_insert_ne|done|].
      intros s' Hlv. eapply leaving_put_cpu; [done|done| |done]. intros n'. rewrite Hph. done. }
  split.
  { intros j pj t [[-> ->]|[? Hj]]%(lookup_put_cpu _ _ _ _ _ _ Hc) Ho.
    - unfold outgoing in Ho. simpl in Ho. injection Ho as <-. rewrite put_eq. split.
      + exists x'. rewrite lookup_insert_eq. split; [done|congruence].
      + destruct Hl as [(-> & _)|(-> & _)]; auto.
    - destruct (Hout _ _ _ Hj Ho) as [Hxt Hor]. assert (t <> cur p) by (intros ->; destruct Hor as [?|[?|?]]; congruence).
      rewrite lookup_insert_ne, put_ne by done. done. }
  split.
  { intros j pj n y [[-> ->]|[? Hj]]%(lookup_put_cpu _ _ _ _ _ _ Hc) Hy.
    - simpl in *. injection Hy as <- <-. split; [done|]. rewrite lookup_insert_ne by done. by eapply Hsw.
    - destruct (Hsw _ _ _ _ Hj Hy) as (? & xn & Hxn & Hsn). split; [done|].
      exists xn. rewrite lookup_insert_ne; [done|]. intros E.
      assert (L n = Some (OnCpu j)) as Hn; [|congruence].
      apply (at_cpu_loc w L j pj n Hinv Hj). unfold at_cpu. rewrite Hy. destruct y; set_solver. }
  split.
  { intros j pj q [[-> ->]|[? Hj]]%(lookup_put_cpu _ _ _ _ _ _ Hc) Hq; [done|].
    destruct (Hpo _ _ _ Hj Hq) as (xq & Hxq & Hsq). exists xq. rewrite lookup_insert_ne; [done|]. intros E.
    assert (L q = Some (OnCpu j)) as Hn; [|congruence].
    apply (at_cpu_loc w L j pj q Hinv Hj). unfold at_cpu. rewrite Hq. set_solver. }
  intros j Hj. destruct (Hid j Hj) as (t & xt & Hxt & H1 & H2 & H3 & H4).
  assert (t <> cur p) by (intros ->; apply Hni; by exists xt).
  exists t, xt. simpl. rewrite lookup_insert_ne, put_ne by done. done.
Qed.

(** a processor goes to a phase without outgoing thread *)
Lemma inv_set_phase w L c p f :
  inv_at w L -> cpus w !! c = Some p -> at_cpu p = [cur p] -> ~ (exists n, ph p = Switch n false) ->
  f = Run \/ f = Tail -> inv_at (put_cpu c (mkCpu (cur p) f) w) L.
Proof.
  intros Hinv Hc Hat Hnsw Hf. pose proof Hinv as (Hlen & Hpl & Hsch & Hth & Hout & Hsw & Hpo & Hid).
  assert (forall n, ph p <> Switch n false) as Hns by (intros n E; eauto).
  assert (at_cpu (mkCpu (cur p) f) = at_cpu p) as Eat
    by (rewrite Hat; unfold at_cpu; simpl; destruct Hf as [-> | ->]; done).
  unfold inv_at; simpl. rewrite !length_insert. split; [done|]. split.
  { eapply placed_ext; [done|]. intros [k|k| |]; try done. simpl.
    destruct (decide (k = c)) as [->|]; [|by rewrite list_lookup_insert_ne].
    rewrite Hc, list_lookup_insert_eq by (by eapply lookup_lt_Some). by rewrite Eat. }
  split; [done|]. split.
  { intros t l Ht. eapply thread_ok_frame; [by apply Hth|done|done|].
    intros s Hlv. by eapply leaving_put_cpu. }
  split.
  { intros j pj t [[-> ->]|[? Hj]]%(lookup_put_cpu _ _ _ _ _ _ Hc) Ho; [|by eapply Hout].
    unfold outgoing in Ho. simpl in Ho. by destruct Hf as [-> | ->]. }
  split.
  { intros j pj n y [[-> ->]|[? Hj]]%(lookup_put_cpu _ _ _ _ _ _ Hc) Hy; [|by eapply Hsw].
    simpl in Hy. destruct Hf; congruence. }
  split; [|done].
  intros j pj q [[-> ->]|[? Hj]]%(lookup_put_cpu _ _ _ _ _ _ Hc) Hq; [|by eapply Hpo].
  simpl in Hq. destruct Hf; congruence.
Qed.

(** the current thread and its scheduler *)
Lemma cur_sched w L c p :
  inv_at w L -> cpus w !! c = Some p -> ph p = Run \/ ph p = Tail ->
  exists x sc, threads w !! cur p = Some x /\ scheduler x = Some c /\ state x <> Finishing /\
    scheds w !! c = Some sc /\ L (cur p) = Some (OnCpu c) /\ (priority x < maxPriority)%nat.
Proof.
  intros Hinv Hc Hph.
  assert (L (cur p) = Some (OnCpu c)) as Hcur.
  { apply (at_cpu_loc w L c p _ Hinv Hc). apply cur_at_cpu. intros n E. destruct Hph; congruence. }
  pose proof Hinv as (_ & _ & _ & Hth & _). destruct (Hth _ _ Hcur) as (x & s & Hx & Hs & Hlt & Hpr & Hip & -> & Hst).
  destruct (lookup_lt_is_Some_2 (scheds w) c) as [sc Hsc]; [done|]. by exists x, sc.
Qed.

Lemma yield_step w L c p :
  inv_at w L -> cpus w !! c = Some p -> ph p = Run -> exists w' L', yield c w = Ok w' /\ inv_at w' L'.
Proof.
  intros Hinv Hc Hph.
  destruct (cur_sched w L c p Hinv Hc (or_introl Hph)) as (x & sc & Hx & Hs & Hf & Hsc & Hcur & _).
  unfold yield, switch_begin, get_thread, get_sched, sched_of. rewrite Hc. simpl. rewrite Hx. simpl.
  rewrite Hs. simpl. rewrite Hsc. simpl. destruct (dequeue idlePriority sc) as [[next sc']|] eqn:E.
  - destruct (dequeue_next w L c p _ sc next sc' Hinv Hc (or_introl Hph) Hsc E) as (Hi & Hn & _).
    destruct (Nat.eqb_spec (cur p) next) as [He|]; [congruence|]. simpl. eauto.
  - simpl. eexists _, L. split; [done|]. apply inv_set_phase; auto; [unfold at_cpu; by rewrite Hph|intros [? ?]; congruence].
Qed.

(** the idle thread is ready when another thread of its processor runs *)
Lemma idle_ready w L c p sc :
  inv_at w L -> cpus w !! c = Some p -> ph p = Run \/ ph p = Tail -> ~ is_idle w (cur p) ->
  scheds w !! c = Some sc -> exists next sc', dequeue maxPriority sc = Some (next, sc').
Proof.
  intros Hinv Hc Hph Hni Hsc. destruct (dequeue maxPriority sc) as [[next sc']|] eqn:E; [eauto|].
  exfalso. pose proof Hinv as (Hlen & _ & Hsch & _ & _ & _ & _ & Hid).
  destruct (Hid c (lookup_lt_Some _ _ _ Hc)) as (t & x & Hx & Hpr & _ & _ & [Ht|Ht]).
  - apply (at_cpu_loc w L c p t Hinv Hc) in Ht. assert (t = cur p) as ->.
    { unfold at_cpu in Ht. destruct Hph as [Hph|Hph]; rewrite Hph in Ht; set_solver. }
    apply Hni. by exists x.
  - apply (ready_loc w L c sc t Hinv Hsc) in Ht. unfold ready in Ht.
    apply list_elem_of_In, in_concat in Ht as (q & Hq & Ht). apply list_elem_of_In, list_elem_of_lookup in Hq as [i Hi].
    assert (q = []) as ->; [|done]. eapply (dequeue_loop_None _ _ _ E i); [|done].
    destruct (Hsch _ _ Hsc) as [[Hl _] _]. apply lookup_lt_Some in Hi. lia.
Qed.

(** suspending, terminating, and being cancelled *)
Lemma leave_step w L c p x x' l leave :
  inv_at w L -> cpus w !! c = Some p -> ph p = Run \/ ph p = Tail -> threads w !! cur p = Some x ->
  scheduler x' = scheduler x -> priority x' = priority x -> ~ is_idle w (cur p) ->
  (forall t v, leave t v = if decide (l = Blocked) then set_blocked (t :: blocked v) v
                           else set_dying (t :: dying v) v) ->
  (l = Blocked /\ state x' <> Finishing) \/ l = Dying ->
  exists w' L', switch_begin c false leave (put_thread (cur p) x' w) = Ok w' /\ inv_at w' L'.
Proof.
  intros Hinv Hc Hph Hx Es Ep Hni Hlv Hl.
  destruct (cur_sched w L c p Hinv Hc Hph) as (x0 & sc & Hx0 & Hs & Hf & Hsc & Hcur & _).
  assert (x0 = x) as -> by congruence.
  destruct (idle_ready w L c p sc Hinv Hc Hph Hni Hsc) as (next & sc' & E).
  unfold switch_begin, get_thread, get_sched, sched_of. simpl. rewrite Hc. simpl.
  rewrite lookup_insert_eq. simpl. rewrite Es, Hs. simpl. rewrite Hsc. simpl. rewrite E. simpl.
  destruct (dequeue_next w L c p _ sc next sc' Hinv Hc Hph Hsc E) as (Hi & Hn & _).
  destruct (Nat.eqb_spec (cur p) next) as [He|Hne]; [congruence|]. simpl.
  eexists _, _. split; [done|].
  pose proof (cur_leaves _ _ c (mkCpu (cur p) (Switch next true)) next x x' l
    (match l with Blocked => cur p :: blocked w | _ => blocked w end)
    (match l with Blocked => dying w | _ => cur p :: dying w end) Hi) as Hcl.
  simpl in Hcl. rewrite list_lookup_insert_eq in Hcl by (by eapply lookup_lt_Some).
  specialize (Hcl eq_refl eq_refl Hx Es Ep Hni). rewrite Hlv.
  destruct Hl as [[-> Hfi]| ->]; simpl in *; rewrite list_insert_insert in Hcl;
    rewrite decide_True in Hcl by done; apply Hcl; auto.
Qed.

Lemma suspend_step w L c p :
  inv_at w L -> cpus w !! c = Some p -> ph p = Run -> ~ is_idle w (cur p) ->
  exists w' L', suspend c w = Ok w' /\ inv_at w' L'.
Proof.
  intros Hinv Hc Hph Hni.
  destruct (cur_sched w L c p Hinv Hc (or_introl Hph)) as (x & sc & Hx & Hs & Hf & _).
  assert (put_thread (cur p) x w = w) as Ew by (destruct w; unfold put_thread; simpl in *; f_equal; by apply insert_id).
  pose proof (leave_step w L c p x x Blocked (fun t w => set_blocked (t :: blocked w) w)) as Hl.
  rewrite Ew in Hl. apply Hl; auto.
Qed.

Lemma finish_step w L c p :
  inv_at w L -> cpus w !! c = Some p -> ph p = Run \/ ph p = Tail -> ~ is_idle w (cur p) ->
  exists w' L', finish c w = Ok w' /\ inv_at w' L'.
Proof.
  intros Hinv Hc Hph Hni.
  destruct (cur_sched w L c p Hinv Hc Hph) as (x & sc & Hx & Hs & Hf & _).
  unfold finish, get_thread. rewrite Hc. simpl. rewrite Hx. simpl.
  eapply (leave_step w L c p x _ Dying); eauto.
Qed.

Lemma tail_step w L c p :
  inv_at w L -> cpus w !! c = Some p -> ph p = Tail -> exists w' L', tail c w = Ok w' /\ inv_at w' L'.
Proof.
  intros Hinv Hc Hph.
  destruct (cur_sched w L c p Hinv Hc (or_intror Hph)) as (x & sc & Hx & Hs & Hf & Hsc & Hcur & _).
  unfold tail, get_thread. rewrite Hc. simpl. rewrite Hx. simpl.
  unfold cancelled. case_bool_decide as Hca.
  - eapply finish_step; eauto. intros (y & Hy & Hpr). assert (y = x) as -> by congruence.
    pose proof Hinv as (_ & _ & _ & Hth & _).
    destruct (Hth _ _ Hcur) as (y & s & Hy' & _ & _ & _ & Hip & _).
    assert (y = x) as -> by congruence. destruct (Hip Hpr). congruence.
  - eexists _, L. split; [done|]. apply inv_set_phase; auto; [unfold at_cpu; by rewrite Hph|intros [? ?]; congruence].
Qed.

(** *** the register switch *)
Lemma stackSwitch_step w L c p next y :
  inv_at w L -> cpus w !! c = Some p -> ph p = Switch next y ->
  exists w', stackSwitch c w = Ok w' /\ inv_at w' L.
Proof.
  intros Hinv Hc Hph. pose proof Hinv as (Hlen & Hpl & Hsch & Hth & Hout & Hsw & Hpo & Hid).
  destruct (Hsw _ _ _ _ Hc Hph) as (Hne & n & Hn & Hsn).
  assert (exists x, threads w !! cur p = Some x) as [x Hx].
  { destruct y.
    - assert (L (cur p) = Some (OnCpu c)) as Hl.
      { apply (at_cpu_loc w L c p _ Hinv Hc). apply cur_at_cpu. congruence. }
      destruct (Hth _ _ Hl) as (x & _ & Hx & _). eauto.
    - destruct (Hout c p (cur p) Hc) as [(x & Hx & _) _]; [unfold outgoing; by rewrite Hph|eauto]. }
  unfold stackSwitch, get_thread. rewrite Hc. simpl. rewrite Hph, Hx. simpl. rewrite Hn. simpl. rewrite Hsn. simpl.
  eexists. split; [done|].
  (* what the new entry of a thread keeps *)
  assert (forall t xt, threads w !! t = Some xt -> exists xt',
    <[next := setSaved false n]> (<[cur p := setSaved true x]> (threads w)) !! t = Some xt' /\
    scheduler xt' = scheduler xt /\ priority xt' = priority xt /\ state xt' = state xt /\
    affinity xt' = affinity xt /\ (t <> next -> saved xt = true \/ t = cur p -> saved xt' = true)) as Hkeep.
  { intros t xt Ht. destruct (decide (t = next)) as [->|Hn1].
    - assert (xt = n) as -> by congruence. exists (setSaved false n). rewrite lookup_insert_eq. done.
    - rewrite lookup_insert_ne by done. destruct (decide (t = cur p)) as [->|Hn2].
      + assert (xt = x) as -> by congruence. exists (setSaved true x). rewrite lookup_insert_eq. done.
      + rewrite lookup_insert_ne by done. exists xt. naive_solver. }
  assert (L next = Some (OnCpu c)) as Hnl.
  { apply (at_cpu_loc w L c p _ Hinv Hc). unfold at_cpu. rewrite Hph. destruct y; set_solver. }
  unfold inv_at; simpl. rewrite !length_insert. split; [done|]. split.
  { eapply placed_ext; [done|]. intros [k|k| |]; try done. simpl.
    destruct (decide (k = c)) as [->|]; [|by rewrite list_lookup_insert_ne].
    rewrite Hc, list_lookup_insert_eq by (by eapply lookup_lt_Some). unfold at_cpu. rewrite Hph. simpl.
    destruct y; [apply Permutation_swap|done]. }
  split; [done|]. split.
  { intros t l Ht. destruct (Hth _ _ Ht) as (xt & s & Hxt & Hs & Hlt & Hpr & Hip & Hl).
    destruct (Hkeep _ _ Hxt) as (xt' & Hxt' & Es & Ep & Est & Ea & Esv).
    exists xt', s. simpl. rewrite Es, Ep, Est, Ea. split_and!; try done.
    assert (l <> OnCpu c -> saved xt = true \/ leaving w s t -> saved xt' = true \/
      leaving (put_cpu c (mkCpu next (Post (cur p) y))
        (put_thread next (setSaved false n) (put_thread (cur p) (setSaved true x) w))) s t) as Hsv.
    { intros Hlc Hor. assert (t <> next) as Htn by (intros ->; congruence).
      destruct Hor as [?|(p' & n' & Hp' & Ec & Ep')]; [left; auto|].
      destruct (decide (s = c)) as [->|].
      - left. apply Esv; [done|]. right. congruence.
      - right. exists p', n'. simpl. by rewrite list_lookup_insert_ne. }
    destruct l as [k|k| |]; [done| | |done].
    - destruct Hl as (-> & ? & ?). split_and!; [done|done|]. by apply Hsv.
    - destruct Hl as (? & ?). split; [done|]. by apply Hsv. }
  split.
  { intros j pj t [[-> ->]|[? Hj]]%(lookup_put_cpu _ _ _ _ _ _ Hc) Ho.
    - assert (outgoing p = Some t) as Ho' by (unfold outgoing in *; rewrite Hph; by destruct y).
      destruct (Hout _ _ _ Hc Ho') as [(xt & Hxt & Hs) ?]. split; [|done].
      destruct (Hkeep _ _ Hxt) as (xt' & Hxt' & Es & _). exists xt'. split; [done|congruence].
    - destruct (Hout _ _ _ Hj Ho) as [(xt & Hxt & Hs) ?]. split; [|done].
      destruct (Hkeep _ _ Hxt) as (xt' & Hxt' & Es & _). exists xt'. split; [done|congruence]. }
  split.
  { intros j pj n' y' [[-> ->]|[? Hj]]%(lookup_put_cpu _ _ _ _ _ _ Hc) Hy; [done|].
    destruct (Hsw _ _ _ _ Hj Hy) as (? & xn & Hxn & Hsn'). split; [done|].
    destruct (Hkeep _ _ Hxn) as (xt' & Hxt' & _ & _ & _ & _ & Esv). exists xt'. split; [done|].
    apply Esv; [|by left]. intros ->. assert (L next = Some (OnCpu j)); [|congruence].
    apply (at_cpu_loc w L j pj _ Hinv Hj). unfold at_cpu. rewrite Hy. destruct y'; set_solver. }
  split.
  { intros j pj q [[-> ->]|[? Hj]]%(lookup_put_cpu _ _ _ _ _ _ Hc) Hq.
    - simpl in Hq. injection Hq as <- ->. exists (setSaved true x). rewrite lookup_insert_ne by done.
      by rewrite lookup_insert_eq.
    - destruct (Hpo _ _ _ Hj Hq) as (xq & Hxq & Hsq).
      destruct (Hkeep _ _ Hxq) as (xt' & Hxt' & _ & _ & _ & _ & Esv). exists xt'. split; [done|].
      apply Esv; [|by left]. intros ->. assert (L next = Some (OnCpu j)); [|congruence].
      apply (at_cpu_loc w L j pj _ Hinv Hj). unfold at_cpu. rewrite Hq. set_solver. }
  intros j Hj. destruct (Hid j Hj) as (t & xt & Hxt & H1 & H2 & H3 & H4).
  destruct (Hkeep _ _ Hxt) as (xt' & Hxt' & _ & E2 & E3 & E4 & _). exists t, xt'.
  repeat split; try done; congruence.
Qed.

(** *** a thread becomes ready

    [t] goes to the queue of scheduler [s]; [w1] is the world with its place
    already given up. *)
Lemma do_enqueue_ok w s t x sc :
  scheds w !! s = Some sc -> threads w !! t = Some x -> sched_ok sc -> (priority x < maxPriority)%nat ->
  lenZ (ready sc) + 1 < 2 ^ 64 - 1 ->
  exists sc', do_enqueue s t w = Ok (put_sched s sc' w) /\ sched_ok sc' /\
    ready sc' ≡ₚ t :: ready sc /\ peer sc' = peer sc.
Proof.
  intros Hs Ht Hok Hp Hl. destruct (enqueue_ok t (priority x) sc Hok Hp Hl) as (sc' & wk & E & H1 & H2 & H3).
  exists sc'. split; [|done]. unfold do_enqueue, get_thread, get_sched. rewrite Ht. simpl. rewrite Hs. simpl.
  by rewrite E.
Qed.

(** the effect of making [t] ready on [s], whatever its place [l0] was *)
Lemma ready_inv w L s t x sc sc' m ts b :
  inv_at w L -> scheds w !! s = Some sc -> sched_ok sc' -> ready sc' ≡ₚ t :: ready sc -> peer sc' = peer sc ->
  (* the place given up *)
  (L t = Some Blocked /\ b ≡ₚ list_difference (blocked w) [t] /\ blocked w ≡ₚ t :: b /\ ts = threads w /\
     threads w !! t = Some x /\ m = cpus w) \/
  (L t = None /\ threads w !! t = None /\ b = blocked w /\ ts = <[t := x]> (threads w) /\ m = cpus w /\
     priority x <> idlePriority /\ saved x = true) \/
  (exists c p, L t = Some (OnCpu c) /\ cpus w !! c = Some p /\ ph p = Post t true /\
     m = <[c := mkCpu (cur p) Tail]> (cpus w) /\ b = blocked w /\
     ts = <[t := x]> (threads w) /\ saved x = true /\
     (exists x0, threads w !! t = Some x0 /\ priority x = priority x0 /\ affinity x = affinity x0 /\
        state x = state x0 /\ (s <> c -> affinity x = false))) ->
  scheduler x = Some s -> (priority x < maxPriority)%nat -> state x <> Finishing ->
  inv_at (mkWorld ts (<[s := sc']> (scheds w)) m b (dying w)) (put t (Some (Ready s)) L).
Proof.
  intros Hinv Hsc Hok Hperm Hpe Hl0 Hs Hpr Hst.
  pose proof Hinv as (Hlen & Hpl & Hsch & Hth & Hout & Hsw & Hpo & Hid).
  assert (L t <> Some (Ready s) /\ length m = length (cpus w) /\ ts !! t = Some x /\
    (forall u, u <> t -> ts !! u = threads w !! u)) as (Hnr & Hlm & Htx & Htu).
  { destruct Hl0 as [(? & _ & _ & -> & ? & ->)|[(? & _ & _ & -> & -> & _)|(c & p & ? & _ & _ & -> & _ & -> & _)]];
      rewrite ?length_insert, ?lookup_insert_eq; split_and!; try congruence;
      intros; by rewrite ?lookup_insert_ne. }
  assert (forall s' u, leaving w s' u -> leaving (mkWorld ts (<[s := sc']> (scheds w)) m b (dying w)) s' u) as Hlv.
  { intros s' u. destruct Hl0 as [(_ & _ & _ & _ & _ & ->)|[(_ & _ & _ & _ & -> & _)|(c & p & _ & Hc & Hph & -> & _)]];
      try done. intros Hlv. eapply leaving_put_cpu; [done|done| |done]. congruence. }
  assert (forall j pj, m !! j = Some pj -> cpus w !! j = Some pj \/ ph pj = Tail) as Hm.
  { intros j pj Hj. destruct Hl0 as [(_ & _ & _ & _ & _ & ->)|[(_ & _ & _ & _ & -> & _)|(c & p & _ & Hc & Hph & -> & _)]];
      auto. destruct (lookup_put_cpu _ _ _ _ _ _ Hc Hj) as [[-> ->]|[? ?]]; auto. }
  unfold inv_at; simpl. rewrite !length_insert, Hlm. split; [done|]. split.
  { destruct Hl0 as [(Hl & Hb & Hb' & -> & _ & ->)|[(Hl & _ & -> & -> & -> & _)|(c & p & Hl & Hc & Hph & -> & -> & -> & _)]].
    - apply (placed_move (threads_at w) _ L t Blocked (Ready s)); [done|done|done| |].
      + simpl. rewrite Hsc, list_lookup_insert_eq by (by eapply lookup_lt_Some). done.
      + intros [k|k| |] H1 H2; simpl; try done. by rewrite list_lookup_insert_ne by congruence.
    - apply (placed_add (threads_at w) _ L t (Ready s)); [done|done| |].
      + simpl. rewrite Hsc, list_lookup_insert_eq by (by eapply lookup_lt_Some). done.
      + intros [k|k| |] H1; simpl; try done. by rewrite list_lookup_insert_ne by congruence.
    - apply (placed_move (threads_at w) _ L t (OnCpu c) (Ready s)); [done|done| | |].
      + simpl. rewrite Hc, list_lookup_insert_eq by (by eapply lookup_lt_Some). unfold at_cpu. rewrite Hph. simpl.
        apply Permutation_swap.
      + simpl. rewrite Hsc, list_lookup_insert_eq by (by eapply lookup_lt_Some). done.
      + intros [k|k| |] H1 H2; simpl; try done; by rewrite list_lookup_insert_ne by congruence. }
  split.
  { intros j sj [[-> ->]|[? Hj]]%lookup_put_sched; [|by apply Hsch in Hj].
    split; [done|]. rewrite Hpe. by apply (Hsch s sc). }
  split.
  { intros u l Hu. unfold put in Hu. destruct (decide (u = t)) as [->|Hne].
    - injection Hu as <-. exists x, s. simpl. rewrite length_insert. split_and!; try done.
      + by eapply lookup_lt_Some.
      + destruct Hl0 as [(Hl & _ & _ & _ & Hx & _)|[(_ & _ & _ & _ & _ & ? & _)|(c & p & Hl & _ & _ & _ & _ & _ & _ & x0 & Hx & E1 & E2 & E3 & _)]].
        * destruct (Hth _ _ Hl) as (x1 & s1 & Hx1 & _ & _ & _ & Hip & _). by assert (x1 = x) as -> by congruence.
        * done.
        * destruct (Hth _ _ Hl) as (x1 & s1 & Hx1 & _ & _ & _ & Hip & _). assert (x1 = x0) as -> by congruence.
          rewrite E1, E2, E3. done.
      + destruct Hl0 as [(Hl & _ & _ & _ & Hx & _)|[(_ & _ & _ & _ & _ & _ & ?)|(c & p & _ & _ & _ & _ & _ & _ & ? & _)]]; auto.
        destruct (Hth _ _ Hl) as (x1 & s1 & Hx1 & Hs1 & _ & _ & _ & _ & Hsv). assert (x1 = x) as -> by congruence.
        assert (s1 = s) as -> by congruence. destruct Hsv as [?|Hsv]; [auto|right]. by apply Hlv.
    - apply (thread_ok_frame w); [by apply Hth|simpl; by apply Htu|simpl; by rewrite length_insert|].
      intros s' Hl. by apply Hlv. }
  assert (forall j pj, cpus w !! j = Some pj -> t ∈ at_cpu pj -> exists c p, L t = Some (OnCpu c) /\ cpus w !! c = Some p /\
      ph p = Post t true /\ m = <[c := mkCpu (cur p) Tail]> (cpus w) /\ c = j) as Hcpu.
  { intros j pj Hj Ht. pose proof (proj1 (at_cpu_loc w L j pj t Hinv Hj) Ht) as HL.
    destruct Hl0 as [(Hl & _)|[(Hl & _)|(c & p & Hl & Hc & Hph & Em & _)]]; [congruence|congruence|].
    exists c, p. split_and!; try done. congruence. }
  split.
  { intros j pj u Hj Ho. destruct (Hm _ _ Hj) as [Hj'|Htl]; [|unfold outgoing in Ho; by rewrite Htl in Ho].
    destruct (Hout _ _ _ Hj' Ho) as [(xu & Hxu & Hsu) Hor]. destruct (decide (u = t)) as [->|Hne].
    - rewrite put_eq. assert (s = j) as ->.
      { destruct Hl0 as [(_ & _ & _ & _ & Hx & _)|[(_ & Hx & _)|(c & p & Hl & _ & _ & _ & _ & _ & _ & x0 & _)]].
        - congruence.
        - congruence.
        - exfalso. destruct Hor as [?|[?|?]]; congruence. }
      split; [|auto]. exists x. done.
    - rewrite put_ne, Htu by done. split; [|done]. by exists xu. }
  split.
  { intros j pj n y Hj Hy. destruct (Hm _ _ Hj) as [Hj'|Htl]; [|congruence].
    destruct (Hsw _ _ _ _ Hj' Hy) as (? & xn & Hxn & Hsn). split; [done|].
    assert (n <> t) as Hnt.
    { intros ->. destruct (Hcpu j pj Hj') as (c & p & _ & Hc & Hph & _ & ->).
      - unfold at_cpu. rewrite Hy. destruct y; set_solver.
      - congruence. }
    rewrite Htu by done. by exists xn. }
  split.
  { intros j pj q Hj Hq. destruct (Hm _ _ Hj) as [Hj'|Htl]; [|congruence].
    destruct (Hpo _ _ _ Hj' Hq) as (xq & Hxq & Hsq).
    assert (q <> t) as Hnt.
    { intros ->. destruct (Hcpu j pj Hj') as (c & p & _ & Hc & Hph & Em & ->).
      - unfold at_cpu. rewrite Hq. set_solver.
      - rewrite Em, list_lookup_insert_eq in Hj by (by eapply lookup_lt_Some). injection Hj as <-. done. }
    rewrite Htu by done. by exists xq. }
  intros j Hj. destruct (Hid j Hj) as (u & xu & Hxu & H1 & H2 & H3 & H4). destruct (decide (u = t)) as [->|Hne].
  - destruct Hl0 as [(Hl & _)|[(Hl & _)|(c & p & Hl & _ & _ & _ & _ & _ & _ & x0 & Hx & E1 & E2 & E3 & E4)]].
    + destruct H4; congruence.
    + destruct H4; congruence.
    + assert (xu = x0) as -> by congruence. exists t, x. simpl. rewrite put_eq. split_and!; try congruence.
      right. assert (j = c) as -> by (destruct H4; congruence).
      destruct (decide (s = c)) as [->|Hsc']; [done|]. specialize (E4 Hsc'). congruence.
  - exists u, xu. rewrite put_ne, Htu by done. done.
Qed.

(** a dying thread whose processor has switched away is destroyed *)
Lemma inv_destroy w L t :
  inv_at w L -> L t = Some Dying -> (forall c p, cpus w !! c = Some p -> outgoing p <> Some t) ->
  inv_at (mkWorld (delete t (threads w)) (scheds w) (cpus w) (blocked w) (list_difference (dying w) [t]))
    (put t None L).
Proof.
  intros Hinv HL Hno. pose proof Hinv as (Hlen & Hpl & Hsch & Hth & Hout & Hsw & Hpo & Hid).
  assert (t ∈ dying w /\ NoDup (dying w)) as [Hin Hnd].
  { destruct Hpl as [Hn Hp]. split; [by apply (Hp Dying)|apply (Hn Dying)]. }
  assert (dying w ≡ₚ t :: list_difference (dying w) [t]) as Hd.
  { apply NoDup_Permutation; [done| |].
    - apply NoDup_cons. rewrite list_elem_of_difference. split; [set_solver|]. by apply NoDup_list_difference.
    - intros u. rewrite elem_of_cons, list_elem_of_difference. destruct (decide (u = t)) as [->|]; set_solver. }
  assert (forall u c, L u = Some (OnCpu c) -> u <> t) as Hcpu by (intros u c Hu ->; congruence).
  unfold inv_at; simpl. split; [done|]. split.
  { apply (placed_remove (threads_at w) _ L t Dying); [done|done|]. by intros [k|k| |] Hk. }
  split; [done|]. split.
  { intros u l Hu. unfold put in Hu. destruct (decide (u = t)) as [->|]; [done|].
    apply (thread_ok_frame w); [by apply Hth|simpl; by rewrite lookup_delete_ne|done|done]. }
  split.
  { intros j pj u Hj Ho. destruct (Hout _ _ _ Hj Ho) as [(xt & Hxt & Hst) ?].
    assert (u <> t) by (intros ->; by eapply Hno).
    rewrite lookup_delete_ne, put_ne by done. split; [by exists xt|done]. }
  split.
  { intros j pj n y Hj Hy. destruct (Hsw _ _ _ _ Hj Hy) as (? & xn & Hxn & Hsn). split; [done|].
    exists xn. rewrite lookup_delete_ne; [done|]. apply not_eq_sym, (Hcpu _ j), (at_cpu_loc w L j pj _ Hinv Hj).
    unfold at_cpu. rewrite Hy. destruct y; set_solver. }
  split.
  { intros j pj q Hj Hq. destruct (Hpo _ _ _ Hj Hq) as (xq & Hxq & Hsq).
    exists xq. rewrite lookup_delete_ne; [done|]. apply not_eq_sym, (Hcpu _ j), (at_cpu_loc w L j pj _ Hinv Hj).
    unfold at_cpu. rewrite Hq. set_solver. }
  intros j Hj. destruct (Hid j Hj) as (u & xt & Hxt & H1 & H2 & H3 & H4). exists u, xt.
  assert (u <> t) by (intros ->; destruct H4; congruence).
  simpl. rewrite lookup_delete_ne, put_ne by done. done.
Qed.

(** *** yielding, suspending and terminated threads after the switch *)
Lemma postSwitch_step w L c p prev y :
  inv_at w L -> room w -> cpus w !! c = Some p -> ph p = Post prev y ->
  exists w' L', postSwitch c w = Ok w' /\ inv_at w' L'.
Proof.
  intros Hinv Hroom Hc Hph. pose proof Hinv as (Hlen & Hpl & Hsch & Hth & Hout & Hsw & Hpo & Hid).
  unfold postSwitch. rewrite Hc. simpl. rewrite Hph. simpl. destruct y.
  - destruct (Hpo _ _ _ Hc Hph) as (x & Hx & Hsv).
    assert (L prev = Some (OnCpu c)) as HL.
    { apply (at_cpu_loc w L c p _ Hinv Hc). unfold at_cpu. rewrite Hph. set_solver. }
    destruct (Hth _ _ HL) as (x1 & s & Hx1 & Hs & Hlt & Hpr & Hip & -> & Hst).
    assert (x1 = x) as -> by congruence.
    destruct (lookup_lt_is_Some_2 (scheds w) c Hlt) as [sc Hsc].
    unfold postYield, get_thread. rewrite Hx. simpl. unfold finishing. rewrite bool_decide_false by done. simpl.
    unfold sched_of. rewrite Hs. simpl.
    (* the thread goes to scheduler [s] with entry [x'] *)
    assert (forall s sc x' , scheds w !! s = Some sc -> scheduler x' = Some s -> priority x' = priority x ->
      affinity x' = affinity x -> state x' = state x -> saved x' = true -> (s <> c -> affinity x' = false) ->
      exists w' L', (do_enqueue s prev (put_thread prev x' w)
        ≫= fun v => mret (put_cpu c (mkCpu (cur p) Tail) v)) = Ok w' /\ inv_at w' L') as Hgo.
    { intros s sj x' Hsj Es Ep Ea Est Esv Haf. destruct (Hsch _ _ Hsj) as [Hok _].
      specialize (Hroom _ _ Hsj).
      destruct (do_enqueue_ok (put_thread prev x' w) s prev x' sj) as (sc' & E & H1 & H2 & H3);
        [done|simpl; apply lookup_insert_eq|done|congruence|lia|].
      rewrite E. simpl. eexists _, _. split; [done|].
      eapply (ready_inv w L s prev x' sj sc' (<[c := mkCpu (cur p) Tail]> (cpus w)) _ (blocked w));
        [done..| |done|congruence|congruence].
      right; right. exists c, p. split_and!; try done. exists x. split_and!; try done.
    }
    assert (forall x', threads w !! prev = Some x' -> put_thread prev x' w = w) as Hsame.
    { intros x' Hx'. destruct w; unfold put_thread; simpl in *; f_equal; by apply insert_id. }
    destruct (affinity x) eqn:Ea.
    { rewrite <- (Hsame x Hx). apply (Hgo c sc x); auto. done. }
    unfold enqueueBalanced, get_thread, get_sched. rewrite Hx. simpl. rewrite Hsc. simpl.
    destruct (Hsch _ _ Hsc) as [_ Hpe]. destruct (lookup_lt_is_Some_2 (scheds w) (peer sc) Hpe) as [pe Hpe'].
    rewrite Hpe'. simpl. destruct (_ <? _).
    + apply (Hgo (peer sc) pe (setScheduler (peer sc) x)); auto.
    + rewrite <- (Hsame x Hx). apply (Hgo c sc x); auto.
  - unfold postSuspend, get_thread. destruct (Hout c p prev Hc) as [(x & Hx & Hs) Hor]; [unfold outgoing; by rewrite Hph|].
    rewrite Hx. simpl. unfold finishing. case_bool_decide as Hf.
    + assert (L prev = Some Dying) as HL.
      { destruct Hor as [?|[Hl|Hl]]; [done| |]; destruct (Hth _ _ Hl) as (x1 & s & Hx1 & _ & _ & _ & _ & Hl'); naive_solver. }
      unfold destroy, get_thread. rewrite Hx. simpl. unfold finishing. rewrite bool_decide_true by done. simpl.
      eexists _, (put prev None L). split; [done|].
      assert (inv_at (put_cpu c (mkCpu (cur p) Tail) w) L) as Hinv1.
      { apply inv_set_phase; auto; [unfold at_cpu; by rewrite Hph|intros [? ?]; congruence]. }
      apply (inv_destroy _ L prev Hinv1 HL). simpl.
      intros j pj [[-> ->]|[? Hj]]%(lookup_put_cpu _ _ _ _ _ _ Hc) Ho; [done|].
      destruct (Hout _ _ _ Hj Ho) as [(xt & Hxt & Hst) _]. congruence.
    + simpl. eexists _, L. split; [done|].
      apply inv_set_phase; auto; [unfold at_cpu; by rewrite Hph|intros [? ?]; congruence].
Qed.

Lemma do_enqueue_frame w s t x sc :
  scheds w !! s = Some sc -> threads w !! t = Some x ->
  do_enqueue s t w = ('(sc, _) ← enqueue t (priority x) sc; mret (put_sched s sc w)).
Proof. intros Hs Ht. unfold do_enqueue, get_thread, get_sched. rewrite Ht. simpl. by rewrite Hs. Qed.

Lemma resume_step w L t :
  inv_at w L -> room w -> t ∈ blocked w -> exists w' L', resume t w = Ok w' /\ inv_at w' L'.
Proof.
  intros Hinv Hroom Ht. pose proof Hinv as (Hlen & Hpl & Hsch & Hth & _).
  assert (L t = Some Blocked) as HL by (destruct Hpl as [_ Hp]; by apply (Hp Blocked)).
  assert (NoDup (blocked w)) as Hnd by (destruct Hpl as [Hn _]; apply (Hn Blocked)).
  destruct (Hth _ _ HL) as (x & s & Hx & Hs & Hlt & Hpr & Hip & Hst & Hsv).
  destruct (lookup_lt_is_Some_2 (scheds w) s Hlt) as [sc Hsc]. destruct (Hsch _ _ Hsc) as [Hok _].
  specialize (Hroom _ _ Hsc). unfold resume, get_thread. rewrite Hx. simpl. unfold sched_of. rewrite Hs. simpl.
  destruct (do_enqueue_ok (set_blocked (list_difference (blocked w) [t]) w) s t x sc) as (sc' & E & H1 & H2 & H3);
    [done..|lia|].
  rewrite E. eexists _, _. split; [done|].
  apply (ready_inv w L s t x sc sc' _ (threads w)); auto. left. simpl. split_and!; try done.
  apply NoDup_Permutation; [done| |].
  - apply NoDup_cons. rewrite list_elem_of_difference. split; [set_solver|]. by apply NoDup_list_difference.
  - intros u. rewrite elem_of_cons, list_elem_of_difference. destruct (decide (u = t)) as [->|]; set_solver.
Qed.

Lemma start_step w L c p t sa prio :
  inv_at w L -> room w -> cpus w !! c = Some p -> ph p = Run -> threads w !! t = None ->
  (prio < idlePriority)%nat -> match sa with Some s => s < length (scheds w) | None => True end%nat ->
  exists w' L', start c t sa prio w = Ok w' /\ inv_at w' L'.
Proof.
  intros Hinv Hroom Hc Hph Ht Hprio Hsa. pose proof Hinv as (Hlen & Hpl & Hsch & Hth & _).
  destruct (cur_sched w L c p Hinv Hc (or_introl Hph)) as (xc & scc & Hxc & Hsc0 & _ & Hscc & _).
  unfold start, get_thread. rewrite Hc. simpl. rewrite Hxc. simpl.
  set (n := thread_setup _ _).
  assert (exists s, scheduler n = Some s /\ (s < length (scheds w))%nat /\ priority n = prio /\
    state n = Running /\ saved n = true) as (s & Hs & Hlt & Hpn & Hst & Hsv).
  { unfold n. destruct sa as [s|]; simpl.
    - exists s. split_and!; done.
    - exists c. rewrite Hsc0. split_and!; try done. rewrite <- Hlen. by eapply lookup_lt_Some. }
  clearbody n. assert (L t = None) as HL.
  { destruct (L t) as [l|] eqn:E; [|done]. destruct (Hth _ _ E) as (x & _ & Hx & _). congruence. }
  assert (t ∉ blocked w) as Hnb by (destruct Hpl as [_ Hp]; pose proof (Hp Blocked t); simpl in *; naive_solver).
  destruct (lookup_lt_is_Some_2 (scheds w) s Hlt) as [sc Hsc]. destruct (Hsch _ _ Hsc) as [Hok _].
  specialize (Hroom _ _ Hsc). unfold resume, get_thread. simpl. rewrite lookup_insert_eq. simpl.
  unfold sched_of. rewrite Hs. simpl.
  assert (list_difference (blocked w) [t] = blocked w) as Eb.
  { clear -Hnb. induction (blocked w) as [|u l IH]; simpl; [done|].
    apply not_elem_of_cons in Hnb as [? ?].
    destruct (decide_rel _ u [t]) as [Hu|]; [set_solver|]. f_equal. by apply IH. }
  assert (priority n < maxPriority)%nat as Hpm by (unfold idlePriority, maxPriority in *; lia).
  destruct (do_enqueue_ok (set_blocked (list_difference (blocked w) [t]) (put_thread t n w)) s t n sc)
    as (sc' & E & H1 & H2 & H3); [done|simpl; apply lookup_insert_eq|done|done|lia|].
  simpl in *. rewrite E, Eb. eexists _, _. split; [done|].
  apply (ready_inv w L s t n sc sc' (cpus w) (<[t := n]> (threads w)) (blocked w)); [done..| |done|done|congruence].
  right; left. split_and!; try done. lia.
Qed.

Lemma cancel_step w L t x :
  inv_at w L -> threads w !! t = Some x -> ~ is_idle w t ->
  inv_at (put_thread t (setState Cancelled x) w) L.
Proof.
  intros Hinv Hx Hni. pose proof Hinv as (Hlen & Hpl & Hsch & Hth & Hout & Hsw & Hpo & Hid).
  assert (forall u xu, threads w !! u = Some xu -> exists xu',
    <[t := setState Cancelled x]> (threads w) !! u = Some xu' /\ scheduler xu' = scheduler xu /\
    priority xu' = priority xu /\ affinity xu' = affinity xu /\ saved xu' = saved xu /\
    (state xu <> Finishing -> state xu' <> Finishing) /\ (u <> t -> state xu' = state xu)) as Hkeep.
  { intros u xu Hu. destruct (decide (u = t)) as [->|].
    - exists (setState Cancelled x). rewrite lookup_insert_eq. assert (xu = x) as -> by congruence. done.
    - exists xu. by rewrite lookup_insert_ne. }
  unfold inv_at; simpl. do 3 (split; [done|]). split.
  { intros u l Hu. destruct (Hth _ _ Hu) as (xu & s & Hxu & Hs & Hlt & Hpr & Hip & Hl).
    destruct (Hkeep _ _ Hxu) as (xu' & Hxu' & Es & Ep & Ea & Esv & Est & Est').
    exists xu', s. simpl. rewrite Es, Ep, Ea, Esv. split_and!; try done.
    - intros Hidle. assert (u <> t) by (intros ->; apply Hni; by exists xu). rewrite Est' by done. auto.
    - destruct l; naive_solver. }
  split.
  { intros j pj u Hj Ho. destruct (Hout _ _ _ Hj Ho) as [(xu & Hxu & Hs) ?]. split; [|done].
    destruct (Hkeep _ _ Hxu) as (xu' & Hxu' & Es & _). exists xu'. split; [done|congruence]. }
  split.
  { intros j pj n y Hj Hy. destruct (Hsw _ _ _ _ Hj Hy) as (? & xu & Hxu & Hs). split; [done|].
    destruct (Hkeep _ _ Hxu) as (xu' & Hxu' & _ & _ & _ & Esv & _). exists xu'. split; [done|congruence]. }
  split.
  { intros j pj q Hj Hq. destruct (Hpo _ _ _ Hj Hq) as (xu & Hxu & Hs).
    destruct (Hkeep _ _ Hxu) as (xu' & Hxu' & _ & _ & _ & Esv & _). exists xu'. split; [done|congruence]. }
  intros j Hj. destruct (Hid j Hj) as (u & xu & Hxu & H1 & H2 & H3 & H4).
  destruct (Hkeep _ _ Hxu) as (xu' & Hxu' & _ & E1 & E2 & _ & _ & E3).
  assert (u <> t) by (intros ->; apply Hni; by exists xu).
  exists u, xu'. split_and!; try done; [congruence..|]. rewrite E3 by done. done.
Qed.

Lemma setPeer_step w L s p sc :
  inv_at w L -> scheds w !! s = Some sc -> (p < length (scheds w))%nat ->
  inv_at (put_sched s (setPeer p sc) w) L.
Proof.
  intros (Hlen & Hpl & Hsch & Hth & Hrest) Hs Hp.
  unfold inv_at; simpl. rewrite length_insert. split; [done|]. split.
  { eapply placed_ext; [done|]. intros [k|k| |]; try done. simpl.
    destruct (decide (k = s)) as [->|]; [|by rewrite list_lookup_insert_ne].
    by rewrite Hs, list_lookup_insert_eq by (by eapply lookup_lt_Some). }
  split.
  { intros j sj [[-> ->]|[? Hj]]%lookup_put_sched; [|by eapply Hsch].
    split; [|done]. by apply (Hsch s sc). }
  split; [|done].
  intros t l Ht. eapply thread_ok_frame; [by apply Hth|done|simpl; by rewrite length_insert|done].
Qed.

(** *** every enabled operation succeeds and keeps the invariant *)
Lemma exec_ok w o c : inv w -> enabled o c w -> exists w', exec o c w = Ok w' /\ inv w'.
Proof.
  intros [L Hinv] (Hroom & p & Hc & Hen).
  assert (forall m, (exists w' L', m = Ok w' /\ inv_at w' L') -> exists w', m = Ok w' /\ inv w') as Hgo
    by (intros m (w' & L' & ? & ?); exists w'; split; [done|by exists L']).
  destruct o; simpl in *; try apply Hgo.
  - by eapply yield_step.
  - destruct Hen. by eapply suspend_step.
  - destruct Hen. eapply finish_step; eauto.
  - destruct Hen as (n & y & Hen). destruct (stackSwitch_step _ _ _ _ _ _ Hinv Hc Hen) as (w' & ? & ?). eauto.
  - destruct Hen as (n & y & Hen). by eapply postSwitch_step.
  - by eapply tail_step.
  - by eapply resume_step.
  - destruct Hen as (? & ? & ? & ?). by eapply start_step.
  - destruct Hen as (? & [x Hx] & ?). unfold cancel_state, get_thread. rewrite Hx. simpl.
    eexists _, L. split; [done|]. by apply cancel_step.
  - destruct Hen as [Hs Hp]. destruct (lookup_lt_is_Some_2 (scheds w) s Hs) as [sc Hsc].
    unfold get_sched. rewrite Hsc. simpl. eexists _, L. split; [done|]. by apply setPeer_step.
Qed.

Lemma switch_inv_step w w' : inv w -> step w w' -> inv w'.
Proof.
  intros Hi (o & c & Hen & E). destruct (exec_ok w o c Hi Hen) as (w1 & E1 & Hi1).
  rewrite E in E1. by injection E1 as <-.
Qed.

(** *** the boot state *)
Lemma inv_startup w L :
  inv_at w L -> (forall t x, threads w !! t = Some x -> t < 2 * length (cpus w))%nat -> inv (startup w).
Proof.
  intros Hinv Hfresh. pose proof Hinv as (Hlen & Hpl & Hsch & Hth & Hout & Hsw & Hpo & Hid).
  set (c := length (cpus w)) in *. set (cu := (2 * c)%nat). set (id := (2 * c + 1)%nat).
  assert (forall t, (2 * c <= t)%nat -> L t = None) as HLf.
  { intros t Ht. destruct (L t) as [l|] eqn:E; [|done]. destruct (Hth _ _ E) as (x & _ & Hx & _).
    apply Hfresh in Hx. lia. }
  assert (forall t x, threads w !! t = Some x ->
    threads (startup w) !! t = Some x /\ t <> cu /\ t <> id) as Hold.
  { intros t x Hx. pose proof (Hfresh _ _ Hx). unfold startup. simpl. fold c. fold cu. fold id.
    assert (t <> cu /\ t <> id) as [? ?] by (unfold cu, id; lia). by rewrite !lookup_insert_ne by done. }
  assert (cu <> id) as Hne by (unfold cu, id; lia).
  exists (put id (Some (Ready c)) (put cu (Some (OnCpu c)) L)).
  assert (forall j pj, cpus (startup w) !! j = Some pj -> cpus w !! j = Some pj \/ (j = c /\ pj = mkCpu cu Run)) as Hcs.
  { intros j pj. simpl. rewrite lookup_app. destruct (cpus w !! j) as [pj'|] eqn:E; [auto|].
    apply lookup_ge_None in E. fold c in E. rewrite list_lookup_singleton_Some. intros [? <-]. right. split; [lia|done]. }
  assert (forall u, u <> cu -> u <> id -> put id (Some (Ready c)) (put cu (Some (OnCpu c)) L) u = L u) as HL'
    by (intros; by rewrite !put_ne).
  unfold inv_at. split; [simpl; rewrite !length_app; simpl; lia|]. split.
  { apply (placed_add (fun l => if decide (l = OnCpu c) then [cu] else threads_at w l) _ _ id (Ready c)).
    - apply (placed_add (threads_at w) _ L cu (OnCpu c)); [done|apply HLf; unfold cu; lia| |].
      + rewrite decide_True by done. simpl. by rewrite (lookup_ge_None_2 (cpus w)) by (unfold c; lia).
      + intros k Hk. by rewrite decide_False.
    - rewrite put_ne by done. apply HLf. unfold id; lia.
    - rewrite decide_False by done. simpl. rewrite lookup_app_r by (fold c; lia).
      fold c. rewrite <- Hlen. fold c. rewrite Nat.sub_diag. simpl.
      by rewrite (lookup_ge_None_2 (scheds w)) by (rewrite <- Hlen; fold c; lia).
    - intros [k|k| |] Hk; simpl; try done.
      + case_decide as Hd.
        * injection Hd as ->. rewrite lookup_app_r by (fold c; lia). fold c. by rewrite Nat.sub_diag.
        * assert (k <> c) by congruence. rewrite lookup_app. destruct (cpus w !! k) eqn:E; [done|].
          apply lookup_ge_None in E. fold c in E. destruct (k - c)%nat eqn:Ek; [lia|]. fold c. by rewrite Ek.
      + assert (k <> c) by congruence. rewrite lookup_app.
        destruct (scheds w !! k) eqn:E; [done|]. apply lookup_ge_None in E. rewrite <- Hlen in *. fold c in E |- *.
        destruct (k - c)%nat eqn:Ek; [lia|]. done. }
  split.
  { intros j sj. simpl. rewrite length_app. simpl. rewrite lookup_app.
    destruct (scheds w !! j) as [sj'|] eqn:E.
    - intros [= <-]. destruct (Hsch _ _ E) as [? ?]. split; [done|lia].
    - rewrite list_lookup_singleton_Some. intros [_ <-]. simpl. split; [|fold c; lia].
      unfold sched_ok, ready, lenZ. simpl. split_and!; done. }
  split.
  { intros t l Ht. unfold put in Ht. destruct (decide (t = id)) as [->|]; [|destruct (decide (t = cu)) as [->|]].
    - injection Ht as <-. eexists _, c. simpl. fold c. fold id. rewrite lookup_insert_eq, length_app. simpl.
      rewrite <- Hlen. fold c. split_and!; try done; first [lia|unfold maxPriority, idlePriority; lia|auto].
    - injection Ht as <-. eexists _, c. simpl. fold c. fold id. fold cu. rewrite lookup_insert_ne, lookup_insert_eq by done.
      rewrite length_app. simpl. rewrite <- Hlen. fold c. split_and!; try done; first [lia|simpl; unfold maxPriority, defPriority; lia].
    - destruct (Hth _ _ Ht) as (x & s & Hx & Hs & Hlt & Hpr & Hip & Hl).
      destruct (Hold _ _ Hx) as (Hx' & _). exists x, s. simpl in Hx' |- *. rewrite length_app. simpl.
      split_and!; try done; [lia|].
      assert (leaving w s t -> leaving (startup w) s t) as Hlv.
      { intros (p & n1 & Hp & ?). exists p, n1. split; [|done]. simpl. by apply lookup_app_l_Some. }
      destruct l; naive_solver. }
  split.
  { intros j pj t [Hj|[-> ->]]%Hcs Ho; [|done]. destruct (Hout _ _ _ Hj Ho) as [(x & Hx & Hs) Hor].
    destruct (Hold _ _ Hx) as (Hx' & ? & ?). rewrite HL' by done. split; [by exists x|done]. }
  split.
  { intros j pj n y [Hj|[-> ->]]%Hcs Hy; [|done]. destruct (Hsw _ _ _ _ Hj Hy) as (? & x & Hx & Hs).
    split; [done|]. exists x. split; [by apply Hold|done]. }
  split.
  { intros j pj q [Hj|[-> ->]]%Hcs Hy; [|done]. destruct (Hpo _ _ _ Hj Hy) as (x & Hx & Hs).
    exists x. split; [by apply Hold|done]. }
  intros j Hj. simpl in Hj. rewrite length_app in Hj. simpl in Hj. destruct (decide (j = c)) as [->|].
  - eexists id, _. simpl. fold c. fold id. rewrite lookup_insert_eq, put_eq. split_and!; try done. by right.
  - destruct (Hid j) as (t & x & Hx & ? & ? & ? & ?); [fold c in Hj; lia|].
    destruct (Hold _ _ Hx) as (Hx' & ? & ?). exists t, x. rewrite HL' by done. done.
Qed.

Lemma switch_inv_boot n : inv (boot n).
Proof.
  assert (inv (boot n) /\ length (cpus (boot n)) = n /\
    (forall t x, threads (boot n) !! t = Some x -> t < 2 * n)%nat) as [? _]; [|done].
  induction n as [|n ([L Hi] & Hl & Hf)].
  - split_and!; [|done|done]. exists (fun _ => None). unfold inv_at. simpl. split_and!; try done; [|intros; lia].
    split; [intros [k|k| |]; simpl; constructor|]. intros [k|k| |] t; simpl; split; (done || intros H; inversion H).
  - change (boot (S n)) with (startup (boot n)). split_and!.
    + apply (inv_startup _ L Hi). rewrite Hl. apply Hf.
    + simpl. rewrite length_app. simpl. fold (boot n). lia.
    + intros t x Hx. simpl in Hx. fold (boot n) in Hx. rewrite Hl in Hx.
      destruct (decide (t = n + (n + 0) + 1)%nat); [lia|]. rewrite lookup_insert_ne in Hx by done.
      destruct (decide (t = n + (n + 0))%nat); [lia|]. rewrite lookup_insert_ne in Hx by done.
      apply Hf in Hx. lia.
Qed.


(** two processors: thread 0 starts thread 4 and suspends itself; before its
    stack is switched, processor 1 resumes it *)
Definition thread_switch_example : world :=
  match ('(w) ← exec (OStart 4 None 1) 0 (boot 2); w ← exec OSuspend 0 w; exec (OResume 0) 1 w) with
  | Ok w => w | Err _ => boot 2 end.


End Switching.
