(* ===== verification/BlockingSync.v ===== *)
(** * Blocking synchronisation: runtime/BlockingSync.h

    The code of a synchronisation object (a mutex, a semaphore, ...) is a set
    of program points; [code me p] is the instruction at point [p] for thread
    [me].  [Block] and [Resume] are [BlockingQueue::block] and [resume],
    [Sleep] is [Timeout::sleep] and [Cancel] is [Thread::cancel].  The detailed machine
    interleaves the threads and the timer at every access of shared state:
    the object's lock, [Timeout::lock], and the atomic [unblockInfo].  The
    abstract machine has waiting threads that are granted what they wait for,
    or fail, in one step; the refinement theorem relates the two, and the
    objects are verified against the abstract machine. *)
From Stdlib Require Import ZArith Lia Bool.
From stdpp Require Import base tactics option numbers sets list.
From S2P Require Import Prelude.

Abbreviation tid := nat.

Definition noTimeout : Z := 2 ^ 64 - 1.   (* limit<mword>() *)

(** updates of functions *)
Definition upd {A} (i : nat) (x : A) (f : nat -> A) : nat -> A :=
  fun j => if decide (j = i) then x else f j.
Lemma upd_eq {A} i (x : A) f : upd i x f i = x.
Proof. unfold upd. by rewrite decide_True. Qed.
Lemma upd_ne {A} i j (x : A) f : j <> i -> upd i x f j = f j.
Proof. intros. unfold upd. by rewrite decide_False. Qed.

(** ** Instructions *)
Section instr.
Context {O PC : Type}.

Inductive instr :=
  | IAcquire (p : PC)                   (* lock.acquire() *)
  | IRelease (p : PC)                   (* lock.release() *)
  | IAccess (f : O -> res (O * PC))     (* code that runs under the lock *)
  | IPeek (f : O -> res (O * PC))       (* accesses without the lock *)
  | IBlock (q : nat) (timeout : Z) (pt pf : PC)          (* bq.block(lock, timeout) *)
  | IResume (q : nat) (found : tid -> O -> O) (pt pf : PC) (* bq.resume(lock, t) *)
  | ISleep (timeout : Z) (p : PC)       (* Timeout::sleep(timeout) *)
  | ICancel (t : tid) (p : PC)          (* t->cancel() *)
  | IDone (r : bool).
End instr.
Arguments instr : clear implicits.

(** ** The queues as lists *)
(** [queue.insert( {timeout, thr} )] of a multimap: after equal keys *)
Fixpoint tinsert (k : Z) (t : tid) (l : list (Z * tid)) : list (Z * tid) :=
  match l with
  | [] => [(k, t)]
  | (k', t') :: l' => if k <? k' then (k, t) :: l else (k', t') :: tinsert k t l'
  end.
Definition terase (t : tid) (l : list (Z * tid)) : list (Z * tid) := filter (fun e => e.2 <> t) l.
Definition qremove (t : tid) (l : list tid) : list tid := filter (fun u => u <> t) l.

Lemma tinsert_perm k t l : tinsert k t l ≡ₚ (k, t) :: l.
Proof.
  induction l as [|[k' t'] l IH]; simpl; [done|]. destruct (k <? k'); [done|].
  rewrite IH. apply Permutation_swap.
Qed.

Lemma elem_of_qremove j t l : j ∈ qremove t l <-> j <> t /\ j ∈ l.
Proof. unfold qremove. by rewrite list_elem_of_filter. Qed.
Lemma NoDup_qremove t l : NoDup l -> NoDup (qremove t l).
Proof. apply NoDup_filter. Qed.
Lemma qremove_notin t l : (t ∉ l) -> qremove t l = l.
Proof.
  induction l as [|u l IH]; [done|]. intros [H1 H2]%not_elem_of_cons. unfold qremove in *.
  rewrite filter_cons_True by congruence. by rewrite IH.
Qed.
Lemma qremove_head t l : NoDup (t :: l) -> qremove t (t :: l) = l.
Proof.
  intros [Hn _]%NoDup_cons. unfold qremove. rewrite filter_cons_False by auto. by apply qremove_notin.
Qed.

Lemma elem_of_terase j t l : j ∈ (terase t l).*2 <-> j <> t /\ j ∈ l.*2.
Proof.
  unfold terase. rewrite !list_elem_of_fmap. split.
  - intros (e & -> & [? ?]%list_elem_of_filter). eauto.
  - intros [? (e & -> & ?)]. exists e. split; [done|]. by apply list_elem_of_filter.
Qed.
Lemma NoDup_terase t l : NoDup l.*2 -> NoDup (terase t l).*2.
Proof.
  induction l as [|[k u] l IH]; [done|]. simpl. intros [Hn Hd]%NoDup_cons.
  unfold terase. destruct (decide (u = t)) as [->|].
  - rewrite filter_cons_False by (simpl; auto). by apply IH.
  - rewrite filter_cons_True by done. simpl. apply NoDup_cons. split; [|by apply IH].
    intros H. apply Hn. apply (elem_of_terase u t l). exact H.
Qed.

Lemma terase_notin t (l : list (Z * tid)) : (t ∉ l.*2) -> terase t l = l.
Proof.
  induction l as [|[k' u] l IH]; [done|]. simpl. intros [? ?]%not_elem_of_cons. unfold terase in *.
  rewrite filter_cons_True by (simpl; congruence). by rewrite IH.
Qed.

Lemma filter_ext_in {A} (P Q : A -> bool) (l : list A) :
  (forall x, x ∈ l -> P x = Q x) -> filter (fun x => P x = true) l = filter (fun x => Q x = true) l.
Proof.
  induction l as [|x l IH]; intros H; [done|].
  assert (P x = Q x) as E by (apply H; left).
  assert (filter (fun x => P x = true) l = filter (fun x => Q x = true) l) as El by (apply IH; intros; apply H; by right).
  destruct (Q x) eqn:EQ.
  - by rewrite !filter_cons_True, El by done.
  - by rewrite !filter_cons_False, El by congruence.
Qed.

(** when [t] is the only element where the filters differ *)
Lemma filter_off (P Q : tid -> bool) t (l : list tid) :
  (forall x, x <> t -> P x = Q x) -> P t = false ->
  filter (fun x => P x = true) l = qremove t (filter (fun x => Q x = true) l).
Proof.
  intros HPQ Ht. induction l as [|x l IH]; [done|]. unfold qremove in *.
  destruct (decide (x = t)) as [->|Hne].
  - rewrite filter_cons_False by congruence. rewrite IH. destruct (Q t) eqn:E.
    + rewrite (filter_cons_True _ _ l) by done. rewrite filter_cons_False by auto. done.
    + rewrite (filter_cons_False _ _ l) by congruence. done.
  - destruct (Q x) eqn:E.
    + rewrite (filter_cons_True _ _ l) by (by rewrite HPQ). rewrite (filter_cons_True _ _ l) by done.
      rewrite filter_cons_True by done. by rewrite IH.
    + rewrite (filter_cons_False _ _ l) by (rewrite HPQ by done; congruence).
      rewrite (filter_cons_False (fun x => Q x = true) _ l) by congruence. done.
Qed.

Lemma filter_qremove (P : tid -> bool) t l :
  filter (fun x => P x = true) (qremove t l) = qremove t (filter (fun x => P x = true) l).
Proof.
  unfold qremove. induction l as [|x l IH]; [done|]. destruct (decide (x = t)) as [->|Hne].
  - rewrite (filter_cons_False _ _ l) by auto. rewrite IH. destruct (P t) eqn:E.
    + rewrite (filter_cons_True _ _ l) by done. by rewrite filter_cons_False by auto.
    + by rewrite (filter_cons_False (fun x => P x = true) _ l) by congruence.
  - rewrite (filter_cons_True (fun x => x <> t) _ l) by done. destruct (P x) eqn:E.
    + rewrite !(filter_cons_True (fun x => P x = true)) by done. rewrite IH. by rewrite filter_cons_True by done.
    + rewrite !(filter_cons_False (fun x => P x = true)) by congruence. done.
Qed.

Section machine.
Context {O PC : Type} (code : tid -> PC -> instr O PC).

(** ** The detailed machine *)
Inductive phase :=
  | Idle (r : bool)                     (* outside; the result of the last call *)
  | Exec (p : PC)                       (* about to execute the instruction at [p] *)
  | BlkStore (p : PC) (q : option nat) (timeout : Z) (pt pf : PC)
      (* in [suspend]: [Thread::block] found the thread not cancelled and is
         about to store unblockInfo *)
  | Suspended (q : option nat) (timed : bool) (pt pf : PC)
  | Woken (pt pf : PC)                  (* resumed: at the end of switchThread *)
  | WakeTimeout (t : tid) (timed : bool) (p : PC)   (* resume: before ubi->cancelTimeout() *)
  | WakeResume (t : tid) (p : PC)       (* before t->resume() *)
  | CancelGet (t : tid) (p : PC)        (* cancel: before getUnblockInfo() *)
  | CancelTimeout (t : tid) (timed : bool) (p : PC) (* cancel: before ubi->cancelTimeout() *)
  | CancelEvent (t : tid) (p : PC)      (* cancel: before ubi->cancelEvent(t) *)
  | Dead
  | Faulted (f : fault).

(** [canc]: state == Cancelled; [ubi]: unblockInfo, with whether it has a timeout *)
Record tctl := mkCtl { ph : phase; canc : bool; ubi : option bool; timedOut : bool }.

(** [Timeout::checkExpiry], run by the timer *)
Inductive tphase :=
  | TIdle
  | TScan (now : Z) (rest : list (Z * tid)) (fire : list tid)
  | TFire (fire : list tid)
  | TResume (t : tid) (fire : list tid).

Record world := mkWorld {
  obj : O; lock : option tid;
  tlock : option (option tid);          (* Timeout::lock: [Some None] is the timer *)
  queues : nat -> list tid;
  timeouts : list (Z * tid);            (* Timeout::queue *)
  thr : nat -> tctl;
  timer : tphase }.

Definition set_obj (o : O) (w : world) : world :=
  mkWorld o (lock w) (tlock w) (queues w) (timeouts w) (thr w) (timer w).
Definition set_lock (l : option tid) (w : world) : world :=
  mkWorld (obj w) l (tlock w) (queues w) (timeouts w) (thr w) (timer w).
Definition set_tlock (l : option (option tid)) (w : world) : world :=
  mkWorld (obj w) (lock w) l (queues w) (timeouts w) (thr w) (timer w).
Definition set_queues (f : nat -> list tid) (w : world) : world :=
  mkWorld (obj w) (lock w) (tlock w) f (timeouts w) (thr w) (timer w).
Definition set_timeouts (l : list (Z * tid)) (w : world) : world :=
  mkWorld (obj w) (lock w) (tlock w) (queues w) l (thr w) (timer w).
Definition set_thr (i : tid) (c : tctl) (w : world) : world :=
  mkWorld (obj w) (lock w) (tlock w) (queues w) (timeouts w) (upd i c (thr w)) (timer w).
Definition set_timer (t : tphase) (w : world) : world :=
  mkWorld (obj w) (lock w) (tlock w) (queues w) (timeouts w) (thr w) t.

Definition goto (i : tid) (f : phase) (w : world) : world :=
  let c := thr w i in set_thr i (mkCtl f (canc c) (ubi c) (timedOut c)) w.

Definition armed (w : world) (t : tid) : bool := match ubi (thr w t) with Some _ => true | None => false end.

(** the first thread of the queue whose unblockInfo is set *)
Fixpoint find_armed (w : world) (l : list tid) : option tid :=
  match l with
  | [] => None
  | t :: l => if armed w t then Some t else find_armed w l
  end.

(** [getUnblockInfo]: an atomic exchange *)
Definition take_ubi (t : tid) (w : world) : world :=
  let c := thr w t in set_thr t (mkCtl (ph c) (canc c) None (timedOut c)) w.

(** [EventInfo::cancelEvent], with [timedOut] set before the lock is taken; a
    [TimeoutInfo] (no queue) has the empty [UnblockInfo::cancelEvent] *)
Definition cancelEvent (t : tid) (w : world) : world :=
  let c := thr w t in
  match ph c with
  | Suspended (Some q) _ _ _ =>
      set_queues (upd q (qremove t (queues w q)) (queues w))
        (set_thr t (mkCtl (ph c) (canc c) (ubi c) true) w)
  | _ => w
  end.

(** [Thread::resume]: of a thread that is not suspended it would put the
    thread on a ready queue a second time *)
Definition do_resume (t : tid) (w : world) : option world :=
  match ph (thr w t) with
  | Suspended _ _ pt pf => Some (goto t (Woken pt pf) w)
  | _ => None
  end.
(** [who] runs [t->resume()] and goes on to [next] *)
Definition resume_or_fault (who : tid) (t : tid) (next : phase) (w : world) : world :=
  match do_resume t w with
  | Some w => goto who next w
  | None => goto who (Faulted Aborted) w
  end.

(** whether the wait has an entry in [Timeout::queue] *)
Definition is_timed (q : option nat) (timeout : Z) : bool :=
  match q with None => true | Some _ => negb (timeout =? noTimeout) end.

(** the body of [EventInfo::suspend], [TimeoutEventInfo::suspend] (with
    [Timeout::lock] held) and [TimeoutInfo::suspend] up to the test in
    [Thread::block]; [pf] is where a cancelled thread goes on *)
Definition blk_test (i : tid) (p : PC) (q : option nat) (timeout : Z) (pt pf : PC) (w : world) : world :=
  let c := thr w i in
  match ubi c with
  | Some _ => goto i (Faulted AssertFailed) w
  | None =>
      if canc c then
        let w := match q with Some _ => set_lock None w | None => w end in goto i (Exec pf) w
      else
        let w := if is_timed q timeout then set_tlock (Some (Some i)) w else w in
        goto i (BlkStore p q timeout pt pf) w
  end.

(** unblockInfo is stored, the thread queued, the locks released *)
Definition blk_store (i : tid) (q : option nat) (timeout : Z) (pt pf : PC) (w : world) : world :=
  let timed := is_timed q timeout in
  let c := thr w i in
  let w := set_thr i (mkCtl (Suspended q timed pt pf) (canc c) (Some timed) false) w in
  let w := match q with
           | Some q => set_lock None (set_queues (upd q (queues w q ++ [i]) (queues w)) w)
           | None => w end in
  if timed then set_tlock None (set_timeouts (tinsert timeout i (timeouts w)) w) else w.

(** the next action of thread [i]; [None] while it waits for a lock *)
Definition exec (i : tid) (w : world) : option world :=
  let c := thr w i in
  match ph c with
  | Exec p =>
      match code i p with
      | IAcquire p' => match lock w with None => Some (goto i (Exec p') (set_lock (Some i) w)) | Some _ => None end
      | IRelease p' => Some (goto i (Exec p') (set_lock None w))
      | IAccess f =>
          match f (obj w) with
          | Ok (o, p') => Some (goto i (Exec p') (set_obj o w))
          | Err e => Some (goto i (Faulted e) w)
          end
      | IPeek f =>
          match f (obj w) with
          | Ok (o, p') => Some (goto i (Exec p') (set_obj o w))
          | Err e => Some (goto i (Faulted e) w)
          end
      | IBlock q timeout pt pf =>
          if timeout =? noTimeout then Some (blk_test i p (Some q) timeout pt pf w)
          else if 0 <? timeout then
            match tlock w with None => Some (blk_test i p (Some q) timeout pt pf w) | Some _ => None end
          else Some (goto i (Exec pf) (set_lock None w))
      | IResume q found pt pf =>
          match find_armed w (queues w q) with
          | Some t =>
              let timed := default false (ubi (thr w t)) in
              let w := take_ubi t w in
              let w := set_queues (upd q (qremove t (queues w q)) (queues w)) w in
              Some (goto i (WakeTimeout t timed pt) (set_lock None (set_obj (found t (obj w)) w)))
          | None => Some (goto i (Exec pf) w)
          end
      | ISleep timeout p' =>
          match tlock w with None => Some (blk_test i p None timeout p' p' w) | Some _ => None end
      | ICancel t p' =>
          if decide (t = i) then Some (goto i (Faulted AssertFailed) w)
          else let d := thr w t in
               Some (goto i (CancelGet t p') (set_thr t (mkCtl (ph d) true (ubi d) (timedOut d)) w))
      | IDone r => Some (goto i (Idle r) w)
      end
  | BlkStore _ q timeout pt pf => Some (blk_store i q timeout pt pf w)
  | Woken pt pf =>
      Some (if canc c then goto i Dead w else goto i (Exec (if timedOut c then pf else pt)) w)
  | WakeTimeout t timed p =>
      if timed then
        match tlock w with
        | None => Some (goto i (WakeResume t p) (set_timeouts (terase t (timeouts w)) w))
        | Some _ => None
        end
      else Some (goto i (WakeResume t p) w)
  | WakeResume t p => Some (resume_or_fault i t (Exec p) w)
  | CancelGet t p =>
      match ubi (thr w t) with
      | Some timed => Some (goto i (CancelTimeout t timed p) (take_ubi t w))
      | None => Some (goto i (Exec p) w)
      end
  | CancelTimeout t timed p =>
      if timed then
        match tlock w with
        | None => Some (goto i (CancelEvent t p) (set_timeouts (terase t (timeouts w)) w))
        | Some _ => None
        end
      else Some (goto i (CancelEvent t p) w)
  | CancelEvent t p =>
      match ph (thr w t), lock w with
      | Suspended (Some _) _ _ _, Some _ => None
      | _, _ => Some (goto i (WakeResume t p) (cancelEvent t w))
      end
  | Idle _ | Suspended _ _ _ _ | Dead | Faulted _ => None
  end.

(** the next action of the timer; [now] is read when [checkExpiry] starts *)
Definition exec_timer (now : Z) (w : world) : option world :=
  match timer w with
  | TIdle =>
      match tlock w with
      | None => Some (set_tlock (Some None) (set_timer (TScan now (timeouts w) []) w))
      | Some _ => None
      end
  | TScan now ((k, t) :: rest) fire =>
      if k <=? now then
        match ubi (thr w t) with
        | Some _ => Some (set_timer (TScan now rest (fire ++ [t]))
                           (set_timeouts (terase t (timeouts w)) (take_ubi t w)))
        | None => Some (set_timer (TScan now rest fire) w)
        end
      else Some (set_tlock None (set_timer (TFire fire) w))
  | TScan now [] fire => Some (set_tlock None (set_timer (TFire fire) w))
  | TFire (t :: fire) =>
      match ph (thr w t), lock w with
      | Suspended (Some _) _ _ _, Some _ => None
      | _, _ => Some (set_timer (TResume t fire) (cancelEvent t w))
      end
  | TFire [] => Some (set_timer TIdle w)
  | TResume t fire => option_map (set_timer (TFire fire)) (do_resume t w)
  end.

(** preemption: [switchThread] ends a cancelled thread; while a thread holds a
    lock interrupts are off *)
Definition preempt (i : tid) (w : world) : option world :=
  let c := thr w i in
  if canc c && negb (bool_decide (lock w = Some i)) && negb (bool_decide (tlock w = Some (Some i)))
  then match ph c with
       | Suspended _ _ _ _ | Woken _ _ | Dead | Faulted _ => None
       | _ => Some (goto i Dead w)
       end
  else None.

(** an idle thread calls an operation: [start o r i p] says that thread [i],
    whose last call returned [r], may go to [p] *)
Context (start : O -> bool -> tid -> PC -> Prop).

Inductive cstep : world -> world -> Prop :=
  | cstep_start i p r w : ph (thr w i) = Idle r -> start (obj w) r i p -> cstep w (goto i (Exec p) w)
  | cstep_exec i w w' : exec i w = Some w' -> cstep w w'
  | cstep_preempt i w w' : preempt i w = Some w' -> cstep w w'
  | cstep_timer now w w' : exec_timer now w = Some w' -> cstep w w'.

(** runs given by a schedule; [startb] tests the calls it starts *)
Inductive move := MStart (i : tid) (p : PC) | MExec (i : tid) | MPreempt (i : tid) | MTimer (now : Z).

Definition play1 (startb : O -> bool -> tid -> PC -> bool) (m : move) (w : world) : option world :=
  match m with
  | MStart i p =>
      match ph (thr w i) with
      | Idle r => if startb (obj w) r i p then Some (goto i (Exec p) w) else None
      | _ => None
      end
  | MExec i => exec i w
  | MPreempt i => preempt i w
  | MTimer now => exec_timer now w
  end.
Fixpoint play (startb : O -> bool -> tid -> PC -> bool) (l : list move) (w : world) : option world :=
  match l with
  | [] => Some w
  | m :: l => match play1 startb m w with Some w => play startb l w | None => None end
  end.

Lemma play_steps startb l w w' :
  (forall o r i p, startb o r i p = true -> start o r i p) -> play startb l w = Some w' -> steps cstep w w'.
Proof.
  intros Hst. revert w. induction l as [|m l IH]; simpl; intros w.
  - intros [= ->]. constructor.
  - destruct (play1 startb m w) as [v|] eqn:E; [|done]. intros Hp. apply steps_step with v; [|by apply IH].
    destruct m; simpl in E.
    + destruct (ph (thr w i)) eqn:Ep; try done. destruct (startb _ _ _ _) eqn:Es; [|done]. injection E as <-.
      eapply cstep_start; eauto.
    + by eapply cstep_exec.
    + by eapply cstep_preempt.
    + by eapply cstep_timer.
Qed.

Lemma play_default startb l w :
  (forall o r i p, startb o r i p = true -> start o r i p) -> steps cstep w (default w (play startb l w)).
Proof.
  intros Hst. destruct (play startb l w) eqn:E; simpl; [by eapply play_steps|constructor].
Qed.

(** ** The abstract machine *)
Inductive astat :=
  | SIdle (r : bool)
  | SAt (p : PC)
  | SWait (q : option nat) (pt pf : PC)
  | SReady (p : PC)                     (* granted or failed: will go on at [p] *)
  | SDead
  | SFault.

Record astate := mkA {
  a_obj : O; a_lock : option tid; a_wait : nat -> list tid; a_thr : nat -> astat }.

Inductive astep : astate -> astate -> Prop :=
  | a_start i p r o l q s : s i = SIdle r -> start o r i p ->
      astep (mkA o l q s) (mkA o l q (upd i (SAt p) s))
  | a_acquire i p p' o q s : s i = SAt p -> code i p = IAcquire p' ->
      astep (mkA o None q s) (mkA o (Some i) q (upd i (SAt p') s))
  | a_release i p p' o q s : s i = SAt p -> code i p = IRelease p' ->
      astep (mkA o (Some i) q s) (mkA o None q (upd i (SAt p') s))
  | a_access i p f o o' p' q s : s i = SAt p -> code i p = IAccess f -> f o = Ok (o', p') ->
      astep (mkA o (Some i) q s) (mkA o' (Some i) q (upd i (SAt p') s))
  | a_access_fault i p f o e q s : s i = SAt p -> code i p = IAccess f -> f o = Err e ->
      astep (mkA o (Some i) q s) (mkA o (Some i) q (upd i SFault s))
  | a_peek i p f o o' p' l q s : s i = SAt p -> code i p = IPeek f -> f o = Ok (o', p') ->
      astep (mkA o l q s) (mkA o' l q (upd i (SAt p') s))
  | a_peek_fault i p f o e l q s : s i = SAt p -> code i p = IPeek f -> f o = Err e ->
      astep (mkA o l q s) (mkA o l q (upd i SFault s))
  | a_block i p k to pt pf o q s : s i = SAt p -> code i p = IBlock k to pt pf ->
      astep (mkA o (Some i) q s) (mkA o None (upd k (q k ++ [i]) q) (upd i (SWait (Some k) pt pf) s))
  | a_refuse i p k to pt pf o q s : s i = SAt p -> code i p = IBlock k to pt pf ->
      astep (mkA o (Some i) q s) (mkA o None q (upd i (SAt pf) s))
  | a_resume i p k g pt pf t ts pt' pf' o q s : s i = SAt p -> code i p = IResume k g pt pf ->
      q k = t :: ts -> s t = SWait (Some k) pt' pf' -> t <> i ->
      astep (mkA o (Some i) q s) (mkA (g t o) None (upd k ts q) (upd i (SAt pt) (upd t (SReady pt') s)))
  | a_resume_none i p k g pt pf o q s : s i = SAt p -> code i p = IResume k g pt pf -> q k = [] ->
      astep (mkA o (Some i) q s) (mkA o (Some i) q (upd i (SAt pf) s))
  | a_sleep i p to p' o l q s : s i = SAt p -> code i p = ISleep to p' ->
      astep (mkA o l q s) (mkA o l q (upd i (SWait None p' p') s))
  | a_skip i p p' o l q s : s i = SAt p -> (exists to, code i p = ISleep to p') \/ (exists t, code i p = ICancel t p') ->
      astep (mkA o l q s) (mkA o l q (upd i (SAt p') s))
  | a_cancel_self i p p' o l q s : s i = SAt p -> code i p = ICancel i p' ->
      astep (mkA o l q s) (mkA o l q (upd i SFault s))
  | a_expire t k pt pf o l q q' s : s t = SWait k pt pf ->
      q' = match k with Some k => upd k (qremove t (q k)) q | None => q end ->
      astep (mkA o l q s) (mkA o l q' (upd t (SReady pf) s))
  | a_run i p o l q s : s i = SReady p -> astep (mkA o l q s) (mkA o l q (upd i (SAt p) s))
  | a_done i p r o l q s : s i = SAt p -> code i p = IDone r ->
      astep (mkA o l q s) (mkA o l q (upd i (SIdle r) s))
  | a_die i o l q s : l <> Some i -> (forall k pt pf, s i <> SWait k pt pf) -> s i <> SFault ->
      astep (mkA o l q s) (mkA o l q (upd i SDead s)).

(** ** Locking discipline of the code: [held p] says that the lock is held at [p] *)
Context (held : PC -> bool).

Definition well_locked : Prop :=
  (forall o r i p, start o r i p -> held p = false) /\
  forall i p, match code i p with
  | IAcquire p' => held p = false /\ held p' = true
  | IRelease p' => held p = true /\ held p' = false
  | IAccess f => held p = true /\ forall o o' p', f o = Ok (o', p') -> held p' = true
  | IPeek f => held p = false /\ forall o o' p', f o = Ok (o', p') -> held p' = false
  | IBlock _ _ pt pf => held p = true /\ held pt = false /\ held pf = false
  | IResume _ _ pt pf => held p = true /\ held pt = false /\ held pf = true
  | ISleep _ p' | ICancel _ p' => held p = false /\ held p' = false
  | IDone _ => held p = false
  end.

(** ** The relation between the two machines

    [wk] says for each suspended thread whose unblockInfo was taken who is
    going to resume it. *)
Inductive kind := KTimeout | KResume | KCTimeout | KCEvent.
Inductive waker := By (i : tid) (k : kind) | ByScan | ByTimer.

Definition act (f : phase) : option (tid * kind) :=
  match f with
  | WakeTimeout t _ _ => Some (t, KTimeout)
  | WakeResume t _ => Some (t, KResume)
  | CancelTimeout t _ _ => Some (t, KCTimeout)
  | CancelEvent t _ => Some (t, KCEvent)
  | _ => None
  end.
Definition act_timed (f : phase) : option bool :=
  match f with WakeTimeout _ b _ | CancelTimeout _ b _ => Some b | _ => None end.

Definition timed_of (f : phase) : option bool :=
  match f with Suspended _ b _ _ => Some b | _ => None end.
Definition queue_of (f : phase) : option nat :=
  match f with Suspended q _ _ _ => q | _ => None end.
Definition suspended (f : phase) : bool :=
  match f with Suspended _ _ _ _ => true | _ => false end.

Definition on_queue (wk : option waker) (c : tctl) : bool :=
  suspended (ph c) &&
  match ubi c, wk with
  | Some _, _ | None, Some (By _ KCTimeout) | None, Some (By _ KCEvent) | None, Some ByScan => true
  | _, _ => false
  end.
Definition on_time (wk : option waker) (c : tctl) : bool :=
  match timed_of (ph c) with Some true => true | _ => false end &&
  match ubi c, wk with
  | Some _, _ | None, Some (By _ KTimeout) | None, Some (By _ KCTimeout) => true
  | _, _ => false
  end.

(** thread by thread *)
Definition trel (wk : option waker) (c : tctl) (s : astat) : Prop :=
  match ph c with
  | Suspended q tm pt pf =>
      (q = None -> pt = pf) /\
      match ubi c, wk with
      | Some b, None => b = tm /\ s = SWait q pt pf /\ timedOut c = false
      | None, Some (By _ KTimeout) => s = SReady pt /\ timedOut c = false
      | None, Some (By _ KResume) | None, Some ByTimer => s = SReady (if timedOut c then pf else pt)
      | None, Some (By _ KCTimeout) | None, Some (By _ KCEvent) | None, Some ByScan =>
          s = SReady pf /\ timedOut c = false
      | _, _ => False
      end
  | f =>
      ubi c = None /\ wk = None /\
      match f with
      | Idle r => s = SIdle r
      | Exec p | BlkStore p _ _ _ _ | WakeTimeout _ _ p | WakeResume _ p
      | CancelGet _ p | CancelTimeout _ _ p | CancelEvent _ p => s = SAt p
      | Woken pt pf => s = SReady (if timedOut c then pf else pt)
      | Dead => s = SDead
      | Faulted _ => s = SFault
      | Suspended _ _ _ _ => False
      end
  end.

(** what a thread that is about to store its unblockInfo holds *)
Definition blk_ok (w : world) (i : tid) (f : phase) : Prop :=
  match f with
  | BlkStore p q to pt pf =>
      (is_timed q to = true -> tlock w = Some (Some i)) /\
      match q with
      | Some k => code i p = IBlock k to pt pf /\ lock w = Some i
      | None => code i p = ISleep to pt /\ pt = pf
      end
  | _ => True
  end.

Definition firing (t : tphase) : list tid :=
  match t with TIdle => [] | TScan _ _ f | TFire f | TResume _ f => f end.
Definition resuming (t : tphase) : option tid :=
  match t with TResume t _ => Some t | _ => None end.

Record trep (w : world) (wk : nat -> option waker) (j : tid) (s : astat) : Prop := {
  t_rel : trel (wk j) (thr w j) s;
  t_queue : forall q, j ∈ queues w q <-> queue_of (ph (thr w j)) = Some q /\ on_queue (wk j) (thr w j) = true;
  t_time : j ∈ (timeouts w).*2 <-> on_time (wk j) (thr w j) = true;
  t_fire : j ∈ firing (timer w) <-> wk j = Some ByScan;
  t_resume : resuming (timer w) = Some j <-> wk j = Some ByTimer;
  t_blk : blk_ok w j (ph (thr w j));
  t_act : forall t k, act (ph (thr w j)) = Some (t, k) -> wk t = Some (By j k);
  t_actt : forall t k b, act (ph (thr w j)) = Some (t, k) -> act_timed (ph (thr w j)) = Some b ->
             timed_of (ph (thr w t)) = Some b }.

Record grep (w : world) (a : astate) : Prop := {
  g_obj : a_obj a = obj w;
  g_lock : a_lock a = lock w;
  g_queue : forall q, NoDup (queues w q);
  g_wait : forall q, a_wait a q = filter (fun t => armed w t = true) (queues w q);
  g_time : NoDup (timeouts w).*2;
  g_fire : NoDup (firing (timer w));
  g_scan : forall now rest fire, timer w = TScan now rest fire ->
             tlock w = Some None /\ exists pre, timeouts w = pre ++ rest }.

Definition rel (w : world) (a : astate) : Prop :=
  exists wk, grep w a /\ forall j, trep w wk j (a_thr a j).

(** *** threads that a step does not touch *)
Lemma trep_frame w w' wk wk' j s :
  trep w wk j s -> thr w' j = thr w j -> wk' j = wk j ->
  (forall q, j ∈ queues w' q <-> j ∈ queues w q) ->
  (j ∈ (timeouts w').*2 <-> j ∈ (timeouts w).*2) ->
  (j ∈ firing (timer w') <-> j ∈ firing (timer w)) ->
  (resuming (timer w') = Some j <-> resuming (timer w) = Some j) ->
  (blk_ok w j (ph (thr w j)) -> blk_ok w' j (ph (thr w j))) ->
  (forall t k, wk t = Some (By j k) -> wk' t = Some (By j k) /\ ph (thr w' t) = ph (thr w t)) ->
  trep w' wk' j s.
Proof.
  intros [] Ht Hw Hq Htm Hf Hr Hb Ha. constructor; rewrite ?Ht, ?Hw; auto.
  - intros q. by rewrite Hq.
  - by rewrite Htm.
  - by rewrite Hf.
  - by rewrite Hr.
  - intros t k Hac. by apply Ha, t_act0.
  - intros t k b Hac Hb'. destruct (Ha t k) as [_ ->]; [by apply t_act0|]. eauto.
Qed.

Lemma trep_plain w wk j s :
  trep w wk j s -> suspended (ph (thr w j)) = false -> ubi (thr w j) = None /\ wk j = None.
Proof.
  intros [Hr _ _ _ _ _ _ _] Hs. unfold trel in Hr. destruct (ph (thr w j)); naive_solver.
Qed.

Lemma trep_suspended w wk j s q tm pt pf :
  trep w wk j s -> ph (thr w j) = Suspended q tm pt pf ->
  (wk j = None -> ubi (thr w j) = Some tm /\ s = SWait q pt pf /\ timedOut (thr w j) = false) /\
  (ubi (thr w j) <> None -> wk j = None).
Proof.
  intros [Hr _ _ _ _ _ _ _] Hs. unfold trel in Hr. rewrite Hs in Hr.
  destruct (ubi (thr w j)), (wk j) as [[? []| |]|]; naive_solver.
Qed.

(** a thread with a waker is suspended *)
Lemma trep_waker w wk j s x :
  trep w wk j s -> wk j = Some x ->
  exists q tm pt pf, ph (thr w j) = Suspended q tm pt pf /\ ubi (thr w j) = None.
Proof.
  intros [Hr _ _ _ _ _ _ _] Hs. unfold trel in Hr. rewrite Hs in Hr.
  destruct (ph (thr w j)); try naive_solver.
  destruct (ubi (thr w j)) eqn:E; [naive_solver|]. by eexists _, _, _, _.
Qed.

Lemma trep_armed w wk j s :
  trep w wk j s -> armed w j = true -> exists q tm pt pf, ph (thr w j) = Suspended q tm pt pf /\
    ubi (thr w j) = Some tm /\ wk j = None /\ s = SWait q pt pf /\ timedOut (thr w j) = false.
Proof.
  intros Ht Ha. unfold armed in Ha. destruct (ubi (thr w j)) as [b|] eqn:E; [|done].
  destruct (ph (thr w j)) as [| | |q tm pt pf| | | | | | | |] eqn:Ef;
    try (destruct (trep_plain _ _ _ _ Ht) as [? _]; [by rewrite Ef|congruence]).
  destruct (trep_suspended _ _ _ _ _ _ _ _ Ht Ef) as [H1 H2].
  assert (wk j = None) as Hw by (apply H2; congruence). destruct (H1 Hw) as (? & ? & ?).
  exists q, tm, pt, pf. split_and!; try done. congruence.
Qed.

Definition plain (f : phase) : Prop := suspended f = false /\ act f = None.

(** a thread goes from one code point to another *)
Lemma rel_plain w a i c' s' w' a' :
  rel w a -> plain (ph (thr w i)) -> plain (ph c') -> ubi c' = None ->
  (forall j, thr w' j = upd i c' (thr w) j) -> queues w' = queues w ->
  timeouts w' = timeouts w -> timer w' = timer w ->
  (forall j, a_thr a' j = upd i s' (a_thr a) j) -> a_wait a' = a_wait a -> a_obj a' = obj w' -> a_lock a' = lock w' ->
  trel None c' s' -> blk_ok w' i (ph c') ->
  lock w' = lock w \/ lock w = None \/ lock w = Some i ->
  tlock w' = tlock w \/ tlock w = None \/ tlock w = Some (Some i) ->
  rel w' a'.
Proof.
  intros (wk & Hg & Ht) [Hs1 Ha1] [Hs2 Ha2] Hu Hthr Hq Htm Hti Hath Haw Hao Hal Htr Hbk Hlk Htl.
  destruct (trep_plain _ _ _ _ (Ht i) Hs1) as [Hui Hwi].
  assert (forall j, ubi (thr w' j) = ubi (thr w j)) as Hub.
  { intros j. rewrite Hthr. unfold upd. case_decide; [subst; congruence|done]. }
  exists wk. split.
  - destruct Hg. constructor; rewrite ?Hq, ?Htm, ?Hti; try done.
    + intros q. rewrite Haw, g_wait0. apply list_filter_iff. intros t. unfold armed. by rewrite Hub.
    + intros now rest fire E. destruct (g_scan0 _ _ _ E) as [H1 H2]. split; [|done].
      destruct Htl as [->|[?|?]]; congruence.
  - intros j. rewrite Hath. destruct (decide (j = i)) as [->|Hne].
    + rewrite upd_eq. destruct (Ht i).
      constructor; rewrite ?Hthr, ?upd_eq, ?Hq, ?Htm, ?Hti, ?Hwi in *; try done.
      * intros q. rewrite t_queue0. unfold on_queue. rewrite Hs1, Hs2. naive_solver.
      * rewrite t_time0. unfold on_time. rewrite Hui, Hu, !andb_false_r. done.
      * rewrite Ha2. done.
      * rewrite Ha2. done.
    + rewrite upd_ne by done.
      apply (trep_frame w w' wk wk); rewrite ?Hthr, ?upd_ne by done; try done; try by rewrite ?Hq, ?Htm, ?Hti.
      * unfold blk_ok. destruct (ph (thr w j)); try done. intros [H1 H2]. split.
        -- intros Htd. specialize (H1 Htd). destruct Htl as [->|[?|?]]; congruence.
        -- destruct q; [|done]. destruct H2 as [? H2]. split; [done|]. destruct Hlk as [->|[?|?]]; congruence.
      * intros t k Hwk. split; [done|]. rewrite Hthr, upd_ne; [done|]. intros ->. congruence.
Qed.

Lemma rel_canc w a t b :
  rel w a -> rel (set_thr t (mkCtl (ph (thr w t)) b (ubi (thr w t)) (timedOut (thr w t))) w) a.
Proof.
  intros (wk & Hg & Ht). set (w' := set_thr _ _ w).
  assert (forall j, ph (thr w' j) = ph (thr w j) /\ ubi (thr w' j) = ubi (thr w j) /\
    timedOut (thr w' j) = timedOut (thr w j)) as Hsame.
  { intros j. unfold w'. simpl. unfold upd. case_decide; [by subst|done]. }
  exists wk. split.
  - destruct Hg. constructor; try done. intros q. rewrite g_wait0. apply list_filter_iff.
    intros j. unfold armed. destruct (Hsame j) as (_ & -> & _). done.
  - intros j. destruct (Hsame j) as (E1 & E2 & E3). destruct (Ht j).
    constructor; unfold trel, on_queue, on_time in *; rewrite ?E1, ?E2, ?E3; try done.
    intros u k bb H1 H2. destruct (Hsame u) as (-> & _). eauto.
Qed.

(** the acting thread: it is not suspended before and after *)
Lemma trep_self w w' wk wk' i s s' :
  trep w wk i s -> suspended (ph (thr w i)) = false -> suspended (ph (thr w' i)) = false ->
  ubi (thr w' i) = None -> wk' i = None ->
  (forall q, i ∈ queues w' q <-> i ∈ queues w q) ->
  (i ∈ (timeouts w').*2 <-> i ∈ (timeouts w).*2) ->
  (i ∈ firing (timer w') <-> i ∈ firing (timer w)) ->
  (resuming (timer w') = Some i <-> resuming (timer w) = Some i) ->
  trel None (thr w' i) s' -> blk_ok w' i (ph (thr w' i)) ->
  (forall t k, act (ph (thr w' i)) = Some (t, k) -> wk' t = Some (By i k)) ->
  (forall t k b, act (ph (thr w' i)) = Some (t, k) -> act_timed (ph (thr w' i)) = Some b ->
     timed_of (ph (thr w' t)) = Some b) ->
  trep w' wk' i s'.
Proof.
  intros Ht Hs Hs' Hu Hwk' Hq Htm Hf Hr Htr Hb Ha1 Ha2.
  destruct (trep_plain _ _ _ _ Ht Hs) as [Hui Hwi]. destruct Ht.
  constructor; rewrite ?Hwk'; auto.
  - intros q. rewrite Hq, t_queue0, Hwi. unfold on_queue. rewrite Hs, Hs'. simpl. naive_solver.
  - rewrite Htm, t_time0. unfold on_time. rewrite Hwi, Hui, Hu, !andb_false_r. done.
  - by rewrite Hf, t_fire0, Hwi.
  - by rewrite Hr, t_resume0, Hwi.
Qed.

(** a step that changes the record of a suspended thread [t] and of the acting
    thread [i]; memberships change for [t] only *)
Lemma rel_target w wk a i t w' a' wk' :
  grep w a -> (forall j, trep w wk j (a_thr a j)) -> i <> t ->
  suspended (ph (thr w i)) = false -> suspended (ph (thr w' i)) = false -> ubi (thr w' i) = None ->
  (forall k j, j <> i -> wk t <> Some (By j k)) ->
  (forall j, j <> i -> j <> t -> thr w' j = thr w j /\ a_thr a' j = a_thr a j) ->
  (forall j, j <> t -> wk' j = wk j) ->
  (forall j q, j <> t -> (j ∈ queues w' q <-> j ∈ queues w q)) ->
  (forall j, j <> t -> (j ∈ (timeouts w').*2 <-> j ∈ (timeouts w).*2)) ->
  timer w' = timer w ->
  lock w' = lock w \/ lock w = Some i -> tlock w' = tlock w ->
  trel None (thr w' i) (a_thr a' i) -> blk_ok w' i (ph (thr w' i)) ->
  (forall u k, act (ph (thr w' i)) = Some (u, k) -> u = t /\ wk' t = Some (By i k)) ->
  (forall b, act_timed (ph (thr w' i)) = Some b -> timed_of (ph (thr w' t)) = Some b) ->
  trep w' wk' t (a_thr a' t) -> grep w' a' ->
  rel w' a'.
Proof.
  intros Hg Ht Hit Hs Hs' Hu Hot Hthr Hwk Hq Htm Hti Hlk Htl Htr Hb Ha1 Ha2 Htt Hg'.
  exists wk'. split; [done|]. intros j. destruct (decide (j = t)) as [->|Hjt]; [done|].
  destruct (trep_plain _ _ _ _ (Ht i) Hs) as [_ Hwi].
  destruct (decide (j = i)) as [->|Hji].
  - apply (trep_self w w' wk wk' i (a_thr a i)); rewrite ?Hti; auto.
    + by rewrite Hwk.
    + intros u k Hac. destruct (Ha1 u k Hac) as [-> ?]. done.
    + intros u k b Hac Hb'. destruct (Ha1 u k Hac) as [-> _]. auto.
  - destruct (Hthr j Hji Hjt) as [E1 E2]. rewrite E2.
    apply (trep_frame w w' wk wk'); rewrite ?Hti; auto.
    + unfold blk_ok. destruct (ph (thr w j)); try done. rewrite Htl. intros [H1 H2]. split; [done|].
      destruct q; [|done]. destruct H2 as [? H2]. split; [done|]. destruct Hlk as [->|?]; congruence.
    + intros u k Hu'. destruct (decide (u = t)) as [->|Hut].
      * exfalso. by apply (Hot k j).
      * rewrite Hwk by done. split; [done|]. destruct (decide (u = i)) as [->|]; [congruence|].
        by destruct (Hthr u) as [-> _].
Qed.

Definition lock_at (l : option tid) (s : astat) (i : tid) : Prop :=
  match s with
  | SAt p => l = Some i <-> held p = true
  | SFault => True
  | SReady p => l <> Some i /\ held p = false
  | SWait _ pt pf => l <> Some i /\ held pt = false /\ held pf = false
  | SIdle _ | SDead => l <> Some i
  end.
Definition lock_ok (a : astate) : Prop := forall i, lock_at (a_lock a) (a_thr a i) i.

(** one abstract step or none *)
Definition sim (a : astate) (w' : world) : Prop := exists a', (a' = a \/ astep a a') /\ rel w' a'.

Lemma astate_eta a : a = mkA (a_obj a) (a_lock a) (a_wait a) (a_thr a).
Proof. by destruct a. Qed.

Lemma find_armed_Some w l t :
  find_armed w l = Some t -> armed w t = true /\ t ∈ l /\
    exists ts, filter (fun u => armed w u = true) l = t :: ts.
Proof.
  induction l as [|u l IH]; simpl; [done|]. destruct (armed w u) eqn:E.
  - intros [= ->]. split; [done|]. split; [left|]. rewrite filter_cons_True by done. eauto.
  - intros H. destruct (IH H) as (? & ? & ts & Hts). split; [done|]. split; [by right|].
    rewrite filter_cons_False by congruence. eauto.
Qed.
Lemma find_armed_None w l : find_armed w l = None -> filter (fun u => armed w u = true) l = [].
Proof.
  induction l as [|u l IH]; simpl; [done|]. destruct (armed w u) eqn:E; [done|].
  intros H. rewrite filter_cons_False by congruence. auto.
Qed.

(** the record of a plain thread's next code point *)
Lemma goto_plain w a i f s' a' :
  rel w a -> plain (ph (thr w i)) -> plain f ->
  (forall j, a_thr a' j = upd i s' (a_thr a) j) -> a_wait a' = a_wait a ->
  forall w1, queues w1 = queues w -> timeouts w1 = timeouts w -> timer w1 = timer w -> thr w1 = thr w ->
  a_obj a' = obj w1 -> a_lock a' = lock w1 ->
  trel None (mkCtl f (canc (thr w i)) None (timedOut (thr w i))) s' -> blk_ok (goto i f w1) i f ->
  lock w1 = lock w \/ lock w = None \/ lock w = Some i ->
  tlock w1 = tlock w \/ tlock w = None \/ tlock w = Some (Some i) ->
  rel (goto i f w1) a'.
Proof.
  intros Hrel Hp Hf Hath Haw w1 Hq Htm Hti Hth Ho Hl Htr Hb Hlk Htl.
  assert (ubi (thr w i) = None) as Hu.
  { destruct Hrel as (wk & _ & Ht). apply (trep_plain _ _ _ _ (Ht i)). apply Hp. }
  apply (rel_plain w a i (mkCtl f (canc (thr w i)) None (timedOut (thr w i))) s'); auto.
  - intros j. unfold goto. simpl. rewrite Hth. unfold upd. case_decide; [by rewrite Hu|done].
Qed.

(** [Thread::block]: test for cancellation *)
Lemma blk_test_sim w a i p q to pt pf :
  rel w a -> ph (thr w i) = Exec p ->
  (is_timed q to = true -> tlock w = None) ->
  match q with
  | Some k => code i p = IBlock k to pt pf /\ lock w = Some i
  | None => code i p = ISleep to pt /\ pt = pf
  end -> sim a (blk_test i p q to pt pf w).
Proof.
  intros Hrel Hph Htl Hcode. pose proof Hrel as (wk & Hg & Ht). destruct Hg.
  assert (a_thr a i = SAt p) as Hsi.
  { destruct (Ht i). unfold trel in t_rel0. rewrite Hph in t_rel0. naive_solver. }
  assert (ubi (thr w i) = None) as Hu by (apply (trep_plain _ _ _ _ (Ht i)); by rewrite Hph).
  assert (plain (ph (thr w i))) as Hpl by (by rewrite Hph).
  unfold blk_test. rewrite Hu. destruct (canc (thr w i)).
  - destruct q as [k|].
    + destruct Hcode as [Hc Hl]. rewrite Hl in *.
      exists (mkA (a_obj a) None (a_wait a) (upd i (SAt pf) (a_thr a))). split.
      * right. rewrite (astate_eta a) at 1. rewrite g_lock0. by eapply a_refuse.
      * eapply goto_plain; eauto; done.
    + destruct Hcode as [Hc ->].
      exists (mkA (a_obj a) (a_lock a) (a_wait a) (upd i (SAt pf) (a_thr a))). split.
      * right. rewrite (astate_eta a) at 1. eapply a_skip; [done|]. left. eauto.
      * eapply goto_plain; eauto; done.
  - exists a. split; [by left|]. destruct (is_timed q to) eqn:Etm.
    + eapply (goto_plain w a i _ (SAt p) a); eauto; try done.
      intros j. unfold upd. case_decide; [by subst|done].
    + eapply (goto_plain w a i _ (SAt p) a); eauto; try done.
      * intros j. unfold upd. case_decide; [by subst|done].
      * simpl. rewrite Etm. split; [done|]. destruct q; naive_solver.
Qed.

(** the abstract state of a thread at a program point *)
Lemma trep_at w wk i s p :
  trep w wk i s ->
  match ph (thr w i) with
  | Exec p' | BlkStore p' _ _ _ _ | WakeTimeout _ _ p' | WakeResume _ p'
  | CancelGet _ p' | CancelTimeout _ _ p' | CancelEvent _ p' => p' = p
  | _ => False
  end -> s = SAt p.
Proof. intros [Hr _ _ _ _ _ _ _]. unfold trel in Hr. destruct (ph (thr w i)); naive_solver. Qed.

(** the thread suspends itself and releases the locks *)
Lemma blk_store_sim w a i p q to pt pf :
  rel w a -> ph (thr w i) = BlkStore p q to pt pf -> sim a (blk_store i q to pt pf w).
Proof.
  intros (wk & Hg & Ht) Hph.
  assert (a_thr a i = SAt p) as Hsi by (apply (trep_at _ _ _ _ _ (Ht i)); by rewrite Hph).
  assert (ubi (thr w i) = None /\ wk i = None) as [Hu Hw]
    by (apply (trep_plain _ _ _ _ (Ht i)); by rewrite Hph).
  pose proof (t_blk _ _ _ _ (Ht i)) as Hblk. rewrite Hph in Hblk. destruct Hblk as [Htl Hcode].
  set (timed := is_timed q to) in *.
  assert (forall k, i ∉ queues w k) as Hnq.
  { intros k [E _]%(t_queue _ _ _ _ (Ht i)). by rewrite Hph in E. }
  assert (i ∉ (timeouts w).*2) as Hnt.
  { intros E%(t_time _ _ _ _ (Ht i)). unfold on_time in E. by rewrite Hph in E. }
  set (w' := blk_store i q to pt pf w).
  assert (queues w' = match q with Some k => upd k (queues w k ++ [i]) (queues w) | None => queues w end /\
    timeouts w' = (if timed then tinsert to i (timeouts w) else timeouts w) /\
    (forall j, thr w' j = upd i (mkCtl (Suspended q timed pt pf) (canc (thr w i)) (Some timed) false) (thr w) j) /\
    timer w' = timer w /\ obj w' = obj w /\
    lock w' = (match q with Some _ => None | None => lock w end) /\
    tlock w' = (if timed then None else tlock w)) as (Eq & Em & Et & Eti & Eo & El & Etl).
  { unfold w', blk_store. fold timed. destruct q as [k|], timed; simpl; split_and!; done. }
  clearbody w'.
  set (a' := mkA (a_obj a) (lock w') (match q with Some k => upd k (a_wait a k ++ [i]) (a_wait a) | None => a_wait a end)
    (upd i (SWait q pt pf) (a_thr a))).
  assert (a' = a \/ astep a a') as Hstep.
  { right. unfold a'. rewrite (astate_eta a) at 1. rewrite (g_lock _ _ Hg). destruct q as [k|].
    - destruct Hcode as [Hc Hl]. rewrite Hl, El. by eapply a_block.
    - destruct Hcode as [Hc ->]. rewrite El. by eapply a_sleep. }
  exists a'. split; [done|]. exists wk. split.
  - destruct Hg. constructor.
    + by rewrite Eo.
    + done.
    + intros k'. rewrite Eq. destruct q as [k|]; [|done]. unfold upd. case_decide; [subst|done].
      apply NoDup_app. split_and!; [done| |apply NoDup_singleton].
      intros x Hx ->%list_elem_of_singleton. by eapply Hnq.
    + assert (forall l : list tid, (i ∉ l) -> filter (fun t => armed w' t = true) l = filter (fun t => armed w t = true) l) as Hfl.
      { intros l Hl. apply filter_ext_in. intros x Hx. unfold armed. rewrite Et, upd_ne; [done|]. by intros ->. }
      intros k'. unfold a'. simpl. rewrite Eq. destruct q as [k|]; [|by rewrite Hfl].
      unfold upd. case_decide; [subst|by rewrite Hfl].
      rewrite filter_app, Hfl, g_wait0 by done. f_equal.
      rewrite filter_cons_True; [done|]. unfold armed. by rewrite Et, upd_eq.
    + rewrite Em. destruct timed; [|done]. rewrite tinsert_perm. simpl. by apply NoDup_cons.
    + by rewrite Eti.
    + intros now rest fire E. rewrite Eti in E. destruct (g_scan0 _ _ _ E) as [H1 H2].
      rewrite Em, Etl. destruct timed; [specialize (Htl eq_refl); congruence|done].
  - intros j. unfold a'. simpl. destruct (decide (j = i)) as [->|Hji].
    + rewrite upd_eq. destruct (Ht i). constructor; rewrite ?Et, ?upd_eq, ?Hw in *; simpl; try done.
      * unfold trel. simpl. split_and!; try done. destruct q; naive_solver.
      * intros k. rewrite Eq. unfold on_queue. simpl. destruct q as [k'|].
        -- unfold upd. case_decide as Hd; [subst k; rewrite elem_of_app; set_solver|].
           split; [intros Hin; by destruct (Hnq k)|naive_solver].
        -- split; [intros Hin; by destruct (Hnq k)|naive_solver].
      * rewrite Em. unfold on_time. simpl. destruct timed; [|split; [intros Hin; by destruct Hnt|done]].
        rewrite tinsert_perm. simpl. set_solver.
      * by rewrite Eti.
      * by rewrite Eti.
    + rewrite upd_ne by done.
      apply (trep_frame w w' wk wk); rewrite ?Et, ?upd_ne, ?Eti by done; try done.
      * intros k. rewrite Eq. destruct q as [k'|]; [|done]. unfold upd. case_decide; [subst|done].
        rewrite elem_of_app, list_elem_of_singleton. naive_solver.
      * rewrite Em. destruct timed; [|done]. rewrite tinsert_perm. simpl. set_solver.
      * unfold blk_ok. destruct (ph (thr w j)); try done. intros [H1 H2]. split.
        -- intros Htd. specialize (H1 Htd). rewrite Etl. destruct timed; [specialize (Htl eq_refl); congruence|done].
        -- destruct q0; [|done]. destruct H2 as [H2 H3]. split; [done|]. rewrite El.
           destruct q; [destruct Hcode; congruence|done].
      * intros t k Htk. split; [done|]. destruct (decide (t = i)) as [->|]; [congruence|].
        by rewrite Et, upd_ne.
Qed.

(** the queues after [t]'s unblockInfo was taken *)
Lemma wait_taken w a t k tm pt pf :
  rel w a -> ph (thr w t) = Suspended k tm pt pf ->
  forall w', (forall j, armed w' j = if decide (j = t) then false else armed w j) ->
  forall q, filter (fun u => armed w' u = true) (queues w q) =
    match k with Some k => upd k (qremove t (a_wait a k)) (a_wait a) q | None => a_wait a q end.
Proof.
  intros (wk & Hg & Ht) Hph w' Ha q.
  assert (filter (fun u => armed w' u = true) (queues w q) = qremove t (a_wait a q)) as E.
  { rewrite (g_wait _ _ Hg). apply filter_off; [|by rewrite Ha, decide_True].
    intros x Hx. by rewrite Ha, decide_False. }
  assert (Some q <> k -> qremove t (a_wait a q) = a_wait a q) as Hne.
  { intros Hk. apply qremove_notin. rewrite (g_wait _ _ Hg), list_elem_of_filter.
    intros [_ Hin]. apply (t_queue _ _ _ _ (Ht t)) in Hin as [Hin _]. rewrite Hph in Hin. simpl in Hin. congruence. }
  rewrite E. destruct k as [k|]; [|by apply Hne]. unfold upd. case_decide; [by subst|apply Hne; congruence].
Qed.

(** [BlockingQueue::resume] takes the first thread that is still blocked *)
Lemma resume_sim w a i p k g pt pf w' :
  rel w a -> lock_ok a -> ph (thr w i) = Exec p -> code i p = IResume k g pt pf -> held p = true ->
  exec i w = Some w' -> sim a w'.
Proof.
  intros Hrel Hlk Hph Hc Hh. unfold exec. rewrite Hph, Hc. pose proof Hrel as (wk & Hg & Ht).
  assert (a_thr a i = SAt p) as Hsi by (apply (trep_at _ _ _ _ _ (Ht i)); by rewrite Hph).
  assert (suspended (ph (thr w i)) = false) as Hsu by (by rewrite Hph).
  destruct (trep_plain _ _ _ _ (Ht i) Hsu) as [Hui Hwi].
  assert (a_lock a = Some i) as Hl by (pose proof (Hlk i) as E; rewrite Hsi in E; by apply E).
  assert (lock w = Some i) as Hlw by (by rewrite <- (g_lock _ _ Hg)).
  destruct (find_armed w (queues w k)) as [t|] eqn:Hf; intros [= <-].
  - apply find_armed_Some in Hf as (Harm & Hin & ts & Hts).
    destruct (trep_armed _ _ _ _ (Ht t) Harm) as (q & tm & pt' & pf' & Hpt & Hut & Hwt & Hst & Hto).
    assert (q = Some k) as ->.
    { apply (t_queue _ _ _ _ (Ht t)) in Hin as [Hin _]. by rewrite Hpt in Hin. }
    assert (i <> t) as Hit by (intros ->; rewrite Hph in Hpt; done).
    assert (a_wait a k = t :: ts) as Hwk by (by rewrite (g_wait _ _ Hg)).
    assert (NoDup (t :: ts)) as Hnd.
    { rewrite <- Hts. apply NoDup_filter. by apply (g_queue _ _ Hg). }
    exists (mkA (g t (a_obj a)) None (upd k ts (a_wait a)) (upd i (SAt pt) (upd t (SReady pt') (a_thr a)))).
    split.
    { right. rewrite (astate_eta a) at 1. rewrite Hl. eapply a_resume; eauto. }
    set (w' := goto i _ _).
    assert (forall j, thr w' j = upd i (mkCtl (WakeTimeout t tm pt) (canc (thr w i)) None (timedOut (thr w i)))
      (upd t (mkCtl (Suspended (Some k) tm pt' pf') (canc (thr w t)) None false) (thr w)) j) as Eth.
    { intros j. unfold w', goto, take_ubi. simpl. rewrite Hut. simpl. unfold upd.
      repeat case_decide; subst; rewrite ?Hui, ?Hpt, ?Hto; done. }
    assert (queues w' = upd k (qremove t (queues w k)) (queues w)) as Eq by done.
    assert (timeouts w' = timeouts w /\ timer w' = timer w /\ lock w' = None /\ tlock w' = tlock w /\
      obj w' = g t (obj w)) as (Etm & Eti & El & Etl & Eo) by done.
    clearbody w'.
    pose proof (Eth i) as Ei. rewrite upd_eq in Ei.
    pose proof (Eth t) as Et. rewrite upd_ne, upd_eq in Et by done.
    assert (forall j, j <> i -> j <> t -> thr w' j = thr w j) as Ej by (intros; by rewrite Eth, !upd_ne).
    assert (upd t (Some (By i KTimeout)) wk t = Some (By i KTimeout)) as Ewk by apply upd_eq.
    eapply (rel_target w wk a i t w' _ (upd t (Some (By i KTimeout)) wk)); auto;
      rewrite ?Ei, ?Ewk; simpl; rewrite ?upd_eq; try done.
    + intros k' j _. by rewrite Hwt.
    + intros j H1 H2. split; [by apply Ej|]. by rewrite !upd_ne.
    + intros j Hj. by rewrite upd_ne.
    + intros j q Hj. rewrite Eq. unfold upd. case_decide; [subst|done]. rewrite elem_of_qremove. naive_solver.
    + intros j Hj. by rewrite Etm.
    + intros u k' [= <- <-]. done.
    + intros b [= <-]. by rewrite Et.
    + rewrite upd_ne, upd_eq by done.
      destruct (Ht t). constructor; rewrite ?Et, ?Ewk, ?Etm, ?Eti, ?Hwt, ?Hpt in *; simpl; try done.
      * intros q. rewrite Eq. unfold on_queue. simpl. split; [|naive_solver].
        unfold upd. case_decide; [subst; rewrite elem_of_qremove; naive_solver|].
        intros [E _]%t_queue0. simpl in E. congruence.
      * rewrite t_time0. unfold on_time. rewrite Hpt, Hut. simpl. done.
      * by rewrite t_fire0.
      * by rewrite t_resume0.
    + destruct Hg. constructor; rewrite ?Etm, ?Eti, ?Etl, ?Eo; simpl; try done; [by rewrite g_obj0| |].
      * intros q. rewrite Eq. unfold upd. case_decide; [apply NoDup_qremove|]; done.
      * intros q. rewrite Eq.
        pose proof (wait_taken w a t (Some k) tm pt' pf' Hrel Hpt w') as Hwtk.
        assert (forall j, armed w' j = if decide (j = t) then false else armed w j) as Har.
        { intros j. unfold armed. rewrite Eth. unfold upd. repeat case_decide; subst; try done. by rewrite Hui. }
        specialize (Hwtk Har q). simpl in Hwtk. unfold upd in *. case_decide; subst.
        -- rewrite filter_qremove, Hwtk, Hwk. rewrite qremove_head by done.
           rewrite qremove_notin; [done|]. by apply NoDup_cons in Hnd as [? _].
        -- done.
  - apply find_armed_None in Hf.
    exists (mkA (a_obj a) (a_lock a) (a_wait a) (upd i (SAt pf) (a_thr a))). split.
    { right. rewrite (astate_eta a) at 1. rewrite Hl. eapply a_resume_none; eauto. by rewrite (g_wait _ _ Hg). }
    eapply goto_plain; eauto; try done; try (by rewrite Hph); apply Hg.
Qed.

(** the waker that [t] waits for *)
Lemma waker_target w wk a i t k :
  (forall j, trep w wk j (a_thr a j)) -> act (ph (thr w i)) = Some (t, k) ->
  wk t = Some (By i k) /\ i <> t /\
  exists q tm pt pf, ph (thr w t) = Suspended q tm pt pf /\ ubi (thr w t) = None.
Proof.
  intros Ht Ha. pose proof (t_act _ _ _ _ (Ht i) _ _ Ha) as Hw. split; [done|]. split.
  - intros ->. destruct (trep_waker _ _ _ _ _ (Ht t) Hw) as (q & tm & pt & pf & E & _). by rewrite E in Ha.
  - by eapply trep_waker.
Qed.

(** [ubi->cancelTimeout()] in [resume] and in [cancel] *)
Lemma cancelTimeout_sim w a i t timed p f' k1 k2 w' :
  rel w a ->
  ph (thr w i) = WakeTimeout t timed p /\ f' = WakeResume t p /\ k1 = KTimeout /\ k2 = KResume \/
  ph (thr w i) = CancelTimeout t timed p /\ f' = CancelEvent t p /\ k1 = KCTimeout /\ k2 = KCEvent ->
  (if timed then tlock w = None else True) ->
  w' = goto i f' (if timed then set_timeouts (terase t (timeouts w)) w else w) -> rel w' a.
Proof.
  intros Hrel Hk Htl ->. pose proof Hrel as (wk & Hg & Ht).
  assert (act (ph (thr w i)) = Some (t, k1) /\ act_timed (ph (thr w i)) = Some timed /\
    act f' = Some (t, k2) /\ act_timed f' = None /\ suspended f' = false) as (Ha & Hat & Ha' & Hat' & Hs')
    by (destruct Hk as [(-> & -> & -> & ->)|(-> & -> & -> & ->)]; done).
  destruct (waker_target _ _ _ _ _ _ Ht Ha) as (Hwt & Hit & q & tm & pt & pf & Hpt & Hut).
  assert (tm = timed) as -> by (pose proof (t_actt _ _ _ _ (Ht i) _ _ _ Ha Hat) as E; rewrite Hpt in E; by injection E).
  assert (suspended (ph (thr w i)) = false) as Hsi by (destruct Hk as [(-> & _)|(-> & _)]; done).
  destruct (trep_plain _ _ _ _ (Ht i) Hsi) as [Hui Hwi].
  assert (a_thr a i = SAt p) as Hat1.
  { apply (trep_at _ _ _ _ _ (Ht i)). destruct Hk as [(-> & _)|(-> & _)]; done. }
  set (w' := goto i f' _).
  assert (thr w' i = mkCtl f' (canc (thr w i)) None (timedOut (thr w i))) as Ei.
  { unfold w', goto. destruct timed; simpl; rewrite upd_eq, Hui; done. }
  assert (forall j, j <> i -> thr w' j = thr w j) as Ej.
  { intros j Hj. unfold w', goto. destruct timed; simpl; by rewrite upd_ne. }
  assert (queues w' = queues w /\ timer w' = timer w /\ lock w' = lock w /\ tlock w' = tlock w /\ obj w' = obj w /\
    timeouts w' = if timed then terase t (timeouts w) else timeouts w) as (Eq & Eti & El & Etl & Eo & Etm).
  { unfold w', goto. by destruct timed. }
  clearbody w'.
  assert (upd t (Some (By i k2)) wk t = Some (By i k2)) as Ewk by apply upd_eq.
  eapply (rel_target w wk a i t w' a (upd t (Some (By i k2)) wk)); auto;
    rewrite ?Ei, ?Ewk, ?Eq; simpl; try done; auto.
  - intros k j Hj. rewrite Hwt. congruence.
  - intros j Hj. by rewrite upd_ne.
  - intros j Hj. rewrite Etm. destruct timed; [|done]. rewrite elem_of_terase. naive_solver.
  - unfold trel. simpl. destruct Hk as [(_ & -> & _)|(_ & -> & _)]; done.
  - destruct Hk as [(_ & -> & _)|(_ & -> & _)]; done.
  - intros u k E. rewrite Ha' in E. by injection E as <- <-.
  - intros b. by rewrite Hat'.
  - destruct (Ht t). constructor; rewrite ?Ej, ?Ewk, ?Eti, ?Eq, ?Hwt in * by done; try done.
    + unfold trel in *. rewrite Hpt, Hut in *.
      destruct Hk as [(_ & _ & -> & ->)|(_ & _ & -> & ->)]; [|done].
      destruct t_rel0 as (? & -> & ->). done.
    + intros q'. rewrite t_queue0. unfold on_queue. rewrite Hut.
      destruct Hk as [(_ & _ & -> & ->)|(_ & _ & -> & ->)]; done.
    + rewrite Etm. unfold on_time in *. rewrite Hpt, Hut in *. simpl in *. destruct timed.
      * rewrite elem_of_terase. split; [naive_solver|].
        destruct Hk as [(_ & _ & -> & ->)|(_ & _ & -> & ->)]; done.
      * rewrite t_time0. done.
    + rewrite t_fire0. naive_solver.
    + rewrite t_resume0. naive_solver.
    + rewrite Hpt. done.
    + rewrite Hpt. done.
    + rewrite Hpt. done.
  - assert (forall j, armed w' j = armed w j) as Har.
    { intros j. unfold armed. destruct (decide (j = i)) as [->|]; [by rewrite Ei, Hui|by rewrite Ej]. }
    destruct Hg. constructor; rewrite ?Eq, ?Eti, ?El, ?Etl, ?Eo; try done.
    + intros q'. rewrite g_wait0. apply list_filter_iff. intros x. by rewrite Har.
    + rewrite Etm. destruct timed; [by apply NoDup_terase|done].
    + intros now rest fire E. destruct (g_scan0 _ _ _ E) as [H1 H2]. split; [done|].
      rewrite Etm. destruct timed; [congruence|done].
Qed.

(** [t->resume()] *)
Lemma do_resume_sim w a i t p w' :
  rel w a -> ph (thr w i) = WakeResume t p -> w' = resume_or_fault i t (Exec p) w -> rel w' a.
Proof.
  intros Hrel Hph ->. pose proof Hrel as (wk & Hg & Ht).
  assert (act (ph (thr w i)) = Some (t, KResume)) as Ha by (by rewrite Hph).
  destruct (waker_target _ _ _ _ _ _ Ht Ha) as (Hwt & Hit & q & tm & pt & pf & Hpt & Hut).
  assert (suspended (ph (thr w i)) = false) as Hsi by (by rewrite Hph).
  destruct (trep_plain _ _ _ _ (Ht i) Hsi) as [Hui Hwi].
  assert (a_thr a i = SAt p) as Hat1 by (apply (trep_at _ _ _ _ _ (Ht i)); by rewrite Hph).
  unfold resume_or_fault, do_resume. rewrite Hpt. set (w' := goto i _ _).
  assert (thr w' i = mkCtl (Exec p) (canc (thr w i)) None (timedOut (thr w i))) as Ei.
  { unfold w', goto. simpl. rewrite upd_eq, upd_ne by done. by rewrite Hui. }
  assert (thr w' t = mkCtl (Woken pt pf) (canc (thr w t)) None (timedOut (thr w t))) as Et.
  { unfold w', goto. simpl. rewrite upd_ne, upd_eq by done. by rewrite Hut. }
  assert (forall j, j <> i -> j <> t -> thr w' j = thr w j) as Ej.
  { intros j H1 H2. unfold w', goto. simpl. by rewrite !upd_ne. }
  assert (queues w' = queues w /\ timer w' = timer w /\ lock w' = lock w /\ tlock w' = tlock w /\ obj w' = obj w /\
    timeouts w' = timeouts w) as (Eq & Eti & El & Etl & Eo & Etm) by done.
  clearbody w'.
  assert (upd t None wk t = None) as Ewk by apply upd_eq.
  eapply (rel_target w wk a i t w' a (upd t None wk)); auto;
    rewrite ?Ei, ?Ewk, ?Eq, ?Etm; simpl; try done; auto.
  - intros k j Hj. rewrite Hwt. congruence.
  - intros j Hj. by rewrite upd_ne.
  - destruct (Ht t). constructor; rewrite ?Et, ?Ewk, ?Eti, ?Eq, ?Etm, ?Hwt in * by done; try done.
    + unfold trel in *. rewrite Hpt, Hut in t_rel0. simpl. naive_solver.
    + intros q'. rewrite t_queue0. unfold on_queue. rewrite Hut, Hpt. simpl. naive_solver.
    + rewrite t_time0. unfold on_time. rewrite Hut, andb_false_r. done.
    + rewrite t_fire0. naive_solver.
    + rewrite t_resume0. naive_solver.
  - assert (forall j, armed w' j = armed w j) as Har.
    { intros j. unfold armed. destruct (decide (j = i)) as [->|]; [by rewrite Ei, Hui|].
      destruct (decide (j = t)) as [->|]; [by rewrite Et, Hut|by rewrite Ej]. }
    destruct Hg. constructor; rewrite ?Eq, ?Eti, ?El, ?Etl, ?Eo, ?Etm; try done.
    intros q'. rewrite g_wait0. apply list_filter_iff. intros x. by rewrite Har.
Qed.

(** [getUnblockInfo] in [cancel]: the wait of [t] fails *)
Lemma cancelGet_sim w a i t timed p w' :
  rel w a -> ph (thr w i) = CancelGet t p -> ubi (thr w t) = Some timed ->
  w' = goto i (CancelTimeout t timed p) (take_ubi t w) -> sim a w'.
Proof.
  intros Hrel Hph Hut ->. pose proof Hrel as (wk & Hg & Ht).
  assert (armed w t = true) as Harm by (unfold armed; by rewrite Hut).
  destruct (trep_armed _ _ _ _ (Ht t) Harm) as (q & tm & pt & pf & Hpt & Hut' & Hwt & Hst & Hto).
  assert (tm = timed) as -> by congruence. clear Hut'.
  assert (i <> t) as Hit by (intros ->; rewrite Hph in Hpt; done).
  assert (suspended (ph (thr w i)) = false) as Hsi by (by rewrite Hph).
  destruct (trep_plain _ _ _ _ (Ht i) Hsi) as [Hui Hwi].
  assert (a_thr a i = SAt p) as Hat1 by (apply (trep_at _ _ _ _ _ (Ht i)); by rewrite Hph).
  exists (mkA (a_obj a) (a_lock a)
    (match q with Some k => upd k (qremove t (a_wait a k)) (a_wait a) | None => a_wait a end)
    (upd t (SReady pf) (a_thr a))).
  split. { right. rewrite (astate_eta a) at 1. by eapply a_expire. }
  set (w' := goto i _ _).
  assert (thr w' i = mkCtl (CancelTimeout t timed p) (canc (thr w i)) None (timedOut (thr w i))) as Ei.
  { unfold w', goto. simpl. rewrite upd_eq, upd_ne by done. by rewrite Hui. }
  assert (thr w' t = mkCtl (Suspended q timed pt pf) (canc (thr w t)) None false) as Et.
  { unfold w', goto. simpl. rewrite upd_ne, upd_eq by done. by rewrite Hpt, Hto. }
  assert (forall j, j <> i -> j <> t -> thr w' j = thr w j) as Ej.
  { intros j H1 H2. unfold w', goto. simpl. by rewrite !upd_ne. }
  assert (queues w' = queues w /\ timer w' = timer w /\ lock w' = lock w /\ tlock w' = tlock w /\ obj w' = obj w /\
    timeouts w' = timeouts w) as (Eq & Eti & El & Etl & Eo & Etm) by done.
  clearbody w'.
  assert (upd t (Some (By i KCTimeout)) wk t = Some (By i KCTimeout)) as Ewk by apply upd_eq.
  eapply (rel_target w wk a i t w' _ (upd t (Some (By i KCTimeout)) wk)); auto;
    rewrite ?Ei, ?Ewk, ?Eq, ?Etm; simpl; rewrite ?upd_eq; try done; auto.
  - intros k j Hj. by rewrite Hwt.
  - intros j H1 H2. split; [by apply Ej|]. by rewrite upd_ne.
  - intros j Hj. by rewrite upd_ne.
  - by rewrite upd_ne.
  - intros u k [= <- <-]. done.
  - intros b [= <-]. by rewrite Et.
  - destruct (Ht t). constructor; rewrite ?Et, ?Ewk, ?Eti, ?Eq, ?Etm, ?Hwt, ?Hpt in *; try done.
    + unfold trel in *. simpl. rewrite Hpt in t_rel0. naive_solver.
    + intros q'. rewrite t_queue0. unfold on_queue. simpl. rewrite Hpt, Hut. done.
    + rewrite t_time0. unfold on_time. simpl. by rewrite Hpt, Hut.
    + by rewrite t_fire0.
    + by rewrite t_resume0.
  - assert (forall j, armed w' j = if decide (j = t) then false else armed w j) as Har.
    { intros j. unfold armed. case_decide as Hd; [subst; by rewrite Et|].
      destruct (decide (j = i)) as [->|]; [by rewrite Ei, Hui|by rewrite Ej]. }
    pose proof (wait_taken w a t q timed pt pf Hrel Hpt w' Har) as Hwtk.
    destruct Hg. constructor; rewrite ?Eq, ?Eti, ?El, ?Etl, ?Eo, ?Etm; simpl; try done.
    intros q'. symmetry. rewrite Hwtk. by destruct q.
Qed.

(** what [cancelEvent] does to [t] and to the queues, for a thread and for the timer *)
Lemma event_target w w' wk x t s q tm pt pf :
  trep w wk t s -> ph (thr w t) = Suspended q tm pt pf -> ubi (thr w t) = None ->
  match wk t with Some (By _ KCEvent) | Some ByScan => True | _ => False end ->
  match x with By _ KResume | ByTimer => True | _ => False end ->
  thr w' t = mkCtl (Suspended q tm pt pf) (canc (thr w t)) None
    (match q with Some _ => true | None => timedOut (thr w t) end) ->
  queues w' = match q with Some k => upd k (qremove t (queues w k)) (queues w) | None => queues w end ->
  timeouts w' = timeouts w ->
  (t ∈ firing (timer w') <-> x = ByScan) ->
  (resuming (timer w') = Some t <-> x = ByTimer) ->
  trep w' (upd t (Some x) wk) t s.
Proof.
  intros Htr Hpt Hut Hwt Hx Et Eq Etm Hfi Hre.
  assert (upd t (Some x) wk t = Some x) as Ewk by apply upd_eq.
  destruct Htr. constructor; rewrite ?Et, ?Ewk, ?Etm; simpl; try done.
  - unfold trel in *. rewrite Hpt, Hut in t_rel0. simpl.
    destruct t_rel0 as [Hq0 Hr0]. split; [done|].
    assert (s = SReady pf /\ timedOut (thr w t) = false) as [-> Hto]
      by (destruct (wk t) as [[? []| |]|]; done).
    destruct x as [? []| |]; try done; (destruct q; [done|]; rewrite Hto; by rewrite Hq0).
  - intros k'. rewrite Eq. unfold on_queue. simpl. split.
    + destruct q as [k|].
      * unfold upd. case_decide; [subst; rewrite elem_of_qremove; naive_solver|].
        intros [E _]%t_queue0. rewrite Hpt in E. simpl in E. congruence.
      * intros [E _]%t_queue0. by rewrite Hpt in E.
    + intros [_ E]. destruct x as [? []| |]; done.
  - rewrite t_time0. unfold on_time. rewrite Hpt, Hut. simpl.
    destruct (wk t) as [[? []| |]|], x as [? []| |]; try done; by destruct tm.
  - rewrite Hfi. naive_solver.
  - rewrite Hre. naive_solver.
Qed.

Lemma event_grep w w' wk a t q tm pt pf :
  grep w a -> (forall j, trep w wk j (a_thr a j)) -> ph (thr w t) = Suspended q tm pt pf -> ubi (thr w t) = None ->
  (forall j, ubi (thr w' j) = ubi (thr w j)) ->
  queues w' = match q with Some k => upd k (qremove t (queues w k)) (queues w) | None => queues w end ->
  NoDup (firing (timer w')) ->
  (forall now rest fire, timer w' = TScan now rest fire -> timer w = TScan now rest fire) ->
  lock w' = lock w -> tlock w' = tlock w -> obj w' = obj w -> timeouts w' = timeouts w -> grep w' a.
Proof.
  intros Hg Ht Hpt Hut Hub Eq Hnf Eti El Etl Eo Etm.
  destruct Hg. constructor; rewrite ?El, ?Etl, ?Eo, ?Etm; try done.
  - intros k'. rewrite Eq. destruct q as [k|]; [|done]. unfold upd. case_decide; [by apply NoDup_qremove|done].
  - assert (forall j, armed w' j = armed w j) as Har by (intros j; unfold armed; by rewrite Hub).
    assert (forall l : list tid, filter (fun u => armed w' u = true) l = filter (fun u => armed w u = true) l) as Hfl.
    { intros l. apply list_filter_iff. intros x. by rewrite Har. }
    intros k'. rewrite Eq, g_wait0. destruct q as [k|]; [|by rewrite Hfl].
    unfold upd. case_decide; [subst|by rewrite Hfl]. rewrite filter_qremove, Hfl, qremove_notin; [done|].
    rewrite list_elem_of_filter. unfold armed. rewrite Hut. by intros [? _].
  - intros now rest fire E. apply Eti in E. eauto.
Qed.

(** [cancelEvent]: [t] leaves its queue *)
Lemma cancelEvent_sim w a i t p w' :
  rel w a -> ph (thr w i) = CancelEvent t p -> w' = goto i (WakeResume t p) (cancelEvent t w) -> rel w' a.
Proof.
  intros Hrel Hph ->. pose proof Hrel as (wk & Hg & Ht).
  assert (act (ph (thr w i)) = Some (t, KCEvent)) as Ha by (by rewrite Hph).
  destruct (waker_target _ _ _ _ _ _ Ht Ha) as (Hwt & Hit & q & tm & pt & pf & Hpt & Hut).
  assert (suspended (ph (thr w i)) = false) as Hsi by (by rewrite Hph).
  destruct (trep_plain _ _ _ _ (Ht i) Hsi) as [Hui Hwi].
  assert (a_thr a i = SAt p) as Hat1 by (apply (trep_at _ _ _ _ _ (Ht i)); by rewrite Hph).
  set (w' := goto i _ _).
  assert (thr w' i = mkCtl (WakeResume t p) (canc (thr w i)) None (timedOut (thr w i))) as Ei.
  { unfold w', goto, cancelEvent. rewrite Hpt. destruct q; simpl; rewrite upd_eq, ?upd_ne, Hui by done; done. }
  assert (thr w' t = mkCtl (Suspended q tm pt pf) (canc (thr w t)) None
    (match q with Some _ => true | None => timedOut (thr w t) end)) as Et.
  { unfold w', goto, cancelEvent. rewrite Hpt. destruct q; simpl; rewrite upd_ne, ?upd_eq, ?Hpt, ?Hut by done; try done.
    destruct (thr w t); simpl in *; by subst. }
  assert (forall j, j <> i -> j <> t -> thr w' j = thr w j) as Ej.
  { intros j H1 H2. unfold w', goto, cancelEvent. rewrite Hpt. by destruct q; simpl; rewrite !upd_ne. }
  assert (queues w' = match q with Some k => upd k (qremove t (queues w k)) (queues w) | None => queues w end) as Eq.
  { unfold w', goto, cancelEvent. rewrite Hpt. by destruct q. }
  assert (timer w' = timer w /\ lock w' = lock w /\ tlock w' = tlock w /\ obj w' = obj w /\
    timeouts w' = timeouts w) as (Eti & El & Etl & Eo & Etm).
  { unfold w', goto, cancelEvent. rewrite Hpt. by destruct q. }
  clearbody w'.
  assert (upd t (Some (By i KResume)) wk t = Some (By i KResume)) as Ewk by apply upd_eq.
  eapply (rel_target w wk a i t w' a (upd t (Some (By i KResume)) wk)); auto;
    rewrite ?Ei, ?Ewk, ?Etm; simpl; try done; auto.
  - intros k j Hj. rewrite Hwt. congruence.
  - intros j Hj. by rewrite upd_ne.
  - intros j q' Hj. rewrite Eq. destruct q as [k|]; [|done]. unfold upd. case_decide; [subst|done].
    rewrite elem_of_qremove. naive_solver.
  - intros u k [= <- <-]. done.
  - apply (event_target w w' wk (By i KResume) t (a_thr a t) q tm pt pf); auto.
    + by rewrite Hwt.
    + rewrite Eti, (t_fire _ _ _ _ (Ht t)), Hwt. split; congruence.
    + rewrite Eti, (t_resume _ _ _ _ (Ht t)), Hwt. split; congruence.
  - apply (event_grep w w' wk a t q tm pt pf); auto.
    + intros j. destruct (decide (j = i)) as [->|]; [by rewrite Ei, Hui|].
      destruct (decide (j = t)) as [->|]; [by rewrite Et, Hut|by rewrite Ej].
    + rewrite Eti. apply Hg.
    + by rewrite Eti.
Qed.

(** ** The timer *)
Lemma rel_timer w wk a t w' a' wk' :
  (forall j, trep w wk j (a_thr a j)) ->
  (forall j k, wk t <> Some (By j k)) ->
  (forall j, j <> t -> thr w' j = thr w j /\ a_thr a' j = a_thr a j /\ wk' j = wk j) ->
  (forall j q, j <> t -> (j ∈ queues w' q <-> j ∈ queues w q)) ->
  (forall j, j <> t -> (j ∈ (timeouts w').*2 <-> j ∈ (timeouts w).*2)) ->
  (forall j, j <> t -> (j ∈ firing (timer w') <-> j ∈ firing (timer w))) ->
  (forall j, j <> t -> (resuming (timer w') = Some j <-> resuming (timer w) = Some j)) ->
  lock w' = lock w -> tlock w' = tlock w ->
  trep w' wk' t (a_thr a' t) -> grep w' a' -> rel w' a'.
Proof.
  intros Ht Hot Hj Hq Htm Hf Hr Hl Htl Htt Hg. exists wk'. split; [done|].
  intros j. destruct (decide (j = t)) as [->|Hne]; [done|].
  destruct (Hj j Hne) as (E1 & E2 & E3). rewrite E2.
  apply (trep_frame w w' wk wk'); auto.
  - unfold blk_ok. by rewrite Hl, Htl.
  - intros u k Hu. destruct (decide (u = t)) as [->|Hut]; [by apply Hot in Hu|].
    destruct (Hj u Hut) as (-> & _ & ->). done.
Qed.

(** the timer moves on without touching a thread *)
Lemma timer_move w a tl ti w' :
  rel w a -> firing ti = firing (timer w) -> resuming ti = None -> resuming (timer w) = None ->
  tl = tlock w \/ tlock w = None \/ tlock w = Some None ->
  (forall now rest fire, ti = TScan now rest fire -> tl = Some None /\ exists pre, timeouts w = pre ++ rest) ->
  w' = set_tlock tl (set_timer ti w) -> rel w' a.
Proof.
  intros (wk & Hg & Ht) Hf Hr Hr' Htl Hsc ->. exists wk. split.
  - destruct Hg. constructor; simpl; try done. by rewrite Hf.
  - intros j. apply (trep_frame w _ wk wk); auto; simpl; try done.
    + by rewrite Hf.
    + by rewrite Hr, Hr'.
    + unfold blk_ok. simpl. destruct (ph (thr w j)); try done. intros [H1 H2]. split; [|done].
      intros Htd. specialize (H1 Htd). destruct Htl as [->|[?|?]]; congruence.
Qed.

(** an expired wait is taken off the timeout queue *)
Lemma scan_take_sim w a now k t rest fire b w' :
  rel w a -> timer w = TScan now ((k, t) :: rest) fire -> ubi (thr w t) = Some b ->
  w' = set_timer (TScan now rest (fire ++ [t])) (set_timeouts (terase t (timeouts w)) (take_ubi t w)) ->
  sim a w'.
Proof.
  intros Hrel Hti Hut ->. pose proof Hrel as (wk & Hg & Ht).
  assert (armed w t = true) as Harm by (unfold armed; by rewrite Hut).
  destruct (trep_armed _ _ _ _ (Ht t) Harm) as (q & tm & pt & pf & Hpt & Hut' & Hwt & Hst & Hto).
  assert (tm = b) as -> by congruence. clear Hut'.
  destruct (g_scan _ _ Hg _ _ _ Hti) as [Htl [pre Hpre]].
  assert (t ∈ (timeouts w).*2) as Hin by (rewrite Hpre, fmap_app; simpl; set_solver).
  assert (b = true) as ->.
  { apply (t_time _ _ _ _ (Ht t)) in Hin. unfold on_time in Hin. rewrite Hpt in Hin. by destruct b. }
  assert (t ∉ fire) as Hnf.
  { intros H. pose proof (t_fire _ _ _ _ (Ht t)) as Hfi. rewrite Hti in Hfi. simpl in Hfi.
    apply Hfi in H. congruence. }
  exists (mkA (a_obj a) (a_lock a)
    (match q with Some k => upd k (qremove t (a_wait a k)) (a_wait a) | None => a_wait a end)
    (upd t (SReady pf) (a_thr a))).
  split. { right. rewrite (astate_eta a) at 1. by eapply a_expire. }
  set (w' := set_timer _ _).
  assert (thr w' t = mkCtl (Suspended q true pt pf) (canc (thr w t)) None false) as Et.
  { unfold w'. simpl. rewrite upd_eq. by rewrite Hpt, Hto. }
  assert (forall j, j <> t -> thr w' j = thr w j) as Ej by (intros j H1; unfold w'; simpl; by rewrite upd_ne).
  assert (queues w' = queues w /\ timer w' = TScan now rest (fire ++ [t]) /\ lock w' = lock w /\ tlock w' = tlock w /\
    obj w' = obj w /\ timeouts w' = terase t (timeouts w)) as (Eq & Eti & El & Etl & Eo & Etm) by done.
  clearbody w'.
  assert (upd t (Some ByScan) wk t = Some ByScan) as Ewk by apply upd_eq.
  apply (rel_timer w wk a t w' _ (upd t (Some ByScan) wk)); auto; simpl.
  - intros j k'. by rewrite Hwt.
  - intros j Hj. rewrite !upd_ne by done. auto.
  - intros j q' _. by rewrite Eq.
  - intros j Hj. rewrite Etm, elem_of_terase. naive_solver.
  - intros j Hj. rewrite Eti, Hti. simpl. rewrite elem_of_app, list_elem_of_singleton. naive_solver.
  - intros j Hj. rewrite Eti, Hti. done.
  - rewrite upd_eq. destruct (Ht t). constructor; rewrite ?Et, ?Ewk, ?Eti, ?Eq, ?Etm, ?Hwt, ?Hpt in *; try done.
    + unfold trel in *. simpl. rewrite Hpt in t_rel0. naive_solver.
    + intros q'. rewrite t_queue0. unfold on_queue. simpl. rewrite Hpt, Hut. done.
    + rewrite elem_of_terase. unfold on_time. simpl. naive_solver.
    + simpl. rewrite elem_of_app. set_solver.
  - assert (forall j, armed w' j = if decide (j = t) then false else armed w j) as Har.
    { intros j. unfold armed. case_decide as Hd; [subst; by rewrite Et|by rewrite Ej]. }
    pose proof (wait_taken w a t q true pt pf Hrel Hpt w' Har) as Hwtk.
    destruct Hg. constructor; rewrite ?Eq, ?Eti, ?El, ?Etl, ?Eo, ?Etm; simpl; try done.
    + intros q'. symmetry. rewrite Hwtk. by destruct q.
    + by apply NoDup_terase.
    + rewrite Hti in g_fire0. simpl in g_fire0. apply NoDup_app. split_and!; [done| |apply NoDup_singleton].
      intros x Hx ->%list_elem_of_singleton. done.
    + intros now' rest' fire' [= <- <- <-]. split; [done|].
      rewrite Hpre in g_time0 |- *. rewrite fmap_app in g_time0. simpl in g_time0.
      apply NoDup_app in g_time0 as (Hnp & Hdis & [Hnr Hnd]%NoDup_cons).
      exists pre. unfold terase. rewrite filter_app. f_equal.
      * apply terase_notin. intros H. apply (Hdis t H). left.
      * rewrite filter_cons_False by (simpl; auto).
        by apply terase_notin.
Qed.

(** the fired waits are cancelled and their threads resumed, one by one *)
Lemma fire_event_sim w a t fire w' :
  rel w a -> timer w = TFire (t :: fire) -> w' = set_timer (TResume t fire) (cancelEvent t w) -> rel w' a.
Proof.
  intros Hrel Hti ->. pose proof Hrel as (wk & Hg & Ht).
  assert (wk t = Some ByScan) as Hwt.
  { apply (t_fire _ _ _ _ (Ht t)). rewrite Hti. left. }
  destruct (trep_waker _ _ _ _ _ (Ht t) Hwt) as (q & tm & pt & pf & Hpt & Hut).
  pose proof (g_fire _ _ Hg) as Hnd. rewrite Hti in Hnd. simpl in Hnd. apply NoDup_cons in Hnd as [Hnf Hnd].
  set (w' := set_timer _ _).
  assert (thr w' t = mkCtl (Suspended q tm pt pf) (canc (thr w t)) None
    (match q with Some _ => true | None => timedOut (thr w t) end)) as Et.
  { unfold w', cancelEvent. rewrite Hpt. destruct q; simpl; rewrite ?upd_eq, ?Hpt, ?Hut by done; try done.
    destruct (thr w t); simpl in *; by subst. }
  assert (forall j, j <> t -> thr w' j = thr w j) as Ej.
  { intros j H1. unfold w', cancelEvent. rewrite Hpt. by destruct q; simpl; rewrite ?upd_ne. }
  assert (queues w' = match q with Some k => upd k (qremove t (queues w k)) (queues w) | None => queues w end) as Eq.
  { unfold w', cancelEvent. rewrite Hpt. by destruct q. }
  assert (timer w' = TResume t fire /\ lock w' = lock w /\ tlock w' = tlock w /\ obj w' = obj w /\
    timeouts w' = timeouts w) as (Eti & El & Etl & Eo & Etm).
  { unfold w', cancelEvent. rewrite Hpt. by destruct q. }
  clearbody w'.
  apply (rel_timer w wk a t w' a (upd t (Some ByTimer) wk)); auto.
  - intros j k. by rewrite Hwt.
  - intros j Hj. rewrite upd_ne by done. auto.
  - intros j q' Hj. rewrite Eq. destruct q as [k|]; [|done]. unfold upd. case_decide; [subst|done].
    rewrite elem_of_qremove. naive_solver.
  - intros j _. by rewrite Etm.
  - intros j Hj. rewrite Eti, Hti. simpl. rewrite elem_of_cons. naive_solver.
  - intros j Hj. rewrite Eti, Hti. simpl. naive_solver.
  - apply (event_target w w' wk ByTimer t (a_thr a t) q tm pt pf); auto.
    + by rewrite Hwt.
    + rewrite Eti. simpl. naive_solver.
    + by rewrite Eti.
  - apply (event_grep w w' wk a t q tm pt pf); auto.
    + intros j. destruct (decide (j = t)) as [->|]; [by rewrite Et, Hut|by rewrite Ej].
    + by rewrite Eti.
    + by rewrite Eti.
Qed.

Lemma fire_resume_sim w a t fire w' w1 :
  rel w a -> timer w = TResume t fire -> do_resume t w = Some w1 -> w' = set_timer (TFire fire) w1 -> rel w' a.
Proof.
  intros Hrel Hti Hdo ->. pose proof Hrel as (wk & Hg & Ht).
  assert (wk t = Some ByTimer) as Hwt.
  { apply (t_resume _ _ _ _ (Ht t)). by rewrite Hti. }
  destruct (trep_waker _ _ _ _ _ (Ht t) Hwt) as (q & tm & pt & pf & Hpt & Hut).
  unfold do_resume in Hdo. rewrite Hpt in Hdo. injection Hdo as <-.
  set (w' := set_timer _ _).
  assert (thr w' t = mkCtl (Woken pt pf) (canc (thr w t)) None (timedOut (thr w t))) as Et.
  { unfold w', goto. simpl. by rewrite upd_eq, Hut. }
  assert (forall j, j <> t -> thr w' j = thr w j) as Ej by (intros j H1; unfold w', goto; simpl; by rewrite upd_ne).
  assert (queues w' = queues w /\ timer w' = TFire fire /\ lock w' = lock w /\ tlock w' = tlock w /\
    obj w' = obj w /\ timeouts w' = timeouts w) as (Eq & Eti & El & Etl & Eo & Etm) by done.
  clearbody w'.
  apply (rel_timer w wk a t w' a (upd t None wk)); auto; rewrite ?Eq, ?Etm; auto.
  - intros j k'. by rewrite Hwt.
  - intros j Hj. rewrite upd_ne by done. auto.
  - intros j Hj. by rewrite Eti, Hti.
  - intros j Hj. rewrite Eti, Hti. simpl. naive_solver.
  - pose proof (upd_eq t None wk) as Ewk.
    destruct (Ht t). constructor; rewrite ?Et, ?Ewk, ?Eti, ?Eq, ?Etm, ?Hwt, ?Hti in * by done; try done.
    + unfold trel in *. rewrite Hpt, Hut in t_rel0. simpl. naive_solver.
    + intros q'. rewrite t_queue0. unfold on_queue. rewrite Hut, Hpt. simpl. naive_solver.
    + rewrite t_time0. unfold on_time. rewrite Hut, andb_false_r. done.
    + simpl in *. rewrite t_fire0. naive_solver.
  - assert (forall j, armed w' j = armed w j) as Har.
    { intros j. unfold armed. destruct (decide (j = t)) as [->|]; [by rewrite Et, Hut|by rewrite Ej]. }
    destruct Hg. rewrite Hti in *. constructor; rewrite ?Eq, ?Eti, ?El, ?Etl, ?Eo, ?Etm; try done.
    intros q'. rewrite g_wait0. apply list_filter_iff. intros x. by rewrite Har.
Qed.

Lemma timer_sim w a now w' : rel w a -> exec_timer now w = Some w' -> sim a w'.
Proof.
  intros Hrel. pose proof Hrel as (wk & Hg & Ht). unfold exec_timer.
  destruct (timer w) as [|n [|[k t] rest] fire|[|t fire]|t fire] eqn:Hti.
  - destruct (tlock w) eqn:Htl; [done|]. intros [= <-]. exists a. split; [by left|].
    eapply (timer_move w a (Some None) (TScan now (timeouts w) [])); eauto; try (by rewrite Hti).
    intros n' r f [= <- <- <-]. split; [done|]. by exists [].
  - intros [= <-]. exists a. split; [by left|]. destruct (g_scan _ _ Hg _ _ _ Hti) as [Htl _].
    eapply (timer_move w a None (TFire fire)); eauto; first [by rewrite Hti|done].
  - destruct (g_scan _ _ Hg _ _ _ Hti) as [Htl [pre Hpre]]. destruct (k <=? n).
    + destruct (ubi (thr w t)) as [b|] eqn:Hu; intros [= <-].
      * by eapply scan_take_sim.
      * exists a. split; [by left|].
        eapply (timer_move w a (tlock w) (TScan n rest fire)); eauto; try (by rewrite Hti); try (by destruct w).
        intros n' r f [= <- <- <-]. split; [done|]. exists (pre ++ [(k, t)]). by rewrite <- (assoc_L (++)).
    + intros [= <-]. exists a. split; [by left|].
      eapply (timer_move w a None (TFire fire)); eauto; first [by rewrite Hti|done].
  - intros [= <-]. exists a. split; [by left|].
    eapply (timer_move w a (tlock w) TIdle); eauto; try (by rewrite Hti). by destruct w.
  - assert (match ph (thr w t), lock w with
       | Suspended (Some _) _ _ _, Some _ => None
       | _, _ => Some (set_timer (TResume t fire) (cancelEvent t w)) end = Some w' ->
       w' = set_timer (TResume t fire) (cancelEvent t w)) as Hcase.
    { destruct (ph (thr w t)) as [| | |[?|] ? ? ?| | | | | | | |], (lock w); congruence. }
    intros H%Hcase. exists a. split; [by left|]. by eapply fire_event_sim.
  - intros H. destruct (do_resume t w) as [w1|] eqn:Hd; [|done]. injection H as <-.
    exists a. split; [by left|]. by eapply fire_resume_sim.
Qed.

(** ** The refinement *)
Lemma abs_self a i s : a_thr a i = s -> forall j, a_thr a j = upd i s (a_thr a) j.
Proof. intros H j. unfold upd. case_decide; [by subst|done]. Qed.

(** a thread goes to another code point and the abstract machine follows *)
Lemma move_sim w a i f s' o l w1 :
  rel w a -> plain (ph (thr w i)) -> plain f ->
  astep a (mkA o l (a_wait a) (upd i s' (a_thr a))) ->
  trel None (mkCtl f (canc (thr w i)) None (timedOut (thr w i))) s' -> blk_ok (goto i f w1) i f ->
  queues w1 = queues w -> timeouts w1 = timeouts w -> timer w1 = timer w -> thr w1 = thr w ->
  o = obj w1 -> l = lock w1 -> tlock w1 = tlock w -> lock w1 = lock w \/ lock w = None \/ lock w = Some i ->
  sim a (goto i f w1).
Proof.
  intros Hrel Hp Hf Hst Htr Hb Hq Htm Hti Hth -> -> Htl Hlk.
  eexists. split; [by right|]. eapply goto_plain; eauto; done.
Qed.

Lemma exec_code_sim w a i p w' :
  well_locked -> rel w a -> lock_ok a -> ph (thr w i) = Exec p -> exec i w = Some w' -> sim a w'.
Proof.
  intros [_ Hwl] Hrel Hlk Hph Hex. pose proof Hrel as (wk & Hg & Ht). specialize (Hwl i p).
  assert (a_thr a i = SAt p) as Hsi by (apply (trep_at _ _ _ _ _ (Ht i)); by rewrite Hph).
  assert (plain (ph (thr w i))) as Hpl by (by rewrite Hph).
  assert (held p = true -> a_lock a = Some i) as Hl by (pose proof (Hlk i) as E; rewrite Hsi in E; apply E).
  pose proof (g_lock _ _ Hg) as Gl. pose proof (g_obj _ _ Hg) as Go.
  unfold exec in Hex. rewrite Hph in Hex. destruct (code i p) as [p'|p'|f|f|q to pt pf|q g pt pf|to p'|t p'|r] eqn:Hc.
  - destruct (lock w) eqn:El; [done|]. injection Hex as <-.
    eapply (move_sim w a i (Exec p') (SAt p') (a_obj a) (Some i)); eauto; try done.
    rewrite (astate_eta a) at 1. rewrite Gl. by eapply a_acquire.
  - destruct Hwl as [Hh _]. rewrite (Hl Hh) in Gl. injection Hex as <-.
    eapply (move_sim w a i (Exec p') (SAt p') (a_obj a) None); eauto; try done.
    rewrite (astate_eta a) at 1. rewrite (Hl Hh). by eapply a_release.
  - destruct Hwl as [Hh _]. specialize (Hl Hh). rewrite Hl in Gl.
    destruct (f (obj w)) as [[o p']|e] eqn:Ef; injection Hex as <-.
    + eapply (move_sim w a i (Exec p') (SAt p') o (Some i)); eauto; try done.
      rewrite (astate_eta a) at 1. rewrite Hl. eapply a_access; eauto. by rewrite Go.
    + eapply (move_sim w a i (Faulted e) SFault (a_obj a) (Some i)); eauto; try done.
      rewrite (astate_eta a) at 1. rewrite Hl. eapply a_access_fault; eauto. by rewrite Go.
  - destruct (f (obj w)) as [[o p']|e] eqn:Ef; injection Hex as <-.
    + eapply (move_sim w a i (Exec p') (SAt p') o (a_lock a)); eauto; try done.
      rewrite (astate_eta a) at 1. eapply a_peek; eauto. by rewrite Go.
    + eapply (move_sim w a i (Faulted e) SFault (a_obj a) (a_lock a)); eauto; try done.
      rewrite (astate_eta a) at 1. eapply a_peek_fault; eauto. by rewrite Go.
  - destruct Hwl as [Hh _]. specialize (Hl Hh). rewrite Hl in Gl.
    destruct (to =? noTimeout) eqn:Eto; [|destruct (0 <? to)].
    + injection Hex as <-. apply blk_test_sim; auto. simpl. by rewrite Eto.
    + destruct (tlock w) eqn:Etl; [done|]. injection Hex as <-. apply blk_test_sim; auto.
    + injection Hex as <-. eapply (move_sim w a i (Exec pf) (SAt pf) (a_obj a) None); eauto; try done.
      rewrite (astate_eta a) at 1. rewrite Hl. by eapply a_refuse.
  - destruct Hwl as [Hh _]. eapply resume_sim; eauto. unfold exec. by rewrite Hph, Hc.
  - destruct (tlock w) eqn:Etl; [done|]. injection Hex as <-. apply blk_test_sim; auto.
  - case_decide as Hd; injection Hex as <-.
    + subst t. eapply (move_sim w a i (Faulted AssertFailed) SFault (a_obj a) (a_lock a)); eauto; try done.
      rewrite (astate_eta a) at 1. by eapply a_cancel_self.
    + set (w1 := set_thr t _ w). assert (rel w1 a) as Hrel1 by (by apply rel_canc).
      assert (thr w1 i = thr w i) as Ei by (unfold w1; simpl; rewrite upd_ne by auto; done).
      eapply (move_sim w1 a i (CancelGet t p') (SAt p') (a_obj a) (a_lock a)); eauto; try done; rewrite ?Ei; try done.
      rewrite (astate_eta a) at 1. eapply a_skip; eauto.
  - injection Hex as <-. eapply (move_sim w a i (Idle r) (SIdle r) (a_obj a) (a_lock a)); eauto; try done.
    rewrite (astate_eta a) at 1. by eapply a_done.
Qed.

Lemma exec_sim w a i w' :
  well_locked -> rel w a -> lock_ok a -> exec i w = Some w' -> sim a w'.
Proof.
  intros Hwl Hrel Hlk Hex. pose proof Hrel as (wk & Hg & Ht).
  assert (forall p, match ph (thr w i) with
    | Exec p' | BlkStore p' _ _ _ _ | WakeTimeout _ _ p' | WakeResume _ p'
    | CancelGet _ p' | CancelTimeout _ _ p' | CancelEvent _ p' => p' = p
    | _ => False end -> a_thr a i = SAt p) as Hat by (intros p; apply (trep_at _ _ _ _ _ (Ht i))).
  pose proof Hex as Hex'. unfold exec in Hex'.
  destruct (ph (thr w i)) as [r|p|p q to pt pf|q tm pt pf|pt pf|t tm p|t p|t p|t tm p|t p| |e] eqn:Hph; try done.
  - by eapply exec_code_sim.
  - injection Hex' as <-. by eapply blk_store_sim.
  - assert (a_thr a i = SReady (if timedOut (thr w i) then pf else pt)) as Hsi.
    { destruct (Ht i). unfold trel in t_rel0. rewrite Hph in t_rel0. naive_solver. }
    destruct (canc (thr w i)); injection Hex' as <-.
    + eapply (move_sim w a i Dead SDead (a_obj a) (a_lock a)); eauto; try done; try (by rewrite Hph); try apply Hg.
      rewrite (astate_eta a) at 1. apply a_die; try congruence.
      pose proof (Hlk i) as E. rewrite Hsi in E. by destruct E.
    + eapply (move_sim w a i _ (SAt _) (a_obj a) (a_lock a)); eauto; try done; try (by rewrite Hph); try apply Hg.
      rewrite (astate_eta a) at 1. by apply a_run.
  - exists a. split; [by left|]. destruct tm.
    + destruct (tlock w) eqn:Etl; [done|]. injection Hex' as <-.
      eapply (cancelTimeout_sim w a i t true p (WakeResume t p)); eauto 10.
    + injection Hex' as <-.
      eapply (cancelTimeout_sim w a i t false p (WakeResume t p)); eauto 10.
  - injection Hex' as <-. exists a. split; [by left|]. by eapply do_resume_sim.
  - destruct (ubi (thr w t)) as [tm|] eqn:Hu; injection Hex' as <-.
    + by eapply cancelGet_sim.
    + exists a. split; [by left|].
      eapply (goto_plain w a i (Exec p) (SAt p)); eauto; try done; try (by rewrite Hph); try apply Hg.
      by apply abs_self, Hat.
  - exists a. split; [by left|]. destruct tm.
    + destruct (tlock w) eqn:Etl; [done|]. injection Hex' as <-.
      eapply (cancelTimeout_sim w a i t true p (CancelEvent t p)); eauto 10.
    + injection Hex' as <-.
      eapply (cancelTimeout_sim w a i t false p (CancelEvent t p)); eauto 10.
  - exists a. split; [by left|]. eapply cancelEvent_sim; eauto.
    destruct (ph (thr w t)) as [| | |[?|] ? ? ?| | | | | | | |], (lock w); congruence.
Qed.

(** a waker that dies: its target keeps waiting for it *)
Lemma preempt_sim w a i w' :
  rel w a -> lock_ok a -> preempt i w = Some w' -> sim a w'.
Proof.
  intros Hrel Hlk Hp. pose proof Hrel as (wk & Hg & Ht). unfold preempt in Hp.
  destruct (canc (thr w i) && _ && _) eqn:Hc; [|done].
  apply andb_true_iff in Hc as [[_ Hc1]%andb_true_iff Hc2].
  apply negb_true_iff, bool_decide_eq_false in Hc1, Hc2.
  assert (suspended (ph (thr w i)) = false /\ w' = goto i Dead w /\ a_thr a i <> SFault /\
    (forall k pt pf, a_thr a i <> SWait k pt pf)) as (Hs & -> & Hnf & Hnw).
  { pose proof (t_rel _ _ _ _ (Ht i)) as Htr. unfold trel in Htr.
    destruct (ph (thr w i)); try done; injection Hp as <-; destruct Htr as (_ & _ & ->); try done. }
  destruct (trep_plain _ _ _ _ (Ht i) Hs) as [Hui Hwi].
  exists (mkA (a_obj a) (a_lock a) (a_wait a) (upd i SDead (a_thr a))). split.
  { right. rewrite (astate_eta a) at 1. apply a_die; auto. by rewrite (g_lock _ _ Hg). }
  set (w' := goto i Dead w).
  assert (thr w' i = mkCtl Dead (canc (thr w i)) None (timedOut (thr w i))) as Ei
    by (unfold w', goto; simpl; by rewrite upd_eq, Hui).
  assert (forall j, j <> i -> thr w' j = thr w j) as Ej by (intros j Hj; unfold w', goto; simpl; by rewrite upd_ne).
  exists wk. split.
  - destruct Hg. constructor; try done. intros q. simpl. rewrite g_wait0. apply list_filter_iff.
    intros x. unfold armed. destruct (decide (x = i)) as [->|]; [by rewrite Ei, Hui|by rewrite Ej].
  - intros j. simpl. destruct (decide (j = i)) as [->|Hne].
    + rewrite upd_eq. apply (trep_self w w' wk wk i (a_thr a i)); rewrite ?Ei; auto; done.
    + rewrite upd_ne by done. apply (trep_frame w w' wk wk); auto; try done.
      intros u k Hu. split; [done|]. destruct (decide (u = i)) as [->|]; [congruence|]. by rewrite Ej.
Qed.

(** the lock is held by the thread whose program point says so *)
Lemma lock_ok_step a a' : well_locked -> lock_ok a -> astep a a' -> lock_ok a'.
Proof.
  intros [Hst Hwl] Hlk Hs.
  assert (forall i s l l' (o : O) q x, lock_ok (mkA o l q s) -> lock_at l' x i ->
    (l' = l \/ l' = Some i /\ l = None \/ l' = None /\ l = Some i) ->
    forall j, lock_at l' (upd i x s j) j) as Hupd.
  { intros i s l l' o q x Hl Hx Hll j. destruct (decide (j = i)) as [->|Hne]; [by rewrite upd_eq|].
    rewrite upd_ne by done. pose proof (Hl j) as E. simpl in E. unfold lock_at in *.
    destruct Hll as [->|[[-> ->]|[-> ->]]]; [done| |]; destruct (s j); naive_solver congruence. }
  intros j. revert j.
  destruct Hs; simpl in *;
    try (match goal with H : code ?i ?p = _ |- _ => pose proof (Hwl i p) as Hw; rewrite H in Hw end);
    try (match goal with H : ?s ?i = SAt ?p |- _ => pose proof (Hlk i) as Hh; simpl in Hh; rewrite H in Hh; simpl in Hh end).
  all: try (eapply Hupd; [exact Hlk| |by auto]; clear Hwl Hst Hupd Hlk; simpl; destruct_and?; intuition congruence).
  - eapply Hupd; [exact Hlk| |by auto]. pose proof (Hlk i) as E. simpl in *. rewrite H in E. simpl in E.
    rewrite (Hst _ _ _ _ H0). split; congruence.
  - eapply Hupd; [exact Hlk| |by auto]. simpl. destruct Hw as [_ Hw]. by rewrite (Hw _ _ _ H1).
  - eapply Hupd; [exact Hlk| |by auto]. simpl. destruct Hw as [Hw1 Hw]. rewrite (Hw _ _ _ H1), Hh, Hw1. done.
  - destruct Hw as (Hw1 & Hw2 & Hw3). pose proof (Hlk t) as Et. simpl in Et. rewrite H2 in Et. destruct Et as (? & ? & ?).
    eapply (Hupd i (upd t (SReady pt') s) (Some i) None (g t o) q); [|simpl; split; congruence|auto].
    intros j'. simpl. eapply (Hupd t s (Some i) (Some i) o q); [done|done|auto].
  - eapply Hupd; [exact Hlk| |by auto]. simpl.
    destruct H0 as [[to Hc]|[t Hc]]; specialize (Hwl i p); rewrite Hc in Hwl; destruct Hwl as [H1 H2];
      rewrite Hh, H1, H2; done.
  - eapply Hupd; [exact Hlk| |by auto]. pose proof (Hlk t) as E. simpl in E. rewrite H in E. naive_solver.
  - eapply Hupd; [exact Hlk| |by auto]. pose proof (Hlk i) as E. simpl in E. rewrite H in E.
    destruct E as [? E]. simpl. rewrite E. split; congruence.
Qed.

(** nobody is in the code, nothing waits *)
Definition initial (o : O) : world :=
  mkWorld o None None (fun _ => []) [] (fun _ => mkCtl (Idle false) false None false) TIdle.
Definition a_initial (o : O) : astate := mkA o None (fun _ => []) (fun _ => SIdle false).

Lemma rel_initial o : rel (initial o) (a_initial o).
Proof.
  exists (fun _ => None). split.
  - constructor; simpl; try done; intros; constructor.
  - intros j. constructor; simpl; try done; try (intros; split; [by intros ?%elem_of_nil|naive_solver]).
Qed.

Lemma rel_unique_waker w a i t k :
  rel w a -> act (ph (thr w i)) = Some (t, k) ->
  (exists q tm pt pf, ph (thr w t) = Suspended q tm pt pf) /\ ubi (thr w t) = None /\
  (forall j k', act (ph (thr w j)) = Some (t, k') -> j = i /\ k' = k) /\
  (t ∉ firing (timer w)) /\ resuming (timer w) <> Some t.
Proof.
  intros (wk & Hg & Ht) Ha.
  destruct (waker_target _ _ _ _ _ _ Ht Ha) as (Hwt & Hit & q & tm & pt & pf & Hpt & Hut).
  split; [eauto|]. split; [done|]. split; [|split].
  - intros j k' Hj. destruct (waker_target _ _ _ _ _ _ Ht Hj) as (Hwt' & _). split; congruence.
  - rewrite (t_fire _ _ _ _ (Ht t)), Hwt. done.
  - rewrite (t_resume _ _ _ _ (Ht t)), Hwt. done.
Qed.

(** a blocked thread with its unblockInfo set is waiting in the abstract machine *)
Lemma rel_armed w a t :
  rel w a -> armed w t = true ->
  exists q tm pt pf, ph (thr w t) = Suspended q tm pt pf /\ a_thr a t = SWait q pt pf /\
    match q with Some k => t ∈ a_wait a k | None => True end.
Proof.
  intros (wk & Hg & Ht) Ha.
  destruct (trep_armed _ _ _ _ (Ht t) Ha) as (q & tm & pt & pf & Hpt & Hut & Hwt & Hst & _).
  exists q, tm, pt, pf. split; [done|]. split; [done|]. destruct q as [k|]; [|done].
  rewrite (g_wait _ _ Hg), list_elem_of_filter. split; [done|].
  apply (t_queue _ _ _ _ (Ht t)). rewrite Hpt. split; [done|]. unfold on_queue. by rewrite Hpt, Hut.
Qed.

Lemma rel_idle w a i r : rel w a -> ph (thr w i) = Idle r -> a_thr a i = SIdle r.
Proof. intros (wk & Hg & Ht) Hi. pose proof (t_rel _ _ _ _ (Ht i)) as E. unfold trel in E. rewrite Hi in E. naive_solver. Qed.
Lemma rel_faulted w a i e : rel w a -> ph (thr w i) = Faulted e -> a_thr a i = SFault.
Proof. intros (wk & Hg & Ht) Hi. pose proof (t_rel _ _ _ _ (Ht i)) as E. unfold trel in E. rewrite Hi in E. naive_solver. Qed.
Lemma rel_obj w a : rel w a -> a_obj a = obj w.
Proof. intros (wk & Hg & Ht). apply Hg. Qed.

Lemma refine_run o w :
  well_locked -> steps cstep (initial o) w ->
  exists a, steps astep (a_initial o) a /\ rel w a /\ lock_ok a.
Proof.
  intros Hwl Hs.
  assert (forall v u, steps cstep v u -> forall a, steps astep (a_initial o) a -> rel v a -> lock_ok a ->
    exists a', steps astep (a_initial o) a' /\ rel u a' /\ lock_ok a') as Hgo.
  { induction 1 as [v|v u u' Hst _ IH]; intros a Ha Hr Hl; [eauto|].
    assert (sim a u) as (a' & Hor & Hr').
    { destruct Hst as [i p r v Hph Hsta|i v u He|i v u He|now v u He].
      - pose proof Hr as (wk & Hg & Ht).
        eapply (move_sim v a i (Exec p) (SAt p) (a_obj a) (a_lock a)); eauto; try done; try (by rewrite Hph); try apply Hg.
        rewrite (astate_eta a) at 1. apply (a_start i p r); [|by rewrite (g_obj _ _ Hg)].
        destruct (Ht i). unfold trel in t_rel0. rewrite Hph in t_rel0. naive_solver.
      - by eapply exec_sim.
      - by eapply preempt_sim.
      - by eapply timer_sim. }
    destruct Hor as [->|Hor]; [by apply (IH a)|].
    apply (IH a'); [|done|by eapply lock_ok_step]. eapply steps_trans; [done|by apply steps_one]. }
  apply (Hgo _ _ Hs (a_initial o)); [constructor|apply rel_initial|]. intros i. done.
Qed.

End machine.

(** C1. The detailed machine (locks, [unblockInfo] exchanged atomically,
    timeout queue, timer, cancellation, preemption) refines the abstract one:
    after every run there is a run of the abstract machine with the same
    object, lock and program points, in which the waiting threads of each
    queue are exactly the blocked threads whose unblockInfo is still set, in
    queue order.  A thread that was blocked has at most one waker, whichever of
    [resume], time-out and [cancel] took its unblockInfo first, and a thread
    about to be resumed is suspended, so it is not made ready twice; the only
    faults are the object's own assertions. *)
Theorem blocking_refinement {O PC} (code : tid -> PC -> instr O PC) start held o w :
  well_locked code start held -> steps (cstep code start) (initial o) w ->
  exists a, steps (astep code start) (a_initial o) a /\
    a_obj a = obj w /\ a_lock a = lock w /\
    (forall q, a_wait a q = filter (fun t => armed w t = true) (queues w q)) /\
    (forall i, match ph (thr w i) with
       | Idle r => a_thr a i = SIdle r
       | Exec p | WakeTimeout _ _ p | WakeResume _ p => a_thr a i = SAt p
       | Suspended q _ pt pf => if armed w i then a_thr a i = SWait q pt pf
                                else a_thr a i = SReady pt \/ a_thr a i = SReady pf
       | Woken pt pf => a_thr a i = SReady (if timedOut (thr w i) then pf else pt)
       | Dead => a_thr a i = SDead
       | Faulted _ => a_thr a i = SFault
       | _ => exists p, a_thr a i = SAt p end) /\
    (forall i t k, act (ph (thr w i)) = Some (t, k) ->
       (exists q tm pt pf, ph (thr w t) = Suspended q tm pt pf) /\ armed w t = false /\
       (forall j k', act (ph (thr w j)) = Some (t, k') -> j = i /\ k' = k) /\
       (t ∉ firing (timer w)) /\ resuming (timer w) <> Some t).
Proof.
  intros Hwl Hs. destruct (refine_run code start held o w Hwl Hs) as (a & Ha & Hr & _).
  exists a. pose proof Hr as (wk & Hg & Ht). split; [done|]. split; [apply Hg|]. split; [apply Hg|].
  split; [apply Hg|]. split.
  - intros i. pose proof (t_rel _ _ _ _ _ (Ht i)) as Htr. unfold trel in Htr. unfold armed.
    destruct (ph (thr w i)); try naive_solver. destruct Htr as [_ Htr].
    destruct (ubi (thr w i)), (wk i) as [[? []| |]|]; destruct (timedOut (thr w i)); naive_solver.
  - intros i t k Hi. destruct (rel_unique_waker code held w a i t k Hr Hi) as (H1 & H2 & H3 & H4 & H5).
    unfold armed. by rewrite H2.
Qed.

(** a flag: thread 0 waits for it with a time-out, thread 1 sets it *)
Definition flag_code (me : tid) (p : nat) : instr bool nat :=
  match p with
  | 0%nat => IAcquire 1%nat
  | 1%nat => IAccess (fun o => Ok (o, if (o : bool) then 3%nat else 2%nat))
  | 2%nat => IBlock 0 7 4%nat 4%nat
  | 3%nat => IRelease 4%nat
  | 4%nat => IDone true
  | 5%nat => IAcquire 6%nat
  | 6%nat => IResume 0 (fun _ _ => true) 8%nat 7%nat
  | 7%nat => IAccess (fun _ => Ok (true, 3%nat))
  | _ => IDone true
  end.
Definition flag_held (p : nat) : bool := match p with 1%nat | 2%nat | 3%nat | 6%nat | 7%nat => true | _ => false end.
Definition flag_startb (_ : bool) (r : bool) (me : tid) (p : nat) : bool :=
  bool_decide (p = if decide (me = 0)%nat then 0 else 5)%nat.
Definition flag_demo : world (O:=bool) (PC:=nat) :=
  default (initial false) (play flag_code flag_startb
    [MStart 0%nat 0%nat; MStart 1%nat 5%nat; MExec 0%nat; MExec 0%nat; MExec 0%nat; MExec 0%nat; MTimer 3; MTimer 3;
     MTimer 3; MExec 1%nat; MExec 1%nat] (initial false)).

Lemma blocking_refinement_witness :
  ph (thr flag_demo 0%nat) = Suspended (Some 0%nat) true 4%nat 4%nat /\
  ph (thr flag_demo 1%nat) = WakeTimeout 0%nat true 8%nat /\
  exists a, steps (astep flag_code (fun o r i p => flag_startb o r i p = true)) (a_initial false) a /\
    a_obj a = true /\ a_lock a = None.
Proof.
  split; [vm_compute; reflexivity|]. split; [vm_compute; reflexivity|].
  destruct (blocking_refinement flag_code (fun o r i p => flag_startb o r i p = true) flag_held false flag_demo)
    as (a & Ha & Ho & Hl & _).
  - split.
    + intros o r i p. unfold flag_startb. rewrite bool_decide_eq_true. case_decide; by intros ->.
    + intros i p. do 8 (destruct p as [|p]; [simpl; split_and?; try done; try (by intros [] ? ? [= <- <-])|]). done.
  - by apply play_default.
  - exists a. split; [exact Ha|]. rewrite Ho, Hl. vm_compute. split; reflexivity.
Defined.
