(* ===== verification/SyncObjects.v ===== *)
(** * Semaphores, mutexes and message queues: runtime/BlockingSync.h and runtime/SyncQueues.h

    The code of the objects as instructions of BlockingSync.v, and their
    correctness for any number of threads with time-outs, cancellation and
    preemption.  Invariants are proved on the abstract machine and hold for
    the detailed one by [BlockingSync.refine_run]. *)
From Stdlib Require Import ZArith Lia Bool FunctionalExtensionality.
From stdpp Require Import base tactics option numbers sets list.
From S2P Require Import Prelude Buffers BlockingSync.

(** ** Sums over the threads *)
Fixpoint tsum (f : nat -> Z) (n : nat) : Z :=
  match n with O => 0 | S n => tsum f n + f n end.

Lemma tsum_ext f g n : (forall i, (i < n)%nat -> f i = g i) -> tsum f n = tsum g n.
Proof. induction n as [|n IH]; simpl; intros H; [done|]. rewrite IH, H by auto with lia. done. Qed.

Lemma tsum_upd {A} (c : A -> Z) i x s n :
  (i < n)%nat -> tsum (fun j => c (upd i x s j)) n = tsum (fun j => c (s j)) n + c x - c (s i).
Proof.
  induction n as [|n IH]; [lia|]. intros Hi. simpl. destruct (decide (i = n)) as [->|Hne].
  - rewrite upd_eq. rewrite (tsum_ext _ (fun j => c (s j)) n); [lia|].
    intros j Hj. by rewrite upd_ne by lia.
  - rewrite IH, (upd_ne i n) by lia. lia.
Qed.

Lemma tsum_nonneg f n : (forall i, 0 <= f i) -> 0 <= tsum f n.
Proof. intros H. induction n; simpl; [lia|]. specialize (H n). lia. Qed.

Lemma tsum_ge f n i : (forall j, 0 <= f j) -> (i < n)%nat -> f i <= tsum f n.
Proof.
  intros H. induction n as [|n IH]; [lia|]. intros Hi. simpl.
  pose proof (tsum_nonneg f n H). destruct (decide (i = n)) as [->|]; [lia|].
  specialize (IH ltac:(lia)). specialize (H n). lia.
Qed.

Lemma tsum_le f g n : (forall i, f i <= g i) -> tsum f n <= tsum g n.
Proof. intros H. induction n as [|n IH]; simpl; [lia|]. specialize (H n). lia. Qed.

Lemma tsum_zero n : tsum (fun _ => 0) n = 0.
Proof. induction n; simpl; lia. Qed.

(** facts about abstract states that all objects share *)
Section shared.
Context {O PC : Type} (code : tid -> PC -> instr O PC) (start : O -> bool -> tid -> PC -> Prop) (held : PC -> bool).

(** queued threads wait on their queue, once *)
Definition wait_ok (a : astate (O:=O) (PC:=PC)) : Prop :=
  forall q, NoDup (a_wait a q) /\ forall t, t ∈ a_wait a q -> exists pt pf, a_thr a t = SWait (Some q) pt pf.

(** thread [i] changes to [x]; the queues lose [i] or gain it as [x] says *)
Lemma wait_upd (s : nat -> astat) (q q' : nat -> list tid) i (x : astat) :
  (forall k t, t ∈ q k -> exists pt pf, s t = SWait (Some k) pt pf) ->
  (forall k, NoDup (q' k) /\ forall t, t ∈ q' k -> (t <> i /\ t ∈ q k) \/ (t = i /\ exists pt pf, x = SWait (PC:=PC) (Some k) pt pf)) ->
  forall k, NoDup (q' k) /\ forall t, t ∈ q' k -> exists pt pf, upd i x s t = SWait (Some k) pt pf.
Proof.
  intros Hs Hq k. destruct (Hq k) as [Hn Hk]. split; [done|]. intros t Ht.
  destruct (Hk t Ht) as [[Hne Hin]|[-> ?]]; [rewrite upd_ne by done; eauto|by rewrite upd_eq].
Qed.

Lemma wait_ok_step a a' : wait_ok a -> astep code start a a' -> wait_ok a'.
Proof.
  intros Hok Hs.
  assert (forall o l s (q : nat -> list tid) i x, wait_ok (mkA o l q s) ->
    (forall k pt pf, s i <> SWait k pt pf) ->
    forall k, NoDup (q k) /\ forall t, t ∈ q k -> exists pt pf, upd (A:=astat (PC:=PC)) i x s t = SWait (Some k) pt pf) as Hself.
  { intros o l s q i x H Hi. apply (wait_upd s q q i x).
    - intros k t Ht. by apply (H k).
    - intros k. split; [apply (H k)|]. intros t Ht. left. split; [|done].
      intros ->. apply (H k) in Ht as (? & ? & E). by eapply Hi. }
  destruct Hs; unfold wait_ok; simpl; try (eapply Hself; [exact Hok|congruence]).
  - apply (wait_upd s q); [intros k' t Ht; by apply (Hok k')|].
    assert (i ∉ q k) as Hni by (intros (? & ? & E)%(proj2 (Hok k)); simpl in *; congruence).
    intros k'. unfold upd. case_decide; subst.
    + split; [apply NoDup_app; split_and!; [apply (Hok k)| |apply NoDup_singleton]|].
      * intros x Hx ->%list_elem_of_singleton. done.
      * intros t. rewrite elem_of_app, list_elem_of_singleton. intros [Ht| ->]; [left|right; eauto].
        split; [by intros ->|done].
    + split; [apply (Hok k')|]. intros t Ht. left. split; [|done].
      intros ->. apply (Hok k') in Ht as (? & ? & E). simpl in E. congruence.
  - apply (wait_upd (upd t (SReady pt') s) (upd k ts q)).
    + intros k'. eapply (wait_upd s q (upd k ts q) t (SReady pt')); [intros k1 u Hu; by apply (Hok k1)|].
      pose proof (proj1 (Hok k)) as Hnd. simpl in Hnd. rewrite H1 in Hnd. apply NoDup_cons in Hnd as [Hn Hnd].
      intros k1. unfold upd. case_decide; subst.
      * split; [done|]. intros u Hu. left. split; [by intros ->|]. rewrite H1. by right.
      * split; [apply (Hok k1)|]. intros u Hu. left. split; [|done]. intros ->.
        apply (Hok k1) in Hu as (? & ? & E). simpl in E. congruence.
    + pose proof (proj1 (Hok k)) as Hnd. simpl in Hnd. rewrite H1 in Hnd. apply NoDup_cons in Hnd as [Hn Hnd].
      intros k1. split; [unfold upd; case_decide; [done|apply (Hok k1)]|].
      intros u Hu. left. split; [|done]. intros ->.
      assert (i ∈ q k1) as Hin by (unfold upd in Hu; case_decide; [subst; rewrite H1; by right|done]).
      apply (Hok k1) in Hin as (? & ? & E). simpl in E. congruence.
  - apply (wait_upd s q); [intros k' u Hu; by apply (Hok k')|]. intros k1. destruct k as [k|]; subst.
    + unfold upd. case_decide; subst.
      * split; [apply NoDup_qremove, (Hok k)|]. intros u [? ?]%elem_of_qremove. auto.
      * split; [apply (Hok k1)|]. intros u Hu. left. split; [|done]. intros ->.
        apply (Hok k1) in Hu as (? & ? & E). simpl in E. congruence.
    + split; [apply (Hok k1)|]. intros u Hu. left. split; [|done]. intros ->.
      apply (Hok k1) in Hu as (? & ? & E). simpl in E. congruence.
Qed.

(** an invariant of the abstract machine *)
Lemma abs_invariant (I : astate -> Prop) o w :
  well_locked code start held -> I (a_initial o) ->
  (forall a a', wait_ok a -> lock_ok held a -> I a -> astep code start a a' -> I a') ->
  steps (cstep code start) (initial o) w ->
  exists a, rel code w a /\ I a /\ wait_ok a.
Proof.
  intros Hwl HI Hstep Hs. destruct (refine_run code start held o w Hwl Hs) as (a & Ha & Hr & _).
  exists a. split; [done|].
  assert (I a /\ wait_ok a /\ lock_ok held a) as (? & ? & ?); [|done].
  apply (steps_invariant (astep code start) (fun a => I a /\ wait_ok a /\ lock_ok held a)) with (a_initial o); auto.
  - intros b b' (H1 & H2 & H3) Hb. split; [by eapply Hstep|]. split; [by eapply wait_ok_step|by eapply lock_ok_step].
  - split; [done|]. split; [|by intros i]. intros q. split; [constructor|]. by intros t ?%elem_of_nil.
Qed.
End shared.

(** ** Semaphore *)
Module Semaphore.

(** program points of [internalP] ([timeout] is its argument) and [V] *)
Inductive sem_point :=
  | P0 (timeout : Z) | P1 (timeout : Z) | PBlock (timeout : Z) | PRelease | PReturn (b : bool)
  | V0 | V1 | V2 | VRelease | VReturn.

(** the object is [counter] *)
Definition sem_code (me : tid) (p : sem_point) : instr Z sem_point :=
  match p with
  | P0 timeout => IAcquire (P1 timeout)
  | P1 timeout => IAccess (fun counter =>
      if counter <? 1 then Ok (counter, PBlock timeout) else Ok (wrap 64 (counter - 1), PRelease))
  | PBlock timeout => IBlock 0 timeout (PReturn true) (PReturn false)
  | PRelease => IRelease (PReturn true)
  | PReturn b => IDone b
  | V0 => IAcquire V1
  | V1 => IResume 0 (fun _ counter => counter) VReturn V2
  | V2 => IAccess (fun counter => Ok (wrap 64 (counter + 1), VRelease))
  | VRelease => IRelease VReturn
  | VReturn => IDone false
  end.

Definition sem_held (p : sem_point) : bool :=
  match p with P1 _ | PBlock _ | PRelease | V1 | V2 | VRelease => true | _ => false end.

(** the semaphore guards permits: one of [n] threads calls [P], [tryP] or
    [tryP] with a time-out, and [V] when its last [P] returned true *)
Definition sem_start (n : nat) (_ : Z) (r : bool) (me : tid) (p : sem_point) : Prop :=
  (me < n)%nat /\ match r with false => exists timeout, p = P0 timeout | true => p = V0 end.

Lemma sem_well_locked n : well_locked sem_code (sem_start n) sem_held.
Proof.
  split; [intros o [|] i p [_ H]; [by rewrite H|by destruct H as [? ->]]|].
  intros i p. destruct p; simpl; try done; split; try done; intros o o' p'; [case_match|]; naive_solver.
Qed.

(** the permits that a thread holds *)
Definition permits (s : astat (PC:=sem_point)) : Z :=
  match s with
  | SIdle true => 1
  | SReady (PReturn true) => 1
  | SAt p => match p with PRelease | PReturn true | V0 | V1 | V2 => 1 | _ => 0 end
  | _ => 0
  end.

Definition sem_inv (n : nat) (N : Z) (a : astate) : Prop :=
  0 <= a_obj a /\ a_obj a + tsum (fun i => permits (a_thr a i)) n <= N /\
  (forall i, (n <= i)%nat -> a_thr a i = SIdle false \/ a_thr a i = SDead) /\
  (forall i q pt pf, a_thr a i = SWait q pt pf -> q = Some 0%nat /\ pt = PReturn true /\ pf = PReturn false) /\
  (forall i p, a_thr a i = SReady p -> exists b, p = PReturn b) /\
  (forall i to, a_thr a i = SAt (PBlock to) -> a_obj a = 0) /\
  (forall i, a_thr a i = SAt V2 -> a_wait a 0%nat = []) /\
  (forall i, a_thr a i <> SFault) /\
  (0 < a_obj a -> a_wait a 0%nat = []).

Lemma permits_nonneg s : 0 <= permits s.
Proof. destruct s as [[]|[]|?|[| | | |[]| | | | |]| |]; simpl; try lia; by destruct b. Qed.

(** one thread goes to [x] *)
Lemma sem_upd n N N' o l q (s : nat -> astat) i x o' l' q' :
  sem_inv n N (mkA o l q s) -> (i < n)%nat \/ x = SDead -> 0 <= o' ->
  o' + permits x - (o + permits (s i)) <= N' - N ->
  (forall k pt pf, x = SWait k pt pf -> k = Some 0%nat /\ pt = PReturn true /\ pf = PReturn false) ->
  (forall p, x = SReady p -> exists b, p = PReturn b) ->
  (forall to, x = SAt (PBlock to) -> o' = 0) -> (x = SAt V2 -> q' 0%nat = []) -> x <> SFault ->
  (0 < o' -> q' 0%nat = []) ->
  (o' = o /\ (q 0%nat = [] -> q' 0%nat = []) \/ forall j p, j <> i -> s j = SAt p -> sem_held p = false) ->
  sem_inv n N' (mkA o' l' q' (upd i x s)).
Proof.
  intros (H0 & HS & Hout & Hwt & Hrd & Hb & Hv & Hnf & Hpos) Hi Ho HN Hx Hxr Hxb Hxv Hxf Hp Hor. simpl in *.
  split_and!; simpl; try done.
  - destruct (Nat.lt_ge_cases i n) as [Hlt|Hge]; [rewrite (tsum_upd permits) by done; lia|].
    destruct Hi as [?| ->]; [lia|]. rewrite (tsum_ext _ (fun j => permits (s j))).
    + pose proof (permits_nonneg (s i)). destruct (Hout i Hge) as [E|E]; rewrite E in HN; simpl in HN; lia.
    + intros j Hj. by rewrite upd_ne by lia.
  - intros j Hj. destruct (decide (j = i)) as [->|]; [rewrite upd_eq|rewrite upd_ne by done; auto].
    destruct Hi as [?| ->]; [lia|auto].
  - intros j k pt pf. destruct (decide (j = i)) as [->|]; [rewrite upd_eq; apply Hx|rewrite upd_ne by done; apply Hwt].
  - intros j p. destruct (decide (j = i)) as [->|]; [rewrite upd_eq; apply Hxr|rewrite upd_ne by done; apply Hrd].
  - intros j to. destruct (decide (j = i)) as [->|]; [rewrite upd_eq; apply Hxb|rewrite upd_ne by done]. intros Hj.
    destruct Hor as [[-> _]|Hor]; [by eapply Hb|]. specialize (Hor j _ n0 Hj). done.
  - intros j. destruct (decide (j = i)) as [->|]; [rewrite upd_eq; apply Hxv|rewrite upd_ne by done]. intros Hj.
    destruct Hor as [[_ Hor]|Hor]; [by eapply Hor, Hv|]. specialize (Hor j _ n0 Hj). done.
  - intros j. destruct (decide (j = i)) as [->|]; [by rewrite upd_eq|rewrite upd_ne by done; apply Hnf].
Qed.

Lemma sem_held_unique (o : Z) l q (s : nat -> astat) i :
  lock_ok sem_held (mkA o l q s) -> l = Some i -> forall j p', j <> i -> s j = SAt p' -> sem_held p' = false.
Proof.
  intros Hlk -> j p' Hne Hj. pose proof (Hlk j) as E. simpl in E. rewrite Hj in E. simpl in E.
  destruct (sem_held p'); [|done]. destruct E as [_ E]. specialize (E eq_refl). congruence.
Qed.

Lemma sem_inv_step n N a a' :
  N < 2 ^ 64 -> wait_ok a -> lock_ok sem_held a -> sem_inv n N a -> astep sem_code (sem_start n) a a' -> sem_inv n N a'.
Proof.
  intros HN Hwo Hlk HI Hs. pose proof HI as (H0 & HS & Hout & Hwt & Hrd & Hb & Hv & Hnf & Hpos).
  assert (forall i, a_thr a i <> SIdle false -> a_thr a i <> SDead -> (i < n)%nat) as Hin.
  { intros i Hi Hd. destruct (Nat.lt_ge_cases i n) as [|Hge']; [done|]. destruct (Hout i Hge'); done. }
  assert (0 <= tsum (fun i => permits (a_thr a i)) n) as Hsum by (apply tsum_nonneg; intros; apply permits_nonneg).
  assert (forall i, (i < n)%nat -> permits (a_thr a i) <= tsum (fun i => permits (a_thr a i)) n) as Hge.
  { intros i Hi. apply (tsum_ge (fun i => permits (a_thr a i))); [intros; apply permits_nonneg|done]. }
  destruct Hs as [i p r o l q s Hi [Hn Hst]|i p p' o q s Hi Hc|i p p' o q s Hi Hc|i p f o o' p' q s Hi Hc Hf|
    i p f o e q s Hi Hc Hf|i p f o o' p' l q s Hi Hc Hf|i p f o e l q s Hi Hc Hf|i p k to pt pf o q s Hi Hc|
    i p k to pt pf o q s Hi Hc|i p k g pt pf t ts pt' pf' o q s Hi Hc Hq Ht Hne|i p k g pt pf o q s Hi Hc Hq|
    i p to p' o l q s Hi Hc|i p p' o l q s Hi Hc|i p p' o l q s Hi Hc|t k pt pf o l q q' s Ht Hq|
    i p o l q s Hi|i p r o l q s Hi Hc|i o l q s Hl Hnw Hnf']; simpl in *;
    try (assert (i < n)%nat as Hlt by first [done|apply Hin; rewrite Hi; done]); try pose proof (Hge i Hlt) as Hgei;
    try rewrite Hi in Hgei.
  - destruct r; [subst p|destruct Hst as [? ->]]; eapply sem_upd; eauto; rewrite ?Hi; simpl; try done; lia.
  - destruct p; try done; injection Hc as <-; eapply sem_upd; eauto; rewrite ?Hi; simpl; done || lia.
  - destruct p; try done; injection Hc as <-; eapply sem_upd; eauto; rewrite ?Hi; simpl; done || lia.
  - pose proof (sem_held_unique _ _ _ _ i Hlk eq_refl) as Hun.
    destruct p as [|to'| | | | | | | |]; try done; injection Hc as <-.
    + destruct (Z.ltb_spec o 1); injection Hf as <- <-; eapply sem_upd; eauto; rewrite ?Hi; simpl; try done; try lia.
      * rewrite wrap_small by lia. lia.
      * rewrite wrap_small by lia. lia.
      * rewrite wrap_small by lia. intros. apply Hpos. lia.
    + injection Hf as <- <-. simpl in Hgei. pose proof (Hv _ Hi) as Hq0.
      eapply sem_upd; eauto; rewrite ?Hi, ?wrap_small by lia; simpl; try done; lia.
  - destruct p; try done; injection Hc as <-; [|done]. by destruct (o <? 1).
  - by destruct p.
  - by destruct p.
  - pose proof (sem_held_unique _ _ _ _ i Hlk eq_refl) as Hun.
    destruct p; try done; injection Hc as <- <- <- <-. pose proof (Hb _ _ Hi) as ->.
    eapply sem_upd; eauto; rewrite ?Hi; simpl; try done; try lia. naive_solver.
  - destruct p; try done; injection Hc as <- <- <- <-. eapply sem_upd; eauto; rewrite ?Hi; simpl; done || lia.
  - pose proof (sem_held_unique _ _ _ _ i Hlk eq_refl) as Hun.
    destruct p; try done. injection Hc as <- <- <- <-. destruct (Hwt _ _ _ _ Ht) as (Hk & -> & ->).
    assert (t < n)%nat as Htn by (apply Hin; rewrite Ht; done).
    assert (~ 0 < o) as Hno by (intros H; rewrite Hpos in Hq; done).
    eapply (sem_upd n (N + 1) N o (Some i) q (upd t (SReady (PReturn true)) s)); eauto;
      rewrite ?upd_ne, ?Hi by auto; simpl; try done; try lia.
    + eapply sem_upd; eauto; rewrite ?Ht; simpl; try done; first [lia|intros ? [= <-]; eauto].
    + right. intros j p'. unfold upd. case_decide; [done|]. apply Hun.
  - destruct p; try done; injection Hc as <- <- <- <-. eapply sem_upd; eauto; rewrite ?Hi; simpl; try done; lia.
  - by destruct p.
  - destruct Hc as [[? Hc]|[? Hc]]; by destruct p.
  - by destruct p.
  - assert (t < n)%nat as Htn by (apply Hin; rewrite Ht; done).
    destruct (Hwt _ _ _ _ Ht) as (Hk & -> & ->).
    assert (q 0%nat = [] -> q' 0%nat = []) as Hq0.
    { subst q'. destruct k as [k|]; [|done]. unfold upd. case_decide as Hd; [subst k; by intros ->|done]. }
    eapply sem_upd; eauto; rewrite ?Ht; simpl; try done; first [lia|by intros ? [= <-]; eauto|by eauto].
  - destruct (Hrd _ _ Hi) as [b ->]. eapply sem_upd; eauto; rewrite ?Hi; simpl; try done; destruct b; simpl; lia.
  - destruct p; try done; injection Hc as <-; eapply sem_upd; eauto; rewrite ?Hi; simpl; try done; try (destruct b; simpl; lia); lia.
  - pose proof (permits_nonneg (s i)). eapply sem_upd; eauto; simpl; try done; lia.
Qed.

Definition is_true_idle {O PC} (w : world (O:=O) (PC:=PC)) (i : tid) : Z :=
  match ph (thr w i) with Idle true => 1 | _ => 0 end.


(** one permit, two threads: the second one blocks with a time-out *)
Definition sem_startb (_ : Z) (r : bool) (me : tid) (p : sem_point) : bool :=
  bool_decide (me < 2)%nat && match p with P0 _ => negb r | V0 => r | _ => false end.
Definition sem_demo : world :=
  default (initial 1) (play sem_code sem_startb
    ([MStart 0%nat (P0 noTimeout)] ++ replicate 4 (MExec 0%nat) ++ [MStart 1%nat (P0 5)] ++ replicate 4 (MExec 1%nat))
    (initial 1)).


End Semaphore.

(** ** Mutex *)
Module Mutex.

(** program points of [internalAcquire] and of [release] *)
Inductive mutex_point :=
  | A0 (timeout : Z) | A1 (timeout : Z) | A2 (timeout : Z) | ABlock (timeout : Z) | ARelease | AReturn (b : bool)
  | R0 | R1 | R2 | R3 | R4 | RReturn.

(** the object is [owner] *)
Definition mutex_code (me : tid) (p : mutex_point) : instr (option tid) mutex_point :=
  match p with
  | A0 timeout => IPeek (fun owner =>
      if decide (owner = Some me) then Err AssertFailed     (* GENASSERT1(ownerLock), ownerLock = false *)
      else Ok (owner, A1 timeout))
  | A1 timeout => IAcquire (A2 timeout)
  | A2 timeout => IAccess (fun owner =>
      match owner with Some _ => Ok (owner, ABlock timeout) | None => Ok (Some me, ARelease) end)
  | ABlock timeout => IBlock 0 timeout (AReturn true) (AReturn false)
  | ARelease => IRelease (AReturn true)
  | AReturn b => IDone b
  | R0 => IPeek (fun owner => if decide (owner = Some me) then Ok (owner, R1) else Err AssertFailed)
  | R1 => IAcquire R2
  | R2 => IResume 0 (fun t _ => Some t) RReturn R3     (* bq.resume(lock, owner) *)
  | R3 => IAccess (fun _ => Ok (None, R4))
  | R4 => IRelease RReturn
  | RReturn => IDone false
  end.

Definition mutex_held (p : mutex_point) : bool :=
  match p with A2 _ | ABlock _ | ARelease | R2 | R3 | R4 => true | _ => false end.

(** a thread calls [acquire] or [tryAcquire] when it does not have the mutex
    and [release] when it does *)
Definition mutex_start (_ : option tid) (r : bool) (me : tid) (p : mutex_point) : Prop :=
  match r with false => exists timeout, p = A0 timeout | true => p = R0 end.

Lemma mutex_well_locked : well_locked mutex_code mutex_start mutex_held.
Proof.
  split; [intros o [|] i p H; [by rewrite H|by destruct H as [? ->]]|].
  intros i p. destruct p; simpl; try done; split; try done; intros o o' p'; repeat case_match; naive_solver.
Qed.

(** the thread has the mutex, or has been handed it *)
Definition has_mutex (s : astat (PC:=mutex_point)) : bool :=
  match s with
  | SIdle true => true
  | SReady (AReturn true) => true
  | SAt p => match p with ARelease | AReturn true | R0 | R1 | R2 | R3 => true | _ => false end
  | _ => false
  end.

Definition mutex_inv (a : astate) : Prop :=
  (forall i, has_mutex (a_thr a i) = true -> a_obj a = Some i) /\
  (forall i, a_obj a = Some i -> has_mutex (a_thr a i) = true \/ a_thr a i = SDead) /\
  (forall i q pt pf, a_thr a i = SWait q pt pf -> q = Some 0%nat /\ pt = AReturn true /\ pf = AReturn false) /\
  (forall i p, a_thr a i = SReady p -> exists b, p = AReturn b) /\
  (forall i to, a_thr a i = SAt (ABlock to) -> a_obj a <> None) /\
  (forall i, a_thr a i = SAt R3 -> a_wait a 0%nat = []) /\
  (forall i, a_thr a i <> SFault) /\
  (a_obj a = None -> a_wait a 0%nat = []).

Lemma mutex_upd o l q (s : nat -> astat) i x o' l' q' :
  mutex_inv (mkA o l q s) ->
  (has_mutex x = true -> o' = Some i) -> (o' = Some i -> has_mutex x = true \/ x = SDead) ->
  (forall k pt pf, x = SWait k pt pf -> k = Some 0%nat /\ pt = AReturn true /\ pf = AReturn false) ->
  (forall p, x = SReady p -> exists b, p = AReturn b) ->
  (forall to, x = SAt (ABlock to) -> o' <> None) -> (x = SAt R3 -> q' 0%nat = []) -> x <> SFault ->
  (o' = None -> q' 0%nat = []) ->
  (o' = o \/ (o = None \/ o = Some i) /\ (o' = None \/ o' = Some i)) ->
  (o' = o /\ (q 0%nat = [] -> q' 0%nat = []) \/ forall j p, j <> i -> s j = SAt p -> mutex_held p = false) ->
  mutex_inv (mkA o' l' q' (upd i x s)).
Proof.
  intros (Hh & Ho & Hwt & Hrd & Hb & Hv & Hnf & Hpos) Hx1 Hx2 Hxw Hxr Hxb Hxv Hxf Hp Hor1 Hor. simpl in *.
  split_and!; simpl; try done; intros j.
  - destruct (decide (j = i)) as [->|Hne]; [by rewrite upd_eq|rewrite upd_ne by done]. intros Hj%Hh.
    destruct Hor1 as [->|[[?|?] _]]; congruence.
  - destruct (decide (j = i)) as [->|Hne]; [by rewrite upd_eq|rewrite upd_ne by done]. intros Hj.
    apply Ho. destruct Hor1 as [->|[_ [?|?]]]; congruence.
  - intros k pt pf. destruct (decide (j = i)) as [->|]; [rewrite upd_eq; apply Hxw|rewrite upd_ne by done; apply Hwt].
  - intros p. destruct (decide (j = i)) as [->|]; [rewrite upd_eq; apply Hxr|rewrite upd_ne by done; apply Hrd].
  - intros to. destruct (decide (j = i)) as [->|]; [rewrite upd_eq; apply Hxb|rewrite upd_ne by done]. intros Hj.
    destruct Hor as [[-> _]|Hor]; [by eapply Hb|]. by specialize (Hor j _ n Hj).
  - destruct (decide (j = i)) as [->|]; [rewrite upd_eq; apply Hxv|rewrite upd_ne by done]. intros Hj.
    destruct Hor as [[_ Hor]|Hor]; [by eapply Hor, Hv|]. by specialize (Hor j _ n Hj).
  - destruct (decide (j = i)) as [->|]; [by rewrite upd_eq|rewrite upd_ne by done; apply Hnf].
Qed.

Lemma mutex_held_unique (o : option tid) l q (s : nat -> astat) i :
  lock_ok mutex_held (mkA o l q s) -> l = Some i -> forall j p', j <> i -> s j = SAt p' -> mutex_held p' = false.
Proof.
  intros Hlk -> j p' Hne Hj. pose proof (Hlk j) as E. simpl in E. rewrite Hj in E. simpl in E.
  destruct (mutex_held p'); [|done]. destruct E as [_ E]. specialize (E eq_refl). congruence.
Qed.

(** [release] with a waiting thread: the mutex is handed over *)
Lemma mutex_handover o q (s : nat -> astat) i t q' k pt pf :
  lock_ok mutex_held (mkA o (Some i) q s) -> mutex_inv (mkA o (Some i) q s) ->
  s i = SAt R2 -> s t = SWait k pt pf -> t <> i ->
  mutex_inv (mkA (Some t) None q' (upd i (SAt RReturn) (upd t (SReady (AReturn true)) s))).
Proof.
  intros Hlk (Hh & Ho & Hwt & Hrd & Hb & Hv & Hnf & Hpos) Hi Ht Hne. simpl in *.
  pose proof (mutex_held_unique _ _ _ _ i Hlk eq_refl) as Hun.
  assert (o = Some i) as -> by (apply Hh; by rewrite Hi).
  assert (forall j x, upd i (SAt RReturn) (upd t (SReady (AReturn true)) s) j = x ->
    (j = i /\ x = SAt RReturn) \/ (j = t /\ x = SReady (AReturn true)) \/ (j <> i /\ j <> t /\ s j = x)) as Hj.
  { intros j x. unfold upd. repeat case_decide; subst; auto. }
  split_and!; simpl; try done.
  - intros j Hm. destruct (Hj j _ eq_refl) as [[-> E]|[[-> _]|(Hni & Hnt & E)]]; [by rewrite E in Hm|done|].
    rewrite <- E in Hm. apply Hh in Hm. congruence.
  - intros j [= ->]. left. by rewrite upd_ne, upd_eq.
  - intros j k' pt' pf' [[_ ?]|[[_ ?]|(_ & _ & E)]]%Hj; [done|done|by apply Hwt in E].
  - intros j p [[_ ?]|[[_ ?]|(_ & _ & E)]]%Hj; [done|naive_solver|by apply Hrd in E].
  - intros j [[_ ?]|[[_ ?]|(Hni & _ & E)]]%Hj; [done|done|]. by specialize (Hun j _ Hni E).
  - intros j [[_ ?]|[[_ ?]|(_ & _ & E)]]%Hj; [done|done|by apply Hnf in E].
Qed.

Ltac mutex_tac :=
  eapply mutex_upd; eauto; simpl; try done;
  first [by intros [= <-] | by intros ? [= <-]; eauto | by eauto | naive_solver].

Lemma mutex_inv_step a a' :
  wait_ok a -> lock_ok mutex_held a -> mutex_inv a -> astep mutex_code mutex_start a a' -> mutex_inv a'.
Proof.
  intros Hwo Hlk HI Hs. pose proof HI as (Hh & Ho & Hwt & Hrd & Hb & Hv & Hnf & Hpos).
  destruct Hs as [i p r o l q s Hi Hst|i p p' o q s Hi Hc|i p p' o q s Hi Hc|i p f o o' p' q s Hi Hc Hf|
    i p f o e q s Hi Hc Hf|i p f o o' p' l q s Hi Hc Hf|i p f o e l q s Hi Hc Hf|i p k to pt pf o q s Hi Hc|
    i p k to pt pf o q s Hi Hc|i p k g pt pf t ts pt' pf' o q s Hi Hc Hq Ht Hne|i p k g pt pf o q s Hi Hc Hq|
    i p to p' o l q s Hi Hc|i p p' o l q s Hi Hc|i p p' o l q s Hi Hc|t k pt pf o l q q' s Ht Hq|
    i p o l q s Hi|i p r o l q s Hi Hc|i o l q s Hl Hnw Hnf']; simpl in *;
    try (pose proof (Hh i) as Hhi; pose proof (Ho i) as Hoi; rewrite Hi in Hhi, Hoi; simpl in Hhi, Hoi);
    try (pose proof (mutex_held_unique _ _ _ _ i Hlk eq_refl) as Hun).
  - destruct r; simpl in Hst; [subst p|destruct Hst as [? ->]]; mutex_tac.
  - destruct p; try done; injection Hc as <-; mutex_tac.
  - destruct p; try done; injection Hc as <-; mutex_tac.
  - destruct p as [| |to'| | | | | | | | |]; try done; injection Hc as <-.
    + destruct o as [o1|]; injection Hf as <- <-; mutex_tac.
    + injection Hf as <- <-. pose proof (Hv _ Hi) as Hq0. specialize (Hhi eq_refl). subst o. mutex_tac.
  - destruct p; try done; injection Hc as <-; [|done]. by destruct o.
  - destruct p; try done; injection Hc as <-; case_decide; try done; injection Hf as <- <-; mutex_tac.
  - destruct p; try done; injection Hc as <-; case_decide as Hd; try done; exfalso.
    + destruct (Hoi Hd); done.
    + apply Hd. by apply Hhi.
  - destruct p; try done; injection Hc as <- <- <- <-. pose proof (Hb _ _ Hi). mutex_tac.
  - destruct p; try done; injection Hc as <- <- <- <-. mutex_tac.
  - destruct p; try done. injection Hc as <- <- <- <-. destruct (Hwt _ _ _ _ Ht) as (Hk & -> & ->).
    by eapply mutex_handover.
  - destruct p; try done; injection Hc as <- <- <- <-. mutex_tac.
  - by destruct p.
  - destruct Hc as [[? Hc]|[? Hc]]; by destruct p.
  - by destruct p.
  - destruct (Hwt _ _ _ _ Ht) as (-> & -> & ->).
    assert (q 0%nat = [] -> q' 0%nat = []) as Hq0.
    { subst q'. unfold upd. case_decide as Hd; [by intros ->|done]. }
    pose proof (Ho t) as Hot. rewrite Ht in Hot. mutex_tac.
  - destruct (Hrd _ _ Hi) as [b ->]. destruct b; mutex_tac.
  - destruct p; try done; injection Hc as <-; try (destruct b); mutex_tac.
  - mutex_tac.
Qed.


(** thread 1 blocks while thread 0 has the mutex and gets it from [release] *)
Definition mutex_startb (_ : option tid) (r : bool) (me : tid) (p : mutex_point) : bool :=
  match p with A0 _ => negb r | R0 => r | _ => false end.
Definition mutex_demo : world :=
  default (initial None) (play mutex_code mutex_startb
    ([MStart 0%nat (A0 noTimeout)] ++ replicate 5 (MExec 0%nat) ++ [MStart 1%nat (A0 noTimeout)] ++
     replicate 5 (MExec 1%nat) ++ [MStart 0%nat R0] ++ replicate 6 (MExec 0%nat) ++ replicate 2 (MExec 1%nat))
    (initial None)).


End Mutex.

(** ** MessageQueue over a bounded buffer *)
Module MessageQueue.
Section mq.
Context {Element buf : Type} `{BoundedBufferLaws Element buf}.

Record mq := mkMq { buffer : buf; sendSlots : Z; recvSlots : Z }.

Definition mq_new (b : buf) : mq := mkMq b (bb_max b) 0.

(** program points of [internalSend] and [internalRecv]; queue 0 is
    [sendQueue], queue 1 is [recvQueue] *)
Inductive mq_point :=
  | S0 (m : Element) (timeout : Z) | S1 (m : Element) (timeout : Z) | SBlock (m : Element) (timeout : Z)
  | S3 (m : Element) | S4 (m : Element) | S5 | S6 | S7 | SReturn (b : bool)
  | R0 (timeout : Z) | R1 (timeout : Z) | RBlock (timeout : Z)
  | R3 | R4 | R5 (m : Element) | R6 (m : Element) | R7 (m : Element) | RReturn (m : option Element).

Definition mq_code (me : tid) (p : mq_point) : instr mq mq_point :=
  match p with
  | S0 m timeout => IAcquire (S1 m timeout)
  | S1 m timeout => IAccess (fun o =>
      if sendSlots o =? 0 then Ok (o, SBlock m timeout)
      else Ok (mkMq (buffer o) (wrap 64 (sendSlots o - 1)) (recvSlots o), S4 m))
  | SBlock m timeout => IBlock 0 timeout (S3 m) (SReturn false)
  | S3 m => IAcquire (S4 m)
  | S4 m => IAccess (fun o => b ← bb_push m (buffer o); mret (mkMq b (sendSlots o) (recvSlots o), S5))
  | S5 => IResume 1 (fun _ o => o) (SReturn true) S6
  | S6 => IAccess (fun o => Ok (mkMq (buffer o) (sendSlots o) (wrap 64 (recvSlots o + 1)), S7))
  | S7 => IRelease (SReturn true)
  | SReturn b => IDone b
  | R0 timeout => IAcquire (R1 timeout)
  | R1 timeout => IAccess (fun o =>
      if recvSlots o =? 0 then Ok (o, RBlock timeout)
      else Ok (mkMq (buffer o) (sendSlots o) (wrap 64 (recvSlots o - 1)), R4))
  | RBlock timeout => IBlock 1 timeout R3 (RReturn None)
  | R3 => IAcquire R4
  | R4 => IAccess (fun o => m ← bb_front (buffer o); b ← bb_pop (buffer o);
                            mret (mkMq b (sendSlots o) (recvSlots o), R5 m))
  | R5 m => IResume 0 (fun _ o => o) (RReturn (Some m)) (R6 m)
  | R6 m => IAccess (fun o => Ok (mkMq (buffer o) (wrap 64 (sendSlots o + 1)) (recvSlots o), R7 m))
  | R7 m => IRelease (RReturn (Some m))
  | RReturn m => IDone (bool_decide (is_Some m))
  end.

Definition mq_held (p : mq_point) : bool :=
  match p with
  | S1 _ _ | SBlock _ _ | S4 _ | S5 | S6 | S7 | R1 _ | RBlock _ | R4 | R5 _ | R6 _ | R7 _ => true
  | _ => false
  end.

(** any of [n] threads sends or receives, with any time-out *)
Definition mq_start (n : nat) (_ : mq) (_ : bool) (me : tid) (p : mq_point) : Prop :=
  (me < n)%nat /\ ((exists m timeout, p = S0 m timeout) \/ exists timeout, p = R0 timeout).

Lemma mq_well_locked n : well_locked mq_code (mq_start n) mq_held.
Proof.
  split; [by intros o r i p [_ [(m & to & ->)|[to ->]]]|].
  intros i p. destruct p; simpl; try done; split; try done; intros o o' p'; try case_match; try naive_solver.
  - intros E. by res_inv.
  - intros E. by res_inv.
Qed.

(** threads that are owed a slot to send, or still owe one *)
Definition send_due (s : astat (PC:=mq_point)) : Z :=
  match s with
  | SReady (S3 _) => 1
  | SAt p => match p with S3 _ | S4 _ | R5 _ | R6 _ => 1 | _ => 0 end
  | _ => 0
  end.
Definition recv_due (s : astat (PC:=mq_point)) : Z :=
  match s with
  | SReady R3 => 1
  | SAt p => match p with R3 | R4 | S5 | S6 => 1 | _ => 0 end
  | _ => 0
  end.

Lemma send_due_nonneg s : 0 <= send_due s.
Proof. destruct s as [|[]| |[]| |]; simpl; lia. Qed.
Lemma recv_due_nonneg s : 0 <= recv_due s.
Proof. destruct s as [|[]| |[]| |]; simpl; lia. Qed.

Definition wait_shape (x : astat (PC:=mq_point)) : Prop :=
  match x with
  | SWait q pt pf =>
      (q = Some 0%nat /\ (exists m, pt = S3 m) /\ pf = SReturn false) \/
      (q = Some 1%nat /\ pt = R3 /\ pf = RReturn None)
  | SReady p => (exists m, p = S3 m) \/ p = SReturn false \/ p = R3 \/ p = RReturn None
  | SFault => False
  | _ => True
  end.
(** what holds of the object where a thread is under the lock *)
Definition point_ok (o : mq) (q : nat -> list tid) (x : astat (PC:=mq_point)) : Prop :=
  match x with
  | SAt (SBlock _ _) => sendSlots o = 0
  | SAt (RBlock _) => recvSlots o = 0
  | SAt S6 => q 1%nat = []
  | SAt (R6 _) => q 0%nat = []
  | _ => True
  end.

(** the counts: [N] slots, messages [l] *)
Definition slots_ok (N : Z) (o : mq) (sd rd : Z) : Prop :=
  exists l, bb_holds (buffer o) l /\ bb_max (buffer o) = N /\ 0 <= sendSlots o /\ 0 <= recvSlots o /\
    sendSlots o + sd + lenZ l <= N /\ recvSlots o + rd <= lenZ l.

(** the object is unchanged and no slot is created *)
Lemma slots_keep N o sd rd sd' rd' : slots_ok N o sd rd -> sd' <= sd -> rd' <= rd -> slots_ok N o sd' rd'.
Proof. intros (l & H1 & H2 & H3 & H4 & H5 & H6) ? ?. exists l. split_and!; try done; lia. Qed.

(** [ds] and [dr] are slots set aside within a step *)
Definition mq_part (n : nat) (N ds dr : Z) (a : astate) : Prop :=
  slots_ok N (a_obj a) (tsum (fun i => send_due (a_thr a i)) n + ds) (tsum (fun i => recv_due (a_thr a i)) n + dr) /\
  (forall i, (n <= i)%nat -> a_thr a i = SIdle false \/ a_thr a i = SDead) /\
  (forall i, wait_shape (a_thr a i)) /\
  (forall i, point_ok (a_obj a) (a_wait a) (a_thr a i)) /\
  (0 < sendSlots (a_obj a) -> a_wait a 0%nat = []) /\
  (0 < recvSlots (a_obj a) -> a_wait a 1%nat = []).

Definition mq_inv (n : nat) (N : Z) : astate -> Prop := mq_part n N 0 0.

Lemma mq_upd_part n N ds dr ds' dr' o l q (s : nat -> astat) i x o' l' q' :
  0 <= ds -> 0 <= dr -> mq_part n N ds dr (mkA o l q s) -> (i < n)%nat ->
  (forall sd rd, send_due (s i) <= sd -> recv_due (s i) <= rd -> slots_ok N o sd rd ->
     slots_ok N o' (sd + send_due x - send_due (s i) + (ds' - ds)) (rd + recv_due x - recv_due (s i) + (dr' - dr))) ->
  wait_shape x -> point_ok o' q' x ->
  (0 < sendSlots o' -> q' 0%nat = []) -> (0 < recvSlots o' -> q' 1%nat = []) ->
  (o' = o /\ (q 0%nat = [] -> q' 0%nat = []) /\ (q 1%nat = [] -> q' 1%nat = []) \/
   forall j p, j <> i -> s j = SAt p -> mq_held p = false) ->
  mq_part n N ds' dr' (mkA o' l' q' (upd i x s)).
Proof.
  intros Hds Hdr (Hsl & Hout & Hw & Hp & Hq0 & Hq1) Hi Hs Hxw Hxp Hx0 Hx1 Hor. simpl in *.
  split_and!; simpl; try done.
  - rewrite (tsum_upd send_due), (tsum_upd recv_due) by done.
    pose proof (tsum_ge (fun i => send_due (s i)) n i (fun j => send_due_nonneg (s j)) Hi) as H1.
    pose proof (tsum_ge (fun i => recv_due (s i)) n i (fun j => recv_due_nonneg (s j)) Hi) as H2. simpl in H1, H2.
    eapply slots_keep; [eapply Hs; [| |exact Hsl]; lia|lia..].
  - intros j Hj. rewrite upd_ne by lia. auto.
  - intros j. destruct (decide (j = i)) as [->|]; [by rewrite upd_eq|by rewrite upd_ne].
  - intros j. destruct (decide (j = i)) as [->|Hne]; [by rewrite upd_eq|rewrite upd_ne by done].
    specialize (Hp j). unfold point_ok in *. destruct (s j) as [|p| | | |] eqn:E; try done.
    destruct Hor as [(-> & H1 & H2)|Hor]; [destruct p; auto|]. specialize (Hor j p Hne E). by destruct p.
Qed.

Lemma mq_upd n N o l q (s : nat -> astat) i x o' l' q' :
  mq_inv n N (mkA o l q s) -> (i < n)%nat ->
  (forall sd rd, send_due (s i) <= sd -> recv_due (s i) <= rd -> slots_ok N o sd rd ->
     slots_ok N o' (sd + send_due x - send_due (s i)) (rd + recv_due x - recv_due (s i))) ->
  wait_shape x -> point_ok o' q' x ->
  (0 < sendSlots o' -> q' 0%nat = []) -> (0 < recvSlots o' -> q' 1%nat = []) ->
  (o' = o /\ (q 0%nat = [] -> q' 0%nat = []) /\ (q 1%nat = [] -> q' 1%nat = []) \/
   forall j p, j <> i -> s j = SAt p -> mq_held p = false) ->
  mq_inv n N (mkA o' l' q' (upd i x s)).
Proof.
  intros HI Hi Hs ? ? ? ? ?. apply (mq_upd_part n N 0 0 0 0 o l q s i); try done.
  intros sd rd ? ? Hsl. rewrite !Z.sub_diag, !Z.add_0_r. auto.
Qed.

Lemma mq_die n N o l q (s : nat -> astat) i :
  mq_inv n N (mkA o l q s) -> mq_inv n N (mkA o l q (upd i SDead s)).
Proof.
  intros HI. destruct (Nat.lt_ge_cases i n) as [Hlt|Hge].
  - eapply mq_upd; eauto; try apply HI; try done; try (by left).
    intros sd rd _ _ Hs. pose proof (send_due_nonneg (s i)). pose proof (recv_due_nonneg (s i)).
    eapply slots_keep; [done|simpl; lia|simpl; lia].
  - destruct HI as (Hsl & Hout & Hw & Hp & Hq0 & Hq1). simpl in *. split_and!; simpl; try done.
    + revert Hsl. rewrite (tsum_ext (fun j => send_due (upd i SDead s j)) (fun j => send_due (s j)) n)
        by (intros j Hj; by rewrite upd_ne by lia).
      rewrite (tsum_ext (fun j => recv_due (upd i SDead s j)) (fun j => recv_due (s j)) n)
        by (intros j Hj; by rewrite upd_ne by lia). done.
    + intros j Hj. unfold upd. case_decide; auto.
    + intros j. unfold upd. by case_decide.
    + intros j. unfold upd. by case_decide.
Qed.

Lemma mq_held_unique (o : mq) l q (s : nat -> astat) i :
  lock_ok mq_held (mkA o l q s) -> l = Some i -> forall j p', j <> i -> s j = SAt p' -> mq_held p' = false.
Proof.
  intros Hlk -> j p' Hne Hj. pose proof (Hlk j) as E. simpl in E. rewrite Hj in E. simpl in E.
  destruct (mq_held p'); [|done]. destruct E as [_ E]. specialize (E eq_refl). congruence.
Qed.

(** a step that keeps the object *)
Ltac mq_tac E :=
  eapply mq_upd; eauto; simpl;
  [ intros sd rd ? ? Hslots; eapply slots_keep; [exact Hslots|rewrite ?E; simpl; lia..] |..];
  try done; try (by left); try (right; done);
  try match goal with Hun : forall j p', _ -> _ -> _ = false |- _ \/ forall j p, _ => right; exact Hun end;
  try (clear; naive_solver); try (intros; lia).

(** the accesses under the lock *)
Lemma mq_access n N o q (s : nat -> astat) i p f r :
  N < 2 ^ 64 -> lock_ok mq_held (mkA o (Some i) q s) -> mq_inv n N (mkA o (Some i) q s) -> (i < n)%nat ->
  s i = SAt p -> mq_code i p = IAccess f -> f o = r ->
  exists o' p', r = Ok (o', p') /\ mq_inv n N (mkA o' (Some i) q (upd i (SAt p') s)).
Proof.
  intros HN Hlk HI Hlt Hi Hc Hf. pose proof HI as (Hsl & Hout & Hw & Hp & Hq0 & Hq1). simpl in *.
  pose proof (mq_held_unique _ _ _ _ i Hlk eq_refl) as Hun.
  pose proof (tsum_ge (fun i => send_due (s i)) n i (fun j => send_due_nonneg (s j)) Hlt) as Hsd.
  pose proof (tsum_ge (fun i => recv_due (s i)) n i (fun j => recv_due_nonneg (s j)) Hlt) as Hrd.
  simpl in Hsd, Hrd. rewrite Hi in Hsd, Hrd. pose proof (Hp i) as Hpi. rewrite Hi in Hpi.
  rewrite !Z.add_0_r in Hsl. destruct Hsl as (ms & Hms & HNm & Hs0 & Hr0 & Hcs & Hcr). pose proof (lenZ_nonneg ms) as Hlen.
  pose proof (send_due_nonneg (s i)). pose proof (recv_due_nonneg (s i)).
  destruct p; try done; injection Hc as <-; simpl in *.
  - destruct (Z.eqb_spec (sendSlots o) 0); subst r; eexists _, _; (split; [reflexivity|]); [by mq_tac Hi|].
    rewrite wrap_small by lia.
    eapply mq_upd; eauto; simpl; try done; [|intros; apply Hq0; lia].
    intros sd rd _ _ (l & L1 & L2 & L3 & L4 & L5 & L6). rewrite Hi. exists l. simpl. split_and!; try done; lia.
  - destruct (bb_push_law _ m _ Hms ltac:(lia)) as (b & Eb & Hb & Hmax). rewrite Eb in Hf. simpl in Hf.
    subst r. eexists _, _. split; [reflexivity|].
    eapply mq_upd; eauto; simpl; try done.
    intros sd rd. rewrite Hi. simpl. intros Hsd' _ (l & L1 & L2 & L3 & L4 & L5 & L6).
    destruct (bb_push_law _ m l L1 ltac:(lia)) as (b' & Eb' & Hb' & Hmax').
    assert (b' = b) as -> by congruence.
    exists (l ++ [m]). rewrite lenZ_app. change (lenZ [m]) with 1. simpl. split_and!; try done; try lia.
  - subst r. eexists _, _. split; [reflexivity|]. rewrite wrap_small by lia.
    eapply mq_upd; eauto; simpl; try done.
    intros sd rd. rewrite Hi. simpl. intros _ Hrd' (l & L1 & L2 & L3 & L4 & L5 & L6).
    exists l. simpl. split_and!; try done; lia.
  - destruct (Z.eqb_spec (recvSlots o) 0); subst r; eexists _, _; (split; [reflexivity|]); [by mq_tac Hi|].
    rewrite wrap_small by lia.
    eapply mq_upd; eauto; simpl; try done; [|intros; apply Hq1; lia].
    intros sd rd _ _ (l & L1 & L2 & L3 & L4 & L5 & L6). rewrite Hi. exists l. simpl. split_and!; try done; lia.
  - destruct ms as [|x ms]; [unfold lenZ in Hcr; simpl in Hcr; lia|].
    destruct (bb_pop_law _ x ms Hms) as (b & Eb & Hb & Hmax).
    rewrite (bb_front_law _ x ms Hms), Eb in Hf. simpl in Hf.
    subst r. eexists _, _. split; [reflexivity|].
    eapply mq_upd; eauto; simpl; try done.
    intros sd rd. rewrite Hi. simpl. intros _ Hrd' (l & L1 & L2 & L3 & L4 & L5 & L6).
    destruct l as [|y l]; [unfold lenZ in L6; simpl in L6; lia|].
    destruct (bb_pop_law _ y l L1) as (b' & Eb' & Hb' & Hmax').
    assert (b' = b) as -> by congruence. rewrite lenZ_cons in *.
    exists l. simpl. split_and!; try done; try lia.
  - subst r. eexists _, _. split; [reflexivity|]. rewrite wrap_small by lia.
    eapply mq_upd; eauto; simpl; try done.
    intros sd rd. rewrite Hi. simpl. intros Hsd' _ (l & L1 & L2 & L3 & L4 & L5 & L6).
    exists l. simpl. split_and!; try done; lia.
Qed.

(** a slot goes from thread [i], which resumes [t], to thread [t] *)
Lemma mq_handover n N o q (s : nat -> astat) i t q' x y l' :
  lock_ok mq_held (mkA o (Some i) q s) -> mq_inv n N (mkA o (Some i) q s) -> (i < n)%nat -> (t < n)%nat -> t <> i ->
  send_due x + send_due y <= send_due (s i) + send_due (s t) ->
  recv_due x + recv_due y <= recv_due (s i) + recv_due (s t) ->
  wait_shape x -> wait_shape y -> point_ok o q' x -> point_ok o q' y ->
  (0 < sendSlots o -> q' 0%nat = []) -> (0 < recvSlots o -> q' 1%nat = []) ->
  mq_inv n N (mkA o l' q' (upd i x (upd t y s))).
Proof.
  intros Hlk HI Hlt Htn Hne Hds Hdr Hwx Hwy Hpx Hpy He0 He1.
  pose proof (mq_held_unique _ _ _ _ i Hlk eq_refl) as Hun.
  pose proof HI as (_ & _ & _ & Hp & Hq0 & Hq1). simpl in *.
  assert (forall i x y s, t <> i -> upd i x (upd t y s) = upd i x (upd t y (upd (A:=astat (PC:=mq_point)) i SDead s))) as Eq.
  { clear. intros i x y s Hne. apply functional_extensionality. intros j. unfold upd. repeat case_decide; done. }
  rewrite Eq by done.
  assert (mq_part n N (send_due (s i)) (recv_due (s i)) (mkA o (Some i) q (upd i SDead s))) as HI1.
  { eapply mq_upd_part; [..|exact HI|exact Hlt| | | | | |]; try done; try (by left).
    intros sd rd _ _ Hsl. eapply slots_keep; [exact Hsl|simpl; lia|simpl; lia]. }
  set (s1 := upd i SDead s) in *.
  assert (s1 t = s t) as Et by (unfold s1; by rewrite upd_ne).
  assert (mq_part n N (send_due x) (recv_due x) (mkA o (Some i) q' (upd t y s1))) as HI2.
  { eapply mq_upd_part; [..|exact HI1|exact Htn| | | | | |]; try done; try apply send_due_nonneg; try apply recv_due_nonneg.
    - intros sd rd. rewrite Et. intros _ _ Hsl. eapply slots_keep; [exact Hsl|lia..].
    - right. intros j p Hj. unfold s1, upd. case_decide; [done|]. apply Hun. congruence. }
  eapply mq_upd_part; [..|exact HI2|exact Hlt| | | | | |]; try done; try apply send_due_nonneg; try apply recv_due_nonneg.
  - intros sd rd. rewrite upd_ne by done. unfold s1. rewrite upd_eq. intros _ _ Hsl.
    eapply slots_keep; [exact Hsl|simpl; lia..].
  - by left.
Qed.

Lemma mq_inv_step n N a a' :
  N < 2 ^ 64 -> wait_ok a -> lock_ok mq_held a -> mq_inv n N a -> astep mq_code (mq_start n) a a' -> mq_inv n N a'.
Proof.
  intros HN Hwo Hlk HI Hs. pose proof HI as (Hsl & Hout & Hw & Hp & Hq0 & Hq1).
  assert (forall i, a_thr a i <> SIdle false -> a_thr a i <> SDead -> (i < n)%nat) as Hin.
  { intros i Hi Hd. destruct (Nat.lt_ge_cases i n) as [|Hge']; [done|]. destruct (Hout i Hge'); done. }
  destruct Hs as [i p r o l q s Hi [Hn Hst]|i p p' o q s Hi Hc|i p p' o q s Hi Hc|i p f o o' p' q s Hi Hc Hf|
    i p f o e q s Hi Hc Hf|i p f o o' p' l q s Hi Hc Hf|i p f o e l q s Hi Hc Hf|i p k to pt pf o q s Hi Hc|
    i p k to pt pf o q s Hi Hc|i p k g pt pf t ts pt' pf' o q s Hi Hc Hq Ht Hne|i p k g pt pf o q s Hi Hc Hq|
    i p to p' o l q s Hi Hc|i p p' o l q s Hi Hc|i p p' o l q s Hi Hc|t k pt pf o l q q' s Ht Hq|
    i p o l q s Hi|i p r o l q s Hi Hc|i o l q s Hl Hnw Hnf']; simpl in *;
    try (assert (i < n)%nat as Hlt by first [done|apply Hin; rewrite Hi; done]);
    try (pose proof (Hp i) as Hpi; rewrite Hi in Hpi; simpl in Hpi).
  - destruct Hst as [(m & to & ->)|[to ->]]; mq_tac Hi.
  - destruct p; try done; injection Hc as <-; mq_tac Hi.
  - destruct p; try done; injection Hc as <-; mq_tac Hi.
  - destruct (mq_access n N o q s i p f (Ok (o', p')) HN Hlk HI Hlt Hi Hc Hf) as (o1 & p1 & [= -> ->] & ?). done.
  - by destruct (mq_access n N o q s i p f (Err e) HN Hlk HI Hlt Hi Hc Hf) as (o1 & p1 & ? & ?).
  - by destruct p.
  - by destruct p.
  - destruct p; try done; injection Hc as <- <- <- <-;
      pose proof (mq_held_unique _ _ _ _ i Hlk eq_refl) as Hun; mq_tac Hi.
  - destruct p; try done; injection Hc as <- <- <- <-; mq_tac Hi.
  - assert (t < n)%nat as Htn by (apply Hin; rewrite Ht; done).
    pose proof (Hw t) as Hwt. rewrite Ht in Hwt. simpl in Hwt.
    assert (forall k', (0 < sendSlots o -> q 0%nat = []) -> (0 < recvSlots o -> q 1%nat = []) -> q k' = t :: ts ->
      match k' with 0%nat => ~ 0 < sendSlots o | 1%nat => ~ 0 < recvSlots o | _ => True end) as Hno.
    { intros [|[|]] E0 E1 E; try done; intros E'; [rewrite E0 in E|rewrite E1 in E]; done. }
    specialize (Hno k Hq0 Hq1 Hq).
    destruct p; try done; injection Hc as <- <- <- <-;
      destruct Hwt as [(? & [m' ->] & ->)|(? & -> & ->)]; try done;
      eapply mq_handover; eauto; rewrite ?Hi, ?Ht; simpl; first [done | by intros ? | by left; eauto | by auto].
  - destruct p; try done; injection Hc as <- <- <- <-; mq_tac Hi.
  - by destruct p.
  - destruct Hc as [[? Hc]|[? Hc]]; by destruct p.
  - by destruct p.
  - assert (t < n)%nat as Htn by (apply Hin; rewrite Ht; done). pose proof (Hw t) as Hwt. rewrite Ht in Hwt. simpl in Hwt.
    assert (forall k', q k' = [] -> q' k' = []) as Hqk.
    { subst q'. intros k'. destruct k as [k|]; [|done]. unfold upd. case_decide as Hd; [subst k; by intros ->|done]. }
    destruct Hwt as [(-> & [m ->] & ->)|(-> & -> & ->)]; mq_tac Ht; naive_solver.
  - pose proof (Hw i) as Hwi. rewrite Hi in Hwi. destruct Hwi as [[m ->]|[->|[->| ->]]]; mq_tac Hi.
  - destruct p; try done; injection Hc as <-; mq_tac Hi.
  - by apply mq_die.
Qed.

End mq.


(** a ring buffer of 2 numbers; threads 0, 1 and 2 *)
Definition mq_startb (_ : mq (buf:=RingBuffer Z)) (_ : bool) (me : tid) (p : mq_point (Element:=Z)) : bool :=
  bool_decide (me < 3)%nat && match p with S0 _ _ | R0 _ => true | _ => false end.
Definition mq_demo : world :=
  default (initial (mq_new (rb_new [0; 0]))) (play mq_code mq_startb
    ([MStart 2%nat (R0 noTimeout)] ++ replicate 4 (MExec 2%nat) ++
     [MStart 0%nat (S0 5 noTimeout)] ++ replicate 7 (MExec 0%nat) ++ [MStart 1%nat (S0 6 9)] ++ replicate 3 (MExec 1%nat))
    (initial (mq_new (rb_new [0; 0])))).

End MessageQueue.
