(* ===== verification/Paging.v ===== *)
(** * Page tables: machine/Paging.h

    The entries of the page tables and their access through the recursive slot
    of the top-level table.  [translate] is the page walk of the processor
    (presence, page sizes and canonical addresses); page tables are words of
    physical memory.  An access to a table that is missing faults and
    [tablefault] maps a zeroed table on demand, as
    [exception_handler_errcode_0x0e] does.  The frame allocator is an
    interface, [FrameSource]. *)
From Stdlib Require Import ZArith Lia Bool.
From stdpp Require Import base tactics option numbers list gmap.
From S2P Require Import Prelude Bitmanip Memory Bitmap FrameManager.

(** ** Page table entries *)
Definition pe_P := {| bs_w := 64; bs_Pos := 0; bs_Width := 1 |}.
Definition pe_RW := {| bs_w := 64; bs_Pos := 1; bs_Width := 1 |}.
Definition pe_US := {| bs_w := 64; bs_Pos := 2; bs_Width := 1 |}.
Definition pe_PWT := {| bs_w := 64; bs_Pos := 3; bs_Width := 1 |}.
Definition pe_PCD := {| bs_w := 64; bs_Pos := 4; bs_Width := 1 |}.
Definition pe_A := {| bs_w := 64; bs_Pos := 5; bs_Width := 1 |}.
Definition pe_D := {| bs_w := 64; bs_Pos := 6; bs_Width := 1 |}.
Definition pe_PS := {| bs_w := 64; bs_Pos := 7; bs_Width := 1 |}.
Definition pe_G := {| bs_w := 64; bs_Pos := 8; bs_Width := 1 |}.
Definition pe_PAT := {| bs_w := 64; bs_Pos := 12; bs_Width := 1 |}.
Definition pe_ADDR := {| bs_w := 64; bs_Pos := 12; bs_Width := 40 |}.
Definition pe_XD := {| bs_w := 64; bs_Pos := 63; bs_Width := 1 |}.

(** enum PageType *)
Definition pt_Invalid : Z := 0.
Definition pt_Code : Z := bs_mask pe_P.
Definition pt_RoData : Z := Z.lor (bs_mask pe_P) (bs_mask pe_XD).
Definition pt_Data : Z := Z.lor (Z.lor (bs_mask pe_P) (bs_mask pe_XD)) (bs_mask pe_RW).
Definition pt_PageTable : Z := Z.lor (bs_mask pe_P) (bs_mask pe_RW).
Definition pt_Kernel : Z := bs_mask pe_G.
Definition pt_User : Z := bs_mask pe_US.
Definition pt_MMapIO : Z := Z.lor (Z.lor pt_Data (bs_mask pe_PWT)) (bs_mask pe_PCD).

(** enum PageStatus *)
Definition Available : Z := 1.
Definition Guard : Z := 2.
Definition Lazy : Z := 4.
Definition Mapped : Z := 8.

(** struct PageFaultFlags *)
Definition pff_P := {| bs_w := 64; bs_Pos := 0; bs_Width := 1 |}.
Definition pff_WR := {| bs_w := 64; bs_Pos := 1; bs_Width := 1 |}.
Definition pff_US := {| bs_w := 64; bs_Pos := 2; bs_Width := 1 |}.
Definition pff_RSVD := {| bs_w := 64; bs_Pos := 3; bs_Width := 1 |}.
Definition pff_ID := {| bs_w := 64; bs_Pos := 4; bs_Width := 1 |}.

Definition guardPage : Z := Z.land topaddr (bs_mask pe_ADDR).
Definition lazyPage : Z := (guardPage - pagesize 1)%w.

(** levels are template arguments *)
Definition psz (n : nat) : Z := pagesize (Z.of_nat n).

Fixpoint accessPE_Helper (n : nat) (vma : Z) : Z :=
  match n with
  | O => vma
  | S n => Z.lor (recptindex << pagesizebits pagelevels)%w (Z.shiftr (accessPE_Helper n vma) pagetablebits)
  end.
Definition accessPE (n : nat) (vma : Z) : Z :=
  align_down 64 (Z.lor canonPrefix (accessPE_Helper n (Z.land vma (~w canonPrefix)%w))) 8.

Definition pageTable (n : nat) (vma : Z) : Z := accessPE n (align_down 64 vma (psz (S n))).
Definition pageIndex (n : nat) (vma : Z) : Z :=
  Z.shiftr (Z.land vma (bitmask 64 (pagesizebits (Z.of_nat (S n))))) (pagesizebits (Z.of_nat n)).
Definition xPS (n : nat) : Z := if (1 <? n)%nat then bs_mask pe_PS else 0.
Definition present (pe : Z) : bool := negb (bs_get pe_P pe =? 0).
Definition isPage (n : nat) (pe : Z) : bool :=
  (n <? 4)%nat && ((n =? 1)%nat || negb (bs_get pe_PS pe =? 0)).
Definition hasPAT (n : nat) (pe : Z) : bool :=
  negb ((if (1 <? n)%nat then bs_get pe_PAT pe else bs_get pe_PS pe) =? 0).
Definition addr_of (pe : Z) : Z := Z.land pe (bs_mask pe_ADDR).

Definition paging_start : Z := accessPE 1 0.
Definition paging_root : Z := accessPE 4 0.
Definition paging_end : Z := (accessPE 1 topaddr + 8)%w.

(** ** Frame allocation, as paging uses it *)
Class FrameSource (F : Type) := {
  fa_alloc : nat -> F -> res (Z * F);       (* allocFrame<N> *)
  fa_release : Z -> Z -> F -> res F;        (* release(addr, size) *)
  fa_free : F -> Z -> bool;                 (* is the 4K frame with this number free? *)
  fa_mine : F -> Z -> bool;                 (* is it one of the managed frames? *)
  fa_ok : F -> Prop
}.
Class FrameSourceLaws (F : Type) `{FrameSource F} : Prop := {
  fa_alloc_law n f : fa_ok f -> (1 <= n <= 2)%nat ->
    match fa_alloc n f with
    | Ok (pma, f') => fa_ok f' /\ pma mod psz n = 0 /\ 0 <= pma /\ pma + psz n <= 2 ^ 51 /\
        (forall i, pma / 4096 <= i < (pma + psz n) / 4096 -> fa_free f i = true /\ fa_mine f' i = true) /\
        forall i, fa_free f' i = fa_free f i && negb ((pma / 4096 <=? i) && (i <? (pma + psz n) / 4096))
    | Err e => e = Aborted
    end;
  fa_release_law a s f : fa_ok f -> 0 <= a -> 0 < s -> a mod 4096 = 0 -> s mod 4096 = 0 -> a + s <= 2 ^ 51 ->
    (forall i, a / 4096 <= i < (a + s) / 4096 -> fa_free f i = false /\ fa_mine f i = true) ->
    match fa_release a s f with
    | Ok f' => fa_ok f' /\
        forall i, fa_free f' i = ((a / 4096 <=? i) && (i <? (a + s) / 4096)) || fa_free f i
    | Err e => e = Aborted
    end
}.

Section paging.
Context {F : Type} `{FrameSource F}.

(** physical memory as 8-byte words; [cr3] is the physical address of the
    installed top-level table *)
Record pstate := mkPst { pmem : gmap Z Z; cr3 : Z; pframes : F }.

Definition rd (s : pstate) (pa : Z) : Z := default 0 (pmem s !! pa).
Definition wr (pa x : Z) (s : pstate) : pstate := mkPst (<[pa := x]> (pmem s)) (cr3 s) (pframes s).
Definition set_frames (f : F) (s : pstate) : pstate := mkPst (pmem s) (cr3 s) f.

(** [allocFrame<N>]; the frame manager has zeroed the frame *)
Definition zero_range (pma size : Z) (m : gmap Z Z) : gmap Z Z :=
  filter (fun e => e.1 < pma \/ pma + size <= e.1) m.
Definition alloc_frame (n : nat) (s : pstate) : res (Z * pstate) :=
  '(pma, f) ← fa_alloc n (pframes s);
  mret (pma, mkPst (zero_range pma (psz n) (pmem s)) (cr3 s) f).
Definition release_frame (pma size : Z) (s : pstate) : res pstate :=
  f ← fa_release pma size (pframes s); mret (set_frames f s).

(** the page walk of the processor *)
Definition is_canonical (va : Z) : bool := (va <? 2 ^ 47) || (2 ^ 64 - 2 ^ 47 <=? va).

Fixpoint walk (n : nat) (base va : Z) (s : pstate) : option Z :=
  match n with
  | O => None
  | S n' =>
      let pe := rd s (base + 8 * pageIndex n va) in
      if present pe then
        if isPage n pe then Some (addr_of pe / psz n * psz n + pageoffset (Z.of_nat n) va)
        else walk n' (addr_of pe) va s
      else None
  end.
Definition translate (va : Z) (s : pstate) : option Z :=
  if is_canonical va then walk 4 (cr3 s) va s else None.

(** entries are accessed through virtual memory: [acc va w s] is the physical
    address behind [va] for a read or ([w]) a write access *)
Section entries.
Context (acc : Z -> bool -> pstate -> res (Z * pstate)).

Definition getPE_by (n : nat) (vma : Z) (s : pstate) : res (Z * pstate) :=
  '(ea, s) ← acc (accessPE n vma) false s; mret (rd s ea, s).
Definition casPE_by (n : nat) (vma pe expected : Z) (s : pstate) : res (bool * pstate) :=
  '(ea, s) ← acc (accessPE n vma) true s;
  mret (if rd s ea =? expected then (true, wr ea pe s) else (false, s)).

Definition checkMapping_by (n : nat) (vma pff : Z) (s : pstate) : res (bool * pstate) :=
  '(pe, s) ← getPE_by n vma s;
  let tm := Z.lor (bs_mask pe_RW) (bs_mask pe_US) in
  let result := negb (Z.land pe (bs_mask pe_P) =? 0) && (Z.land pe pff =? Z.land tm pff) in
  _ ← kassert result;
  mret (result, s).

Definition mapInternal_by (n : nat) (vma pe expected : Z) (s : pstate) : res (bool * pstate) :=
  _ ← kassert (aligned 64 vma (psz n));
  casPE_by n vma pe expected s.

Definition mapTable_by (n : nat) (vma pff : Z) (s : pstate) : res (bool * pstate) :=
  _ ← kassert ((pff =? 0) || (pff =? bs_mask pff_WR));
  '(pma, s) ← alloc_frame 1 s;
  let vma := align_down 64 vma pagetableps in
  '(success, s) ← mapInternal_by n vma (Z.lor (Z.lor pma pt_PageTable) pt_User) 0 s;
  s ← (if (success : bool) then mret s else release_frame pma pagetableps s);
  checkMapping_by n vma pff s.
End entries.

(** an access by the kernel; a fault in the page table region goes through
    [exception_handler_errcode_0x0e] to [tablefault] and the access is
    repeated when that returns true; the fuel bounds how often it faults *)
Fixpoint access (fuel : nat) (va : Z) (w : bool) (s : pstate) : res (Z * pstate) :=
  match translate va s with
  | Some pa => mret (pa, s)
  | None =>
      match fuel with
      | O => Err OutOfFuel
      | S fuel =>
          if (paging_start <=? va) && (va <? paging_end) then
            '(ok, s) ← mapTable_by (access fuel) 1 va (if w then bs_mask pff_WR else 0) s;
            if (ok : bool) then access fuel va w s else Err Aborted
          else Err Aborted
      end
  end.

(** at most three tables are missing, and the handler of a fault is nested in
    the handler of another one at most three times *)
Definition pe_fuel : nat := 8.

Definition getPE : nat -> Z -> pstate -> res (Z * pstate) := getPE_by (access pe_fuel).
Definition setPE (n : nat) (vma pe : Z) (s : pstate) : res pstate :=
  '(ea, s) ← access pe_fuel (accessPE n vma) true s; mret (wr ea pe s).
Definition exchangePE (n : nat) (vma pe : Z) (s : pstate) : res (Z * pstate) :=
  '(ea, s) ← access pe_fuel (accessPE n vma) true s; mret (rd s ea, wr ea pe s).
Definition casPE : nat -> Z -> Z -> Z -> pstate -> res (bool * pstate) := casPE_by (access pe_fuel).
Definition checkMapping : nat -> Z -> Z -> pstate -> res (bool * pstate) := checkMapping_by (access pe_fuel).
Definition mapInternal : nat -> Z -> Z -> Z -> pstate -> res (bool * pstate) := mapInternal_by (access pe_fuel).
Definition mapTable : nat -> Z -> Z -> pstate -> res (bool * pstate) := mapTable_by (access pe_fuel).
(** [BaseAddressSpace::tablefault] *)
Definition tablefault : Z -> Z -> pstate -> res (bool * pstate) := mapTable 1.

Definition mapToGuard (n : nat) (vma : Z) : pstate -> res (bool * pstate) := mapInternal n vma guardPage 0.
Definition mapToLazy (n : nat) (vma : Z) : pstate -> res (bool * pstate) := mapInternal n vma lazyPage 0.

Definition mapPage (n : nat) (vma pma type : Z) (s : pstate) : res (bool * pstate) :=
  _ ← kassert (bs_excl pe_ADDR pma =? 0);
  mapInternal n vma (Z.lor (Z.lor pma type) (xPS n)) 0 s.

(** [allocFrame<N>] exists for N = 1 and 2 *)
Fixpoint mapFromLazy (n : nat) (vma type pff : Z) (s : pstate) : res (bool * pstate) :=
  match n with
  | O => Err Aborted
  | S n' =>
      '(pe, s) ← getPE n vma s;
      if present pe && negb (isPage n pe) then mapFromLazy n' vma type pff s
      else
        '(pma, s) ← alloc_frame n s;
        let vma := align_down 64 vma (psz n) in
        '(success, s) ← mapInternal n vma (Z.lor (Z.lor pma type) (xPS n)) lazyPage s;
        s ← (if (success : bool) then mret s else release_frame pma (psz n) s);
        checkMapping n vma pff s
  end.

Fixpoint page_test (n : nat) (vma status : Z) (s : pstate) : res (Z * pstate) :=
  match n with
  | O => Err Aborted
  | S n' =>
      '(pe, s) ← getPE n vma s;
      let found (x : Z) := mret (if Z.land x status =? 0 then 0 else psz n, s) in
      if present pe then
        if isPage n pe then found Mapped else page_test n' vma status s
      else if pe =? 0 then found Available
      else if pe =? guardPage then found Guard
      else if pe =? lazyPage then found Lazy
      else Err Aborted
  end.
Definition testfree (vma : Z) : pstate -> res (Z * pstate) := page_test 4 vma Available.
Definition testused (vma : Z) : pstate -> res (Z * pstate) := page_test 4 vma (Z.lor (Z.lor Guard Lazy) Mapped).

(** InvTLB is in AddressSpace.v *)
Definition unmap (n : nat) (vma : Z) (s : pstate) : res (Z * pstate) :=
  _ ← kassert (aligned 64 vma (psz n));
  '(pe, s) ← exchangePE n vma 0 s;
  _ ← kassert (isPage n pe);
  mret (addr_of pe, s).

(** the loop over [start, end) has [(end - start) / pagesize<N>] rounds *)
Fixpoint clear_loop (body : Z -> pstate -> res pstate) (count : nat) (size vma end_ : Z) (s : pstate) : res pstate :=
  match count with
  | O => mret s
  | S count => if vma <? end_ then s ← body vma s; clear_loop body count size (vma + size)%w end_ s else mret s
  end.
Fixpoint pages_clear (n : nat) (start end_ : Z) (s : pstate) : res pstate :=
  match n with
  | O => Err Aborted
  | S n' =>
      clear_loop (fun vma s =>
        '(pe, s) ← getPE n vma s;
        s ← (if present pe then
               if isPage n pe then _ ← kassert (n <? 4)%nat; release_frame (addr_of pe) (psz n) s
               else s ← pages_clear n' vma (vma + psz n)%w s; release_frame (addr_of pe) pagetableps s
             else mret s);
        setPE n vma 0 s) (Z.to_nat ((end_ - start + psz n - 1) / psz n)) (psz n) start end_ s
  end.

Fixpoint vtop (n : nat) (vma : Z) (s : pstate) : res (Z * pstate) :=
  match n with
  | O => Err Aborted
  | S n' =>
      '(pe, s) ← getPE n vma s;
      _ ← kassert (present pe);
      if isPage n pe then mret ((addr_of pe + pageoffset (Z.of_nat n) vma)%w, s) else vtop n' vma s
  end.

Definition installPagetable (pt : Z) (s : pstate) : pstate := mkPst (pmem s) pt (pframes s).

End paging.
Arguments pstate : clear implicits.

(** ** Addresses of entries *)
Lemma lor_high k h x : 0 <= k -> 0 <= h -> 0 <= x < 2 ^ k -> Z.lor (h * 2 ^ k) x = h * 2 ^ k + x.
Proof.
  intros Hk Hh Hx. assert (Z.land (h * 2 ^ k) x = 0) as Hl.
  { apply word_eq_testbit. intros i Hi. rewrite Z.land_spec, Z.testbit_0_l.
    destruct (Z.lt_ge_cases i k); [by rewrite Z.mul_pow2_bits_low|].
    rewrite (word_testbit_high k x i) by done. by rewrite andb_false_r. }
  rewrite Z.add_nocarry_lxor by done. by rewrite <- Z.lxor_lor.
Qed.

Lemma land_canon vma : Z.land vma (~w canonPrefix)%w = vma mod 2 ^ 48.
Proof. change (~w canonPrefix)%w with (bitmask 64 48). by rewrite land_bitmask by lia. Qed.

Lemma helper_step n v :
  0 <= accessPE_Helper n v < 2 ^ 48 -> accessPE_Helper (S n) v = 2 ^ 47 + accessPE_Helper n v / 2 ^ 9.
Proof.
  intros Hh. cbn [accessPE_Helper]. change (recptindex << pagesizebits pagelevels)%w with (256 * 2 ^ 39).
  change pagetablebits with 9. rewrite Z.shiftr_div_pow2 by lia. rewrite lor_high; [lia..|].
  split; [apply Z.div_pos; lia|]. apply Z.div_lt_upper_bound; lia.
Qed.

Lemma helper_bounds n v : 0 <= v < 2 ^ 48 -> 0 <= accessPE_Helper n v < 2 ^ 48.
Proof.
  intros Hv. induction n as [|n IH]; [done|]. rewrite helper_step by done.
  assert (0 <= accessPE_Helper n v / 2 ^ 9 < 2 ^ 39) by
    (split; [apply Z.div_pos; lia|apply Z.div_lt_upper_bound; lia]). lia.
Qed.

Lemma accessPE_eq n vma :
  accessPE n vma = 2 ^ 64 - 2 ^ 48 + accessPE_Helper n (vma mod 2 ^ 48) / 8 * 8.
Proof.
  unfold accessPE. rewrite land_canon. change canonPrefix with (65535 * 2 ^ 48).
  pose proof (helper_bounds n (vma mod 2 ^ 48) ltac:(apply Z.mod_pos_bound; lia)) as Hh.
  rewrite lor_high by lia. change 8 with (2 ^ 3). rewrite align_down_eq by (unfold is_word; lia).
  Z.to_euclidean_division_equations; lia.
Qed.

Lemma pageIndex_eq n vma :
  (1 <= n <= 4)%nat -> pageIndex n vma = (vma mod 2 ^ (12 + 9 * Z.of_nat n)) / 2 ^ (12 + 9 * (Z.of_nat n - 1)).
Proof.
  intros. unfold pageIndex, pagesizebits, pageoffsetbits, pagetablebits.
  rewrite land_bitmask by lia. rewrite Z.shiftr_div_pow2 by lia. f_equal; f_equal; f_equal; lia.
Qed.

Lemma pageIndex_bounds n vma : (1 <= n <= 4)%nat -> 0 <= pageIndex n vma < 512.
Proof.
  intros Hn. rewrite pageIndex_eq by done.
  pose proof (Z.mod_pos_bound vma (2 ^ (12 + 9 * Z.of_nat n)) ltac:(apply Z.pow_pos_nonneg; lia)).
  assert (0 < 2 ^ (12 + 9 * (Z.of_nat n - 1))) by (apply Z.pow_pos_nonneg; lia).
  split; [apply Z.div_pos; lia|]. apply Z.div_lt_upper_bound; [lia|].
  replace (2 ^ (12 + 9 * (Z.of_nat n - 1)) * 512) with (2 ^ (12 + 9 * Z.of_nat n)); [lia|].
  change 512 with (2 ^ 9). rewrite <- Z.pow_add_r by lia. f_equal. lia.
Qed.

Lemma levels_cases n : (1 <= n <= 4)%nat -> n = 1%nat \/ n = 2%nat \/ n = 3%nat \/ n = 4%nat.
Proof. lia. Qed.

(** the digits of an address: four indices and the offset *)
Definition dig (e4 e3 e2 e1 e0 : Z) : Z := e4 * 2 ^ 39 + e3 * 2 ^ 30 + e2 * 2 ^ 21 + e1 * 2 ^ 12 + e0.

Lemma dig_step e4 e3 e2 e1 e0 : 0 <= e0 -> dig e4 e3 e2 e1 e0 / 2 ^ 9 = dig 0 e4 e3 e2 (e1 * 8 + e0 / 512).
Proof. unfold dig. intros. Z.to_euclidean_division_equations. lia. Qed.

Lemma dig_align e4 e3 e2 e1 e0 : dig e4 e3 e2 e1 e0 / 8 * 8 = dig e4 e3 e2 e1 (e0 / 8 * 8).
Proof. unfold dig. Z.to_euclidean_division_equations. lia. Qed.

Lemma pageIndex_dig h n e4 e3 e2 e1 e0 :
  (1 <= n <= 4)%nat -> 0 <= e4 < 512 -> 0 <= e3 < 512 -> 0 <= e2 < 512 -> 0 <= e1 < 512 -> 0 <= e0 < 4096 ->
  pageIndex n (h * 2 ^ 48 + dig e4 e3 e2 e1 e0) = nth (n - 1) [e1; e2; e3; e4] 0.
Proof.
  intros Hn. rewrite pageIndex_eq by done. unfold dig. intros.
  destruct (levels_cases n Hn) as [->|[->|[->| ->]]]; simpl; symmetry.
  - rewrite <- (Z.mod_unique _ (2 ^ 21) (h * 2 ^ 27 + e4 * 2 ^ 18 + e3 * 2 ^ 9 + e2) (e1 * 2 ^ 12 + e0)) by lia.
    apply Z.div_unique_pos with e0; lia.
  - rewrite <- (Z.mod_unique _ (2 ^ 30) (h * 2 ^ 18 + e4 * 2 ^ 9 + e3) (e2 * 2 ^ 21 + e1 * 2 ^ 12 + e0)) by lia.
    apply Z.div_unique_pos with (e1 * 2 ^ 12 + e0); lia.
  - rewrite <- (Z.mod_unique _ (2 ^ 39) (h * 2 ^ 9 + e4) (e3 * 2 ^ 30 + e2 * 2 ^ 21 + e1 * 2 ^ 12 + e0)) by lia.
    apply Z.div_unique_pos with (e2 * 2 ^ 21 + e1 * 2 ^ 12 + e0); lia.
  - rewrite <- (Z.mod_unique _ (2 ^ 48) h (e4 * 2 ^ 39 + e3 * 2 ^ 30 + e2 * 2 ^ 21 + e1 * 2 ^ 12 + e0)) by lia.
    apply Z.div_unique_pos with (e3 * 2 ^ 30 + e2 * 2 ^ 21 + e1 * 2 ^ 12 + e0); lia.
Qed.

Lemma pageIndex_split n vma : (1 <= n <= 4)%nat ->
  vma mod 2 ^ (12 + 9 * Z.of_nat n) =
  pageIndex n vma * 2 ^ (12 + 9 * (Z.of_nat n - 1)) + vma mod 2 ^ (12 + 9 * (Z.of_nat n - 1)).
Proof.
  intros Hn. rewrite pageIndex_eq by done.
  assert (0 < 2 ^ (12 + 9 * (Z.of_nat n - 1))) by (apply Z.pow_pos_nonneg; lia).
  rewrite (Z.div_mod (vma mod 2 ^ (12 + 9 * Z.of_nat n)) (2 ^ (12 + 9 * (Z.of_nat n - 1)))) at 1 by lia.
  rewrite Z.mod_mod_divide; [lia|].
  exists (2 ^ 9). rewrite <- Z.pow_add_r by lia. f_equal. lia.
Qed.

Lemma digits vma :
  vma mod 2 ^ 48 = dig (pageIndex 4 vma) (pageIndex 3 vma) (pageIndex 2 vma) (pageIndex 1 vma) (vma mod 4096).
Proof.
  unfold dig. pose proof (pageIndex_split 4 vma ltac:(lia)) as H4. pose proof (pageIndex_split 3 vma ltac:(lia)) as H3.
  pose proof (pageIndex_split 2 vma ltac:(lia)) as H2. pose proof (pageIndex_split 1 vma ltac:(lia)) as H1.
  change (Z.of_nat 4) with 4 in H4. change (Z.of_nat 3) with 3 in H3. change (Z.of_nat 2) with 2 in H2.
  change (Z.of_nat 1) with 1 in H1. change (12 + 9 * 4) with 48 in H4. change (12 + 9 * (4 - 1)) with 39 in H4.
  change (12 + 9 * 3) with 39 in H3. change (12 + 9 * (3 - 1)) with 30 in H3.
  change (12 + 9 * 2) with 30 in H2. change (12 + 9 * (2 - 1)) with 21 in H2.
  change (12 + 9 * 1) with 21 in H1. change (12 + 9 * (1 - 1)) with 12 in H1.
  change 4096 with (2 ^ 12). rewrite H4, H3, H2, H1. ring.
Qed.

(** the indices of [accessPE n vma]: [n] times the recursive index, then the
    indices of [vma] from the top; the offset selects the entry *)
Lemma accessPE_dig n vma :
  (1 <= n <= 4)%nat ->
  let i l := if (4 <? l + n)%nat then recptindex else pageIndex (l + n) vma in
  accessPE n vma = 65535 * 2 ^ 48 + dig (i 4%nat) (i 3%nat) (i 2%nat) (i 1%nat) (8 * pageIndex n vma).
Proof.
  intros Hn. rewrite accessPE_eq. pose proof (digits vma) as Hd.
  assert (0 <= vma mod 4096 < 4096) as He0 by (by apply Z.mod_pos_bound). set (e0 := vma mod 4096) in *.
  pose proof (pageIndex_bounds 1 vma ltac:(lia)). pose proof (pageIndex_bounds 2 vma ltac:(lia)).
  pose proof (pageIndex_bounds 3 vma ltac:(lia)). pose proof (pageIndex_bounds 4 vma ltac:(lia)).
  assert (0 <= vma mod 2 ^ 48 < 2 ^ 48) as Hv by (apply Z.mod_pos_bound; lia).
  assert (forall k e4 e3 e2 e1 e, accessPE_Helper k (vma mod 2 ^ 48) = dig e4 e3 e2 e1 e -> 0 <= e ->
    accessPE_Helper (S k) (vma mod 2 ^ 48) = dig 256 e4 e3 e2 (e1 * 8 + e / 512)) as Hs.
  { intros k e4 e3 e2 e1 e Hk He. rewrite helper_step by (by apply helper_bounds). rewrite Hk, dig_step by done.
    unfold dig. lia. }
  pose proof (Hs 0%nat _ _ _ _ _ Hd ltac:(lia)) as Hh1.
  pose proof (Hs 1%nat _ _ _ _ _ Hh1 ltac:(Z.to_euclidean_division_equations; lia)) as Hh2.
  pose proof (Hs 2%nat _ _ _ _ _ Hh2 ltac:(Z.to_euclidean_division_equations; lia)) as Hh3.
  pose proof (Hs 3%nat _ _ _ _ _ Hh3 ltac:(Z.to_euclidean_division_equations; lia)) as Hh4.
  change recptindex with 256.
  destruct (levels_cases n Hn) as [->|[->|[->| ->]]]; cbv zeta; rewrite ?Hh1, ?Hh2, ?Hh3, ?Hh4, dig_align;
    change (2 ^ 64 - 2 ^ 48) with (65535 * 2 ^ 48); cbn [Nat.add Nat.ltb Nat.leb];
    (match goal with |- _ + dig _ _ _ _ ?x = _ + dig _ _ _ _ ?y => assert (x = y) as -> end);
    try (Z.to_euclidean_division_equations; lia); unfold dig; lia.
Qed.

Lemma pageIndex_accessPE n l vma :
  (1 <= n <= 4)%nat -> (1 <= l <= 4)%nat ->
  pageIndex l (accessPE n vma) = if (4 <? l + n)%nat then recptindex else pageIndex (l + n) vma.
Proof.
  intros Hn Hl. rewrite accessPE_dig by done. pose proof (pageIndex_bounds n vma Hn).
  assert (forall k, 0 <= (if (4 <? k + n)%nat then recptindex else pageIndex (k + n) vma) < 512) as Hb.
  { intros k. destruct (Nat.ltb_spec 4 (k + n)); [by change recptindex with 256|].
    apply pageIndex_bounds. lia. }
  rewrite pageIndex_dig; auto; [|lia].
  destruct (levels_cases l Hl) as [->|[->|[->| ->]]]; done.
Qed.

Lemma accessPE_offset n vma :
  (1 <= n <= 4)%nat -> accessPE n vma mod 4096 = 8 * pageIndex n vma.
Proof.
  intros Hn. rewrite accessPE_dig by done. pose proof (pageIndex_bounds n vma Hn).
  symmetry. unfold dig. cbv zeta.
  match goal with |- _ = (_ + (?a * _ + ?b * _ + ?c * _ + ?d * _ + _)) mod _ =>
    apply Z.mod_unique with (65535 * 2 ^ 36 + a * 2 ^ 27 + b * 2 ^ 18 + c * 2 ^ 9 + d); lia end.
Qed.

Lemma accessPE_range n vma : (1 <= n <= 4)%nat -> paging_start <= accessPE n vma < paging_end.
Proof.
  intros Hn. change paging_start with (65535 * 2 ^ 48 + 256 * 2 ^ 39).
  change paging_end with (65535 * 2 ^ 48 + 257 * 2 ^ 39). rewrite accessPE_dig by done. cbv zeta.
  assert (forall k, 0 <= (if (4 <? k + n)%nat then recptindex else pageIndex (k + n) vma) < 512) as Hb.
  { intros k. destruct (Nat.ltb_spec 4 (k + n)); [by change recptindex with 256|].
    apply pageIndex_bounds. lia. }
  pose proof (Hb 3%nat). pose proof (Hb 2%nat). pose proof (Hb 1%nat). pose proof (pageIndex_bounds n vma Hn).
  replace (if (4 <? 4 + n)%nat then recptindex else pageIndex (4 + n) vma) with 256
    by (destruct (Nat.ltb_spec 4 (4 + n)); [done|lia]).
  unfold dig. lia.
Qed.

(** ** Tables and entries *)
Lemma bs_flag b pe :
  bs_w b = 64 -> bs_Width b = 1 -> 0 <= bs_Pos b -> negb (bs_get b pe =? 0) = Z.testbit pe (bs_Pos b).
Proof.
  intros Hw H1 Hp. unfold bs_get. rewrite Hw, H1, land_bitmask by lia. change (2 ^ 1) with 2.
  rewrite <- Z.bit0_mod, Z.shiftr_spec by lia. rewrite Z.add_0_l. by destruct (Z.testbit pe (bs_Pos b)).
Qed.
Lemma present_eq pe : present pe = Z.testbit pe 0.
Proof. by apply (bs_flag pe_P). Qed.
Lemma isPage_eq n pe : isPage n pe = (n <? 4)%nat && ((n =? 1)%nat || Z.testbit pe 7).
Proof. unfold isPage. by rewrite (bs_flag pe_PS). Qed.

Lemma addr_mask_testbit i : 0 <= i -> Z.testbit (bs_mask pe_ADDR) i = (12 <=? i) && (i <? 52).
Proof.
  intros. unfold bs_mask, bitmask2. simpl.
  rewrite wrap_testbit, Z.shiftl_spec by lia.
  destruct (Z.leb_spec 12 i).
  - rewrite bitmask_testbit by lia. destruct (Z.ltb_spec i 64), (Z.ltb_spec (i - 12) 40), (Z.ltb_spec i 52); try done; lia.
  - rewrite (Z.testbit_neg_r _ (i - 12)) by lia. by rewrite andb_false_r.
Qed.

Lemma addr_of_testbit pe i : 0 <= i -> Z.testbit (addr_of pe) i = Z.testbit pe i && ((12 <=? i) && (i <? 52)).
Proof. intros. unfold addr_of. by rewrite Z.land_spec, addr_mask_testbit. Qed.

Lemma addr_of_bounds pe : 0 <= addr_of pe < 2 ^ 52 /\ addr_of pe mod 4096 = 0.
Proof.
  assert (is_word 52 (addr_of pe)) as Hw.
  { apply word_of_testbit; [lia| |].
    - unfold addr_of. apply Z.land_nonneg. right. vm_compute. discriminate.
    - intros i Hi. rewrite addr_of_testbit by lia. destruct (Z.ltb_spec i 52); [lia|]. by rewrite !andb_false_r. }
  split; [exact Hw|]. change 4096 with (2 ^ 12). apply word_eq_testbit. intros i Hi. rewrite Z.testbit_0_l.
  destruct (Z.lt_ge_cases i 12).
  - rewrite Z.mod_pow2_bits_low by lia. rewrite addr_of_testbit by lia.
    destruct (Z.leb_spec 12 i); [lia|]. by rewrite andb_false_r.
  - by apply Z.mod_pow2_bits_high; lia.
Qed.

(** an entry made of an address and flags *)
Lemma page_bits_high pma i : 0 <= pma < 2 ^ 52 -> pma mod 4096 = 0 -> 0 <= i ->
  Z.testbit pma i = Z.testbit pma i && ((12 <=? i) && (i <? 52)).
Proof.
  intros Hp Hm Hi. destruct (Z.leb_spec 12 i), (Z.ltb_spec i 52); simpl; rewrite ?andb_true_r; try done.
  - by rewrite (word_testbit_high 52).
  - rewrite andb_false_r. rewrite <- (Z.mod_pow2_bits_low pma 12 i) by lia. change (2 ^ 12) with 4096.
    by rewrite Hm, Z.testbit_0_l.
  - lia.
Qed.

Lemma make_entry pma flags :
  0 <= pma < 2 ^ 52 -> pma mod 4096 = 0 -> (forall i, 12 <= i < 52 -> Z.testbit flags i = false) ->
  addr_of (Z.lor pma flags) = pma /\ forall i, 0 <= i < 12 -> Z.testbit (Z.lor pma flags) i = Z.testbit flags i.
Proof.
  intros Hp Hm Hf. split.
  - apply word_eq_testbit. intros i Hi. rewrite addr_of_testbit, Z.lor_spec by done.
    rewrite (page_bits_high pma i) by done.
    destruct (Z.leb_spec 12 i), (Z.ltb_spec i 52); simpl; rewrite ?andb_false_r, ?andb_true_r; try done.
    rewrite Hf by lia. by rewrite orb_false_r.
  - intros i Hi. rewrite Z.lor_spec. rewrite (page_bits_high pma i) by (done || lia).
    destruct (Z.leb_spec 12 i); [lia|]. by rewrite andb_false_r.
Qed.

Section paging_facts.
Context {F : Type} `{FrameSourceLaws F}.
Implicit Types s : pstate F.

Fixpoint table_down (k : nat) (va : Z) (s : pstate F) : option Z :=
  match k with
  | O => Some (cr3 s)
  | S k' =>
      b ← table_down k' va s;
      let pe := rd s (b + 8 * pageIndex (4 - k') va) in
      if present pe && negb (isPage (4 - k') pe) then Some (addr_of pe) else None
  end.
(** the level-[n] table of [va] and its entry *)
Definition table_at (n : nat) : Z -> pstate F -> option Z := table_down (4 - n).
Definition entry (n : nat) (va : Z) (s : pstate F) : option Z :=
  b ← table_at n va s; Some (rd s (b + 8 * pageIndex n va)).

Lemma table_at_4 va s : table_at 4 va s = Some (cr3 s).
Proof. done. Qed.

Lemma table_at_S n va s : (1 <= n < 4)%nat ->
  table_at n va s = pe ← entry (S n) va s; if present pe && negb (isPage (S n) pe) then Some (addr_of pe) else None.
Proof.
  intros Hn. unfold table_at, entry, table_at. replace (4 - n)%nat with (S (4 - S n)) by lia. cbn [table_down].
  replace (4 - (4 - S n))%nat with (S n) by lia. by destruct (table_down (4 - S n) va s).
Qed.

Lemma entry_Some n va s pe : entry n va s = Some pe <-> exists b, table_at n va s = Some b /\ pe = rd s (b + 8 * pageIndex n va).
Proof. unfold entry. destruct (table_at n va s); simpl; naive_solver. Qed.

Lemma levels_down (P : nat -> Prop) :
  P 4%nat -> (forall n, (1 <= n < 4)%nat -> P (S n) -> P n) -> forall n, (1 <= n <= 4)%nat -> P n.
Proof. intros H4 Hs n Hn. destruct (levels_cases n Hn) as [->|[->|[->| ->]]]; auto 10 with lia. Qed.

(** the walk starts from the tables *)
Lemma walk_table n va s b : (1 <= n <= 4)%nat ->
  table_at n va s = Some b -> walk 4 (cr3 s) va s = walk n b va s.
Proof.
  intros Hn. revert b. pattern n. apply levels_down; [|clear n Hn; intros n Hn IH|done].
  - rewrite table_at_4. by intros b [= <-].
  - intros b. rewrite table_at_S by lia. unfold entry. destruct (table_at (S n) va s) as [b'|] eqn:E; cbn [mbind option_bind]; [|done].
    destruct (present _ && negb _) eqn:Ep; [|done]. intros [= <-]. rewrite (IH b') by done.
    apply andb_true_iff in Ep as [Ep Ei%negb_true_iff]. destruct n as [|n]; [lia|]. cbn [walk]. by rewrite Ep, Ei.
Qed.

Definition same_entries (va : Z) (s s' : pstate F) : Prop :=
  cr3 s' = cr3 s /\ forall n, (1 <= n <= 4)%nat -> entry n va s' = entry n va s.

Lemma same_entries_refl va s : same_entries va s s.
Proof. done. Qed.
Lemma same_entries_trans va s1 s2 s3 : same_entries va s1 s2 -> same_entries va s2 s3 -> same_entries va s1 s3.
Proof. intros [E1 H1] [E2 H2]. split; [congruence|]. intros n Hn. by rewrite H2, H1. Qed.

Lemma same_entries_table va s s' n : same_entries va s s' -> (1 <= n <= 4)%nat -> table_at n va s' = table_at n va s.
Proof.
  intros [Hc He] Hn. destruct (decide (n = 4%nat)) as [->|]; [by rewrite !table_at_4, Hc|].
  rewrite !table_at_S by lia. by rewrite He by lia.
Qed.

Lemma same_entries_walk va s s' n b : same_entries va s s' -> (n <= 4)%nat ->
  (n = 0%nat \/ table_at n va s = Some b) -> walk n b va s' = walk n b va s.
Proof.
  intros Hs. revert b. induction n as [|n IH]; [done|]. intros b Hn [|Ht]; [done|]. cbn [walk].
  assert (rd s' (b + 8 * pageIndex (S n) va) = rd s (b + 8 * pageIndex (S n) va)) as ->.
  { pose proof (proj2 Hs (S n) ltac:(lia)) as He. pose proof (same_entries_table va s s' (S n) Hs ltac:(lia)) as Ht'.
    rewrite Ht in Ht'. unfold entry in He. rewrite Ht, Ht' in He. simpl in He. congruence. }
  destruct (present _) eqn:Ep; [|done]. destruct (isPage _ _) eqn:Ei; [done|].
  apply IH; [lia|]. destruct n as [|n]; [by left|right]. rewrite table_at_S by lia. unfold entry. rewrite Ht. simpl.
  by rewrite Ep, Ei.
Qed.

Lemma same_entries_translate va s s' : same_entries va s s' -> translate va s' = translate va s.
Proof.
  intros Hs. unfold translate. destruct (is_canonical va); [|done]. rewrite (proj1 Hs).
  apply (same_entries_walk va s s' 4); [done|lia|by right].
Qed.

(** ** The invariant of the page tables *)
(** addresses outside the window of the recursive slot *)
Definition plain_slot (va : Z) : Prop := pageIndex 4 va <> recptindex.

Record pt_inv (s : pstate F) : Prop := {
  pi_cr3 : 0 <= cr3 s < 2 ^ 51 /\ cr3 s mod 4096 = 0;
  pi_rec : rd s (cr3 s + 8 * recptindex) = Z.lor (cr3 s) pt_PageTable;
  pi_top va pe : entry 4 va s = Some pe -> present pe = true -> Z.testbit pe 7 = false;
  (** every table is used once *)
  pi_tree n n' va va' b : (1 <= n <= 4)%nat -> (1 <= n' <= 4)%nat -> plain_slot va -> plain_slot va' ->
    table_at n va s = Some b -> table_at n' va' s = Some b ->
    n = n' /\ forall m, (n < m <= 4)%nat -> pageIndex m va = pageIndex m va';
  pi_used n va b : (1 <= n <= 4)%nat -> plain_slot va -> table_at n va s = Some b ->
    fa_free (pframes s) (b / 4096) = false;
  pi_page n va pe : (1 <= n <= 4)%nat -> plain_slot va -> entry n va s = Some pe ->
    present pe = true -> isPage n pe = true -> addr_of pe mod psz n = 0;
  pi_ok : fa_ok (pframes s)
}.

(** the part of it about the top-level table, which the accesses to entries need *)
Record pt_root (s : pstate F) : Prop := {
  pr_cr3 : 0 <= cr3 s < 2 ^ 51 /\ cr3 s mod 4096 = 0;
  pr_rec : rd s (cr3 s + 8 * recptindex) = Z.lor (cr3 s) pt_PageTable;
  pr_top va pe : entry 4 va s = Some pe -> present pe = true -> Z.testbit pe 7 = false
}.
Lemma pt_inv_root s : pt_inv s -> pt_root s.
Proof. intros []. by constructor. Qed.

(** above level [n] the path of [va] has tables or empty entries only *)
Definition clear_path (n : nat) (va : Z) (s : pstate F) : Prop :=
  forall m pe, (n < m <= 4)%nat -> entry m va s = Some pe -> pe = 0 \/ present pe = true /\ isPage m pe = false.

Lemma PageTable_bits i : 12 <= i < 52 -> Z.testbit pt_PageTable i = false.
Proof. intros Hi. change pt_PageTable with (wrap 2 3). rewrite wrap_testbit by lia. destruct (Z.ltb_spec i 2); [lia|done]. Qed.

Lemma rec_entry s : pt_root s ->
  let e := rd s (cr3 s + 8 * recptindex) in present e = true /\ Z.testbit e 7 = false /\ addr_of e = cr3 s.
Proof.
  intros Hs. pose proof (pr_cr3 _ Hs) as [Hc Hm]. cbv zeta. rewrite (pr_rec _ Hs).
  destruct (make_entry (cr3 s) pt_PageTable) as [Ha Hb]; [lia|done|apply PageTable_bits|].
  rewrite present_eq, !Hb by lia. done.
Qed.

Lemma psz_eq n : (1 <= n <= 4)%nat -> psz n = 2 ^ (12 + 9 * (Z.of_nat n - 1)).
Proof.
  intros. unfold psz. rewrite pagesize_eq by lia. unfold pagesizebits, pageoffsetbits, pagetablebits. f_equal. lia.
Qed.

Lemma walk_1 b va s : b mod 4096 = 0 -> 
  walk 1 b va s = let pe := rd s (b + 8 * pageIndex 1 va) in if present pe then Some (addr_of pe + va mod 4096) else None.
Proof.
  intros Hb. cbn [walk]. destruct (present _); [|done]. rewrite isPage_eq. cbn [Nat.ltb Nat.leb Nat.eqb orb andb]. f_equal.
  change (psz 1) with 4096. pose proof (addr_of_bounds (rd s (b + 8 * pageIndex 1 va))) as [_ Hm].
  pose proof (Z.div_mod (addr_of (rd s (b + 8 * pageIndex 1 va))) 4096 ltac:(done)).
  rewrite pageoffset_eq by lia. change (pagesize (Z.of_nat 1)) with 4096. lia.
Qed.

Lemma rec_walk l va s : pt_root s -> (2 <= S l)%nat ->
  pageIndex (S l) va = recptindex -> walk (S l) (cr3 s) va s = walk l (cr3 s) va s.
Proof.
  intros Hs Hl Hi. destruct (rec_entry s Hs) as (Hp & H7 & Ha). cbn [walk]. rewrite Hi, Hp, isPage_eq, H7, Ha.
  destruct (Nat.eqb_spec (S l) 1); [lia|]. by rewrite andb_false_r.
Qed.

Lemma root_translate_PE n va s : pt_root s -> (1 <= n <= 4)%nat -> clear_path n va s ->
  translate (accessPE n va) s = b ← table_at n va s; Some (b + 8 * pageIndex n va).
Proof.
  intros Hs Hn Hc. pose proof (accessPE_range n va Hn) as Hr.
  change paging_start with (2 ^ 64 - 2 ^ 47) in Hr.
  assert (is_canonical (accessPE n va) = true) as Hcan.
  { unfold is_canonical. apply orb_true_iff. right. apply Z.leb_le. lia. }
  unfold translate. rewrite Hcan. clear Hcan.
  pose proof (pageIndex_accessPE n) as Hidx. pose proof (pr_cr3 _ Hs) as [_ Hm].
  assert (forall l, (4 - n < l <= 4)%nat -> pageIndex l (accessPE n va) = recptindex) as Hi.
  { intros l Hl. rewrite Hidx by lia. destruct (Nat.ltb_spec 4 (l + n)); [done|lia]. }
  destruct (decide (n = 4%nat)) as [->|Hne].
  { rewrite !rec_walk by (done || lia || (apply Hi; lia)). rewrite walk_1 by done. rewrite Hi by lia.
    destruct (rec_entry s Hs) as (Hp & _ & Ha). cbv zeta. rewrite Hp, Ha, accessPE_offset by lia. by rewrite table_at_4. }
  assert (walk 4 (cr3 s) (accessPE n va) s = walk (4 - n) (cr3 s) (accessPE n va) s) as ->.
  { destruct (levels_cases n Hn) as [->|[->|[->| ->]]]; [..|done]; simpl (4 - _)%nat;
      by repeat rewrite rec_walk by (done || lia || (apply Hi; lia)). }
  assert (forall k, (1 <= k <= 4)%nat -> (n < k)%nat -> forall b, table_at k va s = Some b -> b mod 4096 = 0 ->
    walk (k - n) b (accessPE n va) s = b ← table_at n va s; Some (b + 8 * pageIndex n va)) as Hgo.
  { intros k. induction k as [|k IH]; [lia|]. intros Hk Hnk b Hb Hbm.
    assert (pageIndex (S k - n) (accessPE n va) = pageIndex (S k) va) as Hik.
    { rewrite Hidx by lia. destruct (Nat.ltb_spec 4 (S k - n + n)); [lia|]. f_equal. lia. }
    pose proof (Hc (S k) (rd s (b + 8 * pageIndex (S k) va)) ltac:(lia)) as Hpe.
    assert (entry (S k) va s = Some (rd s (b + 8 * pageIndex (S k) va))) as He by (unfold entry; by rewrite Hb).
    specialize (Hpe He). assert (k = n \/ (1 <= k <= 4)%nat) as Hk' by lia.
    assert (forall m, (1 <= m <= k)%nat -> present (rd s (b + 8 * pageIndex (S k) va)) = false -> table_at m va s = None) as Hnone.
    { intros m Hm' Hp. assert (forall j, (j < k)%nat -> table_at (k - j) va s = None) as Hj.
      { induction j as [|j IHj]; intros Hj.
        - rewrite Nat.sub_0_r, table_at_S by lia. rewrite He. simpl. by rewrite Hp.
        - rewrite table_at_S by lia. unfold entry. replace (S (k - S j)) with (k - j)%nat by lia. by rewrite IHj by lia. }
      specialize (Hj (k - m)%nat ltac:(lia)). by replace (k - (k - m))%nat with m in Hj by lia. }
    destruct (decide (k = n)) as [->|Hkn].
    - replace (S n - n)%nat with 1%nat in * by lia. rewrite walk_1, Hik by done. cbv zeta.
      rewrite (table_at_S n) by lia. rewrite He. cbn [mbind option_bind].
      destruct Hpe as [-> | [Hp Hi']]; [done|]. rewrite Hp, Hi'. simpl. by rewrite accessPE_offset.
    - replace (S k - n)%nat with (S (k - n)) in * by lia. cbn [walk]. rewrite Hik.
      destruct Hpe as [Hz| [Hp Hi']].
      + assert (present (rd s (b + 8 * pageIndex (S k) va)) = false) as Hp by (by rewrite Hz).
        rewrite Hp, (Hnone n) by (done || lia). done.
      + rewrite Hp.
        assert (isPage (S (k - n)) (rd s (b + 8 * pageIndex (S k) va)) = false) as ->.
        { rewrite isPage_eq in *. destruct (decide (S k = 4)%nat) as [Hk4|].
          - assert (k = 3%nat) as -> by lia. rewrite (pr_top _ Hs va _ He Hp).
            destruct (Nat.eqb_spec (S (3 - n)) 1); [lia|]. by rewrite andb_false_r.
          - destruct (Nat.ltb_spec (S k) 4); [|lia]. destruct (Nat.eqb_spec (S k) 1); [lia|].
            rewrite andb_true_l, orb_false_l in Hi'. rewrite Hi'. destruct (Nat.eqb_spec (S (k - n)) 1); [lia|]. by rewrite andb_false_r. }
        apply IH; [lia|lia| |apply addr_of_bounds].
        rewrite table_at_S by lia. rewrite He. simpl. by rewrite Hp, Hi'. }
  apply (Hgo 4%nat); [lia|lia|apply table_at_4|done].
Qed.

Lemma translate_PE n va s : pt_inv s -> (1 <= n <= 4)%nat -> clear_path n va s ->
  translate (accessPE n va) s = b ← table_at n va s; Some (b + 8 * pageIndex n va).
Proof. intros Hs. by apply root_translate_PE, pt_inv_root. Qed.

(** ** Writing an entry *)
Definition same_idx (n : nat) (va va' : Z) : Prop := forall m, (n <= m <= 4)%nat -> pageIndex m va = pageIndex m va'.

#[global] Instance same_idx_dec n va va' : Decision (same_idx n va va').
Proof.
  refine (cast_if (decide (Forall (fun m => (n <= m)%nat -> pageIndex m va = pageIndex m va') (seq 0 5)))); unfold same_idx.
  - rewrite Forall_forall in *. intros m Hm. apply f; [|lia]. apply elem_of_seq. lia.
  - intros Hs. apply n0. apply Forall_forall. intros m [? ?]%elem_of_seq ?. apply Hs. lia.
Defined.

Lemma rd_wr a x s a' : rd (wr a x s) a' = if decide (a' = a) then x else rd s a'.
Proof.
  unfold rd, wr. simpl. case_decide as Hd; [subst; by rewrite lookup_insert_eq|]. by rewrite lookup_insert_ne by auto.
Qed.

Lemma table_aligned n va s b : pt_inv s -> (1 <= n <= 4)%nat -> table_at n va s = Some b -> b mod 4096 = 0 /\ 0 <= b < 2 ^ 52.
Proof.
  intros Hs Hn. destruct (decide (n = 4%nat)) as [->|].
  - rewrite table_at_4. intros [= <-]. pose proof (pi_cr3 _ Hs). lia.
  - rewrite table_at_S by lia. destruct (entry (S n) va s) as [pe|]; simpl; [|done]. case_match; [|done].
    intros [= <-]. pose proof (addr_of_bounds pe). tauto.
Qed.

(** tables on the same path have the same path above *)
Lemma table_idx n va va' s : (1 <= n <= 4)%nat -> same_idx (S n) va va' -> table_at n va s = table_at n va' s.
Proof.
  intros Hn. pattern n. apply levels_down; [done|clear n Hn|done]. intros n Hn IH Hs.
  rewrite !table_at_S by lia. unfold entry. rewrite IH; [|intros m Hm; apply Hs; lia]. by rewrite (Hs (S n)) by lia.
Qed.
Lemma entry_idx n va va' s : (1 <= n <= 4)%nat -> same_idx n va va' -> entry n va s = entry n va' s.
Proof.
  intros Hn Hs. unfold entry. rewrite (table_idx n va va'); [|done|intros m Hm; apply Hs; lia]. by rewrite (Hs n) by lia.
Qed.
Lemma plain_idx n va va' : (1 <= n <= 4)%nat -> same_idx n va va' -> plain_slot va -> plain_slot va'.
Proof. unfold plain_slot. intros Hn Hs. by rewrite (Hs 4%nat) by lia. Qed.

Section write.
Context (s : pstate F) (Hs : pt_inv s) (n : nat) (va b x : Z).
Context (Hn : (1 <= n <= 4)%nat) (Hva : plain_slot va) (Hb : table_at n va s = Some b).
Let ea := b + 8 * pageIndex n va.
Let s' := wr ea x s.

Lemma write_alias m va' b' : (1 <= m <= 4)%nat -> plain_slot va' -> table_at m va' s = Some b' ->
  b' + 8 * pageIndex m va' = ea -> m = n /\ same_idx n va va'.
Proof.
  intros Hm Hva' Hb' E. destruct (table_aligned n va s b Hs Hn Hb) as [Ha _].
  destruct (table_aligned m va' s b' Hs Hm Hb') as [Ha' _].
  pose proof (pageIndex_bounds n va Hn). pose proof (pageIndex_bounds m va' Hm).
  assert (b' = b) as Eb by (unfold ea in E; Z.to_euclidean_division_equations; lia). rewrite Eb in *. clear Eb b'.
  destruct (pi_tree _ Hs n m va va' b) as [<- Hidx]; try done. split; [done|]. intros k Hk.
  destruct (decide (k = n)) as [->|]; [unfold ea in E; lia|]. apply Hidx. lia.
Qed.

Lemma write_rec : ea <> cr3 s + 8 * recptindex.
Proof.
  unfold ea. destruct (table_aligned n va s b Hs Hn Hb) as [Ha _]. pose proof (pi_cr3 _ Hs) as [_ Hc].
  pose proof (pageIndex_bounds n va Hn). change recptindex with 256. intros E.
  assert (b = cr3 s) as -> by (Z.to_euclidean_division_equations; lia).
  destruct (pi_tree _ Hs n 4 va va (cr3 s)) as [-> _]; try done; [lia|].
  apply Hva. change recptindex with 256. lia.
Qed.

(** the tables that are not reached through the entry *)
Lemma write_table m va' : (1 <= m <= 4)%nat -> plain_slot va' -> ~ ((m < n)%nat /\ same_idx n va va') ->
  table_at m va' s' = table_at m va' s.
Proof.
  intros Hm Hva'. pattern m. apply levels_down; [done|clear m Hm|done]. intros m Hm IH Hno.
  rewrite !table_at_S by lia. assert (table_at (S m) va' s' = table_at (S m) va' s) as IH'.
  { apply IH. intros [? ?]. apply Hno. split; [lia|done]. }
  unfold entry. rewrite IH'. destruct (table_at (S m) va' s) as [b'|] eqn:Hb'; [|done]. cbn [mbind option_bind].
  unfold s'. rewrite rd_wr. case_decide as Hd; [|done]. exfalso.
  destruct (write_alias (S m) va' b') as [<- ?]; try done; [lia|]. apply Hno. split; [lia|done].
Qed.

Lemma write_entry m va' : (1 <= m <= 4)%nat -> plain_slot va' -> ~ ((m <= n)%nat /\ same_idx n va va') ->
  entry m va' s' = entry m va' s.
Proof.
  intros Hm Hva' Hno. unfold entry. rewrite write_table; [|done..|intros [? ?]; apply Hno; split; [lia|done]].
  destruct (table_at m va' s) as [b'|] eqn:Hb'; [|done]. cbn [mbind option_bind]. f_equal.
  unfold s'. rewrite rd_wr. case_decide as Hd; [|done]. exfalso.
  destruct (write_alias m va' b') as [<- ?]; try done. apply Hno. split; [lia|done].
Qed.

Lemma write_at va' : same_idx n va va' -> table_at n va' s' = Some b /\ entry n va' s' = Some x.
Proof.
  intros Hi. assert (plain_slot va') as Hva' by (by eapply plain_idx).
  assert (table_at n va' s' = Some b) as Ht.
  { rewrite write_table; [|done..|lia]. rewrite <- Hb. symmetry. apply table_idx; [done|]. intros m Hm. apply Hi. lia. }
  split; [done|]. unfold entry. rewrite Ht. simpl. unfold s'. rewrite rd_wr, decide_True; [done|]. unfold ea. by rewrite (Hi n) by lia.
Qed.

Lemma write_other va' : plain_slot va' -> ~ same_idx n va va' -> same_entries va' s s'.
Proof. intros Hva' Hno. split; [done|]. intros m Hm. apply write_entry; [done..|]. tauto. Qed.

(** the new entry is not a table: the tables reached through it are gone *)
Lemma write_leaf_table m va' b' :
  present x && negb (isPage n x) = false -> (1 <= m <= 4)%nat -> plain_slot va' ->
  table_at m va' s' = Some b' -> table_at m va' s = Some b' /\ ~ ((m < n)%nat /\ same_idx n va va').
Proof.
  intros Hx Hm Hva' Ht. destruct (decide ((m < n)%nat /\ same_idx n va va')) as [[Hlt Hi]|Hno].
  - exfalso. assert (forall j, (S j < n)%nat -> table_at (n - S j) va' s' = None) as Hnone.
    { induction j as [|j IH]; intros Hj.
      - rewrite table_at_S by lia. replace (S (n - 1)) with n by lia. rewrite (proj2 (write_at va' Hi)). simpl. by rewrite Hx.
      - rewrite table_at_S by lia. replace (S (n - S (S j))) with (n - S j)%nat by lia. unfold entry.
        by rewrite IH by lia. }
    specialize (Hnone (n - m - 1)%nat ltac:(lia)). replace (n - S (n - m - 1))%nat with m in Hnone by lia. congruence.
  - by rewrite write_table in Ht by done.
Qed.

Lemma write_leaf :
  present x && negb (isPage n x) = false -> (n < 4)%nat \/ present x = false ->
  (present x = true -> addr_of x mod psz n = 0) -> pt_inv s'.
Proof.
  intros Hx H4 Hal. constructor.
  - apply Hs.
  - unfold s'. rewrite rd_wr, decide_False by (apply not_eq_sym, write_rec). apply Hs.
  - intros va' pe He Hp. destruct (decide (plain_slot va')) as [Hva'|Hrec].
    + destruct (decide (n = 4%nat /\ same_idx n va va')) as [[E Hi]|Hno].
      * rewrite <- E in He. rewrite (proj2 (write_at va' Hi)) in He. injection He as <-. destruct H4; [lia|congruence].
      * rewrite write_entry in He; [by eapply (pi_top _ Hs)|lia|done|]. intros [? ?]. apply Hno. split; [lia|done].
    + unfold entry in He. rewrite table_at_4 in He. simpl in He. injection He as <-.
      assert (pageIndex 4 va' = recptindex) as Hr by (destruct (decide (pageIndex 4 va' = recptindex)); [done|contradiction]).
      change (cr3 s') with (cr3 s) in *. unfold s' in *. rewrite Hr in *. rewrite rd_wr in Hp |- *.
      rewrite decide_False in Hp |- * by (apply not_eq_sym, write_rec).
      apply (pi_top _ Hs va'); [|done]. unfold entry. rewrite table_at_4. simpl. by rewrite Hr.
  - intros m m' u u' c Hm Hm' Hu Hu' E E'. apply write_leaf_table in E as [E _]; [|done..].
    apply write_leaf_table in E' as [E' _]; [|done..]. by eapply (pi_tree _ Hs).
  - intros m u c Hm Hu E. apply write_leaf_table in E as [E _]; [|done..]. by eapply (pi_used _ Hs m u).
  - intros m u pe Hm Hu He Hp Hi. destruct (decide ((m <= n)%nat /\ same_idx n va u)) as [[Hle Hsi]|Hno].
    + destruct (decide (m = n)) as [->|].
      * rewrite (proj2 (write_at u Hsi)) in He. injection He as <-. auto.
      * apply entry_Some in He as (c & Hc & ->). apply write_leaf_table in Hc as [_ Hc]; try done. destruct Hc. split; [lia|done].
    + rewrite write_entry in He by done. by eapply (pi_page _ Hs).
  - apply Hs.
Qed.
End write.

(** ** Tables made on demand *)
(** [s'] has more tables, which map nothing, in frames that were free *)
Record grows (s s' : pstate F) : Prop := {
  gr_cr3 : cr3 s' = cr3 s;
  gr_keep m va pe : (1 <= m <= 4)%nat -> plain_slot va -> entry m va s = Some pe -> pe <> 0 -> entry m va s' = Some pe;
  gr_new m va pe : (1 <= m <= 4)%nat -> plain_slot va -> entry m va s' = Some pe -> pe <> 0 ->
    entry m va s = Some pe \/ present pe = true /\ isPage m pe = false;
  gr_table m va b : (1 <= m <= 4)%nat -> plain_slot va -> table_at m va s' = Some b ->
    table_at m va s = Some b \/ fa_free (pframes s) (b / 4096) = true;
  gr_mem a : fa_free (pframes s) (a / 4096) = false ->
    (forall m va b, (1 <= m <= 4)%nat -> plain_slot va -> table_at m va s = Some b -> a / 4096 <> b / 4096) -> rd s' a = rd s a;
  gr_free i : fa_free (pframes s') i = true -> fa_free (pframes s) i = true
}.

Lemma grows_refl s : grows s s.
Proof. constructor; auto. Qed.

Lemma grows_trans s1 s2 s3 : grows s1 s2 -> grows s2 s3 -> grows s1 s3.
Proof.
  intros H12 H23. constructor.
  - rewrite (gr_cr3 _ _ H23). apply H12.
  - intros. apply (gr_keep _ _ H23); auto. by apply (gr_keep _ _ H12).
  - intros m va pe Hm Hva He Hz. destruct (gr_new _ _ H23 _ _ _ Hm Hva He Hz) as [He'|?]; [|by right].
    by apply (gr_new _ _ H12).
  - intros m va b Hm Hva Hb. destruct (gr_table _ _ H23 _ _ _ Hm Hva Hb) as [Hb'|Hf]; [by apply (gr_table _ _ H12)|].
    right. by apply (gr_free _ _ H12).
  - intros a Ha Hno. rewrite (gr_mem _ _ H23); [by apply (gr_mem _ _ H12)| |].
    + destruct (fa_free (pframes s2) (a / 4096)) eqn:E; [|done]. apply (gr_free _ _ H12) in E. congruence.
    + intros m va b Hm Hva Hb E. destruct (gr_table _ _ H12 _ _ _ Hm Hva Hb) as [Hb'|Hf]; [by eapply Hno|].
      rewrite <- E in Hf. congruence.
  - intros i Hi. by apply (gr_free _ _ H12), (gr_free _ _ H23).
Qed.

Lemma present_0 : present 0 = false.
Proof. done. Qed.

(** a walk that ends in a page ends there after the tables have grown *)
Lemma grows_walk s s' va n : grows s s' -> plain_slot va -> (1 <= n <= 4)%nat ->
  forall b', table_at n va s' = Some b' ->
  walk n b' va s' = match table_at n va s with Some b => walk n b va s | None => None end.
Proof.
  intros Hg Hva. induction n as [|n IH]; [lia|]. intros Hn b' Hb'. cbn [walk].
  set (pe := rd s' (b' + 8 * pageIndex (S n) va)).
  assert (entry (S n) va s' = Some pe) as He' by (unfold entry; by rewrite Hb').
  assert (forall pe0, entry (S n) va s = Some pe0 -> pe0 <> 0 -> pe0 = pe) as Hkeep.
  { intros pe0 He0 Hz. apply (gr_keep _ _ Hg) in He0; [|done..]. congruence. }
  assert (present pe = true -> isPage (S n) pe = false -> (1 <= n)%nat -> table_at n va s' = Some (addr_of pe)) as Hdown.
  { intros Hp Hi Hn1. rewrite table_at_S by lia. rewrite He'. simpl. by rewrite Hp, Hi. }
  assert (isPage (S n) pe = false -> n <> 0%nat) as Hn0 by (intros Hi ->; by rewrite isPage_eq in Hi).
  destruct (table_at (S n) va s) as [b|] eqn:Hb.
  - set (pe0 := rd s (b + 8 * pageIndex (S n) va)) in *.
    assert (entry (S n) va s = Some pe0) as He by (unfold entry; by rewrite Hb).
    destruct (decide (pe0 = 0)) as [Hz|Hz].
    + rewrite Hz, present_0. destruct (present pe) eqn:Hp; [|done].
      destruct (decide (pe = 0)) as [Hz'|Hz']; [by rewrite Hz' in Hp|].
      destruct (gr_new _ _ Hg (S n) va pe Hn Hva He' Hz') as [E|[_ Hi]]; [congruence|]. rewrite Hi.
      specialize (Hn0 Hi). rewrite (IH ltac:(lia) _ (Hdown eq_refl Hi ltac:(lia))).
      rewrite table_at_S by lia. rewrite He. simpl. by rewrite Hz.
    + rewrite (Hkeep _ He Hz). destruct (present pe) eqn:Hp; [|done]. destruct (isPage (S n) pe) eqn:Hi; [done|].
      specialize (Hn0 eq_refl). rewrite (IH ltac:(lia) _ (Hdown eq_refl eq_refl ltac:(lia))).
      rewrite table_at_S by lia. rewrite He. simpl. rewrite (Hkeep _ He Hz), Hp, Hi. done.
  - assert (entry (S n) va s = None) as He by (unfold entry; by rewrite Hb).
    destruct (present pe) eqn:Hp; [|done].
    destruct (decide (pe = 0)) as [Hz'|Hz']; [by rewrite Hz' in Hp|].
    destruct (gr_new _ _ Hg (S n) va pe Hn Hva He' Hz') as [E|[_ Hi]]; [congruence|]. rewrite Hi.
    specialize (Hn0 Hi). rewrite (IH ltac:(lia) _ (Hdown eq_refl Hi ltac:(lia))).
    rewrite table_at_S by lia. by rewrite He.
Qed.

Lemma grows_translate s s' va : grows s s' -> plain_slot va -> translate va s' = translate va s.
Proof.
  intros Hg Hva. unfold translate. destruct (is_canonical va); [|done].
  rewrite (grows_walk s s' va 4 Hg Hva ltac:(lia) (cr3 s') (table_at_4 va s')). by rewrite table_at_4.
Qed.

Lemma zero_range_rd pma size s (f : F) a :
  rd (mkPst (zero_range pma size (pmem s)) (cr3 s) f) a = if decide (a < pma \/ pma + size <= a) then rd s a else 0.
Proof.
  unfold rd, zero_range. simpl. case_decide as Hd.
  - destruct (pmem s !! a) as [x|] eqn:E.
    + by rewrite (map_lookup_filter_Some_2 _ _ a x) by done.
    + rewrite map_lookup_filter_None_2; [done|by left].
  - rewrite map_lookup_filter_None_2; [done|]. right. intros x _. simpl. done.
Qed.

Lemma table_frames f n va s : table_at n va (set_frames f s) = table_at n va s.
Proof.
  unfold table_at. induction (4 - n)%nat as [|k IH]; [done|]. cbn [table_down]. rewrite IH. by destruct (table_down k va s).
Qed.
Lemma entry_frames f n va s : entry n va (set_frames f s) = entry n va s.
Proof. unfold entry. rewrite table_frames. by destruct (table_at n va s). Qed.

(** fewer free frames *)
Lemma frames_inv s f : pt_inv s -> fa_ok f -> (forall i, fa_free f i = true -> fa_free (pframes s) i = true) ->
  pt_inv (set_frames f s).
Proof.
  intros Hs Hok Hf. constructor; [apply Hs|apply Hs|..].
  - intros va pe. rewrite entry_frames. by apply (pi_top _ Hs).
  - intros n n' va va' b Hn Hn' Hva Hva'. rewrite !table_frames. by apply (pi_tree _ Hs).
  - intros n va b Hn Hva. rewrite table_frames. intros Hb.
    destruct (fa_free (pframes (set_frames f s)) (b / 4096)) eqn:E; [|done].
    apply Hf in E. pose proof (pi_used _ Hs n va b Hn Hva Hb). congruence.
  - intros n va pe Hn Hva. rewrite entry_frames. by apply (pi_page _ Hs).
  - done.
Qed.

(** changes of memory that holds no table *)
Section elsewhere.
Context (s s' : pstate F) (Hs : pt_inv s) (Hcr : cr3 s' = cr3 s) (Hfr : pframes s' = pframes s).
Context (Hw : forall m va b i, (1 <= m <= 4)%nat -> plain_slot va -> table_at m va s = Some b -> 0 <= i < 512 ->
  rd s' (b + 8 * i) = rd s (b + 8 * i)).

Lemma elsewhere_table m va : (1 <= m <= 4)%nat -> plain_slot va -> table_at m va s' = table_at m va s.
Proof using Hcr Hw.
  intros Hm Hva. pattern m. apply levels_down; [by rewrite !table_at_4, Hcr|clear m Hm|done]. intros m Hm IH.
  rewrite !table_at_S by lia. unfold entry. rewrite IH. destruct (table_at (S m) va s) as [b|] eqn:Hb; [|done].
  cbn [mbind option_bind]. rewrite (Hw (S m) va b); [done|lia|done|done|]. apply pageIndex_bounds. lia.
Qed.

Lemma elsewhere_entry m va : (1 <= m <= 4)%nat -> plain_slot va -> entry m va s' = entry m va s.
Proof using Hcr Hw.
  intros Hm Hva. unfold entry. rewrite elsewhere_table by done. destruct (table_at m va s) as [b|] eqn:Hb; [|done].
  cbn [mbind option_bind]. rewrite (Hw m va b); [done..|]. by apply pageIndex_bounds.
Qed.

Lemma elsewhere_inv : pt_inv s'.
Proof using Hcr Hw Hs Hfr.
  assert (forall i, 0 <= i < 512 -> rd s' (cr3 s + 8 * i) = rd s (cr3 s + 8 * i)) as Hc.
  { intros i Hi. apply (Hw 4 0); [lia|by intros ?|done|done]. }
  constructor.
  - rewrite Hcr. apply Hs.
  - rewrite Hcr, Hc by (by change recptindex with 256). apply Hs.
  - intros va pe He. apply (pi_top _ Hs va). revert He. unfold entry. rewrite !table_at_4. simpl.
    rewrite Hcr, Hc; [done|]. apply pageIndex_bounds. lia.
  - intros m m' va va' b Hm Hm' Hva Hva'. rewrite !elsewhere_table by done. by apply (pi_tree _ Hs).
  - intros m va b Hm Hva. rewrite elsewhere_table, Hfr by done. by apply (pi_used _ Hs).
  - intros m va pe Hm Hva. rewrite elsewhere_entry by done. by apply (pi_page _ Hs).
  - rewrite Hfr. apply Hs.
Qed.
End elsewhere.

(** memory that holds no table is zeroed *)
Definition zeroed (pma size : Z) (s : pstate F) : pstate F := mkPst (zero_range pma size (pmem s)) (cr3 s) (pframes s).

Lemma zeroed_rd pma size s a : rd (zeroed pma size s) a = if decide (a < pma \/ pma + size <= a) then rd s a else 0.
Proof. apply zero_range_rd. Qed.

Section zero.
Context (s : pstate F) (pma size : Z) (Hs : pt_inv s).
Context (Hno : forall m va b a, (1 <= m <= 4)%nat -> plain_slot va -> table_at m va s = Some b ->
  b <= a < b + 4096 -> ~ (pma <= a < pma + size)).

Lemma zeroed_word m va b i : (1 <= m <= 4)%nat -> plain_slot va -> table_at m va s = Some b -> 0 <= i < 512 ->
  rd (zeroed pma size s) (b + 8 * i) = rd s (b + 8 * i).
Proof using Hno.
  intros Hm Hva Hb Hi. rewrite zeroed_rd. case_decide as Hd; [done|].
  destruct (Hno m va b (b + 8 * i) Hm Hva Hb); lia.
Qed.

Lemma zeroed_table m va : (1 <= m <= 4)%nat -> plain_slot va -> table_at m va (zeroed pma size s) = table_at m va s.
Proof using Hno. apply elsewhere_table; [done|apply zeroed_word]. Qed.
Lemma zeroed_entry m va : (1 <= m <= 4)%nat -> plain_slot va -> entry m va (zeroed pma size s) = entry m va s.
Proof using Hno. apply elsewhere_entry; [done|apply zeroed_word]. Qed.
Lemma zeroed_inv : pt_inv (zeroed pma size s).
Proof. by apply (elsewhere_inv s); try apply zeroed_word. Qed.
End zero.

(** frames that were free are taken and zeroed *)
Lemma take_tables s f size pma :
  pt_inv s -> fa_ok f -> pma mod 4096 = 0 -> size mod 4096 = 0 -> 0 < size ->
  (forall i, pma / 4096 <= i < (pma + size) / 4096 -> fa_free (pframes s) i = true) ->
  (forall i, fa_free f i = fa_free (pframes s) i && negb ((pma / 4096 <=? i) && (i <? (pma + size) / 4096))) ->
  let s' := zeroed pma size (set_frames f s) in
  pt_inv s' /\ grows s s' /\ (forall m va, (1 <= m <= 4)%nat -> plain_slot va -> entry m va s' = entry m va s).
Proof.
  intros Hs Hok Hpa Hsz Hpos Hfree Hf' s'.
  assert (forall i, fa_free f i = true -> fa_free (pframes s) i = true) as Hless.
  { intros i. rewrite Hf'. by intros [? _]%andb_true_iff. }
  pose proof (frames_inv s f Hs Hok Hless) as Hs1.
  assert (forall m va b a, (1 <= m <= 4)%nat -> plain_slot va -> table_at m va (set_frames f s) = Some b ->
    b <= a < b + 4096 -> ~ (pma <= a < pma + size)) as Hno.
  { intros m va b a Hm Hva Hb Ha Hin. destruct (table_aligned m va _ b Hs1 Hm Hb) as [Hal _].
    assert (a / 4096 = b / 4096) as E by (clear - Ha Hal; Z.to_euclidean_division_equations; lia).
    rewrite table_frames in Hb. pose proof (pi_used _ Hs m va b Hm Hva Hb) as Hu. rewrite Hfree in Hu; [done|]. rewrite <- E.
    clear - Hin Hpa Hsz. Z.to_euclidean_division_equations. lia. }
  assert (forall m va, (1 <= m <= 4)%nat -> plain_slot va -> entry m va s' = entry m va s) as He.
  { intros m va Hm Hva. unfold s'. rewrite zeroed_entry by done. apply entry_frames. }
  split; [by apply zeroed_inv|]. split; [|done]. constructor; try done.
  - intros. by rewrite He.
  - intros m va pe Hm Hva. rewrite He by done. by left.
  - intros m va b Hm Hva Hb. unfold s' in Hb. rewrite zeroed_table, table_frames in Hb by done. by left.
  - intros a Hu _. unfold s'. rewrite zeroed_rd. case_decide as Hd; [done|].
    rewrite Hfree in Hu; [done|]. clear - Hd Hpa Hsz. Z.to_euclidean_division_equations. lia.
Qed.

(** taking a frame does not touch the tables *)
Lemma alloc_tables n s s' pma :
  pt_inv s -> (1 <= n <= 2)%nat -> alloc_frame n s = Ok (pma, s') ->
  pt_inv s' /\ grows s s' /\ pma mod psz n = 0 /\ 0 <= pma /\ pma + psz n <= 2 ^ 51 /\
  (forall va m, (1 <= m <= 4)%nat -> plain_slot va -> entry m va s' = entry m va s) /\
  (forall a, pma <= a < pma + psz n -> rd s' a = 0) /\
  (forall i, pma / 4096 <= i < (pma + psz n) / 4096 ->
     fa_free (pframes s) i = true /\ fa_free (pframes s') i = false /\ fa_mine (pframes s') i = true).
Proof.
  intros Hs Hn Ha. unfold alloc_frame in Ha. pose proof (fa_alloc_law n (pframes s) (pi_ok _ Hs) Hn) as Hl.
  destruct (fa_alloc n (pframes s)) as [[p f]|] eqn:E; simpl in Ha; [|done]. injection Ha as -> <-.
  destruct Hl as (Hok & Hal & Hp0 & Htop & Hfree & Hf').
  assert (psz n mod 4096 = 0 /\ 0 < psz n) as [Hpz Hpp] by (destruct (decide (n = 1%nat)) as [->|]; [done|by replace n with 2%nat by lia]).
  assert (pma mod 4096 = 0) as Hpa.
  { destruct (decide (n = 1%nat)) as [->|]; [done|]. replace n with 2%nat in Hal by lia.
    change (psz 2) with (4096 * 512) in Hal. Z.to_euclidean_division_equations. lia. }
  destruct (take_tables s f (psz n) pma Hs Hok Hpa Hpz Hpp (fun i Hi => proj1 (Hfree i Hi)) Hf') as (Hs' & Hg & He).
  cbv zeta in *. split; [exact Hs'|]. split; [exact Hg|]. split_and!; try done.
  - intros va m. apply He.
  - intros a Hra. rewrite zero_range_rd, decide_False; [done|lia].
  - intros i Hi. split; [by apply Hfree|]. split; [|by apply Hfree]. simpl. rewrite Hf', (proj1 (Hfree i Hi)).
    destruct (Z.leb_spec (pma / 4096) i), (Z.ltb_spec i ((pma + psz n) / 4096)); try done; lia.
Qed.

(** an entry of level [S n] that points to the table [pma] *)
Definition table_link (n : nat) (pma x : Z) : Prop :=
  present x = true /\ addr_of x = pma /\ Z.testbit x 7 = false /\ isPage (S n) x = false /\ x <> 0.

Lemma link_entry n pma flags : (1 <= n < 4)%nat -> 0 <= pma < 2 ^ 51 -> pma mod 4096 = 0 -> flags = 3 \/ flags = 7 ->
  table_link n pma (Z.lor pma flags).
Proof.
  intros Hn Hp Hm Hfl. unfold table_link.
  destruct (make_entry pma flags) as [Ha Hbit]; [lia|tauto|intros i Hi; replace flags with (wrap 3 flags) by (by destruct Hfl as [-> | ->]);
    rewrite wrap_testbit by lia; destruct (Z.ltb_spec i 3); [lia|done]|].
  assert (Z.testbit flags 0 = true /\ Z.testbit flags 7 = false) as [Hf0 Hf7] by (by destruct Hfl as [-> | ->]).
  rewrite isPage_eq, present_eq. rewrite !Hbit by lia. rewrite Hf0, Hf7. split_and!; try done.
  - destruct (Nat.eqb_spec (S n) 1); [lia|]. by rewrite andb_false_r.
  - intros E. pose proof (Hbit 0 ltac:(lia)) as Hb0. rewrite E, Hf0 in Hb0. done.
Qed.

(** a fresh zeroed table [pma] is linked into the empty entry of level [S n] *)
Section link.
Context (s s2 : pstate F) (n : nat) (va b pma : Z).
Context (Hs2 : pt_inv s2) (Hg : grows s s2) (Hn : (1 <= n < 4)%nat) (Hva : plain_slot va).
Context (Hb : table_at (S n) va s2 = Some b) (Hz : rd s2 (b + 8 * pageIndex (S n) va) = 0).
Context (Hp : pma mod 4096 = 0 /\ 0 <= pma < 2 ^ 51).
Context (Hfs : fa_free (pframes s) (pma / 4096) = true) (Hfs2 : fa_free (pframes s2) (pma / 4096) = false).
Context (Hzero : forall a, pma <= a < pma + 4096 -> rd s2 a = 0).
Context (Hfresh : forall m va b, (1 <= m <= 4)%nat -> plain_slot va -> table_at m va s2 = Some b -> b <> pma).
Context (x : Z) (Hx : table_link n pma x).
Let s' := wr (b + 8 * pageIndex (S n) va) x s2.

Lemma link_away i : 0 <= i < 512 -> pma + 8 * i <> b + 8 * pageIndex (S n) va.
Proof using Hn Hva Hb Hp Hfresh Hs2.
  intros Hi E. apply (Hfresh (S n) va b); [lia|done|done|].
  destruct (table_aligned (S n) va s2 b Hs2 ltac:(lia) Hb) as [Hal _]. pose proof (pageIndex_bounds (S n) va ltac:(lia)).
  pose proof (proj1 Hp) as Hp1. clear - E H1 Hi Hal Hp1. Z.to_euclidean_division_equations. lia.
Qed.

Lemma link_fresh i : 0 <= i < 512 -> rd s' (pma + 8 * i) = 0.
Proof using Hn Hva Hb Hp Hfresh Hs2 Hzero.
  intros Hi. unfold s'. rewrite rd_wr, decide_False by (by apply link_away). apply Hzero. lia.
Qed.

(** the tables after the write *)
Lemma link_table m va' : (1 <= m <= 4)%nat -> plain_slot va' ->
  table_at m va' s' = if decide (m = n /\ same_idx (S n) va va') then Some pma else table_at m va' s2.
Proof.
  intros Hm Hva'. destruct Hx as (Hxp & Hxa & _ & Hxi & _).
  destruct (decide ((m < S n)%nat /\ same_idx (S n) va va')) as [[Hlt Hi]|Hno].
  - assert (table_at n va' s' = Some pma) as Ht.
    { rewrite table_at_S by lia. unfold s'. rewrite (proj2 (write_at s2 Hs2 (S n) va b x ltac:(lia) Hva Hb va' Hi)). simpl.
      by rewrite Hxp, Hxi, Hxa. }
    destruct (decide (m = n)) as [->|Hmn]; [by rewrite decide_True|]. rewrite decide_False by tauto.
    assert (forall j, (S j < n)%nat -> table_at (n - S j) va' s' = None /\ table_at (n - S j) va' s2 = None) as Hnone.
    { assert (table_at n va' s2 = None) as Hn2.
      { rewrite table_at_S by lia. rewrite <- (entry_idx (S n) va va') by (done || lia). unfold entry. rewrite Hb. simpl. by rewrite Hz. }
      induction j as [|j IH]; intros Hj.
      - rewrite !(table_at_S (n - 1)) by lia. replace (S (n - 1)) with n by lia. unfold entry. rewrite Ht, Hn2.
        cbn [mbind option_bind]. split; [|done]. by rewrite link_fresh by (apply pageIndex_bounds; lia).
      - rewrite !(table_at_S (n - S (S j))) by lia. replace (S (n - S (S j))) with (n - S j)%nat by lia. unfold entry.
        destruct (IH ltac:(lia)) as [-> ->]. done. }
    specialize (Hnone (n - m - 1)%nat ltac:(lia)). replace (n - S (n - m - 1))%nat with m in Hnone by lia.
    destruct Hnone. congruence.
  - rewrite decide_False by (intros [-> ?]; apply Hno; split; [lia|done]).
    apply (write_table s2 Hs2 (S n) va b); try done. lia.
Qed.

Lemma link_rd a : rd s' a = if decide (a = b + 8 * pageIndex (S n) va) then x else rd s2 a.
Proof. apply rd_wr. Qed.

Lemma link_entries m va' pe : (1 <= m <= 4)%nat -> plain_slot va' -> entry m va' s' = Some pe ->
  entry m va' s2 = Some pe \/ pe = 0 \/ m = S n /\ same_idx (S n) va va' /\ pe = x.
Proof.
  intros Hm Hva'. destruct (decide ((m <= S n)%nat /\ same_idx (S n) va va')) as [[Hle Hi]|Hno].
  - destruct (decide (m = S n)) as [->|Hne].
    + unfold s'. rewrite (proj2 (write_at s2 Hs2 (S n) va b x ltac:(lia) Hva Hb va' Hi)). intros [= <-]. auto.
    + unfold entry. rewrite link_table by done. case_decide as Hd.
      * cbn [mbind option_bind]. intros [= <-]. right. left. destruct Hd as [-> _].
        by apply link_fresh, pageIndex_bounds.
      * destruct (table_at m va' s2) as [c|] eqn:Hc; [|done]. cbn [mbind option_bind]. intros [= <-]. left. f_equal.
        rewrite link_rd. case_decide as Ed; [|done]. exfalso.
        destruct (write_alias s2 Hs2 (S n) va b ltac:(lia) Hva Hb m va' c Hm Hva' Hc Ed). lia.
  - unfold s'. rewrite (write_entry s2 Hs2 (S n) va b) by (done || lia). by left.
Qed.

Lemma link_keep m va' pe : (1 <= m <= 4)%nat -> plain_slot va' -> entry m va' s2 = Some pe -> pe <> 0 -> entry m va' s' = Some pe.
Proof.
  intros Hm Hva' He Hnz. destruct (decide ((m <= S n)%nat /\ same_idx (S n) va va')) as [[Hle Hi]|Hno].
  - exfalso. destruct (decide (m = S n)) as [->|Hne].
    + rewrite <- (entry_idx (S n) va va') in He by (done || lia). unfold entry in He. rewrite Hb in He. simpl in He. congruence.
    + assert (forall j, (j < n)%nat -> table_at (n - j) va' s2 = None) as Hnone.
      { induction j as [|j IH]; intros Hj.
        - rewrite Nat.sub_0_r, table_at_S by lia. rewrite <- (entry_idx (S n) va va') by (done || lia). unfold entry. rewrite Hb. simpl. by rewrite Hz.
        - rewrite table_at_S by lia. replace (S (n - S j)) with (n - j)%nat by lia. unfold entry. by rewrite IH by lia. }
      specialize (Hnone (n - m)%nat ltac:(lia)). replace (n - (n - m))%nat with m in Hnone by lia.
      unfold entry in He. by rewrite Hnone in He.
  - unfold s'. by rewrite (write_entry s2 Hs2 (S n) va b) by (done || lia).
Qed.

Lemma link_grows : grows s s'.
Proof.
  destruct Hx as (Hxp & Hxa & Hx7 & Hxi & Hx0). constructor.
  - apply (gr_cr3 _ _ Hg).
  - intros m u pe Hm Hu He Hnz. apply link_keep; try done. by apply (gr_keep _ _ Hg).
  - intros m u pe Hm Hu He Hnz. destruct (link_entries m u pe Hm Hu He) as [He'|[?|(-> & _ & ->)]]; [|done|by right].
    by apply (gr_new _ _ Hg).
  - intros m u c Hm Hu. rewrite link_table by done. case_decide; [intros [= <-]; by right|]. by apply (gr_table _ _ Hg).
  - intros a Ha Hno. rewrite link_rd. case_decide as Hd; [exfalso|by apply (gr_mem _ _ Hg)].
    pose proof (pageIndex_bounds (S n) va ltac:(lia)).
    destruct (table_aligned (S n) va s2 b Hs2 ltac:(lia) Hb) as [Hal _].
    assert (a / 4096 = b / 4096) as E by (clear - Hd H1 Hal; Z.to_euclidean_division_equations; lia).
    destruct (gr_table _ _ Hg (S n) va b ltac:(lia) Hva Hb) as [Hb'|Hf]; [by apply (Hno (S n) va b ltac:(lia) Hva Hb')|].
    rewrite <- E in Hf. congruence.
  - intros i. apply (gr_free _ _ Hg).
Qed.

Lemma link_inv : pt_inv s'.
Proof.
  destruct Hx as (Hxp & Hxa & Hx7 & Hxi & Hx0). constructor.
  - apply Hs2.
  - rewrite link_rd, decide_False; [apply Hs2|]. apply not_eq_sym, (write_rec s2 Hs2 (S n) va b); first [lia|done].
  - intros va' pe He Hpr. destruct (decide (plain_slot va')) as [Hva'|Hrec].
    + destruct (link_entries 4 va' pe ltac:(lia) Hva' He) as [He'|[->|(_ & _ & ->)]]; [|done|done]. by apply (pi_top _ Hs2 va').
    + assert (pageIndex 4 va' = recptindex) as Hr by (destruct (decide (pageIndex 4 va' = recptindex)); [done|contradiction]).
      apply (pi_top _ Hs2 va'); [|done]. rewrite <- He. unfold entry. rewrite !table_at_4. simpl. rewrite Hr.
      change (cr3 s') with (cr3 s2). rewrite link_rd, decide_False; [done|].
      apply not_eq_sym, (write_rec s2 Hs2 (S n) va b); first [lia|done].
  - intros m m' u u' c Hm Hm' Hu Hu'. rewrite !link_table by done.
    destruct (decide (m = n /\ same_idx (S n) va u)) as [[-> Hu1]|_], (decide (m' = n /\ same_idx (S n) va u')) as [[-> Hu2]|_]; intros Ht Ht'.
    + split; [done|]. intros k Hk. by rewrite <- (Hu1 k), <- (Hu2 k) by lia.
    + injection Ht as <-. exfalso. by eapply (Hfresh m' u').
    + injection Ht' as <-. exfalso. by eapply (Hfresh m u).
    + by eapply (pi_tree _ Hs2).
  - intros m u c Hm Hu. rewrite link_table by done. case_decide; [intros [= <-]; done|]. by apply (pi_used _ Hs2).
  - intros m u pe Hm Hu He Hpr Hi. destruct (link_entries m u pe Hm Hu He) as [He'|[->|(-> & _ & ->)]]; [|done|congruence].
    by apply (pi_page _ Hs2 m u).
  - apply Hs2.
Qed.
End link.

(** ** Accesses to entries *)
Lemma pageIndex_align l a : (1 <= l <= 4)%nat -> pageIndex l (a / 2 ^ 12 * 2 ^ 12) = pageIndex l a.
Proof.
  intros Hl. rewrite !pageIndex_eq by done. set (p := 2 ^ (9 * (Z.of_nat l - 1))).
  assert (0 < p) by (apply Z.pow_pos_nonneg; lia).
  assert (2 ^ (12 + 9 * (Z.of_nat l - 1)) = 2 ^ 12 * p) as -> by (unfold p; rewrite Z.pow_add_r by lia; done).
  assert (2 ^ (12 + 9 * Z.of_nat l) = 2 ^ 12 * (2 ^ 9 * p)) as ->
    by (unfold p; rewrite <- !Z.pow_add_r by lia; f_equal; lia).
  rewrite <- !Z.div_div by lia. rewrite !(Z.mul_comm (2 ^ 12)). rewrite Z.mul_mod_distr_r by lia.
  rewrite Z.div_mul by lia. f_equal. symmetry.
  rewrite (Z.mul_comm (2 ^ 9 * p)), Z.rem_mul_r by lia. rewrite Z.add_comm, (Z.mul_comm (2 ^ 12)), Z.div_add_l by lia.
  rewrite (Z.div_small (a mod 2 ^ 12)) by (apply Z.mod_pos_bound; lia). lia.
Qed.

Lemma accessPE_fault n va : (1 <= n < 4)%nat ->
  accessPE 1 (align_down 64 (accessPE n va) pagetableps) = accessPE (S n) va.
Proof.
  intros Hn. pose proof (accessPE_range n va ltac:(lia)) as Hr.
  change paging_start with (65535 * 2 ^ 48 + 256 * 2 ^ 39) in Hr.
  change paging_end with (65535 * 2 ^ 48 + 257 * 2 ^ 39) in Hr.
  change pagetableps with (2 ^ 12). rewrite align_down_eq by (unfold is_word; lia).
  set (y := accessPE n va / 2 ^ 12 * 2 ^ 12).
  assert (forall l, (1 <= l <= 4)%nat -> pageIndex l y = pageIndex l (accessPE n va)) as Hy by (intros; by apply pageIndex_align).
  rewrite !accessPE_dig by lia. cbv zeta.
  assert (forall l, (1 <= l)%nat -> (if (4 <? l + 1)%nat then recptindex else pageIndex (l + 1) y) =
    if (4 <? l + S n)%nat then recptindex else pageIndex (l + S n) va) as Hi.
  { intros l Hl. destruct (Nat.ltb_spec 4 (l + 1)).
    - destruct (Nat.ltb_spec 4 (l + S n)); [done|lia].
    - rewrite Hy by lia. rewrite pageIndex_accessPE by lia. by replace (l + 1 + n)%nat with (l + S n)%nat by lia. }
  rewrite !Hi by lia. do 2 f_equal. rewrite Hy, pageIndex_accessPE by lia.
  destruct (Nat.ltb_spec 4 (1 + n)); [lia|]. done.
Qed.

Lemma access_hit fuel va w s pa : translate va s = Some pa -> access fuel va w s = Ok (pa, s).
Proof. intros E. destruct fuel; simpl; by rewrite E. Qed.

Lemma land_pow2 x k : 0 <= k -> Z.land x (2 ^ k) = if Z.testbit x k then 2 ^ k else 0.
Proof.
  intros Hk. apply word_eq_testbit. intros i Hi. rewrite Z.land_spec, pow2_testbit by done.
  destruct (Z.eqb_spec i k) as [->|Hne].
  - destruct (Z.testbit x k); rewrite ?pow2_testbit, ?Z.eqb_refl, ?Z.testbit_0_l by done; done.
  - rewrite andb_false_r. destruct (Z.testbit x k); [|by rewrite Z.testbit_0_l].
    rewrite pow2_testbit by done. by destruct (Z.eqb_spec i k).
Qed.

(** what an access to the level-[n] entry of [va] does *)
Definition access_ok (n : nat) (va : Z) (s : pstate F) (r : res (Z * pstate F)) : Prop :=
  match r with
  | Err e => e = Aborted
  | Ok (ea, s') => pt_inv s' /\ grows s s' /\ clear_path n va s' /\
      exists b, table_at n va s' = Some b /\ ea = b + 8 * pageIndex n va /\
        (table_at n va s = Some b /\ s' = s \/ table_at n va s = None /\ rd s' ea = 0)
  end.

Lemma clear_path_ext n va s s' :
  (forall m, (n < m <= 4)%nat -> entry m va s' = entry m va s) -> clear_path n va s -> clear_path n va s'.
Proof. intros He Hc m pe Hm. rewrite He by done. by apply Hc. Qed.

(** one page fault in the page table region *)
Lemma fault_spec n va w s f :
  (1 <= n < 4)%nat -> pt_inv s -> plain_slot va -> clear_path n va s -> table_at n va s = None ->
  (forall s1, pt_inv s1 -> clear_path (S n) va s1 -> access_ok (S n) va s1 (access f (accessPE (S n) va) true s1)) ->
  match mapTable_by (access f) 1 (accessPE n va) (if w : bool then bs_mask pff_WR else 0) s with
  | Err e => e = Aborted
  | Ok (ok, s3) => ok = true /\ pt_inv s3 /\ grows s s3 /\ clear_path n va s3 /\
      exists b, table_at n va s3 = Some b /\ rd s3 (b + 8 * pageIndex n va) = 0
  end.
Proof.
  intros Hn Hs Hva Hc Hnone IH. unfold mapTable_by.
  assert (kassert ((((if w then bs_mask pff_WR else 0) =? 0)) || ((if w then bs_mask pff_WR else 0) =? bs_mask pff_WR)) = Ok tt) as -> by by destruct w.
  cbn [mbind res_bind]. destruct (alloc_frame 1 s) as [[pma s1]|e] eqn:Ea; cbn [mbind res_bind].
  2:{ unfold alloc_frame in Ea. pose proof (fa_alloc_law 1 (pframes s) (pi_ok _ Hs) ltac:(lia)) as Hl.
      destruct (fa_alloc 1 (pframes s)) as [[? ?]|]; [discriminate Ea|injection Ea as <-; exact Hl]. }
  destruct (alloc_tables 1 s s1 pma Hs ltac:(lia) Ea) as (Hs1 & Hg1 & Hal & Hp0 & Htop & He1 & Hz1 & Hf1).
  change (psz 1) with 4096 in *.
  set (vma := align_down 64 (accessPE n va) pagetableps).
  unfold mapInternal_by.
  assert (aligned 64 vma (psz 1) = true) as Hvma.
  { change (psz 1) with (2 ^ 12). rewrite aligned_spec by lia. apply Z.eqb_eq. unfold vma. change pagetableps with (2 ^ 12).
    pose proof (accessPE_range n va ltac:(lia)) as Hr. change paging_start with (65535 * 2 ^ 48 + 256 * 2 ^ 39) in Hr.
    change paging_end with (65535 * 2 ^ 48 + 257 * 2 ^ 39) in Hr.
    rewrite align_down_eq by (unfold is_word; lia). apply Z.mod_mul. lia. }
  rewrite Hvma. cbn [kassert mbind res_bind]. unfold casPE_by, vma. rewrite accessPE_fault by done.
  assert (clear_path (S n) va s1) as Hc1.
  { apply (clear_path_ext _ _ s); [|intros m pe Hm; apply Hc; lia]. intros m Hm. apply He1; [lia|done]. }
  specialize (IH s1 Hs1 Hc1). destruct (access f (accessPE (S n) va) true s1) as [[ea s2]|e]; cbn [mbind res_bind]; [|done].
  destruct IH as (Hs2 & Hg2 & Hc2 & b & Hb & -> & Hor).
  assert (rd s2 (b + 8 * pageIndex (S n) va) = 0) as Hz.
  { destruct Hor as [[Hb1 ->]|[_ Hz]]; [|done].
    assert (entry (S n) va s = Some (rd s1 (b + 8 * pageIndex (S n) va))) as He.
    { rewrite <- He1 by (done || lia). unfold entry. by rewrite Hb1. }
    destruct (Hc (S n) _ ltac:(lia) He) as [|[Hp Hi]]; [done|]. exfalso.
    rewrite table_at_S, He in Hnone by lia. simpl in Hnone. by rewrite Hp, Hi in Hnone. }
  rewrite Hz. cbn [mbind res_bind Z.eqb mret res_ret].
  destruct (Hf1 (pma / 4096)) as (Hfs & Hfs1 & _); [Z.to_euclidean_division_equations; lia|].
  assert (fa_free (pframes s2) (pma / 4096) = false) as Hfs2.
  { destruct (fa_free (pframes s2) (pma / 4096)) eqn:E; [|done]. apply (gr_free _ _ Hg2) in E. congruence. }
  assert (forall m u c, (1 <= m <= 4)%nat -> plain_slot u -> table_at m u s1 = Some c -> c / 4096 <> pma / 4096) as Hno1.
  { intros m u c Hm Hu Hcm E. assert (same_entries u s s1) as Hse by (split; [apply Hg1|auto]).
    rewrite (same_entries_table u s s1 m Hse Hm) in Hcm. pose proof (pi_used _ Hs m u c Hm Hu Hcm). congruence. }
  assert (forall a, pma <= a < pma + 4096 -> rd s2 a = 0) as Hzero.
  { intros a Ha. assert (a / 4096 = pma / 4096) as Ea' by (clear - Ha Hal; Z.to_euclidean_division_equations; lia).
    rewrite (gr_mem _ _ Hg2); [by apply Hz1|by rewrite Ea'|]. intros m u c Hm Hu Hcm. rewrite Ea'. apply not_eq_sym. by eapply Hno1. }
  assert (forall m u c, (1 <= m <= 4)%nat -> plain_slot u -> table_at m u s2 = Some c -> c <> pma) as Hfresh.
  { intros m u c Hm Hu Hcm ->. destruct (gr_table _ _ Hg2 m u pma Hm Hu Hcm) as [Hcs|Hcf]; [by apply (Hno1 m u pma Hm Hu Hcs)|congruence]. }
  assert (grows s s2) as Hg by (by eapply grows_trans).
  set (s3 := wr _ _ s2).
  set (x := Z.lor (Z.lor pma pt_PageTable) pt_User) in *.
  assert (table_link n pma x) as Hl by (unfold x; rewrite <- Z.lor_assoc; apply link_entry; auto; lia).
  pose proof (link_inv s2 n va b pma Hs2 ltac:(lia) Hva Hb Hz ltac:(lia) Hfs2 Hzero Hfresh x Hl) as Hs3.
  pose proof (link_grows s s2 n va b pma Hs2 Hg ltac:(lia) Hva Hb Hz ltac:(lia) Hfs Hzero Hfresh x Hl) as Hg3.
  pose proof Hl as (Hxp & Hxa & Hx7 & Hxi & Hx0).
  fold s3 in Hs3, Hg3.
  destruct (write_at s2 Hs2 (S n) va b x ltac:(lia) Hva Hb va ltac:(by intros ? ?)) as [Hb3 He3]. fold s3 in Hb3, He3.
  assert (clear_path (S n) va s3) as Hc3.
  { apply (clear_path_ext _ _ s2); [|done]. intros m Hm. apply (write_entry s2 Hs2 (S n) va b x); (done || lia). }
  unfold checkMapping_by, getPE_by. rewrite accessPE_fault by done.
  rewrite (access_hit f _ false s3 (b + 8 * pageIndex (S n) va))
    by (rewrite translate_PE by (done || lia); by rewrite Hb3).
  cbn [mbind res_bind].
  assert (rd s3 (b + 8 * pageIndex (S n) va) = x) as -> by (unfold s3; by rewrite rd_wr, decide_True).
  assert (Z.land x (bs_mask pe_P) = 1) as Hx1.
  { change (bs_mask pe_P) with (2 ^ 0). rewrite land_pow2 by lia. by rewrite <- present_eq, Hxp. }
  assert ((Z.land x (if w then bs_mask pff_WR else 0) =?
    Z.land (Z.lor (bs_mask pe_RW) (bs_mask pe_US)) (if w then bs_mask pff_WR else 0)) = true) as Hxw.
  { destruct w; [|by rewrite !Z.land_0_r]. change (bs_mask pff_WR) with (2 ^ 1). rewrite !land_pow2 by lia.
    assert (Z.testbit x 1 = true) as ->; [|done]. unfold x. rewrite !Z.lor_spec. change (Z.testbit pt_PageTable 1) with true. by rewrite orb_true_r. }
  cbn [mbind res_bind mret res_ret]. rewrite Hx1, Hxw. cbn [negb andb Z.eqb kassert mbind res_bind].
  split; [done|]. split; [done|]. split; [done|]. split.
  - intros m pe Hm He. destruct (decide (m = S n)) as [->|]; [|apply (Hc3 m); [lia|done]].
    rewrite He3 in He. injection He as <-. right. done.
  - exists pma. pose proof (link_table s2 n va b pma Hs2 ltac:(lia) Hva Hb Hz ltac:(lia) Hzero Hfresh x Hl n va ltac:(lia) Hva) as Ht.
    rewrite decide_True in Ht by done. split; [exact Ht|].
    apply (link_fresh s2 n va b pma); try done; [lia..|]. apply pageIndex_bounds. lia.
Qed.

Lemma access_spec n va : (1 <= n <= 4)%nat -> plain_slot va ->
  forall fuel w s, (4 - n <= fuel)%nat -> pt_inv s -> clear_path n va s -> access_ok n va s (access fuel (accessPE n va) w s).
Proof.
  intros Hn Hva. pattern n. apply levels_down; [|clear n Hn|done].
  - intros fuel w s _ Hs Hc. rewrite (access_hit _ _ _ _ (cr3 s + 8 * pageIndex 4 va)) by (by rewrite translate_PE by (done || lia)).
    simpl. split; [done|]. split; [apply grows_refl|]. split; [done|]. exists (cr3 s). auto.
  - intros n Hn IH fuel w s Hf Hs Hc. pose proof (translate_PE n va s Hs ltac:(lia) Hc) as Ht.
    destruct (table_at n va s) as [b|] eqn:Hb; simpl in Ht.
    + rewrite (access_hit _ _ _ _ _ Ht). simpl. split; [done|]. split; [apply grows_refl|]. split; [done|]. exists b. auto.
    + destruct fuel as [|f]; [lia|]. cbn [access]. rewrite Ht.
      pose proof (accessPE_range n va ltac:(lia)) as [Hr1 Hr2].
      rewrite (proj2 (Z.leb_le _ _) Hr1), (proj2 (Z.ltb_lt _ _) Hr2). cbn [andb].
      pose proof (fault_spec n va w s f Hn Hs Hva Hc Hb) as Hfs.
      destruct (mapTable_by (access f) 1 (accessPE n va) (if w then bs_mask pff_WR else 0) s) as [[ok s3]|e]; cbn [mbind res_bind].
      * destruct Hfs as (-> & Hs3 & Hg3 & Hc3 & b & Hb3 & Hz3); [intros; apply IH; (done || lia)|].
        rewrite (access_hit _ _ _ _ (b + 8 * pageIndex n va)) by (rewrite translate_PE by (done || lia); by rewrite Hb3).
        simpl. split; [done|]. split; [done|]. split; [done|]. exists b. auto.
      * simpl. apply Hfs. intros; apply IH; (done || lia).
Qed.

(** ** Pages *)
(** a value that is not a link to a table *)
Definition leaf (n : nat) (x : Z) : Prop :=
  present x && negb (isPage n x) = false /\ (present x = true -> (n < 4)%nat /\ addr_of x mod psz n = 0).

Lemma write_leaf_inv s n va b x : pt_inv s -> (1 <= n <= 4)%nat -> plain_slot va -> table_at n va s = Some b ->
  leaf n x -> pt_inv (wr (b + 8 * pageIndex n va) x s).
Proof.
  intros Hs Hn Hva Hb [Hx Hl]. apply write_leaf; try done.
  - destruct (present x); [left; by apply Hl|by right].
  - intros Hp. by apply Hl.
Qed.

Lemma psz_pos n : (1 <= n <= 4)%nat -> 0 < psz n.
Proof. intros. rewrite psz_eq by done. apply Z.pow_pos_nonneg; lia. Qed.

Lemma pageoffset_psz n va : (1 <= n <= 4)%nat -> pageoffset (Z.of_nat n) va = va mod psz n.
Proof. intros. unfold psz. apply pageoffset_eq. lia. Qed.

(** the addresses behind the entry after the write, and the others *)
Lemma leaf_translate s n va b x va' :
  pt_inv s -> (1 <= n <= 4)%nat -> plain_slot va -> table_at n va s = Some b -> leaf n x -> plain_slot va' ->
  is_canonical va' = true ->
  translate va' (wr (b + 8 * pageIndex n va) x s) =
    if decide (same_idx n va va') then if present x then Some (addr_of x + va' mod psz n) else None
    else translate va' s.
Proof.
  intros Hs Hn Hva Hb [Hx Hl] Hva' Hcan. case_decide as Hi.
  - unfold translate. rewrite Hcan. destruct (write_at s Hs n va b x Hn Hva Hb va' Hi) as [Ht He].
    rewrite (walk_table n va' _ b Hn Ht). destruct n as [|n]; [lia|]. cbn [walk].
    unfold entry in He. rewrite Ht in He. simpl in He. injection He as He. rewrite He.
    destruct (present x) eqn:Hp; [|done]. apply negb_false_iff in Hx. rewrite Hx.
    destruct Hl as [_ Hal]; [done|]. pose proof (psz_pos (S n) Hn). rewrite pageoffset_psz by done.
    do 2 f_equal. pose proof (Z.div_mod (addr_of x) (psz (S n)) ltac:(lia)). lia.
  - apply same_entries_translate. by apply write_other.
Qed.

(** canonical addresses with the same indices are in the same page *)
Lemma canonical_split va : is_word 64 va -> is_canonical va = true ->
  va = va mod 2 ^ 48 + (if pageIndex 4 va <? 256 then 0 else 2 ^ 64 - 2 ^ 48).
Proof.
  unfold is_word, is_canonical. intros Hw Hc. rewrite pageIndex_eq by lia. change (12 + 9 * Z.of_nat 4) with 48.
  change (12 + 9 * (Z.of_nat 4 - 1)) with 39. apply orb_true_iff in Hc as [Hc|Hc].
  - apply Z.ltb_lt in Hc. rewrite Z.mod_small by lia.
    destruct (Z.ltb_spec (va / 2 ^ 39) 256); [lia|]. Z.to_euclidean_division_equations. lia.
  - apply Z.leb_le in Hc. assert (va mod 2 ^ 48 = va - (2 ^ 64 - 2 ^ 48)) as ->.
    { symmetry. apply Z.mod_unique with 65535; lia. }
    destruct (Z.ltb_spec ((va - (2 ^ 64 - 2 ^ 48)) / 2 ^ 39) 256); [|lia]. Z.to_euclidean_division_equations. lia.
Qed.

Lemma same_idx_page n va va' :
  (1 <= n <= 4)%nat -> is_word 64 va -> is_word 64 va' -> is_canonical va = true -> is_canonical va' = true ->
  same_idx n va va' <-> va / psz n = va' / psz n.
Proof.
  intros Hn Hw Hw' Hc Hc'. split.
  - intros Hi. rewrite (canonical_split va), (canonical_split va') by done. rewrite (Hi 4%nat) by lia.
    rewrite !digits, psz_eq by done.
    assert (forall v d, (2 ^ (12 + 9 * (Z.of_nat n - 1)) | d) ->
      (v + d) / 2 ^ (12 + 9 * (Z.of_nat n - 1)) = v / 2 ^ (12 + 9 * (Z.of_nat n - 1)) + d / 2 ^ (12 + 9 * (Z.of_nat n - 1))) as Hdiv.
    { intros v d [k ->]. assert (0 < 2 ^ (12 + 9 * (Z.of_nat n - 1))) by (apply Z.pow_pos_nonneg; lia).
      rewrite Z.div_add, Z.div_mul by lia. done. }
    assert ((2 ^ (12 + 9 * (Z.of_nat n - 1)) | if pageIndex 4 va' <? 256 then 0 else 2 ^ 64 - 2 ^ 48)) as Hd.
    { case_match; [apply Z.divide_0_r|]. exists (65535 * 2 ^ (48 - (12 + 9 * (Z.of_nat n - 1)))).
      rewrite <- Z.mul_assoc, <- Z.pow_add_r by lia. by rewrite Z.sub_add. }
    rewrite !Hdiv by done. f_equal. unfold dig.
    pose proof (pageIndex_bounds 1 va ltac:(lia)). pose proof (pageIndex_bounds 1 va' ltac:(lia)).
    pose proof (pageIndex_bounds 2 va ltac:(lia)). pose proof (pageIndex_bounds 2 va' ltac:(lia)).
    pose proof (pageIndex_bounds 3 va ltac:(lia)). pose proof (pageIndex_bounds 3 va' ltac:(lia)).
    assert (0 <= va mod 4096 < 4096) by (by apply Z.mod_pos_bound). assert (0 <= va' mod 4096 < 4096) by (by apply Z.mod_pos_bound).
    assert (forall q r r' P, 0 <= r < P -> 0 <= r' < P -> (q * P + r) / P = (q * P + r') / P) as Hq.
    { intros q r r' P Hr Hr'. rewrite !Z.div_add_l by lia. by rewrite !Z.div_small by done. }
    rewrite (Hi 4%nat) by lia.
    destruct (levels_cases n Hn) as [->|[->|[->| ->]]]; rewrite ?(Hi 3%nat), ?(Hi 2%nat), ?(Hi 1%nat) by lia.
    + change (2 ^ (12 + 9 * (Z.of_nat 1 - 1))) with 4096.
      transitivity (((pageIndex 4 va' * 2 ^ 27 + pageIndex 3 va' * 2 ^ 18 + pageIndex 2 va' * 2 ^ 9 + pageIndex 1 va') * 4096 + va mod 4096) / 4096);
        [f_equal; lia|]. rewrite (Hq _ _ (va' mod 4096)) by done. f_equal. lia.
    + change (2 ^ (12 + 9 * (Z.of_nat 2 - 1))) with (2 ^ 21).
      transitivity (((pageIndex 4 va' * 2 ^ 18 + pageIndex 3 va' * 2 ^ 9 + pageIndex 2 va') * 2 ^ 21 + (pageIndex 1 va * 2 ^ 12 + va mod 4096)) / 2 ^ 21);
        [f_equal; lia|]. rewrite (Hq _ _ (pageIndex 1 va' * 2 ^ 12 + va' mod 4096)) by lia. f_equal. lia.
    + change (2 ^ (12 + 9 * (Z.of_nat 3 - 1))) with (2 ^ 30).
      transitivity (((pageIndex 4 va' * 2 ^ 9 + pageIndex 3 va') * 2 ^ 30 + (pageIndex 2 va * 2 ^ 21 + pageIndex 1 va * 2 ^ 12 + va mod 4096)) / 2 ^ 30);
        [f_equal; lia|]. rewrite (Hq _ _ (pageIndex 2 va' * 2 ^ 21 + pageIndex 1 va' * 2 ^ 12 + va' mod 4096)) by lia. f_equal. lia.
    + change (2 ^ (12 + 9 * (Z.of_nat 4 - 1))) with (2 ^ 39).
      rewrite <- !Z.add_assoc. rewrite (Hq _ _ (pageIndex 3 va' * 2 ^ 30 + (pageIndex 2 va' * 2 ^ 21 + (pageIndex 1 va' * 2 ^ 12 + va' mod 4096)))) by lia. done.
  - intros E m Hm. rewrite !pageIndex_eq by lia. rewrite psz_eq in E by done.
    set (k := 12 + 9 * (Z.of_nat n - 1)) in *. set (j := 12 + 9 * (Z.of_nat m - 1)).
    replace (12 + 9 * Z.of_nat m) with (j + 9) by lia.
    assert (forall v, (v mod 2 ^ (j + 9)) / 2 ^ j = (v / 2 ^ k / 2 ^ (j - k)) mod 2 ^ 9) as Hv.
    { intros v. assert (0 < 2 ^ k /\ 0 < 2 ^ (j - k) /\ 0 < 2 ^ j) as (? & ? & ?) by (split_and!; apply Z.pow_pos_nonneg; lia).
      rewrite Z.div_div, <- Z.pow_add_r by lia. replace (k + (j - k)) with j by lia.
      rewrite Z.pow_add_r, Z.rem_mul_r by lia.
      rewrite Z.mul_comm, Z.add_comm, Z.div_add_l by lia.
      rewrite (Z.div_small (v mod 2 ^ j)) by (apply Z.mod_pos_bound; lia). lia. }
    by rewrite !Hv, E.
Qed.

(** an access followed by a write of a leaf: the state [s'] maps [mapping] in
    the page and what [s] maps elsewhere *)
Definition remapped (n : nat) (vma : Z) (mapping : option Z) (s s' : pstate F) : Prop :=
  pt_inv s' /\ forall va, plain_slot va -> is_word 64 va -> is_canonical va = true ->
    translate va s' = if decide (va / psz n = vma / psz n) then mapping ≫= fun pma => Some (pma + va mod psz n)
                      else translate va s.

Lemma leaf_remapped n vma b x s s1 :
  pt_inv s1 -> grows s s1 -> (1 <= n <= 4)%nat -> plain_slot vma -> is_word 64 vma -> is_canonical vma = true ->
  table_at n vma s1 = Some b -> leaf n x ->
  remapped n vma (if present x then Some (addr_of x) else None) s (wr (b + 8 * pageIndex n vma) x s1).
Proof.
  intros Hs1 Hg Hn Hva Hw Hc Hb Hl. split; [by apply write_leaf_inv|]. intros va Hp Hwa Hca.
  rewrite (leaf_translate s1 n vma b x va) by done. destruct (same_idx_page n vma va Hn Hw Hwa Hc Hca) as [H1 H2].
  destruct (decide (same_idx n vma va)) as [Hi|Hi].
  - rewrite decide_True by (symmetry; by apply H1). by destruct (present x).
  - rewrite decide_False by (intros E; apply Hi, H2; done). by apply grows_translate.
Qed.

Lemma grows_remapped n vma s s1 mapping :
  pt_inv s1 -> grows s s1 ->
  (forall va, plain_slot va -> is_word 64 va -> is_canonical va = true -> va / psz n = vma / psz n ->
     translate va s = mapping ≫= fun pma => Some (pma + va mod psz n)) ->
  remapped n vma mapping s s1.
Proof.
  intros Hs1 Hg Hm. split; [done|]. intros va Hp Hw Hc. rewrite (grows_translate s s1) by done.
  case_decide; [by apply Hm|done].
Qed.

(** the entry that [mapInternal] and [unmap] find *)
Definition old_entry (n : nat) (vma : Z) (s : pstate F) : Z := default 0 (entry n vma s).

Lemma access_old n vma w s :
  pt_inv s -> (1 <= n <= 4)%nat -> plain_slot vma -> clear_path n vma s ->
  match access pe_fuel (accessPE n vma) w s with
  | Err e => e = Aborted
  | Ok (ea, s1) => pt_inv s1 /\ grows s s1 /\ clear_path n vma s1 /\
      exists b, table_at n vma s1 = Some b /\ ea = b + 8 * pageIndex n vma /\ rd s1 ea = old_entry n vma s
  end.
Proof.
  intros Hs Hn Hva Hc. pose proof (access_spec n vma Hn Hva pe_fuel w s ltac:(unfold pe_fuel; lia) Hs Hc) as Ha.
  destruct (access pe_fuel (accessPE n vma) w s) as [[ea s1]|]; simpl in Ha; [|done].
  destruct Ha as (Hs1 & Hg & Hc1 & b & Hb & -> & Hor). split; [done|]. split; [done|]. split; [done|].
  exists b. split; [done|]. split; [done|]. unfold old_entry, entry. destruct Hor as [[Hb' ->]|[Hb' Hz]]; by rewrite Hb'.
Qed.


(** page types: present, and no address bits *)
Definition page_type (type : Z) : Prop :=
  Z.testbit type 0 = true /\ forall i, 12 <= i < 52 -> Z.testbit type i = false.

Lemma page_entry n pma type : (1 <= n <= 3)%nat -> 0 <= pma < 2 ^ 52 -> pma mod psz n = 0 -> page_type type ->
  let x := Z.lor (Z.lor pma type) (xPS n) in leaf n x /\ present x = true /\ addr_of x = pma.
Proof.
  intros Hn Hp Hal [Ht0 Hta]. cbv zeta. rewrite <- Z.lor_assoc.
  assert (forall i, 0 <= i -> Z.testbit (xPS n) i = (1 <? n)%nat && (i =? 7)) as Hxps.
  { intros i Hi. unfold xPS. destruct (Nat.ltb_spec 1 n); [|apply Z.testbit_0_l].
    change (bs_mask pe_PS) with (2 ^ 7). by rewrite pow2_testbit by lia. }
  assert (pma mod 4096 = 0) as Hpa.
  { destruct (levels_cases n ltac:(lia)) as [->|[->|[->| ->]]]; [done| | |lia].
    - change (psz 2) with (4096 * 512) in Hal. Z.to_euclidean_division_equations. lia.
    - change (psz 3) with (4096 * 262144) in Hal. Z.to_euclidean_division_equations. lia. }
  destruct (make_entry pma (Z.lor type (xPS n))) as [Ha Hb]; [done|done| |].
  { intros i Hi. rewrite Z.lor_spec, Hxps, Hta by lia. destruct (Z.eqb_spec i 7); [lia|]. by rewrite andb_false_r. }
  assert (present (Z.lor pma (Z.lor type (xPS n))) = true) as Hpr by (rewrite present_eq, Hb, Z.lor_spec, Ht0 by lia; done).
  split; [|done]. split.
  - rewrite Hpr, isPage_eq, Hb, Z.lor_spec, Hxps by lia. destruct (Nat.ltb_spec n 4); [|lia].
    destruct (Nat.eqb_spec n 1); [done|]. destruct (Nat.ltb_spec 1 n); [|lia]. simpl. by rewrite orb_true_r.
  - intros _. rewrite Ha. split; [lia|done].
Qed.

(** [mapInternal] with a value that is not a table *)
Lemma mapInternal_spec n vma x expected s :
  pt_inv s -> (1 <= n <= 3)%nat -> plain_slot vma -> is_word 64 vma -> is_canonical vma = true -> clear_path n vma s ->
  vma mod psz n = 0 -> leaf n x ->
  match mapInternal n vma x expected s with
  | Ok (success, s') =>
      success = bool_decide (old_entry n vma s = expected) /\
      if success : bool then remapped n vma (if present x then Some (addr_of x) else None) s s' /\ entry n vma s' = Some x
      else pt_inv s' /\ forall va, plain_slot va -> translate va s' = translate va s
  | Err e => e = Aborted
  end.
Proof.
  intros Hs Hn Hva Hw Hcan Hc Hal Hl. unfold mapInternal, mapInternal_by.
  assert (aligned 64 vma (psz n) = true) as ->.
  { rewrite psz_eq in * by lia. rewrite aligned_spec by lia. by apply Z.eqb_eq. }
  cbn [kassert mbind res_bind]. unfold casPE_by.
  pose proof (access_old n vma true s Hs ltac:(lia) Hva Hc) as Ha.
  destruct (access pe_fuel (accessPE n vma) true s) as [[ea s1]|]; cbn [mbind res_bind mret res_ret]; [|done].
  destruct Ha as (Hs1 & Hg & Hc1 & b & Hb & -> & Hrd). rewrite Hrd.
  destruct (Z.eqb_spec (old_entry n vma s) expected) as [Hz|Hz].
  - split; [by rewrite bool_decide_true|]. split.
    + apply (leaf_remapped n vma b x s s1); try done. lia.
    + apply (write_at s1 Hs1 n vma b x); [lia|done|done|by intros ? ?].
  - split; [by rewrite bool_decide_false|]. split; [done|]. intros va Hpl. by apply grows_translate.
Qed.

Lemma addr_excl x : bs_excl pe_ADDR (addr_of x) = 0.
Proof.
  unfold bs_excl. simpl bs_w. apply word_eq_testbit. intros i Hi. rewrite Z.land_spec, Z.testbit_0_l.
  rewrite wrap_testbit, Z.lnot_spec, addr_mask_testbit by lia.
  rewrite addr_of_testbit by done. destruct (Z.leb_spec 12 i), (Z.ltb_spec i 52); simpl; rewrite ?andb_false_r; done.
Qed.


(** [unmap] of a mapped page returns its physical address, unmaps exactly
    the addresses of the page and changes no other translation; it asserts
    when the entry of level 2 or 3 is not a page. *)
Theorem unmap_page n vma s :
  pt_inv s -> (1 <= n <= 3)%nat -> plain_slot vma -> is_word 64 vma -> is_canonical vma = true -> clear_path n vma s ->
  vma mod psz n = 0 ->
  match unmap n vma s with
  | Ok (pma, s') => isPage n (old_entry n vma s) = true /\ pma = addr_of (old_entry n vma s) /\ remapped n vma None s s'
  | Err AssertFailed => isPage n (old_entry n vma s) = false
  | Err e => e = Aborted
  end.
Proof.
  intros Hs Hn Hva Hw Hcan Hc Hal. unfold unmap.
  assert (aligned 64 vma (psz n) = true) as ->.
  { rewrite psz_eq in * by lia. rewrite aligned_spec by lia. by apply Z.eqb_eq. }
  cbn [kassert mbind res_bind]. unfold exchangePE.
  pose proof (access_old n vma true s Hs ltac:(lia) Hva Hc) as Ha.
  destruct (access pe_fuel (accessPE n vma) true s) as [[ea s1]|]; cbn [mbind res_bind mret res_ret]; [|by subst].
  destruct Ha as (Hs1 & Hg & Hc1 & b & Hb & -> & Hrd). rewrite Hrd.
  destruct (isPage n (old_entry n vma s)) eqn:Hi; cbn [kassert mbind res_bind mret res_ret]; [|done].
  split; [done|]. split; [done|].
  apply (leaf_remapped n vma b 0 s s1); try done. lia.
Qed.

(** [vtop] computes the translation of the processor: whenever an address
    outside the recursive slot is mapped, it returns the physical address and
    needs no new table. *)
Theorem vtop_translate va pa s :
  pt_inv s -> plain_slot va -> translate va s = Some pa -> vtop 4 va s = Ok (pa, s).
Proof.
  intros Hs Hva Ht.
  assert (forall n b, (n <= 4)%nat -> n = 0%nat \/ clear_path n va s /\ table_at n va s = Some b -> walk n b va s = Some pa -> vtop n va s = Ok (pa, s)) as Hgo.
  { induction n as [|n IH]; intros b Hn Hor Hwk; [done|]. destruct Hor as [|[Hc Hb]]; [done|]. cbn [walk] in Hwk. cbn [vtop].
    unfold getPE, getPE_by. rewrite (access_hit _ _ _ _ (b + 8 * pageIndex (S n) va)) by (rewrite translate_PE by (done || lia); by rewrite Hb).
    cbn [mbind res_bind mret res_ret]. set (pe := rd s (b + 8 * pageIndex (S n) va)) in *.
    assert (entry (S n) va s = Some pe) as He by (unfold entry; by rewrite Hb).
    destruct (present pe) eqn:Hp; [|done]. cbn [kassert mbind res_bind].
    destruct (isPage (S n) pe) eqn:Hi.
    - injection Hwk as <-. do 2 f_equal. pose proof (pi_page _ Hs (S n) va pe ltac:(lia) Hva He Hp Hi) as Hal.
      rewrite pageoffset_psz by lia. pose proof (addr_of_bounds pe) as [Hab _]. pose proof (psz_pos (S n) ltac:(lia)).
      pose proof (Z.mod_pos_bound va (psz (S n)) ltac:(lia)). pose proof (Z.div_mod (addr_of pe) (psz (S n)) ltac:(lia)).
      assert (psz (S n) <= 2 ^ 39) by (rewrite psz_eq by lia; apply Z.pow_le_mono_r; lia).
      rewrite wrap_small by lia. lia.
    - apply (IH (addr_of pe)); [lia| |done]. destruct n as [|n]; [by left|]. right. split.
      + intros m pe' Hm He'. destruct (decide (m = S (S n))) as [->|]; [|apply (Hc m); [lia|done]].
        rewrite He in He'. injection He' as <-. by right.
      + rewrite table_at_S by lia. rewrite He. simpl. by rewrite Hp, Hi. }
  unfold translate in Ht. destruct (is_canonical va); [|done].
  apply (Hgo 4%nat (cr3 s)); [lia|right; split; [intros m pe Hm; lia|done]|done].
Qed.

(** the tables above an entry that exists *)
Lemma entry_above n va s e : (1 <= n <= 4)%nat -> entry n va s = Some e ->
  forall m, (n < m <= 4)%nat -> exists pe, entry m va s = Some pe /\ present pe = true /\ isPage m pe = false.
Proof.
  intros Hn He m Hm. assert (forall j, (n + j < m)%nat -> is_Some (table_at (n + j) va s)) as Ht.
  { induction j as [|j IH]; intros Hj.
    - rewrite Nat.add_0_r. apply entry_Some in He as (b & Hb & _). by exists b.
    - destruct (IH ltac:(lia)) as [b Hb]. rewrite table_at_S in Hb by lia. replace (n + S j)%nat with (S (n + j)) by lia.
      unfold entry in Hb. by destruct (table_at (S (n + j)) va s). }
  destruct (Ht (m - 1 - n)%nat ltac:(lia)) as [b Hb]. replace (n + (m - 1 - n))%nat with (m - 1)%nat in Hb by lia.
  rewrite table_at_S in Hb by lia. replace (S (m - 1)) with m in Hb by lia.
  destruct (entry m va s) as [pe|]; [|done]. simpl in Hb. exists pe. split; [done|].
  destruct (present pe), (isPage m pe); done.
Qed.

Lemma getPE_hit n va s e : pt_inv s -> (1 <= n <= 4)%nat -> clear_path n va s -> entry n va s = Some e ->
  getPE n va s = Ok (e, s).
Proof.
  intros Hs Hn Hc He. apply entry_Some in He as (b & Hb & ->). unfold getPE, getPE_by.
  by rewrite (access_hit _ _ _ _ (b + 8 * pageIndex n va)) by (rewrite translate_PE by done; by rewrite Hb).
Qed.

(** the parts of [mapFromLazy] *)
Lemma lazy_descends va pff e s : pt_inv s -> plain_slot va -> entry 1 va s = Some e ->
  (forall n, (1 <= n <= 3)%nat -> clear_path n va s) /\
  mapFromLazy 3 va (Z.lor pt_Data pt_User) pff s = mapFromLazy 1 va (Z.lor pt_Data pt_User) pff s.
Proof.
  intros Hs Hva He.
  assert (forall n, (1 <= n <= 3)%nat -> clear_path n va s) as Hc.
  { intros n Hn m pe Hm Hpe. destruct (entry_above 1 va s e ltac:(lia) He m ltac:(lia)) as (pe' & Hpe' & ? & ?).
    rewrite Hpe' in Hpe. injection Hpe as <-. by right. }
  split; [done|].
  destruct (entry_above 1 va s e ltac:(lia) He 3%nat ltac:(lia)) as (e3 & He3 & Hp3 & Hi3).
  destruct (entry_above 1 va s e ltac:(lia) He 2%nat ltac:(lia)) as (e2 & He2 & Hp2 & Hi2).
  cbn [mapFromLazy]. rewrite (getPE_hit 3 va s e3) by (done || lia || (apply Hc; lia)). cbn [mbind res_bind].
  rewrite Hp3, Hi3. cbn [negb andb]. rewrite (getPE_hit 2 va s e2) by (done || lia || (apply Hc; lia)). cbn [mbind res_bind].
  by rewrite Hp2, Hi2.
Qed.

(** the page of an address *)
Lemma page_of_canonical va : is_word 64 va -> is_canonical va = true ->
  is_word 64 (va / 2 ^ 12 * 2 ^ 12) /\ is_canonical (va / 2 ^ 12 * 2 ^ 12) = true.
Proof.
  intros Hw Hcan. unfold is_word, is_canonical in *. apply orb_true_iff in Hcan. rewrite Z.ltb_lt, Z.leb_le in Hcan.
  split; [Z.to_euclidean_division_equations; lia|]. apply orb_true_iff. rewrite Z.ltb_lt, Z.leb_le.
  Z.to_euclidean_division_equations. lia.
Qed.

(** the page type has no bits of the address field *)
Lemma user_data_type : forall i, 12 <= i < 52 -> Z.testbit (Z.lor pt_Data pt_User) i = false.
Proof.
  intros i Hi. assert (Z.land (Z.lor pt_Data pt_User) (bs_mask pe_ADDR) = 0) as Hz by (vm_compute; reflexivity).
  assert (Z.testbit (Z.land (Z.lor pt_Data pt_User) (bs_mask pe_ADDR)) i = false) as Hb' by (rewrite Hz; apply Z.testbit_0_l).
  rewrite Z.land_spec, addr_mask_testbit in Hb' by lia. destruct (Z.leb_spec 12 i), (Z.ltb_spec i 52); try lia.
  by rewrite !andb_true_r in Hb'.
Qed.

(** the new entry passes checkMapping for each kind of page fault *)
Lemma lazy_entry_access pma pff : 0 <= pma < 2 ^ 52 -> pma mod 4096 = 0 -> pff ∈ [0; 2; 4; 6] ->
  let x := Z.lor (Z.lor pma (Z.lor pt_Data pt_User)) 0 in
  (Z.land x pff =? Z.land (Z.lor (bs_mask pe_RW) (bs_mask pe_US)) pff) = true.
Proof.
  intros Hp Hal Hpff x. apply Z.eqb_eq.
  assert (forall k, 0 <= k < 12 -> Z.testbit x k = Z.testbit (Z.lor pt_Data pt_User) k) as Hbits.
  { intros k Hk. unfold x. rewrite Z.lor_0_r, Z.lor_spec. rewrite (page_bits_high pma) by (done || lia).
    destruct (Z.leb_spec 12 k); [lia|]. by rewrite andb_false_r. }
  repeat (apply elem_of_cons in Hpff as [->|Hpff]); [by rewrite !Z.land_0_r| | | |by apply elem_of_nil in Hpff].
  - change 2 with (2 ^ 1). rewrite land_pow2, Hbits by lia. done.
  - change 4 with (2 ^ 2). rewrite land_pow2, Hbits by lia. done.
  - change 6 with (Z.lor (2 ^ 1) (2 ^ 2)). rewrite Z.land_lor_distr_r, !land_pow2, !Hbits by lia. done.
Qed.

(** the entry of the new page is not in the page *)
Lemma lazy_page_zero s s1 vma b x pma : pt_inv s -> pt_inv s1 -> grows s s1 -> plain_slot vma -> table_at 1 vma s1 = Some b ->
  (forall m, (1 <= m <= 4)%nat -> entry m vma s1 = entry m vma s) ->
  pma mod 4096 = 0 -> fa_free (pframes s) (pma / 4096) = true -> (forall a, pma <= a < pma + 4096 -> rd s1 a = 0) ->
  forall a, pma <= a < pma + 4096 -> rd (wr (b + 8 * pageIndex 1 vma) x s1) a = 0.
Proof.
  intros Hs Hs1 Hg1 Hvma Hb He1 Hal Hfree Hz1 a Ha. rewrite rd_wr, decide_False; [by apply Hz1|].
  intros ->. destruct (table_aligned 1 vma s1 b Hs1 ltac:(lia) Hb) as [Hba _]. pose proof (pageIndex_bounds 1 vma ltac:(lia)) as H1.
  assert (b = pma) as -> by (clear - Ha Hal Hba H1; Z.to_euclidean_division_equations; lia).
  assert (table_at 1 vma s = Some pma) as Hb0.
  { rewrite <- (same_entries_table vma s s1 1); [done|split; [apply Hg1|auto]|lia]. }
  pose proof (pi_used _ Hs 1 vma pma ltac:(lia) Hvma Hb0). congruence.
Qed.

(** another processor was faster: the frame is released and the entry checked *)
Lemma lazy_lost_race s1 vma b e pma pff : pt_inv s1 -> plain_slot vma -> clear_path 1 vma s1 -> table_at 1 vma s1 = Some b ->
  e = rd s1 (b + 8 * pageIndex 1 vma) -> 0 <= pma -> pma mod 4096 = 0 -> pma + 4096 <= 2 ^ 51 ->
  (forall i, pma / 4096 <= i < (pma + 4096) / 4096 -> fa_free (pframes s1) i = false /\ fa_mine (pframes s1) i = true) ->
  match (s2 ← release_frame pma 4096 s1; checkMapping 1 vma pff s2) with
  | Ok (ok, _) => ok = true /\ present e = true
  | Err AssertFailed => True
  | Err e' => e' = Aborted
  end.
Proof.
  intros Hs1 Hvma Hc1 Hb Hee Hp0 Hal Htop Hf1. unfold release_frame.
  pose proof (fa_release_law pma 4096 (pframes s1) (pi_ok _ Hs1) Hp0 ltac:(lia) Hal eq_refl Htop Hf1) as Hrl.
  destruct (fa_release pma 4096 (pframes s1)) as [f|e'] eqn:Er; cbn [mbind res_bind mret res_ret]; [|by rewrite Hrl].
  destruct Hrl as [Hok Hfree]. unfold checkMapping, checkMapping_by, getPE_by.
  assert (translate (accessPE 1 vma) (set_frames f s1) = translate (accessPE 1 vma) s1) as Htr by done.
  rewrite (access_hit _ _ _ _ (b + 8 * pageIndex 1 vma)) by (rewrite Htr, translate_PE by (done || lia); by rewrite Hb).
  cbn [mbind res_bind mret res_ret]. change (rd (set_frames f s1) (b + 8 * pageIndex 1 vma)) with (rd s1 (b + 8 * pageIndex 1 vma)).
  rewrite <- Hee. destruct (negb _ && _) eqn:Ek; cbn [kassert mbind res_bind mret res_ret]; [|done].
  split; [done|]. apply andb_true_iff in Ek as [Ek _].
  rewrite present_eq. change (bs_mask pe_P) with (2 ^ 0) in Ek. rewrite land_pow2 in Ek by lia. by destruct (Z.testbit e 0).
Qed.

(** this processor has entered the page: checkMapping succeeds *)
Lemma lazy_entered s1 vma b x pff : pt_inv s1 -> plain_slot vma -> pt_inv (wr (b + 8 * pageIndex 1 vma) x s1) ->
  table_at 1 vma s1 = Some b -> clear_path 1 vma s1 -> present x = true ->
  (Z.land x pff =? Z.land (Z.lor (bs_mask pe_RW) (bs_mask pe_US)) pff) = true ->
  checkMapping 1 vma pff (wr (b + 8 * pageIndex 1 vma) x s1) = Ok (true, wr (b + 8 * pageIndex 1 vma) x s1).
Proof.
  intros Hs1 Hvma Hs2 Hb Hc1 Hpr Hx2. set (s2 := wr _ x s1).
  destruct (write_at s1 Hs1 1 vma b x ltac:(lia) Hvma Hb vma ltac:(by intros ? ?)) as [Hb2 He2].
  unfold checkMapping, checkMapping_by. fold s2 in Hb2, He2.
  change (getPE_by (access pe_fuel) 1 vma s2) with (getPE 1 vma s2).
  rewrite (getPE_hit 1 vma s2 x); [|done|lia| |done].
  2:{ apply (clear_path_ext _ _ s1); [|done]. intros m Hm. apply (write_entry s1 Hs1 1 vma b x); (done || lia). }
  cbn [mbind res_bind].
  assert (Z.land x (bs_mask pe_P) = 1) as Hx1.
  { change (bs_mask pe_P) with (2 ^ 0). rewrite land_pow2 by lia. by rewrite <- present_eq, Hpr. }
  by rewrite Hx1, Hx2.
Qed.


(** ** A new top-level table *)
Section new_root.
Context (s : pstate F).
Context (Hc : 0 <= cr3 s < 2 ^ 51) (Hcm : cr3 s mod 4096 = 0).
Context (Hw : forall i, 0 <= i < 512 -> rd s (cr3 s + 8 * i) = if i =? recptindex then Z.lor (cr3 s) pt_PageTable else 0).

Lemma new_root_entry n va pe : (1 <= n <= 4)%nat -> plain_slot va -> entry n va s = Some pe -> n = 4%nat /\ pe = 0.
Proof using Hw.
  intros Hn Hva. assert (entry 4 va s = Some 0) as H4.
  { unfold entry. rewrite table_at_4. cbn [mbind option_bind]. rewrite Hw by (apply pageIndex_bounds; lia).
    by rewrite (proj2 (Z.eqb_neq _ _) Hva). }
  assert (forall m, (1 <= m <= 3)%nat -> table_at m va s = None) as Hm.
  { assert (table_at 3 va s = None) as H3 by (rewrite table_at_S, H4 by lia; done).
    assert (table_at 2 va s = None) as H2 by (rewrite table_at_S by lia; unfold entry; by rewrite H3).
    assert (table_at 1 va s = None) as H1 by (rewrite table_at_S by lia; unfold entry; by rewrite H2).
    intros m Hm. destruct (levels_cases m ltac:(lia)) as [->|[->|[->| ->]]]; done || lia. }
  destruct (decide (n = 4%nat)) as [->|]; [rewrite H4; intros [= <-]; done|].
  unfold entry. by rewrite Hm by lia.
Qed.

Lemma new_root : fa_free (pframes s) (cr3 s / 4096) = false -> fa_ok (pframes s) ->
  pt_inv s /\ forall n va pe, (1 <= n <= 4)%nat -> plain_slot va -> entry n va s = Some pe -> n = 4%nat /\ pe = 0.
Proof.
  intros Hused Hok. split; [|exact new_root_entry].
  assert (forall n va b, (1 <= n <= 4)%nat -> plain_slot va -> table_at n va s = Some b -> n = 4%nat /\ b = cr3 s) as Ht.
  { intros n va b Hn Hva Hb. destruct (new_root_entry n va (rd s (b + 8 * pageIndex n va)) Hn Hva) as [-> _].
    - unfold entry. by rewrite Hb.
    - rewrite table_at_4 in Hb. by injection Hb as <-. }
  assert (rd s (cr3 s + 8 * recptindex) = Z.lor (cr3 s) pt_PageTable) as Hrec by (rewrite Hw by (by split); done).
  constructor; [done|done| | | | |done].
  - intros va pe He Hp. destruct (decide (plain_slot va)) as [Hva|Hva].
    + destruct (new_root_entry 4 va pe ltac:(lia) Hva He) as [_ ->]. done.
    + assert (pageIndex 4 va = recptindex) as Hr by (destruct (decide (pageIndex 4 va = recptindex)); [done|contradiction]).
      unfold entry in He. rewrite table_at_4 in He. cbn [mbind option_bind] in He. rewrite Hr, Hrec in He. injection He as <-.
      destruct (make_entry (cr3 s) pt_PageTable) as [_ Hb]; [lia|done|apply PageTable_bits|]. by rewrite Hb.
  - intros n n' va va' b Hn Hn' Hva Hva' Hb Hb'. destruct (Ht n va b Hn Hva Hb) as [-> _]. destruct (Ht n' va' b Hn' Hva' Hb') as [-> _].
    split; [done|]. intros m Hm. lia.
  - intros n va b Hn Hva Hb. by destruct (Ht n va b Hn Hva Hb) as [_ ->].
  - intros n va pe Hn Hva He Hp. destruct (new_root_entry n va pe Hn Hva He) as [_ ->]. done.
Qed.
End new_root.
End paging_facts.

(** ** The frame manager as frame source *)
#[export] Instance FrameManager_source : FrameSource FrameManager := {
  fa_alloc n fm := allocFrame (Z.of_nat n) fm;
  fa_release a s fm := fmgr_release a s fm;
  fa_free fm i := (baseAddress fm / 4096 <=? i) && frame_free fm (i - baseAddress fm / 4096);
  fa_mine fm i := (baseAddress fm / 4096 <=? i) && (i <? baseAddress fm / 4096 + fm_size (fm_map fm));
  fa_ok fm := fmgr_inv fm /\ baseAddress fm mod 2 ^ 21 = 0 /\ baseAddress fm + fm_size (fm_map fm) * 4096 <= 2 ^ 51
}.

Lemma frame_free_bounds fm i : fmgr_inv fm -> frame_free fm i = true -> 0 <= i < fm_size (fm_map fm).
Proof. intros (Hi & _). by apply (is_free_bounds ptentries). Qed.

#[export] Instance FrameManager_source_laws : FrameSourceLaws FrameManager.
Proof.
  split.
  - intros n fm (Hi & Hal & Htop) Hn. cbn [fa_alloc fa_ok fa_free fa_mine FrameManager_source].
    assert (baseAddress fm / 4096 * 4096 = baseAddress fm /\ 0 <= baseAddress fm) as [Hb Hb0].
    { destruct Hi as (_ & _ & Hm & H0 & _). change smallps with 4096 in Hm. split; [|done].
      clear - Hm. Z.to_euclidean_division_equations. lia. }
    assert (forall fm', fmgr_inv fm' -> baseAddress fm' = baseAddress fm -> fm_size (fm_map fm') = fm_size (fm_map fm) ->
      fmgr_inv fm' /\ baseAddress fm' mod 2 ^ 21 = 0 /\ baseAddress fm' + fm_size (fm_map fm') * 4096 <= 2 ^ 51) as Hok.
    { intros fm' ? -> ->. done. }
    destruct (decide (n = 1%nat)) as [->|]; [change (Z.of_nat 1) with 1|replace n with 2%nat by lia; change (Z.of_nat 2) with 2].
    + destruct (allocFrame_small fm Hi) as [(a & fm' & -> & Hf & Ha & Hi' & Hba & _ & Hsz & Hf')|[_ ->]]; [|done].
      change smallps with 4096 in *. set (k := frame_no fm a) in *. change (psz 1) with 4096.
      pose proof (frame_free_bounds fm k Hi Hf) as Hk.
      assert (a / 4096 = baseAddress fm / 4096 + k /\ (a + 4096) / 4096 = baseAddress fm / 4096 + k + 1 /\ a mod 4096 = 0) as (E1 & E2 & E3)
        by (rewrite Ha; clear - Hb; Z.to_euclidean_division_equations; lia).
      split; [by apply Hok|]. split; [done|]. split; [lia|]. split; [lia|]. rewrite E1, E2. split.
      * intros i Hik. assert (i = baseAddress fm / 4096 + k) as -> by lia. rewrite Hba, Hsz.
        replace (baseAddress fm / 4096 + k - baseAddress fm / 4096) with k by lia. rewrite Hf.
        destruct (Z.leb_spec (baseAddress fm / 4096) (baseAddress fm / 4096 + k)); [|lia].
        destruct (Z.ltb_spec (baseAddress fm / 4096 + k) (baseAddress fm / 4096 + fm_size (fm_map fm))); [done|lia].
      * intros i. rewrite Hba. destruct (Z.leb_spec (baseAddress fm / 4096) i); [|done]. rewrite Hf' by lia. cbn [andb].
        destruct (Z.eqb_spec (i - baseAddress fm / 4096) k), (Z.leb_spec (baseAddress fm / 4096 + k) i),
          (Z.ltb_spec i (baseAddress fm / 4096 + k + 1)); simpl; rewrite ?andb_false_r, ?andb_true_r; try done; lia.
    + destruct (allocFrame_large fm Hi) as [(a & fm' & -> & Hm & Ha & Hf & Hi' & Hba & _ & Hsz & Hf')| ->]; [|done].
      change smallps with 4096 in *. change ptentries with 512 in *. set (k := frame_no fm a) in *. change (psz 2) with (512 * 4096).
      unfold in_range in *.
      assert (forall j, k <= j < k + 512 -> frame_free fm j = true) as Hf1 by (intros j Hj; apply Hf; lia).
      pose proof (frame_free_bounds fm k Hi (Hf1 k ltac:(lia))) as Hk. pose proof (frame_free_bounds fm (k + 511) Hi (Hf1 (k + 511) ltac:(lia))) as Hk'.
      assert (a / 4096 = baseAddress fm / 4096 + k /\ (a + 512 * 4096) / 4096 = baseAddress fm / 4096 + k + 512 /\ a mod (512 * 4096) = 0) as (E1 & E2 & E3)
        by (rewrite Ha; clear - Hb Hal Hm; change (2 ^ 21) with (512 * 4096) in Hal; Z.to_euclidean_division_equations; lia).
      split; [by apply Hok|]. split; [done|]. split; [lia|]. split; [lia|]. rewrite E1, E2. split.
      * intros i Hik. rewrite Hba, Hsz.
        assert (baseAddress fm / 4096 <= i /\ i < baseAddress fm / 4096 + fm_size (fm_map fm)) as [Hi1 Hi2] by lia.
        rewrite (Hf1 (i - baseAddress fm / 4096)) by lia. apply Z.leb_le in Hi1 as ->. by apply Z.ltb_lt in Hi2 as ->.
      * intros i. rewrite Hba. destruct (Z.leb_spec (baseAddress fm / 4096) i); [|done]. rewrite Hf' by lia. cbn [andb].
        destruct (Z.leb_spec k (i - baseAddress fm / 4096)), (Z.ltb_spec (i - baseAddress fm / 4096) (k + 512)),
          (Z.leb_spec (baseAddress fm / 4096 + k) i), (Z.ltb_spec i (baseAddress fm / 4096 + k + 512));
          simpl; rewrite ?andb_false_r, ?andb_true_r; try done; lia.
  - intros a sz fm (Hi & Hal & Htop) Ha0 Hs0 Ham Hsm Hat Hfree. cbn [fa_release fa_ok fa_free fa_mine FrameManager_source] in *.
    assert (baseAddress fm / 4096 * 4096 = baseAddress fm /\ 0 <= baseAddress fm) as [Hb Hb0].
    { destruct Hi as (_ & _ & Hm & H0 & _). change smallps with 4096 in Hm. split; [|done].
      clear - Hm. Z.to_euclidean_division_equations. lia. }
    pose proof (fmgr_release_spec fm a sz Hi) as Hr. change smallps with 4096 in *.
    rewrite decide_True in Hr by done. unfold frame_no, in_range in Hr. change smallps with 4096 in *.
    set (B := baseAddress fm / 4096) in *.
    assert (a / 4096 * 4096 = a /\ sz / 4096 * 4096 = sz /\ (a + sz) / 4096 = a / 4096 + sz / 4096 /\ (a - baseAddress fm) / 4096 = a / 4096 - B)
      as (E1 & E2 & E3 & E4) by (unfold B in *; clear - Ham Hsm Hb; Z.to_euclidean_division_equations; lia).
    rewrite E3 in *. rewrite E4 in Hr.
    assert (forall i, a / 4096 <= i < a / 4096 + sz / 4096 -> B <= i < B + fm_size (fm_map fm) /\ frame_free fm (i - B) = false) as Hfr.
    { intros i Hik. destruct (Hfree i Hik) as [Hf1 Hf2]. apply andb_true_iff in Hf2 as [Hf2%Z.leb_le Hf3%Z.ltb_lt].
      split; [done|]. apply Z.leb_le in Hf2. by rewrite Hf2 in Hf1. }
    destruct (Hfr (a / 4096) ltac:(lia)) as [[Hlo _] _]. destruct (Hfr (a / 4096 + sz / 4096 - 1) ltac:(lia)) as [[_ Hhi] _].
    destruct Hr as (fm' & -> & Hi' & Hba & _ & Hsz & Hf'); try (unfold is_word; lia).
    { intros i Hik. apply andb_true_iff in Hik as [Hk1%Z.leb_le Hk2%Z.ltb_lt].
      destruct (Hfr (i + B) ltac:(lia)) as [_ Hf1]. by replace (i + B - B) with i in Hf1 by lia. }
    split; [split; [done|]; by rewrite Hba, Hsz|]. intros i. rewrite Hba. fold B.
    destruct (Z.leb_spec B i).
    + rewrite Hf' by lia. cbn [andb].
      destruct (Z.leb_spec (a / 4096 - B) (i - B)), (Z.ltb_spec (i - B) (a / 4096 - B + sz / 4096)),
        (Z.leb_spec (a / 4096) i), (Z.ltb_spec i (a / 4096 + sz / 4096)); simpl; try done; lia.
    + destruct (Z.leb_spec (a / 4096) i); [lia|done].
Qed.

(** ** An example: an empty address space over 16 free frames *)
Definition fm_frames : FrameManager :=
  match fmgr_release (16 * 4096) (16 * 4096) fm_empty with Ok fm => fm | Err _ => fm_empty end.
Definition pt_example : pstate FrameManager :=
  mkPst {[ 4096 + 8 * recptindex := Z.lor 4096 pt_PageTable ]} 4096 fm_frames.

Lemma fm_frames_inv : fa_ok fm_frames /\ forall i, fa_free fm_frames i = true -> 16 <= i.
Proof.
  destruct fm_empty_inv as [H0 Hf0].
  destruct (fmgr_release_spec fm_empty (16 * 4096) (16 * 4096) H0) as (fm1 & Hr1 & Hi1 & Hb1 & _ & Hs1 & Hf1);
    [by split|by split|done..|].
  assert (fm_frames = fm1) as -> by (unfold fm_frames; by rewrite Hr1).
  cbn [fa_ok fa_free FrameManager_source]. rewrite Hb1, Hs1.
  change (baseAddress fm_empty) with 0. split; [split; [done|]; split; [done|]; vm_compute; discriminate|].
  intros i [Hi%Z.leb_le Hf]%andb_true_iff. change (0 / 4096) with 0 in *. rewrite Z.sub_0_r in Hf.
  rewrite Hf1, Hf0 in Hf by done. unfold in_range, frame_no in Hf. change (baseAddress fm_empty) with 0 in Hf.
  change smallps with 4096 in Hf. change ((16 * 4096 - 0) / 4096) with 16 in Hf. lia.
Qed.

Lemma pt_example_rd a : rd pt_example a = if decide (a = 4096 + 8 * 256) then Z.lor 4096 pt_PageTable else 0.
Proof.
  unfold rd. change (pmem pt_example) with ({[ 4096 + 8 * 256 := Z.lor 4096 pt_PageTable ]} : gmap Z Z).
  case_decide as Hd; [by rewrite Hd, lookup_singleton_eq|]. by rewrite lookup_singleton_ne by auto.
Qed.

Lemma pt_example_words i : 0 <= i < 512 -> rd pt_example (4096 + 8 * i) = if i =? 256 then Z.lor 4096 pt_PageTable else 0.
Proof. intros Hi. rewrite pt_example_rd. destruct (Z.eqb_spec i 256) as [->|]; [by rewrite decide_True|]. rewrite decide_False by lia. done. Qed.

Lemma pt_example_new : pt_inv pt_example /\ forall n va pe, (1 <= n <= 4)%nat -> plain_slot va -> entry n va pt_example = Some pe -> n = 4%nat /\ pe = 0.
Proof.
  destruct fm_frames_inv as [Hok _]. by apply new_root; try exact pt_example_words.
Qed.
Lemma pt_example_inv : pt_inv pt_example.
Proof. apply pt_example_new. Qed.
Lemma pt_example_entry n va pe : (1 <= n <= 4)%nat -> plain_slot va -> entry n va pt_example = Some pe -> n = 4%nat /\ pe = 0.
Proof. apply pt_example_new. Qed.

Lemma pt_example_clear n va : (1 <= n <= 4)%nat -> plain_slot va -> clear_path n va pt_example.
Proof. intros Hn Hva m pe Hm He. left. apply (pt_example_entry m va pe); [lia|done|done]. Qed.

Lemma plain_example : plain_slot 4194304.
Proof. unfold plain_slot. vm_compute. discriminate. Qed.

Lemma data_user_type : page_type (Z.lor pt_Data pt_User).
Proof.
  split; [reflexivity|]. intros i Hi. destruct (Z.testbit (Z.lor pt_Data pt_User) i) eqn:E; [|done]. exfalso.
    assert (Z.testbit (addr_of (Z.lor pt_Data pt_User)) i = true) as Ha.
    { rewrite addr_of_testbit, E by lia. destruct (Z.leb_spec 12 i), (Z.ltb_spec i 52); try done; lia. }
    assert (addr_of (Z.lor pt_Data pt_User) = 0) as Hz by (vm_compute; reflexivity). by rewrite Hz, Z.testbit_0_l in Ha.
Qed.



Lemma unmap_page_witness : exists s', unmap 1 4194304 pt_example = Ok (0, s') /\ pt_inv s'.
Proof.
  pose proof (unmap_page 1 4194304 pt_example pt_example_inv ltac:(lia) plain_example
    ltac:(split; [discriminate|reflexivity]) eq_refl (pt_example_clear 1 4194304 ltac:(lia) plain_example) eq_refl) as H.
  destruct (unmap 1 4194304 pt_example) as [[pma s']|e] eqn:E.
  - destruct H as (_ & -> & Hs' & _). exists s'. split; [|exact Hs'].
    assert (old_entry 1 4194304 pt_example = 0) as -> by (vm_compute; reflexivity). reflexivity.
  - exfalso. assert (is_ok (unmap 1 4194304 pt_example) = true) as Hk by (vm_compute; reflexivity).
    rewrite E in Hk. discriminate Hk.
Defined.

(** the same address space with a lazy page at 4194304 *)
Lemma lazy_example : exists s, mapToLazy 1 4194304 pt_example = Ok (true, s) /\ pt_inv s /\ entry 1 4194304 s = Some lazyPage.
Proof.
  assert (leaf 1 lazyPage) as Hl by (split; [vm_compute; reflexivity|intros E; vm_compute in E; discriminate E]).
  pose proof (mapInternal_spec 1 4194304 lazyPage 0 pt_example pt_example_inv ltac:(lia) plain_example
    ltac:(split; [discriminate|reflexivity]) eq_refl (pt_example_clear 1 4194304 ltac:(lia) plain_example) eq_refl Hl) as H.
  unfold mapToLazy. destruct (mapInternal 1 4194304 lazyPage 0 pt_example) as [[ok s']|e] eqn:E.
  - destruct H as [-> H]. assert (bool_decide (old_entry 1 4194304 pt_example = 0) = true) as Hb by (vm_compute; reflexivity).
    rewrite Hb in *. exists s'. split; [done|]. split; [apply H|apply H].
  - exfalso. assert (is_ok (mapInternal 1 4194304 lazyPage 0 pt_example) = true) as Hk by (vm_compute; reflexivity).
    rewrite E in Hk. discriminate Hk.
Qed.


Lemma vtop_translate_witness :
  exists s pa, translate 4194309 s = Some pa /\ vtop 4 4194309 s = Ok (pa, s).
Proof.
  destruct (page_entry 1 2097152 _ ltac:(lia) ltac:(split; [discriminate|reflexivity]) eq_refl data_user_type) as (Hl & Hpr & Ha).
  cbv zeta in *. set (x := Z.lor (Z.lor 2097152 (Z.lor pt_Data pt_User)) (xPS 1)) in *.
  pose proof (mapInternal_spec 1 4194304 x 0 pt_example pt_example_inv ltac:(lia) plain_example
    ltac:(split; [discriminate|reflexivity]) eq_refl (pt_example_clear 1 4194304 ltac:(lia) plain_example) eq_refl Hl) as H.
  destruct (mapInternal 1 4194304 x 0 pt_example) as [[ok s']|e] eqn:E.
  - destruct H as [-> H]. assert (bool_decide (old_entry 1 4194304 pt_example = 0) = true) as Hb by (vm_compute; reflexivity).
    rewrite Hb in H. destruct H as [[Hs' H] _].
    assert (plain_slot 4194309) as Hp by (unfold plain_slot; vm_compute; discriminate).
    assert (translate 4194309 s' = Some 2097157) as Ht.
    { rewrite H; [rewrite Hpr, Ha; reflexivity|exact Hp|split; [discriminate|reflexivity]|reflexivity]. }
    exists s', 2097157. split; [exact Ht|]. exact (vtop_translate 4194309 2097157 s' Hs' Hp Ht).
  - exfalso. assert (is_ok (mapInternal 1 4194304 x 0 pt_example) = true) as Hk by (vm_compute; reflexivity).
    rewrite E in Hk. discriminate Hk.
Defined.
