(* ===== verification/PagingBoot.v ===== *)
(** * Building page tables: bootstrap and clone of machine/Paging.h

    [bootstrap] makes the first page table while physical memory is mapped
    identically, [bootstrap2] adds the tables and pages of the kernel heap and
    the tables for zeroing frames, [bootstrap3] more of the latter; [clone]
    makes the top-level table of a new address space.  Before the frame manager
    is set up, frames come from the set of available regions, which takes the
    place of the frame source in the state of Paging.v: a page fault cannot be
    served in this phase ([CurrFM] asserts). *)
From Stdlib Require Import ZArith Lia Bool.
From stdpp Require Import base tactics option numbers list gmap.
From S2P Require Import Prelude Bitmanip Memory Bitmap RegionSet FrameManager Paging.

(** ** The available memory as frame source *)
Definition page_of (i : Z) : Region := mkRegion (4096 * i) (4096 * i + 4096).
Definition mem_free (mem : regions) (i : Z) : bool := existsb (fun r => r_covers r (page_of i)) mem.
Definition mem_ok (mem : regions) : Prop :=
  rs_wf mem /\ Forall (fun r => 0 <= r_start r /\ r_end r <= 2 ^ 51) mem.

#[export] Instance regions_source : FrameSource regions := {
  fa_alloc _ _ := Err Aborted;
  fa_release _ _ _ := Err Aborted;
  fa_free := mem_free;
  fa_mine _ _ := true;
  fa_ok := mem_ok
}.
#[export] Instance regions_source_laws : FrameSourceLaws regions.
Proof. by split. Qed.

(** ** bootstrap: physical addresses *)
Section bootstrap.
Implicit Types s : pstate regions.

(** [mem.retrieve_front(pagesize<n>())] *)
Definition retrieve (n : nat) (s : pstate regions) : res (Z * pstate regions) :=
  '(mem, a) ← retrieve_front false (psz n) (pframes s);
  mret (a, set_frames mem s).

(** the 2M pages of the kernel image in one table: at most [ptentries] *)
Definition image_entry (kernelBase kernelData addr : Z) : Z :=
  Z.lor (Z.lor (Z.lor (addr - kernelBase)%w (if addr <? kernelData then pt_Code else pt_Data)) pt_Kernel) (xPS 2).

Fixpoint image_pages (count : nat) (kernelBase kernelData pd end_ addr : Z) (s : pstate regions) : Z * pstate regions :=
  match count with
  | O => (addr, s)
  | S count =>
      if addr <? end_ then
        image_pages count kernelBase kernelData pd end_ (addr + kernelps)%w
          (wr (pd + 8 * pageIndex 2 addr) (image_entry kernelBase kernelData addr) s)
      else (addr, s)
  end.

Fixpoint image_dirs (fuel : nat) (kernelBase kernelData kernelEnd pdpt addr : Z) (s : pstate regions) : res (pstate regions) :=
  match fuel with
  | O => Err OutOfFuel
  | S fuel =>
      if addr <? kernelEnd then
        '(pd, s) ← retrieve 1 s;
        let s := zeroed pd pagetableps s in
        let s := wr (pdpt + 8 * pageIndex 3 addr) (Z.lor pd pt_PageTable) s in
        let end_ := Z.min kernelEnd (addr + pagesize 3)%w in
        let '(addr, s) := image_pages (Z.to_nat ptentries) kernelBase kernelData pd end_ addr s in
        image_dirs fuel kernelBase kernelData kernelEnd pdpt addr s
      else mret s
  end.

Definition bootstrap (fuel : nat) (kernelBase kernelData kernelEnd : Z) (s : pstate regions) : res (Z * pstate regions) :=
  '(pml4, s) ← retrieve 1 s;
  let s := zeroed pml4 pagetableps s in
  let s := wr (pml4 + 8 * recptindex) (Z.lor pml4 pt_PageTable) s in
  '(pdpt, s) ← retrieve 1 s;
  let s := zeroed pdpt pagetableps s in
  let s := wr (pml4 + 8 * pageIndex 4 kernelBase) (Z.lor pdpt pt_PageTable) s in
  s ← image_dirs fuel kernelBase kernelData kernelEnd pdpt kernelBase s;
  mret (pml4, installPagetable pml4 s).

(** ** bootstrap2: through the new page table *)

(** [memset] of the page behind a virtual address *)
Definition memset_page (va size : Z) (s : pstate regions) : res (pstate regions) :=
  '(pa, s) ← access pe_fuel va true s; mret (zeroed pa size s).

(** a level-[n] table for [addr]: linked, then zeroed *)
Definition boot_table (n : nat) (addr : Z) (s : pstate regions) : res (pstate regions) :=
  '(pt, s) ← retrieve 1 s;
  s ← setPE (S n) addr (Z.lor pt pt_PageTable) s;
  memset_page (pageTable n addr) pagetableps s.
Definition boot_page (addr : Z) (s : pstate regions) : res (pstate regions) :=
  '(page, s) ← retrieve 2 s;
  s ← setPE 2 addr (Z.lor (Z.lor (Z.lor page pt_Kernel) pt_Data) (xPS 2)) s;
  memset_page addr kernelps s.

(** [for (; addr < kerneltop; addr += size)] *)
Fixpoint boot_loop (body : Z -> pstate regions -> res (pstate regions)) (count : nat) (size addr : Z) (s : pstate regions)
    : res (pstate regions) :=
  match count with
  | O => mret s
  | S count => if addr <? kerneltop then s ← body addr s; boot_loop body count size (addr + size)%w s else mret s
  end.
Definition boot_range (body : Z -> pstate regions -> res (pstate regions)) (size addr : Z) : pstate regions -> res (pstate regions) :=
  boot_loop body (Z.to_nat ((kerneltop - addr + size - 1) / size)) size addr.

Definition bootstrap2 (maxHeap initHeap : Z) (s : pstate regions) : res (Z * pstate regions) :=
  let bottom := align_down 64 (kerneltop - Z.max maxHeap initHeap)%w (pagesize 4) in
  _ ← kassert (kernelbot <=? bottom);
  s ← boot_range (boot_table 3) (pagesize 4) bottom s;
  s ← boot_range (boot_table 2) (pagesize 3) (align_down 64 (kerneltop - initHeap)%w (pagesize 3)) s;
  _ ← kassert (aligned 64 initHeap kernelps);
  s ← boot_range boot_page kernelps (kerneltop - initHeap)%w s;
  s ← boot_table 3 zeroBase s;
  s ← boot_table 2 zeroBase s;
  mret (bottom, s).
End bootstrap.

(** the two steps in [Machine::initBSP] *)
Definition boot_paging (fuel : nat) (kernelData kernelEnd maxHeap initHeap : Z) (s : pstate regions)
    : res (Z * Z * pstate regions) :=
  '(pml4, s) ← bootstrap fuel KERNBASE kernelData kernelEnd s;
  '(kernelBot, s) ← bootstrap2 maxHeap initHeap s;
  mret (pml4, kernelBot, s).

(** ** bootstrap3 and clone: with frames from the frame manager *)
Section clone.
Context {F : Type} `{FrameSource F}.

(** one more table for zeroing for each [ptentries] processors *)
Fixpoint bootstrap3_loop (rounds : nat) (addr : Z) (s : pstate F) : res (pstate F) :=
  match rounds with
  | O => mret s
  | S rounds =>
      let addr := (addr + pagesize 3)%w in
      '(pd, s) ← alloc_frame 1 s;
      s ← setPE 3 addr (Z.lor pd pt_PageTable) s;
      bootstrap3_loop rounds addr s
  end.
Definition bootstrap3 (coreCount : Z) (s : pstate F) : res (pstate F) :=
  bootstrap3_loop (Z.to_nat ((coreCount - 1) / ptentries)) zeroBase s.

(** [memcpy] of words [i], [i + 1], ... between two mapped pages *)
Fixpoint copy_words (count : nat) (dst src : Z) (s : pstate F) : res (pstate F) :=
  match count with
  | O => mret s
  | S count =>
      '(sa, s) ← access pe_fuel src false s;
      '(da, s) ← access pe_fuel dst true s;
      copy_words count (dst + 8)%w (src + 8)%w (wr da (rd s sa) s)
  end.

(** the result of [mapPage] is not used; [index] is the processor's *)
Definition clone (index newpt : Z) (s : pstate F) : res (pstate F) :=
  let cloneAddr := (cloneBase + pagetableps * index)%w in
  '(_, s) ← mapPage 1 cloneAddr newpt (Z.lor pt_Data pt_Kernel) s;
  let half := ptentries / 2 in
  s ← copy_words (Z.to_nat half) (cloneAddr + 8 * half)%w (paging_root + 8 * half)%w s;
  '(ea, s) ← access pe_fuel (cloneAddr + 8 * recptindex)%w true s;
  let s := wr ea (Z.lor newpt pt_PageTable) s in
  '(_, s) ← unmap 1 cloneAddr s;
  mret s.
End clone.

(** ** Regions as frames *)
Lemma mem_free_spec mem i : rs_wf mem -> mem_free mem i = true <-> forall a, 4096 * i <= a < 4096 * i + 4096 -> covered mem a.
Proof.
  intros Hwf. pose proof (covers_iff (page_of i) mem Hwf ltac:(simpl; lia)) as Hc. unfold inside in Hc. simpl in Hc.
  rewrite <- Hc. unfold mem_free. rewrite existsb_exists. split; intros (r & Hr & ?); exists r; split; try done;
    by apply list_elem_of_In.
Qed.

Lemma mem_free_take mem mem' a k : rs_wf mem -> rs_wf mem' -> 12 <= k -> a mod 2 ^ k = 0 ->
  (forall x, a <= x < a + 2 ^ k -> covered mem x) ->
  (forall x, covered mem' x <-> covered mem x /\ ~ a <= x < a + 2 ^ k) ->
  (forall i, a / 4096 <= i < (a + 2 ^ k) / 4096 -> mem_free mem i = true) /\
  forall i, mem_free mem' i = mem_free mem i && negb ((a / 4096 <=? i) && (i <? (a + 2 ^ k) / 4096)).
Proof.
  intros Hwf Hwf' Hk Ha Hin Hc.
  assert (exists q, a = 4096 * q) as [q Hq].
  { exists (a / 4096). assert (a mod 4096 = 0) as Hm; [|pose proof (Z.div_mod a 4096); lia].
    apply Z.mod_divide in Ha; [|lia]. apply Z.mod_divide; [lia|]. eapply Z.divide_trans; [|exact Ha].
    exists (2 ^ (k - 12)). change 4096 with (2 ^ 12). rewrite <- Z.pow_add_r by lia. f_equal. lia. }
  assert (2 ^ k = 4096 * 2 ^ (k - 12)) as Hp by (change 4096 with (2 ^ 12); rewrite <- Z.pow_add_r by lia; f_equal; lia).
  pose proof (Z.pow_pos_nonneg 2 (k - 12)) as Hpos. set (c := 2 ^ (k - 12)) in *. rewrite Hp in *. subst a.
  replace (4096 * q / 4096) with q by (rewrite Z.mul_comm, Z.div_mul; lia).
  replace ((4096 * q + 4096 * c) / 4096) with (q + c) by (rewrite <- Z.mul_add_distr_l, Z.mul_comm, Z.div_mul; lia).
  assert (forall i, q <= i < q + c -> mem_free mem i = true) as Hf.
  { intros i Hi. apply mem_free_spec; [done|]. intros x Hx. apply Hin. lia. }
  split; [done|]. intros i. apply eq_bool_prop_intro. rewrite !Is_true_true, andb_true_iff, negb_true_iff, andb_false_iff, Z.leb_gt, Z.ltb_ge.
  rewrite !mem_free_spec by done. split.
  - intros Hi. split; [intros x Hx; by apply Hc, Hi|]. destruct (Z.lt_ge_cases i q); [by left|right].
    destruct (Hc (4096 * i)) as [H1 _]. destruct (H1 (Hi (4096 * i) ltac:(lia))) as [_ Hno]. lia.
  - intros [Hi Hout] x Hx. apply Hc. split; [by apply Hi|]. lia.
Qed.

(** what [retrieve] takes *)
Record taken (n : nat) (a : Z) (mem mem' : regions) : Prop := {
  tk_ok : mem_ok mem';
  tk_al : a mod psz n = 0;
  tk_lo : 0 <= a;
  tk_hi : a + psz n <= 2 ^ 51;
  tk_in x : a <= x < a + psz n -> covered mem x;
  tk_cov x : covered mem' x <-> covered mem x /\ ~ a <= x < a + psz n;
  tk_free i : a / 4096 <= i < (a + psz n) / 4096 -> mem_free mem i = true;
  tk_less i : mem_free mem' i = mem_free mem i && negb ((a / 4096 <=? i) && (i <? (a + psz n) / 4096))
}.

Lemma covered_range mem lo hi a : Forall (fun r => lo <= r_start r /\ r_end r <= hi) mem -> covered mem a -> lo <= a < hi.
Proof. intros Hb Hc. apply Exists_exists in Hc as (r & Hr & Ha). rewrite Forall_forall in Hb. specialize (Hb r Hr). simpl in Hb. lia. Qed.

Lemma wf_range mem lo hi : rs_wf mem -> (forall a, covered mem a -> lo <= a < hi) ->
  Forall (fun r => lo <= r_start r /\ r_end r <= hi) mem.
Proof.
  intros Hwf Hc. apply Forall_forall. intros r Hr. assert (r_start r < r_end r) as Hv.
  { clear Hc. induction mem as [|x mem IH]; [by apply elem_of_nil in Hr|]. destruct Hwf as (Hx & _ & Hwf).
    apply elem_of_cons in Hr as [->|Hr]; auto. }
  assert (forall a, r_start r <= a < r_end r -> covered mem a) as Hin.
  { intros a Ha. apply Exists_exists. by exists r. }
  pose proof (Hc _ (Hin (r_start r) ltac:(lia))). pose proof (Hc _ (Hin (r_end r - 1) ltac:(lia))). lia.
Qed.

Lemma retrieve_spec n s : (1 <= n <= 2)%nat -> mem_ok (pframes s) ->
  match retrieve n s with
  | Ok (a, s') => s' = set_frames (pframes s') s /\ taken n a (pframes s) (pframes s')
  | Err e => e = AssertFailed
  end.
Proof.
  intros Hn [Hwf Hb]. unfold retrieve.
  assert (exists k, psz n = 2 ^ k /\ 12 <= k <= 21) as (k & Hpk & Hk).
  { exists (12 + 9 * (Z.of_nat n - 1)). rewrite psz_eq by lia. split; [done|lia]. }
  assert (2 ^ k <= 2 ^ 21) as Hle by (apply Z.pow_le_mono_r; lia).
  rewrite Hpk. destruct (front_loop_spec k (pframes s) ltac:(lia) Hwf) with (fault := false) (pre := @nil Region) (its := pframes s)
    as [(mem & a & Hr & [Hal Hin] & _ & Hwf' & Hc)|[_ Hr]].
  - eapply Forall_mono; [|exact Hb]. simpl. lia.
  - done.
  - intros t b Ht. by apply elem_of_nil in Ht.
  - unfold retrieve_front. rewrite Hr. cbn [mbind res_bind mret res_ret]. split; [done|].
    change (pframes (set_frames mem s)) with mem.
    assert (forall x, covered (pframes s) x -> 0 <= x < 2 ^ 51) as Hrange by (intros x; by apply covered_range).
    pose proof (Z.pow_pos_nonneg 2 k). destruct (mem_free_take (pframes s) mem a k) as [Hf Hl]; try done; [lia|].
    pose proof (Hrange a (Hin a ltac:(lia))). pose proof (Hrange (a + 2 ^ k - 1) (Hin (a + 2 ^ k - 1) ltac:(lia))).
    constructor; rewrite ?Hpk; try done; try lia.
    split; [done|]. apply wf_range; [done|]. intros x Hx. apply Hrange. by apply Hc in Hx as [? _].
  - unfold retrieve_front. by rewrite Hr.
Qed.

(** ** A table is added *)
Record table_added (n : nat) (addr : Z) (s s' : pstate regions) : Prop := {
  ta_inv : pt_inv s';
  ta_grows : grows s s';
  ta_new va : same_idx (S n) addr va -> entry n va s' = Some 0;
  ta_other va m : plain_slot va -> ~ same_idx (S n) addr va -> (1 <= m <= 4)%nat -> entry m va s' = entry m va s;
  ta_cov x : covered (pframes s') x -> covered (pframes s) x
}.

(** what [retrieve] took is zeroed *)
Lemma taken_zeroed n pt mem s : (1 <= n <= 2)%nat -> pt_inv s -> taken n pt (pframes s) mem ->
  let s2 := zeroed pt (psz n) (set_frames mem s) in
  pt_inv s2 /\ grows s s2 /\ (forall m va, (1 <= m <= 4)%nat -> plain_slot va -> entry m va s2 = entry m va s) /\
  (forall a, pt <= a < pt + psz n -> rd s2 a = 0) /\
  (forall m va c a, (1 <= m <= 4)%nat -> plain_slot va -> table_at m va s = Some c -> c <= a < c + 4096 -> ~ (pt <= a < pt + psz n)).
Proof.
  intros Hn Hs Ht s2. assert (psz n mod 4096 = 0 /\ 0 < psz n) as [Hpz Hpp] by
    (destruct (decide (n = 1%nat)) as [->|]; [done|by replace n with 2%nat by lia]).
  assert (pt mod 4096 = 0) as Hpm.
  { pose proof (tk_al _ _ _ _ Ht) as Ha. destruct (decide (n = 1%nat)) as [->|]; [done|]. replace n with 2%nat in Ha by lia.
    change (psz 2) with (4096 * 512) in Ha. clear - Ha. Z.to_euclidean_division_equations. lia. }
  destruct (take_tables s mem (psz n) pt Hs (tk_ok _ _ _ _ Ht) Hpm Hpz Hpp (tk_free _ _ _ _ Ht) (tk_less _ _ _ _ Ht)) as (Hs2 & Hg & He).
  split_and!; try done.
  - intros a Ha. unfold s2. rewrite zeroed_rd, decide_False by lia. done.
  - intros m va c a Hm Hva Hc Ha Hin. destruct (table_aligned m va s c Hs Hm Hc) as [Hal _].
    pose proof (pi_used _ Hs m va c Hm Hva Hc) as Hu. cbn [fa_free regions_source] in Hu. rewrite (tk_free _ _ _ _ Ht) in Hu; [done|].
    clear - Hin Hpm Hpz Ha Hal. Z.to_euclidean_division_equations. lia.
Qed.

Lemma taken_link n pt mem mem' : taken 1 pt mem mem' -> (1 <= n < 4)%nat -> table_link n pt (Z.lor pt pt_PageTable).
Proof.
  intros [_ Hal Hlo Hhi _ _ _ _] Hn. change (psz 1) with 4096 in *. apply (link_entry n pt 3); auto; lia.
Qed.

(** a zeroed page that was taken from the free ones is linked as a table *)
Section added.
Context {F : Type} `{FrameSourceLaws F}.
Context (s s2 : pstate F) (n : nat) (addr b pt : Z).
Context (Hs : pt_inv s) (Hn : (1 <= n < 4)%nat) (Hva : plain_slot addr) (Hb : table_at (S n) addr s = Some b).
Context (Hz : rd s (b + 8 * pageIndex (S n) addr) = 0) (Hpm : pt mod 4096 = 0) (Hpb : 0 <= pt < 2 ^ 51).
Context (Hs2 : pt_inv s2) (Hg : grows s s2) (He : forall m va, (1 <= m <= 4)%nat -> plain_slot va -> entry m va s2 = entry m va s).
Context (Hzero : forall a, pt <= a < pt + 4096 -> rd s2 a = 0).
Context (Hf1 : fa_free (pframes s) (pt / 4096) = true) (Hf2 : fa_free (pframes s2) (pt / 4096) = false).
Let x := Z.lor pt pt_PageTable.
Let s3 := wr (b + 8 * pageIndex (S n) addr) x s2.

Lemma added_table :
  (pt_inv s3 /\ grows s s3) /\ (forall va, same_idx (S n) addr va -> entry n va s3 = Some 0) /\
  (forall va m, plain_slot va -> ~ same_idx (S n) addr va -> (1 <= m <= 4)%nat -> entry m va s3 = entry m va s) /\
  table_at n addr s3 = Some pt.
Proof.
  assert (table_link n pt x) as Hl by (apply (link_entry n pt 3); auto).
  assert (forall m va, (1 <= m <= 4)%nat -> plain_slot va -> table_at m va s2 = table_at m va s) as Htab.
  { intros m va Hm Hp. apply same_entries_table; [|done]. split; [apply (gr_cr3 _ _ Hg)|]. intros. by apply He. }
  assert (table_at (S n) addr s2 = Some b) as Hb2 by (rewrite Htab by (done || lia); done).
  assert (rd s2 (b + 8 * pageIndex (S n) addr) = 0) as Hz2.
  { pose proof (He (S n) addr ltac:(lia) Hva) as E. unfold entry in E. rewrite Hb2, Hb in E. cbn [mbind option_bind] in E. congruence. }
  assert (forall m va c, (1 <= m <= 4)%nat -> plain_slot va -> table_at m va s2 = Some c -> c <> pt) as Hfresh.
  { intros m va c Hm Hp Hc ->. rewrite Htab in Hc by done. pose proof (pi_used _ Hs m va pt Hm Hp Hc). congruence. }
  split; [split|split; [|split]].
  - apply (link_inv s2 n addr b pt); (done || lia).
  - apply (link_grows s s2 n addr b pt); (done || lia).
  - intros va Hi. assert (plain_slot va) as Hp by (by eapply (plain_idx (S n)); [lia|exact Hi|]).
    unfold entry, s3. rewrite (link_table s2 n addr b pt) by (done || lia). rewrite decide_True by done. cbn [mbind option_bind]. f_equal.
    apply (link_fresh s2 n addr b pt); first [done|lia|apply pageIndex_bounds; lia].
  - intros va m Hp Hi Hm. rewrite <- He by done. apply (write_entry s2 Hs2 (S n) addr b); (done || lia || tauto).
  - unfold s3. rewrite (link_table s2 n addr b pt) by (done || lia). by rewrite decide_True.
Qed.
End added.

Lemma new_table (s : pstate regions) n addr b pt mem : pt_inv s -> (1 <= n < 4)%nat -> plain_slot addr -> table_at (S n) addr s = Some b ->
  rd s (b + 8 * pageIndex (S n) addr) = 0 -> taken 1 pt (pframes s) mem ->
  let s3 := wr (b + 8 * pageIndex (S n) addr) (Z.lor pt pt_PageTable) (zeroed pt pagetableps (set_frames mem s)) in
  table_added n addr s s3 /\ table_at n addr s3 = Some pt.
Proof.
  intros Hs Hn Hva Hb Hz Ht s3. destruct (taken_zeroed 1 pt mem s ltac:(lia) Hs Ht) as (Hs2 & Hg & He & Hzero & _). cbv zeta in *.
  pose proof (tk_lo _ _ _ _ Ht). pose proof (tk_hi _ _ _ _ Ht). pose proof (tk_al _ _ _ _ Ht) as Hal. change (psz 1) with 4096 in *.
  assert (mem_free (pframes s) (pt / 4096) = true /\ mem_free mem (pt / 4096) = false) as [Hf1 Hf2].
  { rewrite (tk_less _ _ _ _ Ht). change (psz 1) with 4096.
    rewrite (tk_free _ _ _ _ Ht) by (change (psz 1) with 4096; clear - Hal; Z.to_euclidean_division_equations; lia).
    split; [done|]. assert ((pt + 4096) / 4096 = pt / 4096 + 1) as -> by (clear - Hal; Z.to_euclidean_division_equations; lia).
    destruct (Z.leb_spec (pt / 4096) (pt / 4096)), (Z.ltb_spec (pt / 4096) (pt / 4096 + 1)); simpl; lia || done. }
  destruct (added_table s (zeroed pt 4096 (set_frames mem s)) n addr b pt) as ([Hi Hg3] & Hnew & Hother & Htab); try done; [lia|].
  split; [|done]. constructor; try done. intros a. change (pframes s3) with mem. rewrite (tk_cov _ _ _ _ Ht). tauto.
Qed.

Lemma zeroed_wr {F} pma size a x (s : pstate F) : ~ (pma <= a < pma + size) -> zeroed pma size (wr a x s) = wr a x (zeroed pma size s).
Proof.
  intros Ha. unfold zeroed, wr. cbn [pmem cr3 pframes]. unfold zero_range. rewrite map_filter_insert_True; [done|]. simpl. lia.
Qed.

Lemma align_idx n addr : (1 <= n < 4)%nat -> is_word 64 addr -> is_canonical addr = true ->
  let a := align_down 64 addr (psz (S n)) in same_idx (S n) addr a /\ pageIndex n a = 0.
Proof.
  intros Hn Hw Hc a. assert (psz (S n) = 2 ^ (12 + 9 * Z.of_nat n)) as Hp by (rewrite psz_eq by lia; f_equal; lia).
  set (k := 12 + 9 * Z.of_nat n) in *. assert (12 <= k <= 39) as Hk by lia.
  assert (0 < 2 ^ k) as Hpos by (apply Z.pow_pos_nonneg; lia).
  assert (a = addr / 2 ^ k * 2 ^ k) as Ha by (unfold a; rewrite Hp; apply align_down_eq; [lia|done]).
  assert (2 ^ 47 = 2 ^ (47 - k) * 2 ^ k) as H47 by (rewrite <- Z.pow_add_r by lia; f_equal; lia).
  assert (2 ^ 64 - 2 ^ 47 = (2 ^ (64 - k) - 2 ^ (47 - k)) * 2 ^ k) as H64.
  { rewrite Z.mul_sub_distr_r, <- !Z.pow_add_r by lia. replace (64 - k + k) with 64 by lia. by replace (47 - k + k) with 47 by lia. }
  pose proof (Z.div_mod addr (2 ^ k) ltac:(lia)) as Hd. pose proof (Z.mod_pos_bound addr (2 ^ k) Hpos) as Hm.
  assert (0 <= a <= addr) as Hle by (rewrite Ha; pose proof (Z.div_pos addr (2 ^ k)); unfold is_word in Hw; nia).
  assert (is_canonical a = true) as Hca.
  { unfold is_canonical in *. apply orb_true_iff in Hc as [Hc%Z.ltb_lt|Hc%Z.leb_le]; apply orb_true_iff.
    - left. apply Z.ltb_lt. lia.
    - right. apply Z.leb_le. rewrite H64, Ha in *. apply Z.mul_le_mono_nonneg_r; [lia|]. apply Z.div_le_lower_bound; [done|]. lia. }
  split.
  - apply same_idx_page; try done; [lia|unfold is_word in *; lia|]. rewrite Hp, Ha. by rewrite Z.div_mul by lia.
  - rewrite pageIndex_eq by lia. fold k. rewrite Ha, Z.mod_mul by lia. apply Zdiv_0_l.
Qed.

(** the new entry, before the table is zeroed *)
Section linked.
Context (s : pstate regions) (n : nat) (addr b pt : Z).
Context (Hs : pt_inv s) (Hn : (1 <= n < 4)%nat) (Hva : plain_slot addr) (Hb : table_at (S n) addr s = Some b).
Context (x : Z) (Hl : table_link n pt x).
Let ea := b + 8 * pageIndex (S n) addr.

Lemma linked_root : pt_root (wr ea x s).
Proof.
  destruct Hl as (Hxp & Hxa & Hx7 & Hxi & _).
  assert (rd (wr ea x s) (cr3 s + 8 * recptindex) = rd s (cr3 s + 8 * recptindex)) as Hrec.
  { rewrite rd_wr, decide_False; [done|]. apply not_eq_sym, (write_rec s Hs (S n) addr b); (done || lia). }
  constructor.
  - apply Hs.
  - change (cr3 (wr ea x s)) with (cr3 s). rewrite Hrec. apply Hs.
  - intros va pe He Hp. unfold entry in He. rewrite table_at_4 in He. cbn [mbind option_bind] in He.
    change (cr3 (wr ea x s)) with (cr3 s) in He. rewrite rd_wr in He. case_decide; injection He as <-; [done|].
    apply (pi_top _ Hs va); [|done]. unfold entry. by rewrite table_at_4.
Qed.

Lemma linked_access a w : same_idx (S n) addr a -> pageIndex n a = 0 -> access pe_fuel (accessPE n a) w (wr ea x s) = Ok (pt, wr ea x s).
Proof.
  intros Hi H0. destruct Hl as (Hxp & Hxa & Hx7 & Hxi & _).
  assert (plain_slot a) as Ha by (by eapply (plain_idx (S n)); [lia|exact Hi|]).
  destruct (write_at s Hs (S n) addr b x ltac:(lia) Hva Hb a Hi) as [Ht He]. fold ea in Ht, He.
  apply access_hit. rewrite root_translate_PE; [|by apply linked_root|lia|].
  - rewrite table_at_S, He by lia. cbn [mbind option_bind]. rewrite Hxp, Hxi. cbn [andb negb mbind option_bind]. f_equal. lia.
  - intros m pe Hm Hpe. destruct (decide (m = S n)) as [->|Hne]; [right; split; congruence|].
    assert (entry m a s = Some pe) as Hpe'.
    { rewrite <- Hpe. symmetry. apply (write_entry s Hs (S n) addr b x); (done || lia). }
    assert (entry (S n) a s = Some (rd s ea)) as Hes.
    { rewrite <- (entry_idx (S n) addr a) by (done || lia). unfold entry. by rewrite Hb. }
    destruct (entry_above (S n) a s _ ltac:(lia) Hes m ltac:(lia)) as (pe' & E & Hp & Hpg). right. split; congruence.
Qed.
End linked.

Lemma setPE_hit {F} `{FrameSourceLaws F} n va x (s : pstate F) e : pt_inv s -> (1 <= n <= 4)%nat -> entry n va s = Some e ->
  exists b, table_at n va s = Some b /\ e = rd s (b + 8 * pageIndex n va) /\ setPE n va x s = Ok (wr (b + 8 * pageIndex n va) x s).
Proof.
  intros Hs Hn He. pose proof He as (b & Hb & E)%entry_Some. exists b. split; [done|]. split; [done|]. unfold setPE.
  rewrite (access_hit _ _ _ _ (b + 8 * pageIndex n va)); [done|]. rewrite translate_PE; [by rewrite Hb|done..|].
  intros m pe Hm Hpe. destruct (entry_above n va s e Hn He m Hm) as (pe' & E' & ? & ?). right. split; congruence.
Qed.

Lemma boot_table_spec n addr s : pt_inv s -> (1 <= n < 4)%nat -> plain_slot addr -> is_word 64 addr -> is_canonical addr = true ->
  entry (S n) addr s = Some 0 ->
  match boot_table n addr s with
  | Ok s' => table_added n addr s s'
  | Err e => e = AssertFailed
  end.
Proof.
  intros Hs Hn Hva Hw Hc He. unfold boot_table. pose proof (retrieve_spec 1 s ltac:(lia) (pi_ok _ Hs)) as Hr.
  destruct (retrieve 1 s) as [[pt s1]|]; cbn [mbind res_bind]; [|done]. destruct Hr as [Hs1 Ht]. set (mem := pframes s1) in *.
  assert (pt_inv (set_frames mem s)) as Hi1.
  { apply frames_inv; [done|apply Ht|]. intros i. cbn [fa_free regions_source]. rewrite (tk_less _ _ _ _ Ht). by intros [? _]%andb_true_iff. }
  pose proof He as (b & Hb & Hz)%entry_Some. rewrite Hs1.
  destruct (setPE_hit (S n) addr (Z.lor pt pt_PageTable) (set_frames mem s) 0) as (b' & Hb' & _ & ->); [done|lia|by rewrite entry_frames|].
  rewrite table_frames, Hb in Hb'. injection Hb' as <-. cbn [mbind res_bind]. unfold memset_page, pageTable.
  destruct (align_idx n addr Hn Hw Hc) as [Hi H0].
  rewrite (linked_access (set_frames mem s) n addr b pt Hi1 Hn Hva) by (rewrite ?table_frames; done || by eapply taken_link).
  cbn [mbind res_bind mret res_ret]. rewrite zeroed_wr.
  - by apply new_table.
  - destruct (taken_zeroed 1 pt mem s ltac:(lia) Hs Ht) as (_ & _ & _ & _ & Hno). apply (Hno (S n) addr b); try done; [lia|].
    pose proof (pageIndex_bounds (S n) addr ltac:(lia)). lia.
Qed.

(** ** The loops of bootstrap2 *)
Lemma heap_addr va : kernelbot <= va < kerneltop -> is_word 64 va /\ is_canonical va = true /\ plain_slot va.
Proof.
  change kernelbot with (2 ^ 64 - 2 ^ 47 + 2 ^ 40). change kerneltop with (2 ^ 64 - 2 ^ 39). intros Hv. split_and!.
  - unfold is_word. lia.
  - unfold is_canonical. apply orb_true_iff. right. apply Z.leb_le. lia.
  - unfold plain_slot. change recptindex with 256. rewrite pageIndex_eq by lia. change (12 + 9 * Z.of_nat 4) with 48.
    change (12 + 9 * (Z.of_nat 4 - 1)) with 39. Z.to_euclidean_division_equations. lia.
Qed.

Lemma kerneltop_aligned n : (1 <= n <= 4)%nat -> kerneltop mod psz n = 0.
Proof. intros Hn. destruct (levels_cases n Hn) as [->|[->|[->| ->]]]; by vm_compute. Qed.

Lemma aligned_gap a k size : 0 < size -> a mod size = 0 -> k mod size = 0 -> a < k -> a + size <= k.
Proof.
  intros Hs Ha Hk Hlt. pose proof (Z.div_mod a size ltac:(lia)). pose proof (Z.div_mod k size ltac:(lia)).
  assert (a / size < k / size) by nia. nia.
Qed.

Lemma same_block a va size : 0 < size -> a mod size = 0 -> va / size = a / size <-> a <= va < a + size.
Proof.
  intros Hs Ha. pose proof (Z.div_mod a size ltac:(lia)). pose proof (Z.div_mod va size ltac:(lia)).
  pose proof (Z.mod_pos_bound va size Hs). split; [intros E; nia|]. intros Hv.
  symmetry. apply (Z.div_unique_pos va size (a / size) (va - a)); lia.
Qed.

(** level-[n] tables for [lo, kerneltop) *)
Record tables_added (n : nat) (lo : Z) (s s' : pstate regions) : Prop := {
  tsa_inv : pt_inv s';
  tsa_grows : grows s s';
  tsa_new va : lo <= va < kerneltop -> entry n va s' = Some 0;
  tsa_other va m : plain_slot va -> is_word 64 va -> is_canonical va = true -> ~ (lo <= va < kerneltop) -> (1 <= m <= 4)%nat ->
    entry m va s' = entry m va s;
  tsa_cov x : covered (pframes s') x -> covered (pframes s) x
}.

Lemma boot_tables_spec n count addr s : (1 <= n < 4)%nat -> addr mod psz (S n) = 0 -> kernelbot <= addr <= kerneltop ->
  kerneltop - addr <= Z.of_nat count * psz (S n) -> pt_inv s -> (forall va, addr <= va < kerneltop -> entry (S n) va s = Some 0) ->
  match boot_loop (boot_table n) count (psz (S n)) addr s with
  | Ok s' => tables_added n addr s s'
  | Err e => e = AssertFailed
  end.
Proof.
  intros Hn. pose proof (psz_pos (S n) ltac:(lia)) as Hpos. pose proof (kerneltop_aligned (S n) ltac:(lia)) as Hkt.
  assert (psz (S n) <= 2 ^ 39) as Hsz by (rewrite psz_eq by lia; apply Z.pow_le_mono_r; lia).
  revert addr s. induction count as [|count IH]; intros addr s Hal Hlo Hcnt Hs He; cbn [boot_loop].
  { cbn. constructor; auto using grows_refl; intros; lia. }
  destruct (Z.ltb_spec addr kerneltop) as [Hlt|Hge].
  2:{ cbn. constructor; auto using grows_refl; intros; lia. }
  destruct (heap_addr addr ltac:(lia)) as (Hw & Hc & Hp).
  pose proof (boot_table_spec n addr s Hs Hn Hp Hw Hc (He addr ltac:(lia))) as Ht.
  destruct (boot_table n addr s) as [s1|]; cbn [mbind res_bind]; [|done].
  pose proof (aligned_gap addr kerneltop (psz (S n)) Hpos Hal Hkt Hlt) as Hgap.
  assert (forall va, is_word 64 va -> is_canonical va = true -> same_idx (S n) addr va <-> addr <= va < addr + psz (S n)) as Hblock.
  { intros va Hwv Hcv. rewrite same_idx_page by (done || lia). rewrite <- same_block by done. split; congruence. }
  assert (0 <= addr + psz (S n) < 2 ^ 64) as Hsmall by (change kerneltop with (2 ^ 64 - 2 ^ 39) in Hgap; unfold is_word in Hw; lia).
  rewrite (wrap_small 64 (addr + psz (S n))) by done.
  specialize (IH (addr + psz (S n)) s1). rewrite <- Zplus_mod_idemp_r, Z_mod_same_full, Z.add_0_r in IH.
  rewrite Nat2Z.inj_succ, Z.mul_succ_l in Hcnt. specialize (IH Hal ltac:(lia) ltac:(lia) (ta_inv _ _ _ _ Ht)).
  destruct (boot_loop (boot_table n) count (psz (S n)) (addr + psz (S n)) s1) as [s'|]; [|apply IH].
  - assert (forall va, addr + psz (S n) <= va < kerneltop -> entry (S n) va s1 = Some 0) as He1.
    { intros va Hv. destruct (heap_addr va ltac:(lia)) as (Hwv & Hcv & Hpv). rewrite (ta_other _ _ _ _ Ht); [apply He; lia|done| |lia].
      rewrite Hblock by done. lia. }
    specialize (IH He1). constructor.
    + apply IH.
    + eapply grows_trans; [apply Ht|apply IH].
    + intros va Hv. destruct (heap_addr va ltac:(lia)) as (Hwv & Hcv & Hpv). destruct (decide (va < addr + psz (S n))).
      * rewrite (tsa_other _ _ _ _ IH) by (done || lia). apply (ta_new _ _ _ _ Ht). apply Hblock; (done || lia).
      * apply (tsa_new _ _ _ _ IH). lia.
    + intros va m Hpv Hwv Hcv Hout Hm. rewrite (tsa_other _ _ _ _ IH) by (done || lia).
      apply (ta_other _ _ _ _ Ht); [done| |done]. rewrite Hblock by done. lia.
    + intros a Ha. by apply (ta_cov _ _ _ _ Ht), (tsa_cov _ _ _ _ IH).
  - intros va Hv. destruct (heap_addr va ltac:(lia)) as (Hwv & Hcv & Hpv). rewrite (ta_other _ _ _ _ Ht); [apply He; lia|done| |lia].
    rewrite Hblock by done. lia.
Qed.

Lemma boot_range_count lo size : 0 < size -> lo <= kerneltop -> kerneltop - lo <= Z.of_nat (Z.to_nat ((kerneltop - lo + size - 1) / size)) * size.
Proof.
  intros Hs Hl. pose proof (Z.div_pos (kerneltop - lo + size - 1) size ltac:(lia) Hs). rewrite Z2Nat.id by done.
  pose proof (Z.div_mod (kerneltop - lo + size - 1) size ltac:(lia)). pose proof (Z.mod_pos_bound (kerneltop - lo + size - 1) size Hs). nia.
Qed.

(** ** Pages of the heap *)
(** [a] is neither free nor in a table *)
Definition settled (s : pstate regions) (a : Z) : Prop :=
  mem_free (pframes s) (a / 4096) = false /\
  forall m va b, (1 <= m <= 4)%nat -> plain_slot va -> table_at m va s = Some b -> a / 4096 <> b / 4096.

Record page_added (addr page : Z) (s s' : pstate regions) : Prop := {
  pa_inv : pt_inv s';
  pa_taken : taken 2 page (pframes s) (pframes s');
  pa_map va : plain_slot va -> is_word 64 va -> is_canonical va = true ->
    translate va s' = if decide (va / psz 2 = addr / psz 2) then Some (page + va mod psz 2) else translate va s;
  pa_zero a : page <= a < page + psz 2 -> rd s' a = 0;
  pa_tables m va b : (1 <= m <= 4)%nat -> plain_slot va -> table_at m va s' = Some b -> table_at m va s = Some b;
  pa_upper m va : (2 <= m <= 4)%nat -> plain_slot va -> table_at m va s' = table_at m va s;
  pa_entries m va : (3 <= m <= 4)%nat -> plain_slot va -> entry m va s' = entry m va s;
  pa_out va : plain_slot va -> is_word 64 va -> is_canonical va = true -> va / psz 2 <> addr / psz 2 -> entry 2 va s' = entry 2 va s;
  pa_keep a : settled s a -> rd s' a = rd s a
}.

Lemma data_type flags : flags = pt_Code \/ flags = pt_Data -> page_type (Z.lor pt_Kernel flags).
Proof.
  intros Hf. unfold page_type. rewrite Z.lor_spec. split; [by destruct Hf as [-> | ->]|]. intros i Hi. rewrite Z.lor_spec.
  change pt_Kernel with (2 ^ 8). rewrite pow2_testbit by lia. destruct (Z.eqb_spec i 8); [lia|]. cbn [orb].
  destruct Hf as [-> | ->].
  - change pt_Code with (2 ^ 0). rewrite pow2_testbit by lia. destruct (Z.eqb_spec i 0); [lia|done].
  - change pt_Data with (Z.lor (Z.lor (2 ^ 0) (2 ^ 63)) (2 ^ 1)). rewrite !Z.lor_spec, !pow2_testbit by lia.
    destruct (Z.eqb_spec i 0), (Z.eqb_spec i 63), (Z.eqb_spec i 1); lia || done.
Qed.

Lemma boot_page_spec addr s : pt_inv s -> plain_slot addr -> is_word 64 addr -> is_canonical addr = true -> addr mod psz 2 = 0 ->
  is_Some (table_at 2 addr s) ->
  match boot_page addr s with
  | Ok s' => exists page, page_added addr page s s'
  | Err e => e = AssertFailed
  end.
Proof.
  intros Hs Hva Hw Hc Hal [b Hb]. unfold boot_page. pose proof (retrieve_spec 2 s ltac:(lia) (pi_ok _ Hs)) as Hr.
  destruct (retrieve 2 s) as [[page s1]|]; cbn [mbind res_bind]; [|done]. destruct Hr as [Hs1 Ht]. set (mem := pframes s1) in *.
  assert (pt_inv (set_frames mem s)) as Hi1.
  { apply frames_inv; [done|apply Ht|]. intros i. cbn [fa_free regions_source]. rewrite (tk_less _ _ _ _ Ht). by intros [? _]%andb_true_iff. }
  rewrite Hs1. set (x := Z.lor (Z.lor (Z.lor page pt_Kernel) pt_Data) (xPS 2)).
  assert (leaf 2 x /\ present x = true /\ addr_of x = page) as (Hl & Hpr & Ha).
  { unfold x. rewrite <- (Z.lor_assoc page). pose proof (data_type pt_Data ltac:(by right)). apply page_entry; [lia| |apply Ht|done].
    pose proof (tk_lo _ _ _ _ Ht). pose proof (tk_hi _ _ _ _ Ht). change (psz 2) with (2 ^ 21) in *. lia. }
  assert (entry 2 addr (set_frames mem s) = Some (rd s (b + 8 * pageIndex 2 addr))) as He by (rewrite entry_frames; unfold entry; by rewrite Hb).
  destruct (setPE_hit 2 addr x _ _ Hi1 ltac:(lia) He) as (b' & Hb' & _ & ->). rewrite table_frames, Hb in Hb'. injection Hb' as <-.
  cbn [mbind res_bind]. unfold memset_page. set (ea := b + 8 * pageIndex 2 addr).
  destruct (taken_zeroed 2 page mem s ltac:(lia) Hs Ht) as (Hs2 & Hg & He2 & Hzero & Hno). cbv zeta in *.
  rewrite (access_hit _ _ _ _ page).
  2:{ unfold ea. rewrite leaf_translate by (rewrite ?table_frames; done || lia). rewrite decide_True by (by intros ? ?).
      rewrite Hpr, Ha, Hal. f_equal. lia. }
  cbn [mbind res_bind mret res_ret]. change kernelps with (psz 2). rewrite zeroed_wr.
  2:{ apply (Hno 2%nat addr b); try done; [lia|]. pose proof (pageIndex_bounds 2 addr ltac:(lia)). unfold ea. lia. }
  set (s2 := zeroed page (psz 2) (set_frames mem s)) in *.
  assert (forall m va, (1 <= m <= 4)%nat -> plain_slot va -> table_at m va s2 = table_at m va s) as Htab.
  { intros m va Hm Hp. apply same_entries_table; [|done]. split; [done|]. intros. by apply He2. }
  assert (table_at 2 addr s2 = Some b) as Hb2 by (rewrite Htab by (done || lia); done).
  destruct (leaf_remapped 2 addr b x s s2 Hs2 Hg ltac:(lia) Hva Hw Hc Hb2 Hl) as [Hs3 Hm]. fold ea in Hs3, Hm. rewrite Hpr, Ha in Hm.
  assert (forall m va c, (1 <= m <= 4)%nat -> plain_slot va -> table_at m va (wr ea x s2) = Some c -> table_at m va s = Some c) as Hdown.
  { intros m va c Hm' Hp Hc'. rewrite <- Htab by done. apply (write_leaf_table s2 Hs2 2 addr b x ltac:(lia) Hva Hb2 m va c); (done || apply Hl). }
  exists page. constructor; try done.
  - intros a Hra. rewrite rd_wr, decide_False; [by apply Hzero|]. intros ->. apply (Hno 2%nat addr b ea); try done; [lia|].
    pose proof (pageIndex_bounds 2 addr ltac:(lia)). unfold ea. lia.
  - intros m va Hm' Hp. rewrite <- Htab by (done || lia). apply (write_table s2 Hs2 2 addr b); (done || lia).
  - intros m va Hm' Hp. rewrite <- He2 by (done || lia). apply (write_entry s2 Hs2 2 addr b); (done || lia).
  - intros va Hp Hwv Hcv Hne. rewrite <- He2 by (done || lia). apply (write_entry s2 Hs2 2 addr b); try done; [lia..|].
    intros [_ Hi]. apply Hne. symmetry. by apply (same_idx_page 2 addr va ltac:(lia)).
  - intros a [Hf Hnt]. rewrite rd_wr, decide_False.
    + unfold s2. rewrite zeroed_rd. case_decide as Hd; [done|]. rewrite (tk_free _ _ _ _ Ht) in Hf; [done|].
      pose proof (tk_al _ _ _ _ Ht) as Hpa. change (psz 2) with (4096 * 512) in *. clear - Hd Hpa. Z.to_euclidean_division_equations. lia.
    + intros ->. apply (Hnt 2%nat addr b ltac:(lia) Hva Hb). destruct (table_aligned 2 addr s b Hs ltac:(lia) Hb) as [Hba _].
      pose proof (pageIndex_bounds 2 addr ltac:(lia)) as Hpi. unfold ea. clear - Hba Hpi. Z.to_euclidean_division_equations. lia.
Qed.

(** the pages of [lo, kerneltop) *)
Record heap_mapped (lo : Z) (s s' : pstate regions) : Prop := {
  hm_inv : pt_inv s';
  hm_at va : lo <= va < kerneltop -> exists pa, translate va s' = Some pa /\ covered (pframes s) pa /\
    ~ covered (pframes s') pa /\ settled s' pa /\ rd s' pa = 0;
  hm_inj va va' : lo <= va < kerneltop -> lo <= va' < kerneltop -> translate va s' = translate va' s' -> va = va';
  hm_other va : plain_slot va -> is_word 64 va -> is_canonical va = true -> ~ (lo <= va < kerneltop) -> translate va s' = translate va s;
  hm_tables m va b : (1 <= m <= 4)%nat -> plain_slot va -> table_at m va s' = Some b -> table_at m va s = Some b;
  hm_upper m va : (2 <= m <= 4)%nat -> plain_slot va -> table_at m va s' = table_at m va s;
  hm_entries m va : (3 <= m <= 4)%nat -> plain_slot va -> entry m va s' = entry m va s;
  hm_out va : plain_slot va -> is_word 64 va -> is_canonical va = true -> ~ (lo <= va < kerneltop) -> entry 2 va s' = entry 2 va s;
  hm_keep a : settled s a -> rd s' a = rd s a;
  hm_cov x : covered (pframes s') x -> covered (pframes s) x
}.

Lemma heap_mapped_nil lo s : kerneltop <= lo -> pt_inv s -> heap_mapped lo s s.
Proof. intros Hlo Hs. constructor; auto; intros; lia. Qed.

Lemma settled_less (s s' : pstate regions) a : (forall x, covered (pframes s') x -> covered (pframes s) x) -> mem_ok (pframes s) -> mem_ok (pframes s') ->
  (forall m va b, (1 <= m <= 4)%nat -> plain_slot va -> table_at m va s' = Some b -> table_at m va s = Some b) ->
  settled s a -> settled s' a.
Proof.
  intros Hcov [Hwf _] [Hwf' _] Ht [Hf Hn]. split.
  - destruct (mem_free (pframes s') (a / 4096)) eqn:E; [|done]. pose proof (proj1 (mem_free_spec _ _ Hwf') E) as E'.
    assert (mem_free (pframes s) (a / 4096) = true) as Hf'; [|congruence].
    apply mem_free_spec; [done|]. intros x Hx. by apply Hcov, E'.
  - intros m va b Hm Hva Hb. by apply (Hn m va b), Ht.
Qed.

(** the memory of a new page *)
Lemma page_settled addr page s s' a : pt_inv s -> page_added addr page s s' -> page <= a < page + psz 2 -> settled s' a.
Proof.
  intros Hs Hp Ha. pose proof (pa_taken _ _ _ _ Hp) as Ht. pose proof (tk_al _ _ _ _ Ht) as Hal.
  assert (page / 4096 <= a / 4096 < (page + psz 2) / 4096) as Hr.
  { change (psz 2) with (4096 * 512) in *. clear - Ha Hal. Z.to_euclidean_division_equations. lia. }
  split.
  - rewrite (tk_less _ _ _ _ Ht). destruct (Z.leb_spec (page / 4096) (a / 4096)), (Z.ltb_spec (a / 4096) ((page + psz 2) / 4096));
      first [lia|by rewrite andb_false_r].
  - intros m va b Hm Hva Hb E. apply (pa_tables _ _ _ _ Hp) in Hb; [|done..].
    pose proof (pi_used _ Hs m va b Hm Hva Hb) as Hu. cbn [fa_free regions_source] in Hu. rewrite <- E, (tk_free _ _ _ _ Ht) in Hu; done.
Qed.

Section heap_cons.
Context (addr page : Z) (s s1 s' : pstate regions).
Context (Hs : pt_inv s) (Hp : page_added addr page s s1) (Hlo : kernelbot <= addr) (Hal : addr mod psz 2 = 0).
Context (Hhi : addr + psz 2 <= kerneltop) (Hm : heap_mapped (addr + psz 2) s1 s').

Lemma page_added_cov x : covered (pframes s1) x <-> covered (pframes s) x /\ ~ (page <= x < page + psz 2).
Proof using Hp. apply (tk_cov _ _ _ _ (pa_taken _ _ _ _ Hp)). Qed.

Lemma page_added_at va : plain_slot va -> is_word 64 va -> is_canonical va = true ->
  translate va s1 = if decide (addr <= va < addr + psz 2) then Some (page + va mod psz 2) else translate va s.
Proof using Hp Hal.
  intros Hpv Hw Hc. rewrite (pa_map _ _ _ _ Hp) by done.
  pose proof (same_block addr va (psz 2) ltac:(done) Hal). repeat case_decide; tauto.
Qed.

(** an address of the first page *)
Lemma heap_first va : addr <= va < addr + psz 2 -> exists pa, translate va s' = Some pa /\ pa = page + va mod psz 2 /\ page <= pa < page + psz 2.
Proof using Hp Hal Hlo Hhi Hm.
  intros Hv. destruct (heap_addr va ltac:(lia)) as (Hw & Hc & Hpv).
  rewrite (hm_other _ _ _ Hm), page_added_at, decide_True by (done || lia). eexists. split; [done|]. split; [done|].
  pose proof (Z.mod_pos_bound va (psz 2) ltac:(done)). lia.
Qed.

Lemma heap_mapped_cons : heap_mapped addr s s'.
Proof.
  pose proof (pa_taken _ _ _ _ Hp) as Ht. constructor.
  - apply Hm.
  - intros va Hv. destruct (decide (va < addr + psz 2)).
    + destruct (heap_first va ltac:(lia)) as (pa & Hpa & _ & Hr). exists pa. split; [done|].
      pose proof (page_settled addr page s s1 pa Hs Hp Hr) as Hset. split_and!.
      * by apply (tk_in _ _ _ _ Ht).
      * intros Hcv%(hm_cov _ _ _ Hm). by apply page_added_cov in Hcv as [_ ?].
      * exact (settled_less s1 s' pa (hm_cov _ _ _ Hm) (pi_ok _ (pa_inv _ _ _ _ Hp)) (pi_ok _ (hm_inv _ _ _ Hm)) (hm_tables _ _ _ Hm) Hset).
      * rewrite (hm_keep _ _ _ Hm) by done. by apply (pa_zero _ _ _ _ Hp).
    + destruct (hm_at _ _ _ Hm va ltac:(lia)) as (pa & Hpa & Hcv & ?). exists pa. split; [done|]. split; [|done]. apply (proj1 (page_added_cov pa) Hcv).
  - assert (forall va va', addr <= va < addr + psz 2 -> addr + psz 2 <= va' < kerneltop -> translate va s' <> translate va' s') as Hne.
    { intros va va' Hv Hv'. destruct (heap_first va ltac:(lia)) as (pa & -> & _ & Hr).
      destruct (hm_at _ _ _ Hm va' ltac:(lia)) as (pa' & -> & Hcv & _). intros [= <-]. by apply page_added_cov in Hcv as [_ ?]. }
    intros va va' Hv Hv' E. destruct (decide (va < addr + psz 2)), (decide (va' < addr + psz 2)).
    + destruct (heap_first va ltac:(lia)) as (pa & Hpa & E1 & _), (heap_first va' ltac:(lia)) as (pa' & Hpa' & E2 & _).
      assert (va / psz 2 = addr / psz 2) as Eq1 by (apply same_block; done || lia).
      assert (va' / psz 2 = addr / psz 2) as Eq2 by (apply same_block; done || lia).
      assert (va / psz 2 = va' / psz 2) as Eq by congruence.
      rewrite (Z.div_mod va (psz 2)), (Z.div_mod va' (psz 2)) by done. rewrite Eq. f_equal. assert (pa = pa') by congruence. lia.
    + by destruct (Hne va va' ltac:(lia) ltac:(lia)).
    + by destruct (Hne va' va ltac:(lia) ltac:(lia)).
    + by apply (hm_inj _ _ _ Hm); [lia|lia|].
  - intros va Hpv Hw Hc Hout. pose proof (psz_pos 2 ltac:(lia)). rewrite (hm_other _ _ _ Hm), page_added_at by (done || lia). by rewrite decide_False by lia.
  - intros m va b Hm' Hpv Hb. apply (pa_tables _ _ _ _ Hp); [done..|]. by apply (hm_tables _ _ _ Hm).
  - intros m va Hm' Hpv. rewrite (hm_upper _ _ _ Hm) by done. by apply (pa_upper _ _ _ _ Hp).
  - intros m va Hm' Hpv. rewrite (hm_entries _ _ _ Hm) by done. by apply (pa_entries _ _ _ _ Hp).
  - intros va Hpv Hw Hc Hout. pose proof (psz_pos 2 ltac:(lia)). rewrite (hm_out _ _ _ Hm) by (done || lia).
    apply (pa_out _ _ _ _ Hp); try done. intros E%same_block; [lia|done|done].
  - intros a Ha. rewrite (hm_keep _ _ _ Hm); [by apply (pa_keep _ _ _ _ Hp)|].
    apply (settled_less s s1 a); [|apply (pi_ok _ Hs)|apply (pi_ok _ (pa_inv _ _ _ _ Hp))|apply (pa_tables _ _ _ _ Hp)|done].
    intros x Hx. apply (proj1 (page_added_cov x) Hx).
  - intros x Hx%(hm_cov _ _ _ Hm). apply (proj1 (page_added_cov x) Hx).
Qed.
End heap_cons.

Lemma boot_pages_spec count addr s : addr mod psz 2 = 0 -> kernelbot <= addr <= kerneltop ->
  kerneltop - addr <= Z.of_nat count * psz 2 -> pt_inv s -> (forall va, addr <= va < kerneltop -> is_Some (table_at 2 va s)) ->
  match boot_loop boot_page count (psz 2) addr s with
  | Ok s' => heap_mapped addr s s'
  | Err e => e = AssertFailed
  end.
Proof.
  pose proof (kerneltop_aligned 2 ltac:(lia)) as Hkt.
  revert addr s. induction count as [|count IH]; intros addr s Hal Hlo Hcnt Hs Hts; cbn [boot_loop].
  { apply heap_mapped_nil; [lia|done]. }
  destruct (Z.ltb_spec addr kerneltop) as [Hlt|Hge]; [|by apply heap_mapped_nil].
  destruct (heap_addr addr ltac:(lia)) as (Hw & Hc & Hp).
  pose proof (boot_page_spec addr s Hs Hp Hw Hc Hal (Hts addr ltac:(lia))) as Ht.
  destruct (boot_page addr s) as [s1|]; cbn [mbind res_bind]; [|done]. destruct Ht as [page Ht].
  pose proof (aligned_gap addr kerneltop (psz 2) ltac:(done) Hal Hkt Hlt) as Hgap.
  assert (0 <= addr + psz 2 < 2 ^ 64) as Hsmall.
  { change kerneltop with (2 ^ 64 - 2 ^ 39) in Hgap. change (psz 2) with (2 ^ 21) in *. unfold is_word in Hw. lia. }
  rewrite (wrap_small 64 (addr + psz 2)) by done. rewrite Nat2Z.inj_succ, Z.mul_succ_l in Hcnt.
  specialize (IH (addr + psz 2) s1). rewrite <- Zplus_mod_idemp_r, Z_mod_same_full, Z.add_0_r in IH.
  assert (kernelbot <= addr + psz 2 <= kerneltop) as Hlo' by (change (psz 2) with (2 ^ 21) in *; lia).
  specialize (IH Hal Hlo' ltac:(lia) (pa_inv _ _ _ _ Ht)).
  assert (forall va, addr + psz 2 <= va < kerneltop -> is_Some (table_at 2 va s1)) as Hts1.
  { intros va Hv. destruct (heap_addr va ltac:(change (psz 2) with (2 ^ 21) in *; lia)) as (_ & _ & Hpv).
    rewrite (pa_upper _ _ _ _ Ht) by (done || lia). apply Hts. change (psz 2) with (2 ^ 21) in *. lia. }
  specialize (IH Hts1). destruct (boot_loop boot_page count (psz 2) (addr + psz 2) s1) as [s'|]; [|done].
  apply (heap_mapped_cons addr page s s1 s'); (done || lia).
Qed.

Lemma grows_table {F} `{FrameSourceLaws F} (s s' : pstate F) n va b : grows s s' -> (1 <= n <= 4)%nat -> plain_slot va ->
  table_at n va s = Some b -> table_at n va s' = Some b.
Proof.
  intros Hg Hn Hva. destruct (decide (n = 4%nat)) as [->|]; [rewrite !table_at_4; intros [= <-]; by rewrite (gr_cr3 _ _ Hg)|].
  rewrite !table_at_S by lia. destruct (entry (S n) va s) as [pe|] eqn:He; [|done]. cbn [mbind option_bind].
  destruct (present pe) eqn:Hp; [|done]. intros Hb. rewrite (gr_keep _ _ Hg (S n) va pe); [|lia|done|done|by intros ->].
  cbn [mbind option_bind]. by rewrite Hp.
Qed.

Lemma entry_table {F} `{FrameSource F} (s : pstate F) n va e : entry n va s = Some e -> is_Some (table_at n va s).
Proof. intros (b & Hb & _)%entry_Some. by exists b. Qed.

(** the tables for zeroing frames *)
Lemma zero_slot : is_word 64 zeroBase /\ is_canonical zeroBase = true /\ plain_slot zeroBase /\ zeroBase < kernelbot.
Proof. split_and!; [by vm_compute|done| |done]. unfold plain_slot. by vm_compute. Qed.

(** what [bootstrap2] does: [bottom] is the start of the dynamic kernel memory *)
Record kernel_heap (initHeap bottom : Z) (s s' : pstate regions) : Prop := {
  kh_inv : pt_inv s';
  kh_cr3 : cr3 s' = cr3 s;
  kh_at va : kerneltop - initHeap <= va < kerneltop -> exists pa, translate va s' = Some pa /\
    covered (pframes s) pa /\ ~ covered (pframes s') pa /\ rd s' pa = 0;
  kh_inj va va' : kerneltop - initHeap <= va < kerneltop -> kerneltop - initHeap <= va' < kerneltop ->
    translate va s' = translate va' s' -> va = va';
  kh_other va : plain_slot va -> is_word 64 va -> is_canonical va = true -> ~ (kerneltop - initHeap <= va < kerneltop) ->
    translate va s' = translate va s;
  kh_keep va e : plain_slot va -> is_word 64 va -> is_canonical va = true -> ~ (kerneltop - initHeap <= va < kerneltop) ->
    entry 2 va s = Some e -> e <> 0 -> entry 2 va s' = Some e;
  kh_tables va : bottom <= va < kerneltop -> is_Some (table_at 3 va s');
  kh_zero : entry 2 zeroBase s' = Some 0;
  kh_cov x : covered (pframes s') x -> covered (pframes s) x
}.

Section bootstrap2.
Context (initHeap bottom : Z) (s s1 s2 s3 s4 s5 : pstate regions).
Context (Hs : pt_inv s) (Hih : 0 <= initHeap) (Hbot : kernelbot <= bottom <= kerneltop - initHeap).
Let lo2 := align_down 64 (kerneltop - initHeap) (psz 3).
Context (H1 : tables_added 3 bottom s s1) (H2 : tables_added 2 lo2 s1 s2) (H3 : heap_mapped (kerneltop - initHeap) s2 s3).
Context (H4 : table_added 3 zeroBase s3 s4) (H5 : table_added 2 zeroBase s4 s5).

Lemma bootstrap2_grows : grows s s2 /\ grows s3 s5.
Proof. split; (eapply grows_trans; [apply H1 || apply H4|apply H2 || apply H5]). Qed.

Lemma bootstrap2_heap : kernel_heap initHeap bottom s s5.
Proof.
  destruct bootstrap2_grows as [Hg Hg']. constructor.
  - apply H5.
  - rewrite (gr_cr3 _ _ Hg'), <- (gr_cr3 _ _ Hg). pose proof (hm_upper _ _ _ H3 4 0 ltac:(lia) ltac:(by intros ?)) as E.
    rewrite !table_at_4 in E. by injection E.
  - intros va Hv. destruct (heap_addr va ltac:(lia)) as (Hw & Hc & Hp). destruct (hm_at _ _ _ H3 va Hv) as (pa & Hpa & Hcov & Hno & [Hf Hnt] & Hz).
    exists pa. rewrite (grows_translate s3 s5) by done. split; [done|]. split_and!.
    + by apply (tsa_cov _ _ _ _ H1), (tsa_cov _ _ _ _ H2).
    + intros Hc5. by apply Hno, (ta_cov _ _ _ _ H4), (ta_cov _ _ _ _ H5).
    + rewrite (gr_mem _ _ Hg'); [done|exact Hf|exact Hnt].
  - intros va va' Hv Hv'. destruct (heap_addr va ltac:(lia)) as (_ & _ & Hp), (heap_addr va' ltac:(lia)) as (_ & _ & Hp').
    rewrite !(grows_translate s3 s5) by done. by apply (hm_inj _ _ _ H3).
  - intros va Hp Hw Hc Hout. rewrite (grows_translate s3 s5), (hm_other _ _ _ H3) by done. by apply grows_translate.
  - intros va e Hp Hw Hc Hout He Hz. apply (gr_keep _ _ Hg'); [lia|done| |done]. rewrite (hm_out _ _ _ H3) by done.
    apply (gr_keep _ _ Hg); (done || lia).
  - intros va Hv. destruct (heap_addr va ltac:(lia)) as (_ & _ & Hp).
    destruct (entry_table s1 3 va 0 (tsa_new _ _ _ _ H1 va Hv)) as [b Hb]. exists b.
    apply (grows_table s3 s5); [done|lia|done|]. rewrite (hm_upper _ _ _ H3) by (done || lia).
    apply (grows_table s1 s2); [apply H2|lia|done|done].
  - apply (ta_new _ _ _ _ H5). by intros ? ?.
  - intros x Hx. by apply (tsa_cov _ _ _ _ H1), (tsa_cov _ _ _ _ H2), (hm_cov _ _ _ H3), (ta_cov _ _ _ _ H4), (ta_cov _ _ _ _ H5).
Qed.
End bootstrap2.

Lemma heap_bottom m : 0 <= m <= kerneltop -> let bottom := align_down 64 (kerneltop - m)%w (pagesize 4) in
  bottom mod psz 4 = 0 /\ kerneltop - m - psz 4 < bottom <= kerneltop - m.
Proof.
  intros Hm bottom. assert (bottom = (kerneltop - m) / 2 ^ 39 * 2 ^ 39) as ->.
  { unfold bottom. change kerneltop with (2 ^ 64 - 2 ^ 39) in *. rewrite (wrap_small 64) by lia.
    apply (align_down_eq 64 _ 39); [lia|unfold is_word; lia]. }
  change (psz 4) with (2 ^ 39). split; [by apply Z.mod_mul|].
  pose proof (Z.div_mod (kerneltop - m) (2 ^ 39) ltac:(lia)). pose proof (Z.mod_pos_bound (kerneltop - m) (2 ^ 39) ltac:(lia)). lia.
Qed.

Lemma bootstrap2_spec maxHeap initHeap s : pt_inv s -> 0 <= initHeap -> 0 <= maxHeap -> Z.max maxHeap initHeap <= kerneltop ->
  (forall va, zeroBase <= va < kerneltop -> entry 4 va s = Some 0) ->
  match bootstrap2 maxHeap initHeap s with
  | Ok (bottom, s') => initHeap mod kernelps = 0 /\ bottom mod psz 4 = 0 /\
      kernelbot <= bottom <= kerneltop - Z.max maxHeap initHeap /\ kernel_heap initHeap bottom s s'
  | Err e => e = AssertFailed
  end.
Proof.
  intros Hs Hih Hmh Hmax He. unfold bootstrap2.
  destruct (heap_bottom (Z.max maxHeap initHeap) ltac:(lia)) as [Hbal Hb]. cbv zeta in *.
  set (bottom := align_down 64 (kerneltop - Z.max maxHeap initHeap)%w (pagesize 4)) in *.
  destruct (Z.leb_spec kernelbot bottom) as [Hkb|]; [|done]. cbn [kassert mbind res_bind].
  assert ((kerneltop - initHeap)%w = kerneltop - initHeap) as ->.
  { change kerneltop with (2 ^ 64 - 2 ^ 39) in *. apply wrap_small. lia. }
  set (lo3 := kerneltop - initHeap) in *. set (lo2 := align_down 64 lo3 (pagesize 3)).
  assert (lo2 mod psz 3 = 0 /\ bottom <= lo2 <= lo3) as [Hal2 Hlo2].
  { assert (lo2 = lo3 / 2 ^ 30 * 2 ^ 30) as ->.
    { apply (align_down_eq 64 _ 30); [lia|]. change kerneltop with (2 ^ 64 - 2 ^ 39) in *. unfold is_word. lia. }
    change (psz 3) with (2 ^ 30). split; [by apply Z.mod_mul|]. change (psz 4) with (2 ^ 39) in Hbal. clear -Hbal Hb Hih.
    assert (bottom <= lo3) by lia. clear Hb. Z.to_euclidean_division_equations. lia. }
  destruct zero_slot as (Hzw & Hzc & Hzp & Hzk). pose proof (boot_range_count bottom (psz 4)) as Hn1.
  assert (zeroBase < kerneltop) as Hzt by done.
  pose proof (boot_tables_spec 3 (Z.to_nat ((kerneltop - bottom + psz 4 - 1) / psz 4)) bottom s ltac:(lia) Hbal ltac:(lia)
    (boot_range_count bottom (psz 4) ltac:(done) ltac:(lia)) Hs) as H1. unfold boot_range.
  change (psz 4) with (pagesize 4) in *. destruct (boot_loop (boot_table 3) _ _ _ s) as [s1|]; cbn [mbind res_bind];
    [|apply H1; intros va Hv; apply He; lia].
  specialize (H1 ltac:(intros va Hv; apply He; lia)).
  pose proof (boot_tables_spec 2 (Z.to_nat ((kerneltop - lo2 + psz 3 - 1) / psz 3)) lo2 s1 ltac:(lia) Hal2 ltac:(lia)
    (boot_range_count lo2 (psz 3) ltac:(done) ltac:(lia)) (tsa_inv _ _ _ _ H1)) as H2.
  assert (forall va, lo2 <= va < kerneltop -> entry 3 va s1 = Some 0) as He1 by (intros va Hv; apply (tsa_new _ _ _ _ H1); lia).
  specialize (H2 He1). change (psz 3) with (pagesize 3) in *.
  destruct (boot_loop (boot_table 2) _ _ _ s1) as [s2|]; cbn [mbind res_bind]; [|done].
  change kernelps with (2 ^ 21). rewrite aligned_spec by lia. destruct (Z.eqb_spec (initHeap mod 2 ^ 21) 0) as [Hia|]; [|done].
  cbn [kassert mbind res_bind].
  assert (lo3 mod psz 2 = 0) as Hal3.
  { change (psz 2) with (2 ^ 21). unfold lo3. change kerneltop with (2 ^ 64 - 2 ^ 39). clear - Hia. Z.to_euclidean_division_equations. lia. }
  pose proof (boot_pages_spec (Z.to_nat ((kerneltop - lo3 + psz 2 - 1) / psz 2)) lo3 s2 Hal3 ltac:(lia)
    (boot_range_count lo3 (psz 2) ltac:(done) ltac:(lia)) (tsa_inv _ _ _ _ H2)) as H3.
  assert (forall va, lo3 <= va < kerneltop -> is_Some (table_at 2 va s2)) as Ht2.
  { intros va Hv. eapply entry_table, (tsa_new _ _ _ _ H2). lia. }
  specialize (H3 Ht2). change (psz 2) with (2 ^ 21) in H3.
  destruct (boot_loop boot_page _ _ _ s2) as [s3|]; cbn [mbind res_bind]; [|done].
  assert (entry 4 zeroBase s3 = Some 0) as Hz3.
  { rewrite (hm_entries _ _ _ H3) by (done || lia). rewrite (tsa_other _ _ _ _ H2), (tsa_other _ _ _ _ H1) by (done || lia). apply He. lia. }
  pose proof (boot_table_spec 3 zeroBase s3 (hm_inv _ _ _ H3) ltac:(lia) Hzp Hzw Hzc Hz3) as H4.
  destruct (boot_table 3 zeroBase s3) as [s4|]; cbn [mbind res_bind]; [|done].
  assert (entry 3 zeroBase s4 = Some 0) as Hz4 by (apply (ta_new _ _ _ _ H4); by intros ? ?).
  pose proof (boot_table_spec 2 zeroBase s4 (ta_inv _ _ _ _ H4) ltac:(lia) Hzp Hzw Hzc Hz4) as H5.
  destruct (boot_table 2 zeroBase s4) as [s5|]; cbn [mbind res_bind mret res_ret]; [|done].
  split; [done|]. split; [done|]. split; [lia|]. apply (bootstrap2_heap initHeap bottom s s1 s2 s3 s4 s5); try done. lia.
Qed.

(** ** The kernel image *)
(** [bootstrap] writes physical memory and does not depend on %cr3 *)
Lemma retrieve_install p n s : retrieve n (installPagetable p s) = '(a, s') ← retrieve n s; mret (a, installPagetable p s').
Proof. unfold retrieve. cbn [installPagetable pframes]. by destruct (retrieve_front false (psz n) (pframes s)) as [[mem a]|]. Qed.

Lemma image_pages_install p count base data pd end_ addr s :
  image_pages count base data pd end_ addr (installPagetable p s) =
    ((image_pages count base data pd end_ addr s).1, installPagetable p (image_pages count base data pd end_ addr s).2).
Proof.
  revert addr s. induction count as [|count IH]; intros addr s; cbn [image_pages]; [done|]. case_match; [|done].
  rewrite <- IH. done.
Qed.

Lemma image_dirs_install p fuel base data end_ pdpt addr s :
  image_dirs fuel base data end_ pdpt addr (installPagetable p s) = s' ← image_dirs fuel base data end_ pdpt addr s; mret (installPagetable p s').
Proof.
  revert addr s. induction fuel as [|fuel IH]; intros addr s; cbn [image_dirs]; [done|]. case_match; [|done].
  rewrite retrieve_install. destruct (retrieve 1 s) as [[pd s1]|]; cbn [mbind res_bind mret res_ret]; [|done].
  match goal with |- context [image_pages ?n ?b ?d ?q ?e ?a (wr ?x ?y (zeroed ?u ?v (installPagetable p s1)))] =>
    change (image_pages n b d q e a (wr x y (zeroed u v (installPagetable p s1))))
      with (image_pages n b d q e a (installPagetable p (wr x y (zeroed u v s1)))) end.
  rewrite image_pages_install. destruct (image_pages _ _ _ _ _ _ (wr _ _ (zeroed _ _ s1))) as [addr' s2]. apply IH.
Qed.

Definition image_top : Z := KERNBASE + 2 ^ 30.
Lemma image_addr va : KERNBASE <= va < image_top -> is_word 64 va /\ is_canonical va = true /\ plain_slot va.
Proof.
  unfold image_top. change KERNBASE with (2 ^ 64 - 2 ^ 31). intros Hv. split_and!.
  - unfold is_word. lia.
  - unfold is_canonical. apply orb_true_iff. right. apply Z.leb_le. lia.
  - unfold plain_slot. change recptindex with 256. rewrite pageIndex_eq by lia. change (12 + 9 * Z.of_nat 4) with 48.
    change (12 + 9 * (Z.of_nat 4 - 1)) with 39. Z.to_euclidean_division_equations. lia.
Qed.
Lemma image_same va : KERNBASE <= va < image_top -> same_idx 3 KERNBASE va.
Proof.
  intros Hv. destruct (image_addr va Hv) as (Hw & Hc & _), (image_addr KERNBASE ltac:(unfold image_top; lia)) as (Hw' & Hc' & _).
  apply same_idx_page; try done; [lia|]. unfold image_top in Hv. change KERNBASE with (2 ^ 64 - 2 ^ 31) in *. change (psz 3) with (2 ^ 30).
  clear - Hv. Z.to_euclidean_division_equations. lia.
Qed.

Lemma image_leaf data addr : KERNBASE <= addr < image_top -> addr mod psz 2 = 0 ->
  let x := image_entry KERNBASE data addr in leaf 2 x /\ present x = true /\ addr_of x = addr - KERNBASE.
Proof.
  intros Ha Hal x. unfold x, image_entry. unfold image_top in Ha. change KERNBASE with (2 ^ 64 - 2 ^ 31) in *.
  rewrite (wrap_small 64) by lia. set (ty := if addr <? data then pt_Code else pt_Data).
  rewrite <- (Z.lor_assoc _ ty pt_Kernel), (Z.lor_comm ty pt_Kernel).
  assert (page_type (Z.lor pt_Kernel ty)) as Ht by (apply data_type; unfold ty; case_match; auto).
  apply page_entry; [lia|lia| |done].
  change (psz 2) with (2 ^ 21) in *. clear - Hal. Z.to_euclidean_division_equations. lia.
Qed.

(** the pages [lo, end_) of the image in the table [pd] *)
Record image_mapped (data lo end_ : Z) (s s' : pstate regions) : Prop := {
  im_inv : pt_inv s';
  im_map va : plain_slot va -> is_word 64 va -> is_canonical va = true ->
    translate va s' = if decide (lo <= va < end_) then Some (va - KERNBASE) else translate va s;
  im_entry va : lo <= va < end_ -> entry 2 va s' = Some (image_entry KERNBASE data (va / psz 2 * psz 2));
  im_out va : KERNBASE <= va < image_top -> ~ (lo <= va < end_) -> entry 2 va s' = entry 2 va s;
  im_upper m va : (3 <= m <= 4)%nat -> plain_slot va -> entry m va s' = entry m va s;
  im_cr3 : cr3 s' = cr3 s;
  im_frames : pframes s' = pframes s
}.

Section image.
Context (data pd addr : Z) (s : pstate regions).
Context (Hs : pt_inv s) (Ha : KERNBASE <= addr < image_top) (Hal : addr mod psz 2 = 0).
Context (Hpd : table_at 2 addr s = Some pd).
Let x := image_entry KERNBASE data addr.
Let s1 := wr (pd + 8 * pageIndex 2 addr) x s.

Lemma image_page : image_mapped data addr (addr + psz 2) s s1.
Proof.
  destruct (image_addr addr Ha) as (Hw & Hc & Hp). destruct (image_leaf data addr Ha Hal) as (Hl & Hpr & Haddr). cbv zeta in *. fold x in Hl, Hpr, Haddr.
  destruct (leaf_remapped 2 addr pd x s s Hs (grows_refl s) ltac:(lia) Hp Hw Hc Hpd Hl) as [Hs1 Hm]. fold s1 in Hs1, Hm.
  rewrite Hpr, Haddr in Hm.
  assert (forall va, is_word 64 va -> is_canonical va = true -> same_idx 2 addr va <-> addr <= va < addr + psz 2) as Hblock.
  { intros va Hwv Hcv. rewrite same_idx_page by (done || lia). rewrite <- same_block by done. split; congruence. }
  constructor; try done.
  - intros va Hpv Hwv Hcv. rewrite Hm by done. pose proof (same_block addr va (psz 2) ltac:(done) Hal) as Hb.
    destruct (decide (va / psz 2 = addr / psz 2)) as [E|E].
    + rewrite decide_True by tauto. cbn [mbind option_bind]. f_equal.
      pose proof (Z.div_mod va (psz 2) ltac:(done)). pose proof (Z.div_mod addr (psz 2) ltac:(done)). rewrite E in *. lia.
    + by rewrite decide_False by tauto.
  - intros va Hv. assert (KERNBASE <= va < image_top) as Hv'.
    { unfold image_top in *. change KERNBASE with (2 ^ 64 - 2 ^ 31) in *. change (psz 2) with (2 ^ 21) in *.
      clear - Ha Hal Hv. Z.to_euclidean_division_equations. lia. }
    destruct (image_addr va Hv') as (Hwv & Hcv & Hpv).
    unfold s1. rewrite (proj2 (write_at s Hs 2 addr pd x ltac:(lia) Hp Hpd va (proj2 (Hblock va Hwv Hcv) Hv))). unfold x. do 2 f_equal.
    apply (proj2 (same_block addr va (psz 2) ltac:(done) Hal)) in Hv. rewrite Hv. pose proof (Z.div_mod addr (psz 2) ltac:(done)). lia.
  - intros va Hv Hout. destruct (image_addr va Hv) as (Hwv & Hcv & Hpv).
    apply (write_entry s Hs 2 addr pd); try done; [lia..|]. intros [_ Hi]. by apply Hout, Hblock.
  - intros m va Hm' Hpv. apply (write_entry s Hs 2 addr pd); (done || lia).
Qed.
End image.

Lemma image_mapped_nil data a s : pt_inv s -> image_mapped data a a s s.
Proof. intros Hs. constructor; try done; intros; try lia. rewrite decide_False; [done|lia]. Qed.

Lemma image_mapped_trans data lo mid hi s s1 s' : KERNBASE <= lo <= mid -> mid <= hi <= image_top ->
  image_mapped data lo mid s s1 -> image_mapped data mid hi s1 s' -> image_mapped data lo hi s s'.
Proof.
  intros Hlo Hmid H1 H2. constructor.
  - apply H2.
  - intros va Hp Hw Hc. rewrite (im_map _ _ _ _ _ H2), (im_map _ _ _ _ _ H1) by done. repeat case_decide; (done || lia).
  - intros va Hv. destruct (decide (mid <= va)); [apply (im_entry _ _ _ _ _ H2); lia|].
    rewrite (im_out _ _ _ _ _ H2) by lia. apply (im_entry _ _ _ _ _ H1). lia.
  - intros va Hv Hout. rewrite (im_out _ _ _ _ _ H2), (im_out _ _ _ _ _ H1) by lia. done.
  - intros m va Hm Hp. by rewrite (im_upper _ _ _ _ _ H2), (im_upper _ _ _ _ _ H1).
  - by rewrite (im_cr3 _ _ _ _ _ H2), (im_cr3 _ _ _ _ _ H1).
  - by rewrite (im_frames _ _ _ _ _ H2), (im_frames _ _ _ _ _ H1).
Qed.

Lemma image_pages_spec data pd end_ count addr s : pt_inv s -> KERNBASE <= addr <= end_ -> end_ <= image_top ->
  addr mod psz 2 = 0 -> end_ mod psz 2 = 0 -> end_ - addr <= Z.of_nat count * psz 2 -> table_at 2 KERNBASE s = Some pd ->
  let '(a, s') := image_pages count KERNBASE data pd end_ addr s in a = end_ /\ image_mapped data addr end_ s s'.
Proof.
  revert addr s. induction count as [|count IH]; intros addr s Hs Ha Htop Hal Hale Hcnt Hpd; cbn [image_pages].
  { assert (addr = end_) as -> by lia. split; [done|]. by apply image_mapped_nil. }
  destruct (Z.ltb_spec addr end_) as [Hlt|Hge].
  2:{ assert (addr = end_) as -> by lia. split; [done|]. by apply image_mapped_nil. }
  assert (table_at 2 addr s = Some pd) as Hpd'.
  { rewrite <- Hpd. symmetry. apply table_idx; [lia|]. apply image_same. lia. }
  pose proof (image_page data pd addr s Hs ltac:(lia) Hal Hpd') as H1. set (s1 := wr _ _ s) in *.
  pose proof (aligned_gap addr end_ (psz 2) ltac:(done) Hal Hale Hlt) as Hgap.
  assert ((addr + kernelps)%w = addr + psz 2) as ->.
  { change kernelps with (psz 2). apply wrap_small. unfold image_top in Htop. change KERNBASE with (2 ^ 64 - 2 ^ 31) in *.
    change (psz 2) with (2 ^ 21) in *. lia. }
  rewrite Nat2Z.inj_succ, Z.mul_succ_l in Hcnt. pose proof (psz_pos 2 ltac:(lia)).
  specialize (IH (addr + psz 2) s1 (im_inv _ _ _ _ _ H1) ltac:(lia) Htop). rewrite <- Zplus_mod_idemp_r, Z_mod_same_full, Z.add_0_r in IH.
  specialize (IH Hal Hale ltac:(lia)).
  assert (table_at 2 KERNBASE s1 = Some pd) as Hpd1.
  { rewrite <- Hpd, !table_at_S by lia. rewrite (im_upper _ _ _ _ _ H1); [done|lia|].
    apply image_addr. unfold image_top. lia. }
  specialize (IH Hpd1). destruct (image_pages count KERNBASE data pd end_ (addr + psz 2) s1) as [a s'].
  destruct IH as [-> H2]. split; [done|]. apply (image_mapped_trans data addr (addr + psz 2) end_ s s1); (done || lia).
Qed.

(** one directory is enough for an image of up to 1G *)
Lemma image_dirs_spec fuel data kernelEnd pdpt s : pt_inv s -> KERNBASE < kernelEnd <= image_top -> kernelEnd mod psz 2 = 0 ->
  table_at 3 KERNBASE s = Some pdpt -> entry 3 KERNBASE s = Some 0 ->
  match image_dirs (S (S fuel)) KERNBASE data kernelEnd pdpt KERNBASE s with
  | Ok s' => exists s1, table_added 2 KERNBASE s s1 /\ image_mapped data KERNBASE kernelEnd s1 s'
  | Err e => e = AssertFailed
  end.
Proof.
  intros Hs Hke Hal Hb He. cbn [image_dirs]. destruct (Z.ltb_spec KERNBASE kernelEnd); [|lia].
  pose proof (retrieve_spec 1 s ltac:(lia) (pi_ok _ Hs)) as Hr. destruct (retrieve 1 s) as [[pd sr]|]; cbn [mbind res_bind]; [|done].
  destruct Hr as [Hsr Ht]. set (mem := pframes sr) in *. rewrite Hsr.
  destruct (image_addr KERNBASE ltac:(unfold image_top; lia)) as (Hw & Hc & Hp).
  assert (rd s (pdpt + 8 * pageIndex 3 KERNBASE) = 0) as Hz by (unfold entry in He; rewrite Hb in He; cbn in He; congruence).
  destruct (new_table s 2 KERNBASE pdpt pd mem Hs ltac:(lia) Hp Hb Hz Ht) as [Hadd Hpd].
  set (s1 := wr (pdpt + 8 * pageIndex 3 KERNBASE) (Z.lor pd pt_PageTable) (zeroed pd pagetableps (set_frames mem s))) in *.
  assert (Z.min kernelEnd (KERNBASE + pagesize 3)%w = kernelEnd) as ->.
  { change ((KERNBASE + pagesize 3)%w) with image_top. lia. }
  pose proof (image_pages_spec data pd kernelEnd (Z.to_nat ptentries) KERNBASE s1 (ta_inv _ _ _ _ Hadd) ltac:(lia) ltac:(lia)) as Hpages.
  specialize (Hpages ltac:(done) Hal). change (Z.of_nat (Z.to_nat ptentries) * psz 2) with (2 ^ 30) in Hpages.
  specialize (Hpages ltac:(unfold image_top in Hke; lia) Hpd).
  destruct (image_pages _ _ _ _ _ _ s1) as [a s']. destruct Hpages as [-> Hm].
  destruct (Z.ltb_spec kernelEnd kernelEnd); [lia|]. by exists s1.
Qed.

(** the page table that [bootstrap] leaves *)
Record kernel_image (data kernelEnd : Z) (s s' : pstate regions) : Prop := {
  ki_inv : pt_inv s';
  ki_map va : plain_slot va -> is_word 64 va -> is_canonical va = true ->
    translate va s' = if decide (KERNBASE <= va < kernelEnd) then Some (va - KERNBASE) else None;
  ki_entry va : KERNBASE <= va < kernelEnd -> entry 2 va s' = Some (image_entry KERNBASE data (va / psz 2 * psz 2));
  ki_top va : zeroBase <= va < kerneltop -> entry 4 va s' = Some 0;
  ki_cov x : covered (pframes s') x -> covered (pframes s) x
}.

Lemma bootstrap_install fuel base data end_ pml4 s :
  ('(pdpt, s) ← retrieve 1 s;
   let s := zeroed pdpt pagetableps s in
   let s := wr (pml4 + 8 * pageIndex 4 base) (Z.lor pdpt pt_PageTable) s in
   s ← image_dirs fuel base data end_ pdpt base s;
   mret (pml4, installPagetable pml4 s)) =
  ('(pdpt, s) ← retrieve 1 (installPagetable pml4 s);
   s ← image_dirs fuel base data end_ pdpt base
         (wr (pml4 + 8 * pageIndex 4 base) (Z.lor pdpt pt_PageTable) (zeroed pdpt pagetableps s));
   mret (pml4, s)).
Proof.
  rewrite retrieve_install. destruct (retrieve 1 s) as [[pdpt s1]|]; cbn [mbind res_bind mret res_ret]; [|done]. cbv zeta.
  change (wr ?a ?x (zeroed ?p ?z (installPagetable ?q s1))) with (installPagetable q (wr a x (zeroed p z s1))).
  rewrite image_dirs_install. by destruct (image_dirs _ _ _ _ _ _ _) as [s2|].
Qed.

Section boot_root.
Context (s s1 : pstate regions) (pml4 : Z) (mem : regions).
Context (Ht : taken 1 pml4 (pframes s) mem).
Let r := installPagetable pml4 (wr (pml4 + 8 * recptindex) (Z.lor pml4 pt_PageTable) (zeroed pml4 pagetableps (set_frames mem s))).

Lemma boot_root : pt_inv r /\ forall n va pe, (1 <= n <= 4)%nat -> plain_slot va -> entry n va r = Some pe -> n = 4%nat /\ pe = 0.
Proof using Ht.
  destruct Ht as [Hok Hal Hlo Hhi Hin Hcov Hfree Hless]. change (psz 1) with 4096 in *.
  apply new_root; try done.
  - change (cr3 r) with pml4. lia.
  - intros i Hi. change (cr3 r) with pml4. change (rd r ?a) with (rd (wr (pml4 + 8 * recptindex) (Z.lor pml4 pt_PageTable) (zeroed pml4 pagetableps (set_frames mem s))) a).
    rewrite rd_wr. destruct (Z.eqb_spec i recptindex) as [->|]; [by rewrite decide_True|]. rewrite decide_False by lia.
    rewrite zeroed_rd, decide_False; [done|]. change pagetableps with 4096. lia.
  - change (cr3 r) with pml4. cbn [fa_free regions_source]. change (pframes r) with mem. rewrite Hless.
    assert ((pml4 + 4096) / 4096 = pml4 / 4096 + 1) as -> by (clear - Hal; Z.to_euclidean_division_equations; lia).
    destruct (Z.leb_spec (pml4 / 4096) (pml4 / 4096)), (Z.ltb_spec (pml4 / 4096) (pml4 / 4096 + 1)); first [lia|by rewrite andb_false_r].
Qed.
End boot_root.

Lemma root_zero (r : pstate regions) va :
  (forall n va pe, (1 <= n <= 4)%nat -> plain_slot va -> entry n va r = Some pe -> n = 4%nat /\ pe = 0) ->
  plain_slot va -> entry 4 va r = Some 0.
Proof.
  intros Hnew Hp. pose proof (Hnew 4%nat va (rd r (cr3 r + 8 * pageIndex 4 va)) ltac:(lia) Hp) as H.
  unfold entry in *. rewrite table_at_4 in *. cbn in *. by destruct (H eq_refl) as [_ ->].
Qed.

Lemma unmapped {F} `{FrameSource F} (s : pstate F) va : entry 4 va s = Some 0 -> translate va s = None.
Proof.
  unfold entry, translate. rewrite table_at_4. cbn [mbind option_bind]. intros [= E]. case_match; [|done]. cbn [walk]. by rewrite E.
Qed.

Lemma low_kernel_addr va : zeroBase <= va < kerneltop -> plain_slot va /\ pageIndex 4 KERNBASE <> pageIndex 4 va.
Proof.
  unfold plain_slot. change recptindex with 256. change (pageIndex 4 KERNBASE) with 511.
  change zeroBase with (2 ^ 64 - 2 ^ 47 + 2 ^ 39). change kerneltop with (2 ^ 64 - 2 ^ 39). intros Hv.
  rewrite pageIndex_eq by lia. change (12 + 9 * Z.of_nat 4) with 48. change (12 + 9 * (Z.of_nat 4 - 1)) with 39.
  split; Z.to_euclidean_division_equations; lia.
Qed.

Lemma bootstrap_spec fuel data kernelEnd (s : pstate regions) : mem_ok (pframes s) -> KERNBASE < kernelEnd <= image_top -> kernelEnd mod psz 2 = 0 ->
  match bootstrap (S (S fuel)) KERNBASE data kernelEnd s with
  | Ok (pml4, s') => cr3 s' = pml4 /\ kernel_image data kernelEnd s s'
  | Err e => e = AssertFailed
  end.
Proof.
  intros Hok Hke Hal. unfold bootstrap. pose proof (retrieve_spec 1 s ltac:(lia) Hok) as Hr.
  destruct (retrieve 1 s) as [[pml4 sr]|]; cbn [mbind res_bind]; [|done]. destruct Hr as [Hsr Ht]. set (mem := pframes sr) in *. rewrite Hsr.
  cbv zeta. rewrite bootstrap_install. destruct (boot_root s pml4 mem Ht) as [Hr Hnew].
  set (r := installPagetable pml4 _) in *.
  destruct (image_addr KERNBASE ltac:(unfold image_top; lia)) as (Hw & Hc & Hp).
  assert (entry 4 KERNBASE r = Some 0) as H4 by (by apply root_zero).
  pose proof (retrieve_spec 1 r ltac:(lia) (pi_ok _ Hr)) as Hr2.
  destruct (retrieve 1 r) as [[pdpt r1]|]; cbn [mbind res_bind]; [|done]. destruct Hr2 as [Hr1 Ht1]. set (mem1 := pframes r1) in *. rewrite Hr1.
  destruct (new_table r 3 KERNBASE pml4 pdpt mem1 Hr ltac:(lia) Hp) as [Hadd Hpd]; [done| |done|].
  { unfold entry in H4. rewrite table_at_4 in H4. cbn in H4. by injection H4. }
  set (r2 := wr _ _ (zeroed pdpt pagetableps _)) in *.
  pose proof (image_dirs_spec fuel data kernelEnd pdpt r2 (ta_inv _ _ _ _ Hadd) Hke Hal Hpd) as Hd.
  specialize (Hd ltac:(apply (ta_new _ _ _ _ Hadd); by intros ? ?)).
  destruct (image_dirs _ _ _ _ _ _ r2) as [s'|]; cbn [mbind res_bind mret res_ret]; [|done]. destruct Hd as (r3 & Ha3 & Hm).
  assert (forall va, plain_slot va -> entry 4 va r = Some 0) as Hzero.
  { intros va Hpv. by apply (root_zero r). }
  split; [by rewrite (im_cr3 _ _ _ _ _ Hm), (gr_cr3 _ _ (ta_grows _ _ _ _ Ha3)), (gr_cr3 _ _ (ta_grows _ _ _ _ Hadd))|].
  constructor.
  - apply Hm.
  - intros va Hpv Hwv Hcv. rewrite (im_map _ _ _ _ _ Hm) by done. case_decide; [done|].
    rewrite (grows_translate r2 r3), (grows_translate r r2) by (done || apply Ha3 || apply Hadd). by apply unmapped, Hzero.
  - apply (im_entry _ _ _ _ _ Hm).
  - intros va Hv. destruct (low_kernel_addr va Hv) as [Hpv Hne].
    rewrite (im_upper _ _ _ _ _ Hm), (ta_other _ _ _ _ Ha3), (ta_other _ _ _ _ Hadd) by (lia || done || (intros Hi; apply Hne, (Hi 4%nat); lia)).
    by apply Hzero.
  - intros x. rewrite (im_frames _ _ _ _ _ Hm). intros Hx%(ta_cov _ _ _ _ Ha3)%(ta_cov _ _ _ _ Hadd).
    by apply (tk_cov _ _ _ _ Ht) in Hx as [? _].
Qed.

(** ** clone *)
Lemma root_addr i : 0 <= i < 512 -> accessPE 4 (i * 2 ^ 39) = paging_root + 8 * i /\ pageIndex 4 (i * 2 ^ 39) = i.
Proof.
  intros Hi. assert (pageIndex 4 (i * 2 ^ 39) = i) as Hp.
  { pose proof (pageIndex_dig 0 4 i 0 0 0 0 ltac:(lia) Hi) as H. rewrite <- H at 2 by lia. f_equal. unfold dig. lia. }
  split; [|done]. unfold paging_root. rewrite !accessPE_dig by lia. rewrite Hp. cbn [Nat.add Nat.ltb Nat.leb].
  change (pageIndex 4 0) with 0. unfold dig. lia.
Qed.

Section clone_facts.
Context {F : Type} `{FrameSourceLaws F}.
Implicit Types s : pstate F.

Lemma root_access fuel i w s : pt_inv s -> 0 <= i < 512 -> access fuel (paging_root + 8 * i) w s = Ok (cr3 s + 8 * i, s).
Proof.
  intros Hs Hi. destruct (root_addr i Hi) as [<- Hp]. apply access_hit. rewrite translate_PE by (done || lia || (intros m ? ?; lia)).
  rewrite table_at_4. cbn [mbind option_bind]. by rewrite Hp.
Qed.

(** no table is at [page] *)
Definition off_tables (s : pstate F) (page : Z) : Prop :=
  page mod 4096 = 0 /\ forall m va b, (1 <= m <= 4)%nat -> plain_slot va -> table_at m va s = Some b -> b <> page.

Lemma word_not_in_page page b i j : page mod 4096 = 0 -> b mod 4096 = 0 -> b <> page -> 0 <= i < 512 -> 0 <= j < 512 -> b + 8 * i <> page + 8 * j.
Proof. intros Hp Hb Hne Hi Hj E. apply Hne. clear Hne. Z.to_euclidean_division_equations. lia. Qed.

Section page_write.
Context (s : pstate F) (page i x : Z) (Hs : pt_inv s) (Ho : off_tables s page) (Hi : 0 <= i < 512).
Let s' := wr (page + 8 * i) x s.

Lemma page_write_word m va b j : (1 <= m <= 4)%nat -> plain_slot va -> table_at m va s = Some b -> 0 <= j < 512 ->
  rd s' (b + 8 * j) = rd s (b + 8 * j).
Proof.
  intros Hm Hva Hb Hj. unfold s'. rewrite rd_wr, decide_False; [done|]. destruct Ho as [Hp Hno].
  apply word_not_in_page; try done; [by eapply table_aligned|by eapply Hno].
Qed.
Lemma page_write_inv : pt_inv s'.
Proof. apply (elsewhere_inv s); try done. apply page_write_word. Qed.
Lemma page_write_entry m va : (1 <= m <= 4)%nat -> plain_slot va -> entry m va s' = entry m va s.
Proof. apply elsewhere_entry; [done|]. apply page_write_word. Qed.
Lemma page_write_same va : plain_slot va -> same_entries va s s'.
Proof. intros Hva. split; [done|]. intros n Hn. by apply page_write_entry. Qed.
Lemma page_write_off : off_tables s' page.
Proof.
  split; [apply Ho|]. intros m va b Hm Hva Hb. apply Ho with m va; try done. rewrite <- Hb. symmetry.
  apply (elsewhere_table s); try done. apply page_write_word.
Qed.
End page_write.

(** [s'] differs from [s] in the page only *)
Record page_changed (page : Z) (words : Z -> Z) (lo hi : Z) (s s' : pstate F) : Prop := {
  pc_inv : pt_inv s';
  pc_cr3 : cr3 s' = cr3 s;
  pc_frames : pframes s' = pframes s;
  pc_entries va : plain_slot va -> same_entries va s s';
  pc_off : off_tables s' page;
  pc_in i : lo <= i < hi -> rd s' (page + 8 * i) = words i;
  pc_out a : (forall i, lo <= i < hi -> a <> page + 8 * i) -> rd s' a = rd s a
}.

Lemma copy_spec page addr words count i s : pt_inv s -> off_tables s page -> 0 <= i -> i + Z.of_nat count <= 512 ->
  plain_slot addr -> 0 <= addr -> addr + 4096 < 2 ^ 64 ->
  (forall j, 0 <= j < 512 -> plain_slot (addr + 8 * j) /\ translate (addr + 8 * j) s = Some (page + 8 * j)) ->
  (forall j, i <= j < i + Z.of_nat count -> rd s (cr3 s + 8 * j) = words j) ->
  exists s', copy_words count (addr + 8 * i) (paging_root + 8 * i) s = Ok s' /\ page_changed page words i (i + Z.of_nat count) s s'.
Proof.
  revert i s. induction count as [|count IH]; intros i s Hs Ho Hi Hle Hpl Ha Htop Htr Hw.
  { exists s. split; [done|]. constructor; try done; intros; lia. }
  rewrite Nat2Z.inj_succ in *. cbn [copy_words]. rewrite root_access by (done || lia). cbn [mbind res_bind].
  destruct (Htr i ltac:(lia)) as [Hpi Hti]. rewrite (access_hit _ _ _ _ _ Hti). cbn [mbind res_bind].
  assert ((addr + 8 * i + 8)%w = addr + 8 * (i + 1)) as -> by (rewrite wrap_small by lia; lia).
  assert ((paging_root + 8 * i + 8)%w = paging_root + 8 * (i + 1)) as ->.
  { change paging_root with (2 ^ 64 - 2 ^ 48 + (2 ^ 47 + 2 ^ 38 + 2 ^ 29 + 2 ^ 20)) in *. rewrite wrap_small by lia. lia. }
  set (s1 := wr (page + 8 * i) _ s). assert (0 <= i < 512) as Hi' by lia.
  pose proof (page_write_inv s page i (rd s (cr3 s + 8 * i)) Hs Ho Hi') as Hs1. fold s1 in Hs1.
  assert (forall j, 0 <= j < 512 -> rd s1 (cr3 s + 8 * j) = rd s (cr3 s + 8 * j)) as Hroot.
  { intros j Hj. apply (page_write_word s page i _ Hs Ho Hi' 4 0); first [lia|done|by intros ?]. }
  destruct (IH (i + 1) s1 Hs1) as (s' & -> & Hpc); try done; [by apply page_write_off|lia|lia| | |].
  - intros j Hj. destruct (Htr j Hj) as [Hpj Htj]. split; [done|]. rewrite <- Htj. apply same_entries_translate, page_write_same; done.
  - intros j Hj. change (cr3 s1) with (cr3 s). rewrite Hroot by lia. apply Hw. lia.
  - exists s'. split; [done|]. destruct Hpc as [Ha1 Ha2 Ha3 Ha4 Ha5 Ha6 Ha7]. constructor; try done.
    + intros va Hva. eapply same_entries_trans; [by apply (page_write_same s page i)|by apply Ha4].
    + intros j Hj. destruct (decide (j = i)) as [->|].
      * rewrite Ha7 by (intros; lia). unfold s1. rewrite rd_wr, decide_True by done. apply Hw. lia.
      * apply Ha6. lia.
    + intros a Hout. rewrite Ha7 by (intros j Hj; apply Hout; lia). unfold s1. rewrite rd_wr, decide_False; [done|]. apply Hout. lia.
Qed.

(** the page as top-level table of its own *)
Section cloned.
Context (s : pstate F) (newpt : Z) (Hs : pt_inv s) (Hp : 0 <= newpt < 2 ^ 51) (Ho : off_tables s newpt).
Context (Hfree : fa_free (pframes s) (newpt / 4096) = false).
Context (Hw : forall i, 0 <= i < 512 -> rd s (newpt + 8 * i) =
  if i <? recptindex then 0 else if i =? recptindex then Z.lor newpt pt_PageTable else rd s (cr3 s + 8 * i)).
Let t := installPagetable newpt s.

Lemma cloned_top va : plain_slot va -> entry 4 va t = if pageIndex 4 va <? recptindex then Some 0 else entry 4 va s.
Proof using Hw.
  intros Hva. unfold entry. rewrite !table_at_4. cbn [mbind option_bind]. change (rd t ?a) with (rd s a). change (cr3 t) with newpt.
  rewrite Hw by (apply pageIndex_bounds; lia). case_match; [done|]. by rewrite (proj2 (Z.eqb_neq _ _) Hva).
Qed.

Lemma cloned_table m va : (1 <= m <= 3)%nat -> plain_slot va ->
  table_at m va t = if pageIndex 4 va <? recptindex then None else table_at m va s.
Proof using Hw.
  intros Hm Hva. assert (forall j, (j <= 2)%nat -> table_at (3 - j) va t = if pageIndex 4 va <? recptindex then None else table_at (3 - j) va s) as Hj.
  { induction j as [|j IH]; intros Hj.
    - rewrite !(table_at_S (3 - 0)) by lia. replace (S (3 - 0)) with 4%nat by lia. rewrite cloned_top by done. by case_match.
    - rewrite !(table_at_S (3 - S j)) by lia. replace (S (3 - S j)) with (3 - j)%nat by lia. unfold entry. rewrite IH by lia. by case_match. }
  specialize (Hj (3 - m)%nat ltac:(lia)). by replace (3 - (3 - m))%nat with m in Hj by lia.
Qed.

Lemma cloned_down n va b : (1 <= n <= 3)%nat -> plain_slot va -> table_at n va t = Some b -> table_at n va s = Some b.
Proof using Hw. intros Hn Hva. rewrite cloned_table by done. by case_match. Qed.

Lemma cloned_inv : pt_inv t.
Proof.
  destruct Ho as [Hpm Hno]. assert (rd t (cr3 t + 8 * recptindex) = Z.lor newpt pt_PageTable) as Hrec.
  { change (rd t ?a) with (rd s a). change (cr3 t) with newpt. rewrite Hw by (by split). done. }
  assert (forall n va b, (1 <= n <= 4)%nat -> plain_slot va -> table_at n va t = Some b -> n = 4%nat /\ b = newpt \/ (1 <= n <= 3)%nat /\ table_at n va s = Some b) as Hcase.
  { intros n va b Hn Hva Hb. destruct (decide (n = 4%nat)) as [->|].
    - left. rewrite table_at_4 in Hb. by injection Hb as <-.
    - right. split; [lia|]. apply cloned_down; (done || lia). }
  constructor.
  - by split.
  - exact Hrec.
  - intros va pe He Hpr. destruct (decide (plain_slot va)) as [Hva|Hva].
    + rewrite cloned_top in He by done. destruct (pageIndex 4 va <? recptindex); [injection He as <-; done|]. by apply (pi_top _ Hs va).
    + assert (pageIndex 4 va = recptindex) as Hr by (destruct (decide (pageIndex 4 va = recptindex)); [done|contradiction]).
      unfold entry in He. rewrite table_at_4 in He. cbn [mbind option_bind] in He. rewrite Hr, Hrec in He. injection He as <-.
      destruct (make_entry newpt pt_PageTable) as [_ Hb]; [lia|done|apply PageTable_bits|]. by rewrite Hb.
  - intros n n' va va' b Hn Hn' Hva Hva' Hb Hb'. apply Hcase in Hb as [[-> ->]|[Hn3 Hb]], Hb' as [[-> E]|[Hn3' Hb']]; try done.
    + split; [done|]. intros; lia.
    + by destruct (Hno n' va' newpt Hn' Hva' Hb').
    + subst b. by destruct (Hno n va newpt Hn Hva Hb).
    + by apply (pi_tree _ Hs n n' va va' b).
  - intros n va b Hn Hva Hb. destruct (Hcase n va b Hn Hva Hb) as [[-> ->]|[_ Hb']]; [done|]. by apply (pi_used _ Hs n va b).
  - intros n va pe Hn Hva He. destruct (decide (n = 4%nat)) as [->|].
    + rewrite cloned_top in He by done. destruct (pageIndex 4 va <? recptindex); [injection He as <-; done|]. by apply (pi_page _ Hs 4 va).
    + apply entry_Some in He as (b & Hb & ->). apply (pi_page _ Hs n va); [done|done|]. apply entry_Some. exists b. split; [|done].
      apply cloned_down; (done || lia).
  - apply Hs.
Qed.

Lemma cloned_translate va : plain_slot va -> translate va t = if pageIndex 4 va <? recptindex then None else translate va s.
Proof using Hw.
  intros Hva. unfold translate. destruct (is_canonical va); [|by case_match].
  assert (forall n b, walk n b va t = walk n b va s) as Hwalk.
  { induction n as [|n IH]; intros b; [done|]. cbn [walk]. change (rd t ?a) with (rd s a). by rewrite IH. }
  rewrite Hwalk. change (cr3 t) with newpt. cbn [walk]. rewrite Hw by (apply pageIndex_bounds; lia).
  destruct (pageIndex 4 va <? recptindex); [done|]. by rewrite (proj2 (Z.eqb_neq _ _) Hva).
Qed.
End cloned.

(** the new page is filled while it is mapped at [addr] *)
Lemma clone_fill newpt addr s : pt_inv s -> off_tables s newpt -> plain_slot addr -> 0 <= addr -> addr + 4096 < 2 ^ 64 ->
  (forall j, 0 <= j < 512 -> plain_slot (addr + 8 * j) /\ translate (addr + 8 * j) s = Some (newpt + 8 * j)) ->
  (forall i, 0 <= i < 256 -> rd s (newpt + 8 * i) = 0) ->
  exists s1, copy_words 256 (addr + 8 * 256) (paging_root + 8 * 256) s = Ok s1 /\
    access pe_fuel (addr + 8 * recptindex) true s1 = Ok (newpt + 8 * recptindex, s1) /\
    let s' := wr (newpt + 8 * recptindex) (Z.lor newpt pt_PageTable) s1 in
    pt_inv s' /\ cr3 s' = cr3 s /\ pframes s' = pframes s /\ off_tables s' newpt /\ (forall va, plain_slot va -> same_entries va s s') /\
    forall i, 0 <= i < 512 -> rd s' (newpt + 8 * i) =
      if i <? recptindex then 0 else if i =? recptindex then Z.lor newpt pt_PageTable else rd s' (cr3 s' + 8 * i).
Proof.
  intros Hs Ho Hpl Ha Htop Htr Hz. change recptindex with 256.
  destruct (copy_spec newpt addr (fun j => rd s (cr3 s + 8 * j)) 256 256 s) as (s1 & Hcp & Hpc); try done.
  change (256 + Z.of_nat 256) with 512 in Hpc. exists s1. split; [done|].
  destruct Hpc as [Hs1 Hcr1 Hfr1 He1 Ho1 Hin Hout]. split.
  { apply access_hit. rewrite (same_entries_translate (addr + 8 * 256) s s1); [by apply Htr|]. by apply He1, Htr. }
  intros s'. pose proof (page_write_inv s1 newpt 256 (Z.lor newpt pt_PageTable) Hs1 Ho1 ltac:(lia)) as Hs'.
  split; [done|]. split; [done|]. split; [done|]. split; [by apply page_write_off|]. split.
  - intros va Hva. eapply same_entries_trans; [by apply He1|by apply page_write_same].
  - intros i Hi. assert (forall j, 0 <= j < 512 -> rd s' (cr3 s + 8 * j) = rd s (cr3 s + 8 * j)) as Hroot.
    { intros j Hj. destruct Ho as [Hpm Hno]. assert (forall k, 0 <= k < 512 -> cr3 s + 8 * j <> newpt + 8 * k) as Hne.
      { intros k Hk. apply word_not_in_page; first [done|apply Hs|apply (Hno 4%nat 0); first [lia|done|by intros ?]]. }
      unfold s'. rewrite rd_wr, decide_False by (by apply Hne). apply Hout. intros k Hk. apply Hne. lia. }
    change (cr3 s') with (cr3 s1). rewrite Hcr1, Hroot by done. unfold s'. rewrite rd_wr.
    destruct (Z.ltb_spec i 256); [rewrite decide_False by lia; rewrite Hout by (intros; lia); apply Hz; lia|].
    destruct (Z.eqb_spec i 256) as [->|]; [by rewrite decide_True|]. rewrite decide_False by lia. apply Hin. lia.
Qed.

(** the addresses for cloning *)
Lemma clone_addr index : 0 <= index < 2 ^ 26 -> let a := (cloneBase + pagetableps * index)%w in
  a = cloneBase + 4096 * index /\ a mod psz 1 = 0 /\
  forall x, a <= x < a + 4096 -> is_word 64 x /\ is_canonical x = true /\ plain_slot x.
Proof.
  intros Hi a. assert (a = 2 ^ 64 - 2 ^ 39 + 4096 * (3 + index)) as ->.
  { unfold a. change cloneBase with (2 ^ 64 - 2 ^ 39 + 4096 * 3). change pagetableps with 4096.
    rewrite wrap_small by lia. lia. }
  change cloneBase with (2 ^ 64 - 2 ^ 39 + 4096 * 3). split; [lia|]. change (psz 1) with 4096. split.
  { Z.to_euclidean_division_equations. lia. }
  intros x Hx. split_and!.
  - unfold is_word. lia.
  - unfold is_canonical. apply orb_true_iff. right. apply Z.leb_le. lia.
  - unfold plain_slot. change recptindex with 256. rewrite pageIndex_eq by lia. change (12 + 9 * Z.of_nat 4) with 48.
    change (12 + 9 * (Z.of_nat 4 - 1)) with 39. Z.to_euclidean_division_equations. lia.
Qed.

Lemma aligned_page vma : is_word 64 vma -> vma mod psz 1 = 0 -> aligned 64 vma (psz 1) = true.
Proof. intros Hw Ha. change (psz 1) with (2 ^ 12) in *. rewrite aligned_spec by (unfold is_word in *; lia). by apply Z.eqb_eq. Qed.

Lemma data_entry newpt : 0 <= newpt < 2 ^ 51 -> newpt mod 4096 = 0 ->
  let x := Z.lor (Z.lor newpt (Z.lor pt_Data pt_Kernel)) (xPS 1) in leaf 1 x /\ present x = true /\ addr_of x = newpt.
Proof.
  intros Hp Hm. rewrite (Z.lor_comm pt_Data). apply page_entry; [lia|lia|done|]. apply data_type. by right.
Qed.

(** [mapPage] of the new page: its tables and memory *)
Lemma clone_map index newpt s : pt_inv s -> 0 <= index < 2 ^ 26 -> let addr := cloneBase + 4096 * index in
  clear_path 1 addr s -> old_entry 1 addr s = 0 -> 0 <= newpt < 2 ^ 51 -> off_tables s newpt ->
  fa_free (pframes s) (newpt / 4096) = false -> (forall i, 0 <= i < 512 -> rd s (newpt + 8 * i) = 0) ->
  match mapPage 1 addr newpt (Z.lor pt_Data pt_Kernel) s with
  | Ok (_, s') => exists x, remapped 1 addr (Some newpt) s s' /\ entry 1 addr s' = Some x /\ isPage 1 x = true /\ off_tables s' newpt /\
      fa_free (pframes s') (newpt / 4096) = false /\ forall i, 0 <= i < 512 -> rd s' (newpt + 8 * i) = 0
  | Err e => e = Aborted
  end.
Proof.
  intros Hs Hidx addr Hc He Hp [Hpm Hno] Hf Hz. destruct (clone_addr index Hidx) as (Ea & Hal & Hin). cbv zeta in *. rewrite Ea in *. fold addr in Hal, Hin.
  destruct (Hin addr ltac:(lia)) as (Hw & Hcan & Hpl). unfold mapPage.
  destruct (data_entry newpt Hp Hpm) as (Hl & Hpr & Haddr). set (x := Z.lor (Z.lor newpt _) (xPS 1)) in *.
  assert (bs_excl pe_ADDR newpt = 0) as -> by (rewrite <- Haddr; apply addr_excl). cbn [Z.eqb kassert mbind res_bind].
  unfold mapInternal, mapInternal_by. rewrite (aligned_page addr) by done. cbn [kassert mbind res_bind]. unfold casPE_by.
  pose proof (access_old 1 addr true s Hs ltac:(lia) Hpl Hc) as Ha.
  destruct (access pe_fuel (accessPE 1 addr) true s) as [[ea s1]|]; cbn [mbind res_bind mret res_ret]; [|done].
  destruct Ha as (Hs1 & Hg & Hc1 & b & Hb & -> & Hrd). rewrite Hrd, He. cbn [Z.eqb].
  assert (off_tables s1 newpt) as Ho1.
  { split; [done|]. intros m va c Hm Hva Hcm ->. destruct (gr_table _ _ Hg m va newpt Hm Hva Hcm) as [Hcs|Hcf]; [|congruence].
    by apply (Hno m va newpt Hm Hva Hcs). }
  assert (b mod 4096 = 0) as Hbp by (eapply (table_aligned 1); [exact Hs1|lia|exact Hb]).
  assert (b <> newpt) as Hbn by (eapply (proj2 Ho1 1%nat); [lia|exact Hpl|exact Hb]).
  assert (forall i, 0 <= i < 512 -> (newpt + 8 * i) / 4096 = newpt / 4096) as Hfr.
  { intros i Hi. clear - Hpm Hi. Z.to_euclidean_division_equations. lia. }
  exists x. pose proof (leaf_remapped 1 addr b x s s1 Hs1 Hg ltac:(lia) Hpl Hw Hcan Hb Hl) as Hm. rewrite Hpr, Haddr in Hm.
  split; [done|]. split; [apply (write_at s1 Hs1 1 addr b x); [lia|done|done|by intros ? ?]|]. split; [done|]. split; [|split].
  - split; [done|]. intros m va c Hm' Hva Hc'. apply (proj2 Ho1 m va); try done.
    apply (write_leaf_table s1 Hs1 1 addr b x ltac:(lia) Hpl Hb m va c); (done || apply Hl).
  - change (pframes (wr _ _ s1)) with (pframes s1). destruct (fa_free (pframes s1) (newpt / 4096)) eqn:E; [|done]. apply (gr_free _ _ Hg) in E. congruence.
  - intros i Hi. rewrite rd_wr, decide_False.
    + rewrite (gr_mem _ _ Hg); [by apply Hz|by rewrite Hfr|]. intros m va c Hm' Hva Hc' E. rewrite Hfr in E by done.
      destruct (table_aligned m va s c Hs Hm' Hc') as [Hcm _]. apply (Hno m va c Hm' Hva Hc'). clear - E Hcm Hpm. Z.to_euclidean_division_equations. lia.
    + apply not_eq_sym. apply word_not_in_page; try done. apply pageIndex_bounds. lia.
Qed.

(** the temporary mapping is taken back; the page, which has its words, keeps them *)
Lemma clone_unmap newpt addr x s : pt_inv s -> off_tables s newpt -> plain_slot addr -> is_word 64 addr -> is_canonical addr = true ->
  addr mod psz 1 = 0 -> entry 1 addr s = Some x -> isPage 1 x = true ->
  exists s', unmap 1 addr s = Ok (addr_of x, s') /\ remapped 1 addr None s s' /\ off_tables s' newpt /\
    cr3 s' = cr3 s /\ pframes s' = pframes s /\
    forall i, 0 <= i < 512 -> rd s' (newpt + 8 * i) = rd s (newpt + 8 * i) /\ rd s' (cr3 s + 8 * i) = rd s (cr3 s + 8 * i).
Proof.
  intros Hs Ho Hpl Hw Hcan Hal He Hpg. pose proof He as (b & Hb & Ex)%entry_Some. unfold unmap.
  rewrite (aligned_page addr) by done. cbn [kassert mbind res_bind]. unfold exchangePE.
  rewrite (access_hit _ _ _ _ (b + 8 * pageIndex 1 addr)).
  2:{ rewrite translate_PE; [by rewrite Hb|done|lia|]. intros m pe Hm Hpe.
      destruct (entry_above 1 addr s x ltac:(lia) He m Hm) as (pe' & E' & ? & ?). right. split; congruence. }
  cbn [mbind res_bind mret res_ret]. rewrite <- Ex, Hpg. cbn [kassert mbind res_bind]. eexists. split; [done|].
  assert (leaf 1 0) as Hl by done. split; [by apply (leaf_remapped 1 addr b 0 s s Hs (grows_refl s) ltac:(lia))|].
  split; [|split; [done|]; split; [done|]].
  - split; [apply Ho|]. intros m va c Hm Hva Hc. apply (proj2 Ho m va); try done.
    apply (write_leaf_table s Hs 1 addr b 0 ltac:(lia) Hpl Hb m va c); done.
  - intros i Hi. destruct (table_aligned 1 addr s b Hs ltac:(lia) Hb) as [Hbm _]. pose proof (pageIndex_bounds 1 addr ltac:(lia)) as Hpi.
    assert (b <> newpt) as Hbn by (apply (proj2 Ho 1%nat addr b); (lia || done)).
    assert (b <> cr3 s) as Hbc.
    { intros ->. destruct (pi_tree _ Hs 1 4 addr addr (cr3 s) ltac:(lia) ltac:(lia) Hpl Hpl Hb (table_at_4 addr s)); done. }
    rewrite !rd_wr, !decide_False; [done|..]; apply not_eq_sym, word_not_in_page; first [done|apply Hs|apply Ho].
Qed.

Lemma user_half va : is_word 64 va -> is_canonical va = true -> (pageIndex 4 va <? recptindex) = bool_decide (va < usertop).
Proof.
  intros Hw Hc. pose proof (canonical_split va Hw Hc) as E. pose proof (Z.mod_pos_bound va (2 ^ 48) ltac:(lia)) as Hm.
  assert (pageIndex 4 va = va mod 2 ^ 48 / 2 ^ 39) as Hp by (rewrite pageIndex_eq by lia; done).
  change recptindex with 256. change usertop with (2 ^ 47). rewrite Hp in *. set (y := va mod 2 ^ 48) in *.
  destruct (Z.ltb_spec (y / 2 ^ 39) 256) as [Hlt|Hge]; symmetry; [apply bool_decide_true|apply bool_decide_false].
  - rewrite E. clear - Hlt Hm. Z.to_euclidean_division_equations. lia.
  - rewrite E. clear - Hge Hm. Z.to_euclidean_division_equations. lia.
Qed.

(** C1. [clone] makes the top-level table of a new address space, for every
    page table state, processor and zeroed page that is in use for nothing
    else: in the new address space all of the kernel's half is mapped as in
    the current one, through the same tables, and nothing of the user's half;
    the recursive slot is its own and the invariant of Paging.v holds.  In
    the current address space nothing changes.  The only failure is to run out
    of memory for the tables of the temporary mapping. *)
Theorem page_table_clone index newpt s : pt_inv s -> 0 <= index < 2 ^ 26 ->
  clear_path 1 (cloneBase + 4096 * index) s -> old_entry 1 (cloneBase + 4096 * index) s = 0 ->
  0 <= newpt < 2 ^ 51 -> off_tables s newpt -> fa_free (pframes s) (newpt / 4096) = false ->
  (forall i, 0 <= i < 512 -> rd s (newpt + 8 * i) = 0) ->
  match clone index newpt s with
  | Ok s' =>
      pt_inv s' /\ (forall va, plain_slot va -> is_word 64 va -> is_canonical va = true ->
        translate va s' = if decide (va / 4096 = cloneBase / 4096 + index) then None else translate va s) /\
      let t := installPagetable newpt s' in
      pt_inv t /\ forall va, plain_slot va -> is_word 64 va -> is_canonical va = true ->
        translate va t = if decide (va < usertop) then None else translate va s'
  | Err e => e = Aborted
  end.
Proof.
  intros Hs Hidx Hc He Hp Ho Hf Hz. unfold clone. destruct (clone_addr index Hidx) as (Ea & Hal & Hin). cbv zeta in *. rewrite Ea in *.
  set (addr := cloneBase + 4096 * index) in *. pose proof (clone_map index newpt s Hs Hidx Hc He Hp Ho Hf Hz) as Hm. cbv zeta in Hm. fold addr in Hm.
  destruct (mapPage 1 addr newpt _ s) as [[ok s1]|]; cbn [mbind res_bind]; [|done].
  destruct Hm as (x & [Hs1 Hmap] & He1 & Hpg & Ho1 & Hf1 & Hz1).
  destruct (Hin addr ltac:(lia)) as (Hw & Hcan & Hpl).
  assert (forall j, 0 <= j < 512 -> plain_slot (addr + 8 * j) /\ translate (addr + 8 * j) s1 = Some (newpt + 8 * j)) as Htr.
  { intros j Hj. destruct (Hin (addr + 8 * j) ltac:(lia)) as (Hwj & Hcj & Hpj). split; [done|]. rewrite Hmap by done.
    change (psz 1) with 4096 in *. rewrite decide_True by (clear - Hal Hj; Z.to_euclidean_division_equations; lia).
    cbn [mbind option_bind]. do 2 f_equal. clear - Hal Hj. Z.to_euclidean_division_equations. lia. }
  assert (addr + 4096 < 2 ^ 64 /\ 0 <= addr) as [Htop Ha0].
  { unfold addr. change cloneBase with (2 ^ 64 - 2 ^ 39 + 4096 * 3). lia. }
  destruct (clone_fill newpt addr s1 Hs1 Ho1 Hpl Ha0 Htop Htr ltac:(intros; apply Hz1; lia)) as (s2 & Hcp & Hacc & Hs4 & Hcr4 & Hfr4 & Ho4 & He4 & Hw4).
  cbv zeta in Hs4, Hcr4, Hfr4, Ho4, He4, Hw4. set (s4 := wr _ _ s2) in *. change (ptentries / 2) with 256. change (Z.to_nat 256) with 256%nat.
  rewrite !(wrap_small 64 (addr + _)) by (change recptindex with 256; lia).
  change ((paging_root + 8 * 256)%w) with (paging_root + 8 * 256). rewrite Hcp. cbn [mbind res_bind]. rewrite Hacc. cbn [mbind res_bind]. fold s4.
  assert (entry 1 addr s4 = Some x) as He4' by (rewrite (proj2 (He4 addr Hpl)) by lia; done).
  destruct (clone_unmap newpt addr x s4 Hs4 Ho4 Hpl Hw Hcan Hal He4' Hpg) as (s5 & -> & [Hs5 Hmap5] & Ho5 & Hcr5 & Hfr5 & Hw5).
  cbn [mbind res_bind mret res_ret]. split; [done|]. split.
  - intros va Hpv Hwv Hcv. rewrite Hmap5 by done. rewrite (same_entries_translate va s1 s4) by (by apply He4). rewrite Hmap by done.
    change (psz 1) with 4096. assert (addr / 4096 = cloneBase / 4096 + index) as ->; [|by case_decide].
    unfold addr. by rewrite (Z.mul_comm 4096), Z.div_add by lia.
  - assert (forall i, 0 <= i < 512 -> rd s5 (newpt + 8 * i) =
      if i <? recptindex then 0 else if i =? recptindex then Z.lor newpt pt_PageTable else rd s5 (cr3 s5 + 8 * i)) as Hwords.
    { intros i Hi. destruct (Hw5 i Hi) as [-> E]. rewrite Hcr5, E. by apply Hw4. }
    assert (fa_free (pframes s5) (newpt / 4096) = false) as Hf5 by (by rewrite Hfr5, Hfr4).
    split; [by apply cloned_inv|]. intros va Hpv Hwv Hcv. rewrite cloned_translate, user_half by done. by repeat case_decide.
Qed.
End clone_facts.

(** ** bootstrap3 *)
Section bootstrap3_facts.
Context {F : Type} `{FrameSourceLaws F}.
Implicit Types s : pstate F.

Lemma zero_addr va : zeroBase <= va < zeroBase + 2 ^ 39 -> is_word 64 va /\ is_canonical va = true /\ plain_slot va.
Proof.
  change zeroBase with (2 ^ 64 - 2 ^ 47 + 2 ^ 39). intros Hv. split_and!.
  - unfold is_word. lia.
  - unfold is_canonical. apply orb_true_iff. right. apply Z.leb_le. lia.
  - unfold plain_slot. change recptindex with 256. rewrite pageIndex_eq by lia. change (12 + 9 * Z.of_nat 4) with 48.
    change (12 + 9 * (Z.of_nat 4 - 1)) with 39. Z.to_euclidean_division_equations. lia.
Qed.

Lemma zero_same k va : 0 <= k < 512 -> zeroBase <= va < zeroBase + 2 ^ 39 ->
  same_idx 3 (zeroBase + 2 ^ 30 * k) va <-> zeroBase + 2 ^ 30 * k <= va < zeroBase + 2 ^ 30 * (k + 1).
Proof.
  intros Hk Hv. destruct (zero_addr va Hv) as (Hw & Hc & _), (zero_addr (zeroBase + 2 ^ 30 * k) ltac:(lia)) as (Hw' & Hc' & _).
  rewrite same_idx_page by (done || lia). change (psz 3) with (2 ^ 30). change zeroBase with (2 ^ 64 - 2 ^ 47 + 2 ^ 39).
  split; intros; Z.to_euclidean_division_equations; lia.
Qed.

Lemma bootstrap3_loop_spec rounds k s : pt_inv s -> 0 <= k -> k + Z.of_nat rounds < 512 ->
  (forall va, zeroBase + 2 ^ 30 * (k + 1) <= va < zeroBase + 2 ^ 39 -> entry 3 va s = Some 0) ->
  match bootstrap3_loop rounds (zeroBase + 2 ^ 30 * k) s with
  | Ok s' => pt_inv s' /\ grows s s' /\
      forall va, zeroBase + 2 ^ 30 * (k + 1) <= va < zeroBase + 2 ^ 30 * (k + 1 + Z.of_nat rounds) -> is_Some (table_at 2 va s')
  | Err e => e = Aborted
  end.
Proof.
  revert k s. induction rounds as [|rounds IH]; intros k s Hs Hk Hr He; cbn [bootstrap3_loop].
  { split; [done|]. split; [apply grows_refl|]. intros va Hv. lia. }
  rewrite Nat2Z.inj_succ in Hr. assert ((zeroBase + 2 ^ 30 * k + pagesize 3)%w = zeroBase + 2 ^ 30 * (k + 1)) as ->.
  { change (pagesize 3) with (2 ^ 30). change zeroBase with (2 ^ 64 - 2 ^ 47 + 2 ^ 39). rewrite wrap_small by lia. lia. }
  set (addr := zeroBase + 2 ^ 30 * (k + 1)) in *. assert (zeroBase <= addr < zeroBase + 2 ^ 39) as Ha by (unfold addr; lia).
  destruct (zero_addr addr Ha) as (Hw & Hc & Hp).
  destruct (alloc_frame 1 s) as [[pd s1]|e] eqn:Ea; cbn [mbind res_bind].
  2:{ unfold alloc_frame in Ea. pose proof (fa_alloc_law 1 (pframes s) (pi_ok _ Hs) ltac:(lia)) as Hl.
      destruct (fa_alloc 1 (pframes s)) as [[? ?]|]; [discriminate Ea|injection Ea as <-; exact Hl]. }
  destruct (alloc_tables 1 s s1 pd Hs ltac:(lia) Ea) as (Hs1 & Hg1 & Hal & Hp0 & Htop & He1 & Hz1 & Hf1). change (psz 1) with 4096 in *.
  pose proof (He addr ltac:(lia)) as He3. pose proof He3 as (b & Hb & Hz)%entry_Some.
  destruct (setPE_hit 3 addr (Z.lor pd pt_PageTable) s1 0 Hs1 ltac:(lia)) as (b' & Hb' & _ & ->); [by rewrite He1 by (done || lia)|].
  assert (b' = b) as ->.
  { rewrite (same_entries_table addr s s1 3) in Hb' by (lia || (split; [apply Hg1|intros; by apply He1])). congruence. }
  cbn [mbind res_bind]. destruct (Hf1 (pd / 4096)) as (Hfa & Hfb & _); [clear - Hal; Z.to_euclidean_division_equations; lia|].
  destruct (added_table s s1 2 addr b pd) as ([Hi Hg] & Hnew & Hother & Htab); try done; [lia|lia|intros; by apply He1|].
  set (s2 := wr _ _ s1) in *. specialize (IH (k + 1) s2 Hi ltac:(lia) ltac:(lia)). fold addr in IH.
  assert (forall va, zeroBase + 2 ^ 30 * (k + 1 + 1) <= va < zeroBase + 2 ^ 39 -> entry 3 va s2 = Some 0) as He2.
  { intros va Hv. destruct (zero_addr va ltac:(lia)) as (_ & _ & Hpv). rewrite Hother; [apply He; unfold addr; lia|done| |lia].
    unfold addr. rewrite zero_same by lia. lia. }
  specialize (IH He2). destruct (bootstrap3_loop rounds addr s2) as [s'|]; [|done]. destruct IH as (Hs' & Hg' & Ht').
  split; [done|]. split; [by eapply grows_trans|]. intros va Hv. destruct (zero_addr va ltac:(unfold addr in *; lia)) as (_ & _ & Hpv).
  destruct (decide (zeroBase + 2 ^ 30 * (k + 1 + 1) <= va)) as [Hge|Hlt]; [apply Ht'; lia|].
  exists pd. apply (grows_table s2 s'); [done|lia|done|]. rewrite <- Htab. symmetry. apply table_idx; [lia|].
  unfold addr. apply zero_same; [lia|lia|]. unfold addr in Hv. lia.
Qed.

(** after [bootstrap3] the table for the zeroing address of every processor
    exists; nothing else is mapped or unmapped *)
Lemma bootstrap3_spec coreCount s : pt_inv s -> 0 < coreCount <= 2 ^ 18 -> is_Some (table_at 2 zeroBase s) ->
  (forall va, zeroBase + 2 ^ 30 <= va < zeroBase + 2 ^ 39 -> entry 3 va s = Some 0) ->
  match bootstrap3 coreCount s with
  | Ok s' => pt_inv s' /\ (forall va, plain_slot va -> translate va s' = translate va s) /\
      forall index, 0 <= index < coreCount -> is_Some (table_at 2 (zeroBase + kernelps * index) s')
  | Err e => e = Aborted
  end.
Proof.
  intros Hs Hc Ht He. unfold bootstrap3. change ptentries with 512.
  set (rounds := Z.to_nat ((coreCount - 1) / 512)).
  assert (Z.of_nat rounds = (coreCount - 1) / 512) as Er by (apply Z2Nat.id, Z.div_pos; lia).
  assert (0 <= (coreCount - 1) / 512 < 512) as Hr by (split; [apply Z.div_pos|apply Z.div_lt_upper_bound]; lia).
  pose proof (bootstrap3_loop_spec rounds 0 s Hs ltac:(lia) ltac:(lia)) as Hl. rewrite Z.mul_0_r, Z.add_0_r in Hl.
  specialize (Hl ltac:(intros va Hv; apply He; lia)). destruct (bootstrap3_loop rounds zeroBase s) as [s'|]; [|done].
  destruct Hl as (Hs' & Hg & Hnew). split; [done|]. split; [intros va Hva; by apply grows_translate|].
  intros index Hi. change kernelps with (2 ^ 21). destruct (zero_addr (zeroBase + 2 ^ 21 * index) ltac:(lia)) as (_ & _ & Hp).
  destruct (decide (index < 512)).
  - destruct Ht as [b Hb]. exists b. apply (grows_table s s'); [done|lia|done|]. rewrite <- Hb. symmetry. apply table_idx; [lia|].
    pose proof (zero_same 0 (zeroBase + 2 ^ 21 * index) ltac:(lia) ltac:(lia)) as Hz. rewrite Z.mul_0_r, Z.add_0_r in Hz. apply Hz. lia.
  - apply Hnew. rewrite Er. split; [lia|]. assert (index <= (coreCount - 1) / 512 * 512 + 511); [|lia].
    clear - Hi. Z.to_euclidean_division_equations. lia.
Qed.
End bootstrap3_facts.

(** ** Properties *)

(** what the processor may do with a page of the image *)
Lemma image_entry_bits data addr : KERNBASE <= addr < image_top -> addr mod psz 2 = 0 ->
  let e := image_entry KERNBASE data addr in
  Z.testbit e 1 = (data <=? addr) /\ Z.testbit e 63 = (data <=? addr) /\ Z.testbit e 2 = false /\ e <> 0.
Proof.
  intros Ha Hal. cbv zeta. destruct (image_leaf data addr Ha Hal) as (_ & Hp & _). cbv zeta in Hp.
  unfold image_entry in *. unfold image_top in Ha. change KERNBASE with (2 ^ 64 - 2 ^ 31) in *. change (psz 2) with (2 ^ 21) in *.
  rewrite (wrap_small 64) in * by lia. set (pa := addr - (2 ^ 64 - 2 ^ 31)) in *.
  assert (Z.testbit pa 1 = false /\ Z.testbit pa 2 = false /\ Z.testbit pa 63 = false) as (H1 & H2 & H63).
  { assert (0 <= pa < 2 ^ 30) as Hpa by (unfold pa; lia).
    assert (pa = pa / 2 ^ 21 * 2 ^ 21) as E.
    { unfold pa. clear - Hal. Z.to_euclidean_division_equations. lia. }
    split_and!; [rewrite E; apply Z.mul_pow2_bits_low; lia..|]. apply (word_testbit_high 30); [exact Hpa|lia]. }
  split_and!.
  - rewrite !Z.lor_spec, H1. change (Z.testbit pt_Kernel 1) with false. change (Z.testbit (xPS 2) 1) with false.
    destruct (Z.ltb_spec addr data), (Z.leb_spec data addr); done || lia.
  - rewrite !Z.lor_spec, H63. change (Z.testbit pt_Kernel 63) with false. change (Z.testbit (xPS 2) 63) with false.
    destruct (Z.ltb_spec addr data), (Z.leb_spec data addr); done || lia.
  - rewrite !Z.lor_spec, H2. change (Z.testbit pt_Kernel 2) with false. change (Z.testbit (xPS 2) 2) with false. by case_match.
  - intros E. by rewrite E in Hp.
Qed.

(** C1. The page tables at boot.  [bootstrap] and [bootstrap2], from memory
    with any contents, give page tables with the invariant of Paging.v: the
    image of the kernel (up to 1G) is at KERNBASE, its code not writable and
    its data not executable; every page of the initial heap is a page of its
    own of the available memory, zeroed and no longer available; nothing else
    is mapped; the tables that all address spaces share exist for the whole
    kernel memory.  With too little memory an assertion fails. *)
Theorem boot_page_tables fuel data kernelEnd maxHeap initHeap (s : pstate regions) :
  mem_ok (pframes s) -> KERNBASE < kernelEnd <= KERNBASE + 2 ^ 30 -> kernelEnd mod psz 2 = 0 ->
  0 <= initHeap -> 0 <= maxHeap -> Z.max maxHeap initHeap <= kerneltop ->
  match boot_paging (S (S fuel)) data kernelEnd maxHeap initHeap s with
  | Ok (pml4, bottom, s') =>
      cr3 s' = pml4 /\ pt_inv s' /\ kernelbot <= bottom <= kerneltop - Z.max maxHeap initHeap /\
      (forall va, plain_slot va -> is_word 64 va -> is_canonical va = true ->
        if decide (KERNBASE <= va < kernelEnd) then
          translate va s' = Some (va - KERNBASE) /\
          exists e, entry 2 va s' = Some e /\ Z.testbit e 2 = false /\
            Z.testbit e 1 = (data <=? va / psz 2 * psz 2) /\ Z.testbit e 63 = (data <=? va / psz 2 * psz 2)
        else if decide (kerneltop - initHeap <= va < kerneltop) then
          exists pa, translate va s' = Some pa /\ covered (pframes s) pa /\ ~ covered (pframes s') pa /\ rd s' pa = 0
        else translate va s' = None) /\
      (forall va va', kerneltop - initHeap <= va < kerneltop -> kerneltop - initHeap <= va' < kerneltop ->
        translate va s' = translate va' s' -> va = va') /\
      (forall va, bottom <= va < kerneltop -> is_Some (table_at 3 va s')) /\
      forall x, covered (pframes s') x -> covered (pframes s) x
  | Err e => e = AssertFailed
  end.
Proof.
  intros Hok Hke Hal Hih Hmh Hmax. unfold boot_paging. pose proof (bootstrap_spec fuel data kernelEnd s Hok Hke Hal) as Hb.
  destruct (bootstrap _ _ _ _ s) as [[pml4 s1]|]; cbn [mbind res_bind]; [|done]. destruct Hb as [Hcr Hki].
  pose proof (bootstrap2_spec maxHeap initHeap s1 (ki_inv _ _ _ _ Hki) Hih Hmh Hmax (ki_top _ _ _ _ Hki)) as Hb2.
  destruct (bootstrap2 _ _ s1) as [[bottom s']|]; cbn [mbind res_bind mret res_ret]; [|done].
  destruct Hb2 as (_ & _ & Hbot & Hkh). split; [by rewrite (kh_cr3 _ _ _ _ Hkh)|].
  split; [apply Hkh|]. split; [done|]. split; [|split; [|split]].
  - intros va Hp Hw Hc. case_decide as Hi; [|case_decide as Hh].
    + assert (~ (kerneltop - initHeap <= va < kerneltop)) as Hno by (change kerneltop with (2 ^ 64 - 2 ^ 39); change KERNBASE with (2 ^ 64 - 2 ^ 31) in Hi; lia).
      split; [rewrite (kh_other _ _ _ _ Hkh) by done; by rewrite (ki_map _ _ _ _ Hki), decide_True by done|].
      set (a := va / psz 2 * psz 2). assert (KERNBASE <= a < image_top /\ a mod psz 2 = 0) as [Ha Ham].
      { unfold a, image_top. change KERNBASE with (2 ^ 64 - 2 ^ 31) in *. change (psz 2) with (2 ^ 21). clear - Hi Hke. Z.to_euclidean_division_equations. lia. }
      destruct (image_entry_bits data a Ha Ham) as (H1 & H63 & H2 & Hz). exists (image_entry KERNBASE data a).
      split; [|done]. apply (kh_keep _ _ _ _ Hkh); [done..| |done]. by apply (ki_entry _ _ _ _ Hki).
    + destruct (kh_at _ _ _ _ Hkh va Hh) as (pa & ? & Hcov & ? & ?). exists pa. split; [done|]. split; [|done]. by apply (ki_cov _ _ _ _ Hki).
    + rewrite (kh_other _ _ _ _ Hkh) by done. by rewrite (ki_map _ _ _ _ Hki), decide_False by done.
  - apply (kh_inj _ _ _ _ Hkh).
  - apply (kh_tables _ _ _ _ Hkh).
  - intros x Hx. by apply (ki_cov _ _ _ _ Hki), (kh_cov _ _ _ _ Hkh).
Qed.

(** memory from 2M to 16M, a kernel image of 4M whose data starts at 2M, a heap of 2M *)
Definition boot_example : pstate regions := mkPst {[ 4096 * 512 := 7 ]} 0 [mkRegion (2 ^ 21) (2 ^ 24)].
Definition boot_run : res (Z * Z * pstate regions) :=
  boot_paging 2 (KERNBASE + 2 ^ 21) (KERNBASE + 2 ^ 22) (2 ^ 22) (2 ^ 21) boot_example.

Lemma boot_page_tables_witness :
  match boot_run with
  | Ok (pml4, bottom, s) => pml4 = 2 ^ 21 /\ bottom = kerneltop - 2 ^ 39 /\ pt_inv s /\
      translate (KERNBASE + 5) s = Some 5 /\ translate (kerneltop - 1) s = Some (2 ^ 22 + 2 ^ 21 - 1)
  | Err _ => False
  end.
Proof.
  pose proof (boot_page_tables 0 (KERNBASE + 2 ^ 21) (KERNBASE + 2 ^ 22) (2 ^ 22) (2 ^ 21) boot_example) as H. fold boot_run in H.
  assert (mem_ok (pframes boot_example)) as Hok by (split; [split; [done|]; split; [by apply Forall_nil|done]|by repeat constructor]).
  assert (match boot_run with Ok (pml4, bottom, s) => Some (pml4, bottom, translate (KERNBASE + 5) s, translate (kerneltop - 1) s) | Err _ => None end
    = Some (2 ^ 21, kerneltop - 2 ^ 39, Some 5, Some (2 ^ 22 + 2 ^ 21 - 1))) as E by (vm_compute; reflexivity).
  specialize (H Hok ltac:(split; reflexivity || discriminate) eq_refl ltac:(discriminate) ltac:(discriminate) ltac:(discriminate)).
  destruct boot_run as [[[pml4 bottom] s]|]; [|discriminate E]. injection E as -> -> E1 E2.
  split; [reflexivity|]. split; [reflexivity|]. split; [apply H|]. split; [exact E1|exact E2].
Defined.


Lemma page_table_clone_witness :
  match clone 0 8192 pt_example with
  | Ok s => pt_inv (installPagetable 8192 s) /\ rd s (8192 + 8 * 256) = Z.lor 8192 pt_PageTable /\ rd s (8192 + 8 * 511) = rd s (4096 + 8 * 511)
  | Err _ => False
  end.
Proof.
  pose proof (page_table_clone 0 8192 pt_example pt_example_inv) as H.
  assert (match clone 0 8192 pt_example with Ok s => Some (rd s (8192 + 8 * 256), rd s (8192 + 8 * 511) =? rd s (4096 + 8 * 511)) | Err _ => None end
    = Some (Z.lor 8192 pt_PageTable, true)) as E by (vm_compute; reflexivity).
  assert (plain_slot (cloneBase + 4096 * 0)) as Hp by (apply (clone_addr 0); (split; reflexivity || discriminate) || (vm_compute; split; discriminate || reflexivity)).
  assert (off_tables pt_example 8192) as Ho.
  { split; [reflexivity|]. intros m va b Hm Hva Hb ->.
    destruct (pt_example_entry m va (rd pt_example (8192 + 8 * pageIndex m va)) Hm Hva) as [-> _]; [unfold entry; rewrite Hb; reflexivity|discriminate Hb]. }
  destruct (clone 0 8192 pt_example) as [s|]; [|discriminate E]. injection E as E1 E2%Z.eqb_eq.
  split; [|split; [exact E1|exact E2]].
  apply H; [split; reflexivity || discriminate|apply pt_example_clear; [split; repeat constructor|exact Hp]| |split; reflexivity || discriminate|exact Ho|reflexivity|].
  - unfold old_entry. destruct (entry 1 (cloneBase + 4096 * 0) pt_example) as [pe|] eqn:Hpe; [|reflexivity].
    destruct (pt_example_entry 1 _ pe ltac:(split; repeat constructor) Hp Hpe) as [? _]. discriminate.
  - intros i Hi. rewrite pt_example_rd, decide_False; [reflexivity|lia].
Defined.

(** ** An image of more than 1G *)
Lemma image_pages_stop count base data pd end_ addr s : end_ <= addr -> image_pages count base data pd end_ addr s = (addr, s).
Proof. intros He. destruct count; cbn [image_pages]; [done|]. destruct (Z.ltb_spec addr end_); [lia|done]. Qed.

Lemma image_pages_end count base data pd end_ addr s j : end_ = addr + 2 ^ 21 * Z.of_nat j -> (j <= count)%nat -> 0 <= addr -> end_ < 2 ^ 64 ->
  (image_pages count base data pd end_ addr s).1 = end_.
Proof.
  revert count addr s. induction j as [|j IH]; intros count addr s E Hj Ha He.
  { rewrite image_pages_stop by lia. simpl. lia. }
  destruct count as [|count]; [lia|]. rewrite Nat2Z.inj_succ in E. cbn [image_pages]. destruct (Z.ltb_spec addr end_); [|lia].
  assert ((addr + kernelps)%w = addr + 2 ^ 21) as -> by (change kernelps with (2 ^ 21); apply wrap_small; lia).
  apply IH; lia.
Qed.

(** the second directory would start at the last gigabyte, where
    [addr + pagesize<kernelpl+1>()] wraps to 0: the loop makes one directory
    after the other and does not advance, until there is no memory *)
Lemma image_dirs_stuck fuel data kernelEnd pdpt s : image_top < kernelEnd ->
  is_ok (image_dirs fuel KERNBASE data kernelEnd pdpt image_top s) = false.
Proof.
  intros Hke. revert s. induction fuel as [|fuel IH]; intros s; cbn [image_dirs]; [done|].
  destruct (Z.ltb_spec image_top kernelEnd); [|lia]. destruct (retrieve 1 s) as [[pd s1]|]; cbn [mbind res_bind]; [|done].
  change ((image_top + pagesize 3)%w) with 0. rewrite (Z.min_r kernelEnd 0) by (change image_top with (2 ^ 64 - 2 ^ 30) in *; lia).
  rewrite image_pages_stop by done. apply IH.
Qed.

Lemma bootstrap_large fuel data kernelEnd s : image_top < kernelEnd -> is_ok (bootstrap fuel KERNBASE data kernelEnd s) = false.
Proof.
  intros Hke. unfold bootstrap. destruct (retrieve 1 s) as [[pml4 s1]|]; cbn [mbind res_bind]; [|done].
  destruct (retrieve 1 _) as [[pdpt s2]|]; cbn [mbind res_bind]; [|done].
  set (s3 := wr _ _ (zeroed pdpt _ s2)). assert (is_ok (image_dirs fuel KERNBASE data kernelEnd pdpt KERNBASE s3) = false) as Hno.
  { destruct fuel as [|fuel]; [done|]. cbn [image_dirs]. destruct (Z.ltb_spec KERNBASE kernelEnd); [|unfold image_top in Hke; lia].
    destruct (retrieve 1 s3) as [[pd s4]|]; cbn [mbind res_bind]; [|done].
    change ((KERNBASE + pagesize 3)%w) with image_top. rewrite (Z.min_r kernelEnd image_top) by lia.
    pose proof (image_pages_end (Z.to_nat ptentries) KERNBASE data pd image_top KERNBASE
      (wr (pdpt + 8 * pageIndex 3 KERNBASE) (Z.lor pd pt_PageTable) (zeroed pd pagetableps s4)) 512 eq_refl ltac:(vm_compute; lia) ltac:(done) eq_refl) as E.
    destruct (image_pages _ _ _ _ _ _ _) as [a s5]. simpl in E. subst a. by apply image_dirs_stuck. }
  destruct (image_dirs _ _ _ _ _ _ s3); [discriminate Hno|done].
Qed.
