(* ===== verification/AddressSpace.v ===== *)
(** * Address spaces: kernel/AddressSpace.h

    Virtual address ranges, the mapping and unmapping of regions, and the
    deferred release of unmapped pages: an unmapped page is released, and its
    addresses are used again, when every processor has invalidated its TLB
    entry, which the epochs of the markers decide.  Descriptors and markers
    are the elements of the intrusive lists; page tables are those of
    Paging.v. *)
From Stdlib Require Import ZArith Lia Bool Sorted.
From stdpp Require Import base tactics option numbers list relations.
From S2P Require Import Prelude Bitmanip Memory FrameManager Paging.

(** struct MemoryDescriptor *)
Record md := mkMD { md_vma : Z; md_pma : Z; md_size : Z; md_alloc : bool }.

#[export] Instance md_eq_dec : EqDecision md.
Proof. solve_decision. Defined.

(** [BaseAddressSpace]; a marker is a processor and its [enterEpoch].  The
    epoch counts unmapped pages and is not wrapped: it would take 2^63 of
    them *)
Record aspace := mkAS {
  unmapEpoch : Z;
  memoryList : list md;
  markerList : list (nat * Z);
  unmapSet : list (Z * Z);              (* start and end, ordered by start *)
  mapBottom : Z; mapStart : Z; mapTop : Z }.

Inductive MapCode := NoAlloc | Alloc | GuardCode | LazyCode.

Definition as_new : aspace := mkAS 0 [] [] [] 0 0 0.
Definition as_setup (bot top : Z) (a : aspace) : aspace :=
  mkAS (unmapEpoch a) (memoryList a) (markerList a) (unmapSet a) bot top top.

Definition set_start (x : Z) (a : aspace) : aspace :=
  mkAS (unmapEpoch a) (memoryList a) (markerList a) (unmapSet a) (mapBottom a) x (mapTop a).

(** ** Ranges *)
(** start and (rounded) size of the new range *)
Definition getVmRange (n : nat) (addr size : Z) (a : aspace) : res (Z * Z * aspace) :=
  _ ← kassert (mapBottom a <? mapTop a);
  let end_ := if mapBottom a <=? addr then align_up 64 (addr + size)%w (psz n) else align_down 64 (mapStart a) (psz n) in
  let start := align_down 64 (end_ - size)%w (psz n) in
  if start <? mapBottom a then Err Aborted
  else
    let a := if start <? mapStart a then set_start start a else a in
    mret (start, (end_ - start)%w, a).

(** [unmapSet.insert]: an element with the same start stays *)
Fixpoint uset_insert (u : Z * Z) (l : list (Z * Z)) : list (Z * Z) :=
  match l with
  | [] => [u]
  | v :: l' => if u.1 <? v.1 then u :: l else if v.1 <? u.1 then v :: uset_insert u l' else l
  end.

Fixpoint put_loop (l : list (Z * Z)) (start : Z) : res (list (Z * Z) * Z) :=
  match l with
  | [] => mret ([], start)
  | ud :: l' =>
      if start <? ud.1 then mret (l, start)
      else
        _ ← kassert (ud.1 =? start);
        _ ← kassert (start <? ud.2);
        put_loop l' ud.2
  end.

Definition putVmRange (m : md) (a : aspace) : res aspace :=
  '(l, start) ← put_loop (uset_insert (md_vma m, (md_vma m + md_size m)%w) (unmapSet a)) (mapStart a);
  mret (mkAS (unmapEpoch a) (memoryList a) (markerList a) l (mapBottom a) start (mapTop a)).

(** ** Markers *)
(** the part of [unmapRegion] under [ulock] *)
Definition as_unmapped (m : md) (a : aspace) : aspace :=
  mkAS (unmapEpoch a + 1) (memoryList a ++ [m]) (markerList a) (unmapSet a) (mapBottom a) (mapStart a) (mapTop a).

Definition as_enter (c : nat) (a : aspace) : aspace :=
  mkAS (unmapEpoch a) (memoryList a) (markerList a ++ [(c, unmapEpoch a)]) (unmapSet a) (mapBottom a) (mapStart a) (mapTop a).

(** the addresses to invalidate, from the back of the list *)
Fixpoint inv_loop (k : nat) (l : list md) : res (list Z) :=
  match k, l with
  | O, _ => mret []
  | S _, [] => Err AssertFailed
  | S k, m :: l => r ← inv_loop k l; mret (md_vma m :: r)
  end.

(** the descriptors whose pages are released *)
Fixpoint drop_loop (k : nat) (a : aspace) : res (list md * aspace) :=
  match k, memoryList a with
  | O, _ => mret ([], a)
  | S _, [] => Err AssertFailed
  | S k, m :: l =>
      a ← putVmRange m (mkAS (unmapEpoch a) l (markerList a) (unmapSet a) (mapBottom a) (mapStart a) (mapTop a));
      '(r, a) ← drop_loop k a;
      mret (m :: r, a)
  end.

(** the new state, the addresses passed to [InvTLB] and the descriptors of
    released pages *)
Definition as_leave (invalidate : bool) (c : nat) (a : aspace) : res (aspace * list Z * list md) :=
  match markerList a with
  | [] => Err AssertFailed
  | (c0, e0) :: _ =>
      match list_find (fun x => x.1 = c) (markerList a) with
      | None => Err NullDeref
      | Some (_, (_, enterEpoch)) =>
          let rest := filter (fun x => x.1 <> c) (markerList a) in
          let a1 := mkAS (unmapEpoch a) (memoryList a) rest (unmapSet a) (mapBottom a) (mapStart a) (mapTop a) in
          inv ← (if invalidate then inv_loop (Z.to_nat (unmapEpoch a - enterEpoch)) (rev (memoryList a)) else mret []);
          if decide (c0 = c) then
            let end_ := match rest with [] => unmapEpoch a | (_, e) :: _ => e end in
            '(rel, a2) ← drop_loop (Z.to_nat (end_ - enterEpoch)) a1;
            mret (a2, inv, rel)
          else mret (a1, inv, [])
      end
  end.

(** [KernelAddressSpace::runInvalidation]; also the case of [switchTo] that
    stays in the address space *)
Definition runInvalidation (c : nat) (a : aspace) : res (aspace * list Z * list md) :=
  '(a, inv, rel) ← as_leave true c a; mret (as_enter c a, inv, rel).

Definition initInvalidation (c : nat) (a : aspace) : res (aspace * list Z * list md) :=
  '(a, inv, rel) ← (match markerList a with [] => as_leave true c (as_enter c a) | _ => mret (a, [], []) end);
  mret (as_enter c a, inv, rel).

(** ** Regions *)
Section regions.
Context {F : Type} `{FrameSource F}.

Definition AllocCode (owner : Z) : MapCode := if owner =? pt_Kernel then Alloc else LazyCode.

(** iterations of [for (end = vma + size; vma < end; vma += pagesize<N>())]
    for an aligned [vma] and [size] *)
Definition region_pages (n : nat) (vma size : Z) : nat :=
  if vma <? (vma + size)%w then Z.to_nat (size / psz n) else O.

Fixpoint map_loop (k : nat) (n : nat) (mc : MapCode) (owner pma vma type : Z) (s : pstate F) : res (pstate F) :=
  match k with
  | O => mret s
  | S k =>
      '(pma, s) ← (match mc with Alloc => alloc_frame n s | _ => mret (pma, s) end);
      '(_, s) ← (match mc with
                 | NoAlloc | Alloc => mapPage n vma pma (Z.lor type owner) s
                 | GuardCode => mapToGuard n vma s
                 | LazyCode => mapToLazy n vma s
                 end);
      let pma := match mc with NoAlloc => (pma + psz n)%w | _ => pma end in
      map_loop k n mc owner pma (vma + psz n)%w type s
  end.

Definition mapRegion (n : nat) (mc : MapCode) (owner pma vma size type : Z) (s : pstate F) : res (pstate F) :=
  _ ← kassert (aligned 64 vma (psz n));
  _ ← kassert (aligned 64 size (psz n));
  map_loop (region_pages n vma size) n mc owner pma vma type s.

Fixpoint unmap_loop (k : nat) (n : nat) (mc : MapCode) (vma : Z) (a : aspace) (s : pstate F) : res (aspace * pstate F) :=
  match k with
  | O => mret (a, s)
  | S k =>
      '(pma, s) ← unmap n vma s;
      let alloc := match mc with Alloc => negb (pma =? guardPage) && negb (pma =? lazyPage) | _ => false end in
      unmap_loop k n mc (vma + psz n)%w (as_unmapped (mkMD vma pma (psz n) alloc) a) s
  end.

Definition unmapRegion (n : nat) (mc : MapCode) (vma size : Z) (a : aspace) (s : pstate F) : res (aspace * pstate F) :=
  _ ← kassert (aligned 64 vma (psz n));
  _ ← kassert (aligned 64 size (psz n));
  unmap_loop (region_pages n vma size) n mc vma a s.

Definition bmap (n : nat) (alloc : bool) (owner addr size pma : Z) (a : aspace) (s : pstate F) : res (Z * aspace * pstate F) :=
  '(addr, size, a) ← getVmRange n addr size a;
  let mc := if alloc then AllocCode owner else NoAlloc in
  s ← mapRegion n mc owner pma addr size pt_Data s;
  mret (addr, a, s).

Definition ballocStack (owner ss : Z) (a : aspace) (s : pstate F) : res (Z * aspace * pstate F) :=
  _ ← kassert (minimumStack <=? ss);
  let size := (ss + stackGuardPage)%w in
  '(vma, size', a) ← getVmRange 1 0 size a;
  _ ← kassert (size' =? (ss + stackGuardPage)%w);
  s ← mapRegion 1 GuardCode owner 0 vma stackGuardPage pt_Data s;
  let vma := (vma + stackGuardPage)%w in
  s ← mapRegion 1 (AllocCode owner) owner 0 vma ss pt_Data s;
  mret (vma, a, s).

Definition munmap (n : nat) (alloc : bool) (addr size : Z) (a : aspace) (s : pstate F) : res (aspace * pstate F) :=
  _ ← kassert (aligned 64 addr (psz n));
  unmapRegion n (if alloc then Alloc else NoAlloc) addr (align_up 64 size (psz n)) a s.

Definition releaseStack (vma ss : Z) (a : aspace) (s : pstate F) : res (aspace * pstate F) :=
  unmapRegion 1 Alloc (vma - stackGuardPage)%w (ss + stackGuardPage)%w a s.

Definition pagefault (vma pff : Z) (s : pstate F) : res (bool * pstate F) :=
  mapFromLazy 3 vma (Z.lor pt_Data pt_User) pff s.

Definition allocDirect (n : nat) (check : bool) (vma size t : Z) (a : aspace) (s : pstate F) : res (pstate F) :=
  _ ← kassert (negb check || (vma <? mapBottom a) || (mapTop a <? vma));
  mapRegion n Alloc pt_User 0 vma size t s.
Definition mapDirect (n : nat) (check : bool) (pma vma size t : Z) (a : aspace) (s : pstate F) : res (pstate F) :=
  _ ← kassert (negb check || (vma <? mapBottom a) || (mapTop a <? vma));
  mapRegion n NoAlloc pt_User pma vma size t s.

(** *** class AddressSpace: the page table root and the state above *)
Record uspace := mkUS { us_pagetable : Z; us_as : aspace }.

Definition us_new0 : uspace := mkUS topaddr as_new.
Definition us_setup (bssEnd : Z) (u : uspace) : uspace := mkUS (us_pagetable u) (as_setup bssEnd usertop (us_as u)).
Definition us_init (p : Z) (u : uspace) : res uspace :=
  _ ← kassert (us_pagetable u =? topaddr); mret (us_setup usertop (mkUS p (us_as u))).

Definition verifyPT (pt : Z) (s : pstate F) : res unit := kassert (pt =? cr3 s).

Definition us_mmap (n : nat) (alloc : bool) (addr size pma : Z) (u : uspace) (s : pstate F) : res (Z * uspace * pstate F) :=
  _ ← verifyPT (us_pagetable u) s;
  '(v, a, s) ← bmap n alloc pt_User addr size pma (us_as u) s; mret (v, mkUS (us_pagetable u) a, s).
Definition us_munmap (n : nat) (alloc : bool) (addr size : Z) (u : uspace) (s : pstate F) : res (uspace * pstate F) :=
  _ ← verifyPT (us_pagetable u) s;
  '(a, s) ← munmap n alloc addr size (us_as u) s; mret (mkUS (us_pagetable u) a, s).
Definition us_allocStack (ss : Z) (u : uspace) (s : pstate F) : res (Z * uspace * pstate F) :=
  _ ← verifyPT (us_pagetable u) s;
  '(v, a, s) ← ballocStack pt_User ss (us_as u) s; mret (v, mkUS (us_pagetable u) a, s).
Definition us_releaseStack (vma ss : Z) (u : uspace) (s : pstate F) : res (uspace * pstate F) :=
  _ ← verifyPT (us_pagetable u) s;
  '(a, s) ← releaseStack vma ss (us_as u) s; mret (mkUS (us_pagetable u) a, s).
Definition us_clean (u : uspace) (s : pstate F) : res (pstate F) :=
  _ ← verifyPT (us_pagetable u) s;
  pages_clear 4 (align_down 64 userbot (psz 4)) (align_up 64 usertop (psz 4)) s.

(** the destructors: the page table goes back to the frame manager *)
Definition us_destroy (u : uspace) (s : pstate F) : res (pstate F) :=
  _ ← kassert (negb (us_pagetable u =? topaddr));
  _ ← kassert (negb (us_pagetable u =? cr3 s));
  s ← release_frame (us_pagetable u) pagetableps s;
  _ ← kassert (bool_decide (memoryList (us_as u) = []));
  _ ← kassert (bool_decide (markerList (us_as u) = []));
  mret s.

(** the state of both spaces and the kernel space, the addresses that are
    invalidated in the user space and in the kernel space, and the descriptors
    that are released; [next] is [cur] itself when the page tables agree *)
Definition switchTo (c : nat) (locked : bool) (cur next : uspace) (kern : aspace) (s : pstate F)
    : res (uspace * uspace * aspace * pstate F * (list Z * list Z) * list md) :=
  _ ← kassert locked;
  _ ← kassert (negb (us_pagetable cur =? topaddr));
  _ ← verifyPT (us_pagetable cur) s;
  '(cur, next, s, inv, rel) ←
    (if negb (us_pagetable cur =? us_pagetable next) then
       let s := installPagetable (us_pagetable next) s in
       '(a, inv, rel) ← as_leave false c (us_as cur);
       mret (mkUS (us_pagetable cur) a, mkUS (us_pagetable next) (as_enter c (us_as next)), s, inv, rel)
     else
       '(a, inv, rel) ← runInvalidation c (us_as cur);
       mret (mkUS (us_pagetable cur) a, mkUS (us_pagetable next) a, s, inv, rel));
  '(kern, kinv, krel) ← runInvalidation c kern;
  mret (cur, next, kern, s, (inv, kinv), rel ++ krel).
End regions.

(** [KernelAddressSpace::allocContig]: the region comes from the frame manager *)
Definition allocContig (size align limit : Z) (a : aspace) (s : pstate FrameManager.FrameManager)
    : res (Z * aspace * pstate FrameManager.FrameManager) :=
  '(pma, size, fm) ← FrameManager.fmgr_allocRegion size align limit (pframes s);
  let s := mkPst (pmem s) (cr3 s) fm in
  if size <? kernelps then bmap 1 false pt_Kernel 0 size pma a s else bmap 2 false pt_Kernel 0 size pma a s.

(** ** Virtual address ranges *)
(** the pages at the addresses [hs] are in use; those of [unmapSet] wait for
    the range below them *)
Definition page_in (lo hi v : Z) : Prop := v mod 4096 = 0 /\ lo <= v /\ v + 4096 <= hi.

Definition uset_ok (lo hi : Z) (hs : list Z) (l : list (Z * Z)) : Prop :=
  StronglySorted (fun x y => x.1 < y.1) l /\
  forall u, u ∈ l -> page_in lo hi u.1 /\ u.2 = u.1 + 4096 /\ (u.1 ∉ hs).

Record va_ok (a : aspace) (hs : list Z) : Prop := {
  va_bounds : 0 < mapBottom a /\ mapBottom a <= mapStart a /\ mapStart a <= mapTop a /\ mapTop a < 2 ^ 64;
  va_aligned : mapStart a mod 4096 = 0;
  va_nodup : NoDup hs;
  va_pages v : v ∈ hs -> page_in (mapStart a) (mapTop a) v;
  va_uset : uset_ok (mapStart a) (mapTop a) hs (unmapSet a)
}.

Lemma uset_insert_elem u l w : (u.1 ∉ l.*1) -> w ∈ uset_insert u l <-> w = u \/ w ∈ l.
Proof.
  induction l as [|v l IH]; simpl; intros Hu; [by rewrite list_elem_of_singleton, elem_of_nil; naive_solver|].
  apply not_elem_of_cons in Hu as [Hne Hu]. destruct (Z.ltb_spec u.1 v.1); [by rewrite elem_of_cons|].
  destruct (Z.ltb_spec v.1 u.1); [|lia]. rewrite !elem_of_cons, IH by done. tauto.
Qed.

Lemma uset_insert_sorted u l : (u.1 ∉ l.*1) -> StronglySorted (fun x y => x.1 < y.1) l ->
  StronglySorted (fun x y => x.1 < y.1) (uset_insert u l).
Proof.
  induction l as [|v l IH]; simpl; intros Hu Hs; [by repeat constructor|].
  pose proof Hu as [Hne Hu']%not_elem_of_cons. apply StronglySorted_inv in Hs as [Hs Hv].
  destruct (Z.ltb_spec u.1 v.1).
  - constructor; [by constructor|]. constructor; [done|]. eapply Forall_impl; [exact Hv|]. simpl. intros. lia.
  - destruct (Z.ltb_spec v.1 u.1); [|lia]. constructor; [by apply IH|]. apply Forall_forall. intros w Hw.
    apply uset_insert_elem in Hw as [->|Hw]; [done| |done]. rewrite Forall_forall in Hv. by apply Hv.
Qed.

Lemma put_loop_spec hi hs l lo :
  lo mod 4096 = 0 -> lo <= hi -> uset_ok lo hi hs l -> (forall v, v ∈ hs -> page_in lo hi v) ->
  exists l' lo', put_loop l lo = Ok (l', lo') /\ lo <= lo' <= hi /\ lo' mod 4096 = 0 /\
    uset_ok lo' hi hs l' /\ forall v, v ∈ hs -> page_in lo' hi v.
Proof.
  revert lo. induction l as [|u l IH]; intros lo Hm Hh [Hs Hu] Hv; simpl.
  { exists [], lo. split_and!; done || lia. }
  apply StronglySorted_inv in Hs as [Hs Hf]. rewrite Forall_forall in Hf.
  destruct (Hu u ltac:(left)) as ((Hum & Hul & Huh) & Hu2 & Hun).
  destruct (Z.ltb_spec lo u.1) as [Hlt|Hge].
  { exists (u :: l), lo. split; [done|]. split; [lia|]. split; [done|]. split; [|done]. split; [|done].
    constructor; [done|]. by apply Forall_forall. }
  assert (u.1 = lo) as E by lia. rewrite E, Z.eqb_refl. cbn [kassert mbind res_bind].
  destruct (Z.ltb_spec lo u.2); [|lia]. cbn [kassert mbind res_bind].
  destruct (IH u.2) as (l' & lo' & Hp & Hlo & Hm' & Hok & Hv').
  - rewrite Hu2, E. clear - Hm. Z.to_euclidean_division_equations. lia.
  - lia.
  - split; [done|]. intros w Hw. destruct (Hu w ltac:(by right)) as ((H1 & H2 & H3) & H4 & H5). specialize (Hf w Hw). simpl in Hf.
    split; [|done]. split; [done|]. split; [|done]. clear - H1 Hm E Hf Hu2. Z.to_euclidean_division_equations. lia.
  - intros v Hvin. destruct (Hv v Hvin) as (H1 & H2 & H3). split; [done|]. split; [|done].
    assert (v <> lo) by (intros ->; apply Hun; by rewrite E). clear - H1 Hm E H2 Hu2 H0. Z.to_euclidean_division_equations. lia.
  - exists l', lo'. split; [done|]. split; [lia|]. done.
Qed.

Lemma putVmRange_spec m v hs a :
  va_ok a (v :: hs) -> md_vma m = v -> md_size m = 4096 ->
  exists a', putVmRange m a = Ok a' /\ va_ok a' hs /\ unmapEpoch a' = unmapEpoch a /\ memoryList a' = memoryList a /\
    markerList a' = markerList a /\ mapBottom a' = mapBottom a /\ mapTop a' = mapTop a /\ mapStart a <= mapStart a'.
Proof.
  intros [(Hb1 & Hb2 & Hb3 & Hb4) Hal Hnd Hpg [Hus Hue]] Ev Es. unfold putVmRange. rewrite Ev, Es.
  apply NoDup_cons in Hnd as [Hvn Hnd]. destruct (Hpg v ltac:(left)) as (Hvm & Hvl & Hvh).
  rewrite wrap_small by lia.
  assert (v ∉ (unmapSet a).*1) as Hvu.
  { intros (u & -> & Hu)%list_elem_of_fmap. destruct (Hue u Hu) as (_ & _ & Hno). apply Hno. by left. }
  destruct (put_loop_spec (mapTop a) hs (uset_insert (v, v + 4096) (unmapSet a)) (mapStart a)) as (l' & lo' & -> & Hlo & Hm & Hok & Hv');
    [done|done| | |].
  - split; [by apply uset_insert_sorted|]. intros u Hu. apply uset_insert_elem in Hu as [->|Hu]; [done| |done].
    destruct (Hue u Hu) as (H1 & H2 & H3). split; [done|]. split; [done|]. intros Hin. apply H3. by right.
  - intros w Hw. apply Hpg. by right.
  - cbn [mbind res_bind mret res_ret]. eexists. split; [reflexivity|]. split; [|simpl; split_and!; done || lia].
    constructor; simpl; try done; lia.
Qed.

Lemma getVmRange_spec a hs size :
  va_ok a hs -> size mod 4096 = 0 -> 0 <= size <= mapStart a ->
  match getVmRange 1 0 size a with
  | Ok (start, size', a') => size' = size /\ start = mapStart a - size /\ mapBottom a <= start /\
      a' = set_start start a
  | Err e => e = Aborted /\ mapStart a - size < mapBottom a \/ e = AssertFailed /\ mapTop a <= mapBottom a
  end.
Proof.
  intros [(Hb1 & Hb2 & Hb3 & Hb4) Hal _ _ _] Hs Hsz. unfold getVmRange.
  destruct (Z.ltb_spec (mapBottom a) (mapTop a)); cbn [kassert mbind res_bind]; [|right; done].
  destruct (Z.leb_spec (mapBottom a) 0); [lia|]. change (psz 1) with (2 ^ 12). change 4096 with (2 ^ 12) in *.
  assert (align_down 64 (mapStart a) (2 ^ 12) = mapStart a) as Ha.
  { rewrite align_down_eq by (unfold is_word; lia). pose proof (Z.div_mod (mapStart a) (2 ^ 12) ltac:(done)). lia. }
  rewrite !Ha, (wrap_small 64 (mapStart a - size)) by lia.
  assert (align_down 64 (mapStart a - size) (2 ^ 12) = mapStart a - size) as ->.
  { rewrite align_down_eq by (unfold is_word; lia). clear - Hal Hs. Z.to_euclidean_division_equations. lia. }
  destruct (Z.ltb_spec (mapStart a - size) (mapBottom a)); [left; done|].
  rewrite wrap_small by lia. cbn [mret res_ret]. split; [lia|]. split; [done|]. split; [done|].
  destruct (Z.ltb_spec (mapStart a - size) (mapStart a)); [done|].
  assert (mapStart a - size = mapStart a) as -> by lia. by destruct a.
Qed.

(** a size above [mapStart] wraps around: the range that is returned does not
    lie between [mapBottom] and [mapTop], and [mapRegion] maps nothing there *)
Lemma getVmRange_overflow :
  exists start size a', getVmRange 1 0 (2 ^ 47 + 2 ^ 46) (as_setup (2 ^ 22) (2 ^ 47) as_new) = Ok (start, size, a') /\
    start = 2 ^ 64 - 2 ^ 46 /\ (start + size)%w < start.
Proof. eexists _, _, _. split; [vm_compute; reflexivity|]. split; vm_compute; reflexivity. Qed.

(** ** Leaving an address space *)
Lemma va_ok_perm a hs hs' : hs ≡ₚ hs' -> va_ok a hs -> va_ok a hs'.
Proof.
  intros Hp [Hb Hal Hnd Hpg [Hus Hue]]. constructor; try done.
  - by rewrite <- Hp.
  - intros v. rewrite <- Hp. apply Hpg.
  - split; [done|]. intros u Hu. rewrite <- Hp. by apply Hue.
Qed.

Lemma va_ok_lists a l k hs :
  va_ok a hs -> va_ok (mkAS (unmapEpoch a) l k (unmapSet a) (mapBottom a) (mapStart a) (mapTop a)) hs.
Proof. intros [Hb Hal Hnd Hpg Hu]. by constructor. Qed.

Lemma inv_loop_spec k l : (k <= length l)%nat -> inv_loop k l = Ok (md_vma <$> take k l).
Proof.
  revert l. induction k as [|k IH]; intros [|m l] Hk; simpl in *; try done; [lia|]. by rewrite IH by lia.
Qed.

Lemma drop_loop_spec k a hs :
  (k <= length (memoryList a))%nat -> (forall m, m ∈ memoryList a -> md_size m = 4096) ->
  va_ok a ((md_vma <$> take k (memoryList a)) ++ hs) ->
  exists a', drop_loop k a = Ok (take k (memoryList a), a') /\ va_ok a' hs /\ memoryList a' = drop k (memoryList a) /\
    unmapEpoch a' = unmapEpoch a /\ markerList a' = markerList a /\ mapBottom a' = mapBottom a /\ mapTop a' = mapTop a /\
    mapStart a <= mapStart a'.
Proof.
  revert a. induction k as [|k IH]; intros a Hk Hsz Hva; simpl in *.
  { exists a. split_and!; done || lia. }
  destruct (memoryList a) as [|m l] eqn:El; simpl in *; [lia|].
  destruct (putVmRange_spec m (md_vma m) ((md_vma <$> take k l) ++ hs)
    (mkAS (unmapEpoch a) l (markerList a) (unmapSet a) (mapBottom a) (mapStart a) (mapTop a)))
    as (a1 & -> & Hva1 & He1 & Hl1 & Hm1 & Hb1 & Ht1 & Hs1); [by apply va_ok_lists|done|apply Hsz; left|].
  cbn [mbind res_bind]. simpl in *. destruct (IH a1) as (a2 & Hd & Hva2 & Hl2 & He2 & Hm2 & Hb2 & Ht2 & Hs2).
  - rewrite Hl1. lia.
  - rewrite Hl1. intros x Hx. apply Hsz. by right.
  - by rewrite Hl1.
  - rewrite Hd. cbn [mbind res_bind mret res_ret]. exists a2. rewrite Hl1 in *. split_and!; try done; try congruence. lia.
Qed.

(** the markers: distinct, ordered by epoch, and the first one is as old as
    the list of unmapped pages *)
Record markers_ok (a : aspace) : Prop := {
  mk_nodup : NoDup (markerList a).*1;
  mk_sorted : StronglySorted (fun x y => x.2 <= y.2) (markerList a);
  mk_le x : x ∈ markerList a -> x.2 <= unmapEpoch a;
  mk_base : match markerList a with [] => memoryList a = [] | x :: _ => x.2 + lenZ (memoryList a) = unmapEpoch a end
}.

Definition base_epoch (a : aspace) : Z := unmapEpoch a - lenZ (memoryList a).

Lemma mk_ge a x : markers_ok a -> x ∈ markerList a -> base_epoch a <= x.2.
Proof.
  intros [Hn Hs Hl Hb] Hx. unfold base_epoch. destruct (markerList a) as [|y l]; [by apply elem_of_nil in Hx|].
  apply StronglySorted_inv in Hs as [_ Hf]. rewrite Forall_forall in Hf.
  apply elem_of_cons in Hx as [->|Hx]; [lia|]. specialize (Hf x Hx). simpl in Hf. lia.
Qed.

Lemma list_find_marker l c e : NoDup l.*1 -> (c, e) ∈ l -> exists i, list_find (fun x : nat * Z => x.1 = c) l = Some (i, (c, e)).
Proof.
  intros Hn Hin. destruct (list_find_elem_of (fun x : nat * Z => x.1 = c) l (c, e) Hin eq_refl) as [[i [c' e']] Hf].
  exists i. rewrite Hf. apply list_find_Some in Hf as (Hi & Hc & _). simpl in Hc. subst c'.
  apply list_elem_of_lookup in Hin as [j Hj]. assert (i = j) as ->; [|congruence].
  apply (NoDup_lookup l.*1 i j c Hn); by rewrite list_lookup_fmap, ?Hi, ?Hj.
Qed.

Lemma markers_unmapped m a : markers_ok a -> markerList a <> [] -> markers_ok (as_unmapped m a).
Proof.
  intros [Hn Hs Hl Hb] Hne. constructor; simpl; try done.
  - intros x Hx. specialize (Hl x Hx). lia.
  - destruct (markerList a); [done|]. unfold lenZ in *. rewrite length_app. simpl. lia.
Qed.
Lemma markers_enter c a : markers_ok a -> (c ∉ (markerList a).*1) -> markers_ok (as_enter c a).
Proof.
  intros [Hn Hs Hl Hb] Hc. constructor; simpl.
  - rewrite fmap_app. apply NoDup_app. split; [done|]. split; [|apply NoDup_singleton].
    intros x Hx Hx'. apply list_elem_of_singleton in Hx' as ->. done.
  - clear Hn Hc Hb. induction (markerList a) as [|x l IH]; simpl; [by repeat constructor|].
    apply StronglySorted_inv in Hs as [Hs Hf]. constructor; [by apply IH; [|intros y Hy; apply Hl; by right]|].
    apply Forall_app. split; [done|]. repeat constructor. simpl. apply Hl. by left.
  - intros x [Hx|Hx]%elem_of_app; [by apply Hl|]. apply list_elem_of_singleton in Hx as ->. simpl. lia.
  - destruct (markerList a) as [|y l]; simpl; [|done]. rewrite Hb. unfold lenZ. simpl. lia.
Qed.

(** what [leave] does: the descriptors younger than the marker are invalidated
    and those older than every other marker are dropped *)
Lemma as_leave_spec inval c e a hs :
  markers_ok a -> (c, e) ∈ markerList a -> (forall m, m ∈ memoryList a -> md_size m = 4096) ->
  va_ok a ((md_vma <$> memoryList a) ++ hs) ->
  exists a' k, (k <= length (memoryList a))%nat /\
    as_leave inval c a = Ok (a', if inval : bool then md_vma <$> take (Z.to_nat (unmapEpoch a - e)) (rev (memoryList a)) else [],
                             take k (memoryList a)) /\
    memoryList a' = drop k (memoryList a) /\ unmapEpoch a' = unmapEpoch a /\
    markerList a' = filter (fun x => x.1 <> c) (markerList a) /\
    va_ok a' ((md_vma <$> drop k (memoryList a)) ++ hs) /\ markers_ok a' /\
    (forall x, x ∈ markerList a' -> base_epoch a + Z.of_nat k <= x.2) /\
    mapBottom a' = mapBottom a /\ mapTop a' = mapTop a /\ mapStart a <= mapStart a'.
Proof.
  intros Hmk Hin Hsz Hva. pose proof Hmk as [Hn Hs Hl Hb]. unfold as_leave.
  destruct (list_find_marker _ c e Hn Hin) as [i Hfind].
  set (rest := filter (fun x => x.1 <> c) (markerList a)).
  assert (forall x, x ∈ rest <-> x.1 <> c /\ x ∈ markerList a) as Hrest by (intros x; unfold rest; by rewrite list_elem_of_filter).
  assert (NoDup rest.*1) as Hnr.
  { clear - Hn. unfold rest. induction (markerList a) as [|x l IH]; [constructor|]. simpl in Hn. apply NoDup_cons in Hn as [Hx Hn].
    rewrite filter_cons. case_decide; simpl; [|by apply IH]. apply NoDup_cons. split; [|by apply IH].
    intros (y & Hy & Hin)%list_elem_of_fmap. apply list_elem_of_filter in Hin as [_ Hin]. apply Hx. rewrite Hy. by apply list_elem_of_fmap_2. }
  assert (StronglySorted (fun x y => x.2 <= y.2) rest) as Hsr.
  { clear - Hs. unfold rest. induction (markerList a) as [|x l IH]; [constructor|]. apply StronglySorted_inv in Hs as [Hs Hf].
    rewrite filter_cons. case_decide; [|by apply IH]. constructor; [by apply IH|]. rewrite Forall_forall in *.
    intros y [_ Hy]%list_elem_of_filter. by apply Hf. }
  pose proof (mk_ge a (c, e) Hmk Hin) as Hge. simpl in Hge. pose proof (Hl _ Hin) as Hle. simpl in Hle. unfold base_epoch in *.
  assert ((if inval then inv_loop (Z.to_nat (unmapEpoch a - e)) (rev (memoryList a)) else mret []) =
    Ok (if inval then md_vma <$> take (Z.to_nat (unmapEpoch a - e)) (rev (memoryList a)) else [])) as Hinv.
  { destruct inval; [|done]. apply inv_loop_spec. rewrite length_rev. unfold lenZ in *. lia. }
  destruct (markerList a) as [|[c0 e0] mk] eqn:Em; [by apply elem_of_nil in Hin|]. rewrite Hfind, Hinv. cbn [mbind res_bind].
  case_decide as Hc0.
  - subst c0. assert (e0 = e) as ->.
    { apply elem_of_cons in Hin as [[= ->]|Hin]; [done|]. exfalso. simpl in Hn. apply NoDup_cons in Hn as [Hn _]. apply Hn.
      apply list_elem_of_fmap. by exists (c, e). }
    fold rest. set (end_ := match rest with [] => unmapEpoch a | (_, e1) :: _ => e1 end).
    assert (e <= end_ <= unmapEpoch a) as Hend.
    { unfold end_. destruct rest as [|[c1 e1] r] eqn:Er; [lia|]. assert ((c1, e1) ∈ rest) as H1 by (rewrite Er; left).
      rewrite Er in H1. apply Hrest in H1 as [_ H1]. pose proof (Hl _ H1) as H2. simpl in H2. split; [|done].
      pose proof (mk_ge a (c1, e1) Hmk) as H3. rewrite Em in H3. specialize (H3 H1). unfold base_epoch in H3. simpl in H3, Hb. lia. }
    simpl in Hb. set (k := Z.to_nat (end_ - e)).
    assert (k <= length (memoryList a))%nat as Hk by (unfold k, lenZ in *; lia).
    destruct (drop_loop_spec k (mkAS (unmapEpoch a) (memoryList a) rest (unmapSet a) (mapBottom a) (mapStart a) (mapTop a))
      ((md_vma <$> drop k (memoryList a)) ++ hs)) as (a2 & Hd & Hva2 & Hl2 & He2 & Hm2 & Hb2 & Ht2 & Hs2); [done|done| |].
    { apply va_ok_lists. simpl. rewrite app_assoc, <- fmap_app, take_drop. done. }
    rewrite Hd. cbn [mbind res_bind mret res_ret]. simpl in *. exists a2, k. split; [done|]. split; [done|].
    split; [done|]. split; [done|]. split; [done|]. split; [done|]. split; [|split; [|done]].
    + constructor; rewrite ?Hm2, ?He2, ?Hl2; try done.
      * intros x [_ Hx]%Hrest. by apply Hl.
      * unfold k, end_, lenZ in *. destruct rest as [|[c1 e1] r]; [|rewrite length_drop; simpl in *; lia].
        apply nil_length_inv. rewrite length_drop. lia.
    + intros x Hx. rewrite Hm2 in Hx. assert (end_ <= x.2).
      { unfold end_. destruct rest as [|[c1 e1] r]; [by apply elem_of_nil in Hx|]. apply StronglySorted_inv in Hsr as [_ Hf].
        rewrite Forall_forall in Hf. apply elem_of_cons in Hx as [->|Hx]; [done|]. by apply (Hf x Hx). }
      unfold k, lenZ in *. lia.
  - cbn [mret res_ret]. eexists _, 0%nat. split; [lia|]. split; [reflexivity|]. simpl. fold rest.
    split; [done|]. split; [done|]. split; [done|]. split; [by apply va_ok_lists|]. split; [|split; [|split_and!; done || lia]].
    + constructor; simpl; try done.
      * intros x [_ Hx]%Hrest. by apply Hl.
      * unfold rest. rewrite filter_cons_True by done. done.
    + intros x [_ Hx]%Hrest. pose proof (mk_ge a x Hmk) as H1. rewrite Em in H1. specialize (H1 Hx). unfold base_epoch in H1. lia.
Qed.

(** ** Processors with TLBs

    Pages of 4K.  [tmap] are the mapped pages with their frames; [tpend] are
    pages whose entry [Paging::unmap] has exchanged and that [unmapRegion] has
    not entered in the list yet; [ttlb c] are the translations that processor
    [c] may have in its TLB; [tlive] are the frames that are not back in the
    frame manager. *)
Record tworld := mkTW {
  ta : aspace; tmap : list (Z * Z); tpend : list md; ttlb : nat -> list (Z * Z); tlive : list Z }.

Definition page_of (m : md) : Z * Z := (md_vma m, md_pma m).
Definition pages_at (start : Z) (fs : list Z) : list (Z * Z) := imap (fun i f => (start + 4096 * Z.of_nat i, f)) fs.
Definition tlb_upd (c : nat) (l : list (Z * Z)) (t : nat -> list (Z * Z)) : nat -> list (Z * Z) :=
  fun d => if decide (d = c) then l else t d.
Definition drop_frames (rel : list md) (live : list Z) : list Z := filter (fun p => p ∉ (md_pma <$> rel)) live.

Inductive tstep : tworld -> tworld -> Prop :=
  | t_map a tm pd tl lv fs start sz a' :
      NoDup fs -> (forall f, f ∈ fs -> f ∉ lv) -> 4096 * lenZ fs <= mapStart a ->
      getVmRange 1 0 (4096 * lenZ fs) a = Ok (start, sz, a') ->
      tstep (mkTW a tm pd tl lv) (mkTW a' (pages_at start fs ++ tm) pd tl (fs ++ lv))
  | t_fill a tm pd tl lv c x :
      c ∈ (markerList a).*1 -> x ∈ tm -> tstep (mkTW a tm pd tl lv) (mkTW a tm pd (tlb_upd c (x :: tl c) tl) lv)
  | t_exchange a tm pd tl lv c v p tm' :
      c ∈ (markerList a).*1 -> tm ≡ₚ (v, p) :: tm' ->
      tstep (mkTW a tm pd tl lv) (mkTW a tm' (mkMD v p 4096 true :: pd) tl lv)
  | t_unmapped a tm pd tl lv c m pd' :
      c ∈ (markerList a).*1 -> pd ≡ₚ m :: pd' -> tstep (mkTW a tm pd tl lv) (mkTW (as_unmapped m a) tm pd' tl lv)
  | t_enter a tm pd tl lv c :
      c ∉ (markerList a).*1 -> tstep (mkTW a tm pd tl lv) (mkTW (as_enter c a) tm pd tl lv)
  | t_refresh a tm pd tl lv c a' inv rel :
      runInvalidation c a = Ok (a', inv, rel) ->
      tstep (mkTW a tm pd tl lv) (mkTW a' tm pd (tlb_upd c (filter (fun x => x.1 ∉ inv) (tl c)) tl) (drop_frames rel lv))
  | t_leave a tm pd tl lv c a' inv rel :     (* [mov cr3] has flushed the TLB *)
      as_leave false c a = Ok (a', inv, rel) ->
      tstep (mkTW a tm pd tl lv) (mkTW a' tm pd (tlb_upd c [] tl) (drop_frames rel lv)).

Definition held (w : tworld) : list (Z * Z) := (page_of <$> memoryList (ta w)) ++ tmap w ++ (page_of <$> tpend w).

Record tinv (w : tworld) : Prop := {
  ti_mk : markers_ok (ta w);
  ti_va : va_ok (ta w) (held w).*1;
  ti_md m : m ∈ memoryList (ta w) \/ m ∈ tpend w -> md_size m = 4096;
  ti_frames : NoDup (held w).*2;
  ti_live x : x ∈ held w -> x.2 ∈ tlive w;
  ti_tlb c x : x ∈ ttlb w c -> exists e, (c, e) ∈ markerList (ta w) /\
    (x ∈ tmap w \/ x ∈ page_of <$> tpend w \/
     exists i m, memoryList (ta w) !! i = Some m /\ page_of m = x /\ e <= base_epoch (ta w) + Z.of_nat i)
}.

Lemma held_vma w : (held w).*1 = (md_vma <$> memoryList (ta w)) ++ (tmap w).*1 ++ (md_vma <$> tpend w).
Proof. unfold held. rewrite !fmap_app. by rewrite <- !list_fmap_compose. Qed.
Lemma held_pma w : (held w).*2 = (md_pma <$> memoryList (ta w)) ++ (tmap w).*2 ++ (md_pma <$> tpend w).
Proof. unfold held. rewrite !fmap_app. by rewrite <- !list_fmap_compose. Qed.

(** a step that rearranges the pages *)
Lemma tinv_perm w a tm pd tl :
  tinv w -> unmapSet a = unmapSet (ta w) -> mapBottom a = mapBottom (ta w) -> mapStart a = mapStart (ta w) -> mapTop a = mapTop (ta w) ->
  (page_of <$> memoryList a) ++ tm ++ (page_of <$> pd) ≡ₚ held w -> markers_ok a ->
  (forall m, m ∈ memoryList a \/ m ∈ pd -> md_size m = 4096) ->
  (forall c x, x ∈ tl c -> exists e, (c, e) ∈ markerList a /\
    (x ∈ tm \/ x ∈ page_of <$> pd \/
     exists i m, memoryList a !! i = Some m /\ page_of m = x /\ e <= base_epoch a + Z.of_nat i)) ->
  tinv (mkTW a tm pd tl (tlive w)).
Proof.
  intros [Hmk Hva Hmd Hfr Hlv Htl] Eu Eb Es Et Hp Hmk' Hmd' Htl'. constructor; try done.
  - unfold held at 1. simpl. apply (va_ok_perm _ (held w).*1); [by rewrite <- Hp|].
    destruct Hva as [Hb Hal Hnd Hpg Hu]. constructor; rewrite ?Eu, ?Eb, ?Es, ?Et; done.
  - unfold held at 1. simpl. by rewrite Hp.
  - unfold held at 1. simpl. intros x. rewrite Hp. apply Hlv.
Qed.

Lemma pages_at_fst start fs v : v ∈ (pages_at start fs).*1 -> exists i, (i < length fs)%nat /\ v = start + 4096 * Z.of_nat i.
Proof.
  intros (x & -> & Hx)%list_elem_of_fmap. apply elem_of_lookup_imap in Hx as (i & f & -> & Hi).
  exists i. split; [by eapply lookup_lt_Some|done].
Qed.
Lemma pages_at_nodup start fs : NoDup (pages_at start fs).*1.
Proof.
  apply NoDup_alt. intros i j v Hi Hj. rewrite list_lookup_fmap in Hi, Hj. unfold pages_at in *.
  rewrite list_lookup_imap in Hi, Hj. destruct (fs !! i) eqn:Ei, (fs !! j) eqn:Ej; simpl in *; try done.
  injection Hi as <-. injection Hj as E. lia.
Qed.
Lemma pages_at_snd start fs : (pages_at start fs).*2 = fs.
Proof.
  apply list_eq. intros i. rewrite list_lookup_fmap. unfold pages_at. rewrite list_lookup_imap.
  by destruct (fs !! i).
Qed.

Lemma tinv_map a tm pd tl lv fs start sz a' :
  tinv (mkTW a tm pd tl lv) -> NoDup fs -> (forall f, f ∈ fs -> f ∉ lv) -> 4096 * lenZ fs <= mapStart a ->
  getVmRange 1 0 (4096 * lenZ fs) a = Ok (start, sz, a') ->
  tinv (mkTW a' (pages_at start fs ++ tm) pd tl (fs ++ lv)).
Proof.
  intros [Hmk Hva Hmd Hfr Hlv Htl] Hnd Hnl Hsz Hg. simpl in *.
  pose proof (getVmRange_spec a _ (4096 * lenZ fs) Hva) as Hspec. rewrite Hg in Hspec.
  pose proof (lenZ_nonneg fs) as Hlen.
  destruct Hspec as (-> & -> & Hlo & ->); [rewrite Z.mul_comm; by apply Z.mod_mul|lia|].
  set (start := mapStart a - 4096 * lenZ fs) in *.
  assert (mapStart a = start + 4096 * lenZ fs) as Hst by (unfold start; lia).
  destruct Hva as [(Hb1 & Hb2 & Hb3 & Hb4) Hal Hn Hpg [Hus Hue]]. simpl in *.
  constructor; simpl.
  - destruct Hmk. by constructor.
  - rewrite held_vma in *. simpl in *. rewrite fmap_app.
    apply (va_ok_perm _ ((pages_at start fs).*1 ++ (md_vma <$> memoryList a) ++ tm.*1 ++ (md_vma <$> pd))).
    { by rewrite !app_assoc, (Permutation_app_comm (pages_at start fs).*1). }
    constructor; simpl.
    + lia.
    + rewrite Hst in Hal. clear - Hal. Z.to_euclidean_division_equations. lia.
    + apply NoDup_app. split; [apply pages_at_nodup|]. split; [|done].
      intros v (i & Hi & ->)%pages_at_fst Hv. apply Hpg in Hv as (_ & Hv & _). unfold lenZ in *. lia.
    + intros v. rewrite elem_of_app. intros [(i & Hi & ->)%pages_at_fst|Hv].
      * unfold page_in, lenZ in *. rewrite Hst in Hal. split; [|lia]. clear - Hal. Z.to_euclidean_division_equations. lia.
      * destruct (Hpg v Hv) as (? & ? & ?). unfold page_in. split_and!; done || lia.
    + split; [done|]. intros u Hu. destruct (Hue u Hu) as ((H1 & H2 & H3) & H4 & H5). split; [unfold page_in; split_and!; done || lia|].
      split; [done|]. rewrite elem_of_app. intros [(i & Hi & E)%pages_at_fst|?]; [|done]. unfold lenZ in *. lia.
  - done.
  - rewrite held_pma in *. simpl in *. rewrite fmap_app, pages_at_snd.
    rewrite !app_assoc, (Permutation_app_comm _ fs), <- !app_assoc.
    apply NoDup_app. split; [done|]. split; [|done]. intros f Hf Hin. apply (Hnl f Hf).
    assert (f ∈ (held (mkTW a tm pd tl lv)).*2) as (x & -> & Hx)%list_elem_of_fmap by (rewrite held_pma; done). by apply Hlv.
  - intros x Hx. unfold held in *. simpl in *. rewrite !elem_of_app in *.
    destruct Hx as [Hx|[[Hx|Hx]|Hx]]; try (right; apply Hlv; rewrite !elem_of_app; tauto).
    left. rewrite <- (pages_at_snd start fs). by apply list_elem_of_fmap_2.
  - intros c x Hx. destruct (Htl c x Hx) as (e & He & Hor). exists e. split; [done|]. rewrite elem_of_app. simpl in *. tauto.
Qed.

(** leaving, for both kinds of steps: [tl'] is what the TLB of [c] keeps *)
Lemma tinv_leave a tm pd tl lv inval c a' inv rel tl' :
  tinv (mkTW a tm pd tl lv) -> as_leave inval c a = Ok (a', inv, rel) ->
  (forall x, x ∈ tl' -> inval = true /\ x ∈ tl c /\ x.1 ∉ inv) ->
  (forall d x, x ∈ tlb_upd c tl' tl d -> d <> c -> exists e, (d, e) ∈ markerList a' /\
     (x ∈ tm \/ x ∈ page_of <$> pd \/
      exists i m, memoryList a' !! i = Some m /\ page_of m = x /\ e <= base_epoch a' + Z.of_nat i)) /\
  (forall x, x ∈ tl' -> x ∈ tm \/ x ∈ page_of <$> pd) /\
  tinv (mkTW a' tm pd (fun _ => []) (drop_frames rel lv)) /\ (c ∉ (markerList a').*1) /\
  (c ∈ (markerList a).*1).
Proof.
  intros [Hmk Hva Hmd Hfr Hlv Htl] Hl Htl'. simpl in *.
  assert (c ∈ (markerList a).*1) as Hc.
  { unfold as_leave in Hl. destruct (markerList a) as [|[c0 e0] l] eqn:E; [done|].
    destruct (list_find _ _) as [[i [c1 e1]]|] eqn:Ef; [|done]. apply list_find_Some in Ef as (Hi & Hc1 & _). simpl in Hc1. subst c1.
    apply list_elem_of_fmap. exists (c, e1). split; [done|]. by eapply list_elem_of_lookup_2. }
  pose proof Hc as Hc'. apply list_elem_of_fmap in Hc' as ((c0 & e) & E & Hin). simpl in E. subst c0.
  rewrite held_vma in Hva. simpl in Hva.
  destruct (as_leave_spec inval c e a _ Hmk Hin (fun m Hm => Hmd m (or_introl Hm)) Hva)
    as (a1 & k & Hk & Hl' & Hml & He & Hmkl & Hva' & Hmk' & Hge & Hb & Ht & Hst).
  rewrite Hl' in Hl. injection Hl as <- <- <-.
  assert (base_epoch a1 = base_epoch a + Z.of_nat k) as Hbase.
  { unfold base_epoch, lenZ. rewrite He, Hml, length_drop. lia. }
  split; [|split; [|split; [|split; [|done]]]].
  - intros d x Hx Hd. unfold tlb_upd in Hx. rewrite decide_False in Hx by done.
    destruct (Htl d x Hx) as (e' & He' & Hor). exists e'.
    assert ((d, e') ∈ markerList a1) as Hin' by (rewrite Hmkl; by apply list_elem_of_filter).
    split; [done|]. destruct Hor as [?|[?|(i & m & Hi & Hm & Hle)]]; [tauto|tauto|]. right. right.
    specialize (Hge _ Hin'). simpl in Hge. exists (i - k)%nat, m. rewrite Hml, lookup_drop, Hbase.
    replace (k + (i - k))%nat with i by lia. split_and!; done || lia.
  - intros x Hx. destruct (Htl' x Hx) as (-> & Hxc & Hni). destruct (Htl c x Hxc) as (e' & He' & Hor).
    assert (e' = e) as -> by (destruct (list_find_marker _ c e' (mk_nodup _ Hmk) He') as [? H1];
      destruct (list_find_marker _ c e (mk_nodup _ Hmk) Hin) as [? H2]; congruence).
    destruct Hor as [?|[?|(i & m & Hi & Hm & Hle)]]; [tauto|tauto|]. exfalso. apply Hni.
    rewrite <- Hm. simpl. apply list_elem_of_fmap_2.
    pose proof (lookup_lt_Some _ _ _ Hi) as Hlt. unfold base_epoch, lenZ in Hle.
    apply list_elem_of_lookup. exists (length (memoryList a) - S i)%nat.
    rewrite lookup_take_lt by lia. rewrite rev_alt. fold (reverse (memoryList a)). rewrite reverse_lookup by lia. rewrite <- Hi. f_equal. lia.
  - constructor; simpl; try done.
    + rewrite held_vma. simpl. by rewrite Hml.
    + intros m [Hm|Hm]; [|by auto]. rewrite Hml in Hm. apply Hmd. left. rewrite <- (take_drop k). apply elem_of_app. by right.
    + rewrite held_pma in *. simpl in *. rewrite Hml. rewrite <- (take_drop k (memoryList a)), fmap_app, <- app_assoc in Hfr.
      apply NoDup_app in Hfr as (_ & _ & Hfr). done.
    + intros x Hx. unfold drop_frames. apply list_elem_of_filter.
      rewrite held_pma in Hfr. simpl in Hfr. rewrite <- (take_drop k (memoryList a)), fmap_app, <- app_assoc in Hfr.
      apply NoDup_app in Hfr as (_ & Hdis & _). unfold held in Hx. simpl in Hx. rewrite Hml in Hx. split.
      * intros Hrel. apply (Hdis _ Hrel). rewrite !elem_of_app in *.
        destruct Hx as [Hx|[Hx|Hx]].
        -- left. apply list_elem_of_fmap in Hx as (m & -> & Hm). by apply (list_elem_of_fmap_2 md_pma).
        -- right. left. by apply list_elem_of_fmap_2.
        -- right. right. apply list_elem_of_fmap in Hx as (m & -> & Hm). by apply (list_elem_of_fmap_2 md_pma).
      * apply Hlv. unfold held. simpl. rewrite !elem_of_app in *. destruct Hx as [Hx|Hx]; [left|by right].
        apply list_elem_of_fmap in Hx as (m & -> & Hm). apply list_elem_of_fmap_2. rewrite <- (take_drop k). apply elem_of_app. by right.
    + intros ? x Hx. by apply elem_of_nil in Hx.
  - rewrite Hmkl. intros (x & -> & [? _]%list_elem_of_filter)%list_elem_of_fmap. done.
Qed.

Lemma tinv_step w w' : tinv w -> tstep w w' -> tinv w'.
Proof.
  intros Hi Hs. destruct Hs as [a tm pd tl lv fs start sz a' Hnd Hnl Hsz Hg|a tm pd tl lv c x Hc Hx|a tm pd tl lv c v p tm' Hc Hp
    |a tm pd tl lv c m pd' Hc Hp|a tm pd tl lv c Hc|a tm pd tl lv c a' inv rel Hr|a tm pd tl lv c a' inv rel Hl].
  - by eapply tinv_map.
  - pose proof Hi as [Hmk _ Hmd _ _ Htl]. apply (tinv_perm (mkTW a tm pd tl lv)); try done. simpl in *.
    intros d y. unfold tlb_upd. case_decide as Hd; [|by apply Htl]. subst d. rewrite elem_of_cons. intros [->|Hy]; [|by apply Htl].
    apply list_elem_of_fmap in Hc as ((c' & e) & -> & He). exists e. split; [done|]. by left.
  - pose proof Hi as [Hmk _ Hmd _ _ Htl]. apply (tinv_perm (mkTW a tm pd tl lv)); try done; simpl in *.
    + unfold held. simpl. rewrite Hp. apply Permutation_app_head. simpl. unfold page_of at 1. simpl. by rewrite <- Permutation_middle.
    + intros m [Hm|Hm]; [by auto|]. apply elem_of_cons in Hm as [->|Hm]; [done|by auto].
    + intros d y Hy. destruct (Htl d y Hy) as (e & He & Hor). exists e. split; [done|]. rewrite Hp, elem_of_cons in Hor.
      rewrite elem_of_cons. change (page_of (mkMD v p 4096 true)) with (v, p). tauto.
  - pose proof Hi as [Hmk _ Hmd _ _ Htl]. apply (tinv_perm (mkTW a tm pd tl lv)); try done; simpl in *.
    + unfold held. simpl. rewrite Hp, !fmap_app. simpl. rewrite <- !app_assoc. simpl. by rewrite <- !Permutation_middle.
    + apply markers_unmapped; [done|]. intros E. rewrite E in Hc. by apply elem_of_nil in Hc.
    + intros m' [Hm|Hm]; [|apply Hmd; right; rewrite Hp; by right]. apply elem_of_app in Hm as [Hm|Hm]; [by auto|].
      apply list_elem_of_singleton in Hm as ->. apply Hmd. right. rewrite Hp. by left.
    + intros d y Hy. destruct (Htl d y Hy) as (e & He & Hor). exists e. split; [done|].
      assert (base_epoch (as_unmapped m a) = base_epoch a) as ->.
      { unfold base_epoch, lenZ, as_unmapped. simpl. rewrite length_app. simpl. lia. }
      destruct Hor as [?|[Hy'|(i & m' & Hi' & Hm' & Hle)]]; [tauto| |].
      * rewrite Hp in Hy'. apply elem_of_cons in Hy' as [->|Hy']; [|tauto]. right. right.
        exists (length (memoryList a)), m. split; [by rewrite lookup_app_r, Nat.sub_diag by lia|]. split; [done|].
        pose proof (mk_le _ Hmk _ He) as Hle. simpl in Hle. unfold base_epoch, lenZ in *. lia.
      * right. right. exists i, m'. split; [|done]. by apply lookup_app_l_Some.
  - pose proof Hi as [Hmk _ Hmd _ _ Htl]. apply (tinv_perm (mkTW a tm pd tl lv)); try done; simpl in *.
    + by apply markers_enter.
    + intros d y Hy. destruct (Htl d y Hy) as (e & He & Hor). exists e. split; [|done]. apply elem_of_app. by left.
  - unfold runInvalidation in Hr. destruct (as_leave true c a) as [[[a1 inv1] rel1]|] eqn:El; [|done].
    cbn [mbind res_bind mret res_ret] in Hr. injection Hr as <- <- <-.
    destruct (tinv_leave a tm pd tl lv true c a1 inv1 rel1 (filter (fun x => x.1 ∉ inv1) (tl c)) Hi El) as (Htl & Hc & Hi1 & Hnc & Hin).
    { intros x [? ?]%list_elem_of_filter. done. }
    pose proof Hi1 as [Hmk1 _ Hmd1 _ _ _]. apply (tinv_perm (mkTW a1 tm pd (fun _ => []) (drop_frames rel1 lv))); try done; simpl in *.
    + by apply markers_enter.
    + intros d y Hy. destruct (decide (d = c)) as [->|Hd].
      * unfold tlb_upd in Hy. rewrite decide_True in Hy by done. exists (unmapEpoch a1).
        split; [apply elem_of_app; right; by left|]. destruct (Hc y Hy); tauto.
      * destruct (Htl d y Hy Hd) as (e & He & Hor). exists e. split; [|done]. apply elem_of_app. by left.
  - destruct (tinv_leave a tm pd tl lv false c a' inv rel [] Hi Hl) as (Htl & Hc & Hi1 & Hnc & Hin).
    { intros x Hx. by apply elem_of_nil in Hx. }
    pose proof Hi1 as [Hmk1 _ Hmd1 _ _ _]. apply (tinv_perm (mkTW a' tm pd (fun _ => []) (drop_frames rel lv))); try done; simpl in *.
    intros d y Hy. destruct (decide (d = c)) as [->|Hd]; [|by apply Htl].
    unfold tlb_upd in Hy. rewrite decide_True in Hy by done. by apply elem_of_nil in Hy.
Qed.

Lemma nodup_fst_inj {A B} (l : list (A * B)) a b b' : NoDup l.*1 -> (a, b) ∈ l -> (a, b') ∈ l -> b = b'.
Proof.
  intros Hn [i Hi]%list_elem_of_lookup [j Hj]%list_elem_of_lookup.
  assert (i = j) as ->; [|congruence]. apply (NoDup_lookup l.*1 i j a Hn); by rewrite list_lookup_fmap, ?Hi, ?Hj.
Qed.
Lemma nodup_snd_inj {A B} (l : list (A * B)) a a' b : NoDup l.*2 -> (a, b) ∈ l -> (a', b) ∈ l -> a = a'.
Proof.
  intros Hn [i Hi]%list_elem_of_lookup [j Hj]%list_elem_of_lookup.
  assert (i = j) as ->; [|congruence]. apply (NoDup_lookup l.*2 i j b Hn); by rewrite list_lookup_fmap, ?Hi, ?Hj.
Qed.

Definition tworld0 (bot top : Z) : tworld := mkTW (as_setup bot top as_new) [] [] (fun _ => []) [].

Lemma tinv_reach bot top w :
  0 < bot /\ bot <= top /\ top < 2 ^ 64 -> top mod 4096 = 0 -> rtc tstep (tworld0 bot top) w -> tinv w.
Proof.
  intros Hb Hm Hr. enough (tinv (tworld0 bot top)) as H0.
  { revert H0. induction Hr as [|x y z Hs _ IH]; intros H0; [done|]. apply IH. by eapply tinv_step. }
  constructor; simpl.
  - constructor; simpl; [constructor|constructor| |done]. by intros x ?%elem_of_nil.
  - constructor; simpl; [lia|done|constructor| |split; [constructor|]]; by intros v ?%elem_of_nil.
  - by intros m [?%elem_of_nil|?%elem_of_nil].
  - constructor.
  - by intros x ?%elem_of_nil.
  - by intros c x ?%elem_of_nil.
Qed.

(** the markers after a refresh *)
Lemma refresh_spec c a hs :
  markers_ok a -> c ∈ (markerList a).*1 -> (forall m, m ∈ memoryList a -> md_size m = 4096) ->
  va_ok a ((md_vma <$> memoryList a) ++ hs) ->
  exists a' inv k, runInvalidation c a = Ok (a', inv, take k (memoryList a)) /\ memoryList a' = drop k (memoryList a) /\
    unmapEpoch a' = unmapEpoch a /\ markerList a' = filter (fun x => x.1 <> c) (markerList a) ++ [(c, unmapEpoch a)] /\
    va_ok a' ((md_vma <$> memoryList a') ++ hs) /\ markers_ok a'.
Proof.
  intros Hmk ((c' & e) & E & Hin)%list_elem_of_fmap Hsz Hva. simpl in E. subst c'.
  destruct (as_leave_spec true c e a hs Hmk Hin Hsz Hva) as (a1 & k & _ & Hl & Hml & He & Hmkl & Hva1 & Hmk1 & _).
  unfold runInvalidation. rewrite Hl. cbn [mbind res_bind mret res_ret]. eexists _, _, k. split; [reflexivity|]. simpl.
  split; [done|]. split; [done|]. split; [by rewrite Hmkl, He|]. split.
  - rewrite Hml. destruct Hva1 as [Hb Hal Hn Hp Hu]. by constructor.
  - apply markers_enter; [done|]. rewrite Hmkl. intros (x & -> & [? _]%list_elem_of_filter)%list_elem_of_fmap. done.
Qed.

(** [runInvalidation] on the processors [cs] in turn: the released pages *)
Fixpoint refresh_all (cs : list nat) (a : aspace) : res (aspace * list md) :=
  match cs with
  | [] => mret (a, [])
  | c :: cs => '(a, _, rel) ← runInvalidation c a; '(a, rel') ← refresh_all cs a; mret (a, rel ++ rel')
  end.

Lemma refresh_all_spec cs dn a hs :
  markers_ok a -> (forall c, c ∈ cs -> c ∈ (markerList a).*1) -> (forall m, m ∈ memoryList a -> md_size m = 4096) ->
  va_ok a ((md_vma <$> memoryList a) ++ hs) ->
  (forall x, x ∈ markerList a -> x.1 ∈ dn -> x.2 = unmapEpoch a) ->
  exists a' rel, refresh_all cs a = Ok (a', rel) /\ rel ++ memoryList a' = memoryList a /\ markers_ok a' /\ unmapEpoch a' = unmapEpoch a /\
    va_ok a' ((md_vma <$> memoryList a') ++ hs) /\ (forall c, c ∈ (markerList a').*1 <-> c ∈ (markerList a).*1) /\
    (forall x, x ∈ markerList a' -> x.1 ∈ dn ++ cs -> x.2 = unmapEpoch a').
Proof.
  revert dn a. induction cs as [|c cs IH]; intros dn a Hmk Hin Hsz Hva Hdn; simpl.
  { exists a, []. rewrite app_nil_r. split_and!; done. }
  destruct (refresh_spec c a hs Hmk (Hin c ltac:(left)) Hsz Hva) as (a1 & inv & k & -> & Hml & He & Hmkl & Hva1 & Hmk1).
  cbn [mbind res_bind].
  assert (forall d, d ∈ (markerList a1).*1 <-> d ∈ (markerList a).*1) as Hmem.
  { intros d. rewrite Hmkl, fmap_app, elem_of_app. simpl. rewrite list_elem_of_singleton. split.
    - intros [(x & -> & [_ Hx]%list_elem_of_filter)%list_elem_of_fmap| ->]; [by apply list_elem_of_fmap_2|apply Hin; left].
    - intros (x & -> & Hx)%list_elem_of_fmap. destruct (decide (x.1 = c)); [by right|]. left. apply list_elem_of_fmap_2.
      by apply list_elem_of_filter. }
  destruct (IH (c :: dn) a1 Hmk1) as (a2 & rel & -> & Hrel & Hmk2 & He2 & Hva2 & Hmem2 & Hdn2).
  - intros d Hd. apply Hmem, Hin. by right.
  - intros m Hm. apply Hsz. rewrite Hml in Hm. rewrite <- (take_drop k). apply elem_of_app. by right.
  - done.
  - intros x Hx. rewrite He. rewrite Hmkl in Hx. apply elem_of_app in Hx as [[Hxc Hx]%list_elem_of_filter|Hx].
    + intros [?|?]%elem_of_cons; [done|by apply Hdn].
    + apply list_elem_of_singleton in Hx as ->. done.
  - cbn [mbind res_bind mret res_ret]. eexists _, _. split; [reflexivity|].
    split; [by rewrite <- app_assoc, Hrel, Hml, take_drop|]. split; [done|]. split; [by rewrite He2|]. split; [done|].
    split; [intros d; by rewrite Hmem2, Hmem|].
    intros x Hx Hc. apply Hdn2; [done|]. rewrite elem_of_app in *. rewrite !elem_of_cons in *. tauto.
Qed.



(** a run of two processors: processor 1 keeps a translation that processor 0
    has unmapped and posted *)
Lemma tlb_demo : exists w, rtc tstep (tworld0 (2 ^ 22) (2 ^ 30)) w /\ ttlb w 1%nat = [(2 ^ 30 - 4096, 7)] /\ tmap w = [] /\
  memoryList (ta w) = [mkMD (2 ^ 30 - 4096) 7 4096 true] /\ markerList (ta w) = [(1%nat, 0); (0%nat, 1)].
Proof.
  eexists. split.
  { eapply rtc_l; [apply (t_enter _ _ _ _ _ 0%nat); by intros ?%elem_of_nil|].
    eapply rtc_l; [apply (t_enter _ _ _ _ _ 1%nat); by intros ?%list_elem_of_singleton|].
    eapply rtc_l; [eapply (t_map _ _ _ _ _ [7])|].
    { apply NoDup_singleton. } { by intros f _ ?%elem_of_nil. } { vm_compute. discriminate. } { vm_compute. reflexivity. }
    eapply rtc_l; [apply (t_fill _ _ _ _ _ 1%nat (2 ^ 30 - 4096, 7)); [right; left|left]|].
    eapply rtc_l; [eapply (t_exchange _ _ _ _ _ 0%nat (2 ^ 30 - 4096) 7 []); [left|reflexivity]|].
    eapply rtc_l; [eapply (t_unmapped _ _ _ _ _ 0%nat); [left|reflexivity]|].
    eapply rtc_l; [eapply (t_refresh _ _ _ _ _ 0%nat); vm_compute; reflexivity|].
    apply rtc_refl. }
  vm_compute. auto.
Qed.


