(* ===== verification/Ports.v ===== *)
(** * I/O ports: machine/CPU.h

    The processor's I/O instructions as an interface to the devices, whose
    code is not part of the system: a state [D] of the devices and what an
    access of each width does to it.  Device drivers are functions in the
    monad [io], which threads that state and the failures. *)
From Stdlib Require Import ZArith Lia Bool.
From stdpp Require Import base tactics option numbers list.
From S2P Require Import Prelude Bitmanip.

Class PortIO (D : Type) := {
  port_in : Z -> Z -> D -> Z * D;          (* width in bits, port *)
  port_out : Z -> Z -> Z -> D -> D         (* width in bits, port, value *)
}.

Definition io (D A : Type) : Type := D -> res (A * D).

#[export] Instance io_ret {D} : MRet (io D) := fun A a d => Ok (a, d).
#[export] Instance io_bind {D} : MBind (io D) := fun A B k m d =>
  match m d with Ok (a, d) => k a d | Err f => Err f end.

Definition io_lift {D A} (r : res A) : io D A := fun d => a ← r; Ok (a, d).
Definition io_fail {D A} (f : fault) : io D A := fun _ => Err f.

Section ports.
Context {D : Type} `{PortIO D}.

Definition out8 (port val : Z) : io D unit := fun d => Ok (tt, port_out 8 port (wrap 8 val) d).
Definition in8 (port : Z) : io D Z := fun d => let '(v, d) := port_in 8 port d in Ok (wrap 8 v, d).
Definition out16 (port val : Z) : io D unit := fun d => Ok (tt, port_out 16 port (wrap 16 val) d).
Definition in16 (port : Z) : io D Z := fun d => let '(v, d) := port_in 16 port d in Ok (wrap 16 v, d).
Definition out32 (port val : Z) : io D unit := fun d => Ok (tt, port_out 32 port (wrap 32 val) d).
Definition in32 (port : Z) : io D Z := fun d => let '(v, d) := port_in 32 port d in Ok (wrap 32 v, d).

(** [while (test);] *)
Fixpoint busy_wait (fuel : nat) (test : io D bool) : io D unit :=
  match fuel with
  | O => io_fail OutOfFuel
  | S fuel => b ← test; if (b : bool) then busy_wait fuel test else mret tt
  end.

(** [while (test) body] *)
Fixpoint io_while (fuel : nat) (test : io D bool) (body : io D unit) : io D unit :=
  match fuel with
  | O => io_fail OutOfFuel
  | S fuel => b ← test; if (b : bool) then body;; io_while fuel test body else mret tt
  end.
End ports.

Lemma io_bind_Ok {D A B} (m : io D A) (k : A -> io D B) d b d' :
  mbind k m d = Ok (b, d') <-> exists a d1, m d = Ok (a, d1) /\ k a d1 = Ok (b, d').
Proof.
  unfold mbind, io_bind. destruct (m d) as [[a d1]|f]; [|naive_solver].
  split; [eauto|]. intros (a' & d1' & [= <- <-] & ?). done.
Qed.

Lemma io_bind_run {D A B} (m : io D A) (k : A -> io D B) d a d1 :
  m d = Ok (a, d1) -> mbind k m d = k a d1.
Proof. intros E. unfold mbind, io_bind. by rewrite E. Qed.

(** a wait that ends at once *)
Lemma busy_wait_done {D} fuel (test : io D bool) d d1 :
  test d = Ok (false, d1) -> busy_wait (S fuel) test d = Ok (tt, d1).
Proof. intros E. simpl. by rewrite (io_bind_run _ _ _ _ _ E). Qed.

(** [state-preserving run] of a while loop over the elements of a list: each
    iteration consumes one *)
Lemma io_while_list {D A} (test : io D bool) (body : io D unit) (rel : list A -> D -> Prop) l d fuel :
  (forall d, rel [] d -> exists d', test d = Ok (false, d') /\ rel [] d') ->
  (forall x l d, rel (x :: l) d -> exists d1 d2, test d = Ok (true, d1) /\ body d1 = Ok (tt, d2) /\ rel l d2) ->
  rel l d -> (length l < fuel)%nat -> exists d', io_while fuel test body d = Ok (tt, d') /\ rel [] d'.
Proof.
  intros Hn Hc. revert d fuel. induction l as [|x l IH]; intros d [|fuel] Hr Hf; simpl in *; try lia.
  - destruct (Hn d Hr) as (d' & E & Hr'). exists d'. by rewrite (io_bind_run _ _ _ _ _ E).
  - destruct (Hc x l d Hr) as (d1 & d2 & E & Eb & Hr2). rewrite (io_bind_run _ _ _ _ _ E), (io_bind_run _ _ _ _ _ Eb).
    apply IH; [done|lia].
Qed.
