(* ===== verification/Apic.v ===== *)
(** * Interrupt controllers: machine/APIC.h, machine/APIC.cc

    The legacy PIC, the memory-mapped local APIC and the IOAPIC.  What a
    register access does is a parameter ([MMIO], [PortIO]); the IOAPIC's
    register file behind its two-register window is stated as [IoApicChip]. *)
From Stdlib Require Import ZArith Lia Bool.
From stdpp Require Import base tactics option numbers list.
From S2P Require Import Prelude Bitmanip Ports.

(** 32-bit accesses at an offset of the device's page *)
Class MMIO (D : Type) := {
  mm_in : Z -> D -> Z * D;
  mm_out : Z -> Z -> D -> D
}.

Section mmio.
Context {D : Type} `{MMIO D}.
Definition mm_read (off : Z) : io D Z := fun d => let '(v, d) := mm_in off d in Ok (wrap 32 v, d).
Definition mm_write (off v : Z) : io D unit := fun d => Ok (tt, mm_out off (wrap 32 v) d).
End mmio.

(** ** PIC *)
Definition PIC_PIT : Z := 0.
Definition PIC_Keyboard : Z := 1.
Definition PIC_Cascade : Z := 2.
Definition PIC_Serial1 : Z := 3.
Definition PIC_Serial0 : Z := 4.
Definition PIC_Parallel2 : Z := 5.
Definition PIC_Floppy : Z := 6.
Definition PIC_Parallel1 : Z := 7.
Definition PIC_RTC : Z := 8.
Definition PIC_SCI : Z := 9.
Definition PIC_Mouse : Z := 12.
Definition PIC_FPU : Z := 13.
Definition PIC_ATA1 : Z := 14.
Definition PIC_ATA2 : Z := 15.
Definition PIC_Max : Z := 16.

Definition PIC_disable {D} `{PortIO D} : io D unit :=
  out8 0x20 0x11;; out8 0xa0 0x11;; out8 0x21 0xff;; out8 0xa1 0xff.

(** ** APIC *)
(** *** registers of the local APIC: offsets in its page *)
Definition apic_Reserved0x000 : Z := 0x000.
Definition apic_Reserved0x010 : Z := 0x010.
Definition apic_ID : Z := 0x020.
Definition apic_Version : Z := 0x030.
Definition apic_Reserved0x040 : Z := 0x040.
Definition apic_Reserved0x050 : Z := 0x050.
Definition apic_Reserved0x060 : Z := 0x060.
Definition apic_Reserved0x070 : Z := 0x070.
Definition apic_TaskPriority : Z := 0x080.
Definition apic_ArbitrationPriority : Z := 0x090.
Definition apic_ProcessorPriority : Z := 0x0a0.
Definition apic_EOI : Z := 0x0b0.
Definition apic_RemoteRead : Z := 0x0c0.
Definition apic_LogicalDest : Z := 0x0d0.
Definition apic_DestFormat : Z := 0x0e0.
Definition apic_SpuriosInterruptVector : Z := 0x0f0.
Definition apic_InService0 : Z := 0x100.
Definition apic_InService1 : Z := 0x110.
Definition apic_InService2 : Z := 0x120.
Definition apic_InService3 : Z := 0x130.
Definition apic_InService4 : Z := 0x140.
Definition apic_InService5 : Z := 0x150.
Definition apic_InService6 : Z := 0x160.
Definition apic_InService7 : Z := 0x170.
Definition apic_TriggerMode0 : Z := 0x180.
Definition apic_TriggerMode1 : Z := 0x190.
Definition apic_TriggerMode2 : Z := 0x1a0.
Definition apic_TriggerMode3 : Z := 0x1b0.
Definition apic_TriggerMode4 : Z := 0x1c0.
Definition apic_TriggerMode5 : Z := 0x1d0.
Definition apic_TriggerMode6 : Z := 0x1e0.
Definition apic_TriggerMode7 : Z := 0x1f0.
Definition apic_InterruptRequest0 : Z := 0x200.
Definition apic_InterruptRequest1 : Z := 0x210.
Definition apic_InterruptRequest2 : Z := 0x220.
Definition apic_InterruptRequest3 : Z := 0x230.
Definition apic_InterruptRequest4 : Z := 0x240.
Definition apic_InterruptRequest5 : Z := 0x250.
Definition apic_InterruptRequest6 : Z := 0x260.
Definition apic_InterruptRequest7 : Z := 0x270.
Definition apic_ErrorStatus : Z := 0x280.
Definition apic_Reserved0x290 : Z := 0x290.
Definition apic_Reserved0x2a0 : Z := 0x2a0.
Definition apic_Reserved0x2b0 : Z := 0x2b0.
Definition apic_Reserved0x2c0 : Z := 0x2c0.
Definition apic_Reserved0x2d0 : Z := 0x2d0.
Definition apic_Reserved0x2e0 : Z := 0x2e0.
Definition apic_LVT_CMCI : Z := 0x2f0.
Definition apic_ICR_LOW : Z := 0x300.
Definition apic_ICR_HIGH : Z := 0x310.
Definition apic_LVT_Timer : Z := 0x320.
Definition apic_LVT_ThermalSensor : Z := 0x330.
Definition apic_LVT_PMCs : Z := 0x340.
Definition apic_LVT_LINT0 : Z := 0x350.
Definition apic_LVT_LINT1 : Z := 0x360.
Definition apic_LVT_Error : Z := 0x370.
Definition apic_InitialCount : Z := 0x380.
Definition apic_CurrentCount : Z := 0x390.
Definition apic_Reserved0x3a0 : Z := 0x3a0.
Definition apic_Reserved0x3b0 : Z := 0x3b0.
Definition apic_Reserved0x3c0 : Z := 0x3c0.
Definition apic_Reserved0x3d0 : Z := 0x3d0.
Definition apic_DivideConfiguration : Z := 0x3e0.
Definition apic_Reserved0x3f0 : Z := 0x3f0.

(** *** fields of the registers *)
Definition apicf_APIC_ID : BitString := {| bs_w := 32; bs_Pos := 24; bs_Width := 8 |}.
Definition apicf_SpuriousVector : BitString := {| bs_w := 32; bs_Pos := 0; bs_Width := 8 |}.
Definition apicf_SoftwareEnable : BitString := {| bs_w := 32; bs_Pos := 8; bs_Width := 1 |}.
Definition apicf_FocusProcCheck : BitString := {| bs_w := 32; bs_Pos := 9; bs_Width := 1 |}.
Definition apicf_BroadcastSupp : BitString := {| bs_w := 32; bs_Pos := 12; bs_Width := 1 |}.
Definition apicf_SendChecksum : BitString := {| bs_w := 32; bs_Pos := 0; bs_Width := 1 |}.
Definition apicf_ReceiveChecksum : BitString := {| bs_w := 32; bs_Pos := 1; bs_Width := 1 |}.
Definition apicf_SendAccept : BitString := {| bs_w := 32; bs_Pos := 2; bs_Width := 1 |}.
Definition apicf_ReceiveAccept : BitString := {| bs_w := 32; bs_Pos := 3; bs_Width := 1 |}.
Definition apicf_RedirectableIPI : BitString := {| bs_w := 32; bs_Pos := 4; bs_Width := 1 |}.
Definition apicf_SendIllegalVector : BitString := {| bs_w := 32; bs_Pos := 5; bs_Width := 1 |}.
Definition apicf_ReceiveIllegalVector : BitString := {| bs_w := 32; bs_Pos := 6; bs_Width := 1 |}.
Definition apicf_IllegalRegisterAddress : BitString := {| bs_w := 32; bs_Pos := 7; bs_Width := 1 |}.
Definition apicf_Vector : BitString := {| bs_w := 32; bs_Pos := 0; bs_Width := 8 |}.
Definition apicf_DeliveryMode : BitString := {| bs_w := 32; bs_Pos := 8; bs_Width := 3 |}.
Definition apicf_DestinationMode : BitString := {| bs_w := 32; bs_Pos := 11; bs_Width := 1 |}.
Definition apicf_DeliveryPending : BitString := {| bs_w := 32; bs_Pos := 12; bs_Width := 1 |}.
Definition apicf_LevelUp : BitString := {| bs_w := 32; bs_Pos := 14; bs_Width := 1 |}.
Definition apicf_TriggerModeLevel : BitString := {| bs_w := 32; bs_Pos := 15; bs_Width := 1 |}.
Definition apicf_DestinationShorthand : BitString := {| bs_w := 32; bs_Pos := 18; bs_Width := 2 |}.
Definition apicf_DestField : BitString := {| bs_w := 32; bs_Pos := 24; bs_Width := 8 |}.
Definition apicf_MaskTimer : BitString := {| bs_w := 32; bs_Pos := 16; bs_Width := 1 |}.
Definition apicf_TimerMode : BitString := {| bs_w := 32; bs_Pos := 17; bs_Width := 2 |}.

(** [DeliveryModes], [DestinationShorthands], [TimerModes] *)
Definition dm_Fixed : Z := 0.
Definition dm_LowestPriority : Z := 1.
Definition dm_SMI : Z := 2.
Definition dm_NMI : Z := 4.
Definition dm_Init : Z := 5.
Definition dm_Startup : Z := 6.
Definition sh_None : Z := 0.
Definition sh_Self : Z := 1.
Definition sh_AllInclSelf : Z := 2.
Definition sh_AllExclSelf : Z := 3.
Definition tm_OneShot : Z := 0.
Definition tm_Periodic : Z := 1.
Definition tm_Deadline : Z := 2.

Definition WakeIPI : Z := 0xe0.
Definition PreemptIPI : Z := 0xed.
Definition TestIPI : Z := 0xee.
Definition StopIPI : Z := 0xef.

Section apic.
Context {D : Type} `{MMIO D}.

Definition apic_ipi (fuel : nat) (high low : Z) (broadcast : bool) : io D unit :=
  let low := if broadcast then Z.lor low (bs_put apicf_DestinationShorthand sh_AllExclSelf) else low in
  mm_write apic_ICR_HIGH high;;
  mm_write apic_ICR_LOW low;;
  (if negb broadcast then
     busy_wait fuel (v ← mm_read apic_ICR_LOW; mret (negb (Z.land v (bs_mask apicf_DeliveryPending) =? 0)))
   else mret tt);;
  err ← mm_read apic_ErrorStatus;
  io_lift (kassert (err =? 0)).

Definition apic_getID : io D Z := v ← mm_read apic_ID; mret (wrap 8 (bs_get apicf_APIC_ID v)).
Definition apic_setTaskPriority (p : Z) : io D unit := mm_write apic_TaskPriority p.
Definition apic_sendEOI : io D unit := mm_write apic_EOI 0.
Definition apic_enable0 : io D unit :=
  v ← mm_read apic_SpuriosInterruptVector; mm_write apic_SpuriosInterruptVector (Z.lor v (bs_mask apicf_SoftwareEnable)).
Definition apic_enable (sv : Z) : io D unit :=
  v ← mm_read apic_SpuriosInterruptVector;
  mm_write apic_SpuriosInterruptVector (Z.lor v (Z.lor (bs_mask apicf_SoftwareEnable) (bs_put apicf_SpuriousVector sv))).
Definition apic_disable : io D unit :=
  v ← mm_read apic_SpuriosInterruptVector; mm_write apic_SpuriosInterruptVector (bs_excl apicf_SoftwareEnable v).
Definition apic_setLogicalDest (group : Z) : io D unit := mm_write apic_LogicalDest (bs_put apicf_APIC_ID group).
Definition apic_setFlatMode : io D unit := mm_write apic_DestFormat 0xFFFFFFFF.
Definition apic_maskTimer : io D unit := v ← mm_read apic_LVT_Timer; mm_write apic_LVT_Timer (Z.lor v (bs_mask apicf_MaskTimer)).
Definition apic_timer_perf : io D unit :=
  mm_write apic_LVT_Timer 0x200F1;; mm_write apic_InitialCount 0xFFFF;; mm_write apic_DivideConfiguration 0xA.
Definition apic_timer_perf_clear : io D unit :=
  mm_write apic_LVT_Timer 0x0;; mm_write apic_InitialCount 0x0;; mm_write apic_DivideConfiguration 0x0.

Definition sendInitIPI (fuel : nat) (dest : Z) (broadcast : bool) : io D unit :=
  apic_ipi fuel (bs_put apicf_DestField dest) (bs_put apicf_DeliveryMode dm_Init) broadcast.
Definition sendInitDeassertIPI (fuel : nat) (dest : Z) (broadcast : bool) : io D unit :=
  apic_ipi fuel (bs_put apicf_DestField dest) (Z.lor (bs_put apicf_DeliveryMode dm_Init) (bs_mask apicf_TriggerModeLevel)) broadcast.
Definition sendStartupIPI (fuel : nat) (dest vec : Z) (broadcast : bool) : io D unit :=
  apic_ipi fuel (bs_put apicf_DestField dest) (Z.lor (bs_put apicf_DeliveryMode dm_Startup) (bs_put apicf_Vector vec)) broadcast.
Definition sendIPI (fuel : nat) (dest vec : Z) (broadcast : bool) : io D unit :=
  apic_ipi fuel (bs_put apicf_DestField dest) (Z.lor (bs_put apicf_DeliveryMode dm_Fixed) (bs_put apicf_Vector vec)) broadcast.

(** [LocalProcessor::initInterrupts], up to the unlocking of the processor *)
Definition initInterrupts (irqs : bool) : io D unit :=
  apic_setFlatMode;; apic_setLogicalDest (if irqs then 0x01 else 0x00);; apic_setTaskPriority 0x00;; apic_enable 0xff.
End apic.

(** ** IOAPIC *)
(** *** the two registers of the IOAPIC, and the fields of the internal registers *)
Definition ioapic_RegisterSelect : Z := 0x000.
Definition ioapic_Window : Z := 0x010.
Definition iof_Version : BitString := {| bs_w := 32; bs_Pos := 0; bs_Width := 8 |}.
Definition iof_MaxRedirectionEntry : BitString := {| bs_w := 32; bs_Pos := 16; bs_Width := 8 |}.
Definition iof_ArbitrationID : BitString := {| bs_w := 32; bs_Pos := 24; bs_Width := 4 |}.
Definition iof_ID : BitString := {| bs_w := 32; bs_Pos := 24; bs_Width := 4 |}.
Definition iof_Vector : BitString := {| bs_w := 64; bs_Pos := 0; bs_Width := 8 |}.
Definition iof_DeliveryMode : BitString := {| bs_w := 64; bs_Pos := 8; bs_Width := 3 |}.
Definition iof_DestinationMode : BitString := {| bs_w := 64; bs_Pos := 11; bs_Width := 1 |}.
Definition iof_DeliveryPending : BitString := {| bs_w := 64; bs_Pos := 12; bs_Width := 1 |}.
Definition iof_Polarity : BitString := {| bs_w := 64; bs_Pos := 13; bs_Width := 1 |}.
Definition iof_RemoteIRR : BitString := {| bs_w := 64; bs_Pos := 14; bs_Width := 1 |}.
Definition iof_TriggerModeLevel : BitString := {| bs_w := 64; bs_Pos := 15; bs_Width := 1 |}.
Definition iof_Mask : BitString := {| bs_w := 64; bs_Pos := 16; bs_Width := 1 |}.
Definition iof_DestinationID : BitString := {| bs_w := 64; bs_Pos := 56; bs_Width := 4 |}.
Definition iof_DestinationSet : BitString := {| bs_w := 64; bs_Pos := 56; bs_Width := 8 |}.
Definition IOAPICID : Z := 0x00.
Definition IOAPICVER : Z := 0x01.
Definition IOAPICARB : Z := 0x02.
Definition IOREDTBL : Z := 0x10.

Definition b2z (b : bool) : Z := if b then 1 else 0.

(** the redirection entry that [mapIRQ] writes *)
Definition redirection (intr : Z) (low level : bool) : Z :=
  Z.lor (Z.lor (Z.lor (Z.lor (Z.lor (bs_put iof_Vector intr) (bs_put iof_DeliveryMode dm_LowestPriority))
    (bs_mask iof_DestinationMode)) (bs_put iof_Polarity (b2z low))) (bs_put iof_TriggerModeLevel (b2z level)))
    (bs_put iof_DestinationSet 0x01).

Section ioapic.
Context {D : Type} `{MMIO D}.

Definition ioapic_read (reg : Z) : io D Z := mm_write ioapic_RegisterSelect (wrap 8 reg);; mm_read ioapic_Window.
Definition ioapic_write (reg val : Z) : io D unit := mm_write ioapic_RegisterSelect (wrap 8 reg);; mm_write ioapic_Window val.

Definition getVersion : io D Z := v ← ioapic_read IOAPICVER; mret (wrap 8 (bs_get iof_Version v)).
Definition getRedirects : io D Z := v ← ioapic_read IOAPICVER; mret (wrap 8 (bs_get iof_MaxRedirectionEntry v)).

Definition maskIRQ (irq : Z) : io D unit :=
  let val := bs_mask iof_Mask in
  ioapic_write (IOREDTBL + irq * 2) (Z.land val 0xFFFFFFFF);;
  ioapic_write (IOREDTBL + irq * 2 + 1) (Z.shiftr val 32).

Definition mapIRQ (irq intr : Z) (low level : bool) : io D unit :=
  let val := redirection intr low level in
  ioapic_write (IOREDTBL + irq * 2) (Z.land val 0xFFFFFFFF);;
  ioapic_write (IOREDTBL + irq * 2 + 1) (Z.shiftr val 32).
End ioapic.

(** ** The chip: a register file behind the window *)
Class IoApicChip (D : Type) `{MMIO D} := {
  chip_reg : D -> Z -> Z;
  chip_sel : D -> Z;
  chip_select d v : let d' := mm_out ioapic_RegisterSelect v d in chip_sel d' = v /\ (forall r, chip_reg d' r = chip_reg d r);
  chip_window_in d : exists d', mm_in ioapic_Window d = (chip_reg d (chip_sel d), d') /\
    chip_sel d' = chip_sel d /\ (forall r, chip_reg d' r = chip_reg d r);
  chip_window_out d v : is_word 32 v -> let d' := mm_out ioapic_Window v d in
    chip_sel d' = chip_sel d /\ (forall r, chip_reg d' r = if r =? chip_sel d then v else chip_reg d r)
}.

(** the redirection entry of an input *)
Definition redir {D} `{IoApicChip D} (d : D) (irq : Z) : Z :=
  chip_reg d (IOREDTBL + irq * 2) + 2 ^ 32 * chip_reg d (IOREDTBL + irq * 2 + 1).

Section chip.
Context {D : Type} `{IoApicChip D}.

Lemma ioapic_write_run reg val d : 0 <= reg < 256 -> is_word 32 val ->
  exists d', ioapic_write reg val d = Ok (tt, d') /\ forall r, chip_reg d' r = if r =? reg then val else chip_reg d r.
Proof.
  intros Hr Hv. unfold ioapic_write, mm_write, mbind, io_bind. eexists. split; [reflexivity|]. intros r.
  rewrite (wrap_small 8) by lia. rewrite (wrap_small 32 reg) by lia. rewrite (wrap_small 32 val) by done.
  destruct (chip_select d reg) as [Hs Hg]. destruct (chip_window_out (mm_out ioapic_RegisterSelect reg d) val Hv) as [_ Hw].
  rewrite Hw, Hs. by rewrite Hg.
Qed.

(** writing both words of an entry *)
Lemma entry_write_run irq val d : 0 <= irq < 120 -> is_word 64 val ->
  exists d', (ioapic_write (IOREDTBL + irq * 2) (Z.land val 0xFFFFFFFF);;
              ioapic_write (IOREDTBL + irq * 2 + 1) (Z.shiftr val 32)) d = Ok (tt, d') /\
    redir d' irq = val /\ forall irq', 0 <= irq' -> irq' <> irq -> redir d' irq' = redir d irq'.
Proof.
  intros Hi Hv. change 0xFFFFFFFF with (Z.ones 32). rewrite Z.land_ones, Z.shiftr_div_pow2 by lia.
  unfold is_word in Hv. assert (0 <= val mod 2 ^ 32 < 2 ^ 32) by (apply Z.mod_pos_bound; lia).
  assert (0 <= val / 2 ^ 32 < 2 ^ 32) by (split; [apply Z.div_pos; lia|apply Z.div_lt_upper_bound; lia]).
  unfold IOREDTBL in *.
  destruct (ioapic_write_run (16 + irq * 2) (val mod 2 ^ 32) d) as (d1 & E1 & Hd1); [lia|done|].
  destruct (ioapic_write_run (16 + irq * 2 + 1) (val / 2 ^ 32) d1) as (d2 & E2 & Hd2); [lia|done|].
  rewrite (io_bind_run _ _ _ _ _ E1), E2. exists d2. split; [done|]. unfold redir, IOREDTBL. split.
  - rewrite !Hd2, !Hd1, !Z.eqb_refl. destruct (Z.eqb_spec (16 + irq * 2) (16 + irq * 2 + 1)); [lia|].
    rewrite Z.add_comm. symmetry. apply Z.div_mod. lia.
  - intros irq' Hp Hn. rewrite !Hd2, !Hd1.
    repeat match goal with |- context [?a =? ?b] => destruct (Z.eqb_spec a b); [lia|] end. done.
Qed.
End chip.
