(* ===== verification/Keyboard.v ===== *)
(** * The PS/2 keyboard: devices/Keyboard.h, devices/Keyboard.cc

    The controller commands as programs over I/O ports, the initialisation,
    and the interrupt handler, a state machine over scan codes.  What is not
    compiled ([#if 0], [TESTING_KEYCODE_LOOP]) is left out.  [kbq] lists the
    key codes passed to [kbq.trySend]; the queue is in SyncObjects.v.
    [Reboot] does not return and ends the run like [KABORT]. *)
From Stdlib Require Import ZArith Lia Bool Ascii String.
From stdpp Require Import base tactics option numbers list.
From S2P Require Import Prelude Bitmanip Ports Apic.

Definition ch (c : ascii) : Z := Z.of_N (N_of_ascii c).

(** ** Key codes *)
Definition KEY_BACKSPACE : Z := 8.
Definition KEY_TAB : Z := 9.
Definition KEY_ENTER : Z := 10.
Definition KEY_ESCAPE : Z := 27.
Definition KEY_BACKSLASH : Z := 92.
Definition KEY_QUOTE : Z := 39.
Definition KEY_DELETE : Z := 127.
Definition KEY_F1 : Z := 0x1000.
Definition KEY_F2 : Z := 0x1001.
Definition KEY_F3 : Z := 0x1002.
Definition KEY_F4 : Z := 0x1003.
Definition KEY_F5 : Z := 0x1004.
Definition KEY_F6 : Z := 0x1005.
Definition KEY_F7 : Z := 0x1006.
Definition KEY_F8 : Z := 0x1007.
Definition KEY_F9 : Z := 0x1008.
Definition KEY_F10 : Z := 0x1009.
Definition KEY_F11 : Z := 0x100a.
Definition KEY_F12 : Z := 0x100b.
Definition KEY_PRTSCR : Z := 0x100c.
Definition KEY_SCROLLLOCK : Z := 0x100d.
Definition KEY_PAUSE : Z := 0x100e.
Definition KEY_CAPSLOCK : Z := 0x100f.
Definition KEY_LSHIFT : Z := 0x1010.
Definition KEY_LCTRL : Z := 0x1011.
Definition KEY_LALT : Z := 0x1012.
Definition KEY_LGUI : Z := 0x1013.
Definition KEY_RSHIFT : Z := 0x1014.
Definition KEY_RCTRL : Z := 0x1015.
Definition KEY_RALT : Z := 0x1016.
Definition KEY_RGUI : Z := 0x1017.
Definition KEY_UP : Z := 0x1018.
Definition KEY_DOWN : Z := 0x1019.
Definition KEY_LEFT : Z := 0x101a.
Definition KEY_RIGHT : Z := 0x101b.
Definition KEY_INSERT : Z := 0x101c.
Definition KEY_HOME : Z := 0x101d.
Definition KEY_END : Z := 0x101e.
Definition KEY_PGUP : Z := 0x101f.
Definition KEY_PGDOWN : Z := 0x1020.
Definition KEY_KP_DOT : Z := 0x1021.
Definition KEY_KP_0 : Z := 0x1022.
Definition KEY_KP_1 : Z := 0x1023.
Definition KEY_KP_2 : Z := 0x1024.
Definition KEY_KP_3 : Z := 0x1025.
Definition KEY_KP_4 : Z := 0x1026.
Definition KEY_KP_5 : Z := 0x1027.
Definition KEY_KP_6 : Z := 0x1028.
Definition KEY_KP_7 : Z := 0x1029.
Definition KEY_KP_8 : Z := 0x102a.
Definition KEY_KP_9 : Z := 0x102b.
Definition KEY_KP_NUMLOCK : Z := 0x102c.
Definition KEY_KP_DIVIDE : Z := 0x102d.
Definition KEY_KP_ASTERISK : Z := 0x102e.
Definition KEY_KP_MINUS : Z := 0x102f.
Definition KEY_KP_PLUS : Z := 0x1030.
Definition KEY_KP_ENTER : Z := 0x1031.
Definition KEY_UNKNOWN : Z := 0x1032.

(** ** Scan codes: AT to XT, and XT to keys (plain, extended) *)
Local Open Scope char_scope.
Definition tableXTtoKey : list (Z * Z) := [
  (KEY_UNKNOWN, KEY_UNKNOWN); (KEY_ESCAPE, KEY_UNKNOWN); (ch "1", KEY_UNKNOWN); (ch "2", KEY_UNKNOWN);
  (ch "3", KEY_UNKNOWN); (ch "4", KEY_UNKNOWN); (ch "5", KEY_UNKNOWN); (ch "6", KEY_UNKNOWN);
  (ch "7", KEY_UNKNOWN); (ch "8", KEY_UNKNOWN); (ch "9", KEY_UNKNOWN); (ch "0", KEY_UNKNOWN);
  (ch "-", KEY_UNKNOWN); (ch "=", KEY_UNKNOWN); (KEY_BACKSPACE, KEY_UNKNOWN); (KEY_TAB, KEY_UNKNOWN);
  (ch "q", KEY_UNKNOWN); (ch "w", KEY_UNKNOWN); (ch "e", KEY_UNKNOWN); (ch "r", KEY_UNKNOWN);
  (ch "t", KEY_UNKNOWN); (ch "y", KEY_UNKNOWN); (ch "u", KEY_UNKNOWN); (ch "i", KEY_UNKNOWN);
  (ch "o", KEY_UNKNOWN); (ch "p", KEY_UNKNOWN); (ch "[", KEY_UNKNOWN); (ch "]", KEY_UNKNOWN);
  (KEY_ENTER, KEY_KP_ENTER); (KEY_LCTRL, KEY_RCTRL); (ch "a", KEY_UNKNOWN); (ch "s", KEY_UNKNOWN);
  (ch "d", KEY_UNKNOWN); (ch "f", KEY_UNKNOWN); (ch "g", KEY_UNKNOWN); (ch "h", KEY_UNKNOWN);
  (ch "j", KEY_UNKNOWN); (ch "k", KEY_UNKNOWN); (ch "l", KEY_UNKNOWN); (ch ";", KEY_UNKNOWN);
  (KEY_QUOTE, KEY_UNKNOWN); (ch "`", KEY_UNKNOWN); (KEY_LSHIFT, KEY_PRTSCR); (KEY_BACKSLASH, KEY_UNKNOWN);
  (ch "z", KEY_UNKNOWN); (ch "x", KEY_UNKNOWN); (ch "c", KEY_UNKNOWN); (ch "v", KEY_UNKNOWN);
  (ch "b", KEY_UNKNOWN); (ch "n", KEY_UNKNOWN); (ch "m", KEY_UNKNOWN); (ch ",", KEY_UNKNOWN);
  (ch ".", KEY_UNKNOWN); (ch "/", KEY_KP_DIVIDE); (KEY_RSHIFT, KEY_UNKNOWN); (KEY_KP_ASTERISK, KEY_PRTSCR);
  (KEY_LALT, KEY_RALT); (ch " ", KEY_UNKNOWN); (KEY_CAPSLOCK, KEY_UNKNOWN); (KEY_F1, KEY_UNKNOWN);
  (KEY_F2, KEY_UNKNOWN); (KEY_F3, KEY_UNKNOWN); (KEY_F4, KEY_UNKNOWN); (KEY_F5, KEY_UNKNOWN);
  (KEY_F6, KEY_UNKNOWN); (KEY_F7, KEY_UNKNOWN); (KEY_F8, KEY_UNKNOWN); (KEY_F9, KEY_UNKNOWN);
  (KEY_F10, KEY_UNKNOWN); (KEY_KP_NUMLOCK, KEY_UNKNOWN); (KEY_SCROLLLOCK, KEY_UNKNOWN); (KEY_KP_7, KEY_HOME);
  (KEY_KP_8, KEY_UP); (KEY_KP_9, KEY_PGUP); (KEY_KP_MINUS, KEY_UNKNOWN); (KEY_KP_4, KEY_LEFT);
  (KEY_KP_5, KEY_UNKNOWN); (KEY_KP_6, KEY_RIGHT); (KEY_KP_PLUS, KEY_UNKNOWN); (KEY_KP_1, KEY_END);
  (KEY_KP_2, KEY_DOWN); (KEY_KP_3, KEY_PGDOWN); (KEY_KP_0, KEY_INSERT); (KEY_KP_DOT, KEY_DELETE);
  (KEY_UNKNOWN, KEY_UNKNOWN); (KEY_UNKNOWN, KEY_UNKNOWN); (KEY_UNKNOWN, KEY_UNKNOWN); (KEY_F11, KEY_UNKNOWN);
  (KEY_F12, KEY_UNKNOWN)
].

Definition tableATtoXT : list Z := [
  0xff; 0x43; 0x41; 0x3f; 0x3d; 0x3b; 0x3c; 0x58; 0x64; 0x44; 0x42; 0x40; 0x3e; 0x0f; 0x29; 0x59;
  0x65; 0x38; 0x2a; 0x70; 0x1d; 0x10; 0x02; 0x5a; 0x66; 0x71; 0x2c; 0x1f; 0x1e; 0x11; 0x03; 0x5b;
  0x67; 0x2e; 0x2d; 0x20; 0x12; 0x05; 0x04; 0x5c; 0x68; 0x39; 0x2f; 0x21; 0x14; 0x13; 0x06; 0x5d;
  0x69; 0x31; 0x30; 0x23; 0x22; 0x15; 0x07; 0x5e; 0x6a; 0x72; 0x32; 0x24; 0x16; 0x08; 0x09; 0x5f;
  0x6b; 0x33; 0x25; 0x17; 0x18; 0x0b; 0x0a; 0x60; 0x6c; 0x34; 0x35; 0x26; 0x27; 0x19; 0x0c; 0x61;
  0x6d; 0x73; 0x28; 0x74; 0x1a; 0x0d; 0x62; 0x6e; 0x3a; 0x36; 0x1c; 0x1b; 0x75; 0x2b; 0x63; 0x76;
  0x55; 0x56; 0x77; 0x78; 0x79; 0x7a; 0x0e; 0x7b; 0x7c; 0x4f; 0x7d; 0x4b; 0x47; 0x7e; 0x7f; 0x6f;
  0x52; 0x53; 0x50; 0x4c; 0x4d; 0x48; 0x01; 0x45; 0x57; 0x4e; 0x51; 0x4a; 0x37; 0x49; 0x46; 0x54
].
Local Close Scope char_scope.

Definition scanCodeSet : Z := 2.

(** ** The controller *)
Definition DataPort : Z := 0x60.
Definition StatusRegister : Z := 0x64.
Definition CommandRegister : Z := 0x64.

(** enum CTRL_CMDS *)
Definition CTRL_CMD_READ_CONFIG : Z := 0x20.
Definition CTRL_CMD_WRITE_CONFIG : Z := 0x60.
Definition CTRL_CMD_DISABLE_P2 : Z := 0xA7.
Definition CTRL_CMD_ENABLE_P2 : Z := 0xA8.
Definition CTRL_CMD_TEST_P2 : Z := 0xA9.
Definition CTRL_CMD_SELF_TEST : Z := 0xAA.
Definition CTRL_CMD_TEST_P1 : Z := 0xAB.
Definition CTRL_CMD_DISABLE_P1 : Z := 0xAD.
Definition CTRL_CMD_ENABLE_P1 : Z := 0xAE.
Definition CTRL_CMD_READ_CTRL_INPUT : Z := 0xC0.
Definition CTRL_CMD_READ_CTRL_OUTPUT : Z := 0xD0.
Definition CTRL_CMD_WRITE_CTRL_OUTPUT : Z := 0xD1.
Definition CTRL_CMD_WRITE_P1_OUTPUT : Z := 0xD2.
Definition CTRL_CMD_WRITE_P2_OUTPUT : Z := 0xD3.
Definition CTRL_CMD_WRITE_TO_P2 : Z := 0xD4.
Definition CTRL_CMD_READ_TEST_INPUTS : Z := 0xE0.
Definition CTRL_CMD_SYSTEM_RESET : Z := 0xFE.

(** enum CTRL_STATS_MASK *)
Definition CTRL_STATS_MASK_OUT_BUF : Z := 0x01.
Definition CTRL_STATS_MASK_IN_BUF : Z := 0x02.
Definition CTRL_STATS_MASK_SYSTEM : Z := 0x04.
Definition CTRL_STATS_MASK_CMD_DATA : Z := 0x08.
Definition CTRL_STATS_MASK_LOCKED : Z := 0x10.
Definition CTRL_STATS_MASK_AUX_BUF : Z := 0x20.
Definition CTRL_STATS_MASK_TIMEOUT : Z := 0x40.
Definition CTRL_STATS_MASK_PARITY : Z := 0x80.

(** enum DEV_CMDS *)
Definition DEV_CMD_SET_LED : Z := 0xED.
Definition DEV_CMD_ECHO : Z := 0xEE.
Definition DEV_CMD_SCAN_CODE_SET : Z := 0xF0.
Definition DEV_CMD_ID : Z := 0xF2.
Definition DEV_CMD_AUTODELAY : Z := 0xF3.
Definition DEV_CMD_ENABLE : Z := 0xF4.
Definition DEV_CMD_DISABLE : Z := 0xF5.
Definition DEV_CMD_DEFAULT_PARAMETERS : Z := 0xF6.
Definition DEV_CMD_ALL_AUTO : Z := 0xF7.
Definition DEV_CMD_ALL_MAKEBREAK : Z := 0xF8.
Definition DEV_CMD_ALL_MAKEONLY : Z := 0xF9.
Definition DEV_CMD_ALL_MAKEBREAK_AUTO : Z := 0xFA.
Definition DEV_CMD_SINGLE_AUTOREPEAT : Z := 0xFB.
Definition DEV_CMD_SINGLE_MAKEBREAK : Z := 0xFC.
Definition DEV_CMD_SINGLE_BREAKONLY : Z := 0xFD.
Definition DEV_CMD_RESEND : Z := 0xFE.
Definition DEV_CMD_RESET : Z := 0xFF.

(** enum ERROR *)
Definition ERR_BUF_OVERRUN : Z := 0x00.
Definition ERR_ID_RET : Z := 0x83AB.
Definition ERR_BAT : Z := 0xAA.
Definition ERR_ECHO_RET : Z := 0xEE.
Definition ERR_ACK : Z := 0xFA.
Definition ERR_BAT_FAILED : Z := 0xFC.
Definition ERR_DIAG_FAILED : Z := 0xFD.
Definition ERR_RESEND_CMD : Z := 0xFE.
Definition ERR_KEY : Z := 0xFF.

(** interrupts that [init] registers *)
Inductive registration := RegAsync (irq : Z) | RegSync (irq vector : Z).

Section controller.
Context {D : Type} `{PortIO D}.

Definition ControllerCheckReadBuffer : io D bool :=
  s ← in8 StatusRegister; mret (negb (Z.land s CTRL_STATS_MASK_OUT_BUF =? 0)).

Definition ControllerCheckWriteBuffer : io D bool :=
  s ← in8 StatusRegister; mret (negb (Z.land s CTRL_STATS_MASK_IN_BUF =? 0)).

Definition ControllerCommand (fuel : nat) (cmd : Z) : io D unit :=
  busy_wait fuel ControllerCheckWriteBuffer;; out8 CommandRegister cmd.

Definition DrainReadBuffer (fuel : nat) : io D unit :=
  io_while fuel ControllerCheckReadBuffer (_ ← in8 DataPort; mret tt).

Definition DataRead (fuel : nat) : io D Z :=
  busy_wait fuel (b ← ControllerCheckReadBuffer; mret (negb b));; in8 DataPort.

Definition DataWrite (fuel : nat) (second : bool) (data : Z) : io D unit :=
  busy_wait fuel ControllerCheckWriteBuffer;;
  (if second then ControllerCommand fuel CTRL_CMD_WRITE_TO_P2 else mret tt);;
  out8 DataPort data.

Definition DeviceCommandOnce (fuel : nat) (second : bool) (cmd : Z) : io D Z :=
  DataWrite fuel second cmd;; DataRead fuel.

Fixpoint DeviceCommand_loop (n fuel : nat) (second : bool) (cmd : Z) : io D Z :=
  match n with
  | O => io_fail OutOfFuel
  | S n => r ← DeviceCommandOnce fuel second cmd;
           if r =? ERR_RESEND_CMD then DeviceCommand_loop n fuel second cmd else mret r
  end.
Definition DeviceCommand (fuel : nat) (second : bool) (cmd : Z) : io D Z := DeviceCommand_loop fuel fuel second cmd.

(** the template argument is not passed on; the [KCHECK] only prints *)
Definition DeviceCommandCheck (fuel : nat) (second : bool) (cmd : Z) : io D unit :=
  _ ← DeviceCommand fuel false cmd; mret tt.

Definition SelfTest (fuel : nat) : io D bool :=
  ControllerCommand fuel CTRL_CMD_SELF_TEST;; r ← DataRead fuel; mret (r =? 0x55).

Definition SetLeds (fuel : nat) (led : Z) : io D unit :=
  DataWrite fuel false DEV_CMD_SET_LED;; DataWrite fuel false led.

Definition clear_bit8 (x i : Z) : Z := Z.land x (wrap 8 (Z.lnot (Z.shiftl 1 i))).

(** the end of [init] *)
Definition kb_enable (fuel : nat) (config : Z) : io D (list registration) :=
  let regs := (if negb (Z.land config (Z.shiftl 1 0) =? 0) then [RegAsync PIC_Keyboard] else []) ++
              (if negb (Z.land config (Z.shiftl 1 1) =? 0) then [RegSync PIC_Mouse 0xfc] else []) in
  ControllerCommand fuel CTRL_CMD_WRITE_CONFIG;;
  DataWrite fuel false config;;
  mret regs.

Definition kb_init (fuel : nat) : io D (list registration) :=
  ControllerCommand fuel CTRL_CMD_ENABLE_P1;;
  ControllerCommand fuel CTRL_CMD_ENABLE_P2;;
  DrainReadBuffer fuel;;
  ControllerCommand fuel CTRL_CMD_READ_CONFIG;;
  config ← DataRead fuel;
  let config := clear_bit8 (clear_bit8 (clear_bit8 config 0) 1) 6 in
  ControllerCommand fuel CTRL_CMD_WRITE_CONFIG;;
  DataWrite fuel false config;;
  t ← SelfTest fuel;
  if negb t then mret []
  else
    config ← (if Z.land config (Z.shiftl 1 4) =? 0 then
                ControllerCommand fuel CTRL_CMD_TEST_P1;;
                _ ← DataRead fuel;
                DrainReadBuffer fuel;;
                mret (Z.lor config (Z.shiftl 1 0))
              else mret config);
    kb_enable fuel config.

Definition reset_system (fuel : nat) : io D unit :=
  ControllerCommand fuel CTRL_CMD_WRITE_CTRL_OUTPUT;; DataWrite fuel false CTRL_CMD_SYSTEM_RESET.
End controller.

(** ** The state machine *)
Record kb := mkKb {
  is_break : bool; shift : bool; alt : bool; ctrl : bool;
  led : Z; acks : Z; extended : Z; kbq : list Z }.

Definition kb_new : kb := mkKb false false false false 0 0 0 [].

Definition set_break (b : bool) (k : kb) : kb := mkKb b (shift k) (alt k) (ctrl k) (led k) (acks k) (extended k) (kbq k).
Definition set_shift (b : bool) (k : kb) : kb := mkKb (is_break k) b (alt k) (ctrl k) (led k) (acks k) (extended k) (kbq k).
Definition set_alt (b : bool) (k : kb) : kb := mkKb (is_break k) (shift k) b (ctrl k) (led k) (acks k) (extended k) (kbq k).
Definition set_ctrl (b : bool) (k : kb) : kb := mkKb (is_break k) (shift k) (alt k) b (led k) (acks k) (extended k) (kbq k).
Definition set_led (l a : Z) (k : kb) : kb := mkKb (is_break k) (shift k) (alt k) (ctrl k) l a (extended k) (kbq k).
Definition set_acks (a : Z) (k : kb) : kb := mkKb (is_break k) (shift k) (alt k) (ctrl k) (led k) a (extended k) (kbq k).
Definition set_extended (e : Z) (k : kb) : kb := mkKb (is_break k) (shift k) (alt k) (ctrl k) (led k) (acks k) e (kbq k).
Definition send (key : Z) (k : kb) : kb :=
  mkKb (is_break k) (shift k) (alt k) (ctrl k) (led k) (acks k) (extended k) (kbq k ++ [key]).

Definition get_scroll_lock (k : kb) : bool := negb (Z.land (led k) 1 =? 0).
Definition get_numlock (k : kb) : bool := negb (Z.land (led k) 2 =? 0).
Definition get_capslock (k : kb) : bool := negb (Z.land (led k) 4 =? 0).

(** [switch]es that map keys to keys *)
Fixpoint assoc_key (key : Z) (l : list (Z * Z)) : option Z :=
  match l with
  | [] => None
  | (a, b) :: l => if key =? a then Some b else assoc_key key l
  end.

Local Open Scope char_scope.
Definition shift_keys : list (Z * Z) := [
  (ch "1", ch "!"); (ch "2", ch "@"); (ch "3", ch "#"); (ch "4", ch "$"); (ch "5", ch "%");
  (ch "6", ch "^"); (ch "7", ch "&"); (ch "8", ch "*"); (ch "9", ch "("); (ch "0", ch ")");
  (ch "-", ch "_"); (ch "=", ch "+"); (ch ",", ch "<"); (ch ".", ch ">"); (ch "/", ch "?");
  (ch ";", ch ":"); (KEY_QUOTE, 34); (ch "[", ch "{"); (ch "]", ch "}"); (ch "`", ch "~");
  (KEY_BACKSLASH, ch "|")].

Definition numlock_keys : list (Z * Z) := [
  (KEY_KP_DOT, ch "."); (KEY_KP_0, ch "0"); (KEY_KP_1, ch "1"); (KEY_KP_2, ch "2"); (KEY_KP_3, ch "3");
  (KEY_KP_4, ch "4"); (KEY_KP_5, ch "5"); (KEY_KP_6, ch "6"); (KEY_KP_7, ch "7"); (KEY_KP_8, ch "8");
  (KEY_KP_9, ch "9")].

Definition keypad_keys : list (Z * Z) := [
  (KEY_KP_DOT, KEY_DELETE); (KEY_KP_0, KEY_INSERT); (KEY_KP_1, KEY_END); (KEY_KP_2, KEY_DOWN);
  (KEY_KP_3, KEY_PGDOWN); (KEY_KP_4, KEY_LEFT); (KEY_KP_5, KEY_UNKNOWN); (KEY_KP_6, KEY_RIGHT);
  (KEY_KP_7, KEY_HOME); (KEY_KP_8, KEY_UP); (KEY_KP_9, KEY_PGUP); (KEY_KP_DIVIDE, ch "/");
  (KEY_KP_ASTERISK, ch "*"); (KEY_KP_MINUS, ch "-"); (KEY_KP_PLUS, ch "+"); (KEY_KP_ENTER, KEY_ENTER)].
Local Close Scope char_scope.

Definition is_lower (key : Z) : bool := (ch "a"%char <=? key) && (key <=? ch "z"%char).

(** the key that is sent *)
Definition translate_key (shift caps ctrl num : bool) (key : Z) : Z :=
  if (shift || caps) && is_lower key then key - 32
  else if ctrl && is_lower key then key - 96
  else
    match (if shift then assoc_key key shift_keys else None) with
    | Some c => c
    | None =>
        match (if num then assoc_key key numlock_keys else None) with
        | Some c => c
        | None => match assoc_key key keypad_keys with Some c => c | None => key end
        end
    end.

(** a key is released *)
Definition kb_release (key : Z) (k : kb) : kb :=
  if (key =? KEY_LCTRL) || (key =? KEY_RCTRL) then set_ctrl false k
  else if (key =? KEY_LSHIFT) || (key =? KEY_RSHIFT) then set_shift false k
  else if (key =? KEY_LALT) || (key =? KEY_RALT) then set_alt false k
  else k.

(** a key is pressed; the second component is what [SetLeds] is called with *)
Definition kb_press (key : Z) (k : kb) : res (kb * option Z) :=
  let toggle b := let l := Z.lxor (led k) b in mret (set_led l (acks k + 2) k, Some l) in
  if (key =? KEY_LCTRL) || (key =? KEY_RCTRL) then mret (set_ctrl true k, None)
  else if (key =? KEY_LSHIFT) || (key =? KEY_RSHIFT) then mret (set_shift true k, None)
  else if (key =? KEY_LALT) || (key =? KEY_RALT) then mret (set_alt true k, None)
  else if key =? KEY_SCROLLLOCK then toggle 1
  else if key =? KEY_KP_NUMLOCK then toggle 2
  else if key =? KEY_CAPSLOCK then toggle 4
  else
    k ← (if alt k then if ctrl k && (key =? KEY_DELETE) then Err Aborted else mret (send KEY_ESCAPE k) else mret k);
    mret (send (translate_key (shift k) (get_capslock k) (ctrl k) (get_numlock k) key) k, None).

(** the XT code, unless the byte is a prefix ([None]) *)
Definition kb_scan (set code : Z) (k : kb) : res (option Z * kb) :=
  if set =? 1 then
    if negb (Z.land code 0x80 =? 0) then mret (Some (Z.land code 0x7f), set_break true k) else mret (Some code, k)
  else if code =? 0xf0 then mret (None, set_break true k)
  else
    kassert ((0 <=? code) && (code <? 0x80));;
    c ← in_bounds (lookupZ tableATtoXT code);
    mret (Some c, k).

(** the key, unless the code is the first half of 'pause' *)
Definition kb_key (code : Z) (k : kb) : res (option Z * kb) :=
  if (extended k =? 2) && (code =? 0x1D) then mret (None, set_extended 3 k)
  else
    key ← (if (extended k =? 3) && (code =? 0x45) then mret KEY_PAUSE
           else
             kassert ((0 <=? extended k) && (extended k <=? 1));;
             row ← in_bounds (lookupZ tableXTtoKey code);
             mret (if extended k =? 0 then row.1 else row.2));
    mret (Some key, set_extended 0 k).

(** one iteration of the handler's loop *)
Definition kb_byte (set code : Z) (k : kb) : res (kb * option Z) :=
  if code =? 0xE0 then kassert (extended k =? 0);; mret (set_extended 1 k, None)
  else if code =? 0xE1 then kassert (extended k =? 0);; mret (set_extended 2 k, None)
  else if code =? ERR_ACK then mret (set_acks (acks k - 1) k, None)
  else
    '(c, k) ← kb_scan set code k;
    match c with
    | None => mret (k, None)
    | Some c =>
        '(key, k) ← kb_key c k;
        match key with
        | None => mret (k, None)
        | Some key => if is_break k then mret (kb_release key (set_break false k), None) else kb_press key k
        end
    end.

Section handler.
Context {D : Type} `{PortIO D}.

Definition kb_code (fuel : nat) (code : Z) (k : kb) : io D kb :=
  '(k, l) ← io_lift (kb_byte scanCodeSet code k);
  match l with Some l => SetLeds fuel l;; mret k | None => mret k end.

Fixpoint irqHandlerInternal (fuel : nat) (k : kb) : io D kb :=
  match fuel with
  | O => io_fail OutOfFuel
  | S n =>
      b ← ControllerCheckReadBuffer;
      if (b : bool) then code ← DataRead fuel; k ← kb_code fuel code k; irqHandlerInternal n k
      else mret k
  end.
End handler.

(** ** Strokes: the byte sequences of the keyboard (scan code set 2) *)
Inductive stroke :=
  | Press (ext : bool) (c : Z)
  | Release (ext : bool) (c : Z)
  | PauseKey
  | Acknowledge.

Definition prefix (ext : bool) : list Z := if ext then [0xE0] else [].
Definition stroke_bytes (s : stroke) : list Z :=
  match s with
  | Press ext c => prefix ext ++ [c]
  | Release ext c => prefix ext ++ [0xF0; c]
  | PauseKey => [0xE1; 0x14; 0x77; 0xE1; 0xF0; 0x14; 0xF0; 0x77]
  | Acknowledge => [0xFA]
  end.

(** the key of a scan code *)
Definition scan_key (ext : bool) (c : Z) : option Z :=
  if (0 <=? c) && (c <? 0x80) then
    x ← lookupZ tableATtoXT c; row ← lookupZ tableXTtoKey x; Some (if ext then row.2 else row.1 : Z)
  else None.

(** what a stroke means *)
Definition stroke_step (s : stroke) (k : kb) : res (kb * option Z) :=
  match s with
  | Press ext c => key ← in_bounds (scan_key ext c); kb_press key k
  | Release ext c => key ← in_bounds (scan_key ext c); mret (kb_release key k, None)
  | PauseKey => kb_press KEY_PAUSE k
  | Acknowledge => mret (set_acks (acks k - 1) k, None)
  end.

Fixpoint kb_bytes (bs : list Z) (k : kb) : res (kb * list Z) :=
  match bs with
  | [] => mret (k, [])
  | b :: bs =>
      '(k, l) ← kb_byte scanCodeSet b k;
      '(k, ls) ← kb_bytes bs k;
      mret (k, match l with Some l => l :: ls | None => ls end)
  end.

Fixpoint kb_strokes (ss : list stroke) (k : kb) : res (kb * list Z) :=
  match ss with
  | [] => mret (k, [])
  | s :: ss =>
      '(k, l) ← stroke_step s k;
      '(k, ls) ← kb_strokes ss k;
      mret (k, match l with Some l => l :: ls | None => ls end)
  end.

Definition between (k : kb) : Prop := extended k = 0 /\ is_break k = false.

Lemma kb_bytes_app bs bs' k :
  kb_bytes (bs ++ bs') k = '(k, l) ← kb_bytes bs k; '(k, l') ← kb_bytes bs' k; mret (k, l ++ l').
Proof.
  revert k. induction bs as [|b bs IH]; intros k; simpl.
  - by destruct (kb_bytes bs' k) as [[]|].
  - destruct (kb_byte scanCodeSet b k) as [[k1 l]|]; [|done]. cbn [mbind res_bind]. rewrite IH.
    destruct (kb_bytes bs k1) as [[k2 l2]|]; [|done]. cbn [mbind res_bind mret res_ret].
    destruct (kb_bytes bs' k2) as [[k3 l3]|]; [|done]. cbn [mbind res_bind mret res_ret]. by destruct l.
Qed.

Lemma between_eq k : between k -> k = mkKb false (shift k) (alt k) (ctrl k) (led k) (acks k) 0 (kbq k).
Proof. intros [He Hb]. destruct k. simpl in *. by subst. Qed.

Lemma kb_press_between key k k' l : between k -> kb_press key k = Ok (k', l) -> between k'.
Proof.
  unfold kb_press, between. intros [He Hb] E. destruct k; simpl in *.
  repeat case_match; simplify_eq; simpl in *; res_inv; simpl; try done.
Qed.

Definition stroke_ok (s : stroke) : Prop :=
  match s with Press ext c | Release ext c => is_Some (scan_key ext c) | _ => True end.

Lemma scan_key_Some ext c key :
  scan_key ext c = Some key -> 0 <= c < 0x80 /\ exists x row, lookupZ tableATtoXT c = Some x /\
    lookupZ tableXTtoKey x = Some row /\ key = if ext then row.2 else row.1.
Proof.
  unfold scan_key. destruct (Z.leb_spec 0 c), (Z.ltb_spec c 0x80); simpl; try done. intros E. split; [done|].
  destruct (lookupZ tableATtoXT c) as [x|]; [|done]. simpl in E. destruct (lookupZ tableXTtoKey x) as [row|] eqn:E2; [|done].
  injection E as <-. eauto.
Qed.

(** a scan code below 0x80 after an optional 0xE0 prefix *)
Lemma kb_byte_code ext c key k :
  scan_key ext c = Some key -> extended k = (if ext then 1 else 0) ->
  kb_byte scanCodeSet c k =
    if is_break k then mret (kb_release key (set_break false (set_extended 0 k)), None) else kb_press key (set_extended 0 k).
Proof.
  intros (Hc & x & row & Ex & Er & ->)%scan_key_Some He. unfold kb_byte, ERR_ACK.
  destruct (Z.eqb_spec c 0xE0); [lia|]. destruct (Z.eqb_spec c 0xE1); [lia|]. destruct (Z.eqb_spec c 0xFA); [lia|].
  unfold kb_scan. change (scanCodeSet =? 1) with false. cbv iota. destruct (Z.eqb_spec c 0xf0); [lia|].
  destruct (Z.leb_spec 0 c), (Z.ltb_spec c 0x80); try lia. cbn [andb kassert mbind res_bind]. rewrite Ex.
  cbn [in_bounds mbind res_bind mret res_ret]. unfold kb_key. rewrite He, Er. by destruct ext.
Qed.

Lemma pause_make sh al ct ld ac q :
  let k := mkKb false sh al ct ld ac 0 q in
  kb_bytes [0xE1; 0x14; 0x77] k = '(k, l) ← kb_press KEY_PAUSE k; mret (k, match l with Some l => [l] | None => [] end).
Proof. cbv -[kb_press]. by destruct (kb_press _ _) as [[? [?|]]|]. Qed.

Lemma pause_break k : between k -> kb_bytes [0xE1; 0xF0; 0x14; 0xF0; 0x77] k = Ok (k, []).
Proof. destruct k. intros [[= ->] [= ->]]. reflexivity. Qed.

Lemma kb_stroke s k :
  between k -> stroke_ok s ->
  kb_bytes (stroke_bytes s) k = '(k, l) ← stroke_step s k; mret (k, match l with Some l => [l] | None => [] end).
Proof.
  intros Hb Hs. destruct k as [b sh al ct ld ac ex q]. destruct Hb as [[= ->] [= ->]]. destruct s as [ext c|ext c| |]; simpl in Hs.
  - destruct Hs as [key Hk]. unfold stroke_step. rewrite Hk. cbn [in_bounds mbind res_bind].
    destruct ext; simpl; rewrite (kb_byte_code _ c key) by done; simpl; unfold set_extended; simpl;
      by destruct (kb_press key _) as [[k' [l|]]|].
  - destruct Hs as [key Hk]. unfold stroke_step. rewrite Hk. cbn [in_bounds mbind res_bind].
    destruct ext; simpl; by rewrite (kb_byte_code _ c key) by done.
  - change (stroke_bytes PauseKey) with ([0xE1; 0x14; 0x77] ++ [0xE1; 0xF0; 0x14; 0xF0; 0x77]). rewrite kb_bytes_app.
    rewrite pause_make. unfold stroke_step. destruct (kb_press KEY_PAUSE _) as [[k' l]|] eqn:E; [|done].
    apply kb_press_between in E; [|done]. cbn [mbind res_bind mret res_ret].
    rewrite pause_break by done. cbn [mbind res_bind mret res_ret]. by destruct l.
  - done.
Qed.

Definition strokes_bytes (ss : list stroke) : list Z := concat (stroke_bytes <$> ss).

Lemma stroke_step_between s k k' l : between k -> stroke_step s k = Ok (k', l) -> between k'.
Proof.
  intros Hb. destruct s as [ext c|ext c| |]; simpl; intros E; res_inv.
  - by eapply kb_press_between.
  - unfold kb_release. repeat case_match; apply Hb.
  - by eapply kb_press_between.
  - apply Hb.
Qed.

Lemma kb_strokes_bytes ss k :
  Forall stroke_ok ss -> between k -> kb_bytes (strokes_bytes ss) k = kb_strokes ss k.
Proof.
  intros Hs. revert k. induction Hs as [|s ss Hs _ IH]; intros k Hb; [done|].
  change (strokes_bytes (s :: ss)) with (stroke_bytes s ++ strokes_bytes ss). cbn [kb_strokes]. rewrite kb_bytes_app, (kb_stroke s k Hb Hs).
  destruct (stroke_step s k) as [[k1 l]|] eqn:E; [|done]. cbn [mbind res_bind mret res_ret].
  rewrite (IH k1) by (by eapply stroke_step_between).
  destruct (kb_strokes ss k1) as [[k2 l2]|]; [|done]. by destruct l.
Qed.

(** ** The interrupt handler on a device

    Between two reads of the status register nothing arrives: the bytes of a
    device state are what it has sent when the interrupt is raised.  A write
    to the data port may be acknowledged at once or later. *)
Class ScanDevice (D : Type) `{PortIO D} := {
  pending : D -> list Z;
  sd_status d : exists v d', port_in 8 StatusRegister d = (v, d') /\ is_word 8 v /\ pending d' = pending d /\
    Z.testbit v 0 = bool_decide (pending d <> []) /\ Z.testbit v 1 = false;
  sd_data d b l : pending d = b :: l -> exists d', port_in 8 DataPort d = (b, d') /\ is_word 8 b /\ pending d' = l;
  sd_ack d v : exists a : bool, pending (port_out 8 DataPort v d) = pending d ++ (if a then [ERR_ACK] else [])
}.

Section device.
Context {D : Type} `{ScanDevice D}.

Lemma check_read_run d : exists d', ControllerCheckReadBuffer d = Ok (bool_decide (pending d <> []), d') /\ pending d' = pending d.
Proof.
  destruct (sd_status d) as (v & d' & E & Hw & Hp & H0' & H1'). exists d'. split; [|done].
  unfold ControllerCheckReadBuffer, in8, mbind, io_bind, mret, io_ret. rewrite E, wrap_small by done. f_equal. f_equal.
  rewrite <- H0'. unfold CTRL_STATS_MASK_OUT_BUF. change 1 with (Z.ones 1). rewrite Z.land_ones by lia.
  rewrite Z.bit0_odd, Zmod_odd. by destruct (Z.odd v).
Qed.

Lemma check_write_run d : exists d', ControllerCheckWriteBuffer d = Ok (false, d') /\ pending d' = pending d.
Proof.
  destruct (sd_status d) as (v & d' & E & Hw & Hp & H0' & H1'). exists d'. split; [|done].
  unfold ControllerCheckWriteBuffer, in8, mbind, io_bind, mret, io_ret. rewrite E, wrap_small by done. f_equal. f_equal.
  unfold CTRL_STATS_MASK_IN_BUF. assert (Z.land v 2 = 0) as ->; [|done].
  apply Z.bits_inj'. intros i Hi. rewrite Z.land_spec, Z.testbit_0_l. change 2 with (2 ^ 1). rewrite pow2_testbit by lia.
  destruct (Z.eqb_spec i 1) as [->|]; [by rewrite H1'|apply andb_false_r].
Qed.

Lemma data_read_run fuel d b l : pending d = b :: l -> (0 < fuel)%nat ->
  exists d', DataRead fuel d = Ok (b, d') /\ pending d' = l.
Proof.
  intros Hp Hf. destruct fuel as [|fuel]; [lia|]. unfold DataRead.
  destruct (check_read_run d) as (d1 & E & Hp1). rewrite Hp in E, Hp1. rewrite bool_decide_true in E by done.
  destruct (sd_data d1 b l Hp1) as (d2 & E2 & Hw & Hp2). exists d2. split; [|done].
  erewrite io_bind_run; [|apply busy_wait_done; rewrite (io_bind_run _ _ _ _ _ E); reflexivity].
  unfold in8. by rewrite E2, wrap_small.
Qed.

Lemma data_write_run fuel v d : (0 < fuel)%nat ->
  exists d' (a : bool), DataWrite fuel false v d = Ok (tt, d') /\ pending d' = pending d ++ (if a then [ERR_ACK] else []).
Proof.
  intros Hf. destruct fuel as [|fuel]; [lia|]. unfold DataWrite.
  destruct (check_write_run d) as (d1 & E & Hp1). destruct (sd_ack d1 (wrap 8 v)) as [a Ha].
  exists (port_out 8 DataPort (wrap 8 v) d1), a. split; [|by rewrite <- Hp1].
  erewrite io_bind_run; [|by apply busy_wait_done]. reflexivity.
Qed.

Lemma set_leds_run fuel v d : (0 < fuel)%nat ->
  exists d' n, SetLeds fuel v d = Ok (tt, d') /\ pending d' = pending d ++ replicate n ERR_ACK /\ (n <= 2)%nat.
Proof.
  intros Hf. unfold SetLeds. destruct (data_write_run fuel DEV_CMD_SET_LED d Hf) as (d1 & a & E & Hp).
  destruct (data_write_run fuel v d1 Hf) as (d2 & a2 & E2 & Hp2). rewrite (io_bind_run _ _ _ _ _ E).
  exists d2, ((if a then 1 else 0) + (if a2 then 1 else 0))%nat. rewrite E2, Hp2, Hp, <- app_assoc. split; [done|].
  by destruct a, a2; split; try done; lia.
Qed.

Lemma handler_acks fuel m k d :
  pending d = replicate m ERR_ACK -> (m < fuel)%nat ->
  exists d', irqHandlerInternal fuel k d = Ok (set_acks (acks k - Z.of_nat m) k, d') /\ pending d' = [].
Proof.
  revert m k d. induction fuel as [|fuel IH]; intros m k d Hp Hf; [lia|]. cbn [irqHandlerInternal].
  destruct (check_read_run d) as (d1 & E & Hp1). rewrite (io_bind_run _ _ _ _ _ E). rewrite Hp in *. destruct m as [|m].
  - rewrite bool_decide_false by (intros C; by apply C). exists d1. split; [|done]. unfold mret, io_ret. f_equal. f_equal.
    destruct k. unfold set_acks. simpl. f_equal. lia.
  - rewrite bool_decide_true by done. cbn [replicate] in Hp1.
    destruct (data_read_run (S fuel) d1 _ _ Hp1) as (d2 & E2 & Hp2); [lia|]. rewrite (io_bind_run _ _ _ _ _ E2).
    erewrite io_bind_run; [|reflexivity].
    destruct (IH m (set_acks (acks k - 1) k) d2 Hp2) as (d3 & E3 & Hp3); [lia|]. exists d3. split; [|done].
    rewrite E3. f_equal. f_equal. unfold set_acks. simpl. f_equal. lia.
Qed.

Lemma handler_bytes bs : forall fuel m k d k' ls,
  pending d = bs ++ replicate m ERR_ACK -> kb_bytes bs k = Ok (k', ls) -> (length bs + m + 2 * length ls < fuel)%nat ->
  exists d' n, irqHandlerInternal fuel k d = Ok (set_acks (acks k' - Z.of_nat n) k', d') /\ pending d' = [] /\
    (m <= n <= m + 2 * length ls)%nat.
Proof.
  induction bs as [|b bs IH]; intros fuel m k d k' ls Hp Hb Hf.
  { simpl in Hb. res_inv. destruct (handler_acks fuel m k' d Hp) as (d' & E & Hp'); [simpl in Hf; lia|].
    exists d', m. split_and!; done || lia. }
  destruct fuel as [|fuel]; [simpl in Hf; lia|]. cbn [irqHandlerInternal].
  destruct (check_read_run d) as (d1 & E & Hp1). rewrite (io_bind_run _ _ _ _ _ E). rewrite Hp in *.
  rewrite bool_decide_true by done. cbn [app] in Hp1.
  destruct (data_read_run (S fuel) d1 _ _ Hp1) as (d2 & E2 & Hp2); [lia|]. rewrite (io_bind_run _ _ _ _ _ E2).
  cbn [kb_bytes] in Hb. destruct (kb_byte scanCodeSet b k) as [[k1 l]|] eqn:Eb; [|done]. cbn [mbind res_bind] in Hb.
  destruct (kb_bytes bs k1) as [[k2 ls2]|] eqn:Ebs; [|done]. cbn [mbind res_bind mret res_ret] in Hb. injection Hb as -> <-.
  assert (exists d3 n, kb_code (S fuel) b k d2 = Ok (k1, d3) /\ pending d3 = bs ++ replicate (m + n) ERR_ACK /\
    (n + 2 * length ls2 <= 2 * length (match l with Some l => l :: ls2 | None => ls2 end))%nat) as (d3 & n & E3 & Hp3 & Hn).
  { unfold kb_code, io_lift. rewrite Eb. unfold mbind at 1, io_bind at 1. cbn [mbind res_bind]. destruct l as [v|].
    - destruct (set_leds_run (S fuel) v d2) as (d3 & n & E3 & Hp3 & Hn); [lia|]. exists d3, n.
      rewrite (io_bind_run _ _ _ _ _ E3). split; [done|]. rewrite Hp3, Hp2, <- app_assoc, <- replicate_add. split; [done|]. simpl. lia.
    - exists d2, 0%nat. split; [done|]. rewrite Nat.add_0_r. split; [done|]. lia. }
  rewrite (io_bind_run _ _ _ _ _ E3).
  destruct (IH fuel (m + n)%nat k1 d3 k' ls2 Hp3 Ebs) as (d4 & n4 & E4 & Hp4 & Hn4).
  { simpl in Hf. destruct l; simpl in *; lia. }
  exists d4, n4. split; [done|]. split; [done|]. lia.
Qed.
End device.

(** An interrupt of the keyboard ends: on a device that has sent whole
    strokes the handler reads every byte, however the device acknowledges the
    changes of the LEDs, and its state changes stroke by stroke: shift, alt
    and ctrl are tracked, lock keys toggle the LEDs, every other pressed key
    is translated and sent, and 'pause' is one key. *)
Theorem keyboard_interrupt (D : Type) `{ScanDevice D} ss k d k' ls fuel :
  Forall stroke_ok ss -> between k -> pending d = strokes_bytes ss ->
  kb_strokes ss k = Ok (k', ls) -> (length (pending d) + 2 * length ls < fuel)%nat ->
  exists d' n, irqHandlerInternal fuel k d = Ok (set_acks (acks k' - Z.of_nat n) k', d') /\
    pending d' = [] /\ (n <= 2 * length ls)%nat /\ between k'.
Proof.
  intros Hs Hb Hp Hk Hf.
  assert (between k') as Hb'.
  { clear Hp Hf. revert k ls Hb Hk. induction Hs as [|s ss Hs _ IH]; intros k ls Hb Hk; simpl in Hk; [by injection Hk as <- _|].
    destruct (stroke_step s k) as [[k1 l1]|] eqn:E1; [|done]. cbn [mbind res_bind] in Hk.
    destruct (kb_strokes ss k1) as [[k2 l2]|] eqn:E2; [|done]. cbn [mbind res_bind mret res_ret] in Hk. injection Hk as <- _.
    apply (IH k1 l2); [by eapply stroke_step_between|done]. }
  rewrite <- (kb_strokes_bytes ss k Hs Hb) in Hk.
  destruct (handler_bytes (strokes_bytes ss) fuel 0 k d k' ls) as (d' & n & E & Hp' & Hn).
  - by rewrite app_nil_r.
  - done.
  - rewrite Hp in Hf. lia.
  - exists d', n. split_and!; done || lia.
Qed.

(** ** Typing text *)
Definition all_codes : list Z := Z.of_nat <$> seq 0 128.
Definition types (sh : bool) (c x : Z) : bool :=
  match scan_key false c with Some key => translate_key sh false false false key =? x | None => false end.

(** the key, with shift or without, for a character *)
Definition key_for (x : Z) : option (bool * Z) :=
  match list_find (fun c => types false c x = true) all_codes with
  | Some (_, c) => Some (false, c)
  | None => match list_find (fun c => types true c x = true) all_codes with
            | Some (_, c) => Some (true, c)
            | None => None
            end
  end.

Definition left_shift : Z := 0x12.
Definition type_char (x : Z) : list stroke :=
  match key_for x with
  | Some (false, c) => [Press false c; Release false c]
  | Some (true, c) => [Press false left_shift; Press false c; Release false c; Release false left_shift]
  | None => []
  end.

Definition printable (x : Z) : Prop := 0x20 <= x <= 0x7e.
Definition typist (led acks : Z) (q : list Z) : kb := mkKb false false false false led acks 0 q.

Lemma type_char_table l :
  l ∈ [0; 1; 2; 3] ->
  Forall (fun x => forall a q, kb_bytes (strokes_bytes (type_char x)) (typist l a q) = Ok (typist l a (q ++ [x]), []))
    (Z.of_nat <$> seq 0x20 95).
Proof.
  intros Hl. rewrite !elem_of_cons, elem_of_nil in Hl. unfold typist.
  destruct Hl as [->|[->|[->|[->|[]]]]]; cbn [seq fmap list_fmap Z.of_nat Pos.of_succ_nat Pos.succ];
    repeat (apply List.Forall_cons; [intros a q; vm_compute; reflexivity|]); apply List.Forall_nil.
Qed.

Lemma type_char_ok x l a q : printable x -> l ∈ [0; 1; 2; 3] ->
  kb_bytes (strokes_bytes (type_char x)) (typist l a q) = Ok (typist l a (q ++ [x]), []).
Proof.
  intros Hx Hl. pose proof (type_char_table l Hl) as Ht. rewrite Forall_forall in Ht. apply Ht.
  apply list_elem_of_fmap. exists (Z.to_nat x). unfold printable in Hx. split; [lia|]. apply elem_of_seq. lia.
Qed.

(** C20. Typing: for every text of printable ASCII characters there is a
    sequence of keys, pressed with or without shift, whose scan codes the
    handler turns back into the text, whatever the state of num lock and
    scroll lock. *)
Theorem keyboard_typing text l a q :
  Forall printable text -> l ∈ [0; 1; 2; 3] ->
  kb_bytes (strokes_bytes (concat (type_char <$> text))) (typist l a q) = Ok (typist l a (q ++ text), []).
Proof.
  intros Ht Hl. revert q. induction Ht as [|x text Hx _ IH]; intros q; simpl.
  - by rewrite app_nil_r.
  - unfold strokes_bytes. rewrite fmap_app, concat_app, kb_bytes_app.
    fold (strokes_bytes (type_char x)). rewrite type_char_ok by done. cbn [mbind res_bind].
    fold (strokes_bytes (concat (type_char <$> text))). rewrite IH. cbn [mbind res_bind mret res_ret].
    by rewrite <- app_assoc.
Qed.

Lemma keyboard_typing_witness :
  Forall printable [ch "H"; ch "i"; ch "!"] /\
  kb_bytes (strokes_bytes (concat (type_char <$> [ch "H"; ch "i"; ch "!"]))) kb_new =
    Ok (mkKb false false false false 0 0 0 [ch "H"; ch "i"; ch "!"], []).
Proof.
  assert (Forall printable [ch "H"; ch "i"; ch "!"]) as Hp.
  { repeat (apply List.Forall_cons; [split; vm_compute; discriminate|]). apply List.Forall_nil. }
  split; [exact Hp|]. apply (keyboard_typing _ 0 0 []); [exact Hp|left].
Defined.

(** a keyboard that acknowledges at once; the state is the bytes that it has
    sent and that are not read yet *)
#[export] Instance eager_keyboard : PortIO (list Z) := {
  port_in w p d := if p =? StatusRegister then (match d with [] => 0 | _ => 1 end, d)
                   else match d with b :: l => (wrap 8 b, l) | [] => (0, []) end;
  port_out w p v d := if p =? DataPort then d ++ [ERR_ACK] else d }.

#[export, refine] Instance eager_keyboard_scan : ScanDevice (list Z) := {| pending := fmap (wrap 8) |}.
Proof.
  - intros [|b l]; eexists _, _; (split; [reflexivity|]); repeat split; done.
  - intros [|b' l'] b l E; [done|]. injection E as <- <-. eexists. split; [reflexivity|]. split; [apply wrap_bounds; lia|done].
  - intros d v. exists true. simpl. by rewrite fmap_app.
Defined.

(** shift, 'a', caps lock, 'b', pause *)
Lemma keyboard_interrupt_witness :
  let ss := [Press false left_shift; Press false 0x1c; Release false 0x1c; Release false left_shift;
             Press false 0x58; Release false 0x58; Press false 0x32; Release false 0x32; PauseKey] in
  exists d' n, irqHandlerInternal 30 kb_new (strokes_bytes ss) =
    Ok (set_acks (2 - Z.of_nat n) (mkKb false false false false 4 2 0 [ch "A"; ch "B"; KEY_PAUSE]), d') /\ d' = [].
Proof.
  intros ss.
  destruct (keyboard_interrupt (list Z) ss kb_new (strokes_bytes ss)
    (mkKb false false false false 4 2 0 [ch "A"; ch "B"; KEY_PAUSE]) [4] 30) as (d' & n & E & Hp & _).
  - repeat (apply List.Forall_cons; [vm_compute; (exact I || (eexists; reflexivity))|]). apply List.Forall_nil.
  - split; reflexivity.
  - vm_compute. reflexivity.
  - vm_compute. reflexivity.
  - vm_compute. lia.
  - exists d', n. split; [exact E|]. destruct d'; [reflexivity|discriminate Hp].
Defined.

(** ** Bytes that the handler cannot handle *)
(** the make code 0x83 of F7 trips the assertion *)
Lemma F7_asserts k : kb_byte scanCodeSet 0x83 k = Err AssertFailed.
Proof. reflexivity. Qed.

(** the codes that are translated to an XT code without a row in the table *)
Definition no_row (c : Z) : bool :=
  match lookupZ tableATtoXT c with
  | Some x => match lookupZ tableXTtoKey x with Some _ => false | None => true end
  | None => true
  end.

Lemma codes_without_row : List.filter no_row all_codes =
  [0x00; 0x08; 0x0f; 0x10; 0x13; 0x17; 0x18; 0x19; 0x1f; 0x20; 0x27; 0x28; 0x2f; 0x30; 0x37; 0x38; 0x39; 0x3f; 0x40;
   0x47; 0x48; 0x4f; 0x50; 0x51; 0x53; 0x56; 0x57; 0x5c; 0x5e; 0x5f; 0x62; 0x63; 0x64; 0x65; 0x67; 0x68; 0x6a; 0x6d;
   0x6e; 0x6f].
Proof. vm_compute. reflexivity. Qed.

Lemma codes_without_row_fault c k : between k -> 0 <= c < 0x80 -> no_row c = true ->
  kb_byte scanCodeSet c k = Err OutOfBounds.
Proof.
  intros [He Hb] Hc Hr. unfold kb_byte, ERR_ACK.
  destruct (Z.eqb_spec c 0xE0); [lia|]. destruct (Z.eqb_spec c 0xE1); [lia|]. destruct (Z.eqb_spec c 0xFA); [lia|].
  unfold kb_scan. change (scanCodeSet =? 1) with false. cbv iota. destruct (Z.eqb_spec c 0xf0); [lia|].
  destruct (Z.leb_spec 0 c), (Z.ltb_spec c 0x80); try lia. cbn [andb kassert mbind res_bind]. unfold no_row in Hr.
  destruct (lookupZ_is_Some tableATtoXT c) as [x Hx]; [exact (conj H H0)|]. rewrite Hx in *.
  cbn [in_bounds mbind res_bind mret res_ret]. unfold kb_key. rewrite He. cbn. by destruct (lookupZ tableXTtoKey x).
Qed.
