(* ===== verification/Descriptors.v ===== *)
(** * Descriptors: machine/Descriptors.h and the tables of machine/Processor.cc

    C structures of bit fields, laid out from the least significant bit, as an
    interface [BitStruct]; the descriptors of the processor's tables are
    instances.  Then the GDT that [Processor::init] sets up. *)
From Stdlib Require Import ZArith Lia Bool.
From stdpp Require Import base tactics option numbers list.
From S2P Require Import Prelude Bitmanip.

(** ** Bit fields *)
Fixpoint pack (ws vs : list Z) : Z :=
  match ws, vs with
  | w :: ws, v :: vs => wrap w v + 2 ^ w * pack ws vs
  | _, _ => 0
  end.

Fixpoint unpack (ws : list Z) (x : Z) : list Z :=
  match ws with
  | [] => []
  | w :: ws => wrap w x :: unpack ws (Z.shiftr x w)
  end.

Fixpoint total (ws : list Z) : Z := match ws with [] => 0 | w :: ws => w + total ws end.

Lemma widths_nonneg ws : Forall (fun w => 0 <= w) ws -> 0 <= total ws.
Proof. induction 1; simpl; lia. Qed.

Lemma pack_bound ws vs : Forall (fun w => 0 <= w) ws -> 0 <= pack ws vs < 2 ^ total ws.
Proof.
  intros Hw. revert vs. induction Hw as [|w ws Hw Hws IH]; intros vs; simpl; [lia|].
  pose proof (widths_nonneg ws Hws). rewrite Z.pow_add_r by lia.
  destruct vs as [|v vs]; [lia|]. pose proof (wrap_bounds w v Hw). specialize (IH vs). nia.
Qed.

Lemma unpack_pack ws vs : Forall2 is_word ws vs -> Forall (fun w => 0 <= w) ws -> unpack ws (pack ws vs) = vs.
Proof.
  induction 1 as [|w v ws vs Hv _ IH]; intros Hw; [done|]. apply Forall_cons in Hw as [Hw Hws]. simpl.
  rewrite (wrap_small w v Hv). assert (0 < 2 ^ w) by (apply Z.pow_pos_nonneg; lia). f_equal.
  - unfold wrap. rewrite Z.mul_comm, Z_mod_plus_full. by apply Z.mod_small.
  - rewrite Z.shiftr_div_pow2 by done. rewrite Z.mul_comm, Z.div_add by lia. rewrite Z.div_small by done. by apply IH.
Qed.

Lemma pack_unpack ws x : Forall (fun w => 0 <= w) ws -> 0 <= x < 2 ^ total ws -> pack ws (unpack ws x) = x.
Proof.
  intros Hw. revert x. induction Hw as [|w ws Hw Hws IH]; intros x Hx; simpl in *; [lia|].
  pose proof (widths_nonneg ws Hws). rewrite Z.pow_add_r in Hx by lia. assert (0 < 2 ^ w) by (apply Z.pow_pos_nonneg; lia).
  unfold wrap at 1. rewrite Z.shiftr_div_pow2 by done. rewrite IH.
  - unfold wrap. rewrite Z.mod_mod by lia. pose proof (Z.div_mod x (2 ^ w)). lia.
  - split; [apply Z.div_pos; lia|]. apply Z.div_lt_upper_bound; lia.
Qed.

Lemma length_unpack ws x : length (unpack ws x) = length ws.
Proof. revert x. induction ws; intros; simpl; auto. Qed.

Class BitStruct (A : Type) := {
  st_layout : list Z;                  (* widths, from bit 0 *)
  st_fields : A -> list Z;
  st_make : list Z -> option A
}.
Arguments st_layout A {_}.

Class BitStructLaws (A : Type) `{BitStruct A} := {
  st_widths : Forall (fun w => 0 <= w) (st_layout A);
  st_length a : length (st_fields a) = length (st_layout A);
  st_make_fields a : st_make (st_fields a) = Some a;
  st_fields_make l : length l = length (st_layout A) -> exists a, st_make l = Some a /\ st_fields a = l
}.

Ltac bit_struct :=
  constructor;
  [ repeat (apply List.Forall_cons; [lia|]); apply List.Forall_nil
  | reflexivity
  | by intros []
  | let H := fresh in intros l H; do 20 (try (destruct l as [|? l]; [try discriminate H|try discriminate H]));
    eexists; split; reflexivity ].

Section bitstruct.
Context {A : Type} `{BitStruct A}.

Definition encode (a : A) : Z := pack (st_layout A) (st_fields a).
Definition decode (x : Z) : option A := st_make (unpack (st_layout A) x).
(** every field fits into its width *)
Definition fits (a : A) : Prop := Forall2 is_word (st_layout A) (st_fields a).

Lemma decode_encode `{!BitStructLaws A} a : fits a -> decode (encode a) = Some a.
Proof. intros Ha. unfold decode, encode. rewrite unpack_pack; [apply st_make_fields|done|apply st_widths]. Qed.

Lemma encode_decode `{!BitStructLaws A} x : 0 <= x < 2 ^ total (st_layout A) -> exists a, decode x = Some a /\ encode a = x.
Proof.
  intros Hx. destruct (st_fields_make (unpack (st_layout A) x)) as (a & Ha & Hf); [apply length_unpack|].
  exists a. split; [done|]. unfold encode. rewrite Hf. apply pack_unpack; [apply st_widths|done].
Qed.

Lemma encode_bound `{!BitStructLaws A} a : 0 <= encode a < 2 ^ total (st_layout A).
Proof. apply pack_bound, st_widths. Qed.
End bitstruct.

(** ** The descriptors *)
(** SegmentSelector: see Intel Vol. 3, Section 3.4.2 *)
Record SegmentSelector := mkSegmentSelector {
  ss_RPL : Z; ss_TI : Z; ss_index : Z }.

#[export] Instance SegmentSelector_bits : BitStruct SegmentSelector := {
  st_layout := [2; 1; 13];
  st_fields d := [ss_RPL d; ss_TI d; ss_index d];
  st_make l := match l with [x0; x1; x2] => Some (mkSegmentSelector x0 x1 x2) | _ => None end }.
#[export] Instance SegmentSelector_laws : BitStructLaws SegmentSelector.
Proof. bit_struct. Qed.

(** SegmentDescriptor: basic code and data descriptor of the GDT *)
Record SegmentDescriptor := mkSegmentDescriptor {
  sd_Limit00 : Z; sd_Base00 : Z; sd_Base16 : Z; sd_A : Z; sd_RW : Z; sd_CE : Z; sd_C : Z; sd_S : Z;
  sd_DPL : Z; sd_P : Z; sd_Limit16 : Z; sd_AVL : Z; sd_L : Z; sd_DB : Z; sd_G : Z; sd_Base24 : Z }.

#[export] Instance SegmentDescriptor_bits : BitStruct SegmentDescriptor := {
  st_layout := [16; 16; 8; 1; 1; 1; 1; 1; 2; 1; 4; 1; 1; 1; 1; 8];
  st_fields d := [sd_Limit00 d; sd_Base00 d; sd_Base16 d; sd_A d; sd_RW d; sd_CE d; sd_C d; sd_S d;
    sd_DPL d; sd_P d; sd_Limit16 d; sd_AVL d; sd_L d; sd_DB d; sd_G d; sd_Base24 d];
  st_make l := match l with [x0; x1; x2; x3; x4; x5; x6; x7; x8; x9; x10; x11; x12; x13; x14; x15]
    => Some (mkSegmentDescriptor x0 x1 x2 x3 x4 x5 x6 x7 x8 x9 x10 x11 x12 x13 x14 x15) | _ => None
    end }.
#[export] Instance SegmentDescriptor_laws : BitStructLaws SegmentDescriptor.
Proof. bit_struct. Qed.

(** SystemDescriptor: TSS and LDT descriptor, two entries of the GDT *)
Record SystemDescriptor := mkSystemDescriptor {
  sy_Limit00 : Z; sy_Base00 : Z; sy_Base16 : Z; sy_Type : Z; sy_Zero0 : Z; sy_DPL : Z; sy_P : Z;
  sy_Limit16 : Z; sy_AVL : Z; sy_Reserved0 : Z; sy_G : Z; sy_Base24 : Z; sy_Base32 : Z; sy_Reserved3
  : Z }.

#[export] Instance SystemDescriptor_bits : BitStruct SystemDescriptor := {
  st_layout := [16; 16; 8; 4; 1; 2; 1; 4; 1; 2; 1; 8; 32; 32];
  st_fields d := [sy_Limit00 d; sy_Base00 d; sy_Base16 d; sy_Type d; sy_Zero0 d; sy_DPL d; sy_P d;
    sy_Limit16 d; sy_AVL d; sy_Reserved0 d; sy_G d; sy_Base24 d; sy_Base32 d; sy_Reserved3 d];
  st_make l := match l with [x0; x1; x2; x3; x4; x5; x6; x7; x8; x9; x10; x11; x12; x13] => Some
    (mkSystemDescriptor x0 x1 x2 x3 x4 x5 x6 x7 x8 x9 x10 x11 x12 x13) | _ => None end }.
#[export] Instance SystemDescriptor_laws : BitStructLaws SystemDescriptor.
Proof. bit_struct. Qed.

(** InterruptDescriptor: interrupt gate, an entry of the IDT *)
Record InterruptDescriptor := mkInterruptDescriptor {
  ig_Offset00 : Z; ig_SegmentSelector : Z; ig_IST : Z; ig_Reserved1 : Z; ig_Type : Z; ig_Reserved2 :
  Z; ig_DPL : Z; ig_P : Z; ig_Offset16 : Z; ig_Offset32 : Z; ig_Reserved3 : Z }.

#[export] Instance InterruptDescriptor_bits : BitStruct InterruptDescriptor := {
  st_layout := [16; 16; 3; 5; 4; 1; 2; 1; 16; 32; 32];
  st_fields d := [ig_Offset00 d; ig_SegmentSelector d; ig_IST d; ig_Reserved1 d; ig_Type d;
    ig_Reserved2 d; ig_DPL d; ig_P d; ig_Offset16 d; ig_Offset32 d; ig_Reserved3 d];
  st_make l := match l with [x0; x1; x2; x3; x4; x5; x6; x7; x8; x9; x10] => Some
    (mkInterruptDescriptor x0 x1 x2 x3 x4 x5 x6 x7 x8 x9 x10) | _ => None end }.
#[export] Instance InterruptDescriptor_laws : BitStructLaws InterruptDescriptor.
Proof. bit_struct. Qed.

(** TaskStateSegment: packed; the arrays are spelled out *)
Record TaskStateSegment := mkTaskStateSegment {
  ts_Reserved0 : Z; ts_rsp0 : Z; ts_rsp1 : Z; ts_rsp2 : Z; ts_Reserved1 : Z; ts_ist0 : Z; ts_ist1 :
  Z; ts_ist2 : Z; ts_ist3 : Z; ts_ist4 : Z; ts_ist5 : Z; ts_ist6 : Z; ts_Reserved2 : Z; ts_Reserved3
  : Z; ts_ioMapBase : Z }.

#[export] Instance TaskStateSegment_bits : BitStruct TaskStateSegment := {
  st_layout := [32; 64; 64; 64; 64; 64; 64; 64; 64; 64; 64; 64; 64; 16; 16];
  st_fields d := [ts_Reserved0 d; ts_rsp0 d; ts_rsp1 d; ts_rsp2 d; ts_Reserved1 d; ts_ist0 d;
    ts_ist1 d; ts_ist2 d; ts_ist3 d; ts_ist4 d; ts_ist5 d; ts_ist6 d; ts_Reserved2 d; ts_Reserved3
    d; ts_ioMapBase d];
  st_make l := match l with [x0; x1; x2; x3; x4; x5; x6; x7; x8; x9; x10; x11; x12; x13; x14] =>
    Some (mkTaskStateSegment x0 x1 x2 x3 x4 x5 x6 x7 x8 x9 x10 x11 x12 x13 x14) | _ => None end }.
#[export] Instance TaskStateSegment_laws : BitStructLaws TaskStateSegment.
Proof. bit_struct. Qed.

(** PerfEvent: machine/CPU.h, performance event selector *)
Record PerfEvent := mkPerfEvent {
  pv_EventSelect : Z; pv_UnitMask : Z; pv_UserMode : Z; pv_OSMode : Z; pv_EdgeDetect : Z;
  pv_PinControl : Z; pv_ApicIntrEnable : Z; pv_Reserved0 : Z; pv_EnableCounters : Z;
  pv_InvertCounterMask : Z; pv_CounterMask : Z; pv_Reserved1 : Z }.

#[export] Instance PerfEvent_bits : BitStruct PerfEvent := {
  st_layout := [8; 8; 1; 1; 1; 1; 1; 1; 1; 1; 8; 32];
  st_fields d := [pv_EventSelect d; pv_UnitMask d; pv_UserMode d; pv_OSMode d; pv_EdgeDetect d;
    pv_PinControl d; pv_ApicIntrEnable d; pv_Reserved0 d; pv_EnableCounters d; pv_InvertCounterMask
    d; pv_CounterMask d; pv_Reserved1 d];
  st_make l := match l with [x0; x1; x2; x3; x4; x5; x6; x7; x8; x9; x10; x11] => Some (mkPerfEvent
    x0 x1 x2 x3 x4 x5 x6 x7 x8 x9 x10 x11) | _ => None end }.
#[export] Instance PerfEvent_laws : BitStructLaws PerfEvent.
Proof. bit_struct. Qed.

(** PerfEvent(es, um), a static object: the other fields are zero *)
Definition perf_event (es um : Z) : PerfEvent := mkPerfEvent es um 0 0 0 0 0 0 0 0 0 0.

Definition UnhaltedCoreCycles : PerfEvent := perf_event 0x3C 0x00.
Definition InstructionRetired : PerfEvent := perf_event 0xC0 0x00.
Definition UnhaltedReferenceCycles : PerfEvent := perf_event 0x3C 0x01.
Definition LLC_Reference : PerfEvent := perf_event 0x2E 0x4F.
Definition LLC_Misses : PerfEvent := perf_event 0x2E 0x41.
Definition BranchInstructionRetired : PerfEvent := perf_event 0xC4 0x00.
Definition BranchMissRetired : PerfEvent := perf_event 0xC5 0x00.

(** Bit-field structures: for each of the descriptors of the processor,
    and every structure with the interface, writing a structure whose fields
    fit into their widths and reading it back gives the same fields, and every
    memory word is the layout of the structure that is read from it. *)
Theorem bitstruct_roundtrip (A : Type) `{BitStructLaws A} :
  (forall a : A, fits a -> decode (encode a) = Some a) /\
  (forall x, 0 <= x < 2 ^ total (st_layout A) -> exists a : A, decode x = Some a /\ encode a = x).
Proof. split; [apply decode_encode|apply encode_decode]. Qed.

(** ** The GDT: 8-byte entries *)
Definition kernCS : Z := 1.
Definition kernDS : Z := 2.
Definition userDS : Z := 3.
Definition userCS : Z := 4.
Definition tssSel : Z := 5.
Definition maxGDT : Z := 7.
Definition nmiIST : Z := 1.
Definition dbfIST : Z := 2.
Definition stfIST : Z := 3.

Definition gdt_empty : list Z := replicate (Z.to_nat maxGDT) 0.

Definition setupGDT (number dpl : Z) (code : bool) (gdt : list Z) : res (list Z) :=
  kassert (number <? maxGDT);;
  kassert (dpl <? 4);;
  w ← in_bounds (lookupZ gdt number);
  d ← in_bounds (decode w);
  let d := mkSegmentDescriptor (sd_Limit00 d) (sd_Base00 d) (sd_Base16 d) (sd_A d) 1 (sd_CE d) (if code then 1 else 0) 1
             dpl 1 (sd_Limit16 d) (sd_AVL d) 1 (sd_DB d) (sd_G d) (sd_Base24 d) in
  mret (insertZ number (encode d) gdt).

Definition setupTSS (number address : Z) (gdt : list Z) : res (list Z) :=
  lo ← in_bounds (lookupZ gdt number);
  hi ← in_bounds (lookupZ gdt (number + 1));
  d ← in_bounds (decode (lo + 2 ^ 64 * hi));
  let d := mkSystemDescriptor 0xffff (Z.land address 0xFFFF) (Z.shiftr (Z.land address 0xFF0000) 16) 0x9 (sy_Zero0 d)
             (sy_DPL d) 1 (sy_Limit16 d) (sy_AVL d) (sy_Reserved0 d) (sy_G d)
             (Z.shiftr (Z.land address 0xFF000000) 24) (Z.shiftr (Z.land address 0xFFFFFFFF00000000) 32) (sy_Reserved3 d) in
  mret (insertZ (number + 1) (Z.shiftr (encode d) 64) (insertZ number (wrap 64 (encode d)) gdt)).

(** the part of [Processor::init] that fills the GDT *)
Definition gdt_init4 : res (list Z) :=
  gdt ← setupGDT kernCS 0 true gdt_empty;
  gdt ← setupGDT kernDS 0 false gdt;
  gdt ← setupGDT userDS 3 false gdt;
  setupGDT userCS 3 true gdt.
Definition gdt_init (tss : Z) : res (list Z) := gdt ← gdt_init4; setupTSS tssSel tss gdt.

(** MSR SYSCALL_STAR, and the selectors that the processor makes of it for
    [syscall] and for a 64-bit [sysret] *)
Definition syscall_star : Z := 0x0013000800000000.
Definition syscall_cs (star : Z) : Z := Z.land (Z.shiftr star 32) 0xfffc.
Definition syscall_ss (star : Z) : Z := Z.land (Z.shiftr star 32) 0xffff + 8.
Definition sysret_cs (star : Z) : Z := Z.lor (Z.land (Z.shiftr star 48) 0xffff + 16) 3.
Definition sysret_ss (star : Z) : Z := Z.lor (Z.land (Z.shiftr star 48) 0xffff + 8) 3.

Definition selector_of (idx rpl : Z) : SegmentSelector := mkSegmentSelector rpl 0 idx.

Lemma star_selectors :
  syscall_cs syscall_star = encode (selector_of kernCS 0) /\ syscall_ss syscall_star = encode (selector_of kernDS 0) /\
  sysret_cs syscall_star = encode (selector_of userCS 3) /\ sysret_ss syscall_star = encode (selector_of userDS 3).
Proof. repeat split; reflexivity. Qed.

(** what the processor reads from an entry *)
Definition code_segment (dpl w : Z) : Prop :=
  exists d : SegmentDescriptor, decode w = Some d /\ sd_P d = 1 /\ sd_S d = 1 /\ sd_C d = 1 /\ sd_L d = 1 /\ sd_DB d = 0 /\ sd_DPL d = dpl.
Definition data_segment (dpl w : Z) : Prop :=
  exists d : SegmentDescriptor, decode w = Some d /\ sd_P d = 1 /\ sd_S d = 1 /\ sd_C d = 0 /\ sd_RW d = 1 /\ sd_DPL d = dpl.
Definition tss_base (d : SystemDescriptor) : Z :=
  sy_Base00 d + 2 ^ 16 * sy_Base16 d + 2 ^ 24 * sy_Base24 d + 2 ^ 32 * sy_Base32 d.

Lemma land_field x m s k : 0 <= s -> 0 <= k -> m = Z.ones k * 2 ^ s -> Z.shiftr (Z.land x m) s = (x / 2 ^ s) mod 2 ^ k.
Proof.
  intros Hs Hk ->. rewrite Z.shiftr_land, <- Z.shiftl_mul_pow2, Z.shiftr_shiftl_l, Z.sub_diag, Z.shiftl_0_r by lia.
  by rewrite Z.land_ones, Z.shiftr_div_pow2 by lia.
Qed.

(** the four entries *)
Definition gdt_kernCS : Z := 0x209a0000000000.
Definition gdt_kernDS : Z := 0x20920000000000.
Definition gdt_userDS : Z := 0x20f20000000000.
Definition gdt_userCS : Z := 0x20fa0000000000.

Lemma gdt_kernCS_ok : code_segment 0 gdt_kernCS.
Proof. exists (mkSegmentDescriptor 0 0 0 0 1 0 1 1 0 1 0 0 1 0 0 0). by vm_compute. Qed.
Lemma gdt_kernDS_ok : data_segment 0 gdt_kernDS.
Proof. exists (mkSegmentDescriptor 0 0 0 0 1 0 0 1 0 1 0 0 1 0 0 0). by vm_compute. Qed.
Lemma gdt_userDS_ok : data_segment 3 gdt_userDS.
Proof. exists (mkSegmentDescriptor 0 0 0 0 1 0 0 1 3 1 0 0 1 0 0 0). by vm_compute. Qed.
Lemma gdt_userCS_ok : code_segment 3 gdt_userCS.
Proof. exists (mkSegmentDescriptor 0 0 0 0 1 0 1 1 3 1 0 0 1 0 0 0). by vm_compute. Qed.

Lemma gdt_segments : gdt_init4 = Ok [0; gdt_kernCS; gdt_kernDS; gdt_userDS; gdt_userCS; 0; 0].
Proof. vm_compute. reflexivity. Qed.

Lemma gdt_init_spec tss : is_word 64 tss ->
  exists k1 k2 k3 k4 lo hi, gdt_init tss = Ok [0; k1; k2; k3; k4; lo; hi] /\
    code_segment 0 k1 /\ data_segment 0 k2 /\ data_segment 3 k3 /\ code_segment 3 k4 /\
    exists d, decode (lo + 2 ^ 64 * hi) = Some d /\ tss_base d = tss /\ sy_P d = 1 /\ sy_Type d = 9.
Proof.
  intros Ht.
  set (d := mkSystemDescriptor 0xffff (Z.land tss 0xFFFF) (Z.shiftr (Z.land tss 0xFF0000) 16) 0x9 0 0 1 0 0 0 0
              (Z.shiftr (Z.land tss 0xFF000000) 24) (Z.shiftr (Z.land tss 0xFFFFFFFF00000000) 32) 0).
  assert (Z.land tss 0xFFFF = tss mod 2 ^ 16) as E0 by (change 0xFFFF with (Z.ones 16); by rewrite Z.land_ones by lia).
  assert (Z.shiftr (Z.land tss 0xFF0000) 16 = (tss / 2 ^ 16) mod 2 ^ 8) as E1 by (by apply land_field).
  assert (Z.shiftr (Z.land tss 0xFF000000) 24 = (tss / 2 ^ 24) mod 2 ^ 8) as E2 by (by apply land_field).
  assert (Z.shiftr (Z.land tss 0xFFFFFFFF00000000) 32 = (tss / 2 ^ 32) mod 2 ^ 32) as E3 by (by apply land_field).
  exists gdt_kernCS, gdt_kernDS, gdt_userDS, gdt_userCS, (wrap 64 (encode d)), (Z.shiftr (encode d) 64).
  split; [|split; [|split; [|split; [|split]]]]; [|apply gdt_kernCS_ok|apply gdt_kernDS_ok|apply gdt_userDS_ok|apply gdt_userCS_ok|].
  - unfold gdt_init. rewrite gdt_segments. cbn [mbind res_bind]. unfold setupTSS.
    assert (decode 0 = Some (mkSystemDescriptor 0 0 0 0 0 0 0 0 0 0 0 0 0 0)) as Hd0 by (vm_compute; reflexivity).
    change (lookupZ _ tssSel) with (Some 0). change (lookupZ _ (tssSel + 1)) with (Some 0). cbn [in_bounds mbind res_bind].
    change (0 + 2 ^ 64 * 0) with 0. rewrite Hd0. cbn [in_bounds mbind res_bind mret res_ret sy_Zero0 sy_DPL sy_Limit16 sy_AVL sy_Reserved0 sy_G sy_Reserved3].
    fold d. done.
  - exists d. split; [|split; [|done]].
    + rewrite Z.shiftr_div_pow2 by lia. unfold wrap. rewrite Z.add_comm, <- Z.div_mod by lia. apply decode_encode.
      unfold fits. subst d. cbn [st_layout st_fields SystemDescriptor_bits sy_Limit00 sy_Base00 sy_Base16 sy_Type sy_Zero0 sy_DPL sy_P
        sy_Limit16 sy_AVL sy_Reserved0 sy_G sy_Base24 sy_Base32 sy_Reserved3]. rewrite E0, E1, E2, E3.
      repeat (apply List.Forall2_cons; [first [apply Z.mod_pos_bound; lia|unfold is_word; lia]|]). apply List.Forall2_nil.
    + unfold tss_base, d. cbn [sy_Base00 sy_Base16 sy_Base24 sy_Base32]. rewrite E0, E1, E2, E3.
      unfold is_word in Ht. clear - Ht. Z.to_euclidean_division_equations. lia.
Qed.

Lemma bitstruct_roundtrip_witness : fits (selector_of userCS 3) /\ decode (encode (selector_of userCS 3)) = Some (selector_of userCS 3).
Proof.
  assert (fits (selector_of userCS 3)) as Hf.
  { repeat (apply List.Forall2_cons; [unfold is_word, userCS; simpl; lia|]). apply List.Forall2_nil. }
  split; [exact Hf|]. exact (proj1 (bitstruct_roundtrip SegmentSelector) _ Hf).
Defined.
