(* ===== verification/Interrupts.v ===== *)
(** * Interrupts: machine/Machine.cc, machine/isr_wrapper.S

    The interrupt descriptor table, the entry of interrupts and exceptions,
    the routing of external interrupts (irqTable, IOAPIC) and their
    asynchronous handling: [irq_handler_async] records an interrupt in
    [irqMask], the RTC handler wakes the IRQ thread and [asyncIrqLoop] runs
    the registered handlers.  The addresses of the assembly wrappers and the
    IOAPIC chips, by physical address, are parameters; [mapIrq] maps the chip's page
    for the access, so its registers are those of the chip at that address. *)
From Stdlib Require Import ZArith Lia Bool List.
From stdpp Require Import base tactics option numbers list relations.
From S2P Require Import Prelude Bitmanip Memory Bitmap Ports Descriptors Apic Paging AddressSpace.

(** ** The IDT: 16-byte entries *)
Definition maxIDT : Z := 256.
Definition kernCS_selector : Z := kernCS * 8.

Definition setupIDT (number address ist : Z) (idt : list Z) : res (list Z) :=
  kassert (number <? maxIDT);;
  w ← in_bounds (lookupZ idt number);
  d ← in_bounds (decode w);
  let d := mkInterruptDescriptor (Z.land address 0xFFFF) kernCS_selector ist (ig_Reserved1 d) 0x0E (ig_Reserved2 d)
             (ig_DPL d) 1 (Z.shiftr (Z.land address 0xFFFF0000) 16) (Z.shiftr (Z.land address 0xFFFFFFFF00000000) 32)
             (ig_Reserved3 d) in
  mret (insertZ number (encode d) idt).

(** the calls of [setupIDTable]: number, wrapper, stack *)
Definition idt_arch : list (Z * Z * Z) := [
  (0x00, 0x00, 0); (0x01, 0x01, 0); (0x02, 0x02, nmiIST); (0x03, 0x03, 0); (0x04, 0x04, 0); (0x05, 0x05, 0);
  (0x06, 0x06, 0); (0x07, 0x07, 0); (0x08, 0x08, dbfIST); (0x09, 0x09, 0); (0x0a, 0x0a, 0); (0x0b, 0x0b, 0);
  (0x0c, 0x0c, stfIST); (0x0d, 0x0d, 0); (0x0e, 0x0e, 0); (0x0f, 0x0f, 0); (0x10, 0x10, 0); (0x11, 0x11, 0);
  (0x12, 0x12, 0); (0x13, 0x13, 0); (0x14, 0x14, 0); (0x15, 0x15, 0); (0x16, 0x16, 0); (0x17, 0x17, 0);
  (0x18, 0x18, 0); (0x19, 0x19, 0); (0x1a, 0x1a, 0); (0x1b, 0x1b, 0); (0x1c, 0x1c, 0); (0x1d, 0x1d, 0);
  (0x1e, 0x1e, 0); (0x1f, 0x1f, 0)
].

Definition idt_irq1 : list (Z * Z * Z) := [
  (0x20, 0x20, 0); (0x21, 0x21, 0); (0x22, 0x22, 0); (0x23, 0x23, 0); (0x24, 0x24, 0); (0x25, 0x25, 0);
  (0x26, 0x26, 0); (0x27, 0x27, 0); (0x28, 0x28, 0); (0x29, 0x29, 0); (0x2a, 0x2a, 0); (0x2b, 0x2b, 0);
  (0x2c, 0x2c, 0); (0x2d, 0x2d, 0); (0x2e, 0x2e, 0); (0x2f, 0x2f, 0); (0x30, 0x30, 0); (0x31, 0x31, 0);
  (0x32, 0x32, 0); (0x33, 0x33, 0); (0x34, 0x34, 0); (0x35, 0x35, 0); (0x36, 0x36, 0); (0x37, 0x37, 0);
  (0x38, 0x38, 0); (0x39, 0x39, 0); (0x3a, 0x3a, 0); (0x3b, 0x3b, 0); (0x3c, 0x3c, 0); (0x3d, 0x3d, 0);
  (0x3e, 0x3e, 0); (0x3f, 0x3f, 0); (0x40, 0x40, 0); (0x41, 0x41, 0); (0x42, 0x42, 0); (0x43, 0x43, 0);
  (0x44, 0x44, 0); (0x45, 0x45, 0); (0x46, 0x46, 0); (0x47, 0x47, 0); (0x48, 0x48, 0); (0x49, 0x49, 0);
  (0x4a, 0x4a, 0); (0x4b, 0x4b, 0); (0x4c, 0x4c, 0); (0x4d, 0x4d, 0); (0x4e, 0x4e, 0); (0x4f, 0x4f, 0);
  (0x50, 0x50, 0); (0x51, 0x51, 0); (0x52, 0x52, 0); (0x53, 0x53, 0); (0x54, 0x54, 0); (0x55, 0x55, 0);
  (0x56, 0x56, 0); (0x57, 0x57, 0); (0x58, 0x58, 0); (0x59, 0x59, 0); (0x5a, 0x5a, 0); (0x5b, 0x5b, 0);
  (0x5c, 0x5c, 0); (0x5d, 0x5d, 0); (0x5e, 0x5e, 0); (0x5f, 0x5f, 0); (0x60, 0x60, 0); (0x61, 0x61, 0);
  (0x62, 0x62, 0); (0x63, 0x63, 0); (0x64, 0x64, 0); (0x65, 0x65, 0); (0x66, 0x66, 0); (0x67, 0x67, 0);
  (0x68, 0x68, 0); (0x69, 0x69, 0); (0x6a, 0x6a, 0); (0x6b, 0x6b, 0); (0x6c, 0x6c, 0); (0x6d, 0x6d, 0);
  (0x6e, 0x6e, 0); (0x6f, 0x6f, 0); (0x70, 0x70, 0); (0x71, 0x71, 0); (0x72, 0x72, 0); (0x73, 0x73, 0);
  (0x74, 0x74, 0); (0x75, 0x75, 0); (0x76, 0x76, 0); (0x77, 0x77, 0); (0x78, 0x78, 0); (0x79, 0x79, 0);
  (0x7a, 0x7a, 0); (0x7b, 0x7b, 0); (0x7c, 0x7c, 0); (0x7d, 0x7d, 0); (0x7e, 0x7e, 0); (0x7f, 0x7f, 0);
  (0x80, 0x80, 0); (0x81, 0x81, 0); (0x82, 0x82, 0); (0x83, 0x83, 0); (0x84, 0x84, 0); (0x85, 0x85, 0);
  (0x86, 0x86, 0); (0x87, 0x87, 0); (0x88, 0x88, 0); (0x89, 0x89, 0); (0x8a, 0x8a, 0); (0x8b, 0x8b, 0);
  (0x8c, 0x8c, 0); (0x8d, 0x8d, 0); (0x8e, 0x8e, 0); (0x8f, 0x8f, 0)
].

Definition idt_irq2 : list (Z * Z * Z) := [
  (0x90, 0x90, 0); (0x91, 0x91, 0); (0x92, 0x92, 0); (0x93, 0x93, 0); (0x94, 0x94, 0); (0x95, 0x95, 0);
  (0x96, 0x96, 0); (0x97, 0x97, 0); (0x98, 0x98, 0); (0x99, 0x99, 0); (0x9a, 0x9a, 0); (0x9b, 0x9b, 0);
  (0x9c, 0x9c, 0); (0x9d, 0x9d, 0); (0x9e, 0x9e, 0); (0x9f, 0x9f, 0); (0xa0, 0xa0, 0); (0xa1, 0xa1, 0);
  (0xa2, 0xa2, 0); (0xa3, 0xa3, 0); (0xa4, 0xa4, 0); (0xa5, 0xa5, 0); (0xa6, 0xa6, 0); (0xa7, 0xa7, 0);
  (0xa8, 0xa8, 0); (0xa9, 0xa9, 0); (0xaa, 0xaa, 0); (0xab, 0xab, 0); (0xac, 0xac, 0); (0xad, 0xad, 0);
  (0xae, 0xae, 0); (0xaf, 0xaf, 0); (0xb0, 0xb0, 0); (0xb1, 0xb1, 0); (0xb2, 0xb2, 0); (0xb3, 0xb3, 0);
  (0xb4, 0xb4, 0); (0xb5, 0xb5, 0); (0xb6, 0xb6, 0); (0xb7, 0xb7, 0); (0xb8, 0xb8, 0); (0xb9, 0xb9, 0);
  (0xba, 0xba, 0); (0xbb, 0xbb, 0); (0xbc, 0xbc, 0); (0xbd, 0xbd, 0); (0xbe, 0xbe, 0); (0xbf, 0xbf, 0);
  (0xc0, 0xc0, 0); (0xc1, 0xc1, 0); (0xc2, 0xc2, 0); (0xc3, 0xc3, 0); (0xc4, 0xc4, 0); (0xc5, 0xc5, 0);
  (0xc6, 0xc6, 0); (0xc7, 0xc7, 0); (0xc8, 0xc8, 0); (0xc9, 0xc9, 0); (0xca, 0xca, 0); (0xcb, 0xcb, 0);
  (0xcc, 0xcc, 0); (0xcd, 0xcd, 0); (0xce, 0xce, 0); (0xcf, 0xcf, 0); (0xd0, 0xd0, 0); (0xd1, 0xd1, 0);
  (0xd2, 0xd2, 0); (0xd3, 0xd3, 0); (0xd4, 0xd4, 0); (0xd5, 0xd5, 0); (0xd6, 0xd6, 0); (0xd7, 0xd7, 0);
  (0xd8, 0xd8, 0); (0xd9, 0xd9, 0); (0xda, 0xda, 0); (0xdb, 0xdb, 0); (0xdc, 0xdc, 0); (0xdd, 0xdd, 0);
  (0xde, 0xde, 0); (0xdf, 0xdf, 0); (0xe0, 0xe0, 0); (0xe1, 0xe1, 0); (0xe2, 0xe2, 0); (0xe3, 0xe3, 0);
  (0xe4, 0xe4, 0); (0xe5, 0xe5, 0); (0xe6, 0xe6, 0); (0xe7, 0xe7, 0); (0xe8, 0xe8, 0); (0xe9, 0xe9, 0);
  (0xea, 0xea, 0); (0xeb, 0xeb, 0); (0xec, 0xec, 0); (0xed, 0xed, 0); (0xee, 0xee, 0); (0xef, 0xef, 0);
  (0xf0, 0xf0, 0); (0xf1, 0xf1, 0); (0xf2, 0xf2, 0); (0xf3, 0xf3, 0); (0xf4, 0xf4, 0); (0xf5, 0xf5, 0);
  (0xf6, 0xf6, 0); (0xf7, 0xf7, 0); (0xf8, 0xf8, 0); (0xf9, 0xf9, 0); (0xfa, 0xfa, 0); (0xfb, 0xfb, 0);
  (0xfc, 0xfc, 0); (0xfd, 0xfd, 0); (0xfe, 0xfe, 0); (0xff, 0xff, 0)
].

Fixpoint setup_all (isr_wrapper : Z -> Z) (l : list (Z * Z * Z)) (idt : list Z) : res (list Z) :=
  match l with
  | [] => mret idt
  | (number, wr, ist) :: l => idt ← setupIDT number (isr_wrapper wr) ist idt; setup_all isr_wrapper l idt
  end.

Definition idt_zero : list Z := replicate (Z.to_nat maxIDT) 0.

Definition setupIDTable (isr_wrapper : Z -> Z) : res (list Z) :=
  setup_all isr_wrapper (idt_arch ++ idt_irq1 ++ idt_irq2) idt_zero.

(** ** What the wrappers call *)
Inductive isr_kind := Ex | ExErr | ExUnd | Async | Direct.

Definition isr_wrappers1 : list (Z * isr_kind) := [
  (0x00, Ex); (0x01, Ex); (0x02, Ex); (0x03, Ex); (0x04, Ex); (0x05, Ex); (0x06, Ex); (0x07, Ex);
  (0x08, ExErr); (0x09, Ex); (0x0a, ExErr); (0x0b, ExErr); (0x0c, ExErr); (0x0d, ExErr); (0x0e, ExErr); (0x0f, ExUnd);
  (0x10, Ex); (0x11, ExErr); (0x12, Ex); (0x13, Ex); (0x14, Ex); (0x15, ExUnd); (0x16, ExUnd); (0x17, ExUnd);
  (0x18, ExUnd); (0x19, ExUnd); (0x1a, ExUnd); (0x1b, ExUnd); (0x1c, ExUnd); (0x1d, ExUnd); (0x1e, ExUnd); (0x1f, ExUnd);
  (0x20, Async); (0x21, Async); (0x22, Async); (0x23, Async); (0x24, Async); (0x25, Async); (0x26, Async); (0x27, Async);
  (0x28, Async); (0x29, Async); (0x2a, Async); (0x2b, Async); (0x2c, Async); (0x2d, Async); (0x2e, Async); (0x2f, Async);
  (0x30, Async); (0x31, Async); (0x32, Async); (0x33, Async); (0x34, Async); (0x35, Async); (0x36, Async); (0x37, Async);
  (0x38, Async); (0x39, Async); (0x3a, Async); (0x3b, Async); (0x3c, Async); (0x3d, Async); (0x3e, Async); (0x3f, Async);
  (0x40, Async); (0x41, Async); (0x42, Async); (0x43, Async); (0x44, Async); (0x45, Async); (0x46, Async); (0x47, Async);
  (0x48, Async); (0x49, Async); (0x4a, Async); (0x4b, Async); (0x4c, Async); (0x4d, Async); (0x4e, Async); (0x4f, Async);
  (0x50, Async); (0x51, Async); (0x52, Async); (0x53, Async); (0x54, Async); (0x55, Async); (0x56, Async); (0x57, Async);
  (0x58, Async); (0x59, Async); (0x5a, Async); (0x5b, Async); (0x5c, Async); (0x5d, Async); (0x5e, Async); (0x5f, Async);
  (0x60, Async); (0x61, Async); (0x62, Async); (0x63, Async); (0x64, Async); (0x65, Async); (0x66, Async); (0x67, Async);
  (0x68, Async); (0x69, Async); (0x6a, Async); (0x6b, Async); (0x6c, Async); (0x6d, Async); (0x6e, Async); (0x6f, Async);
  (0x70, Async); (0x71, Async); (0x72, Async); (0x73, Async); (0x74, Async); (0x75, Async); (0x76, Async); (0x77, Async);
  (0x78, Async); (0x79, Async); (0x7a, Async); (0x7b, Async); (0x7c, Async); (0x7d, Async); (0x7e, Async); (0x7f, Async);
  (0x80, Async); (0x81, Async); (0x82, Async); (0x83, Async); (0x84, Async); (0x85, Async); (0x86, Async); (0x87, Async);
  (0x88, Async); (0x89, Async); (0x8a, Async); (0x8b, Async); (0x8c, Async); (0x8d, Async); (0x8e, Async); (0x8f, Async)
].

Definition isr_wrappers2 : list (Z * isr_kind) := [
  (0x90, Async); (0x91, Async); (0x92, Async); (0x93, Async); (0x94, Async); (0x95, Async); (0x96, Async); (0x97, Async);
  (0x98, Async); (0x99, Async); (0x9a, Async); (0x9b, Async); (0x9c, Async); (0x9d, Async); (0x9e, Async); (0x9f, Async);
  (0xa0, Async); (0xa1, Async); (0xa2, Async); (0xa3, Async); (0xa4, Async); (0xa5, Async); (0xa6, Async); (0xa7, Async);
  (0xa8, Async); (0xa9, Async); (0xaa, Async); (0xab, Async); (0xac, Async); (0xad, Async); (0xae, Async); (0xaf, Async);
  (0xb0, Async); (0xb1, Async); (0xb2, Async); (0xb3, Async); (0xb4, Async); (0xb5, Async); (0xb6, Async); (0xb7, Async);
  (0xb8, Async); (0xb9, Async); (0xba, Async); (0xbb, Async); (0xbc, Async); (0xbd, Async); (0xbe, Async); (0xbf, Async);
  (0xc0, Async); (0xc1, Async); (0xc2, Async); (0xc3, Async); (0xc4, Async); (0xc5, Async); (0xc6, Async); (0xc7, Async);
  (0xc8, Async); (0xc9, Async); (0xca, Async); (0xcb, Async); (0xcc, Async); (0xcd, Async); (0xce, Async); (0xcf, Async);
  (0xd0, Async); (0xd1, Async); (0xd2, Async); (0xd3, Async); (0xd4, Async); (0xd5, Async); (0xd6, Async); (0xd7, Async);
  (0xd8, Async); (0xd9, Async); (0xda, Async); (0xdb, Async); (0xdc, Async); (0xdd, Async); (0xde, Async); (0xdf, Async);
  (0xe0, Direct); (0xe1, ExUnd); (0xe2, ExUnd); (0xe3, ExUnd); (0xe4, ExUnd); (0xe5, ExUnd); (0xe6, ExUnd); (0xe7, ExUnd);
  (0xe8, ExUnd); (0xe9, ExUnd); (0xea, ExUnd); (0xeb, ExUnd); (0xec, ExUnd); (0xed, Direct); (0xee, Direct); (0xef, Direct);
  (0xf0, Direct); (0xf1, Direct); (0xf2, ExUnd); (0xf3, ExUnd); (0xf4, ExUnd); (0xf5, ExUnd); (0xf6, ExUnd); (0xf7, Direct);
  (0xf8, Direct); (0xf9, Direct); (0xfa, ExUnd); (0xfb, ExUnd); (0xfc, Direct); (0xfd, ExUnd); (0xfe, ExUnd); (0xff, Direct)
].

Fixpoint isr_lookup (v : Z) (l : list (Z * isr_kind)) : option isr_kind :=
  match l with
  | [] => None
  | (n, k) :: l => if v =? n then Some k else isr_lookup v l
  end.

Inductive handler_call :=
  | Exception (vec : Z) (errcode : bool)      (* exception_handler_<vec>, exception_handler_errcode_<vec> *)
  | Undefined (vec : Z)                       (* exception_handler_undefined *)
  | AsyncIrq (idx : Z)                        (* irq_handler_async *)
  | DirectIrq (vec : Z).                      (* irq_handler_<vec> *)

#[export] Instance handler_call_eq_dec : EqDecision handler_call.
Proof. solve_decision. Defined.

Definition dispatch (v : Z) : option handler_call :=
  match isr_lookup v (isr_wrappers1 ++ isr_wrappers2) with
  | Some Ex => Some (Exception v false)
  | Some ExErr => Some (Exception v true)
  | Some ExUnd => Some (Undefined v)
  | Some Async => Some (AsyncIrq (v - 0x20))
  | Some Direct => Some (DirectIrq v)
  | None => None
  end.

(** ** IsrEntry *)
Record isr_frame := mkFrame { fr_rip : Z; fr_cs : Z; fr_rflags : Z; fr_rsp : Z; fr_ss : Z }.

(** the processor in a handler: whether the kernel's gs base is active, the
    lock count, EOIs sent, the stack pointer for the next entry from user
    mode (the current thread), and user memory *)
Record icpu := mkIcpu { kernel_gs : bool; lockCount : Z; eois : Z; kernel_stack : Z; umem : Z -> Z }.

Definition fromUser (f : isr_frame) : bool := negb (fr_cs f =? kernCS_selector).
Definition SwapGS (c : icpu) : icpu := mkIcpu (negb (kernel_gs c)) (lockCount c) (eois c) (kernel_stack c) (umem c).

Definition isr_enter (irq : bool) (f : isr_frame) (c : icpu) : icpu :=
  let c := if irq then mkIcpu (kernel_gs c) (lockCount c) (eois c + 1) (kernel_stack c) (umem c) else c in
  let c := if fromUser f then SwapGS c else c in
  mkIcpu (kernel_gs c) (lockCount c + 1) (eois c) (kernel_stack c) (umem c).

Definition mem_store (a v : Z) (m : Z -> Z) : Z -> Z := fun b => if b =? a then v else m b.

(** [sighandler]: the process's signal handler, 0 if there is none *)
Definition checkSignals (sighandler : Z) (f : isr_frame) (c : icpu) : isr_frame * icpu :=
  if sighandler =? 0 then (f, c)
  else
    let sp := (fr_rsp f - 8)%w in
    let m := mem_store sp (fr_rip f) (umem c) in
    let sp := (sp - 8)%w in
    let m := mem_store sp 0xdeadbeef m in
    (mkFrame sighandler (fr_cs f) (fr_rflags f) sp (fr_ss f), mkIcpu (kernel_gs c) (lockCount c) (eois c) (kernel_stack c) m).

Definition isr_exit (sighandler currThread : Z) (f : isr_frame) (c : icpu) : isr_frame * icpu :=
  let c := mkIcpu (kernel_gs c) (lockCount c - 1) (eois c) (kernel_stack c) (umem c) in
  if fromUser f then
    let '(f, c) := checkSignals sighandler f c in
    (f, SwapGS (mkIcpu (kernel_gs c) (lockCount c) (eois c) currThread (umem c)))
  else (f, c).

(** ** Exceptions

    All but the page fault print a message and reboot. *)
Definition exception_handlers : list (Z * bool) :=
  [(0x00, false); (0x01, false); (0x02, false); (0x03, false); (0x04, false); (0x05, false); (0x06, false); (0x07, false);
   (0x08, true); (0x09, false); (0x0a, true); (0x0b, true); (0x0c, true); (0x0d, true)].
Definition exception_handlers2 : list (Z * bool) :=
  [(0x10, false); (0x11, true); (0x12, false); (0x13, false); (0x14, false)].

Section faults.
Context {F : Type} `{FrameSource F}.

(** [da]: the faulting address (cr2), [ec]: the error code *)
Definition page_fault_handler (from_user : bool) (da ec : Z) (s : pstate F) : res (pstate F) :=
  '(done, s) ← (if (userbot <=? da) && (da <? usertop) then pagefault da ec s else mret (false, s));
  if (done : bool) then mret s
  else
    '(done, s) ← (if (paging_start <=? da) && (da <? paging_end)
                  then kassert (negb from_user);; tablefault da ec s else mret (false, s));
    if (done : bool) then mret s else Err Aborted.

Definition exception_handler (vec : Z) (from_user : bool) (da ec : Z) (s : pstate F) : res (pstate F) :=
  if vec =? 0x0e then page_fault_handler from_user da ec s else Err Aborted.
End faults.

(** ** External interrupts *)
Definition MaxIrqCount : Z := 192.

Record irqinfo := mkIrq {
  ii_ioApicAddr : Z; ii_ioApicIrq : Z; ii_globalIrq : Z; ii_overrideFlags : Z;
  ii_handlers : list (Z * Z) }.                       (* function, context *)

(** the first loop of [setupIDTable] *)
Definition irqTable_init : list irqinfo :=
  (fun i => mkIrq 0 0 (Z.of_nat i) 0 []) <$> seq 0 (Z.to_nat MaxIrqCount).

Definition set_handlers (hs : list (Z * Z)) (i : irqinfo) : irqinfo :=
  mkIrq (ii_ioApicAddr i) (ii_ioApicIrq i) (ii_globalIrq i) (ii_overrideFlags i) hs.

Section irqs.
Context {D : Type} `{MMIO D}.

Record irqsys := mkIrqs { irqTable : list irqinfo; chips : Z -> D }.

(** run a driver of the IOAPIC on the chip at [addr] *)
Definition with_chip {A} (addr : Z) (prog : io D A) (s : irqsys) : res (A * irqsys) :=
  '(a, d) ← prog (chips s addr);
  mret (a, mkIrqs (irqTable s) (fun b => if b =? addr then d else chips s b)).

(** the loops of [initBSP] over the IOAPICs: base number and address; the
    overrides: interrupt, global interrupt and flags *)
Fixpoint probe_pins (n : nat) (x : Z) (base addr : Z) (overrides : list (Z * (Z * Z))) (s : irqsys) : res irqsys :=
  match n with
  | O => mret s
  | S n =>
      '(_, s) ← with_chip addr (maskIRQ x) s;
      let irqnum := base + x in
      kassert (irqnum <? MaxIrqCount);;
      i ← in_bounds (lookupZ (irqTable s) irqnum);
      let i' := match list_find (fun o => o.1 = irqnum) overrides with
                | Some (_, (_, (g, flags))) => mkIrq addr (wrap 8 x) (wrap 8 g) flags (ii_handlers i)
                | None => mkIrq addr (wrap 8 x) (wrap 8 irqnum) (ii_overrideFlags i) (ii_handlers i)
                end in
      probe_pins n (x + 1) base addr overrides (mkIrqs (insertZ irqnum i' (irqTable s)) (chips s))
  end.

Fixpoint probe_ioapics (l : list (Z * Z)) (overrides : list (Z * (Z * Z))) (s : irqsys) : res irqsys :=
  match l with
  | [] => mret s
  | (base, addr) :: l =>
      '(r, s) ← with_chip addr getRedirects s;
      s ← probe_pins (Z.to_nat (r + 1)) 0 base addr overrides s;
      probe_ioapics l overrides s
  end.

Definition mapIrq (bspApicID irq vector : Z) (s : irqsys) : res irqsys :=
  i ← in_bounds (lookupZ (irqTable s) irq);
  let irqmod := ii_globalIrq i in
  j ← in_bounds (lookupZ (irqTable s) irqmod);
  '(_, s) ← with_chip (ii_ioApicAddr j)
    (if negb (vector =? 0) then mapIRQ (ii_ioApicIrq j) (wrap 8 vector) (negb (bspApicID =? 0)) false
     else maskIRQ (ii_ioApicIrq j)) s;
  mret s.

Definition registerIrqSync (bspApicID irq vector : Z) (s : irqsys) : res irqsys :=
  i ← in_bounds (lookupZ (irqTable s) irq);
  kassert (bool_decide (ii_handlers i = []));;
  mapIrq bspApicID irq vector s.

Definition registerIrqAsync (bspApicID irq handler ctx : Z) (s : irqsys) : res irqsys :=
  let vector := irq + 0x20 in
  i ← in_bounds (lookupZ (irqTable s) irq);
  s ← (if bool_decide (ii_handlers i = []) then mapIrq bspApicID irq vector s else mret s);
  mret (mkIrqs (insertZ irq (set_handlers (ii_handlers i ++ [(handler, ctx)]) i) (irqTable s)) (chips s)).

(** the first entry of the handler is erased *)
Fixpoint erase_handler (handler : Z) (hs : list (Z * Z)) : list (Z * Z) :=
  match hs with
  | [] => []
  | h :: hs => if h.1 =? handler then hs else h :: erase_handler handler hs
  end.

Definition deregisterIrqAsync (bspApicID irq handler : Z) (s : irqsys) : res irqsys :=
  i ← in_bounds (lookupZ (irqTable s) irq);
  let hs := erase_handler handler (ii_handlers i) in
  let s := mkIrqs (insertZ irq (set_handlers hs i) (irqTable s)) (chips s) in
  if bool_decide (hs = []) then mapIrq bspApicID irq 0 s else mret s.
End irqs.
Arguments irqsys : clear implicits.

(** ** Asynchronous handling

    [asyncIrqSem] is the counter of the semaphore (Semaphore in SyncObjects.v);
    [calls] are the calls of registered handlers.  [irqMask] changes by
    atomic bit operations; the scan of [find] stands for its last read, since
    between its reads bits are only added.  [table] does not change: handlers
    are registered before the interrupts that they handle. *)
Inductive async_phase :=
  | AWaiting                       (* asyncIrqSem.P() *)
  | AScanning                      (* irqMask.find() *)
  | AFound (idx : Z)               (* irqMask.clr<true>(idx) *)
  | AHandling (hs : list (Z * Z)). (* the loop over the handlers *)

Record async_state := mkAsync { irqMask : bitmap; asyncIrqSem : Z; phase : async_phase; calls : list (Z * Z) }.

Definition async_init : async_state := mkAsync (bm_fill MaxIrqCount 0) 0 AWaiting [].

Definition irq_handler_async (idx : Z) (s : async_state) : res async_state :=
  m ← bm_set idx (irqMask s); mret (mkAsync m (asyncIrqSem s) (phase s) (calls s)).

(** the part of [irq_handler_0xf8] that wakes the IRQ thread *)
Definition rtc_wake (s : async_state) : async_state :=
  if negb (bm_empty MaxIrqCount (irqMask s)) then mkAsync (irqMask s) (asyncIrqSem s + 1) (phase s) (calls s) else s.

Section async.
Context (table : Z -> list (Z * Z)).

(** a step of [asyncIrqLoop]; [None]: the thread is blocked *)
Definition async_step (s : async_state) : res (option async_state) :=
  match phase s with
  | AWaiting => if 0 <? asyncIrqSem s then mret (Some (mkAsync (irqMask s) (asyncIrqSem s - 1) AScanning (calls s))) else mret None
  | AScanning =>
      idx ← bm_find MaxIrqCount true 0 (irqMask s);
      mret (Some (mkAsync (irqMask s) (asyncIrqSem s) (if MaxIrqCount <=? idx then AWaiting else AFound idx) (calls s)))
  | AFound idx =>
      m ← bm_clr idx (irqMask s);
      mret (Some (mkAsync m (asyncIrqSem s) (AHandling (table idx)) (calls s)))
  | AHandling [] => mret (Some (mkAsync (irqMask s) (asyncIrqSem s) AScanning (calls s)))
  | AHandling (h :: hs) => mret (Some (mkAsync (irqMask s) (asyncIrqSem s) (AHandling hs) (calls s ++ [h])))
  end.

Inductive irq_step : async_state -> async_state -> Prop :=
  | irq_arrives s s' idx : 0 <= idx < MaxIrqCount -> irq_handler_async idx s = Ok s' -> irq_step s s'
  | irq_rtc s : irq_step s (rtc_wake s)
  | irq_thread s s' : async_step s = Ok (Some s') -> irq_step s s'.

(** the IRQ thread alone *)
Inductive thread_runs : async_state -> async_state -> Prop :=
  | tr_refl s : thread_runs s s
  | tr_step s s1 s2 : async_step s = Ok (Some s1) -> thread_runs s1 s2 -> thread_runs s s2.

Definition pending_irqs (m : bitmap) : list Z :=
  filter (fun i => wbit m i = true) (Z.of_nat <$> seq 0 (Z.to_nat MaxIrqCount)).

Definition async_inv (s : async_state) : Prop :=
  bm_wf MaxIrqCount (irqMask s) /\ 0 <= asyncIrqSem s /\
  match phase s with AFound i => 0 <= i < MaxIrqCount /\ wbit (irqMask s) i = true | _ => True end.

Lemma N192 : bm_N MaxIrqCount = 3.
Proof. reflexivity. Qed.

Lemma mask_pos : 0 < bm_N MaxIrqCount.
Proof. by rewrite N192. Qed.
Lemma mask_small : 64 * bm_N MaxIrqCount < 2 ^ 64.
Proof. by rewrite N192. Qed.

Lemma find_first m : bm_wf MaxIrqCount m ->
  exists r, bm_find MaxIrqCount true 0 m = Ok r /\ first_from (matches true m) 0 MaxIrqCount r.
Proof. intros Hm. apply (bm_find_first MaxIrqCount mask_small true 0 m Hm). by rewrite N192. Qed.

Lemma async_inv_step s s' : async_inv s -> irq_step s s' -> async_inv s'.
Proof.
  intros (Hm & Hs & Hp) Hst. destruct Hst as [s s' idx Hi E|s|s s' E].
  - unfold irq_handler_async in E. destruct (bm_set_spec MaxIrqCount idx (irqMask s) Hm) as (m & Em & Hm' & Hb); [by rewrite N192|].
    rewrite Em in E. cbn [mbind res_bind mret res_ret] in E. injection E as <-. split; [done|]. split; [done|]. simpl.
    destruct (phase s) as [| |i|]; try done. destruct Hp as [Hi' Hw]. split; [done|]. rewrite Hb by (by rewrite N192).
    rewrite Hw. by rewrite orb_true_r.
  - unfold rtc_wake. destruct (negb _); [|done]. split; [done|]. split; [simpl; lia|done].
  - unfold async_step in E. destruct (phase s) as [| |i|[|h hs]] eqn:Ep.
    + destruct (Z.ltb_spec 0 (asyncIrqSem s)); [|done]. injection E as <-. split; [done|]. split; [simpl; lia|done].
    + destruct (find_first _ Hm) as (r & Er & Hr). rewrite Er in E. cbn [mbind res_bind mret res_ret] in E. injection E as <-.
      split; [done|]. split; [done|]. simpl. destruct (Z.leb_spec MaxIrqCount r); [done|].
      destruct Hr as (Hr1 & _ & Hr3). split; [lia|]. specialize (Hr3 ltac:(lia)). unfold matches in Hr3. by destruct (wbit (irqMask s) r).
    + destruct (bm_clr_spec MaxIrqCount i (irqMask s) Hm) as (m & Em & Hm' & Hb); [by rewrite N192; destruct Hp|].
      rewrite Em in E. cbn [mbind res_bind mret res_ret] in E. injection E as <-. done.
    + injection E as <-. done.
    + injection E as <-. done.
Qed.

Lemma async_reach s : rtc irq_step async_init s -> async_inv s.
Proof.
  intros Hr. enough (async_inv async_init) as H0.
  { revert H0. induction Hr as [|x y z Hs _ IH]; intros H0; [done|]. apply IH. by eapply async_inv_step. }
  split; [|split; [done|done]]. split; [reflexivity|]. change (irqMask async_init) with [0; 0; 0].
  repeat (apply List.Forall_cons; [unfold is_word; lia|]). apply List.Forall_nil.
Qed.

Lemma async_never_fails s : async_inv s -> exists o, async_step s = Ok o.
Proof.
  intros (Hm & Hs & Hp). unfold async_step. destruct (phase s) as [| |i|[|h hs]]; try (by eexists).
  - destruct (0 <? asyncIrqSem s); by eexists.
  - destruct (find_first _ Hm) as (r & -> & _). by eexists.
  - destruct (bm_clr_spec MaxIrqCount i (irqMask s) Hm) as (m & -> & _); [by rewrite N192; destruct Hp|]. by eexists.
Qed.
End async.

Section async_live.
Context (table : Z -> list (Z * Z)).
Abbreviation step := (async_step table).
Abbreviation runs := (thread_runs table).

Lemma runs_trans s1 s2 s3 : runs s1 s2 -> runs s2 s3 -> runs s1 s3.
Proof. induction 1; [done|]. intros. econstructor; eauto. Qed.

Lemma run_handlers hs m k cs : runs (mkAsync m k (AHandling hs) cs) (mkAsync m k AScanning (cs ++ hs)).
Proof.
  revert cs. induction hs as [|h hs IH]; intros cs.
  - rewrite app_nil_r. eapply tr_step; [reflexivity|apply tr_refl].
  - eapply tr_step; [reflexivity|]. replace (cs ++ h :: hs) with ((cs ++ [h]) ++ hs) by (by rewrite <- app_assoc). apply IH.
Qed.

Lemma pending_elem m i : i ∈ pending_irqs m <-> 0 <= i < MaxIrqCount /\ wbit m i = true.
Proof.
  unfold pending_irqs. rewrite list_elem_of_filter, list_elem_of_fmap. split.
  - intros (Hb & j & -> & Hj). apply elem_of_seq in Hj. unfold MaxIrqCount in *. split; [lia|done].
  - intros [Hi Hb]. split; [done|]. exists (Z.to_nat i). split; [lia|]. apply elem_of_seq. unfold MaxIrqCount in *. lia.
Qed.

Lemma filter_none {A} (P : A -> Prop) `{!forall x, Decision (P x)} (l : list A) : (forall x, x ∈ l -> ~ P x) -> filter P l = [].
Proof.
  induction l as [|x l IH]; intros Hl; [done|]. rewrite filter_cons_False by (apply Hl; left). apply IH. intros y Hy. apply Hl. by right.
Qed.
Lemma filter_iff_in {A} (P Q : A -> Prop) `{!forall x, Decision (P x), !forall x, Decision (Q x)} (l : list A) :
  (forall x, x ∈ l -> P x <-> Q x) -> filter P l = filter Q l.
Proof.
  induction l as [|x l IH]; intros Hl; [done|]. pose proof (Hl x ltac:(left)). rewrite !filter_cons, IH by (intros y Hy; apply Hl; by right).
  repeat case_decide; tauto.
Qed.

Lemma zseq_split a n i : (a <= i < a + n)%nat ->
  Z.of_nat <$> seq a n = (Z.of_nat <$> seq a (i - a)) ++ Z.of_nat i :: (Z.of_nat <$> seq (S i) (a + n - S i)).
Proof.
  intros Hi. replace n with ((i - a) + S (a + n - S i))%nat at 1 by lia. rewrite seq_app, fmap_app. f_equal.
  replace (a + (i - a))%nat with i by lia. done.
Qed.

(** clearing the first pending interrupt *)
Lemma pending_first m m' i :
  0 <= i < MaxIrqCount -> wbit m i = true -> (forall j, 0 <= j < i -> wbit m j = false) ->
  (forall j, 0 <= j < MaxIrqCount -> wbit m' j = negb (j =? i) && wbit m j) ->
  pending_irqs m = i :: pending_irqs m'.
Proof.
  intros Hi Hb Hlt Hm'. unfold pending_irqs. unfold MaxIrqCount in *.
  rewrite (zseq_split 0 (Z.to_nat 192) (Z.to_nat i)) by lia. rewrite !filter_app, !filter_cons.
  rewrite !Z2Nat.id by lia. rewrite decide_True by done.
  rewrite (decide_False (P := wbit m' i = true)) by (rewrite Hm' by lia; by rewrite Z.eqb_refl).
  rewrite (filter_none _ (Z.of_nat <$> seq 0 _)).
  2:{ intros x (j & -> & Hj)%list_elem_of_fmap. apply elem_of_seq in Hj. rewrite Hlt by lia. done. }
  rewrite (filter_none (fun x => wbit m' x = true) (Z.of_nat <$> seq 0 _)).
  2:{ intros x (j & -> & Hj)%list_elem_of_fmap. apply elem_of_seq in Hj. rewrite Hm' by lia. rewrite Hlt by lia. by rewrite andb_false_r. }
  simpl. f_equal. apply filter_iff_in. intros x (j & -> & Hj)%list_elem_of_fmap. apply elem_of_seq in Hj.
  rewrite Hm' by lia. destruct (Z.eqb_spec (Z.of_nat j) i); [lia|]. done.
Qed.

Lemma pending_drop m m' i :
  0 <= i < MaxIrqCount -> (forall j, 0 <= j < MaxIrqCount -> wbit m' j = negb (j =? i) && wbit m j) ->
  pending_irqs m' = filter (fun j => j <> i) (pending_irqs m).
Proof.
  intros Hi Hm'. unfold pending_irqs. rewrite list_filter_filter. apply filter_iff_in.
  intros x (j & -> & Hj)%list_elem_of_fmap. apply elem_of_seq in Hj. rewrite Hm' by (unfold MaxIrqCount in *; lia).
  destruct (Z.eqb_spec (Z.of_nat j) i); simpl; naive_solver.
Qed.

Lemma clear_run m k i cs : bm_wf MaxIrqCount m -> 0 <= i < MaxIrqCount ->
  exists m', bm_wf MaxIrqCount m' /\ (forall j, 0 <= j < MaxIrqCount -> wbit m' j = negb (j =? i) && wbit m j) /\
    runs (mkAsync m k (AFound i) cs) (mkAsync m' k AScanning (cs ++ table i)).
Proof.
  intros Hm Hi. destruct (bm_clr_spec MaxIrqCount i m Hm) as (m' & Em & Hm' & Hb); [by rewrite N192|].
  exists m'. split; [done|]. split; [intros j Hj; apply Hb; by rewrite N192|].
  eapply tr_step; [|apply run_handlers]. unfold async_step. simpl. by rewrite Em.
Qed.

(** the thread empties the mask *)
Lemma scan_drains n m k cs : bm_wf MaxIrqCount m -> length (pending_irqs m) = n ->
  exists m', pending_irqs m' = [] /\
    runs (mkAsync m k AScanning cs) (mkAsync m' k AWaiting (cs ++ concat (table <$> pending_irqs m))).
Proof.
  revert m cs. induction n as [|n IH]; intros m cs Hm Hn; destruct (find_first m Hm) as (r & Er & (Hr1 & Hr2 & Hr3)).
  - apply nil_length_inv in Hn. exists m. split; [done|]. rewrite Hn. simpl. rewrite app_nil_r.
    eapply tr_step; [unfold async_step; simpl; rewrite Er; reflexivity|].
    destruct (Z.leb_spec MaxIrqCount r); [apply tr_refl|]. exfalso. specialize (Hr3 ltac:(lia)).
    assert (r ∈ pending_irqs m) as Hin by (apply pending_elem; split; [lia|]; unfold matches in Hr3; by destruct (wbit m r)).
    rewrite Hn in Hin. by apply elem_of_nil in Hin.
  - destruct (Z.leb_spec MaxIrqCount r) as [Hge|Hlt].
    { exfalso. destruct (pending_irqs m) as [|i l] eqn:E; [done|]. assert (i ∈ pending_irqs m) as Hin by (rewrite E; left).
      apply pending_elem in Hin as [Hi Hb]. specialize (Hr2 i ltac:(lia)). unfold matches in Hr2. by rewrite Hb in Hr2. }
    specialize (Hr3 ltac:(lia)). unfold matches in Hr2, Hr3.
    destruct (clear_run m k r cs Hm) as (m1 & Hm1 & Hb1 & Hrun); [lia|].
    assert (pending_irqs m = r :: pending_irqs m1) as Hp.
    { apply pending_first; try done; [lia|by destruct (wbit m r)|]. intros j Hj. specialize (Hr2 j Hj). by destruct (wbit m j). }
    destruct (IH m1 (cs ++ table r) Hm1) as (m2 & Hp2 & Hrun2); [rewrite Hp in Hn; simpl in Hn; lia|].
    exists m2. split; [done|]. eapply tr_step.
    { unfold async_step. simpl. rewrite Er. cbn [mbind res_bind mret res_ret]. destruct (Z.leb_spec MaxIrqCount r); [lia|]. reflexivity. }
    simpl. eapply runs_trans; [exact Hrun|]. rewrite Hp. simpl. by rewrite app_assoc.
Qed.

(** the calls that a state owes *)
Definition owed (s : async_state) : list (Z * Z) :=
  match phase s with
  | AWaiting | AScanning => concat (table <$> pending_irqs (irqMask s))
  | AFound i => table i ++ concat (table <$> filter (fun j => j <> i) (pending_irqs (irqMask s)))
  | AHandling hs => hs ++ concat (table <$> pending_irqs (irqMask s))
  end.

(** C15. No interrupt is lost: in every state that interrupts, RTC ticks and
    the IRQ thread can reach, the next RTC tick makes the IRQ thread, on its
    own, run to a point where it waits again with no interrupt recorded, and
    on the way it calls the rest of the handlers that it was at and every
    handler of every recorded interrupt exactly once. *)
Theorem async_irqs_handled s :
  rtc (irq_step table) async_init s ->
  exists s', runs (rtc_wake s) s' /\ phase s' = AWaiting /\ pending_irqs (irqMask s') = [] /\ calls s' = calls s ++ owed s.
Proof.
  intros Hr. apply async_reach in Hr as (Hm & Hs & Hp).
  assert (pending_irqs (irqMask s) <> [] -> rtc_wake s = mkAsync (irqMask s) (asyncIrqSem s + 1) (phase s) (calls s)) as Hw.
  { intros Hne. unfold rtc_wake. destruct (bm_empty MaxIrqCount (irqMask s)) eqn:E; [|done]. exfalso. apply Hne.
    pose proof (proj1 (bm_empty_spec MaxIrqCount mask_pos _ Hm) E) as E'. clear E. rename E' into E. apply filter_none. intros x (j & -> & Hj)%list_elem_of_fmap.
    apply elem_of_seq in Hj. rewrite E; [done|]. rewrite N192. unfold MaxIrqCount in *. lia. }
  assert (exists k, rtc_wake s = mkAsync (irqMask s) k (phase s) (calls s) /\ 0 <= k) as (k & Ek & Hk).
  { unfold rtc_wake. destruct (negb _); [by exists (asyncIrqSem s + 1); split; [|lia]|]. exists (asyncIrqSem s). by destruct s. }
  unfold owed. destruct (phase s) as [| |i|hs] eqn:Ep.
  - destruct (decide (pending_irqs (irqMask s) = [])) as [E|Hne].
    { rewrite Ek. eexists. split; [apply tr_refl|]. simpl. rewrite E. simpl. by rewrite app_nil_r. }
    rewrite (Hw Hne). destruct (scan_drains _ (irqMask s) (asyncIrqSem s + 1 - 1) (calls s) Hm eq_refl) as (m' & Hp' & Hrun).
    eexists. split; [eapply tr_step; [|exact Hrun]|done]. unfold async_step. simpl. destruct (Z.ltb_spec 0 (asyncIrqSem s + 1)); [done|lia].
  - destruct (scan_drains _ (irqMask s) k (calls s) Hm eq_refl) as (m' & Hp' & Hrun). rewrite Ek. by eexists.
  - destruct Hp as [Hi Hb]. destruct (clear_run (irqMask s) k i (calls s) Hm Hi) as (m1 & Hm1 & Hb1 & Hrun1).
    destruct (scan_drains _ m1 k (calls s ++ table i) Hm1 eq_refl) as (m' & Hp' & Hrun). rewrite Ek.
    eexists. split; [by eapply runs_trans|]. rewrite <- (pending_drop _ _ _ Hi Hb1). simpl. by rewrite <- app_assoc.
  - destruct (scan_drains _ (irqMask s) k (calls s ++ hs) Hm eq_refl) as (m' & Hp' & Hrun). rewrite Ek.
    eexists. split; [eapply runs_trans; [apply run_handlers|exact Hrun]|]. simpl. by rewrite <- app_assoc.
Qed.
End async_live.

(** interrupts 3 and 70 arrive, the thread runs, 3 arrives again *)
Lemma async_irqs_handled_witness :
  let table i := if i =? 3 then [(100, 0); (101, 0)] else if i =? 70 then [(102, 5)] else [] in
  exists s s', rtc (irq_step table) async_init s /\ thread_runs table (rtc_wake s) s' /\
    phase s' = AWaiting /\ calls s' = [(100, 0); (101, 0); (102, 5)].
Proof.
  intros table. eassert (rtc (irq_step table) async_init _) as Hr.
  { eapply rtc_l; [eapply (irq_arrives _ _ _ 70); [split; done|vm_compute; reflexivity]|].
    eapply rtc_l; [apply irq_rtc|].
    eapply rtc_l; [eapply (irq_arrives _ _ _ 3); [split; done|vm_compute; reflexivity]|].
    apply rtc_refl. }
  destruct (async_irqs_handled table _ Hr) as (s' & Hrun & Hp & _ & Hc).
  eexists _, s'. split; [exact Hr|]. split; [exact Hrun|]. split; [exact Hp|]. rewrite Hc. vm_compute. reflexivity.
Defined.

(** ** The table and the wrappers *)
Definition ist_of (v : Z) : Z := if v =? 2 then nmiIST else if v =? 8 then dbfIST else if v =? 0xc then stfIST else 0.

(** what the processor reads from a gate *)
Definition gate_offset (d : InterruptDescriptor) : Z := ig_Offset00 d + 2 ^ 16 * ig_Offset16 d + 2 ^ 32 * ig_Offset32 d.
Definition gate_ok (w addr ist : Z) : Prop :=
  exists d : InterruptDescriptor, decode w = Some d /\ gate_offset d = addr /\ ig_SegmentSelector d = kernCS_selector /\
    ig_IST d = ist /\ ig_Type d = 0x0E /\ ig_P d = 1 /\ ig_DPL d = 0.

Lemma setupIDT_spec number addr ist idt :
  0 <= number < maxIDT -> lookupZ idt number = Some 0 -> is_word 64 addr -> 0 <= ist < 8 ->
  exists w, setupIDT number addr ist idt = Ok (insertZ number w idt) /\ gate_ok w addr ist.
Proof.
  intros Hn Hl Ha Hi. unfold setupIDT. destruct (Z.ltb_spec number maxIDT); [|lia]. cbn [kassert mbind res_bind]. rewrite Hl.
  cbn [in_bounds mbind res_bind].
  assert (decode 0 = Some (mkInterruptDescriptor 0 0 0 0 0 0 0 0 0 0 0)) as -> by (vm_compute; reflexivity).
  cbn [in_bounds mbind res_bind mret res_ret ig_Reserved1 ig_Reserved2 ig_DPL ig_Reserved3].
  assert (Z.land addr 0xFFFF = addr mod 2 ^ 16) as E0 by (change 0xFFFF with (Z.ones 16); by rewrite Z.land_ones by lia).
  assert (Z.shiftr (Z.land addr 0xFFFF0000) 16 = (addr / 2 ^ 16) mod 2 ^ 16) as E1 by (by apply land_field).
  assert (Z.shiftr (Z.land addr 0xFFFFFFFF00000000) 32 = (addr / 2 ^ 32) mod 2 ^ 32) as E2 by (by apply land_field).
  eexists. split; [reflexivity|]. eexists. split; [apply decode_encode|].
  - unfold fits. cbn [st_layout st_fields InterruptDescriptor_bits ig_Offset00 ig_SegmentSelector ig_IST ig_Reserved1 ig_Type
      ig_Reserved2 ig_DPL ig_P ig_Offset16 ig_Offset32 ig_Reserved3]. rewrite E0, E1, E2.
    repeat (apply List.Forall2_cons; [first [apply Z.mod_pos_bound; lia|unfold is_word, kernCS_selector, kernCS; lia]|]). apply List.Forall2_nil.
  - split; [|done]. unfold gate_offset. cbn [ig_Offset00 ig_Offset16 ig_Offset32]. rewrite E0, E1, E2.
    unfold is_word in Ha. clear - Ha. Z.to_euclidean_division_equations. lia.
Qed.

Lemma setup_all_spec isr_wrapper l : forall idt,
  (forall v, is_word 64 (isr_wrapper v)) -> NoDup l.*1.*1 ->
  (forall n wr ist, (n, wr, ist) ∈ l -> 0 <= n < maxIDT /\ lookupZ idt n = Some 0 /\ 0 <= ist < 8) ->
  exists idt', setup_all isr_wrapper l idt = Ok idt' /\
    (forall n wr ist, (n, wr, ist) ∈ l -> exists w, lookupZ idt' n = Some w /\ gate_ok w (isr_wrapper wr) ist) /\
    (forall n, n ∉ l.*1.*1 -> lookupZ idt' n = lookupZ idt n).
Proof.
  induction l as [|[[n wr] ist] l IH]; intros idt Hw Hnd Hl; simpl.
  { exists idt. split; [done|]. split; [|done]. intros ??? Hin. by apply elem_of_nil in Hin. }
  apply NoDup_cons in Hnd as [Hn Hnd]. destruct (Hl n wr ist ltac:(left)) as (Hb & Hz & Hi).
  destruct (setupIDT_spec n (isr_wrapper wr) ist idt Hb Hz (Hw wr) Hi) as (w & -> & Hg). cbn [mbind res_bind].
  destruct (IH (insertZ n w idt) Hw Hnd) as (idt' & E & Hall & Hout).
  { intros n' wr' ist' Hin. destruct (Hl n' wr' ist' ltac:(by right)) as (? & ? & ?). split; [done|]. split; [|done].
    rewrite lookupZ_insertZ_ne; [done|]. intros ->. apply Hn. by apply (list_elem_of_fmap_2 fst _ (n', wr')), (list_elem_of_fmap_2 fst _ (n', wr', ist')). }
  exists idt'. split; [done|]. split.
  - intros n' wr' ist' [[= -> -> ->]|Hin]%elem_of_cons; [|by apply Hall].
    exists w. split; [|done]. rewrite Hout by done. apply lookupZ_insertZ_eq. by eapply lookupZ_Some.
  - intros m Hm. apply not_elem_of_cons in Hm as [Hne Hm]. rewrite Hout by done. by apply lookupZ_insertZ_ne.
Qed.

Lemma idt_calls : idt_arch ++ idt_irq1 ++ idt_irq2 = (fun i => (Z.of_nat i, Z.of_nat i, ist_of (Z.of_nat i))) <$> seq 0 256.
Proof. vm_compute. reflexivity. Qed.

Lemma idt_numbers (f : nat -> Z) : NoDup ((fst ∘ (fst ∘ (fun i : nat => (Z.of_nat i, Z.of_nat i, f i)))) <$> seq 0 256).
Proof. apply NoDup_fmap; [|apply NoDup_seq]. intros x y Hxy. unfold compose in Hxy. cbn [fst] in Hxy. by apply Nat2Z.inj in Hxy. Qed.

Lemma idt_table isr_wrapper : (forall v, is_word 64 (isr_wrapper v)) ->
  exists idt, setupIDTable isr_wrapper = Ok idt /\
    forall v, 0 <= v < maxIDT -> exists w, lookupZ idt v = Some w /\ gate_ok w (isr_wrapper v) (ist_of v).
Proof.
  intros Hw. unfold setupIDTable. rewrite idt_calls.
  destruct (setup_all_spec isr_wrapper ((fun i => (Z.of_nat i, Z.of_nat i, ist_of (Z.of_nat i))) <$> seq 0 256) idt_zero Hw)
    as (idt & E & Hall & _).
  - rewrite <- !list_fmap_compose. apply (idt_numbers (fun i => ist_of (Z.of_nat i))).
  - intros n wr ist (i & [= -> -> ->] & Hi%elem_of_seq)%list_elem_of_fmap. split; [unfold maxIDT; lia|]. split.
    + unfold lookupZ, idt_zero. destruct (Z.ltb_spec (Z.of_nat i) 0); [lia|]. apply lookup_replicate_2. unfold maxIDT. lia.
    + unfold ist_of, nmiIST, dbfIST, stfIST. repeat case_match; lia.
  - exists idt. split; [done|]. intros v Hv. apply (Hall v v (ist_of v)). apply list_elem_of_fmap. exists (Z.to_nat v).
    rewrite Z2Nat.id by lia. split; [done|]. apply elem_of_seq. unfold maxIDT in Hv. lia.
Qed.

(** vectors of the handlers [irq_handler_<vec>] *)
Definition direct_vectors : list Z := [0xe0; 0xed; 0xee; 0xef; 0xf0; 0xf1; 0xf7; 0xf8; 0xf9; 0xfc; 0xff].
Definition exception_vectors : list (Z * bool) := exception_handlers ++ [(0x0e, true)] ++ exception_handlers2.

Definition expected (v : Z) : handler_call :=
  if (0x20 <=? v) && (v <? 0xe0) then AsyncIrq (v - 0x20)
  else match list_find (fun e : Z * bool => e.1 = v) exception_vectors with
       | Some (_, (_, e)) => Exception v e
       | None => if bool_decide (v ∈ direct_vectors) then DirectIrq v else Undefined v
       end.

Lemma dispatch_expected v : 0 <= v < 256 -> dispatch v = Some (expected v).
Proof.
  intros Hv. assert (forallb (fun i => bool_decide (dispatch (Z.of_nat i) = Some (expected (Z.of_nat i)))) (seq 0 256) = true) as Hall
    by (vm_compute; reflexivity).
  rewrite forallb_forall in Hall. specialize (Hall (Z.to_nat v)). rewrite bool_decide_eq_true, Z2Nat.id in Hall by lia. apply Hall.
  apply in_seq. lia.
Qed.

Lemma expected_async v idx : expected v = AsyncIrq idx -> 0 <= idx < MaxIrqCount /\ v = idx + 0x20.
Proof.
  unfold expected, MaxIrqCount. destruct (Z.leb_spec 0x20 v), (Z.ltb_spec v 0xe0); cbn [andb]; [intros [= <-]; lia|..];
    (destruct (list_find _ _) as [[? [? ?]]|]; [discriminate|]; destruct (bool_decide _); discriminate).
Qed.

(** C17. The vectors: wherever the linker puts the wrappers and the TSS, the
    tables that are set up send each of the 256 vectors to its own wrapper
    through a present interrupt gate into the 64-bit ring-0 code segment of
    the GDT, with separate stacks for NMI, double fault and stack fault only;
    the wrapper calls the exception handler of the vector, with an error code
    exactly where the handler takes one, the direct handler of the vector, or
    [irq_handler_async] with an index below [MaxIrqCount]. *)
Theorem interrupt_vectors isr_wrapper tss :
  (forall v, is_word 64 (isr_wrapper v)) -> is_word 64 tss ->
  exists idt gdt, setupIDTable isr_wrapper = Ok idt /\ gdt_init tss = Ok gdt /\
    (exists k, lookupZ gdt (kernCS_selector / 8) = Some k /\ code_segment 0 k) /\
    forall v, 0 <= v < maxIDT ->
      (exists w, lookupZ idt v = Some w /\ gate_ok w (isr_wrapper v) (ist_of v)) /\ dispatch v = Some (expected v) /\
      match expected v with AsyncIrq idx => 0 <= idx < MaxIrqCount /\ v = idx + 0x20 | _ => True end.
Proof.
  intros Hw Ht. destruct (idt_table isr_wrapper Hw) as (idt & E & Hidt).
  destruct (gdt_init_spec tss Ht) as (k1 & k2 & k3 & k4 & lo & hi & Eg & Hc & _).
  exists idt, [0; k1; k2; k3; k4; lo; hi]. split; [exact E|]. split; [exact Eg|].
  split; [exists k1; split; [reflexivity|exact Hc]|].
  intros v Hv. split; [by apply Hidt|]. split; [by apply dispatch_expected|].
  destruct (expected v) eqn:Ex; try exact I. by apply expected_async.
Qed.

Lemma interrupt_vectors_witness :
  exists idt gdt w, setupIDTable (fun v => 0xffffffff80200000 + 64 * (v mod 256)) = Ok idt /\ gdt_init 0xffff810000001000 = Ok gdt /\
    lookupZ idt 8 = Some w /\ gate_ok w (0xffffffff80200000 + 64 * (8 mod 256)) (ist_of 8).
Proof.
  destruct (interrupt_vectors (fun v => 0xffffffff80200000 + 64 * (v mod 256)) 0xffff810000001000) as (idt & gdt & E1 & E2 & _ & H).
  - intros v. pose proof (Z.mod_pos_bound v 256 ltac:(lia)). unfold is_word. lia.
  - unfold is_word. lia.
  - destruct (H 8) as [[w [Hw Hg]] _]; [unfold maxIDT; lia|]. exists idt, gdt, w.
    split; [exact E1|]. split; [exact E2|]. split; [exact Hw|exact Hg].
Defined.

(** ** Routing *)
Definition redirection_ok (intr : Z) (low level : bool) (e : Z) : bool :=
  (bs_get iof_Vector e =? intr) && (bs_get iof_DeliveryMode e =? dm_LowestPriority) && (bs_get iof_DestinationMode e =? 1) &&
  (bs_get iof_Polarity e =? b2z low) && (bs_get iof_TriggerModeLevel e =? b2z level) && (bs_get iof_Mask e =? 0) &&
  (bs_get iof_DestinationSet e =? 1) && (0 <=? e) && (e <? 2 ^ 64).

Lemma redirection_fields intr low level : 0 <= intr < 256 -> redirection_ok intr low level (redirection intr low level) = true.
Proof.
  intros Hi. assert (forallb (fun n => redirection_ok (Z.of_nat n) low level (redirection (Z.of_nat n) low level)) (seq 0 256) = true) as Hall.
  { destruct low, level; vm_compute; reflexivity. }
  rewrite forallb_forall in Hall. specialize (Hall (Z.to_nat intr)). rewrite Z2Nat.id in Hall by lia. apply Hall. apply in_seq. lia.
Qed.

Section routing.
Context {D : Type} `{IoApicChip D}.

Lemma mapIrq_run bsp irq vector (s : irqsys D) i j :
  lookupZ (irqTable s) irq = Some i -> lookupZ (irqTable s) (ii_globalIrq i) = Some j -> 0 <= ii_ioApicIrq j < 120 ->
  0 <= vector < 256 ->
  exists s', mapIrq bsp irq vector s = Ok s' /\ irqTable s' = irqTable s /\
    redir (chips s' (ii_ioApicAddr j)) (ii_ioApicIrq j) =
      (if vector =? 0 then bs_mask iof_Mask else redirection vector (negb (bsp =? 0)) false) /\
    (forall a p, 0 <= p -> a <> ii_ioApicAddr j \/ p <> ii_ioApicIrq j -> redir (chips s' a) p = redir (chips s a) p).
Proof.
  intros Hi Hj Hp Hv. unfold mapIrq. rewrite Hi. cbn [in_bounds mbind res_bind]. rewrite Hj. cbn [in_bounds mbind res_bind].
  assert (exists d', (if negb (vector =? 0) then mapIRQ (ii_ioApicIrq j) (wrap 8 vector) (negb (bsp =? 0)) false else maskIRQ (ii_ioApicIrq j))
      (chips s (ii_ioApicAddr j)) = Ok (tt, d') /\
    redir d' (ii_ioApicIrq j) = (if vector =? 0 then bs_mask iof_Mask else redirection vector (negb (bsp =? 0)) false) /\
    forall p, 0 <= p -> p <> ii_ioApicIrq j -> redir d' p = redir (chips s (ii_ioApicAddr j)) p) as (d' & E & Hr & Ho).
  { destruct (vector =? 0); cbn [negb].
    - apply entry_write_run; [done|]. vm_compute. split; congruence.
    - rewrite wrap_small by done. apply entry_write_run; [done|].
      pose proof (redirection_fields vector (negb (bsp =? 0)) false Hv) as Hf. unfold redirection_ok in Hf.
      rewrite !andb_true_iff in Hf. destruct Hf as [[_ H1] H2]. unfold is_word. lia. }
  unfold with_chip. rewrite E. cbn [mbind res_bind mret res_ret]. eexists. split; [reflexivity|]. split; [done|]. simpl. split.
  - by rewrite Z.eqb_refl.
  - intros a p Hp0 Hne. destruct (Z.eqb_spec a (ii_ioApicAddr j)) as [->|]; [|done]. apply Ho; [done|]. by destruct Hne.
Qed.

(** Routing of a device interrupt: registering the first handler of an
    interrupt programs the input of the IOAPIC that the tables name for it,
    and nothing else, to deliver the vector whose wrapper records exactly
    that interrupt, and enters the handler in the table; deregistering it
    masks the input again.  The polarity that is programmed depends on the
    APIC ID of the boot processor. *)
Theorem irq_routing bsp irq h ctx (s : irqsys D) i j :
  0 <= irq < MaxIrqCount -> lookupZ (irqTable s) irq = Some i -> lookupZ (irqTable s) (ii_globalIrq i) = Some j ->
  0 <= ii_ioApicIrq j < 120 -> ii_handlers i = [] ->
  exists s', registerIrqAsync bsp irq h ctx s = Ok s' /\
    redirection_ok (irq + 0x20) (negb (bsp =? 0)) false (redir (chips s' (ii_ioApicAddr j)) (ii_ioApicIrq j)) = true /\
    dispatch (irq + 0x20) = Some (AsyncIrq irq) /\
    (forall a p, 0 <= p -> a <> ii_ioApicAddr j \/ p <> ii_ioApicIrq j -> redir (chips s' a) p = redir (chips s a) p) /\
    (forall k, lookupZ (irqTable s') k = if decide (k = irq) then Some (set_handlers [(h, ctx)] i) else lookupZ (irqTable s) k) /\
    exists s'', deregisterIrqAsync bsp irq h s' = Ok s'' /\
      bs_get iof_Mask (redir (chips s'' (ii_ioApicAddr j)) (ii_ioApicIrq j)) = 1 /\
      lookupZ (irqTable s'') irq = Some (set_handlers [] i).
Proof.
  intros Hirq Hi Hj Hp Hh. unfold MaxIrqCount in Hirq. pose proof (lookupZ_Some _ _ _ Hi) as Hb.
  destruct (mapIrq_run bsp irq (irq + 0x20) s i j Hi Hj Hp ltac:(lia)) as (s1 & E1 & Ht1 & Hr1 & Ho1).
  destruct (Z.eqb_spec (irq + 0x20) 0); [lia|].
  set (i' := set_handlers [(h, ctx)] i). set (s' := mkIrqs (insertZ irq i' (irqTable s)) (chips s1)).
  assert (registerIrqAsync bsp irq h ctx s = Ok s') as E.
  { unfold registerIrqAsync. rewrite Hi. cbn [in_bounds mbind res_bind]. rewrite Hh, bool_decide_true by done. rewrite E1.
    cbn [mbind res_bind mret res_ret app]. by rewrite Ht1. }
  assert (forall k, lookupZ (irqTable s') k = if decide (k = irq) then Some i' else lookupZ (irqTable s) k) as Ht.
  { intros k. simpl. case_decide as Hk; [subst k; by apply lookupZ_insertZ_eq|by apply lookupZ_insertZ_ne]. }
  exists s'. split; [exact E|]. split; [simpl; rewrite Hr1; apply redirection_fields; lia|]. split.
  { rewrite dispatch_expected by lia. unfold expected. destruct (Z.leb_spec 0x20 (irq + 0x20)), (Z.ltb_spec (irq + 0x20) 0xe0); try lia.
    cbn [andb]. f_equal. f_equal. lia. }
  split; [exact Ho1|]. split; [exact Ht|].
  set (s2 := mkIrqs (insertZ irq (set_handlers [] i') (irqTable s')) (chips s')).
  assert (exists j2, lookupZ (irqTable s2) (ii_globalIrq i) = Some j2 /\ ii_ioApicAddr j2 = ii_ioApicAddr j /\ ii_ioApicIrq j2 = ii_ioApicIrq j)
    as (j2 & Hj2 & Ea & Ep).
  { simpl. destruct (decide (ii_globalIrq i = irq)) as [Eg|Hne].
    - rewrite Eg, lookupZ_insertZ_eq by (by rewrite lenZ_insertZ). eexists. split; [reflexivity|]. rewrite Eg, Hi in Hj. injection Hj as <-. done.
    - exists j. by rewrite !lookupZ_insertZ_ne by done. }
  destruct (mapIrq_run bsp irq 0 s2 (set_handlers [] i') j2) as (s3 & E3 & Ht3 & Hr3 & _).
  { simpl. apply lookupZ_insertZ_eq. by rewrite lenZ_insertZ. } { exact Hj2. } { by rewrite Ep. } { lia. }
  exists s3. split; [|split].
  - unfold deregisterIrqAsync. rewrite Ht, decide_True by done. cbn [in_bounds mbind res_bind]. unfold i' at 1 2 3. cbn [ii_handlers set_handlers erase_handler fst].
    rewrite Z.eqb_refl, bool_decide_true by done. exact E3.
  - rewrite <- Ea, <- Ep, Hr3. reflexivity.
  - rewrite Ht3. simpl. rewrite lookupZ_insertZ_eq by (by rewrite lenZ_insertZ). done.
Qed.
End routing.

(** a chip: the selected register and the register file *)
#[export] Instance chip_mmio : MMIO (Z * (Z -> Z)) := {
  mm_in off d := if off =? ioapic_Window then (d.2 d.1, d) else (d.1, d);
  mm_out off v d := if off =? ioapic_Window then (d.1, fun r => if r =? d.1 then v else d.2 r) else (v, d.2) }.
#[export, refine] Instance chip_laws : IoApicChip (Z * (Z -> Z)) := {| chip_reg := snd; chip_sel := fst |}.
Proof.
  - intros d v. done.
  - intros d. by exists d.
  - intros d v _. done.
Defined.

(** interrupt 4, overridden to input 9 of the IOAPIC at 0xfec00000, with a
    boot processor of APIC ID 0 *)
Lemma irq_routing_witness :
  let t := insertZ 9 (mkIrq 0xfec00000 9 9 0 []) (insertZ 4 (mkIrq 0xfec00000 4 9 0 []) irqTable_init) in
  exists s', registerIrqAsync 0 4 0x1234 7 (mkIrqs t (fun _ => (0, fun _ => 0))) = Ok s' /\
    redirection_ok 0x24 false false (redir (chips s' 0xfec00000) 9) = true /\ dispatch 0x24 = Some (AsyncIrq 4).
Proof.
  intros t.
  destruct (irq_routing 0 4 0x1234 7 (mkIrqs t (fun _ => (0, fun _ : Z => 0))) (mkIrq 0xfec00000 4 9 0 []) (mkIrq 0xfec00000 9 9 0 []))
    as (s' & E & Hr & Hd & _).
  - split; reflexivity || discriminate.
  - reflexivity.
  - reflexivity.
  - split; reflexivity || discriminate.
  - reflexivity.
  - exists s'. split; [exact E|]. split; [exact Hr|exact Hd].
Defined.
