(* ===== verification/Files.v ===== *)
(** * Files: world/Access.h, world/Access.cc, runtime/SynchronizedArray.h,
      the file calls of kernel/syscalls.cc

    Boot modules are read-only files in memory ([RamFile]); a process reaches
    files, the keyboard and the outputs through handles in a
    [SynchronizedArray], on top of ManagedArray.v.  Objects ([Access*]) are
    numbers, 0 is the null pointer.  A signed 64-bit result is a [Z]. *)
From Stdlib Require Import ZArith Lia Bool.
From stdpp Require Import base tactics option numbers list relations.
From S2P Require Import Prelude Bitmanip ManagedArray.

(** ** FileAccess *)
Record ramfile := mkRam { rf_vma : Z; rf_pma : Z; rf_size : Z }.
Record fileaccess := mkFA { fa_rf : ramfile; fa_offset : Z }.

Definition EBADF : Z := 9.
Definition EINVAL : Z := 22.
Definition ENOENT : Z := 2.
Definition ENOSYS : Z := 38.
Definition SEEK_SET : Z := 0.
Definition SEEK_CUR : Z := 1.
Definition SEEK_END : Z := 2.

(** [memcpy] from kernel memory: what the caller's buffer receives *)
Definition bytes_at (kmem : Z -> Z) (a : Z) (n : nat) : list Z := (fun i => kmem (a + Z.of_nat i)) <$> seq 0 n.

(** copying beyond the file is an access outside of it *)
Definition fa_pread (kmem : Z -> Z) (f : ramfile) (nbyte o : Z) : res (list Z * Z) :=
  let nbyte := if rf_size f <? (o + nbyte)%w then (rf_size f - o)%w else nbyte in
  if (nbyte =? 0) || ((0 <=? o) && (o + nbyte <=? rf_size f)) then
    mret (bytes_at kmem (rf_vma f + o) (Z.to_nat nbyte), to_signed 64 nbyte)
  else Err OutOfBounds.

Definition fa_read (kmem : Z -> Z) (nbyte : Z) (a : fileaccess) : res (list Z * Z * fileaccess) :=
  '(bs, len) ← fa_pread kmem (fa_rf a) nbyte (fa_offset a);
  mret (bs, len, if 0 <=? len then mkFA (fa_rf a) (to_signed 64 (fa_offset a + len)) else a).

Definition fa_lseek (o whence : Z) (a : fileaccess) : Z * fileaccess :=
  let go new_o := if new_o <? 0 then (- EINVAL, a) else (new_o, mkFA (fa_rf a) new_o) in
  if whence =? SEEK_SET then go o
  else if whence =? SEEK_CUR then go (to_signed 64 (fa_offset a + o))
  else if whence =? SEEK_END then go (to_signed 64 (rf_size (fa_rf a) + o))
  else (- EINVAL, a).

(** ** InputAccess: [keys] are the queued key codes; [None]: the reader blocks *)
Fixpoint input_loop (r : nat) (k : Z) (keys : list Z) : list Z * list Z :=
  match r with
  | O => ([], keys)
  | S r =>
      match keys with
      | [] => ([wrap 8 k], [])
      | k' :: keys => let '(s, rest) := input_loop r k' keys in (wrap 8 k :: s, rest)
      end
  end.

(** the characters that are stored, and the keys that stay queued *)
Definition input_read (nbyte : nat) (keys : list Z) : option (list Z * list Z) :=
  match nbyte, keys with
  | O, _ => Some ([], keys)
  | S _, [] => None
  | S _, k :: keys => Some (input_loop nbyte k keys)
  end.

(** the key after the last one that fits is taken from the queue and lost *)
Lemma input_read_loses_key : input_read 2 [97; 98; 99; 100] = Some ([97; 98], [100]).
Proof. reflexivity. Qed.

(** ** SynchronizedArray *)
Record sarray := mkSA {
  sa_arr : marray Z;
  sa_count : Z -> Z;                (* SynchronizedElement::count, by object *)
  sa_wait : Z -> list nat           (* SynchronizedElement::wait, by object *)
}.

Definition set_arr (m : marray Z) (s : sarray) : sarray := mkSA m (sa_count s) (sa_wait s).
Definition upd_count (x c : Z) (s : sarray) : sarray :=
  mkSA (sa_arr s) (fun y => if y =? x then c else sa_count s y) (sa_wait s).
Definition upd_wait (x : Z) (w : list nat) (s : sarray) : sarray :=
  mkSA (sa_arr s) (sa_count s) (fun y => if y =? x then w else sa_wait s y).

Section sarray.
Context (alloc_ok : Z -> bool).

Definition sa_new (n : Z) : sarray := mkSA (ma_new n) (fun _ => 0) (fun _ => []).

(** [store] is a reservation under the lock and a [set] without it *)
Definition sa_reserve (s : sarray) : res (Z * sarray) :=
  '(idx, m) ← reserveIndex alloc_ok (sa_arr s); mret (idx, set_arr m s).
Definition sa_set (idx elem : Z) (s : sarray) : res sarray :=
  m ← ma_set idx elem (sa_arr s);
  m ← (if elem =? 0 then invalidate idx m else mret m);
  mret (set_arr m s).
Definition sa_store (elem : Z) (s : sarray) : res (Z * sarray) :=
  '(idx, s) ← sa_reserve s; s ← sa_set idx elem s; mret (idx, s).

(** 0: null *)
Definition sa_access (idx : Z) (s : sarray) : res (Z * sarray) :=
  v ← valid (sa_arr s) idx;
  if negb v then mret (0, s)
  else
    elem ← ma_get idx (sa_arr s);
    kassert (negb (elem =? 0));;
    if negb (bool_decide (sa_wait s elem = [])) then mret (0, s)
    else mret (elem, upd_count elem (sa_count s elem + 1) s).

(** the thread that is woken *)
Definition sa_done (idx : Z) (s : sarray) : res (option nat * sarray) :=
  v ← valid (sa_arr s) idx;
  kassert v;;
  elem ← ma_get idx (sa_arr s);
  kassert (negb (elem =? 0) && (0 <? sa_count s elem));;
  let s := upd_count elem (sa_count s elem - 1) s in
  match sa_wait s elem with
  | t :: w =>
      if sa_count s elem =? 0 then
        m ← invalidate idx (sa_arr s);
        mret (Some t, upd_wait elem w (set_arr m s))
      else mret (None, s)
  | [] => mret (None, s)
  end.

Inductive removal := RemNull | RemDone (elem : Z) | RemWaits (elem : Z).

Definition sa_remove (t : nat) (idx : Z) (s : sarray) : res (removal * sarray) :=
  v ← valid (sa_arr s) idx;
  if negb v then mret (RemNull, s)
  else
    elem ← ma_get idx (sa_arr s);
    kassert (negb (elem =? 0));;
    if 0 <? sa_count s elem then mret (RemWaits elem, upd_wait elem (sa_wait s elem ++ [t]) s)
    else m ← invalidate idx (sa_arr s); mret (RemDone elem, set_arr m s).

Definition sa_release (idx : Z) (s : sarray) : res sarray :=
  m ← ma_release idx (sa_arr s); mret (set_arr m s).
End sarray.

(** ** Objects behind handles: the classes derived from [Access] *)
Inductive Access := AFile (a : fileaccess) | AOutput | AInput.

(** the virtual methods; the keys are those the keyboard has queued *)
Inductive call :=
  | CRead (nbyte : Z) (keys : list Z)
  | CWrite (nbyte : Z)
  | CPread (nbyte o : Z)
  | CLseek (o whence : Z).

(** [None]: the caller blocks.  A method that a class does not override
    returns [-EBADF]; [KernelOutput::write] returns [nbyte]. *)
Definition acc_call (kmem : Z -> Z) (c : call) (a : Access) : option (res (Z * Access)) :=
  match c, a with
  | CRead n _, AFile f => Some ('(_, len, f) ← fa_read kmem n f; mret (len, AFile f))
  | CRead n keys, AInput =>
      '(s, _) ← input_read (Z.to_nat n) keys; Some (Ok (lenZ s, AInput))
  | CWrite n, AOutput => Some (Ok (to_signed 64 n, AOutput))
  | CPread n o, AFile f => Some ('(_, len) ← fa_pread kmem (fa_rf f) n o; mret (len, AFile f))
  | CLseek o whence, AFile f => let '(r, f) := fa_lseek o whence f in Some (Ok (r, AFile f))
  | _, _ => Some (Ok (- EBADF, a))
  end.

(** ** The system calls of the threads of a process

    Each state is a point at which another thread can run.  [Removing] is
    the wait in [remove] with the capacity of the array at that time: [remove]
    returns through a reference into the array. *)
Inductive hstate :=
  | Idle (ret : Z)
  | Storing (idx x : Z)                  (* open, between reserveIndex and set *)
  | Using (idx x : Z) (ret : option Z)   (* between access and done *)
  | Removing (idx x cap : Z)             (* close, waiting in remove *)
  | Removed (idx x : Z)                  (* close, before delete *)
  | Deleted (idx : Z).                   (* close, before release *)

Record world := mkW { w_sa : sarray; w_heap : Z -> option Access; w_ts : list hstate }.

Inductive sysop :=
  | OOpen (t : nat) (x : Z) (a : Access)  (* knew yields the address x *)
  | OSet (t : nat)
  | OAccess (t : nat) (fildes : Z)
  | OCall (t : nat) (c : call)
  | ODone (t : nat)
  | ORemove (t : nat) (fildes : Z)
  | ODelete (t : nat)
  | ORelease (t : nat).

Definition upd_heap (x : Z) (a : option Access) (h : Z -> option Access) : Z -> option Access :=
  fun y => if y =? x then a else h y.
Definition thread_to (t : nat) (st : hstate) (s : sarray) (w : world) : world :=
  mkW s (w_heap w) (<[t := st]> (w_ts w)).

(** [remove] returns: it reads [elem] through the reference *)
Definition wake_remover (t : nat) (w : world) : res world :=
  match w_ts w !! t with
  | Some (Removing idx x cap) =>
      if capacity (sa_arr (w_sa w)) =? cap then
        x ← read_cell (sa_arr (w_sa w)) idx;
        mret (thread_to t (Removed idx x) (w_sa w) w)
      else Err NullDeref
  | _ => Err NullDeref
  end.

(** [None]: the thread is not at this point of its system call *)
Definition exec (kmem : Z -> Z) (op : sysop) (w : world) : option (res world) :=
  let s := w_sa w in
  match op with
  | OOpen t x a =>
      match w_ts w !! t, w_heap w x with
      | Some (Idle _), None =>
          if (x =? 0) || (2 ^ 61 <=? capacity (sa_arr s)) then None
          else Some ('(idx, s) ← sa_reserve (fun _ => true) (upd_count x 0 (upd_wait x [] s));
            mret (mkW s (upd_heap x (Some a) (w_heap w)) (<[t := Storing idx x]> (w_ts w))))
      | _, _ => None
      end
  | OSet t =>
      match w_ts w !! t with
      | Some (Storing idx x) => Some (s ← sa_set idx x s; mret (thread_to t (Idle idx) s w))
      | _ => None
      end
  | OAccess t fildes =>
      match w_ts w !! t with
      | Some (Idle _) => Some ('(x, s) ← sa_access (wrap 64 fildes) s;
          mret (thread_to t (if x =? 0 then Idle (- EBADF) else Using (wrap 64 fildes) x None) s w))
      | _ => None
      end
  | OCall t c =>
      match w_ts w !! t with
      | Some (Using idx x None) =>
          match w_heap w x with
          | None => Some (Err NullDeref)
          | Some a =>
              match acc_call kmem c a with
              | None => None
              | Some r =>
                  Some ('(ret, a) ← r; mret (mkW s (upd_heap x (Some a) (w_heap w))
                    (<[t := Using idx x (Some ret)]> (w_ts w))))
              end
          end
      | _ => None
      end
  | ODone t =>
      match w_ts w !! t with
      | Some (Using idx x (Some ret)) =>
          Some ('(woken, s) ← sa_done idx s;
            let w := thread_to t (Idle ret) s w in
            match woken with Some t' => wake_remover t' w | None => mret w end)
      | _ => None
      end
  | ORemove t fildes =>
      match w_ts w !! t with
      | Some (Idle _) =>
          Some ('(r, s') ← sa_remove t (wrap 64 fildes) s;
            mret (thread_to t
              (match r with
               | RemNull => Idle (- EBADF)
               | RemDone x => Removed (wrap 64 fildes) x
               | RemWaits x => Removing (wrap 64 fildes) x (capacity (sa_arr s))
               end) s' w))
      | _ => None
      end
  | ODelete t =>
      match w_ts w !! t with
      | Some (Removed idx x) =>
          match w_heap w x with
          | None => Some (Err NullDeref)
          | Some _ => Some (Ok (mkW s (upd_heap x None (w_heap w)) (<[t := Deleted idx]> (w_ts w))))
          end
      | _ => None
      end
  | ORelease t =>
      match w_ts w !! t with
      | Some (Deleted idx) => Some (s ← sa_release idx s; mret (thread_to t (Idle 0) s w))
      | _ => None
      end
  end.

Inductive handle_step (kmem : Z -> Z) (w w' : world) : Prop :=
  | handle_step_op op : exec kmem op w = Some (Ok w') -> handle_step kmem w w'.

(** a process with [n] threads, before the constructor stores its handles *)
Definition w_init (n : nat) : world := mkW (sa_new 4) (fun _ => None) (replicate n (Idle 0)).

(** ** The invariant of the handles *)
Definition uses (x : Z) (st : hstate) : Z :=
  match st with Using _ y _ => if y =? x then 1 else 0 | _ => 0 end.
Definition users (x : Z) (ts : list hstate) : Z := lsum (uses x) ts.

(** the index, and the object, that belong to one thread only *)
Definition slot_of (st : hstate) : option Z :=
  match st with Storing i _ | Removed i _ | Deleted i => Some i | _ => None end.
Definition obj_of (st : hstate) : option Z :=
  match st with Storing _ x | Removed _ x => Some x | _ => None end.

Definition w_value (w : world) : Z -> option Z := value (sa_arr (w_sa w)).

Record w_inv (w : world) (fs : list Z) : Prop := {
  wi_arr : ma_inv (sa_arr (w_sa w)) fs;
  wi_null : w_heap w 0 = None;
  wi_val i x : w_value w i = Some x -> is_Some (w_heap w x);
  wi_inj i j x : w_value w i = Some x -> w_value w j = Some x -> i = j;
  wi_slot t st i : w_ts w !! t = Some st -> slot_of st = Some i -> reserved (sa_arr (w_sa w)) fs i;
  wi_slot1 t st t' st' i : w_ts w !! t = Some st -> w_ts w !! t' = Some st' ->
    slot_of st = Some i -> slot_of st' = Some i -> t = t';
  wi_obj t st x : w_ts w !! t = Some st -> obj_of st = Some x ->
    is_Some (w_heap w x) /\ forall i, w_value w i <> Some x;
  wi_obj1 t st t' st' x : w_ts w !! t = Some st -> w_ts w !! t' = Some st' ->
    obj_of st = Some x -> obj_of st' = Some x -> t = t';
  wi_new t i x : w_ts w !! t = Some (Storing i x) -> sa_count (w_sa w) x = 0 /\ sa_wait (w_sa w) x = [];
  wi_use t i x r : w_ts w !! t = Some (Using i x r) -> w_value w i = Some x;
  wi_count i x : w_value w i = Some x -> sa_count (w_sa w) x = users x (w_ts w);
  wi_wait i x t : w_value w i = Some x -> t ∈ sa_wait (w_sa w) x ->
    exists cap, w_ts w !! t = Some (Removing i x cap);
  wi_busy i x : w_value w i = Some x -> sa_wait (w_sa w) x <> [] -> 0 < sa_count (w_sa w) x
}.

Lemma uses_nonneg x st : 0 <= uses x st.
Proof. destruct st; simpl; try lia. destruct (_ =? _); lia. Qed.

Lemma users_nonneg x ts : 0 <= users x ts.
Proof. apply lsum_nonneg, uses_nonneg. Qed.

Lemma users_insert x ts t st st' :
  ts !! t = Some st -> users x (<[t := st']> ts) = users x ts - uses x st + uses x st'.
Proof. apply lsum_insert. Qed.

Lemma users_uses x ts t st : ts !! t = Some st -> uses x st <= users x ts.
Proof. apply lsum_ge, uses_nonneg. Qed.

Lemma users_none x ts : (forall t i r, ts !! t <> Some (Using i x r)) -> users x ts = 0.
Proof.
  intros H. apply lsum_zero. intros t st Ht. destruct st; simpl; try done.
  destruct (Z.eqb_spec x0 x) as [->|]; [|done]. by destruct (H t idx ret).
Qed.
#[local] Arguments users : simpl never.

Lemma w_init_inv n : w_inv (w_init n) [].
Proof.
  assert (forall i x, w_value (w_init n) i <> Some x) as Hv.
  { intros i x Hx. unfold w_value, value in Hx. cbn [w_init w_sa sa_new sa_arr ma_new checkbits] in Hx.
    unfold lookupZ in Hx. destruct (i <? 0); [done|].
    destruct (replicate (Z.to_nat 4) false !! Z.to_nat i) as [[]|] eqn:Hb; [|done..].
    by apply lookup_replicate in Hb as []. }
  assert (forall t st, w_ts (w_init n) !! t = Some st -> st = Idle 0) as Ht.
  { intros t st Hst. by apply lookup_replicate in Hst as []. }
  split; try (intros; exfalso; by eapply Hv);
    try (intros t st **; pose proof (Ht t _ ltac:(eassumption)); by subst); try done.
  apply ma_new_inv. lia.
Qed.

(** ** Every operation keeps the invariant, and what can fail *)
Definition in_file (rf : ramfile) (n o : Z) : Prop :=
  0 <= o <= rf_size rf /\ rf_size rf < 2 ^ 63 /\ 0 <= n /\ o + n < 2 ^ 64.

Definition reads_outside (c : call) (f : fileaccess) : Prop :=
  match c with
  | CRead n _ => ~ in_file (fa_rf f) n (fa_offset f)
  | CPread n o => ~ in_file (fa_rf f) n o
  | _ => False
  end.

(** a read or pread outside of the file, or a close that returns through a
    reference into an array that has grown meanwhile *)
Definition op_fault (op : sysop) (w : world) (e : fault) : Prop :=
  (e = OutOfBounds /\ exists t c i x f, op = OCall t c /\ w_ts w !! t = Some (Using i x None) /\
    w_heap w x = Some (AFile f) /\ reads_outside c f) \/
  (e = NullDeref /\ exists t i x r t' cap, op = ODone t /\ w_ts w !! t = Some (Using i x r) /\
    head (sa_wait (w_sa w) x) = Some t' /\ w_ts w !! t' = Some (Removing i x cap) /\
    capacity (sa_arr (w_sa w)) <> cap).

Definition op_result (op : sysop) (w : world) (r : res world) : Prop :=
  match r with
  | Ok w' => exists fs', w_inv w' fs'
  | Err e => op_fault op w e
  end.

Lemma fa_pread_in kmem rf n o :
  in_file rf n o -> let n' := Z.min n (rf_size rf - o) in
  fa_pread kmem rf n o = Ok (bytes_at kmem (rf_vma rf + o) (Z.to_nat n'), n').
Proof.
  intros (Ho & Hs & Hn & Hw). simpl. unfold fa_pread. rewrite (wrap_small 64 (o + n)) by lia.
  assert ((if rf_size rf <? o + n then (rf_size rf - o)%w else n) = Z.min n (rf_size rf - o)) as ->.
  { destruct (Z.ltb_spec (rf_size rf) (o + n)); [rewrite wrap_small|]; lia. }
  rewrite (proj2 (orb_true_iff _ _)).
  - unfold to_signed. rewrite wrap_small by lia.
    destruct (Z.ltb_spec (Z.min n (rf_size rf - o)) (2 ^ (64 - 1))); [done|lia].
  - right. apply andb_true_iff. split; apply Z.leb_le; lia.
Qed.

Lemma fa_pread_fault kmem rf n o e : fa_pread kmem rf n o = Err e -> e = OutOfBounds /\ ~ in_file rf n o.
Proof.
  intros H. split.
  - unfold fa_pread in H. by destruct (_ || _); simplify_eq/=.
  - intros Hin. by rewrite (fa_pread_in kmem _ _ _ Hin) in H.
Qed.

Lemma acc_call_fault kmem c a e : acc_call kmem c a = Some (Err e) ->
  e = OutOfBounds /\ exists f, a = AFile f /\ reads_outside c f.
Proof.
  destruct c as [n keys|n|n o|o wh], a as [f| |]; simpl; intros H; try done.
  - injection H as H. unfold fa_read in H.
    destruct (fa_pread _ _ _ _) as [[]|] eqn:Hp; simplify_eq/=. apply fa_pread_fault in Hp as [-> Hp].
    split; [done|]. by exists f.
  - destruct (input_read _ _) as [[]|]; simplify_eq/=.
  - injection H as H. destruct (fa_pread _ _ _ _) as [[]|] eqn:Hp; simplify_eq/=.
    apply fa_pread_fault in Hp as [-> Hp]. split; [done|]. by exists f.
  - by destruct (fa_lseek _ _ _).
Qed.

(** the state of one thread changes *)
Lemma thread_update (ts : list hstate) t st t' st' :
  <[t := st]> ts !! t' = Some st' -> (t' = t /\ st' = st) \/ (t' <> t /\ ts !! t' = Some st').
Proof. intros H%list_lookup_insert_Some. naive_solver. Qed.

Ltac upd :=
  repeat match goal with
  | H : <[_ := _]> _ !! _ = Some _ |- _ => apply thread_update in H as [[-> ?]|[? H]]
  end; simplify_eq/=.

Section preserve.
Context (kmem : Z -> Z) (w : world) (fs : list Z) (Hw : w_inv w fs).
Abbreviation s := (w_sa w).
Abbreviation m := (sa_arr (w_sa w)).
Abbreviation ts := (w_ts w).

Lemma open_ok t x a r : exec kmem (OOpen t x a) w = Some r -> op_result (OOpen t x a) w r.
Proof using Hw.
  simpl. destruct (ts !! t) as [[ret| | | | |]|] eqn:Ht; try done.
  destruct (w_heap w x) eqn:Hx; [done|]. destruct (_ || _) eqn:Hc; [done|].
  apply orb_false_iff in Hc as [Hx0%Z.eqb_neq Hc%Z.leb_gt]. intros [= <-].
  destruct (reserveIndex_spec (fun _ => true) m fs (wi_arr _ _ Hw) Hc eq_refl)
    as (idx & m' & fs' & Hr & Hi & Hv & Hn & Hnr & Hres & _).
  unfold sa_reserve. cbn [upd_count upd_wait sa_arr]. rewrite Hr. cbn.
  assert (forall i y, value m i = Some y -> y <> x) as Hlive.
  { intros i y Hy ->. destruct (wi_val _ _ Hw i x Hy). congruence. }
  exists fs'. split; cbn -[Z.eqb]; unfold w_value, upd_heap; cbn -[Z.eqb]; try setoid_rewrite Hv.
  - done.
  - destruct (Z.eqb_spec 0 x); [done|]. apply Hw.
  - intros i y Hy. destruct (Z.eqb_spec y x); [done|]. by eapply Hw.
  - apply Hw.
  - intros t1 st1 i H1 H2. upd; apply Hres; [by left|]. right. by eapply Hw.
  - intros t1 st1 t2 st2 i H1 H2 H3 H4. upd; try done.
    + destruct Hnr. by eapply wi_slot.
    + destruct Hnr. by eapply wi_slot.
    + eapply (wi_slot1 _ _ Hw); done.
  - intros t1 st1 y H1 H2. upd.
    + destruct (Z.eqb_spec y y); [|done]. split; [done|]. intros i Hi'. by apply (Hlive i y).
    + destruct (wi_obj _ _ Hw _ _ _ H1 H2). destruct (Z.eqb_spec y x); done.
  - intros t1 st1 t2 st2 y H1 H2 H3 H4. upd; try done.
    + destruct (wi_obj _ _ Hw _ _ _ H1 H3) as [[] _]. congruence.
    + destruct (wi_obj _ _ Hw _ _ _ H2 H4) as [[] _]. congruence.
    + eapply (wi_obj1 _ _ Hw); done.
  - intros t1 i y H1. upd; [by rewrite Z.eqb_refl|].
    destruct (wi_obj _ _ Hw _ _ y H1 eq_refl) as [[] _].
    destruct (Z.eqb_spec y x); [congruence|]. by eapply Hw.
  - intros t1 i y r1 H1. upd. by eapply Hw.
  - intros i y Hy. rewrite (users_insert y ts t _ _ Ht). pose proof (Hlive i y Hy).
    destruct (Z.eqb_spec y x); [done|]. cbn. rewrite (wi_count _ _ Hw i y Hy). lia.
  - intros i y t1 Hy Hin. pose proof (Hlive i y Hy). destruct (Z.eqb_spec y x); [done|].
    destruct (wi_wait _ _ Hw i y t1 Hy Hin) as [cap Hcap]. exists cap.
    rewrite list_lookup_insert_ne; [done|]. intros ->. congruence.
  - intros i y Hy Hne. pose proof (Hlive i y Hy). destruct (Z.eqb_spec y x); [done|]. by eapply Hw.
Qed.

(** a thread that owns neither an index nor an object takes another state
    of that kind; array and objects stay *)
Lemma quiet_step t st st' s' h' :
  ts !! t = Some st -> slot_of st = None -> obj_of st = None ->
  slot_of st' = None -> obj_of st' = None ->
  sa_arr s' = m -> (forall x, w_heap w x = None <-> h' x = None) ->
  (forall i x, w_value w i = Some x ->
    sa_count s' x = sa_count s x - uses x st + uses x st' /\
    (forall t', t' ∈ sa_wait s' x -> t' ∈ sa_wait s x \/ t' = t /\ exists cap, st' = Removing i x cap) /\
    (sa_wait s' x <> [] -> 0 < sa_count s' x)) ->
  (forall x, (forall i, w_value w i <> Some x) ->
    sa_count s' x = sa_count s x /\ sa_wait s' x = sa_wait s x) ->
  (forall i x cap, st = Removing i x cap -> st' = st) ->
  (forall i x r, st' = Using i x r -> w_value w i = Some x) ->
  w_inv (mkW s' h' (<[t := st']> ts)) fs.
Proof using kmem Hw.
  intros Ht Hs1 Ho1 Hs2 Ho2 Hm Hh Hx Hnx Hrem Huse.
  assert (forall x, is_Some (w_heap w x) -> is_Some (h' x)) as Hh'.
  { intros x Hx'. rewrite <- not_eq_None_Some in *. naive_solver. }
  split; cbn; unfold w_value; cbn; rewrite ?Hm.
  - apply Hw.
  - apply Hh, Hw.
  - intros i x Hi. eapply Hh', Hw, Hi.
  - apply Hw.
  - intros t1 st1 i H1 H2. upd. by eapply Hw.
  - intros t1 st1 t2 st2 i H1 H2 H3 H4. upd; try congruence. by eapply (wi_slot1 _ _ Hw).
  - intros t1 st1 y H1 H2. upd. destruct (wi_obj _ _ Hw _ _ _ H1 H2). eauto.
  - intros t1 st1 t2 st2 y H1 H2 H3 H4. upd; try congruence. by eapply (wi_obj1 _ _ Hw).
  - intros t1 i y H1. upd. destruct (wi_obj _ _ Hw _ _ y H1 eq_refl) as [_ Hy].
    destruct (Hnx y Hy) as [-> ->]. by eapply Hw.
  - intros t1 i y r1 H1. upd; [by eapply Huse|]. by eapply Hw.
  - intros i y Hy. rewrite (users_insert y ts t _ _ Ht). destruct (Hx i y Hy) as [-> _].
    rewrite (wi_count _ _ Hw i y Hy). lia.
  - intros i y t1 Hy Hin. destruct (Hx i y Hy) as (_ & Hwt & _).
    destruct (Hwt t1 Hin) as [Hin1|[-> [cap ->]]].
    + destruct (wi_wait _ _ Hw i y t1 Hy Hin1) as [cap Hcap]. exists cap.
      destruct (decide (t1 = t)) as [->|Hne]; [|by rewrite list_lookup_insert_ne].
      rewrite list_lookup_insert_eq by by eapply lookup_lt_Some.
      f_equal. rewrite Ht in Hcap. injection Hcap as ->. by eapply Hrem.
    + exists cap. rewrite list_lookup_insert_eq; [done|]. by eapply lookup_lt_Some.
  - intros i y Hy. apply (Hx i y Hy).
Qed.

Lemma access_ok t fd r : exec kmem (OAccess t fd) w = Some r -> op_result (OAccess t fd) w r.
Proof using Hw.
  simpl. destruct (ts !! t) as [[ret| | | | |]|] eqn:Ht; try done. intros [= <-].
  assert (0 <= wrap 64 fd) as Hfd by (apply wrap_bounds; lia). generalize dependent (wrap 64 fd).
  intros i Hi. unfold sa_access.
  assert (op_result (OAccess t fd) w (mret (thread_to t (Idle (- EBADF)) s w))) as Hnull.
  { exists fs. eapply quiet_step; try done.
    - intros j y Hy. cbn. split; [lia|]. split; [by left|]. by eapply Hw. }
  destruct (value m i) as [x|] eqn:Hx.
  - rewrite (valid_value m fs (wi_arr _ _ Hw) i x Hx), (get_value m fs (wi_arr _ _ Hw) i x Hx). cbn -[Z.eqb].
    assert (x <> 0) as Hx0.
    { intros ->. destruct (wi_val _ _ Hw i 0 Hx). rewrite (wi_null _ _ Hw) in *. done. }
    apply Z.eqb_neq in Hx0 as Hx0b. rewrite Hx0b. cbn -[Z.eqb].
    case_bool_decide as Hwt; cbn -[Z.eqb]; [|done]. rewrite Hx0b. exists fs.
    eapply quiet_step; try done; cbn -[Z.eqb].
    + intros j y Hy. rewrite (Z.eqb_sym x y). destruct (Z.eqb_spec y x) as [->|]; cbn.
      * split; [lia|]. split; [by left|]. by rewrite Hwt.
      * split; [lia|]. split; [by left|]. by eapply Hw.
    + intros y Hy. destruct (Z.eqb_spec y x) as [->|]; [|done]. by destruct (Hy i).
    + by intros ? ? ? [= <- <- <-].
  - by rewrite (valid_none m fs (wi_arr _ _ Hw) i Hi Hx).
Qed.

Lemma call_ok t c r : exec kmem (OCall t c) w = Some r -> op_result (OCall t c) w r.
Proof using Hw.
  simpl. destruct (ts !! t) as [[|j y|i x [ret|]|j y|j y|]|] eqn:Ht; try done.
  pose proof (wi_use _ _ Hw _ _ _ _ Ht) as Hx. destruct (wi_val _ _ Hw i x Hx) as [a Ha].
  rewrite Ha. destruct (acc_call kmem c a) as [[[ret a']|e]|] eqn:Hc; [..|done]; intros [= <-].
  - exists fs. eapply quiet_step; try done.
    + intros y. unfold upd_heap. destruct (Z.eqb_spec y x) as [->|]; [|done]. by rewrite Ha.
    + intros j y Hy. cbn -[Z.eqb]. split; [lia|]. split; [by left|]. by eapply Hw.
    + by intros ? ? ? [= <- <- <-].
  - apply acc_call_fault in Hc as (-> & f & -> & Hf). left. split; [done|].
    by exists t, c, i, x, f.
Qed.

Lemma set_ok t r : exec kmem (OSet t) w = Some r -> op_result (OSet t) w r.
Proof using Hw.
  simpl. destruct (ts !! t) as [[|idx x| | | |]|] eqn:Ht; try done. intros [= <-].
  pose proof (wi_slot _ _ Hw _ _ _ Ht eq_refl) as Hres.
  destruct (wi_obj _ _ Hw _ _ _ Ht eq_refl) as [Hlive Hnv].
  destruct (wi_new _ _ Hw _ _ _ Ht) as [Hc Hwt].
  pose proof (reserved_no_value m fs idx Hres) as Hnone.
  destruct (set_reserved m fs (wi_arr _ _ Hw) idx x Hres) as (m' & Hset & Hi & Hv & Hr').
  assert (x <> 0) as Hx0%Z.eqb_neq.
  { intros ->. rewrite (wi_null _ _ Hw) in Hlive. by destruct Hlive. }
  unfold sa_set. rewrite Hset. cbn -[Z.eqb]. rewrite Hx0. cbn. exists fs.
  assert (users x ts = 0) as Hu.
  { apply users_none. intros t1 i r1 H1. apply (Hnv i). by eapply wi_use. }
  split; cbn; unfold w_value; cbn; try setoid_rewrite Hv.
  - done.
  - apply Hw.
  - intros i y Hy. destruct (decide (i = idx)); simplify_eq; [done|]. by eapply Hw.
  - intros i j y Hy1 Hy2. destruct (decide (i = idx)), (decide (j = idx)); simplify_eq; try done.
    + by destruct (Hnv j).
    + by destruct (Hnv i).
    + by eapply (wi_inj _ _ Hw).
  - intros t1 st1 i H1 H2. upd. apply Hr'. split; [by eapply Hw|]. intros ->.
    assert (t1 = t); [|done]. by eapply (wi_slot1 _ _ Hw _ _ _ _ idx H1 Ht).
  - intros t1 st1 t2 st2 i H1 H2 H3 H4. upd. by eapply (wi_slot1 _ _ Hw).
  - intros t1 st1 y H1 H2. upd. destruct (wi_obj _ _ Hw _ _ _ H1 H2) as [? Hn]. split; [done|].
    intros i. destruct (decide (i = idx)) as [->|]; [|apply Hn]. intros [= ->].
    assert (t1 = t); [|done]. by eapply (wi_obj1 _ _ Hw _ _ _ _ y H1 Ht).
  - intros t1 st1 t2 st2 y H1 H2 H3 H4. upd. by eapply (wi_obj1 _ _ Hw).
  - intros t1 i y H1. upd. by eapply Hw.
  - intros t1 i y r1 H1. upd. pose proof (wi_use _ _ Hw _ _ _ _ H1) as Hy.
    unfold w_value in Hy.
    destruct (decide (i = idx)) as [->|]; [congruence|done].
  - intros i y Hy. rewrite (users_insert y ts t _ _ Ht). cbn.
    destruct (decide (i = idx)); simplify_eq; [lia|]. rewrite (wi_count _ _ Hw i y Hy). lia.
  - intros i y t1 Hy Hin. destruct (decide (i = idx)); simplify_eq.
    { rewrite Hwt in Hin. by apply elem_of_nil in Hin. }
    destruct (wi_wait _ _ Hw i y t1 Hy Hin) as [cap Hcap]. exists cap.
    rewrite list_lookup_insert_ne; [done|]. intros ->. congruence.
  - intros i y Hy Hne. destruct (decide (i = idx)); simplify_eq. by eapply Hw.
Qed.

(** an object without users is invalidated for the thread that closes it *)
Lemma removed_step t st i x m' s' :
  ts !! t = Some st -> slot_of st = None -> obj_of st = None -> uses x st = 0 ->
  value m i = Some x -> sa_count s x = 0 -> invalidate i m = Ok m' -> sa_arr s' = m' ->
  (forall y, sa_count s' y = sa_count s y) -> (forall y, y <> x -> sa_wait s' y = sa_wait s y) ->
  (forall j y r, st = Using j y r -> False) -> (forall j y cap, st = Removing j y cap -> y = x) ->
  w_inv (mkW s' (w_heap w) (<[t := Removed i x]> ts)) fs.
Proof using kmem Hw.
  intros Ht Hs1 Ho1 Hu1 Hx Hc Hinv <- Hcnt Hwt Hnu Hrem.
  destruct (invalidate_spec m fs i x (wi_arr _ _ Hw) Hx) as (m1 & Hinv1 & Hi & Hv & Hres).
  rewrite Hinv in Hinv1. injection Hinv1 as <-.
  assert (users x ts = 0) as Hu by (by rewrite <- (wi_count _ _ Hw i x Hx)).
  assert (forall t1 j r, ts !! t1 <> Some (Using j x r)) as Hnou.
  { intros t1 j r H1. pose proof (users_uses x ts t1 _ H1) as Hle. cbn -[Z.eqb] in Hle.
    rewrite Z.eqb_refl in Hle. lia. }
  split; cbn; unfold w_value; cbn; try setoid_rewrite Hv.
  - done.
  - apply Hw.
  - intros j y Hy. destruct (decide (j = i)); simplify_eq. by eapply Hw.
  - intros j k y Hy1 Hy2. destruct (decide (j = i)), (decide (k = i)); simplify_eq.
    by eapply (wi_inj _ _ Hw).
  - intros t1 st1 j H1 H2. apply Hres. upd; [by left|]. right. by eapply Hw.
  - intros t1 st1 t2 st2 j H1 H2 H3 H4. upd; try done.
    + pose proof (reserved_no_value m fs _ (wi_slot _ _ Hw _ _ _ H1 H3)). congruence.
    + pose proof (reserved_no_value m fs _ (wi_slot _ _ Hw _ _ _ H2 H4)). congruence.
    + by eapply (wi_slot1 _ _ Hw).
  - intros t1 st1 y H1 H2. upd.
    + split; [by eapply Hw|]. intros j. destruct (decide (j = i)); [done|]. intros Hj.
      by pose proof (wi_inj _ _ Hw _ _ _ Hj Hx).
    + destruct (wi_obj _ _ Hw _ _ _ H1 H2) as [? Hn]. split; [done|].
      intros j. destruct (decide (j = i)); [done|apply Hn].
  - intros t1 st1 t2 st2 y H1 H2 H3 H4. upd; try done.
    + by destruct (proj2 (wi_obj _ _ Hw _ _ _ H1 H3) i).
    + by destruct (proj2 (wi_obj _ _ Hw _ _ _ H2 H4) i).
    + by eapply (wi_obj1 _ _ Hw).
  - intros t1 j y H1. upd. rewrite Hcnt, Hwt; [by eapply Hw|]. intros ->.
    by destruct (proj2 (wi_obj _ _ Hw _ _ _ H1 eq_refl) i).
  - intros t1 j y r1 H1. upd. pose proof (wi_use _ _ Hw _ _ _ _ H1) as Hy.
    unfold w_value in Hy. destruct (decide (j = i)) as [->|]; [|done]. assert (y = x) as -> by congruence.
    by destruct (Hnou t1 i r1).
  - intros j y Hy. rewrite (users_insert y ts t _ _ Ht), Hcnt. destruct (decide (j = i)); [done|].
    rewrite (wi_count _ _ Hw j y Hy). destruct st; cbn; try lia. by destruct (Hnu idx x0 ret).
  - intros j y t1 Hy Hin. destruct (decide (j = i)); [done|].
    assert (y <> x) as Hne by (intros ->; by pose proof (wi_inj _ _ Hw _ _ _ Hy Hx)).
    rewrite Hwt in Hin by done. destruct (wi_wait _ _ Hw j y t1 Hy Hin) as [cap Hcap].
    exists cap. rewrite list_lookup_insert_ne; [done|]. intros ->. rewrite Ht in Hcap.
    injection Hcap as ->. by pose proof (Hrem _ _ _ eq_refl).
  - intros j y Hy. destruct (decide (j = i)); [done|].
    assert (y <> x) as Hne by (intros ->; by pose proof (wi_inj _ _ Hw _ _ _ Hy Hx)).
    rewrite Hcnt, Hwt by done. by eapply Hw.
Qed.

Lemma remove_ok t fd r : exec kmem (ORemove t fd) w = Some r -> op_result (ORemove t fd) w r.
Proof using Hw.
  simpl. destruct (ts !! t) as [[ret| | | | |]|] eqn:Ht; try done. intros [= <-].
  assert (0 <= wrap 64 fd) as Hfd by (apply wrap_bounds; lia). generalize dependent (wrap 64 fd).
  intros i Hi. unfold sa_remove. destruct (value m i) as [x|] eqn:Hx.
  - rewrite (valid_value m fs (wi_arr _ _ Hw) i x Hx), (get_value m fs (wi_arr _ _ Hw) i x Hx). cbn -[Z.eqb].
    assert (x <> 0) as Hx0%Z.eqb_neq.
    { intros ->. destruct (wi_val _ _ Hw i 0 Hx). rewrite (wi_null _ _ Hw) in *. done. }
    rewrite Hx0. cbn. destruct (Z.ltb_spec 0 (sa_count s x)) as [Hc|Hc]; cbn.
    + exists fs. eapply quiet_step; try done; cbn -[Z.eqb].
      * intros j y Hy. split; [lia|]. destruct (Z.eqb_spec y x) as [->|].
        -- assert (j = i) as -> by by eapply (wi_inj _ _ Hw). split; [|done].
           intros t' [Hin|Hin%list_elem_of_singleton]%elem_of_app; [by left|]. right. eauto.
        -- split; [by left|]. by eapply Hw.
      * intros y Hy. destruct (Z.eqb_spec y x) as [->|]; [|done]. by destruct (Hy i).
    + destruct (invalidate_spec m fs i x (wi_arr _ _ Hw) Hx) as (m' & Hinv & _).
      rewrite Hinv. cbn. exists fs. eapply removed_step; try done.
      pose proof (wi_count _ _ Hw i x Hx). pose proof (users_nonneg x ts). lia.
  - rewrite (valid_none m fs (wi_arr _ _ Hw) i Hi Hx). cbn. exists fs. eapply quiet_step; try done.
    intros j y Hy. cbn. split; [lia|]. split; [by left|]. by eapply Hw.
Qed.

Lemma delete_ok t r : exec kmem (ODelete t) w = Some r -> op_result (ODelete t) w r.
Proof using Hw.
  simpl. destruct (ts !! t) as [[| | | |i x|]|] eqn:Ht; try done.
  destruct (wi_obj _ _ Hw _ _ _ Ht eq_refl) as [[a Ha] Hnv]. rewrite Ha. intros [= <-]. exists fs.
  split; cbn -[Z.eqb]; unfold w_value, upd_heap; cbn -[Z.eqb].
  - apply Hw.
  - destruct (Z.eqb_spec 0 x) as [|_]; [done|apply Hw].
  - intros j y Hy. destruct (Z.eqb_spec y x) as [->|]; [by destruct (Hnv j)|by eapply Hw].
  - apply Hw.
  - intros t1 st1 j H1 H2. upd; [by eapply (wi_slot _ _ Hw _ _ _ Ht)|by eapply Hw].
  - intros t1 st1 t2 st2 j H1 H2 H3 H4. upd; try done.
    + by eapply (wi_slot1 _ _ Hw _ _ _ _ _ H1 Ht).
    + by eapply (wi_slot1 _ _ Hw _ _ _ _ _ Ht H2).
    + by eapply (wi_slot1 _ _ Hw).
  - intros t1 st1 y H1 H2. upd. destruct (wi_obj _ _ Hw _ _ _ H1 H2) as [? Hn].
    destruct (Z.eqb_spec y x) as [->|]; [|done].
    by pose proof (wi_obj1 _ _ Hw _ _ _ _ _ H1 Ht H2 eq_refl).
  - intros t1 st1 t2 st2 y H1 H2 H3 H4. upd. by eapply (wi_obj1 _ _ Hw).
  - intros t1 j y H1. upd. by eapply Hw.
  - intros t1 j y r1 H1. upd. by eapply Hw.
  - intros j y Hy. rewrite (users_insert y ts t _ _ Ht), (wi_count _ _ Hw j y Hy). cbn. lia.
  - intros j y t1 Hy Hin. destruct (wi_wait _ _ Hw j y t1 Hy Hin) as [cap Hcap]. exists cap.
    rewrite list_lookup_insert_ne; [done|]. intros ->. congruence.
  - apply Hw.
Qed.

Lemma release_ok t r : exec kmem (ORelease t) w = Some r -> op_result (ORelease t) w r.
Proof using Hw.
  simpl. destruct (ts !! t) as [[| | | | |i]|] eqn:Ht; try done. intros [= <-].
  pose proof (wi_slot _ _ Hw _ _ _ Ht eq_refl) as Hres.
  destruct (release_reserved m fs (wi_arr _ _ Hw) i Hres) as (m' & Hrel & Hi & Hv & Hr').
  unfold sa_release. rewrite Hrel. cbn. exists (i :: fs).
  split; cbn; unfold w_value; cbn; try setoid_rewrite Hv; try apply Hw.
  - done.
  - intros t1 st1 j H1 H2. upd. apply Hr'. split; [by eapply Hw|]. intros ->.
    by pose proof (wi_slot1 _ _ Hw _ _ _ _ _ H1 Ht H2 eq_refl).
  - intros t1 st1 t2 st2 j H1 H2 H3 H4. upd. by eapply (wi_slot1 _ _ Hw).
  - intros t1 st1 y H1 H2. upd. by apply (wi_obj _ _ Hw _ _ _ H1).
  - intros t1 st1 t2 st2 y H1 H2 H3 H4. upd. by eapply (wi_obj1 _ _ Hw).
  - intros t1 j y H1. upd. by eapply Hw.
  - intros t1 j y r1 H1. upd. by eapply Hw.
  - intros j y Hy. rewrite (users_insert y ts t _ _ Ht), (wi_count _ _ Hw j y Hy). cbn. lia.
  - intros j y t1 Hy Hin. destruct (wi_wait _ _ Hw j y t1 Hy Hin) as [cap Hcap]. exists cap.
    rewrite list_lookup_insert_ne; [done|]. intros ->. congruence.
Qed.
End preserve.

Section preserve_done.
Context (kmem : Z -> Z) (w : world) (fs : list Z) (Hw : w_inv w fs).
Abbreviation s := (w_sa w).
Abbreviation m := (sa_arr (w_sa w)).
Abbreviation ts := (w_ts w).

(** one user less *)
Lemma unuse t i x ret r wt s' :
  ts !! t = Some (Using i x r) -> sa_arr s' = m ->
  (forall y, sa_count s' y = if y =? x then sa_count s x - 1 else sa_count s y) ->
  (forall y, sa_wait s' y = if y =? x then wt else sa_wait s y) ->
  (forall t', t' ∈ wt -> t' ∈ sa_wait s x) -> (wt <> [] -> 1 < sa_count s x) ->
  w_inv (mkW s' (w_heap w) (<[t := Idle ret]> ts)) fs.
Proof using kmem Hw.
  intros Ht Hm Hcs Hws Hwt Hc. pose proof (wi_use _ _ Hw _ _ _ _ Ht) as Hx.
  eapply quiet_step; try done; cbn -[Z.eqb].
  - intros j y Hy. rewrite Hcs, Hws, (Z.eqb_sym x y). destruct (Z.eqb_spec y x) as [->|].
    + split; [lia|]. split; [|intros; specialize (Hc ltac:(done)); lia]. intros. left. by apply Hwt.
    + split; [lia|]. split; [by left|]. by eapply Hw.
  - intros y Hy. rewrite Hcs, Hws. destruct (Z.eqb_spec y x) as [->|]; [|done]. by destruct (Hy i).
Qed.

Lemma done_ok t r : exec kmem (ODone t) w = Some r -> op_result (ODone t) w r.
Proof using Hw.
  simpl. destruct (ts !! t) as [[|j y|i x [ret|]|j y|j y|]|] eqn:Ht; try done. intros [= <-].
  pose proof (wi_use _ _ Hw _ _ _ _ Ht) as Hx. unfold w_value in Hx.
  assert (x <> 0) as Hx0%Z.eqb_neq.
  { intros ->. destruct (wi_val _ _ Hw i 0 Hx). rewrite (wi_null _ _ Hw) in *. done. }
  pose proof (wi_count _ _ Hw i x Hx) as Hc. pose proof (users_uses x ts t _ Ht) as Hu.
  cbn -[Z.eqb] in Hu. rewrite Z.eqb_refl in Hu.
  unfold sa_done. rewrite (valid_value m fs (wi_arr _ _ Hw) i x Hx), (get_value m fs (wi_arr _ _ Hw) i x Hx).
  cbn -[Z.eqb]. rewrite Hx0, (proj2 (Z.ltb_lt 0 (sa_count s x))) by lia. cbn -[Z.eqb]. rewrite Z.eqb_refl.
  destruct (sa_wait s x) as [|t' wt] eqn:Hwt.
  { exists fs. eapply (unuse t i x ret _ []); try done.
    - intros y. cbn -[Z.eqb]. by destruct (Z.eqb_spec y x) as [->|].
    - intros t1 Hin. by apply elem_of_nil in Hin. }
  destruct (Z.eqb_spec (sa_count s x - 1) 0) as [H1|H1].
  - destruct (invalidate_spec m fs i x (wi_arr _ _ Hw) Hx) as (m' & Hinv & _).
    destruct (invalidate_data m i m' Hinv) as [Hd Hcap]. rewrite Hinv.
    destruct (wi_wait _ _ Hw i x t' Hx) as [cap Ht'].
    { rewrite Hwt. apply elem_of_cons. by left. }
    assert (t' <> t) as Hne by (intros ->; congruence).
    unfold mbind, res_bind, mret, res_ret, wake_remover. cbn -[Z.eqb].
    rewrite list_lookup_insert_ne, Ht' by done. unfold read_cell. rewrite Hcap, Hd, (value_cell m i x Hx).
    destruct (Z.eqb_spec (capacity m) cap) as [He|He]; cbn.
    + exists fs. pose proof (unuse t i x ret (Some ret) []
        (upd_wait x [] (upd_count x (sa_count s x - 1) s)) Ht) as Hw1.
      refine (removed_step kmem _ fs (Hw1 _ _ _ _ _) t' (Removing i x cap) i x m' _ _ _ _ _ _ _ Hinv _ _ _ _ _);
        try done; cbn -[Z.eqb].
      * intros t1 Hin. by apply elem_of_nil in Hin.
      * by rewrite list_lookup_insert_ne.
      * by rewrite Z.eqb_refl.
      * intros y Hy. by apply Z.eqb_neq in Hy as ->.
      * by intros j y c [= _ <- _].
    + right. split; [done|]. exists t, i, x, (Some ret), t', cap. by rewrite Hwt.
  - exists fs. eapply (unuse t i x ret _ (t' :: wt)); try done.
    + cbn -[Z.eqb]. intros y. by destruct (Z.eqb_spec y x) as [->|].
    + rewrite Hwt. done.
    + intros _. lia.
Qed.

Lemma handle_op_ok op r : exec kmem op w = Some r -> op_result op w r.
Proof using Hw.
  destruct op; intros; [by eapply open_ok|by eapply set_ok|by eapply access_ok|by eapply call_ok
    |by eapply done_ok|by eapply remove_ok|by eapply delete_ok|by eapply release_ok].
Qed.
End preserve_done.

Lemma reachable_inv kmem n w : steps (handle_step kmem) (w_init n) w -> exists fs, w_inv w fs.
Proof.
  intros Hs. apply (steps_invariant (handle_step kmem) (fun w => exists fs, w_inv w fs)) in Hs; [done| |].
  - intros w1 w2 [fs Hw] [op Hop]. apply (handle_op_ok kmem w1 fs Hw op _ Hop).
  - exists []. apply w_init_inv.
Qed.

(** ** Properties *)
Definition same_class (a a' : Access) : Prop :=
  match a, a' with
  | AFile f, AFile f' => fa_rf f = fa_rf f'
  | AOutput, AOutput | AInput, AInput => True
  | _, _ => False
  end.

Lemma acc_call_class kmem c a ret a' : acc_call kmem c a = Some (Ok (ret, a')) -> same_class a a'.
Proof.
  destruct c as [n keys|n|n o|o wh], a as [f| |]; simpl; intros H; simplify_eq/=; try done.
  - unfold fa_read in H. destruct (fa_pread _ _ _ _) as [[bs len]|]; simplify_eq/=.
    injection H as <- <-. by case_match.
  - destruct (input_read _ _) as [[]|]; by simplify_eq/=.
  - destruct (fa_pread _ _ _ _) as [[]|]; simplify_eq/=. by injection H as <- <-.
  - unfold fa_lseek in H. repeat case_match; by simplify_eq/=.
Qed.

Lemma same_class_refl a : same_class a a.
Proof. by destruct a. Qed.

Lemma upd_heap_class h x b y a a' :
  (forall c, b = Some c -> forall d, h x = Some d -> same_class d c) ->
  h y = Some a -> upd_heap x b h y = Some a' -> same_class a a'.
Proof.
  unfold upd_heap. intros Hb Ha Ha'. destruct (Z.eqb_spec y x) as [->|]; [by eapply Hb|].
  rewrite Ha in Ha'. injection Ha' as <-. apply same_class_refl.
Qed.

Lemma step_class kmem w w' x a a' : handle_step kmem w w' ->
  w_heap w x = Some a -> w_heap w' x = Some a' -> same_class a a'.
Proof.
  intros [op Hop] Ha. assert (w_heap w' = w_heap w -> w_heap w' x = Some a' -> same_class a a') as Hsame.
  { intros ->. rewrite Ha. intros [= <-]. apply same_class_refl. }
  destruct op as [t y b|t|t fd|t c|t|t fd|t|t]; simpl in Hop; destruct (w_ts w !! t) as [st|]; try done;
    destruct st as [|i z|i z [ret|]|i z cap|i z|i]; try done.
  - destruct (w_heap w y) eqn:Hy; [done|]. destruct (_ || _); [done|]. injection Hop as Hop. res_inv.
    destruct a0 as [idx s]. res_inv. cbn. apply upd_heap_class; [|done]. congruence.
  - injection Hop as Hop. res_inv. by apply Hsame.
  - injection Hop as Hop. res_inv. destruct a0. res_inv. by apply Hsame.
  - destruct (w_heap w z) eqn:Hz; [|done]. destruct (acc_call kmem c a0) as [r|] eqn:Hc; [|done].
    injection Hop as Hop. destruct r as [[ret b]|]; simplify_eq/=. injection Hop as <-. cbn. apply upd_heap_class; [|done].
    intros ? [= <-] d. rewrite Hz. intros [= <-]. by eapply acc_call_class.
  - injection Hop as Hop. res_inv. destruct a0 as [[t'|] s]; [|res_inv; by apply Hsame].
    apply Hsame. unfold wake_remover in Hop. repeat case_match; try done. by res_inv.
  - injection Hop as Hop. res_inv. destruct a0. res_inv. by apply Hsame.
  - destruct (w_heap w z) eqn:Hz; [|done]. injection Hop as <-. cbn. by apply upd_heap_class.
  - injection Hop as Hop. res_inv. by apply Hsame.
Qed.


Definition kmem0 : Z -> Z := fun a => wrap 8 a.
Definition file0 : fileaccess := mkFA (mkRam 1000 0 10) 0.
Fixpoint exec_all (ops : list sysop) (w : world) : option (res world) :=
  match ops with
  | [] => Some (Ok w)
  | op :: ops => match exec kmem0 op w with Some (Ok w') => exec_all ops w' | r => r end
  end.

Lemma exec_all_steps ops w w' :
  exec_all ops w = Some (Ok w') -> steps (handle_step kmem0) w w'.
Proof.
  revert w. induction ops as [|op ops IH]; intros w; cbn [exec_all].
  - intros [= ->]. constructor.
  - destruct (exec kmem0 op w) as [[w1|]|] eqn:Hop; intros H; try done.
    eapply steps_step; [by exists op|by apply IH].
Qed.




(** a second thread that closes a handle while it is in use is never woken *)
Lemma close_twice_hangs :
  exists w, exec_all [OOpen 0 7 (AFile file0); OSet 0; OAccess 0 0; ORemove 1 0; ORemove 2 0;
    OCall 0 (CRead 3 []); ODone 0; ODelete 1; ORelease 1] (w_init 3) = Some (Ok w) /\
    w_ts w = [Idle 3; Idle 0; Removing 0 7 4] /\ sa_wait (w_sa w) 7 = [2%nat] /\ w_heap w 7 = None.
Proof. eexists. split; [vm_compute; reflexivity|]. done. Qed.

(** [close] waits, [open] moves the array, and [remove] returns through its
    reference into the old one *)
Lemma close_after_growth :
  exec_all [OOpen 0 7 (AFile file0); OSet 0; OAccess 0 0; ORemove 1 0;
    OOpen 2 8 (AFile file0); OSet 2; OOpen 2 9 (AFile file0); OSet 2; OOpen 2 10 (AFile file0); OSet 2;
    OOpen 2 11 (AFile file0); OSet 2; OCall 0 (CRead 3 []); ODone 0] (w_init 3) = Some (Err NullDeref).
Proof. vm_compute. reflexivity. Qed.

(** reading behind the end of a file, where [lseek] allows to go *)
Lemma read_past_end :
  fa_lseek 11 SEEK_SET file0 = (11, mkFA (fa_rf file0) 11) /\
  fa_pread kmem0 (fa_rf file0) 1 11 = Err OutOfBounds.
Proof. split; vm_compute; reflexivity. Qed.

(** reading a file in pieces of [n] bytes; [kosMain] prints a file with [n = 1] *)
Fixpoint read_all (kmem : Z -> Z) (fuel : nat) (n : Z) (f : fileaccess) : res (list Z * fileaccess) :=
  match fuel with
  | O => Err OutOfFuel
  | S fuel =>
      '(bs, len, f) ← fa_read kmem n f;
      if len =? 0 then mret ([], f)
      else '(bs', f) ← read_all kmem fuel n f; mret (bs ++ bs', f)
  end.

Lemma bytes_at_app kmem a n k :
  bytes_at kmem a n ++ bytes_at kmem (a + Z.of_nat n) k = bytes_at kmem a (n + k).
Proof.
  unfold bytes_at. rewrite seq_app, fmap_app. f_equal. simpl.
  replace (seq n k) with (Nat.add n <$> seq 0 k) by (rewrite fmap_add_seq; f_equal; lia).
  rewrite <- list_fmap_compose.
  apply list_fmap_ext. intros i x _. simpl. f_equal. lia.
Qed.

(** C40. A file is read completely, whatever the size of the pieces: with
    [n > 0] bytes per [read], a program that reads until [read] returns 0 gets
    exactly the bytes from the offset to the end of the file, within one
    [read] more than there are bytes, and the offset is then the size of the
    file; [lseek] accepts exactly the non-negative targets of the three modes,
    and leaves the offset alone otherwise. *)
Theorem file_reads (kmem : Z -> Z) (n : Z) (f : fileaccess) :
  0 < n < 2 ^ 63 -> in_file (fa_rf f) n (fa_offset f) ->
  let size := rf_size (fa_rf f) in
  (forall fuel, size - fa_offset f < Z.of_nat fuel -> read_all kmem fuel n f =
    Ok (bytes_at kmem (rf_vma (fa_rf f) + fa_offset f) (Z.to_nat (size - fa_offset f)),
        mkFA (fa_rf f) size)) /\
  (forall o whence, - 2 ^ 62 <= o < 2 ^ 62 -> size < 2 ^ 62 ->
    let target := if whence =? SEEK_SET then Some o
      else if whence =? SEEK_CUR then Some (fa_offset f + o)
      else if whence =? SEEK_END then Some (size + o) else None in
    fa_lseek o whence f =
      match target with
      | Some new_o => if 0 <=? new_o then (new_o, mkFA (fa_rf f) new_o) else (- EINVAL, f)
      | None => (- EINVAL, f)
      end).
Proof.
  intros Hn Hin size. split.
  - intros fuel. revert f Hin size. induction fuel as [|fuel IH]; intros f Hin size Hf.
    { destruct Hin. lia. }
    assert (0 <= fa_offset f <= size /\ size < 2 ^ 63) as [Ho Hs] by (destruct Hin; unfold size; lia).
    cbn [read_all]. unfold fa_read. rewrite (fa_pread_in kmem _ _ _ Hin). fold size.
    cbn [mbind res_bind mret res_ret]. set (k := Z.min n (size - fa_offset f)).
    rewrite (proj2 (Z.leb_le 0 k)) by lia.
    assert (to_signed 64 (fa_offset f + k) = fa_offset f + k) as ->.
    { unfold to_signed. rewrite wrap_small by lia.
      destruct (Z.ltb_spec (fa_offset f + k) (2 ^ (64 - 1))); [done|lia]. }
    destruct (Z.eqb_spec k 0).
    + replace (Z.to_nat (size - fa_offset f)) with O by lia.
      replace (fa_offset f + k) with size by lia. done.
    + rewrite IH; cbn [fa_rf fa_offset mbind res_bind mret res_ret].
      * do 2 f_equal. rewrite <- (Z2Nat.id k) at 2 by lia. rewrite Z.add_assoc, bytes_at_app.
        f_equal. unfold size. lia.
      * unfold in_file in *. fold size in Hin |- *. lia.
      * unfold size. lia.
  - intros o whence Hr Hs. destruct Hin as (Ho & _). fold size in Ho.
    assert (forall x, - 2 ^ 63 <= x < 2 ^ 63 -> to_signed 64 x = x) as Hts.
    { intros x Hx. unfold to_signed, wrap. pose proof (Z.mod_pos_bound x (2 ^ 64) ltac:(lia)).
      pose proof (Z.div_mod x (2 ^ 64) ltac:(lia)). destruct (Z.ltb_spec (x mod 2 ^ 64) (2 ^ (64 - 1))); nia. }
    unfold fa_lseek. fold size. rewrite !Hts by lia.
    repeat case_match; simplify_eq/=; try done;
      repeat match goal with H : (_ <? _) = _ |- _ => revert H; case Z.ltb_spec; intros
        | H : (_ <=? _) = _ |- _ => revert H; case Z.leb_spec; intros end; done || lia.
Qed.

Lemma file_reads_witness :
  read_all kmem0 11 4 file0 = Ok (bytes_at kmem0 1000 10, mkFA (fa_rf file0) 10).
Proof.
  apply (file_reads kmem0 4 file0); [lia| |reflexivity].
  unfold in_file. cbn. lia.
Defined.
