(* ===== verification/Pci.v ===== *)
(** * PCI: devices/PCI.h, devices/PCI.cc

    Access to the configuration space through the address and the data port,
    and the enumeration of buses, devices and functions.  The configuration
    space itself is a parameter, stated as [PciBus]. *)
From Stdlib Require Import ZArith Lia Bool.
From stdpp Require Import base tactics option numbers list.
From S2P Require Import Prelude Bitmanip Ports Descriptors.

Definition AddressPort : Z := 0xCF8.
Definition DataPort : Z := 0xCFC.
Definition MaxBus : Z := 8.
Definition MaxDevice : Z := 32.
Definition MaxFunction : Z := 8.

(** ** PCI::Config, a union with the address word *)
Record Config := mkConfig {
  cf_Zero : Z; cf_Register : Z; cf_Function : Z; cf_Device : Z; cf_Bus : Z; cf_Reserved : Z; cf_Enable : Z
}.
#[export] Instance Config_bits : BitStruct Config := {
  st_layout := [2; 6; 3; 5; 8; 7; 1];
  st_fields c := [cf_Zero c; cf_Register c; cf_Function c; cf_Device c; cf_Bus c; cf_Reserved c; cf_Enable c];
  st_make l := match l with [z; r; f; d; b; x; e] => Some (mkConfig z r f d b x e) | _ => None end
}.
#[export] Instance Config_laws : BitStructLaws Config.
Proof. bit_struct. Qed.

(** the constructor leaves [Reserved] as it finds it: [rsv] *)
Definition Config_new (rsv b d f r : Z) : Config :=
  mkConfig 0 (wrap 6 r) (wrap 3 f) (wrap 5 d) (wrap 8 b) rsv 1.

Section config.
Context {D : Type} `{PortIO D} (rsv : Z).

Definition sanityCheck : io D unit :=
  out32 AddressPort 0x80000000;;
  v ← in32 AddressPort;
  io_lift (kassert (v =? 0x80000000)).

Definition readConfig (width bus dev func reg : Z) : io D Z :=
  let shift := Z.land reg 3 * 8 in
  io_lift (kassert (width + shift <=? 32));;
  out32 AddressPort (encode (Config_new rsv bus dev func (reg / 4)));;
  v ← in32 DataPort;
  mret (Z.land (Z.shiftr v shift) (bitmask 32 width)).

Definition writeConfig (width bus dev func reg value : Z) : io D unit :=
  let shift := Z.land reg 3 * 8 in
  io_lift (kassert (width + shift <=? 32));;
  out32 AddressPort (encode (Config_new rsv bus dev func (reg / 4)));;
  out32 DataPort (wrap 32 (Z.shiftl (Z.land value (bitmask 32 width)) shift)).

(** [Register<reg,width>]: its address and its width in bytes *)
Definition Reg : Type := Z * Z.
Definition reg_read (r : Reg) (bus dev func off : Z) : io D Z :=
  readConfig (r.2 * 8) bus dev func (wrap 8 (r.1 + off * r.2)).
Definition reg_write (r : Reg) (bus dev func val off : Z) : io D unit :=
  writeConfig (r.2 * 8) bus dev func (wrap 8 (r.1 + off * r.2)) val.
End config.

Definition VendorID : Reg := (0, 2).
Definition DeviceID : Reg := (2, 2).
Definition Command : Reg := (4, 2).
Definition Status : Reg := (6, 2).
Definition RevisionID : Reg := (8, 1).
Definition ProgIF : Reg := (9, 1).
Definition SubClass : Reg := (10, 1).
Definition ClassCode : Reg := (11, 1).
Definition CacheLineSize : Reg := (12, 1).
Definition LatencyTimer : Reg := (13, 1).
Definition HeaderType : Reg := (14, 1).
Definition BIST : Reg := (15, 1).
Definition BAR : Reg := (16, 4).
Definition CardbusCIS : Reg := (40, 4).
Definition SubVendorID : Reg := (44, 2).
Definition SubSystemID : Reg := (46, 2).
Definition ExpansionROM : Reg := (48, 4).
Definition Capabilities : Reg := (52, 1).
Definition InterruptLine : Reg := (60, 1).
Definition InterruptPin : Reg := (61, 1).
Definition MinGrant : Reg := (62, 1).
Definition MaxLatency : Reg := (63, 1).
Definition PrimaryBus : Reg := (24, 1).
Definition SecondaryBus : Reg := (25, 1).
Definition SubordinateBus : Reg := (26, 1).
Definition SecondaryLatencyTimer : Reg := (27, 1).

(** ** Enumeration *)
Record PCIDevice := mkDev { p_bus : Z; p_dev : Z; p_func : Z; p_irq : Z }.

Section enumeration.
Context {D : Type} `{PortIO D} (rsv : Z).
Abbreviation rd r b d f := (reg_read rsv r b d f 0).

(** a loop that appends to [pciDevList] *)
Fixpoint io_for {A} (l : list A) (body : A -> io D (list PCIDevice)) : io D (list PCIDevice) :=
  match l with
  | [] => mret []
  | x :: l => r ← body x; rs ← io_for l body; mret (r ++ rs)
  end.

Definition read_bars (n : nat) (bus dev func : Z) : io D (list PCIDevice) :=
  io_for (seq 0 n) (fun i => reg_read rsv BAR bus dev func (Z.of_nat i);; mret []).

(** the devices that a call appends; [checkBus] is the recursive call *)
Definition checkFunction (checkBus : Z -> io D (list PCIDevice)) (bus dev func : Z) : io D (list PCIDevice) :=
  rd VendorID bus dev func;; rd DeviceID bus dev func;; rd Command bus dev func;; rd Status bus dev func;;
  ht ← rd HeaderType bus dev func;
  if Z.land ht 0x7f =? 0 then
    il ← rd InterruptLine bus dev func;
    rd InterruptPin bus dev func;;
    read_bars 6 bus dev func;;
    mret [mkDev bus dev func il]
  else if Z.land ht 0x7f =? 1 then
    sb ← rd SecondaryBus bus dev func;
    read_bars 2 bus dev func;;
    c ← rd ClassCode bus dev func;
    bridge ← (if c =? 0x06 then s ← rd SubClass bus dev func; mret (s =? 0x04) else mret false);
    if (bridge : bool) then checkBus (wrap 8 sb) else mret []
  else if Z.land ht 0x7f =? 2 then mret []
  else io_fail Aborted.

Definition checkDevice (checkBus : Z -> io D (list PCIDevice)) (bus dev : Z) : io D (list PCIDevice) :=
  v ← rd VendorID bus dev 0;
  if v =? 0xffff then mret []
  else
    l ← checkFunction checkBus bus dev 0;
    ht ← rd HeaderType bus dev 0;
    if Z.land ht 0x80 =? 0 then mret l
    else
      l' ← io_for (seqZ 1 (MaxFunction - 1)) (fun func =>
        v ← rd VendorID bus dev func;
        if v =? 0xffff then mret [] else checkFunction checkBus bus dev func);
      mret (l ++ l').

(** [fuel] bounds the nesting of bridges *)
Fixpoint checkBus (fuel : nat) (bus : Z) : io D (list PCIDevice) :=
  match fuel with
  | O => io_fail OutOfFuel
  | S fuel => io_for (seqZ 0 MaxDevice) (checkDevice (checkBus fuel) bus)
  end.

Definition checkAllBuses (fuel : nat) : io D (list PCIDevice) :=
  ht ← rd HeaderType 0 0 0;
  if Z.land ht 0x80 =? 0 then checkBus fuel 0
  else
    io_for (seqZ 0 MaxBus) (fun func =>
      v ← rd VendorID 0 0 func;
      if v =? 0xffff then checkBus fuel func else mret []).

Definition getBARSize (pd : PCIDevice) (idx : Z) : io D Z :=
  let b := p_bus pd in let d := p_dev pd in let f := p_func pd in
  bar ← reg_read rsv BAR b d f idx;
  reg_write rsv BAR b d f 0xffffffff idx;;
  mask ← reg_read rsv BAR b d f idx;
  reg_write rsv BAR b d f bar idx;;
  mret (wrap 32 (wrap 32 (Z.lnot mask) + 1)).
End enumeration.

(** ** The configuration space behind the ports

    [cfg d bus dev func reg] is the 32-bit register number [reg]; reading does
    not change it, and a write reaches the selected register, whose reaction
    is [cfg_react] (registers can have read-only bits). *)
Class PciBus (D : Type) `{PortIO D} := {
  cfg : D -> Z -> Z -> Z -> Z -> Z;
  cfg_react : Z -> Z -> Z -> Z -> Z -> Z -> Z;
  pci_sel : D -> Z;
  cfg_word d b v f r : is_word 32 (cfg d b v f r);
  pci_select d a : let d' := port_out 32 AddressPort a d in
    pci_sel d' = a /\ forall b v f r, cfg d' b v f r = cfg d b v f r;
  pci_read d c : decode (pci_sel d) = Some c -> cf_Enable c = 1 ->
    exists d', port_in 32 DataPort d = (cfg d (cf_Bus c) (cf_Device c) (cf_Function c) (cf_Register c), d') /\
      forall b v f r, cfg d' b v f r = cfg d b v f r;
  pci_write d c x : decode (pci_sel d) = Some c -> cf_Enable c = 1 ->
    forall b v f r, cfg (port_out 32 DataPort x d) b v f r =
      if (b =? cf_Bus c) && (v =? cf_Device c) && (f =? cf_Function c) && (r =? cf_Register c)
      then cfg_react b v f r (cfg d b v f r) x else cfg d b v f r
}.

(** the bytes of the 256-byte configuration space of a function *)
Definition cfg_byte {D} `{PciBus D} (d : D) (bus dev func off : Z) : Z :=
  wrap 8 (Z.shiftr (cfg d bus dev func (off / 4)) ((off mod 4) * 8)).

(** a bus, device and function number in range *)
Definition bdf_ok (b v f : Z) : Prop := is_word 8 b /\ is_word 5 v /\ is_word 3 f.

Section bus.
Context {D : Type} `{PciBus D} (rsv : Z) (Hrsv : is_word 7 rsv).

Definition same_cfg (d d' : D) : Prop := forall b v f r, cfg d' b v f r = cfg d b v f r.

Lemma Config_fits b v f r : fits (Config_new rsv b v f r).
Proof using Hrsv.
  unfold fits. cbn. repeat apply Forall2_cons_2; try apply Forall2_nil_2; try done;
    apply wrap_bounds; lia.
Qed.

Lemma select_run b v f r d : is_word 6 r -> bdf_ok b v f ->
  exists d1 c, out32 AddressPort (encode (Config_new rsv b v f r)) d = Ok (tt, d1) /\ same_cfg d d1 /\
    decode (pci_sel d1) = Some c /\ cf_Enable c = 1 /\
    cf_Bus c = b /\ cf_Device c = v /\ cf_Function c = f /\ cf_Register c = r.
Proof using Hrsv.
  intros Hr (Hb & Hv & Hf). eexists _, _. split; [reflexivity|].
  destruct (pci_select d (wrap 32 (encode (Config_new rsv b v f r)))) as [Hs Hc]. split; [exact Hc|].
  rewrite Hs, wrap_small by exact (encode_bound (Config_new rsv b v f r)). rewrite decode_encode by apply Config_fits.
  split; [done|]. cbn. rewrite !wrap_small by done. done.
Qed.

Lemma mod4_land reg : Z.land reg 3 = reg mod 4.
Proof. apply (Z.land_ones reg 2). lia. Qed.

Lemma readConfig_run width b v f reg d :
  bdf_ok b v f -> 0 <= reg < 256 -> 0 <= width -> width + reg mod 4 * 8 <= 32 ->
  exists d', readConfig rsv width b v f reg d =
    Ok (Z.shiftr (cfg d b v f (reg / 4)) (reg mod 4 * 8) mod 2 ^ width, d') /\ same_cfg d d'.
Proof using Hrsv.
  intros Hok Hr Hw Hs. pose proof (Z.mod_pos_bound reg 4 ltac:(lia)). unfold readConfig. rewrite mod4_land, (proj2 (Z.leb_le _ _) Hs).
  erewrite io_bind_run by reflexivity.
  assert (is_word 6 (reg / 4)) as Hr6.
  { split; [apply Z.div_pos; lia|apply Z.div_lt_upper_bound; lia]. }
  destruct (select_run b v f (reg / 4) d Hr6 Hok) as (d1 & c & E & Hsame & Hdec & He & <- & <- & <- & Hreg).
  rewrite (io_bind_run _ _ _ _ _ E). destruct (pci_read d1 c Hdec He) as (d2 & E2 & Hsame2).
  exists d2. split; [|intros ? ? ? ?; by rewrite Hsame2].
  unfold in32, mbind, io_bind, mret, io_ret. rewrite E2. cbn -[Z.shiftr Z.land bitmask].
  rewrite wrap_small by apply cfg_word. rewrite bitmask_eq by lia. do 2 f_equal.
  rewrite <- Z.land_ones, Z.ones_equiv by lia. rewrite Hsame, Hreg. by rewrite Z.sub_1_r.
Qed.

Lemma reg_read_run (r : Reg) b v f d :
  bdf_ok b v f -> 0 <= r.1 < 256 -> 0 <= r.2 -> r.2 * 8 + r.1 mod 4 * 8 <= 32 ->
  exists d', reg_read rsv r b v f 0 d =
    Ok (Z.shiftr (cfg d b v f (r.1 / 4)) (r.1 mod 4 * 8) mod 2 ^ (r.2 * 8), d') /\ same_cfg d d'.
Proof using Hrsv.
  intros. unfold reg_read. rewrite Z.mul_0_l, Z.add_0_r, (wrap_small 8) by done.
  apply readConfig_run; [done..|lia|done].
Qed.

Lemma writeConfig_run width b v f reg x d :
  bdf_ok b v f -> 0 <= reg < 256 -> 0 <= width -> width + reg mod 4 * 8 <= 32 ->
  exists d', writeConfig rsv width b v f reg x d = Ok (tt, d') /\
    forall b' v' f' r', cfg d' b' v' f' r' =
      if (b' =? b) && (v' =? v) && (f' =? f) && (r' =? reg / 4)
      then cfg_react b' v' f' r' (cfg d b' v' f' r') (wrap 32 (Z.shiftl (x mod 2 ^ width) (reg mod 4 * 8)))
      else cfg d b' v' f' r'.
Proof using Hrsv.
  intros Hok Hr Hw Hs. pose proof (Z.mod_pos_bound reg 4 ltac:(lia)). unfold writeConfig. rewrite mod4_land, (proj2 (Z.leb_le _ _) Hs).
  erewrite io_bind_run by reflexivity.
  assert (is_word 6 (reg / 4)) as Hr6.
  { split; [apply Z.div_pos; lia|apply Z.div_lt_upper_bound; lia]. }
  destruct (select_run b v f (reg / 4) d Hr6 Hok) as (d1 & c & E & Hsame & Hdec & He & <- & <- & <- & Hreg).
  rewrite (io_bind_run _ _ _ _ _ E). eexists. split; [reflexivity|]. intros b' v' f' r'.
  rewrite (pci_write d1 c _ Hdec He), Hreg, Hsame. rewrite bitmask_eq by lia.
  rewrite Z.sub_1_r, <- Z.ones_equiv, Z.land_ones by lia.
  rewrite (wrap_small 32 (wrap 32 _)) by (apply wrap_bounds; lia). done.
Qed.

(** the bytes of a register, lowest first *)
Fixpoint cfg_bytes (d : D) (b v f off : Z) (n : nat) : Z :=
  match n with O => 0 | S n => cfg_byte d b v f off + 2 ^ 8 * cfg_bytes d b v f (off + 1) n end.

Lemma cfg_bytes_eq d b v f off n : 0 <= off -> off mod 4 + Z.of_nat n <= 4 ->
  cfg_bytes d b v f off n = Z.shiftr (cfg d b v f (off / 4)) (off mod 4 * 8) mod 2 ^ (Z.of_nat n * 8).
Proof using.
  revert off. induction n as [|n IH]; intros off Ho Hn.
  { cbn [cfg_bytes Z.of_nat]. by rewrite Z.mul_0_l, Z.mod_1_r. }
  cbn [cfg_bytes]. pose proof (Z.mod_pos_bound off 4 ltac:(lia)) as Hm. destruct n as [|n].
  { cbn [cfg_bytes]. unfold cfg_byte, wrap. change (Z.of_nat 1 * 8) with 8. lia. }
  assert ((off + 1) / 4 = off / 4 /\ (off + 1) mod 4 = off mod 4 + 1) as [Hd Hmod].
  { pose proof (Z.div_mod off 4 ltac:(lia)). pose proof (Z.div_mod (off + 1) 4 ltac:(lia)).
    pose proof (Z.mod_pos_bound (off + 1) 4 ltac:(lia)). lia. }
  rewrite IH by lia. rewrite Hd, Hmod. unfold cfg_byte, wrap.
  set (x := cfg d b v f (off / 4)). set (s := off mod 4 * 8).
  replace ((off mod 4 + 1) * 8) with (s + 8) by (unfold s; lia).
  rewrite <- Z.shiftr_shiftr by (unfold s; lia).
  rewrite (Z.shiftr_div_pow2 (Z.shiftr x s) 8) by lia.
  replace (Z.of_nat (S (S n)) * 8) with (8 + Z.of_nat (S n) * 8) by lia.
  rewrite (Z.pow_add_r 2 8) by lia. rewrite Z.rem_mul_r; [done|lia|]. apply Z.pow_pos_nonneg; lia.
Qed.
End bus.

(** ** What the enumeration finds, for a configuration [d] *)
Section found.
Context {D : Type} `{PciBus D} (rsv : Z) (Hrsv : is_word 7 rsv) (d : D).

Definition reg_val (r : Reg) (b v f : Z) : Z :=
  Z.shiftr (cfg d b v f (r.1 / 4)) (r.1 mod 4 * 8) mod 2 ^ (r.2 * 8).
Definition exists_fn (b v f : Z) : bool := negb (reg_val VendorID b v f =? 0xffff).
Definition header (b v f : Z) : Z := Z.land (reg_val HeaderType b v f) 0x7f.
Definition multi (b v : Z) : bool := negb (Z.land (reg_val HeaderType b v 0) 0x80 =? 0).
Definition is_bridge (b v f : Z) : bool :=
  (header b v f =? 1) && (reg_val ClassCode b v f =? 0x06) && (reg_val SubClass b v f =? 0x04).
Definition secondary (b v f : Z) : Z := reg_val SecondaryBus b v f.

(** function [f] of device [v] on bus [b] *)
Definition is_fn (b v f : Z) : Prop :=
  0 <= v < MaxDevice /\ exists_fn b v 0 = true /\
  (f = 0 \/ multi b v = true /\ 1 <= f < MaxFunction /\ exists_fn b v f = true).

(** the buses behind a bus *)
Inductive reaches : Z -> Z -> Prop :=
  | reaches_refl b : reaches b b
  | reaches_bridge b v f b' :
      is_fn b v f -> is_bridge b v f = true -> reaches (secondary b v f) b' -> reaches b b'.

(** bridges lead to buses with higher numbers, and header types are known *)
Definition numbered : Prop := forall b v f, is_word 8 b -> is_fn b v f ->
  header b v f <= 2 /\ (is_bridge b v f = true -> b < secondary b v f).

Definition runs {A} (p : io D A) (a : A) : Prop :=
  forall d0, same_cfg d d0 -> exists d1, p d0 = Ok (a, d1) /\ same_cfg d d1.

Lemma runs_ret {A} (a : A) : runs (mret a) a.
Proof using. intros d0 H1. by exists d0. Qed.

Lemma runs_bind {A B} (p : io D A) (k : A -> io D B) a b :
  runs p a -> runs (k a) b -> runs (p ≫= k) b.
Proof using.
  intros Hp Hk d0 H1. destruct (Hp d0 H1) as (d1 & E1 & H2). destruct (Hk d1 H2) as (d2 & E2 & H3).
  exists d2. by rewrite (io_bind_run _ _ _ _ _ E1).
Qed.

Lemma runs_rd (r : Reg) b v f :
  bdf_ok b v f -> (0 <=? r.1) && (r.1 <? 256) && (0 <=? r.2) && (r.2 * 8 + r.1 mod 4 * 8 <=? 32) = true ->
  runs (reg_read rsv r b v f 0) (reg_val r b v f).
Proof using Hrsv.
  intros Hok Hr d0 H1. rewrite !andb_true_iff, !Z.leb_le, Z.ltb_lt in Hr.
  destruct (reg_read_run rsv Hrsv r b v f d0 Hok) as (d1 & E & H2); [lia..|].
  exists d1. rewrite E. unfold reg_val. rewrite (H1 b v f). split; [done|].
  intros b' v' f' r'. by rewrite H2, H1.
Qed.

Lemma runs_for {A} (l : list A) body (g : A -> list PCIDevice) :
  (forall x, x ∈ l -> runs (body x) (g x)) -> runs (io_for l body) (concat (g <$> l)).
Proof using.
  induction l as [|x l IH]; intros Hl; simpl; [apply runs_ret|].
  eapply runs_bind; [apply Hl; left|]. eapply runs_bind; [apply IH|apply runs_ret].
  intros y Hy. apply Hl. by right.
Qed.

Lemma runs_bars n b v f : bdf_ok b v f -> (n <= 6)%nat -> runs (read_bars rsv n b v f) [].
Proof using Hrsv.
  intros Hok Hn. unfold read_bars.
  assert (concat ((fun _ => []) <$> seq 0 n) = @nil PCIDevice) as Hnil.
  { generalize (seq 0 n). induction l as [|x l IH]; [done|]. simpl. apply IH. }
  enough (runs (io_for (seq 0 n) (fun i => reg_read rsv BAR b v f (Z.of_nat i);; mret []))
    (concat ((fun _ => []) <$> seq 0 n))) as Hr by by rewrite Hnil in Hr.
  apply runs_for. intros i Hi%elem_of_seq d0 H1. unfold reg_read. rewrite (wrap_small 8) by (cbn; lia).
  assert ((BAR.1 + Z.of_nat i * BAR.2) mod 4 = 0) as Hm.
  { cbn. replace (16 + Z.of_nat i * 4) with (0 + (4 + Z.of_nat i) * 4) by lia. by rewrite Z_mod_plus_full. }
  destruct (readConfig_run rsv Hrsv (BAR.2 * 8) b v f (BAR.1 + Z.of_nat i * BAR.2) d0 Hok)
    as (d1 & E & H2); [cbn; lia|cbn; lia|rewrite Hm; cbn; lia|].
  exists d1. rewrite (io_bind_run _ _ _ _ _ E). split; [done|]. intros b' v' f' r'. by rewrite H2, H1.
Qed.

Definition fn_found (rec : Z -> list PCIDevice) (b v f : Z) : list PCIDevice :=
  if header b v f =? 0 then [mkDev b v f (reg_val InterruptLine b v f)]
  else if is_bridge b v f then rec (secondary b v f) else [].
Definition fns (b v : Z) : list Z :=
  if exists_fn b v 0
  then 0 :: (if multi b v then filter (fun f => exists_fn b v f = true) (seqZ 1 7) else [])
  else [].
Fixpoint found (fuel : nat) (b : Z) : list PCIDevice :=
  match fuel with
  | O => []
  | S fuel => concat ((fun v => concat (fn_found (found fuel) b v <$> fns b v)) <$> seqZ 0 MaxDevice)
  end.

Lemma elem_of_fns b v f : 0 <= v < MaxDevice -> f ∈ fns b v <-> is_fn b v f.
Proof using.
  intros Hv. unfold fns, is_fn. destruct (exists_fn b v 0) eqn:He.
  - rewrite elem_of_cons. destruct (multi b v).
    + rewrite list_elem_of_filter, elem_of_seqZ. unfold MaxFunction. split; intros H1.
      * destruct H1 as [->|[H1 H2]]; [naive_solver|]. split; [done|]. split; [done|]. right. split; [done|]. split; [lia|done].
      * destruct H1 as (_ & _ & [->|(_ & H1 & H2)]); [by left|]. right. split; [done|lia].
    + rewrite elem_of_nil. naive_solver.
  - rewrite elem_of_nil. naive_solver.
Qed.

Lemma elem_of_concat_fmap {A B} (g : A -> list B) l y :
  y ∈ concat (g <$> l) <-> exists x, x ∈ l /\ y ∈ g x.
Proof using.
  induction l as [|x l IH]; simpl.
  - split; [by intros ?%elem_of_nil|]. intros (x & H1%elem_of_nil & _). done.
  - rewrite elem_of_app, IH. split.
    + intros [H1|(x' & H1 & H2)]; [exists x; split; [left|done]|exists x'; split; [by right|done]].
    + intros (x' & [->|H1]%elem_of_cons & H2); [by left|right; by exists x'].
Qed.

Lemma reg_val_word r b v f : 0 <= r.2 -> is_word (r.2 * 8) (reg_val r b v f).
Proof using. intros. apply Z.mod_pos_bound, Z.pow_pos_nonneg; lia. Qed.

Lemma is_fn_ok b v f : is_word 8 b -> is_fn b v f -> bdf_ok b v f.
Proof using.
  intros Hb (Hv & _ & Hf). unfold MaxDevice, MaxFunction, bdf_ok, is_word in *.
  split; [done|]. split; [lia|]. destruct Hf as [->|(_ & Hf & _)]; lia.
Qed.

Ltac rd := first [apply runs_rd; [assumption|reflexivity] | apply runs_ret].

Lemma checkFunction_runs crec rec b v f :
  bdf_ok b v f -> header b v f <= 2 ->
  (is_bridge b v f = true -> runs (crec (secondary b v f)) (rec (secondary b v f))) ->
  runs (checkFunction rsv crec b v f) (fn_found rec b v f).
Proof using Hrsv.
  intros Hok Hht Hrec. unfold checkFunction, fn_found, is_bridge in *.
  do 4 (eapply runs_bind; [rd|]). eapply runs_bind; [rd|]. fold (header b v f).
  assert (0 <= header b v f) as H0' by (apply Z.land_nonneg; right; lia).
  destruct (Z.eqb_spec (header b v f) 0) as [|Hn0].
  { do 2 (eapply runs_bind; [rd|]). eapply runs_bind; [by apply runs_bars|rd]. }
  destruct (Z.eqb_spec (header b v f) 1) as [|Hn1]; cbn [andb] in *.
  - eapply runs_bind; [rd|]. eapply runs_bind; [by apply runs_bars; [|lia]|]. eapply runs_bind; [rd|].
    fold (secondary b v f). rewrite (wrap_small 8) by (apply (reg_val_word SecondaryBus); cbn; lia).
    destruct (reg_val ClassCode b v f =? 6); cbn [andb] in *.
    + eapply runs_bind; [eapply runs_bind; rd|].
      destruct (reg_val SubClass b v f =? 4); [by apply Hrec|rd].
    + eapply runs_bind; rd.
  - rewrite (proj2 (Z.eqb_eq (header b v f) 2)) by lia. rd.
Qed.

(** the filter of the functions of a device, in the order of the loop *)
Lemma concat_filter {A B} (P : A -> Prop) `{!forall x, Decision (P x)} (g : A -> list B) l :
  concat ((fun x => if decide (P x) then g x else []) <$> l) = concat (g <$> filter P l).
Proof using.
  induction l as [|x l IH]; [done|]. rewrite filter_cons, fmap_cons. cbn [concat].
  destruct (decide (P x)); cbn [fmap list_fmap concat app]; [by f_equal|done].
Qed.

Lemma checkDevice_runs crec rec b v :
  is_word 8 b -> 0 <= v < MaxDevice ->
  (forall f, is_fn b v f -> header b v f <= 2 /\
    (is_bridge b v f = true -> runs (crec (secondary b v f)) (rec (secondary b v f)))) ->
  runs (checkDevice rsv crec b v) (concat (fn_found rec b v <$> fns b v)).
Proof using Hrsv.
  intros Hb Hv Hf. unfold checkDevice, fns.
  assert (forall f, 0 <= f < MaxFunction -> bdf_ok b v f) as Hok.
  { unfold bdf_ok, is_word, MaxDevice, MaxFunction in *. lia. }
  assert (bdf_ok b v 0) as Hok0 by (apply Hok; unfold MaxFunction; lia).
  eapply runs_bind; [rd|]. unfold exists_fn at 1. destruct (reg_val VendorID b v 0 =? 65535) eqn:He; [rd|].
  assert (exists_fn b v 0 = true) as He0 by (unfold exists_fn; by rewrite He).
  cbn [negb fmap list_fmap concat]. eapply runs_bind.
  { destruct (Hf 0) as [H1 H2]; [split; [done|split; [done|by left]]|]. by apply checkFunction_runs. }
  eapply runs_bind; [rd|]. fold (header b v 0). unfold multi.
  destruct (Z.land (reg_val HeaderType b v 0) 0x80 =? 0) eqn:Hm; cbn [negb].
  { cbn [fmap list_fmap concat]. rewrite app_nil_r. rd. }
  eapply runs_bind; [|rd]. rewrite <- concat_filter. apply runs_for. intros f Hin%elem_of_seqZ.
  assert (bdf_ok b v f) as Hokf by (apply Hok; unfold MaxFunction in *; lia).
  eapply runs_bind; [rd|].
  destruct (decide _) as [Hd|Hd]; unfold exists_fn in Hd;
    destruct (reg_val VendorID b v f =? 65535) eqn:Hef; try done; [|rd].
  destruct (Hf f) as [H1 H2]; [|by apply checkFunction_runs]. split; [done|]. split; [done|]. right.
  unfold multi, exists_fn, MaxFunction in *. rewrite Hm, Hef. split; [done|]. split; [lia|done].
Qed.

Lemma checkBus_runs fuel b : numbered -> is_word 8 b -> 256 - b <= Z.of_nat fuel ->
  runs (checkBus rsv fuel b) (found fuel b).
Proof using Hrsv.
  intros Hnum. revert b. induction fuel as [|fuel IH]; intros b Hb Hfuel; [unfold is_word in Hb; lia|].
  cbn [checkBus found]. apply (runs_for _ _ (fun v => concat (fn_found (found fuel) b v <$> fns b v))).
  intros v Hv%elem_of_seqZ. apply checkDevice_runs; [done|lia|]. intros f Hf.
  destruct (Hnum b v f Hb Hf) as [H1 H2]. split; [done|]. intros Hbr. specialize (H2 Hbr).
  apply IH; [|lia]. apply (reg_val_word SecondaryBus). cbn. lia.
Qed.

Lemma elem_of_found fuel b x : numbered -> is_word 8 b -> 256 - b <= Z.of_nat fuel ->
  x ∈ found fuel b <-> exists b' v f, reaches b b' /\ is_fn b' v f /\ header b' v f = 0 /\
    x = mkDev b' v f (reg_val InterruptLine b' v f).
Proof using.
  intros Hnum. revert b. induction fuel as [|fuel IH]; intros b Hb Hfuel; [unfold is_word in Hb; lia|].
  cbn [found]. rewrite elem_of_concat_fmap. setoid_rewrite elem_of_concat_fmap.
  assert (forall v f, is_fn b v f -> is_bridge b v f = true ->
    b < secondary b v f /\ is_word 8 (secondary b v f)) as Hsec.
  { intros v f Hf Hbr. split; [by apply (Hnum b v f Hb Hf)|]. apply (reg_val_word SecondaryBus). cbn. lia. }
  split.
  - intros (v & Hv%elem_of_seqZ & f & Hf & Hx). rewrite elem_of_fns in Hf by lia. unfold fn_found in Hx.
    destruct (Z.eqb_spec (header b v f) 0) as [Hh|].
    { apply list_elem_of_singleton in Hx as ->. exists b, v, f. split; [constructor|]. done. }
    destruct (is_bridge b v f) eqn:Hbr; [|by apply elem_of_nil in Hx]. destruct (Hsec v f Hf Hbr).
    apply IH in Hx as (b' & v' & f' & Hr & Hx); [|done|lia]. exists b', v', f'. split; [|done].
    by eapply reaches_bridge.
  - intros (b' & v' & f' & Hr & Hf' & Hh & ->). destruct Hr as [b|b v f b' Hf Hbr Hr].
    + destruct Hf' as [Hv Hf']. exists v'. split; [apply elem_of_seqZ; lia|]. exists f'.
      split; [by apply elem_of_fns|]. unfold fn_found. rewrite Hh. by apply list_elem_of_singleton.
    + destruct (Hsec v f Hf Hbr). destruct Hf as [Hv Hf]. exists v. split; [apply elem_of_seqZ; lia|].
      exists f. split; [by apply elem_of_fns|]. unfold fn_found. rewrite Hbr.
      assert (header b v f = 1) as ->.
      { unfold is_bridge in Hbr. rewrite !andb_true_iff, !Z.eqb_eq in Hbr. tauto. }
      cbn. apply IH; [done|lia|]. by exists b', v', f'.
Qed.
End found.

(** ** Properties *)

(** C34. The enumeration ends and finds exactly the functions that can be
    reached: with one host controller, header types known and bridges that
    lead to higher bus numbers, [checkAllBuses] returns the functions with a
    general header on bus 0 and on the buses behind its bridges, with their
    interrupt lines, and leaves the configuration space as it is; 256 levels
    of bridges are enough. *)
Theorem pci_enumeration {D} `{PciBus D} (rsv : Z) (d : D) (fuel : nat) :
  is_word 7 rsv -> numbered d -> multi d 0 0 = false -> (256 <= fuel)%nat ->
  exists l d', checkAllBuses rsv fuel d = Ok (l, d') /\ same_cfg d d' /\
    forall x, x ∈ l <-> exists b v f, reaches d 0 b /\ is_fn d b v f /\ header d b v f = 0 /\
      x = mkDev b v f (reg_val d InterruptLine b v f).
Proof.
  intros Hrsv Hnum Hm Hf. assert (runs d (checkAllBuses rsv fuel) (found d fuel 0)) as Hr.
  { eapply runs_bind; [apply runs_rd; [done|unfold bdf_ok, is_word; lia|done]|].
    unfold multi in Hm. apply negb_false_iff in Hm. rewrite Hm.
    apply checkBus_runs; [done..|unfold is_word; lia|lia]. }
  destruct (Hr d) as (d' & E & Hs); [done|]. exists (found d fuel 0), d'. split; [done|]. split; [done|].
  intros x. apply elem_of_found; [done|unfold is_word; lia|lia].
Qed.

(** [readConfig] reads exactly the bytes of the register, lowest first, and
    changes nothing; an access that crosses a 32-bit register fails its
    assertion; [writeConfig] writes the whole 32-bit register, with zeros
    outside of the bytes that are addressed. *)
Theorem pci_config_access {D} `{PciBus D} (rsv : Z) (d : D) (n : nat) (b v f reg x : Z) :
  is_word 7 rsv -> bdf_ok b v f -> 0 <= reg < 256 -> n = 1%nat \/ n = 2%nat \/ n = 4%nat ->
  let width := Z.of_nat n * 8 in
  if reg mod 4 + Z.of_nat n <=? 4 then
    (exists d', readConfig rsv width b v f reg d = Ok (cfg_bytes d b v f reg n, d') /\ same_cfg d d') /\
    (exists d', writeConfig rsv width b v f reg x d = Ok (tt, d') /\
      forall b' v' f' r', cfg d' b' v' f' r' =
        if (b' =? b) && (v' =? v) && (f' =? f) && (r' =? reg / 4)
        then cfg_react b' v' f' r' (cfg d b' v' f' r') (x mod 2 ^ width * 2 ^ (reg mod 4 * 8))
        else cfg d b' v' f' r')
  else readConfig rsv width b v f reg d = Err AssertFailed /\
    writeConfig rsv width b v f reg x d = Err AssertFailed.
Proof.
  intros Hrsv Hok Hr Hn width. pose proof (Z.mod_pos_bound reg 4 ltac:(lia)).
  destruct (Z.leb_spec (reg mod 4 + Z.of_nat n) 4) as [Hle|Hgt].
  - split.
    + rewrite (cfg_bytes_eq d) by lia.
      destruct (readConfig_run rsv Hrsv width b v f reg d Hok Hr) as (d' & E & Hs); [unfold width; lia..|].
      by exists d'.
    + destruct (writeConfig_run rsv Hrsv width b v f reg x d Hok Hr) as (d' & E & Hs); [unfold width; lia..|].
      exists d'. split; [done|]. intros b' v' f' r'. rewrite Hs, Z.shiftl_mul_pow2 by lia.
      rewrite (wrap_small 32); [done|].
      assert (0 <= x mod 2 ^ width < 2 ^ width) as Hx
        by (apply Z.mod_pos_bound, Z.pow_pos_nonneg; unfold width; lia).
      split; [apply Z.mul_nonneg_nonneg; lia|]. apply (Z.lt_le_trans _ (2 ^ width * 2 ^ (reg mod 4 * 8))).
      * apply Z.mul_lt_mono_pos_r; [apply Z.pow_pos_nonneg; lia|lia].
      * rewrite <- Z.pow_add_r by (unfold width; lia). apply Z.pow_le_mono_r; unfold width; lia.
  - unfold readConfig, writeConfig. rewrite mod4_land. fold width.
    destruct (Z.leb_spec (width + reg mod 4 * 8) 32); [unfold width in *; lia|]. done.
Qed.

(** ** A simulated configuration space *)
Record pci_sim := mkSim { sim_sel : Z; sim_cfg : Z -> Z -> Z -> Z -> Z }.

#[export] Instance pci_sim_ports : PortIO pci_sim := {
  port_in w p s :=
    match decode (A := Config) (sim_sel s) with
    | Some c => (wrap 32 (sim_cfg s (cf_Bus c) (cf_Device c) (cf_Function c) (cf_Register c)), s)
    | None => (0, s)
    end;
  port_out w p x s :=
    if p =? AddressPort then mkSim x (sim_cfg s)
    else match decode (A := Config) (sim_sel s) with
    | Some c => mkSim (sim_sel s) (fun b v f r =>
        if (b =? cf_Bus c) && (v =? cf_Device c) && (f =? cf_Function c) && (r =? cf_Register c)
        then x else sim_cfg s b v f r)
    | None => s
    end
}.

#[export] Instance pci_sim_bus : PciBus pci_sim.
Proof.
  refine (Build_PciBus _ _ (fun s b v f r => wrap 32 (sim_cfg s b v f r))
    (fun b v f r old x => wrap 32 x) sim_sel _ _ _ _).
  - intros. apply wrap_bounds. lia.
  - done.
  - intros d c Hc _. exists d. cbn [port_in pci_sim_ports]. by rewrite Hc.
  - intros d c x Hc _ b v f r. cbn [port_out pci_sim_ports]. change (DataPort =? AddressPort) with false.
    rewrite Hc. cbn [sim_cfg]. by destruct (_ && _).
Defined.

(** bus 0: the host, a device, and a bridge to bus 1 with another device *)
Definition sim_example : pci_sim := mkSim 0 (fun b v f r =>
  if (b =? 0) && (v =? 0) && (f =? 0) then (if r =? 0 then 0x12378086 else 0)
  else if (b =? 0) && (v =? 3) && (f =? 0) then (if r =? 0 then 0x12345678 else if r =? 15 then 11 else 0)
  else if (b =? 0) && (v =? 5) && (f =? 0) then
    (if r =? 0 then 0x11111111 else if r =? 2 then 0x06040000 else if r =? 3 then 0x00010000
     else if r =? 6 then 0x00000100 else 0)
  else if (b =? 1) && (v =? 0) && (f =? 0) then (if r =? 0 then 0x22222222 else if r =? 15 then 5 else 0)
  else 0xffffffff).

Lemma sim_exists b v f : exists_fn sim_example b v f = true ->
  f = 0 /\ (b = 0 /\ v = 0 \/ b = 0 /\ v = 3 \/ b = 0 /\ v = 5 \/ b = 1 /\ v = 0).
Proof.
  cbv [exists_fn reg_val cfg pci_sim_bus sim_cfg sim_example VendorID fst snd].
  change (0 / 4) with 0. change (0 =? 0) with true. change (0 =? 2) with false. cbv iota.
  destruct (Z.eqb_spec f 0); [|rewrite !andb_false_r; by vm_compute].
  destruct (Z.eqb_spec b 0); cbn [andb].
  - destruct (Z.eqb_spec v 0); [lia|]. destruct (Z.eqb_spec v 3); [lia|]. destruct (Z.eqb_spec v 5); [lia|]. cbn [andb].
    destruct (Z.eqb_spec b 1); [lia|]. by vm_compute.
  - destruct (Z.eqb_spec b 1); [|by vm_compute]. destruct (Z.eqb_spec v 0); [lia|]. by vm_compute.
Qed.

Lemma sim_numbered : numbered sim_example.
Proof.
  intros b v f _ (_ & H0 & Hf). apply sim_exists in H0 as [_ H0].
  assert (f = 0) as -> by (destruct Hf as [->|(_ & _ & Hf)]; [done|by apply sim_exists in Hf as [-> _]]).
  destruct H0 as [[-> ->]|[[-> ->]|[[-> ->]|[-> ->]]]]; vm_compute; split; done.
Qed.

Lemma pci_enumeration_witness : exists l d', checkAllBuses 0 256 sim_example = Ok (l, d') /\
  mkDev 1 0 0 5 ∈ l.
Proof.
  destruct (pci_enumeration 0 sim_example 256) as (l & d' & E & _ & Hl).
  - unfold is_word. lia.
  - exact sim_numbered.
  - vm_compute. reflexivity.
  - lia.
  - exists l, d'. split; [exact E|]. apply Hl. exists 1, 0, 0. split.
    + apply (reaches_bridge _ 0 5 0 1); [|vm_compute; reflexivity|constructor].
      split; [unfold MaxDevice; lia|]. split; [vm_compute; reflexivity|left; reflexivity].
    + split; [split; [unfold MaxDevice; lia|split; [vm_compute; reflexivity|left; reflexivity]]|].
      split; vm_compute; reflexivity.
Defined.

Lemma pci_config_access_witness : exists d',
  readConfig 0 16 0 3 0 2 sim_example = Ok (cfg_bytes sim_example 0 3 0 2 2, d') /\ same_cfg sim_example d'.
Proof.
  destruct (pci_config_access 0 sim_example 2 0 3 0 2 0) as [H _].
  - unfold is_word. lia.
  - unfold bdf_ok, is_word. lia.
  - lia.
  - right. left. reflexivity.
  - exact H.
Defined.

(** a host with several controllers: the test of the vendor is inverted, and
    the buses of the controllers that exist are not scanned *)
Definition sim_hosts : pci_sim := mkSim 0 (fun b v f r =>
  if (v =? 0) && (r =? 0) then 0x12345678 else if (v =? 0) && (r =? 3) then 0x00800000 else 0).

Lemma multi_host_finds_nothing : exists d', checkAllBuses 0 256 sim_hosts = Ok ([], d').
Proof. eexists. vm_compute. reflexivity. Qed.

(** an 8-bit write clears the rest of its 32-bit register *)
Lemma narrow_write_clobbers :
  (writeConfig 0 8 0 3 0 0 0xff;; readConfig 0 32 0 3 0 0) (mkSim 0 (fun _ _ _ _ => 0x12345678)) =
  (Ok (0xff, mkSim 0x80001800 (fun b v f r =>
    if (b =? 0) && (v =? 3) && (f =? 0) && (r =? 0) then 0xff else 0x12345678))).
Proof. vm_compute. reflexivity. Qed.

(** a base address register of [2^k] bytes with its low flag bits set, as all
    ports and prefetchable regions have: the flags are not masked out *)
Lemma getBARSize_flags (k flags : Z) : 4 <= k <= 31 -> 0 <= flags < 16 ->
  wrap 32 (wrap 32 (Z.lnot (2 ^ 32 - 2 ^ k + flags)) + 1) = 2 ^ k - flags.
Proof.
  intros Hk Hf. assert (2 ^ 4 <= 2 ^ k <= 2 ^ 31) by (split; apply Z.pow_le_mono_r; lia).
  unfold Z.lnot. replace (Z.pred (- (2 ^ 32 - 2 ^ k + flags))) with (2 ^ k - flags - 1 + (-1) * 2 ^ 32) by lia.
  unfold wrap. rewrite Z_mod_plus_full, (Z.mod_small (2 ^ k - flags - 1)) by lia. rewrite Z.mod_small by lia. lia.
Qed.
