(* ===== verification/Devices.v ===== *)
(** * Small devices: devices/PIT, RTC, ISA_DMA, Serial.h, Screen.h

    The timers, the DMA controller and the serial ports as programs over I/O
    ports; the text screen with its shadow buffer and the segments that share
    it. *)
From Stdlib Require Import ZArith Lia Bool.
From stdpp Require Import base tactics option numbers list.
From S2P Require Import Prelude Bitmanip Ports.

(** ** PIT *)
Definition PIT_frequency : Z := 1000.
Definition PIT_divisor : Z := 1193182 / PIT_frequency.

Section timers.
Context {D : Type} `{PortIO D}.

(** after [Machine::registerIrqSync(PIC::PIT, 0xf0)] *)
Definition PIT_init : io D unit :=
  out8 0x43 0x36;;
  out8 0x40 (Z.land PIT_divisor 0xFF);;
  out8 0x40 (Z.shiftr PIT_divisor 8).

(** ** RTC: the state is [currentTick] *)
Definition RTC_staticInterruptHandler (tick : Z) : io D Z :=
  out8 0x70 0x0C;; in8 0x71;; mret (tick + 1)%w.

(** after [Machine::registerIrqSync(PIC::RTC, 0xf8)] *)
Definition RTC_init (tick : Z) : io D Z :=
  v ← in8 0x70; out8 0x70 (Z.lor v 0x80);;
  out8 0x70 0x0A;;
  prev ← in8 0x71;
  out8 0x70 0x0A;;
  out8 0x71 (Z.lor prev 0x06);;
  out8 0x70 0x0B;;
  prev ← in8 0x71;
  out8 0x70 0x0B;;
  out8 0x71 (Z.lor prev 0x40);;
  v ← in8 0x70; out8 0x70 (Z.land v 0x7F);;
  RTC_staticInterruptHandler tick.

(** [wait]: the test of its loop *)
Definition RTC_waiting (start ticks currentTick : Z) : bool := currentTick <? (start + ticks)%w.

(** ** ISA_DMA *)
Definition Selector : BitString := {| bs_w := 8; bs_Pos := 0; bs_Width := 2 |}.
Definition MaskOn : BitString := {| bs_w := 8; bs_Pos := 2; bs_Width := 1 |}.
Definition Transfer : BitString := {| bs_w := 8; bs_Pos := 2; bs_Width := 2 |}.
Definition Auto : BitString := {| bs_w := 8; bs_Pos := 4; bs_Width := 1 |}.
Definition Down : BitString := {| bs_w := 8; bs_Pos := 5; bs_Width := 1 |}.
Definition Mode : BitString := {| bs_w := 8; bs_Pos := 6; bs_Width := 2 |}.

Record dma_port := mkDmaPort { dp_Address : Z; dp_Count : Z; dp_Page : Z }.
Definition dma_ports : list dma_port :=
  [mkDmaPort 0x00 0x01 0x87; mkDmaPort 0x02 0x03 0x83; mkDmaPort 0x04 0x05 0x81; mkDmaPort 0x06 0x07 0x82;
   mkDmaPort 0xc0 0xc2 0x8f; mkDmaPort 0xc4 0xc6 0x8b; mkDmaPort 0xc8 0xca 0x89; mkDmaPort 0xcc 0xce 0x8a].

Record dma_register := mkDmaReg {
  dr_Status : Z; dr_Command : Z; dr_Request : Z; dr_SingleChannelMask : Z; dr_Mode : Z; dr_FFReset : Z;
  dr_Intermediate : Z; dr_MasterReset : Z; dr_MaskReset : Z; dr_MultiChannelMask : Z
}.
Definition dma_registers : list dma_register :=
  [mkDmaReg 0x08 0x08 0x09 0x0a 0x0b 0x0c 0x0d 0x0d 0x0e 0x0f;
   mkDmaReg 0xd0 0xd0 0xd2 0xd4 0xd6 0xd8 0xda 0xda 0xdc 0xde].

Definition dma_mask (channel : Z) (mask : bool) : io D unit :=
  r ← io_lift (in_bounds (lookupZ dma_registers (channel / 4)));
  out8 (dr_SingleChannelMask r) (Z.lor (Z.land channel (bs_mask Selector)) (bs_put MaskOn (Z.b2z mask))).

Definition dma_setup (channel mode : Z) (autoInit : bool) (buffer length : Z) : io D unit :=
  r ← io_lift (in_bounds (lookupZ dma_registers (channel / 4)));
  p ← io_lift (in_bounds (lookupZ dma_ports channel));
  out8 (dr_FFReset r) 0xff;;
  out8 (dr_Mode r) (Z.lor (Z.land channel (bs_mask Selector))
    (Z.land mode (Z.lor (Z.lor (bs_mask Transfer) (bs_put Auto (Z.b2z autoInit))) (bs_mask Mode))));;
  out8 (dp_Address p) (Z.land buffer 0xff);;
  out8 (dp_Address p) (Z.land (Z.shiftr buffer 8) 0xff);;
  out8 (dp_Page p) (Z.land (Z.shiftr buffer 16) 0xff);;
  out8 (dp_Count p) (Z.land length 0xff);;
  out8 (dp_Count p) (Z.land (Z.shiftr length 8) 0xff).

(** the last two arguments of [setup] are passed in the wrong order *)
Definition startTransfer (channel mode buffer length : Z) : io D bool :=
  if (8 <=? channel) || (channel / 4 =? 0) then mret false
  else if 0x10000 <? length then mret false
  else
    dma_mask channel true;;
    dma_setup channel mode false (length - 1)%w (wrap 16 buffer);;
    dma_mask channel false;;
    mret true.

(** ** SerialDevice, DebugDevice *)
Definition maxSerial : Z := 2.
Definition SerialPort : list Z := [0x3F8; 0x2F8].

Definition serial_init_port (p : Z) : io D unit :=
  out8 (p + 1) 0x00;; out8 (p + 3) 0x80;; out8 (p + 0) 0x01;; out8 (p + 1) 0x00;;
  out8 (p + 3) 0x03;; out8 (p + 2) 0xC7.
Fixpoint serial_init (ports : list Z) : io D unit :=
  match ports with [] => mret tt | p :: ps => serial_init_port p;; serial_init ps end.

Definition serial_write (fuel : nat) (c p : Z) : io D unit :=
  busy_wait fuel (v ← in8 (p + 5); mret (Z.land v 0x20 =? 0));; out8 p c.
Definition serial_read (fuel : nat) (p : Z) : io D Z :=
  busy_wait fuel (v ← in8 (p + 5); mret (Z.land v 1 =? 0));; in8 p.

(** [dbgwrite]: the first port belongs to the debugger *)
Fixpoint dbgwrite_loop (fuel : nat) (c : Z) (ports : list Z) : io D unit :=
  match ports with
  | [] => mret tt
  | p :: ps =>
      serial_write fuel c p;; (if c =? 10 then serial_write fuel 13 p else mret tt);; dbgwrite_loop fuel c ps
  end.
Definition dbgwrite (fuel : nat) (gdb : bool) (c : Z) : io D unit :=
  dbgwrite_loop fuel c (if gdb then drop 1 SerialPort else SerialPort).

Definition debug_init : io D bool := v ← in8 0xE9; mret (v =? 0xE9).
Definition debug_write (fuel : nat) (valid gdb : bool) (c : Z) : io D unit :=
  (if valid then out8 0xE9 c else mret tt);; dbgwrite fuel gdb c.
End timers.

(** ** Screen: the shadow buffer, the video memory and the cursor register *)
Definition xmax : Z := 160.
Definition ymax : Z := 25.

Record screen := mkScreen { sc_buffer : list Z; sc_video : list Z; sc_cursor : Z }.

(** memmove, memset and memcpy on arrays of bytes *)
Definition mem_get (l : list Z) (a n : Z) : res (list Z) :=
  if (0 <=? a) && (0 <=? n) && (a + n <=? lenZ l) then Ok (take (Z.to_nat n) (drop (Z.to_nat a) l))
  else Err OutOfBounds.
Definition mem_put (l : list Z) (a : Z) (bs : list Z) : res (list Z) :=
  if (0 <=? a) && (a + lenZ bs <=? lenZ l)
  then Ok (take (Z.to_nat a) l ++ bs ++ drop (Z.to_nat a + length bs) l)
  else Err OutOfBounds.
Definition mem_set (l : list Z) (a n v : Z) : res (list Z) :=
  if 0 <=? n then mem_put l a (replicate (Z.to_nat n) v) else Err OutOfBounds.

Definition video_copy (offset length : Z) (s : screen) : res screen :=
  bs ← mem_get (sc_buffer s) offset length;
  v ← mem_put (sc_video s) offset bs;
  mret (mkScreen (sc_buffer s) v (sc_cursor s)).

Definition scroll (offset length : Z) (s : screen) : res screen :=
  bs ← mem_get (sc_buffer s) (offset + xmax) (length - xmax);
  b ← mem_put (sc_buffer s) offset bs;
  b ← mem_set b (offset + length - xmax) xmax 0;
  video_copy offset length (mkScreen b (sc_video s) (sc_cursor s)).

(** [equipment] is the word of the BIOS at 0x410 *)
Definition screen_init (equipment : Z) (s : screen) : res (bool * screen) :=
  if Z.land equipment 0x30 =? 0x30 then mret (false, s)
  else
    bs ← mem_get (sc_video s) 0 (ymax * xmax);
    b ← mem_put (sc_buffer s) 0 bs;
    mret (true, mkScreen b (sc_video s) (sc_cursor s)).

(** the high and the low byte that the cursor register receives *)
Definition setcursor (position : Z) (s : screen) : screen :=
  let p := position / 2 in
  mkScreen (sc_buffer s) (sc_video s) (2 ^ 8 * wrap 8 (Z.shiftr p 8) + wrap 8 p).

Definition screen_offset (firstline : Z) : Z := (firstline - 1) * xmax.
Definition screen_length (firstline lastline : Z) : Z := (1 + lastline - firstline) * xmax.

Definition screen_cls (offset length : Z) (s : screen) : res screen :=
  b ← mem_set (sc_buffer s) offset length 0;
  video_copy offset length (mkScreen b (sc_video s) (sc_cursor s)).

Definition put_cell (position c : Z) (s : screen) : res screen :=
  b ← mem_put (sc_buffer s) position [c];
  v ← mem_put (sc_video s) position [c];
  b ← mem_put b (position + 1) [0x07];
  v ← mem_put v (position + 1) [0x07];
  mret (mkScreen b v (sc_cursor s)).

Definition screen_putchar (c position offset length : Z) (s : screen) : res (Z * screen) :=
  '(position, s) ← (if c =? 10 then mret ((position / xmax + 1) * xmax, s)
    else s ← put_cell position c s; mret (position + 2, s));
  '(position, s) ← (if offset + length <=? position
    then s ← scroll offset length s; mret (position - xmax, s) else mret (position, s));
  mret (position, setcursor position s).

Record ScreenSegment := mkSegment { sg_offset : Z; sg_length : Z; sg_position : Z }.
Definition segment_new (firstline lastline startline : Z) : ScreenSegment :=
  mkSegment (screen_offset firstline) (screen_length firstline lastline)
    (if firstline <? startline then screen_offset startline else screen_offset firstline).
Definition segment_write (c : Z) (g : ScreenSegment) (s : screen) : res (ScreenSegment * screen) :=
  '(p, s) ← screen_putchar c (sg_position g) (sg_offset g) (sg_length g) s;
  mret (mkSegment (sg_offset g) (sg_length g) p, s).
Fixpoint segment_print (cs : list Z) (g : ScreenSegment) (s : screen) : res (ScreenSegment * screen) :=
  match cs with
  | [] => mret (g, s)
  | c :: cs => '(g, s) ← segment_write c g s; segment_print cs g s
  end.

(** ** The terminal that a segment shows *)
Abbreviation cell := (Z * Z)%type (only parsing).
Record term := mkTerm { t_rows : list (list cell); t_row : nat; t_col : nat }.

Definition columns : nat := 80.
Definition blank_row : list cell := replicate columns (0, 0).

(** the cursor moves below the last row: the rows move up *)
Definition term_scroll (t : term) : term :=
  if (t_row t <? length (t_rows t))%nat then t
  else mkTerm (drop 1 (t_rows t) ++ [blank_row]) (t_row t - 1) (t_col t).
Definition term_put (c : Z) (t : term) : term :=
  term_scroll
    (if c =? 10 then mkTerm (t_rows t) (t_row t + 1) 0
     else
       let rows := alter (fun row => <[t_col t := (c, 7)]> row) (t_row t) (t_rows t) in
       if (t_col t + 1 <? columns)%nat then mkTerm rows (t_row t) (t_col t + 1) else mkTerm rows (t_row t + 1) 0).
Definition term_print (cs : list Z) (t : term) : term := foldl (fun t c => term_put c t) t cs.

Definition row_bytes (row : list cell) : list Z := concat ((fun '(c, a) => [c; a]) <$> row).
Definition bytes (rows : list (list cell)) : list Z := concat (row_bytes <$> rows).

Record term_ok (t : term) : Prop := {
  tk_rows : Forall (fun row => length row = columns) (t_rows t);
  tk_row : (t_row t < length (t_rows t))%nat;
  tk_col : (t_col t < columns)%nat
}.

Lemma row_bytes_app r r' : row_bytes (r ++ r') = row_bytes r ++ row_bytes r'.
Proof. unfold row_bytes. by rewrite fmap_app, concat_app. Qed.
Lemma bytes_app r r' : bytes (r ++ r') = bytes r ++ bytes r'.
Proof. unfold bytes. by rewrite fmap_app, concat_app. Qed.
Lemma row_bytes_length r : length (row_bytes r) = (2 * length r)%nat.
Proof. induction r as [|[c a] r IH]; [done|]. unfold row_bytes in *. rewrite fmap_cons. cbn [concat app length]. lia. Qed.
Lemma bytes_length rows : Forall (fun row => length row = columns) rows ->
  length (bytes rows) = (160 * length rows)%nat.
Proof.
  induction 1 as [|row rows Hr _ IH]; [done|]. unfold bytes in *. cbn [fmap list_fmap concat length].
  rewrite length_app, row_bytes_length, Hr, IH. unfold columns. lia.
Qed.

Lemma mem_put_mid p x q bs a :
  a = lenZ p -> length bs = length x -> mem_put (p ++ x ++ q) a bs = Ok (p ++ bs ++ q).
Proof.
  intros -> Hl. unfold mem_put. pose proof (lenZ_nonneg p). rewrite !lenZ_app.
  assert (lenZ bs = lenZ x) as -> by (unfold lenZ; lia). pose proof (lenZ_nonneg q).
  destruct (Z.leb_spec 0 (lenZ p)); [|lia]. destruct (Z.leb_spec (lenZ p + lenZ x) (lenZ p + (lenZ x + lenZ q))); [|lia].
  cbn [andb]. unfold lenZ. rewrite Nat2Z.id, take_app_length. f_equal. f_equal. f_equal.
  rewrite Hl, app_assoc, <- length_app. apply drop_app_length.
Qed.

Lemma mem_get_mid p x q a n : a = lenZ p -> n = lenZ x -> mem_get (p ++ x ++ q) a n = Ok x.
Proof.
  intros -> ->. unfold mem_get. pose proof (lenZ_nonneg p). pose proof (lenZ_nonneg x). pose proof (lenZ_nonneg q).
  rewrite !lenZ_app. rewrite !(proj2 (Z.leb_le _ _)) by lia. cbn [andb]. unfold lenZ. rewrite !Nat2Z.id.
  by rewrite drop_app_length, take_app_length.
Qed.

(** the screen shows [rows] between [bp], [vp] and [bq], [vq] *)
Definition shows (s : screen) (bp bq vp vq : list Z) (rows : list (list cell)) : Prop :=
  sc_buffer s = bp ++ bytes rows ++ bq /\ sc_video s = vp ++ bytes rows ++ vq.

Definition at_cell (offset : Z) (t : term) : Z :=
  offset + 160 * Z.of_nat (t_row t) + 2 * Z.of_nat (t_col t).

Section segment.
Context (bp bq vp vq : list Z) (offset : Z) (Hbp : lenZ bp = offset) (Hvp : lenZ vp = offset).

Lemma alter_mid {A} (f : A -> A) l1 x l2 : alter f (length l1) (l1 ++ x :: l2) = l1 ++ f x :: l2.
Proof. induction l1 as [|y l1 IH]; [done|]. cbn. f_equal. apply IH. Qed.

Lemma insert_mid {A} l1 (x y : A) l2 : <[length l1 := y]> (l1 ++ x :: l2) = l1 ++ y :: l2.
Proof. induction l1 as [|z l1 IH]; [done|]. cbn. f_equal. apply IH. Qed.

Lemma cell_split t : term_ok t -> exists R1 r1 ce r2 R2, t_rows t = R1 ++ (r1 ++ ce :: r2) :: R2 /\
  length R1 = t_row t /\ length r1 = t_col t /\ Forall (fun row => length row = columns) R1.
Proof.
  intros [Hr Hrow Hcol]. destruct (lookup_lt_is_Some_2 _ _ Hrow) as [row Hl].
  pose proof (Forall_lookup_1 _ _ _ _ Hr Hl) as Hlen. cbn in Hlen.
  destruct (lookup_lt_is_Some_2 row (t_col t)) as [ce Hc]; [lia|].
  pose proof (list_elem_of_split_length _ _ _ Hl) as (R1 & R2 & HR & HR1).
  pose proof (list_elem_of_split_length _ _ _ Hc) as (r1 & r2 & Hr12 & Hr1).
  exists R1, r1, ce, r2, R2. rewrite HR, Hr12. repeat split; try done.
  rewrite HR in Hr. by apply Forall_app in Hr as [? _].
Qed.

Lemma row_bytes_cons c a r : row_bytes ((c, a) :: r) = c :: a :: row_bytes r.
Proof. done. Qed.
Lemma bytes_cons r rs : bytes (r :: rs) = row_bytes r ++ bytes rs.
Proof. done. Qed.

Lemma put_cell_spec t c s : term_ok t -> shows s bp bq vp vq (t_rows t) ->
  exists s', put_cell (at_cell offset t) c s = Ok s' /\
    shows s' bp bq vp vq (alter (fun row => <[t_col t := (c, 7)]> row) (t_row t) (t_rows t)).
Proof using Hbp Hvp.
  intros Ht [Hb Hv]. destruct (cell_split t Ht) as (R1 & r1 & [c0 a0] & r2 & R2 & HR & H1 & H2 & Hf).
  rewrite HR in *. unfold at_cell. rewrite <- H1, <- H2, alter_mid, insert_mid.
  assert (forall (p q : list Z) c a, p ++ bytes (R1 ++ (r1 ++ (c, a) :: r2) :: R2) ++ q =
    (p ++ bytes R1 ++ row_bytes r1) ++ [c] ++ a :: row_bytes r2 ++ bytes R2 ++ q) as Hsplit.
  { intros. rewrite bytes_app, bytes_cons, row_bytes_app, row_bytes_cons. by simplify_list_eq. }
  assert (forall p : list Z, lenZ p = offset ->
    lenZ (p ++ bytes R1 ++ row_bytes r1) = offset + 160 * Z.of_nat (length R1) + 2 * Z.of_nat (length r1)) as Hlen.
  { intros p Hp. rewrite !lenZ_app, Hp. unfold lenZ. rewrite bytes_length, row_bytes_length by done. lia. }
  unfold put_cell. rewrite Hb, Hv, !Hsplit.
  assert (forall (p q : list Z) c a c' a', p ++ [c] ++ a :: q = (p ++ [c]) ++ [a] ++ q /\
    mem_put (p ++ [c] ++ a :: q) (lenZ p) [c'] = Ok ((p ++ [c']) ++ [a] ++ q) /\
    mem_put ((p ++ [c']) ++ [a] ++ q) (lenZ p + 1) [a'] = Ok (p ++ [c'] ++ a' :: q)) as Hput.
  { intros p q c1 a1 c2 a2. split; [by simplify_list_eq|]. split.
    - rewrite (mem_put_mid p [c1] (a1 :: q) [c2]) by done. by simplify_list_eq.
    - rewrite (mem_put_mid (p ++ [c2]) [a1] q [a2]) by (rewrite ?lenZ_app; done). by simplify_list_eq. }
  pose proof (Hlen bp Hbp) as Hlb. pose proof (Hlen vp Hvp) as Hlv.
  destruct (Hput (bp ++ bytes R1 ++ row_bytes r1) (row_bytes r2 ++ bytes R2 ++ bq) c0 a0 c 7) as (_ & B1 & B2).
  destruct (Hput (vp ++ bytes R1 ++ row_bytes r1) (row_bytes r2 ++ bytes R2 ++ vq) c0 a0 c 7) as (_ & V1 & V2).
  rewrite Hlb in B1, B2. rewrite Hlv in V1, V2. rewrite B1. cbn [mbind res_bind]. rewrite V1. cbn [mbind res_bind].
  rewrite B2. cbn [mbind res_bind]. rewrite V2. cbn [mbind res_bind].
  eexists. split; [reflexivity|]. split; cbn [sc_buffer sc_video]; by rewrite Hsplit.
Qed.

Lemma row_bytes_blank : row_bytes blank_row = replicate 160 0.
Proof. reflexivity. Qed.

Lemma video_copy_spec s rows rows' :
  length (bytes rows') = length (bytes rows) ->
  sc_buffer s = bp ++ bytes rows' ++ bq -> sc_video s = vp ++ bytes rows ++ vq ->
  exists s', video_copy offset (lenZ (bytes rows)) s = Ok s' /\ shows s' bp bq vp vq rows'.
Proof using Hbp Hvp.
  intros Hl Hb Hv. unfold video_copy. rewrite Hb, Hv.
  rewrite (mem_get_mid bp (bytes rows') bq) by (unfold lenZ in *; lia). cbn [mbind res_bind].
  rewrite (mem_put_mid vp (bytes rows) vq) by (unfold lenZ in *; lia). cbn [mbind res_bind].
  eexists. split; [reflexivity|]. done.
Qed.

Lemma scroll_spec rows s : Forall (fun row => length row = columns) rows -> rows <> [] ->
  shows s bp bq vp vq rows ->
  exists s', scroll offset (160 * Z.of_nat (length rows)) s = Ok s' /\
    shows s' bp bq vp vq (drop 1 rows ++ [blank_row]).
Proof using Hbp Hvp.
  intros Hf Hne [Hb Hv]. pose proof (bytes_length rows Hf) as Hbl.
  destruct rows as [|row rows]; [done|]. apply Forall_cons in Hf as [Hr Hf].
  pose proof (bytes_length rows Hf) as Hbl'. pose proof (row_bytes_length row) as Hrl. rewrite Hr in Hrl.
  unfold columns in Hrl. rewrite bytes_cons in Hb, Hbl. rewrite length_app in Hbl.
  set (full := row_bytes row ++ bytes rows) in *.
  pose proof (take_drop (length (bytes rows)) full) as Hsplit.
  set (X := take (length (bytes rows)) full) in *. set (Y := drop (length (bytes rows)) full) in *.
  assert (length X = length (bytes rows) /\ length Y = 160%nat) as [HX HY].
  { unfold X, Y, full. rewrite length_take, length_drop, length_app. lia. }
  assert (160 * Z.of_nat (length (row :: rows)) = lenZ (bytes rows) + 160) as HL.
  { unfold lenZ. rewrite Hbl'. cbn [length]. lia. }
  unfold scroll, xmax. rewrite HL, Hb.
  assert (bp ++ full ++ bq = (bp ++ row_bytes row) ++ bytes rows ++ bq) as -> by (unfold full; by simplify_list_eq).
  rewrite (mem_get_mid (bp ++ row_bytes row)) by (rewrite ?lenZ_app; unfold lenZ in *; lia). cbn [mbind res_bind].
  assert ((bp ++ row_bytes row) ++ bytes rows ++ bq = bp ++ X ++ Y ++ bq) as ->.
  { rewrite (app_assoc X), Hsplit. unfold full. by simplify_list_eq. }
  rewrite (mem_put_mid bp X) by (unfold lenZ in *; lia). cbn [mbind res_bind].
  unfold mem_set. cbn [Z.leb Z.compare]. rewrite (app_assoc bp).
  rewrite (mem_put_mid (bp ++ bytes rows) Y bq) by
    (rewrite ?lenZ_app, ?length_replicate; unfold lenZ in *; lia). cbn [mbind res_bind].
  replace (lenZ (bytes rows) + 160) with (lenZ (bytes (row :: rows))).
  - apply (video_copy_spec _ (row :: rows)); [|cbn [sc_buffer]|done].
    + change (drop 1 (row :: rows)) with rows. rewrite bytes_app, (bytes_cons row), !length_app. change (length (bytes [blank_row])) with 160%nat. lia.
    + change (drop 1 (row :: rows)) with rows. rewrite bytes_app. change (bytes [blank_row]) with (replicate (Z.to_nat 160) 0). by simplify_list_eq.
  - rewrite bytes_cons, lenZ_app. unfold lenZ. lia.
Qed.
Lemma alter_rows f (t : term) n : term_ok t -> (forall row, length (f row) = length row) ->
  Forall (fun row => length row = columns) (alter f n (t_rows t)) /\
  length (alter f n (t_rows t)) = length (t_rows t).
Proof using.
  intros [Hr _ _] Hf. split; [|apply length_alter]. apply Forall_alter; [done|]. intros. by rewrite Hf.
Qed.

(** before the rows move up, the cursor can be at the start of the row below
    the last one *)
Record term_mid (n : nat) (t : term) : Prop := {
  tm_rows : Forall (fun row => length row = columns) (t_rows t);
  tm_length : length (t_rows t) = n;
  tm_row : (t_row t <= n)%nat;
  tm_col : (t_col t < columns)%nat;
  tm_below : t_row t = n -> t_col t = 0%nat
}.

Lemma term_scroll_spec n t s : (0 < n)%nat -> term_mid n t -> shows s bp bq vp vq (t_rows t) ->
  exists s', (if offset + 160 * Z.of_nat n <=? at_cell offset t
      then s ← scroll offset (160 * Z.of_nat n) s; mret (at_cell offset t - xmax, s)
      else mret (at_cell offset t, s)) = Ok (at_cell offset (term_scroll t), s') /\
    shows s' bp bq vp vq (t_rows (term_scroll t)) /\ term_ok (term_scroll t) /\
    length (t_rows (term_scroll t)) = n.
Proof using Hbp Hvp.
  intros Hn [Hr Hl Hrow Hcol Hbel] Hs. unfold term_scroll, at_cell, columns in *. rewrite Hl.
  destruct (Nat.ltb_spec (t_row t) n) as [Hlt|Hge].
  - destruct (Z.leb_spec (offset + 160 * Z.of_nat n) (offset + 160 * Z.of_nat (t_row t) + 2 * Z.of_nat (t_col t))); [lia|].
    exists s. split; [done|]. split; [done|]. split; [|done]. split; [done|lia|done].
  - assert (t_row t = n) as He by lia. specialize (Hbel He). rewrite He, Hbel in *.
    destruct (Z.leb_spec (offset + 160 * Z.of_nat n) (offset + 160 * Z.of_nat n + 2 * Z.of_nat 0)); [|lia].
    rewrite <- Hl in Hn |- *.
    destruct (scroll_spec (t_rows t) s Hr) as (s' & E & Hs'); [intros Hnil; rewrite Hnil in Hn; cbn in Hn; lia|done|].
    rewrite E. cbn [mbind res_bind t_row t_col t_rows]. exists s'. split.
    { unfold mret, res_ret, xmax. do 2 f_equal. lia. }
    split; [done|]. assert (length (drop 1 (t_rows t) ++ [blank_row]) = length (t_rows t)) as Hlen.
    { rewrite length_app, length_drop. cbn [length]. lia. }
    split; [|done]. split; cbn [t_rows t_row t_col].
    + apply Forall_app. split; [by apply Forall_drop|]. by repeat constructor.
    + rewrite Hlen. lia.
    + unfold columns. lia.
Qed.

Lemma screen_putchar_spec t c s k : offset = k * xmax -> term_ok t -> shows s bp bq vp vq (t_rows t) ->
  exists s', screen_putchar c (at_cell offset t) offset (160 * Z.of_nat (length (t_rows t))) s =
      Ok (at_cell offset (term_put c t), s') /\
    shows s' bp bq vp vq (t_rows (term_put c t)) /\ term_ok (term_put c t) /\
    length (t_rows (term_put c t)) = length (t_rows t) /\
    sc_cursor s' = wrap 16 (at_cell offset (term_put c t) / 2).
Proof using Hbp Hvp.
  intros Hk Ht Hs. unfold screen_putchar, term_put. set (n := length (t_rows t)).
  set (t1 := if c =? 10 then mkTerm _ _ _ else _).
  assert (exists s1, (if c =? 10 then mret ((at_cell offset t / xmax + 1) * xmax, s)
    else s0 ← put_cell (at_cell offset t) c s; mret (at_cell offset t + 2, s0)) = Ok (at_cell offset t1, s1) /\
    shows s1 bp bq vp vq (t_rows t1) /\ term_mid n t1) as (s1 & E1 & Hs1 & Ht1).
  { unfold t1. destruct (Z.eqb_spec c 10) as [->|].
    - exists s. destruct Ht as [Hr Hrow Hcol]. unfold at_cell, columns in *. cbn [t_row t_col t_rows]. split.
      + unfold mret, res_ret, xmax in *. do 2 f_equal.
        replace (offset + 160 * Z.of_nat (t_row t) + 2 * Z.of_nat (t_col t))
          with (2 * Z.of_nat (t_col t) + (k + Z.of_nat (t_row t)) * 160) by lia.
        rewrite Z.div_add, Z.div_small by lia. lia.
      + split; [done|]. split; cbn [t_row t_col t_rows]; unfold n, columns; done || lia.
    - destruct (put_cell_spec t c s Ht Hs) as (s1 & -> & Hs1). cbn [mbind res_bind]. exists s1.
      destruct (alter_rows (fun row => <[t_col t := (c, 7)]> row) t (t_row t) Ht) as [Hr Hl].
      { intros. apply length_insert. }
      destruct Ht as [_ Hrow Hcol]. unfold at_cell, columns in *.
      destruct (Nat.ltb_spec (t_col t + 1) 80); cbn [t_row t_col t_rows].
      + split; [unfold mret, res_ret; do 2 f_equal; lia|]. split; [done|].
        split; cbn [t_row t_col t_rows]; unfold n, columns; done || lia.
      + split; [unfold mret, res_ret; do 2 f_equal; lia|]. split; [done|].
        split; cbn [t_row t_col t_rows]; unfold n, columns; done || lia. }
  rewrite E1. cbn [mbind res_bind].
  destruct (term_scroll_spec n t1 s1) as (s2 & E2 & Hs2 & Ht2 & Hl2); [destruct Ht; lia|done..|].
  cbn [mbind res_bind] in E2. rewrite E2. cbn [mbind res_bind]. eexists. split; [reflexivity|].
  split; [done|]. split; [done|]. split; [done|]. cbn [sc_cursor setcursor].
  set (p := at_cell offset (term_scroll t1) / 2). unfold wrap. rewrite Z.shiftr_div_pow2 by lia.
  change (2 ^ 16) with (2 ^ 8 * 2 ^ 8). rewrite Z.rem_mul_r by lia. lia.
Qed.
End segment.

(** ** Properties *)

(** C33. A screen segment is a terminal: for the segment of the lines [first] to
    [last] of the screen, printing a text does on the shadow buffer and on the
    video memory what the terminal does on its rows (a character is put at
    the cursor, a line feed or the end of a row moves the cursor to the next
    row, below the last row the rows move up), nothing outside of the lines
    of the segment changes, no access is outside of the buffers, and the
    hardware cursor follows. *)
Theorem screen_segment (first last : Z) (bp bq vp vq : list Z) (t : term) (s : screen) (cs : list Z) :
  1 <= first <= last -> last <= ymax ->
  lenZ bp = screen_offset first -> lenZ vp = screen_offset first ->
  screen_length first last = 160 * Z.of_nat (length (t_rows t)) ->
  term_ok t -> shows s bp bq vp vq (t_rows t) ->
  let seg t := mkSegment (screen_offset first) (screen_length first last) (at_cell (screen_offset first) t) in
  exists s', segment_print cs (seg t) s = Ok (seg (term_print cs t), s') /\
    shows s' bp bq vp vq (t_rows (term_print cs t)) /\ term_ok (term_print cs t) /\
    (cs <> [] -> sc_cursor s' = at_cell (screen_offset first) (term_print cs t) / 2).
Proof.
  intros Hf Hl Hbp Hvp Hlen Ht Hs seg. unfold seg. clear seg. revert t s Hlen Ht Hs.
  assert (screen_length first last <= xmax * (ymax - first + 1)) as HL by (unfold screen_length, xmax; lia).
  revert HL. generalize (screen_length first last). intros L HL.
  induction cs as [|c cs IH]; intros t s Hlen Ht Hs; [by exists s|].
  destruct (screen_putchar_spec bp bq vp vq _ Hbp Hvp t c s (first - 1) eq_refl Ht Hs)
    as (s1 & E1 & Hs1 & Ht1 & Hl1 & Hc1).
  rewrite <- Hlen in E1. cbn [segment_print]. unfold segment_write. cbn [sg_position sg_offset sg_length].
  rewrite E1. cbn [mbind res_bind mret res_ret].
  destruct (IH (term_put c t) s1) as (s2 & E2 & Hs2 & Ht2 & Hc2); [by rewrite Hl1|done..|].
  exists s2. split; [done|]. split; [done|]. split; [done|]. intros _.
  destruct cs as [|c' cs]; [|by apply Hc2]. injection E2 as <-. cbn [term_print foldl]. rewrite Hc1.
  apply wrap_small. destruct Ht1 as [_ Hrow Hcol]. unfold at_cell, screen_offset, columns, xmax, ymax in *.
  rewrite Hl1 in Hrow. pose proof (Z.div_mod ((first - 1) * 160 + 160 * Z.of_nat (t_row (term_put c t)) +
    2 * Z.of_nat (t_col (term_put c t))) 2 ltac:(lia)).
  split; [apply Z.div_pos; lia|]. apply Z.div_lt_upper_bound; [lia|]. lia.
Qed.

(** the lower segment of kernel/Output.cc, lines 21 to 25 *)
Definition blank_term : term := mkTerm (replicate 5 blank_row) 0 0.
Definition blank_screen : screen := mkScreen (replicate 4000 0) (replicate 4000 0) 0.
Definition hello : list Z := [72; 105; 10; 33].

Lemma screen_segment_witness : exists s', segment_print hello (segment_new 21 25 0) blank_screen =
    Ok (mkSegment 3200 800 3362, s') /\
  sc_video s' = replicate 3200 0 ++ bytes (t_rows (term_print hello blank_term)) ++ [].
Proof.
  destruct (screen_segment 21 25 (replicate 3200 0) [] (replicate 3200 0) [] blank_term blank_screen hello)
    as (s' & E & [_ Hv] & _).
  - lia.
  - unfold ymax. lia.
  - reflexivity.
  - reflexivity.
  - reflexivity.
  - split.
    + repeat (apply List.Forall_cons; [reflexivity|]). apply List.Forall_nil.
    + cbn. lia.
    + unfold columns. cbn. lia.
  - split; reflexivity.
  - exists s'. split; [exact E|exact Hv].
Defined.

(** ** What the drivers write: ports that record the accesses *)
#[export] Instance port_log : PortIO (list (Z * Z)) := {
  port_in w p d := (0, d);
  port_out w p v d := d ++ [(p, v)]
}.

Lemma PIT_programs : PIT_init (D := list (Z * Z)) [] = Ok (tt, [(0x43, 0x36); (0x40, 0xa9); (0x40, 0x04)]).
Proof. reflexivity. Qed.

(** 1193182 / 1193 Hz: within 0.02 % of 1000 Hz *)
Lemma PIT_rate : 10000 * 1193182 < (10000 * PIT_frequency + 2000) * PIT_divisor /\
  PIT_frequency * PIT_divisor <= 1193182.
Proof. vm_compute. split; done. Qed.

(** the 8-bit channels are refused *)
Lemma startTransfer_low mode buffer len (d : list (Z * Z)) :
  startTransfer 2 mode buffer len d = Ok (false, d).
Proof. reflexivity. Qed.

(** a transfer of 512 bytes at 0x8000 programs address 511 and count 0x8000 *)
Lemma startTransfer_swapped :
  startTransfer (D := list (Z * Z)) 5 0x44 0x8000 512 [] =
  Ok (true, [(0xd4, 5); (0xd8, 0xff); (0xd6, 0x45); (0xc4, 0xff); (0xc4, 1); (0x8b, 0); (0xc6, 0); (0xc6, 0x80); (0xd4, 1)]).
Proof. vm_compute. reflexivity. Qed.
