(* ===== verification/Process.v ===== *)
(** * Processes and their threads: kernel/Process.h, kernel/Process.cc,
      runtime/JoinableThread.h

    The life cycle of the threads of a process: creation, exit, join, the end
    of the process, and the destruction of the process with its last thread.
    A step is a section of the code under [threadLock]; waiting on a
    [BasicCondition] is a step that parks the thread in the queue of the
    condition, as BlockingSync.v shows it can be seen.  A [UserThread*] is the
    number of the thread in the order of creation. *)
From Stdlib Require Import ZArith Lia Bool.
From stdpp Require Import base tactics option numbers list.
From S2P Require Import Prelude Bitmanip ManagedArray.

Definition ESRCH : Z := 3.
Definition EINVAL_join : Z := 22.

Inductive jState := Regular | Detached | Joining.

Inductive ustate :=
  | URun                  (* running or ready *)
  | UPosting              (* in post, waiting for a joiner *)
  | UJoining (t : nat)    (* in join, waiting for thread t *)
  | UTerm                 (* Finishing: terminate, or a cancelled thread at its switch *)
  | ULost                 (* Finishing overwritten with Cancelled *)
  | UGone                 (* removed from the store, to be destroyed *)
  | UDead.                (* destroyed *)

(** what [JoinableThread::result] points to: nothing yet, the parameter of
    [post], or the variable of a joiner *)
Inductive rptr := RNone | RPost (v : Z) | RJoin (j : nat).

Record uthread := mkU {
  u_idx : Z;
  u_state : ustate;
  u_cancelled : bool;
  u_jState : jState;
  u_wait : list nat;                 (* the condition of the thread *)
  u_result : rptr;
  u_exit : option Z;                 (* the argument of exitThread *)
  u_var : option (nat * Z);          (* what the last join stored, and whose result it is *)
  u_ret : Z                          (* the result of the last call *)
}.

Definition set_state (st : ustate) (u : uthread) : uthread :=
  mkU (u_idx u) st (u_cancelled u) (u_jState u) (u_wait u) (u_result u) (u_exit u) (u_var u) (u_ret u).
Definition set_cancelled (u : uthread) : uthread :=
  mkU (u_idx u) (u_state u) true (u_jState u) (u_wait u) (u_result u) (u_exit u) (u_var u) (u_ret u).
Definition set_jState (js : jState) (u : uthread) : uthread :=
  mkU (u_idx u) (u_state u) (u_cancelled u) js (u_wait u) (u_result u) (u_exit u) (u_var u) (u_ret u).
Definition set_wait (w : list nat) (r : rptr) (u : uthread) : uthread :=
  mkU (u_idx u) (u_state u) (u_cancelled u) (u_jState u) w r (u_exit u) (u_var u) (u_ret u).
Definition set_exit (v : Z) (u : uthread) : uthread :=
  mkU (u_idx u) (u_state u) (u_cancelled u) (u_jState u) (u_wait u) (u_result u) (Some v) (u_var u) (u_ret u).
Definition set_var (x : nat * Z) (u : uthread) : uthread :=
  mkU (u_idx u) (u_state u) (u_cancelled u) (u_jState u) (u_wait u) (u_result u) (u_exit u) (Some x) (u_ret u).
Definition set_ret (r : Z) (u : uthread) : uthread :=
  mkU (u_idx u) (u_state u) (u_cancelled u) (u_jState u) (u_wait u) (u_result u) (u_exit u) (u_var u) r.

Record process := mkP {
  p_active : Z;
  p_existing : Z;
  p_store : marray nat;
  p_threads : list uthread;
  p_cleaned : Z;            (* calls of clean *)
  p_deleted : bool
}.

Definition with_threads (ts : list uthread) (p : process) : process :=
  mkP (p_active p) (p_existing p) (p_store p) ts (p_cleaned p) (p_deleted p).
Definition upd (t : nat) (f : uthread -> uthread) (p : process) : process :=
  with_threads (alter f t (p_threads p)) p.

(** ** setupThread, under the lock *)
Definition uthread_new (idx : Z) : uthread := mkU idx URun false Regular [] RNone None None 0.
Definition setupThread (p : process) : res (nat * process) :=
  let t := length (p_threads p) in
  '(idx, m) ← ma_put (fun _ => true) t (p_store p);
  mret (t, mkP (p_active p + 1)%w (p_existing p + 1)%w m (p_threads p ++ [uthread_new idx]) (p_cleaned p) (p_deleted p)).

Definition process_new : process := mkP 0 0 (ma_new 1) [] 0 false.
(** [exec]: the first thread is started *)
Definition process_exec (p : process) : res process := '(_, p) ← setupThread p; mret p.

Definition createThread (t : nat) (p : process) : res process :=
  '(t', p) ← setupThread p;
  idx ← match p_threads p !! t' with Some u => mret (u_idx u) | None => Err NullDeref end;
  mret (upd t (set_ret idx) p).

(** ** JoinableThread *)

(** [BasicCondition::signal]: the first waiting thread runs; a poster has
    nothing left to do but to terminate *)
Definition signal (t : nat) (p : process) : process :=
  match p_threads p !! t with
  | Some u =>
      match u_wait u with
      | x :: w => upd x (fun v => set_state (match u_state v with UPosting => UTerm | _ => URun end) v)
          (upd t (set_wait w (u_result u)) p)
      | [] => p
      end
  | None => p
  end.

(** [BasicCondition::wait] of thread [t] on the condition of [c]: a cancelled
    thread does not wait *)
Definition cond_wait (t c : nat) (st : ustate) (after : uthread -> uthread) (p : process) : process :=
  match p_threads p !! t with
  | Some u =>
      if u_cancelled u then upd t after p
      else upd t (set_state st) (upd c (fun v => set_wait (u_wait v ++ [t]) (u_result v) v) p)
  | None => p
  end.

Definition post (t : nat) (v : Z) (u : uthread) (p : process) : res process :=
  match u_jState u with
  | Detached => Err Deadlock   (* returns with the lock held *)
  | _ =>
      match u_wait u with
      | [] => mret (cond_wait t t UPosting (set_state UTerm) (upd t (set_wait [] (RPost v)) p))
      | _ =>
          match u_result u with
          | RJoin j => mret (upd t (set_state UTerm) (signal t (upd j (set_var (t, v)) p)))
          | _ => Err NullDeref
          end
      end
  end.

(** [None]: join fails *)
Definition join (t tgt : nat) (u : uthread) (p : process) : option (res process) :=
  match u_jState u with
  | Regular =>
      let p := upd tgt (set_jState Joining) p in
      Some (match u_wait u with
      | [] => mret (cond_wait t tgt (UJoining tgt) (fun v => v) (upd tgt (set_wait [] (RJoin t)) p))
      | _ =>
          match u_result u with
          | RPost v => mret (signal tgt (upd t (set_var (tgt, v)) p))
          | _ => Err NullDeref
          end
      end)
  | _ => None
  end.

(** ** exitThread, joinThread, exit *)
Definition exitThread (t : nat) (v : Z) (u : uthread) (p : process) : res process :=
  let p := upd t (set_exit v) p in
  let p := mkP (p_active p - 1)%w (p_existing p) (p_store p) (p_threads p) (p_cleaned p) (p_deleted p) in
  if p_active p =? 0 then mret (upd t (set_state UTerm) p) else post t v u p.

Definition joinThread (t : nat) (idx : Z) (p : process) : res process :=
  v ← valid (p_store p) idx;
  if negb v then mret (upd t (set_ret (- ESRCH)) p)
  else
    tgt ← ma_get idx (p_store p);
    match p_threads p !! tgt with
    | None => Err NullDeref
    | Some u =>
        match join t tgt u p with
        | None => mret (upd t (set_ret (- EINVAL_join)) p)
        | Some r => p ← r; mret (upd t (set_ret 0) p)
        end
    end.

(** [Thread::cancel]: a waiting thread is taken off the list it is on and made
    ready; it ends at its next switch *)
Definition waiting (u : uthread) : bool :=
  match u_state u with UPosting | UJoining _ => true | _ => false end.
Definition off_list (x : nat) (u : uthread) : uthread :=
  set_wait (filter (fun y => y <> x) (u_wait u)) (u_result u) u.
Definition cancel (x : nat) (p : process) : process :=
  match p_threads p !! x with
  | Some u =>
      let p := if waiting u then with_threads (off_list x <$> p_threads p) p else p in
      upd x (fun u => set_cancelled (set_state (match u_state u with
        | UPosting | UJoining _ => UTerm
        | UTerm => ULost
        | st => st
        end) u)) p
  | None => p
  end.

Fixpoint cancel_loop (t : nat) (idxs : list Z) (p : process) : res process :=
  match idxs with
  | [] => mret p
  | i :: idxs =>
      v ← valid (p_store p) i;
      if (v : bool) then
        x ← ma_get i (p_store p);
        cancel_loop t idxs (if Nat.eqb x t then p else cancel x p)
      else cancel_loop t idxs p
  end.

Definition process_exit (t : nat) (p : process) : res process :=
  p ← cancel_loop t (seqZ 0 (currentIndex (p_store p))) p;
  mret (upd t (set_state UTerm) p).

(** ** preThreadSwitch of a finishing thread, and postThreadDestroy *)
Definition preThreadSwitch (t : nat) (u : uthread) (p : process) : res process :=
  v ← valid (p_store p) (u_idx u);
  kassert v;;
  m ← ma_remove (u_idx u) (p_store p);
  let cleaned := if ma_empty m then p_cleaned p + 1 else p_cleaned p in
  mret (upd t (set_state UGone) (mkP (p_active p) (p_existing p) m (p_threads p) cleaned (p_deleted p))).

Definition postThreadDestroy (t : nat) (p : process) : process :=
  let p := upd t (set_state UDead) p in
  let existing := (p_existing p - 1)%w in
  mkP (p_active p) existing (p_store p) (p_threads p) (p_cleaned p) (if existing =? 0 then true else p_deleted p).

(** ** Steps *)
Inductive uop :=
  | OCreate (t : nat)
  | OExitThread (t : nat) (v : Z)
  | OJoin (t : nat) (idx : Z)
  | OExit (t : nat)
  | OSwitch (t : nat)      (* a cancelled thread at a switch *)
  | OPreSwitch (t : nat)
  | ODestroy (t : nat).

Definition running (t : nat) (p : process) : option uthread :=
  match p_threads p !! t with
  | Some u => match u_state u with URun => Some u | _ => None end
  | None => None
  end.

(** thread numbers, and the size of the store, are bounded *)
Definition room (p : process) : bool :=
  (lenZ (p_threads p) <? 2 ^ 60) && (capacity (p_store p) <? 2 ^ 61).

Definition exec (op : uop) (p : process) : option (res process) :=
  match op with
  | OCreate t => match running t p with Some _ => if room p then Some (createThread t p) else None | None => None end
  | OExitThread t v => match running t p with Some u => Some (exitThread t v u p) | None => None end
  | OJoin t idx => match running t p with Some _ => Some (joinThread t (wrap 64 idx) p) | None => None end
  | OExit t => match running t p with Some _ => Some (process_exit t p) | None => None end
  | OSwitch t =>
      match running t p with
      | Some u => if u_cancelled u then Some (mret (upd t (set_state UTerm) p)) else None
      | None => None
      end
  | OPreSwitch t =>
      match p_threads p !! t with
      | Some u => match u_state u with UTerm => Some (preThreadSwitch t u p) | _ => None end
      | None => None
      end
  | ODestroy t =>
      match p_threads p !! t with
      | Some u => match u_state u with UGone => Some (mret (postThreadDestroy t p)) | _ => None end
      | None => None
      end
  end.

(** a thread that is cancelled while it runs on another processor can still
    make a system call before its next switch; the theorems are about runs
    where it does not, [exec] has the others too *)
Definition by_cancelled (op : uop) (p : process) : bool :=
  match op with
  | OCreate t | OExitThread t _ | OJoin t _ | OExit t =>
      match p_threads p !! t with Some u => u_cancelled u | None => false end
  | _ => false
  end.

Inductive proc_step (p p' : process) : Prop :=
  | proc_step_op op : by_cancelled op p = false -> exec op p = Some (Ok p') -> proc_step p p'.

(** ** The invariant *)
Definition exists_u (u : uthread) : Z := match u_state u with UDead => 0 | _ => 1 end.
Definition active_u (u : uthread) : Z := match u_exit u with None => 1 | Some _ => 0 end.
Definition in_store (u : uthread) : bool :=
  match u_state u with UGone | UDead => false | _ => true end.

(** the condition of a thread: nobody waits, or the thread itself, which has
    exited, or the one thread that joins it *)
Definition wait_ok (ts : list uthread) (t : nat) (u : uthread) : Prop :=
  u_wait u = [] \/
  (u_wait u = [t] /\ u_state u = UPosting /\ exists v, u_result u = RPost v /\ u_exit u = Some v) \/
  (exists j uj, u_wait u = [j] /\ u_result u = RJoin j /\ u_jState u = Joining /\
    ts !! j = Some uj /\ u_state uj = UJoining t).

Record waits_ok (ts : list uthread) : Prop := {
  pw_wait t u : ts !! t = Some u -> wait_ok ts t u;
  pw_post t u : ts !! t = Some u -> u_state u = UPosting -> u_wait u = [t];
  pw_join j uj t : ts !! j = Some uj -> u_state uj = UJoining t ->
    exists u, ts !! t = Some u /\ u_wait u = [j] /\ u_jState u = Joining /\ u_result u = RJoin j;
  pw_var j uj t v : ts !! j = Some uj -> u_var uj = Some (t, v) ->
    exists u, ts !! t = Some u /\ u_exit u = Some v;
  pw_exited t u : ts !! t = Some u ->
    u_state u = URun \/ (exists x, u_state u = UJoining x) -> u_exit u = None;
  pw_detached t u : ts !! t = Some u -> u_jState u <> Detached
}.

Record store_ok (p : process) (fs : list Z) : Prop := {
  ps_arr : ma_inv (p_store p) fs;
  ps_res i : ~ reserved (p_store p) fs i;
  ps_small : lenZ (p_threads p) <= 2 ^ 60;
  ps_store t u : p_threads p !! t = Some u -> in_store u = true -> value (p_store p) (u_idx u) = Some t;
  ps_value i t : value (p_store p) i = Some t ->
    exists u, p_threads p !! t = Some u /\ in_store u = true /\ u_idx u = i;
  ps_existing : p_existing p = lsum exists_u (p_threads p);
  ps_active : p_active p = lsum active_u (p_threads p)
}.

Definition ended (u : uthread) : bool := match u_state u with UTerm | ULost => true | _ => false end.
(** a thread that makes no system calls any more *)
Definition quiet (u : uthread) : Prop :=
  (u_state u = URun -> u_cancelled u = true) /\ forall x, u_state u <> UJoining x.

Record p_inv (p : process) (fs : list Z) : Prop := {
  pi_store : store_ok p fs;
  pi_waits : waits_ok (p_threads p);
  pi_target j uj t u : p_threads p !! j = Some uj -> u_state uj = UJoining t -> p_threads p !! t = Some u ->
    u_state u = URun \/ exists x, u_state u = UJoining x;
  pi_cancelled t u : p_threads p !! t = Some u -> u_cancelled u = true ->
    forall t' u', p_threads p !! t' = Some u' -> waiting u' = false /\ (u_state u' = URun -> u_cancelled u' = true);
  pi_term t u : p_threads p !! t = Some u -> ended u = true ->
    u_jState u = Joining \/ forall t' u', p_threads p !! t' = Some u' -> quiet u';
  pi_deleted : p_deleted p = true <-> lsum exists_u (p_threads p) = 0;
  pi_cleaned : p_cleaned p = if ma_empty (p_store p) then 1 else 0
}.

(** a list of threads that is another one changed by [F] *)
Definition changed (F : nat -> uthread -> uthread) (ts ts' : list uthread) : Prop :=
  forall y, ts' !! y = F y <$> ts !! y.

Lemma changed_inv F ts ts' y u' : changed F ts ts' -> ts' !! y = Some u' ->
  exists u, ts !! y = Some u /\ u' = F y u.
Proof. intros Hc Hy. rewrite Hc in Hy. destruct (ts !! y); [|done]. injection Hy as <-. eauto. Qed.

Lemma changed_fwd F ts ts' y u : changed F ts ts' -> ts !! y = Some u -> ts' !! y = Some (F y u).
Proof. intros Hc Hy. by rewrite Hc, Hy. Qed.

Lemma changed_alter f t ts : changed (fun y u => if decide (y = t) then f u else u) ts (alter f t ts).
Proof.
  intros y. destruct (decide (y = t)) as [->|Hne].
  - by rewrite list_lookup_alter_eq.
  - rewrite list_lookup_alter_ne by done. by destruct (ts !! y).
Qed.

Lemma changed_trans F G ts ts' ts'' : changed F ts ts' -> changed G ts' ts'' ->
  changed (fun y u => G y (F y u)) ts ts''.
Proof. intros H1 H2 y. rewrite H2, H1. by destruct (ts !! y). Qed.

Lemma changed_ext F G ts ts' : changed F ts ts' -> (forall y u, ts !! y = Some u -> F y u = G y u) ->
  changed G ts ts'.
Proof. intros H1 H2 y. rewrite H1. destruct (ts !! y) eqn:Hy; [|done]. simpl. f_equal. by apply H2. Qed.

Ltac look Hc H :=
  let u := fresh "u" in let E := fresh "E" in
  destruct (changed_inv _ _ _ _ _ Hc H) as (u & H' & E); clear H; rename H' into H; cbn beta in E;
  repeat match type of E with context [decide ?P] => destruct (decide P) end; subst; cbn in *.

Lemma filter_one (x y : nat) : filter (fun z => z <> x) [y] = if decide (y = x) then [] else [y].
Proof.
  destruct (decide (y = x)) as [->|Hyx]; [rewrite filter_cons_False by tauto|rewrite filter_cons_True by done]; done.
Qed.

(** *** transitions of the threads that keep [waits_ok] *)
Section transitions.
Context (ts : list uthread) (Hw : waits_ok ts) (ts' : list uthread).

(** a change of a thread that neither waits nor is seen by others *)
Lemma waits_quiet F : changed F ts ts' ->
  (forall y u, ts !! y = Some u -> u_wait (F y u) = u_wait u /\ u_result (F y u) = u_result u /\
    u_jState (F y u) = u_jState u /\ u_exit (F y u) = u_exit u /\ u_var (F y u) = u_var u /\
    (u_state (F y u) = u_state u \/
     waiting u = false /\ waiting (F y u) = false /\ u_state (F y u) <> URun)) ->
  waits_ok ts'.
Proof using Hw.
  intros Hc HF. assert (forall y u, ts !! y = Some u -> waiting u = true -> u_state (F y u) = u_state u) as Hsame.
  { intros y u Hy Hwt. destruct (HF y u Hy) as (_ & _ & _ & _ & _ & [E|[E _]]); [done|congruence]. }
  assert (forall y u st, ts !! y = Some u -> u_state (F y u) = st -> st = URun \/ waiting (F y u) = true ->
    u_state u = st) as Hback.
  { intros y u st Hy <- Hst. destruct (HF y u Hy) as (_ & _ & _ & _ & _ & [E|(_ & E1 & E2)]); [done|].
    destruct Hst as [|Hst]; [done|congruence]. }
  split.
  - intros t u' Ht. destruct (changed_inv _ _ _ _ _ Hc Ht) as (u & Hu & ->).
    destruct (HF t u Hu) as (E1 & E2 & E3 & E4 & E5 & _). unfold wait_ok. rewrite E1, E2, E3, E4.
    destruct (pw_wait _ Hw t u Hu) as [H|[(H1 & H2 & H3)|(j & uj & H1 & H2 & H3 & H4 & H5)]].
    + by left.
    + right. left. rewrite (Hsame t u Hu); [done|]. unfold waiting. by rewrite H2.
    + right. right. exists j, (F j uj). rewrite (changed_fwd _ _ _ _ _ Hc H4).
      rewrite (Hsame j uj H4); [done|]. unfold waiting. by rewrite H5.
  - intros t u' Ht Hp. destruct (changed_inv _ _ _ _ _ Hc Ht) as (u & Hu & ->).
    destruct (HF t u Hu) as (E1 & _). rewrite E1. apply (pw_post _ Hw t u Hu).
    apply (Hback t u _ Hu Hp). right. unfold waiting. by rewrite Hp.
  - intros j uj' t Hj Hst. destruct (changed_inv _ _ _ _ _ Hc Hj) as (uj & Huj & ->).
    destruct (pw_join _ Hw j uj t Huj) as (u & Hu & H1 & H2 & H3).
    { apply (Hback j uj _ Huj Hst). right. unfold waiting. by rewrite Hst. }
    exists (F t u). split; [by apply (changed_fwd _ _ _ _ _ Hc)|].
    by destruct (HF t u Hu) as (-> & -> & -> & _).
  - intros j uj' t v Hj Hv. destruct (changed_inv _ _ _ _ _ Hc Hj) as (uj & Huj & ->).
    destruct (HF j uj Huj) as (_ & _ & _ & _ & E5 & _). rewrite E5 in Hv.
    destruct (pw_var _ Hw j uj t v Huj Hv) as (u & Hu & He). exists (F t u).
    split; [by apply (changed_fwd _ _ _ _ _ Hc)|]. by destruct (HF t u Hu) as (_ & _ & _ & -> & _).
  - intros t u' Ht Hst. destruct (changed_inv _ _ _ _ _ Hc Ht) as (u & Hu & ->).
    destruct (HF t u Hu) as (_ & _ & _ & E4 & _). rewrite E4. apply (pw_exited _ Hw t u Hu).
    destruct Hst as [Hst|[x Hst]].
    + left. apply (Hback t u _ Hu Hst). by left.
    + right. exists x. apply (Hback t u _ Hu Hst). right. unfold waiting. by rewrite Hst.
  - intros t u' Ht. destruct (changed_inv _ _ _ _ _ Hc Ht) as (u & Hu & ->).
    destruct (HF t u Hu) as (_ & _ & -> & _). by apply (pw_detached _ Hw t u Hu).
Qed.

Section running.
Context (t : nat) (u0 : uthread) (Ht : ts !! t = Some u0) (Hrun : u_state u0 = URun).

Lemma run_exit : u_exit u0 = None.
Proof using Hw Ht Hrun. apply (pw_exited _ Hw t u0 Ht). by left. Qed.

Lemma run_wait : u_wait u0 = [] \/ exists j uj, u_wait u0 = [j] /\ u_result u0 = RJoin j /\
  u_jState u0 = Joining /\ ts !! j = Some uj /\ u_state uj = UJoining t /\ j <> t.
Proof using Hw Ht Hrun.
  destruct (pw_wait _ Hw t u0 Ht) as [H|[(_ & H & _)|(j & uj & H1 & H2 & H3 & H4 & H5)]]; [by left|congruence|].
  right. exists j, uj. repeat split; try done. intros ->. congruence.
Qed.

(** it ends without a joiner *)
Lemma exit_term v : changed (fun y u => if decide (y = t) then set_state UTerm (set_exit v u) else u) ts ts' ->
  waits_ok ts'.
Proof using Hw Ht Hrun.
  intros Hc. pose proof run_exit as He. split.
  - intros y u' Hy. look Hc Hy.
    + assert (u = u0) as -> by congruence. unfold wait_ok. cbn.
      destruct run_wait as [H|(j & uj & H1 & H2 & H3 & H4 & H5 & H6)]; [by left|]. right. right.
      exists j, uj. rewrite (changed_fwd _ _ _ _ _ Hc H4). by destruct (decide (j = t)).
    + destruct (pw_wait _ Hw y u Hy) as [H|[H|(j & uj & H1 & H2 & H3 & H4 & H5)]]; [by left|by right; left|].
      right. right. exists j, uj. rewrite (changed_fwd _ _ _ _ _ Hc H4).
      destruct (decide (j = t)) as [->|]; [congruence|done].
  - intros y u' Hy Hp. look Hc Hy; [done|]. by eapply (pw_post _ Hw).
  - intros j uj' y Hj Hst. look Hc Hj; [done|].
    destruct (pw_join _ Hw j u y Hj Hst) as (uy & Huy & Hrest). eexists.
    rewrite (changed_fwd _ _ _ _ _ Hc Huy). split; [done|]. by destruct (decide (y = t)).
  - intros j uj' y x Hj Hv. look Hc Hj; destruct (pw_var _ Hw _ _ y x Hj Hv) as (uy & Huy & Hx);
      eexists; (split; [apply (changed_fwd _ _ _ _ _ Hc Huy)|]); destruct (decide (y = t)) as [->|]; congruence.
  - intros y u' Hy Hst. look Hc Hy; [naive_solver|]. by eapply (pw_exited _ Hw).
  - intros y u' Hy. look Hc Hy; by eapply (pw_detached _ Hw).
Qed.

(** it waits in [post] *)
Lemma exit_park v : u_wait u0 = [] ->
  changed (fun y u => if decide (y = t) then set_state UPosting (set_wait [t] (RPost v) (set_exit v u)) else u) ts ts' ->
  waits_ok ts'.
Proof using Hw Ht Hrun.
  intros Hw0 Hc. pose proof run_exit as He. split.
  - intros y u' Hy. look Hc Hy.
    + right. left. cbn. split; [done|]. split; [done|]. by exists v.
    + destruct (pw_wait _ Hw y u Hy) as [H|[H|(j & uj & H1 & H2 & H3 & H4 & H5)]]; [by left|by right; left|].
      right. right. exists j, uj. rewrite (changed_fwd _ _ _ _ _ Hc H4).
      destruct (decide (j = t)) as [->|]; [congruence|done].
  - intros y u' Hy Hp. look Hc Hy; [done|]. by eapply (pw_post _ Hw).
  - intros j uj' y Hj Hst. look Hc Hj; [done|].
    destruct (pw_join _ Hw j u y Hj Hst) as (uy & Huy & H1 & Hrest). eexists.
    rewrite (changed_fwd _ _ _ _ _ Hc Huy). split; [done|]. destruct (decide (y = t)) as [->|]; [congruence|done].
  - intros j uj' y x Hj Hv. look Hc Hj; destruct (pw_var _ Hw _ _ y x Hj Hv) as (uy & Huy & Hx);
      eexists; (split; [apply (changed_fwd _ _ _ _ _ Hc Huy)|]); destruct (decide (y = t)) as [->|]; congruence.
  - intros y u' Hy Hst. look Hc Hy; [naive_solver|]. by eapply (pw_exited _ Hw).
  - intros y u' Hy. look Hc Hy; by eapply (pw_detached _ Hw).
Qed.

(** it hands its result to the thread [j] that joins it *)
Lemma exit_deliver v j : u_wait u0 = [j] -> j <> t ->
  changed (fun y u => if decide (y = t) then set_state UTerm (set_wait [] (RJoin j) (set_exit v u))
    else if decide (y = j) then set_state URun (set_var (t, v) u) else u) ts ts' ->
  waits_ok ts'.
Proof using Hw Ht Hrun.
  intros Hw0 Hj Hc. pose proof run_exit as He.
  destruct run_wait as [H|(j' & uj & H1 & H2 & H3 & H4 & H5 & _)]; [congruence|].
  assert (j' = j) as -> by congruence.
  assert (forall k uk x, ts !! k = Some uk -> u_state uk = UJoining x -> k <> j -> x <> t) as Honly.
  { intros k uk x Hk Hst Hne ->. destruct (pw_join _ Hw k uk t Hk Hst) as (u & Hu & Hwu & _). congruence. }
  split.
  - intros y u' Hy. look Hc Hy; [by left| |].
    + unfold wait_ok. cbn. assert (u = uj) as -> by congruence.
      destruct (pw_wait _ Hw j uj H4) as [H|[(_ & H & _)|(k & uk & K1 & K2 & K3 & K4 & K5)]]; [by left|congruence|].
      right. right. exists k, uk. rewrite (changed_fwd _ _ _ _ _ Hc K4).
      destruct (decide (k = t)) as [->|]; [congruence|]. destruct (decide (k = j)) as [->|]; [congruence|done].
    + destruct (pw_wait _ Hw y u Hy) as [H|[H|(k & uk & K1 & K2 & K3 & K4 & K5)]]; [by left|by right; left|].
      right. right. exists k, uk. rewrite (changed_fwd _ _ _ _ _ Hc K4).
      destruct (decide (k = t)) as [->|]; [congruence|]. destruct (decide (k = j)) as [->|]; [congruence|done].
  - intros y u' Hy Hp. look Hc Hy; try done. by eapply (pw_post _ Hw).
  - intros k uk' y Hk Hst. look Hc Hk; try done.
    pose proof (Honly k u y Hk Hst ltac:(done)) as Hyt.
    destruct (pw_join _ Hw k u y Hk Hst) as (uy & Huy & Hrest). eexists.
    rewrite (changed_fwd _ _ _ _ _ Hc Huy). split; [done|].
    destruct (decide (y = t)); [done|]. by destruct (decide (y = j)).
  - intros k uk' y x Hk Hv.
    assert ((y = t /\ x = v) \/ exists uk, ts !! k = Some uk /\ u_var uk = Some (y, x)) as [[-> ->]|(uk & Huk & Hvk)].
    { look Hc Hk; [right; by eexists|left; by injection Hv as <- <-|right; by eexists]. }
    + eexists. rewrite (changed_fwd _ _ _ _ _ Hc Ht). split; [done|]. by destruct (decide (t = t)).
    + destruct (pw_var _ Hw _ _ y x Huk Hvk) as (uy & Huy & Hx). eexists.
      rewrite (changed_fwd _ _ _ _ _ Hc Huy). split; [done|].
      destruct (decide (y = t)) as [->|]; [congruence|]. by destruct (decide (y = j)).
  - intros y u' Hy Hst. look Hc Hy; [naive_solver| |by eapply (pw_exited _ Hw)].
    apply (pw_exited _ Hw j u Hy). right. assert (u = uj) as -> by congruence. by exists t.
  - intros y u' Hy. look Hc Hy; by eapply (pw_detached _ Hw).
Qed.

(** it waits for [tgt] *)
Lemma join_park tgt ut : ts !! tgt = Some ut -> u_jState ut = Regular -> u_wait ut = [] ->
  changed (fun y u =>
    let u1 := if decide (y = tgt) then set_wait [t] (RJoin t) (set_jState Joining u) else u in
    if decide (y = t) then set_state (UJoining tgt) u1 else u1) ts ts' ->
  waits_ok ts'.
Proof using Hw Ht Hrun.
  intros Htgt Hreg Hw0 Hc. pose proof run_exit as He.
  assert (forall y uy z, ts !! y = Some uy -> u_wait uy = z :: [] -> y <> tgt) as Hnw.
  { intros y uy z Hy Hwy ->. congruence. }
  assert (exists u', ts' !! t = Some u' /\ u_state u' = UJoining tgt) as (u' & Hu' & Hst').
  { eexists. rewrite (changed_fwd _ _ _ _ _ Hc Ht). split; [done|]. by destruct (decide (t = t)). }
  split.
  - intros y u1 Hy. destruct (decide (y = tgt)) as [->|Hne].
    + right. right. exists t, u'. look Hc Hy; repeat split; done.
    + destruct (changed_inv _ _ _ _ _ Hc Hy) as (u & Hu & ->). destruct (decide (y = tgt)); [done|].
      assert (wait_ok ts' y u) as Hok.
      { destruct (pw_wait _ Hw y u Hu) as [H|[H|(k & uk & K1 & K2 & K3 & K4 & K5)]]; [by left|by right; left|].
        right. right. eexists k, _. rewrite (changed_fwd _ _ _ _ _ Hc K4). split; [done|]. split; [done|].
        split; [done|]. split; [done|]. cbn. destruct (decide (k = t)) as [->|]; [congruence|].
        by destruct (decide (k = tgt)). }
      cbn. destruct (decide (y = t)) as [->|]; [|done]. unfold wait_ok in *. cbn.
      assert (u = u0) as -> by congruence. destruct Hok as [H|[(_ & H & _)|H]]; [by left|congruence|by right; right].
  - intros y u1 Hy Hp. look Hc Hy; try done; [|by eapply (pw_post _ Hw)].
    pose proof (pw_post _ Hw tgt u Hy Hp). congruence.
  - intros j uj' y Hj Hst. destruct (decide (j = t)) as [->|Hjt].
    + assert (y = tgt) as -> by congruence. eexists. rewrite (changed_fwd _ _ _ _ _ Hc Htgt).
      split; [done|]. cbn. destruct (decide (tgt = tgt)); [|done]. by destruct (decide (tgt = t)).
    + assert (exists uj, ts !! j = Some uj /\ u_state uj = UJoining y) as (uj & Huj & Hsj).
      { look Hc Hj; try done; by eexists. }
      destruct (pw_join _ Hw j uj y Huj Hsj) as (uy & Huy & H1 & H2 & H3). eexists.
      rewrite (changed_fwd _ _ _ _ _ Hc Huy). split; [done|]. cbn.
      destruct (decide (y = tgt)) as [->|]; [by destruct (Hnw _ _ _ Huy H1)|]. by destruct (decide (y = t)).
  - intros k uk' y x Hk Hv.
    assert (exists uk, ts !! k = Some uk /\ u_var uk = Some (y, x)) as (uk & Huk & Hvk) by (look Hc Hk; by eexists).
    destruct (pw_var _ Hw _ _ y x Huk Hvk) as (uy & Huy & Hx). eexists.
    rewrite (changed_fwd _ _ _ _ _ Hc Huy). split; [done|]. cbn.
    destruct (decide (y = tgt)), (decide (y = t)); done.
  - intros y u1 Hy Hst. destruct (changed_inv _ _ _ _ _ Hc Hy) as (u & Hu & ->). cbn in *.
    destruct (decide (y = t)) as [->|].
    + assert (u = u0) as -> by congruence. by destruct (decide (t = tgt)).
    + destruct (decide (y = tgt)); cbn in *; by eapply (pw_exited _ Hw).
  - intros y u1 Hy. look Hc Hy; try done; by eapply (pw_detached _ Hw).
Qed.

(** it collects the result of [tgt], which waits in [post] *)
Lemma join_collect tgt ut v : ts !! tgt = Some ut -> u_state ut = UPosting -> u_result ut = RPost v ->
  u_exit ut = Some v ->
  changed (fun y u => if decide (y = tgt) then set_state UTerm (set_wait [] (RPost v) (set_jState Joining u))
    else if decide (y = t) then set_var (tgt, v) u else u) ts ts' ->
  waits_ok ts'.
Proof using Hw Ht Hrun.
  intros Htgt Hpost Hres Hex Hc. pose proof run_exit as He. pose proof (pw_post _ Hw _ _ Htgt Hpost) as Hwt.
  assert (t <> tgt) as Hne by (intros ->; congruence).
  assert (forall k uk x, ts !! k = Some uk -> u_state uk = UJoining x -> x <> tgt) as Honly.
  { intros k uk x Hk Hst ->. destruct (pw_join _ Hw k uk tgt Hk Hst) as (u & Hu & Hwu & _).
    assert (k = tgt) as -> by congruence. congruence. }
  split.
  - intros y u1 Hy. destruct (changed_inv _ _ _ _ _ Hc Hy) as (u & Hu & ->).
    destruct (decide (y = tgt)) as [->|Hyt]; [by left|].
    assert (wait_ok ts' y u) as Hok.
    { destruct (pw_wait _ Hw y u Hu) as [H|[H|(k & uk & K1 & K2 & K3 & K4 & K5)]]; [by left|by right; left|].
      right. right. exists k, uk. rewrite (changed_fwd _ _ _ _ _ Hc K4).
      destruct (decide (k = tgt)) as [->|]; [congruence|]. by destruct (decide (k = t)) as [->|]; [congruence|]. }
    by destruct (decide (y = t)).
  - intros y u1 Hy Hp. look Hc Hy; try done; by eapply (pw_post _ Hw).
  - intros j uj' y Hj Hst.
    assert (exists uj, ts !! j = Some uj /\ u_state uj = UJoining y) as (uj & Huj & Hsj)
      by (look Hc Hj; try done; by eexists).
    destruct (pw_join _ Hw j uj y Huj Hsj) as (uy & Huy & Hrest). eexists.
    rewrite (changed_fwd _ _ _ _ _ Hc Huy). split; [done|]. pose proof (Honly _ _ _ Huj Hsj).
    destruct (decide (y = tgt)); [done|]. by destruct (decide (y = t)).
  - intros k uk' y x Hk Hv.
    assert ((y = tgt /\ x = v) \/ exists uk, ts !! k = Some uk /\ u_var uk = Some (y, x)) as [[-> ->]|(uk & Huk & Hvk)].
    { look Hc Hk; [right; by eexists|left; by injection Hv as <- <-|right; by eexists]. }
    + eexists. rewrite (changed_fwd _ _ _ _ _ Hc Htgt). split; [done|]. by destruct (decide (tgt = tgt)).
    + destruct (pw_var _ Hw _ _ y x Huk Hvk) as (uy & Huy & Hx). eexists.
      rewrite (changed_fwd _ _ _ _ _ Hc Huy). split; [done|]. destruct (decide (y = tgt)); [done|].
      by destruct (decide (y = t)).
  - intros y u1 Hy Hst. look Hc Hy; [naive_solver|by eapply (pw_exited _ Hw)..].
  - intros y u1 Hy. look Hc Hy; try done; by eapply (pw_detached _ Hw).
Qed.
End running.

(** a waiting thread is cancelled *)
Lemma waits_cancel x ux : ts !! x = Some ux -> waiting ux = true ->
  changed (fun y u => let u1 := off_list x u in
    if decide (y = x) then set_cancelled (set_state UTerm u1) else u1) ts ts' ->
  waits_ok ts'.
Proof using Hw.
  intros Hx Hwx Hc.
  split.
  - intros y u1 Hy. destruct (changed_inv _ _ _ _ _ Hc Hy) as (u & Hu & ->). cbn zeta.
    destruct (pw_wait _ Hw y u Hu) as [H|[(H1 & H2 & H3)|(k & uk & K1 & K2 & K3 & K4 & K5)]].
    + left. destruct (decide (y = x)); cbn; by rewrite H.
    + destruct (decide (y = x)) as [->|Hne]; [left; cbn; rewrite H1, filter_one; by destruct (decide (x = x))|].
      right. left. cbn. rewrite H1, filter_one. by destruct (decide (y = x)).
    + destruct (decide (k = x)) as [->|Hne].
      * left. destruct (decide (y = x)); cbn; rewrite K1, filter_one; by destruct (decide (x = x)).
      * right. right. eexists k, _. rewrite (changed_fwd _ _ _ _ _ Hc K4).
        destruct (decide (y = x)); cbn; rewrite K1, filter_one; destruct (decide (k = x)); done.
  - intros y u1 Hy Hp. look Hc Hy; [done|]. rewrite (pw_post _ Hw y u Hy Hp), filter_one. by destruct (decide (y = x)).
  - intros j uj' y Hj Hst. look Hc Hj; [done|].
    destruct (pw_join _ Hw j u y Hj Hst) as (uy & Huy & H1 & H2 & H3). eexists.
    rewrite (changed_fwd _ _ _ _ _ Hc Huy). split; [done|]. cbn.
    destruct (decide (y = x)); cbn; rewrite H1, filter_one; by destruct (decide (j = x)).
  - intros k uk' y z Hk Hv.
    assert (exists uk, ts !! k = Some uk /\ u_var uk = Some (y, z)) as (uk & Huk & Hvk) by (look Hc Hk; by eexists).
    destruct (pw_var _ Hw _ _ y z Huk Hvk) as (uy & Huy & Hz). eexists.
    rewrite (changed_fwd _ _ _ _ _ Hc Huy). split; [done|]. cbn. by destruct (decide (y = x)).
  - intros y u1 Hy Hst. look Hc Hy; [naive_solver|]. by eapply (pw_exited _ Hw).
  - intros y u1 Hy. look Hc Hy; by eapply (pw_detached _ Hw).
Qed.
End transitions.

(** *** the store and the counters *)
Lemma changed_length F ts ts' : changed F ts ts' -> length ts' = length ts.
Proof.
  intros Hc. apply Nat.le_antisymm; apply Nat.le_ngt; intros Hlt.
  - destruct (lookup_lt_is_Some_2 ts' (length ts) Hlt) as [u Hu].
    destruct (changed_inv _ _ _ _ _ Hc Hu) as (u' & Hu' & _). apply lookup_lt_Some in Hu'. lia.
  - destruct (lookup_lt_is_Some_2 ts (length ts') Hlt) as [u Hu].
    pose proof (changed_fwd _ _ _ _ _ Hc Hu) as Hu'. apply lookup_lt_Some in Hu'. lia.
Qed.

Lemma lsum_pointwise {A} (f : A -> Z) l l' : length l' = length l ->
  (forall i x y, l !! i = Some x -> l' !! i = Some y -> f y = f x) -> lsum f l' = lsum f l.
Proof.
  revert l'. induction l as [|x l IH]; intros [|y l'] Hl Hp; simplify_eq/=; [done|].
  unfold lsum in *. simpl. rewrite (Hp 0%nat x y eq_refl eq_refl), (IH l'); [done|done|].
  intros i. apply (Hp (S i)).
Qed.

Lemma lsum_changed (f : uthread -> Z) F ts ts' : changed F ts ts' ->
  (forall y u, ts !! y = Some u -> f (F y u) = f u) -> lsum f ts' = lsum f ts.
Proof.
  intros Hc HF. apply lsum_pointwise; [by eapply changed_length|]. intros i x y Hx Hy.
  rewrite (changed_fwd _ _ _ _ _ Hc Hx) in Hy. injection Hy as <-. by apply HF.
Qed.

Lemma lsum_changed_at (f : uthread -> Z) F ts ts' t u : changed F ts ts' -> ts !! t = Some u ->
  (forall y u', ts !! y = Some u' -> y <> t -> f (F y u') = f u') ->
  lsum f ts' = lsum f ts - f u + f (F t u).
Proof.
  intros Hc Ht HF. transitivity (lsum f (<[t := F t u]> ts)); [|by apply lsum_insert].
  apply lsum_pointwise; [rewrite length_insert; by eapply changed_length|]. intros i x y Hx Hy.
  destruct (changed_inv _ _ _ _ _ Hc Hy) as (u' & Hu' & ->).
  apply list_lookup_insert_Some in Hx as [(-> & <- & _)|[Hne Hx]].
  - congruence.
  - assert (u' = x) as -> by congruence. by apply HF.
Qed.

Lemma exists_u_bounds u : 0 <= exists_u u <= 1.
Proof. unfold exists_u. destruct (u_state u); lia. Qed.
Lemma active_u_bounds u : 0 <= active_u u <= 1.
Proof. unfold active_u. destruct (u_exit u); lia. Qed.

Lemma store_changed p fs p' F : store_ok p fs -> changed F (p_threads p) (p_threads p') ->
  p_store p' = p_store p ->
  (forall y u, p_threads p !! y = Some u -> u_idx (F y u) = u_idx u /\ in_store (F y u) = in_store u) ->
  p_existing p' = lsum exists_u (p_threads p') -> p_active p' = lsum active_u (p_threads p') ->
  store_ok p' fs.
Proof.
  intros Hs Hc Hst HF He Ha. split; rewrite ?Hst; try done; try apply Hs.
  - unfold lenZ. rewrite (changed_length _ _ _ Hc). apply Hs.
  - intros t u' Ht Hin. destruct (changed_inv _ _ _ _ _ Hc Ht) as (u & Hu & ->).
    destruct (HF t u Hu) as [E1 E2]. rewrite E1. rewrite E2 in Hin. by apply (ps_store _ _ Hs).
  - intros i t Hv. destruct (ps_value _ _ Hs i t Hv) as (u & Hu & Hin & Hi). exists (F t u).
    destruct (HF t u Hu) as [-> ->]. split; [by apply (changed_fwd _ _ _ _ _ Hc)|done].
Qed.

(** what a step by a thread that is not cancelled starts from *)
Lemma nobody_cancelled p fs t u : p_inv p fs -> p_threads p !! t = Some u -> u_state u = URun ->
  u_cancelled u = false -> forall y v, p_threads p !! y = Some v -> u_cancelled v = false.
Proof.
  intros Hp Ht Hrun Hnc y v Hy. destruct (u_cancelled v) eqn:Hv; [|done].
  destruct (pi_cancelled _ _ Hp y v Hy Hv t u Ht) as [_ Hc]. rewrite (Hc Hrun) in Hnc. done.
Qed.

Lemma term_joining p fs t u : p_inv p fs -> p_threads p !! t = Some u -> u_state u = URun ->
  u_cancelled u = false -> forall y v, p_threads p !! y = Some v -> ended v = true -> u_jState v = Joining.
Proof.
  intros Hp Ht Hrun Hnc y v Hy Hst. destruct (pi_term _ _ Hp y v Hy Hst) as [|Hq]; [done|].
  destruct (Hq t u Ht) as [Hc _]. rewrite (Hc Hrun) in Hnc. done.
Qed.

Lemma keep_inv p fs p' F t u : p_inv p fs -> p_threads p !! t = Some u -> u_state u = URun ->
  u_cancelled u = false -> changed F (p_threads p) (p_threads p') ->
  p_store p' = p_store p -> p_cleaned p' = p_cleaned p -> p_deleted p' = p_deleted p ->
  p_existing p' = p_existing p ->
  (forall y v, p_threads p !! y = Some v -> u_idx (F y v) = u_idx v /\ in_store (F y v) = in_store v /\
    exists_u (F y v) = exists_u v /\ u_cancelled (F y v) = u_cancelled v) ->
  p_active p' = lsum active_u (p_threads p') -> waits_ok (p_threads p') ->
  (forall j uj x ux, p_threads p' !! j = Some uj -> u_state uj = UJoining x -> p_threads p' !! x = Some ux ->
    u_state ux = URun \/ exists z, u_state ux = UJoining z) ->
  (forall y v, p_threads p' !! y = Some v -> ended v = true ->
    u_jState v = Joining \/ forall t' u', p_threads p' !! t' = Some u' -> quiet u') ->
  p_inv p' fs.
Proof.
  intros Hp Ht Hrun Hnc Hc Hst Hcl Hdel Hex HF Ha Hw Htg Htm.
  assert (lsum exists_u (p_threads p') = lsum exists_u (p_threads p)) as He.
  { eapply lsum_changed; [done|]. intros y v Hy. by destruct (HF y v Hy) as (_ & _ & E & _). }
  split; try done.
  - eapply store_changed; [apply Hp|done..| |by rewrite Hex, He; apply Hp|done].
    intros y v Hy. by destruct (HF y v Hy) as (E1 & E2 & _).
  - intros y v Hy Hv. destruct (changed_inv _ _ _ _ _ Hc Hy) as (v0 & Hv0 & ->).
    destruct (HF y v0 Hv0) as (_ & _ & _ & E). rewrite E in Hv.
    by rewrite (nobody_cancelled p fs t u Hp Ht Hrun Hnc y v0 Hv0) in Hv.
  - rewrite Hdel, He. apply Hp.
  - rewrite Hcl, Hst. apply Hp.
Qed.

(** *** setupThread *)
Lemma waits_new ts i : waits_ok ts -> waits_ok (ts ++ [uthread_new i]).
Proof.
  intros Hw.
  assert (forall y u, ts !! y = Some u -> (ts ++ [uthread_new i]) !! y = Some u) as Hl.
  { intros y u Hy. by apply lookup_app_l_Some. }
  split.
  - intros t u [[Hlt Ht]|[-> <-]]%lookup_snoc_Some; [|by left].
    destruct (pw_wait _ Hw t u Ht) as [H|[H|(j & uj & H1 & H2 & H3 & H4 & H5)]]; [by left|by right; left|].
    right. right. exists j, uj. rewrite (Hl _ _ H4). auto.
  - intros t u [[Hlt Ht]|[-> <-]]%lookup_snoc_Some; [by apply (pw_post _ Hw)|done].
  - intros j uj t [[Hlt Hj]|[-> <-]]%lookup_snoc_Some; [|done]. intros Hst.
    destruct (pw_join _ Hw j uj t Hj Hst) as (u & Hu & Hrest). exists u. auto.
  - intros j uj t v [[Hlt Hj]|[-> <-]]%lookup_snoc_Some; [|done]. intros Hv.
    destruct (pw_var _ Hw j uj t v Hj Hv) as (u & Hu & Hrest). exists u. auto.
  - intros t u [[Hlt Ht]|[-> <-]]%lookup_snoc_Some; [by apply (pw_exited _ Hw t)|done].
  - intros t u [[Hlt Ht]|[-> <-]]%lookup_snoc_Some; [by apply (pw_detached _ Hw t)|done].
Qed.

Lemma lsum_exists_bound ts : lsum exists_u ts <= lenZ ts.
Proof. apply lsum_le. intros u. pose proof (exists_u_bounds u). lia. Qed.
Lemma lsum_active_bound ts : lsum active_u ts <= lenZ ts.
Proof. apply lsum_le. intros u. pose proof (active_u_bounds u). lia. Qed.

Lemma setupThread_spec p fs : store_ok p fs -> room p = true -> exists i m fs',
  setupThread p = Ok (length (p_threads p), mkP (p_active p + 1) (p_existing p + 1) m
    (p_threads p ++ [uthread_new i]) (p_cleaned p) (p_deleted p)) /\
  store_ok (mkP (p_active p + 1) (p_existing p + 1) m (p_threads p ++ [uthread_new i]) (p_cleaned p) (p_deleted p)) fs' /\
  ma_empty m = false.
Proof.
  intros Hs Hr. unfold room in Hr. apply andb_true_iff in Hr as [Hlen Hcap]. apply Z.ltb_lt in Hlen, Hcap.
  destruct (ma_put_spec (fun _ => true) (p_store p) fs (length (p_threads p)) (ps_arr _ _ Hs) Hcap eq_refl)
    as (i & m & fs' & Hput & Hi & Hn & Hnr & Hv & Hres).
  pose proof (ps_existing _ _ Hs) as He. pose proof (ps_active _ _ Hs) as Ha.
  pose proof (lsum_exists_bound (p_threads p)). pose proof (lsum_active_bound (p_threads p)).
  assert (0 <= lsum exists_u (p_threads p)) by (apply lsum_nonneg; intros; apply exists_u_bounds).
  assert (0 <= lsum active_u (p_threads p)) by (apply lsum_nonneg; intros; apply active_u_bounds).
  exists i, m, fs'. unfold setupThread. rewrite Hput. cbn [mbind res_bind mret res_ret].
  rewrite !wrap_small by lia. split; [done|]. split.
  - split; cbn [p_threads p_existing p_active p_store]; [done| | | | | |].
    + intros k Hk. apply (ps_res _ _ Hs k). by apply Hres.
    + rewrite lenZ_app. unfold lenZ in *. cbn. lia.
    + intros t u [[Hlt Ht]|[-> <-]]%lookup_snoc_Some Hin; rewrite Hv; [|by destruct (decide _)].
      pose proof (ps_store _ _ Hs t u Ht Hin) as E. destruct (decide (u_idx u = i)) as [<-|]; [congruence|done].
    + intros k t. rewrite Hv. destruct (decide (k = i)) as [->|Hne].
      * intros [= <-]. exists (uthread_new i). split; [|done]. by apply lookup_snoc_Some; right.
      * intros Hk. destruct (ps_value _ _ Hs k t Hk) as (u & Hu & Hrest). exists u. split; [|done].
        by apply lookup_app_l_Some.
    + rewrite lsum_app. unfold lsum at 2. cbn. lia.
    + rewrite lsum_app. unfold lsum at 2. cbn. lia.
  - destruct (ma_empty m) eqn:Hem; [|done].
    assert (forall k, ~ reserved m fs' k) as Hnres by (intros k Hk%Hres; by apply (ps_res _ _ Hs k)).
    pose proof (proj1 (ma_empty_spec m fs' Hi Hnres) Hem i) as E. rewrite Hv in E. by destruct (decide (i = i)).
Qed.

(** what setupThread needs; it holds of the empty process too *)
Record fresh_ok (p : process) (fs : list Z) : Prop := {
  fo_store : store_ok p fs;
  fo_waits : waits_ok (p_threads p);
  fo_nc t u : p_threads p !! t = Some u -> u_cancelled u = false;
  fo_target j uj t u : p_threads p !! j = Some uj -> u_state uj = UJoining t -> p_threads p !! t = Some u ->
    u_state u = URun \/ exists x, u_state u = UJoining x;
  fo_term t u : p_threads p !! t = Some u -> ended u = true -> u_jState u = Joining;
  fo_deleted : p_deleted p = false;
  fo_cleaned : p_cleaned p = 0
}.

Lemma setup_inv p fs : fresh_ok p fs -> room p = true -> exists i p' fs',
  setupThread p = Ok (length (p_threads p), p') /\ p_inv p' fs' /\ p_threads p' = p_threads p ++ [uthread_new i].
Proof.
  intros Hf Hr. destruct (setupThread_spec p fs (fo_store _ _ Hf) Hr) as (i & m & fs' & Hset & Hs & Hem).
  exists i. eexists. exists fs'. split; [exact Hset|]. split; [|done]. split; cbn [p_threads p_store p_deleted p_cleaned].
  - done.
  - apply waits_new, Hf.
  - intros j uj t u [[Hlt Hj]|[-> <-]]%lookup_snoc_Some Hst; [|done].
    intros [[Hlt' Ht]|[-> <-]]%lookup_snoc_Some; [exact (fo_target _ _ Hf j uj t u Hj Hst Ht)|by left].
  - intros t u [[Hlt Ht]|[-> <-]]%lookup_snoc_Some Hc; [|done]. by rewrite (fo_nc _ _ Hf t u Ht) in Hc.
  - intros t u [[Hlt Ht]|[-> <-]]%lookup_snoc_Some Hst; [|done]. left. by apply (fo_term _ _ Hf t u Ht).
  - rewrite (fo_deleted _ _ Hf), lsum_app.
    pose proof (lsum_nonneg exists_u (p_threads p) (fun u => proj1 (exists_u_bounds u))).
    unfold lsum at 2. cbn. split; [done|lia].
  - rewrite Hem. apply Hf.
Qed.

Lemma exists_running ts t u : ts !! t = Some u -> u_state u = URun -> 1 <= lsum exists_u ts.
Proof.
  intros Ht Hrun. pose proof (lsum_ge exists_u ts t u (fun u => proj1 (exists_u_bounds u)) Ht) as H.
  unfold exists_u in H at 1. by rewrite Hrun in H.
Qed.

Lemma inv_nonempty p fs t u : p_inv p fs -> p_threads p !! t = Some u -> in_store u = true ->
  ma_empty (p_store p) = false.
Proof.
  intros Hp Ht Hin. destruct (ma_empty (p_store p)) eqn:He; [|done].
  pose proof (ps_store _ _ (pi_store _ _ Hp) t u Ht Hin) as Hv.
  by rewrite (proj1 (ma_empty_spec _ _ (ps_arr _ _ (pi_store _ _ Hp)) (ps_res _ _ (pi_store _ _ Hp))) He) in Hv.
Qed.

Lemma inv_fresh p fs t u : p_inv p fs -> p_threads p !! t = Some u -> u_state u = URun ->
  u_cancelled u = false -> fresh_ok p fs.
Proof.
  intros Hp Ht Hrun Hnc. split; try apply Hp.
  - by eapply nobody_cancelled.
  - by eapply term_joining.
  - destruct (p_deleted p) eqn:Hd; [|done]. pose proof (proj1 (pi_deleted _ _ Hp) Hd).
    pose proof (exists_running _ _ _ Ht Hrun). lia.
  - rewrite (pi_cleaned _ _ Hp), (inv_nonempty _ _ _ _ Hp Ht); [done|]. unfold in_store. by rewrite Hrun.
Qed.

(** a change that only a thread itself can see *)
Definition same_u (u v : uthread) : Prop :=
  u_idx v = u_idx u /\ u_state v = u_state u /\ u_cancelled v = u_cancelled u /\ u_jState v = u_jState u /\
  u_wait v = u_wait u /\ u_result v = u_result u /\ u_exit v = u_exit u /\ u_var v = u_var u.

Lemma same_inv p fs t f : p_inv p fs -> (forall u, same_u u (f u)) -> p_inv (upd t f p) fs.
Proof.
  intros Hp Hf. pose proof (changed_alter f t (p_threads p)) as Hc.
  assert (forall y u, p_threads (upd t f p) !! y = Some u -> exists v, p_threads p !! y = Some v /\ same_u v u) as Hb.
  { intros y u Hy. destruct (changed_inv _ _ _ _ _ Hc Hy) as (v & Hv & ->). exists v. split; [done|].
    destruct (decide (y = t)); [apply Hf|]. by unfold same_u. }
  assert (forall g, (forall u, g (f u) = g u) -> lsum g (p_threads (upd t f p)) = lsum g (p_threads p)) as Hsum.
  { intros g Hg. eapply lsum_changed; [exact Hc|]. intros y u _. cbn. by destruct (decide (y = t)). }
  assert (forall u, exists_u (f u) = exists_u u) as He by (intros u; unfold exists_u; by destruct (Hf u) as (_ & -> & _)).
  assert (forall u, active_u (f u) = active_u u) as Ha
    by (intros u; unfold active_u; by destruct (Hf u) as (_ & _ & _ & _ & _ & _ & -> & _)).
  split; cbn [p_store p_deleted p_cleaned upd with_threads].
  - eapply (store_changed p); [apply Hp|exact Hc|done| |rewrite (Hsum _ He)|rewrite (Hsum _ Ha)]; try apply Hp.
    intros y u _. cbn. destruct (decide (y = t)); [|done]. unfold in_store. by destruct (Hf u) as (-> & -> & _).
  - eapply waits_quiet; [apply Hp|exact Hc|]. intros y u _. cbn. destruct (decide (y = t)); [|naive_solver].
    destruct (Hf u) as (_ & -> & _ & -> & -> & -> & -> & ->). naive_solver.
  - intros j uj x ux Hj Hst Hx. destruct (Hb j uj Hj) as (vj & Hvj & Ej). destruct (Hb x ux Hx) as (vx & Hvx & Ex).
    destruct Ej as (_ & Ej & _). destruct Ex as (_ & Ex & _). rewrite Ej in Hst. rewrite Ex.
    exact (pi_target _ _ Hp j vj x vx Hvj Hst Hvx).
  - intros x ux Hx Hxc y uy Hy. destruct (Hb x ux Hx) as (vx & Hvx & Ex). destruct (Hb y uy Hy) as (vy & Hvy & Ey).
    destruct Ex as (_ & _ & Ex & _). destruct Ey as (_ & Ey & Ey' & _). unfold waiting. rewrite Ey, Ey'.
    apply (pi_cancelled _ _ Hp x vx Hvx ltac:(congruence) y vy Hvy).
  - intros x ux Hx Hst. destruct (Hb x ux Hx) as (vx & Hvx & Ex). destruct Ex as (_ & Ex & _ & Ej & _).
    unfold ended in Hst. rewrite Ex in Hst. rewrite Ej. destruct (pi_term _ _ Hp x vx Hvx Hst) as [|Hq]; [by left|right].
    intros y uy Hy. destruct (Hb y uy Hy) as (vy & Hvy & Ey). destruct Ey as (_ & Ey & Ey' & _).
    unfold quiet. rewrite Ey, Ey'. by apply (Hq y vy).
  - rewrite (Hsum _ He). apply Hp.
  - apply Hp.
Qed.

Lemma ret_inv p fs t r : p_inv p fs -> p_inv (upd t (set_ret r) p) fs.
Proof. intros Hp. apply same_inv; [done|]. intros u. by unfold same_u. Qed.

Lemma createThread_inv p fs t u : p_inv p fs -> p_threads p !! t = Some u -> u_state u = URun ->
  u_cancelled u = false -> room p = true -> exists p' fs', createThread t p = Ok p' /\ p_inv p' fs'.
Proof.
  intros Hp Ht Hrun Hnc Hr.
  destruct (setup_inv p fs (inv_fresh _ _ _ _ Hp Ht Hrun Hnc) Hr) as (i & p1 & fs1 & Hset & Hp1 & Hts).
  unfold createThread. rewrite Hset. cbn [mbind res_bind]. rewrite Hts, list_lookup_middle by done.
  cbn [mbind res_bind mret res_ret]. eexists _, fs1. split; [done|]. by apply ret_inv.
Qed.

(** *** exitThread *)
Lemma changed_refl ts : changed (fun _ u => u) ts ts.
Proof. intros y. by destruct (ts !! y). Qed.

(** a chain of updates is the change [G] *)
Ltac chain :=
  lazymatch goal with |- changed _ _ ?ts' =>
    eapply changed_ext; [repeat (eapply changed_trans; [|apply changed_alter]); apply changed_refl|]
  end.
Ltac threads := cbn [upd with_threads p_threads p_store p_cleaned p_deleted p_existing p_active].

Lemma upd_lookup t f p y : p_threads (upd t f p) !! y =
  (if decide (y = t) then f else fun u => u) <$> p_threads p !! y.
Proof.
  threads. pose proof (changed_alter f t (p_threads p) y) as E. cbn beta in E. rewrite E.
  destruct (p_threads p !! y); [|done]. simpl. by destruct (decide (y = t)).
Qed.

Lemma active_bounds p fs t u : p_inv p fs -> p_threads p !! t = Some u -> u_exit u = None ->
  1 <= p_active p < 2 ^ 64.
Proof.
  intros Hp Ht He. pose proof (ps_active _ _ (pi_store _ _ Hp)). pose proof (ps_small _ _ (pi_store _ _ Hp)).
  pose proof (lsum_active_bound (p_threads p)).
  pose proof (lsum_ge active_u _ t u (fun u => proj1 (active_u_bounds u)) Ht) as H2.
  unfold active_u in H2 at 1. rewrite He in H2. lia.
Qed.

Lemma others_exited p fs t u : p_inv p fs -> p_threads p !! t = Some u -> u_exit u = None ->
  p_active p - 1 = 0 -> forall y v, p_threads p !! y = Some v -> y <> t -> u_exit v <> None.
Proof.
  intros Hp Ht He H1 y v Hy Hne Hv. pose proof (ps_active _ _ (pi_store _ _ Hp)) as Ha.
  pose proof (lsum_ge2 active_u _ y t v u (fun u => proj1 (active_u_bounds u)) Hy Ht Hne) as H2.
  unfold active_u in H2 at 1 2. rewrite He, Hv in H2. lia.
Qed.

Section exiting.
Context (p : process) (fs : list Z) (t : nat) (u : uthread) (v : Z) (Hp : p_inv p fs)
  (Ht : p_threads p !! t = Some u) (Hrun : u_state u = URun) (Hnc : u_cancelled u = false).

(** what the three ways of exitThread have in common *)
Lemma exit_keep F p' : changed F (p_threads p) (p_threads p') ->
  p_active p' = p_active p - 1 -> p_store p' = p_store p -> p_cleaned p' = p_cleaned p ->
  p_deleted p' = p_deleted p -> p_existing p' = p_existing p ->
  (forall y w, p_threads p !! y = Some w -> u_idx (F y w) = u_idx w /\ in_store (F y w) = in_store w /\
    exists_u (F y w) = exists_u w /\ u_cancelled (F y w) = u_cancelled w /\
    u_exit (F y w) = if decide (y = t) then Some v else u_exit w) ->
  waits_ok (p_threads p') ->
  (forall j uj x ux, p_threads p' !! j = Some uj -> u_state uj = UJoining x -> p_threads p' !! x = Some ux ->
    u_state ux = URun \/ exists z, u_state ux = UJoining z) ->
  (forall y v, p_threads p' !! y = Some v -> ended v = true ->
    u_jState v = Joining \/ forall t' u', p_threads p' !! t' = Some u' -> quiet u') ->
  p_inv p' fs.
Proof using Hp Ht Hrun Hnc.
  intros Hc Ha Hst Hcl Hdel Hex HF Hw Htg Htm.
  eapply (keep_inv p fs p' F t u); try done.
  - intros y w Hy. by destruct (HF y w Hy) as (? & ? & ? & ? & _).
  - rewrite Ha, (ps_active _ _ (pi_store _ _ Hp)).
    rewrite (lsum_changed_at active_u F (p_threads p) (p_threads p') t u Hc Ht).
    + pose proof (run_exit _ (pi_waits _ _ Hp) t u Ht Hrun) as He.
      destruct (HF t u Ht) as (_ & _ & _ & _ & E). destruct (decide (t = t)); [|done].
      assert (active_u u = 1) as -> by (unfold active_u; by rewrite He).
      assert (active_u (F t u) = 0) as -> by (unfold active_u; by rewrite E). lia.
    + intros y w Hy Hne. destruct (HF y w Hy) as (_ & _ & _ & _ & E). unfold active_u. rewrite E.
      by destruct (decide (y = t)).
Qed.

Lemma exit_last_inv : p_active p - 1 = 0 ->
  p_inv (upd t (set_state UTerm) (mkP (p_active p - 1) (p_existing p) (p_store p)
    (p_threads (upd t (set_exit v) p)) (p_cleaned p) (p_deleted p))) fs.
Proof using Hp Ht Hrun Hnc.
  intros Hlast. pose proof (run_exit _ (pi_waits _ _ Hp) t u Ht Hrun) as He.
  pose proof (others_exited p fs t u Hp Ht He Hlast) as Hothers.
  assert (forall y w, p_threads p !! y = Some w -> y <> t -> u_state w <> URun /\ forall x, u_state w <> UJoining x) as Hq.
  { intros y w Hy Hne. pose proof (pw_exited _ (pi_waits _ _ Hp) y w Hy) as Hex.
    pose proof (Hothers y w Hy Hne) as Hno. split; [|intros x]; intros Hst; apply Hno, Hex; [by left|right; by exists x]. }
  set (p' := upd _ _ _).
  assert (changed (fun y w => if decide (y = t) then set_state UTerm (set_exit v w) else w) (p_threads p) (p_threads p')) as Hc.
  { unfold p'. threads. chain. intros y w Hy. cbn. by destruct (decide (y = t)). }
  eapply exit_keep; try exact Hc; try done.
  - intros y w Hy. cbn. destruct (decide (y = t)) as [->|]; [|done]. assert (w = u) as -> by congruence.
    unfold in_store, exists_u. by rewrite Hrun.
  - by eapply (exit_term _ (pi_waits _ _ Hp) _ t u Ht Hrun).
  - intros j uj x ux Hj Hst. look Hc Hj; [done|]. by destruct (proj2 (Hq j u0 Hj ltac:(done)) x).
  - intros y w Hy Hst. right. intros z uz Hz. look Hc Hz; [done|]. destruct (Hq z u0 Hz ltac:(done)) as [H1 H2].
    split; [done|apply H2].
Qed.

(** in the other two ways, the threads that have ended were joined *)
Lemma exit_terms F p' : changed F (p_threads p) (p_threads p') ->
  (forall y w, p_threads p !! y = Some w -> ended (F y w) = true -> u_jState (F y w) = Joining \/
    ended w = true /\ u_jState (F y w) = u_jState w) ->
  forall y w, p_threads p' !! y = Some w -> ended w = true ->
    u_jState w = Joining \/ forall t' u', p_threads p' !! t' = Some u' -> quiet u'.
Proof using Hp Ht Hrun Hnc.
  intros Hc HF y w Hy Hst. left. destruct (changed_inv _ _ _ _ _ Hc Hy) as (w0 & Hw0 & ->).
  destruct (HF y w0 Hw0 Hst) as [|[H1 ->]]; [done|]. by eapply (term_joining p fs t u).
Qed.

Lemma exit_park_inv : u_wait u = [] ->
  p_inv (cond_wait t t UPosting (set_state UTerm) (upd t (set_wait [] (RPost v))
    (mkP (p_active p - 1) (p_existing p) (p_store p)
      (p_threads (upd t (set_exit v) p)) (p_cleaned p) (p_deleted p)))) fs.
Proof using Hp Ht Hrun Hnc.
  intros Hw0. unfold cond_wait. rewrite upd_lookup. threads.
  rewrite list_lookup_alter_eq, Ht. destruct (decide (t = t)); [cbn [fmap option_fmap option_map]|done].
  change (u_cancelled (set_wait [] (RPost v) (set_exit v u))) with (u_cancelled u). rewrite Hnc.
  set (p' := upd t (set_state UPosting) _).
  assert (changed (fun y w => if decide (y = t) then set_state UPosting (set_wait [t] (RPost v) (set_exit v w)) else w)
    (p_threads p) (p_threads p')) as Hc.
  { unfold p'. threads. chain. intros y w Hy. cbn. by destruct (decide (y = t)). }
  eapply exit_keep; try exact Hc; try done.
  - intros y w Hy. cbn. destruct (decide (y = t)) as [->|]; [|done]. assert (w = u) as -> by congruence.
    unfold in_store, exists_u. by rewrite Hrun.
  - by eapply (exit_park _ (pi_waits _ _ Hp) _ t u Ht Hrun).
  - intros j uj x ux Hj Hst Hx. look Hc Hj; [done|]. destruct (changed_inv _ _ _ _ _ Hc Hx) as (wx & Hwx & ->).
    destruct (decide (x = t)) as [->|]; [|by eapply (pi_target _ _ Hp j u0 x wx)].
    destruct (pw_join _ (pi_waits _ _ Hp) j u0 t Hj Hst) as (w & Hw & E & _). congruence.
  - eapply exit_terms; [exact Hc|]. intros y w Hy. cbn. destruct (decide (y = t)); [done|by right].
Qed.

Lemma exit_deliver_inv j : u_wait u = [j] -> u_result u = RJoin j -> j <> t -> u_jState u = Joining ->
  (exists uj, p_threads p !! j = Some uj /\ u_state uj = UJoining t) ->
  p_inv (upd t (set_state UTerm) (signal t (upd j (set_var (t, v))
    (mkP (p_active p - 1) (p_existing p) (p_store p)
      (p_threads (upd t (set_exit v) p)) (p_cleaned p) (p_deleted p))))) fs.
Proof using Hp Ht Hrun Hnc.
  intros Hw0 Hres Hne Hjs (uj & Huj & Hstj). unfold signal. rewrite upd_lookup. threads.
  rewrite list_lookup_alter_eq, Ht. destruct (decide (t = j)); [done|]. cbn [fmap option_fmap option_map].
  change (u_wait (set_exit v u)) with (u_wait u). change (u_result (set_exit v u)) with (u_result u).
  rewrite Hw0, Hres. set (p' := upd t (set_state UTerm) _).
  assert (changed (fun y w => if decide (y = t) then set_state UTerm (set_wait [] (RJoin j) (set_exit v w))
      else if decide (y = j) then set_state URun (set_var (t, v) w) else w) (p_threads p) (p_threads p')) as Hc.
  { unfold p'. threads. chain. intros y w Hy. cbn.
    destruct (decide (y = t)) as [->|]; [by destruct (decide (t = j))|].
    destruct (decide (y = j)) as [->|]; [|done]. assert (w = uj) as -> by congruence. cbn. by rewrite Hstj. }
  eapply exit_keep; try exact Hc; try done.
  - intros y w Hy. cbn. destruct (decide (y = t)) as [->|].
    + assert (w = u) as -> by congruence. unfold in_store, exists_u. by rewrite Hrun.
    + destruct (decide (y = j)) as [->|]; [|done]. assert (w = uj) as -> by congruence.
      unfold in_store, exists_u. by rewrite Hstj.
  - by eapply (exit_deliver _ (pi_waits _ _ Hp) _ t u Ht Hrun).
  - intros k uk x ux Hk Hst Hx. look Hc Hk; [done..|]. destruct (changed_inv _ _ _ _ _ Hc Hx) as (wx & Hwx & ->).
    destruct (decide (x = t)) as [->|].
    + destruct (pw_join _ (pi_waits _ _ Hp) k u0 t Hk Hst) as (w & Hw & E & _). congruence.
    + destruct (decide (x = j)) as [->|]; [by left|]. by eapply (pi_target _ _ Hp k u0 x wx).
  - eapply exit_terms; [exact Hc|]. intros y w Hy. cbn. destruct (decide (y = t)) as [->|].
    + assert (w = u) as -> by congruence. by left.
    + destruct (decide (y = j)); [done|by right].
Qed.

Lemma exitThread_inv : exists p', exitThread t v u p = Ok p' /\ p_inv p' fs.
Proof using Hp Ht Hrun Hnc.
  pose proof (run_exit _ (pi_waits _ _ Hp) t u Ht Hrun) as He. pose proof (active_bounds p fs t u Hp Ht He).
  unfold exitThread. threads. rewrite (wrap_small 64 (p_active p - 1)) by lia.
  destruct (Z.eqb_spec (p_active p - 1) 0); [eexists; split; [done|by apply exit_last_inv]|].
  pose proof (pw_detached _ (pi_waits _ _ Hp) t u Ht). unfold post.
  destruct (run_wait _ (pi_waits _ _ Hp) t u Ht Hrun) as [Hw0|(j & uj & H1 & H2 & H3 & H4 & H5 & H6)].
  - rewrite Hw0. destruct (u_jState u); [|done|]; (eexists; split; [done|by apply exit_park_inv]).
  - rewrite H1, H2, H3. eexists. split; [done|]. apply exit_deliver_inv; try done. by exists uj.
Qed.
End exiting.

(** *** joinThread *)
Section joining.
Context (p : process) (fs : list Z) (t : nat) (u : uthread) (Hp : p_inv p fs)
  (Ht : p_threads p !! t = Some u) (Hrun : u_state u = URun) (Hnc : u_cancelled u = false)
  (tgt : nat) (ut : uthread) (Htgt : p_threads p !! tgt = Some ut) (Hreg : u_jState ut = Regular).

(** a join keeps the counters *)
Lemma join_keep F p' : changed F (p_threads p) (p_threads p') ->
  p_active p' = p_active p -> p_store p' = p_store p -> p_cleaned p' = p_cleaned p ->
  p_deleted p' = p_deleted p -> p_existing p' = p_existing p ->
  (forall y w, p_threads p !! y = Some w -> u_idx (F y w) = u_idx w /\ in_store (F y w) = in_store w /\
    exists_u (F y w) = exists_u w /\ u_cancelled (F y w) = u_cancelled w /\ u_exit (F y w) = u_exit w /\
    (u_jState (F y w) = Joining \/ u_jState (F y w) = u_jState w /\ u_state (F y w) <> UTerm \/ F y w = w)) ->
  (forall y w, p_threads p !! y = Some w -> u_state (F y w) = ULost -> u_state w = ULost) ->
  waits_ok (p_threads p') ->
  (forall j uj x ux, p_threads p' !! j = Some uj -> u_state uj = UJoining x -> p_threads p' !! x = Some ux ->
    u_state ux = URun \/ exists z, u_state ux = UJoining z) ->
  p_inv p' fs.
Proof using Hp Ht Hrun Hnc.
  intros Hc Ha Hst Hcl Hdel Hex HF Hlost Hw Htg.
  eapply (keep_inv p fs p' F t u); try done.
  - intros y w Hy. by destruct (HF y w Hy) as (? & ? & ? & ? & _).
  - rewrite Ha, (ps_active _ _ (pi_store _ _ Hp)). symmetry. eapply lsum_changed; [exact Hc|].
    intros y w Hy. destruct (HF y w Hy) as (_ & _ & _ & _ & E & _). unfold active_u. by rewrite E.
  - intros y w Hy He. left. destruct (changed_inv _ _ _ _ _ Hc Hy) as (w0 & Hw0 & ->).
    destruct (HF y w0 Hw0) as (_ & _ & _ & _ & _ & [|[[E Hnt]| E]]); [done| |].
    + rewrite E. eapply (term_joining p fs t u); try done. unfold ended in *.
      destruct (u_state (F y w0)) eqn:Hs; try done. by rewrite (Hlost y w0 Hw0 Hs).
    + rewrite E in *. by eapply (term_joining p fs t u).
Qed.

Lemma join_park_inv : u_wait ut = [] -> in_store ut = true ->
  p_inv (cond_wait t tgt (UJoining tgt) (fun v => v) (upd tgt (set_wait [] (RJoin t)) (upd tgt (set_jState Joining) p))) fs /\
  (u_state ut = URun \/ exists x, u_state ut = UJoining x).
Proof using Hp Ht Hrun Hnc Htgt Hreg.
  intros Hw0 Hin.
  assert (u_state ut = URun \/ exists x, u_state ut = UJoining x) as Hlive.
  { unfold in_store in Hin. destruct (u_state ut) eqn:Hs; try done; [by left| |right; by eexists| |].
    - pose proof (pw_post _ (pi_waits _ _ Hp) tgt ut Htgt Hs). congruence.
    - pose proof (term_joining p fs t u Hp Ht Hrun Hnc tgt ut Htgt ltac:(unfold ended; by rewrite Hs)). congruence.
    - pose proof (term_joining p fs t u Hp Ht Hrun Hnc tgt ut Htgt ltac:(unfold ended; by rewrite Hs)). congruence. }
  split; [|done]. unfold cond_wait. rewrite !upd_lookup, Ht. cbn [fmap option_fmap option_map].
  match goal with |- context [u_cancelled ?w] => assert (u_cancelled w = false) as -> by
    (destruct (decide (t = tgt)); done) end.
  set (p' := upd t (set_state (UJoining tgt)) _).
  assert (changed (fun y u =>
    let u1 := if decide (y = tgt) then set_wait [t] (RJoin t) (set_jState Joining u) else u in
    if decide (y = t) then set_state (UJoining tgt) u1 else u1) (p_threads p) (p_threads p')) as Hc.
  { unfold p'. threads. chain. intros y w Hy. cbn. by destruct (decide (y = tgt)), (decide (y = t)). }
  eapply join_keep; try exact Hc; try done.
  - intros y w Hy. cbn. unfold in_store, exists_u.
    destruct (decide (y = t)) as [->|]; [assert (w = u) as -> by congruence|];
      destruct (decide (_ = tgt)); cbn; rewrite ?Hrun; repeat (split; [done|]); auto.
  - intros y w Hy. cbn. by destruct (decide (y = tgt)), (decide (y = t)).
  - by eapply (join_park _ (pi_waits _ _ Hp) _ t u Ht Hrun tgt ut).
  - intros j uj x ux Hj Hst Hx. destruct (changed_inv _ _ _ _ _ Hc Hx) as (wx & Hwx & ->). cbn.
    destruct (decide (x = t)) as [->|]; [right; by exists tgt|].
    assert (u_state (if decide (x = tgt) then set_wait [t] (RJoin t) (set_jState Joining wx) else wx) = u_state wx) as ->
      by (by destruct (decide (x = tgt))).
    destruct (decide (j = t)) as [->|Hjt].
    + look Hc Hj; try done; simplify_eq; done.
    + look Hc Hj; try done; by eapply (pi_target _ _ Hp).
Qed.

Lemma join_collect_inv v : u_state ut = UPosting -> u_result ut = RPost v -> u_exit ut = Some v ->
  p_inv (signal tgt (upd t (set_var (tgt, v)) (upd tgt (set_jState Joining) p))) fs.
Proof using Hp Ht Hrun Hnc Htgt Hreg.
  intros Hpost Hres Hex. pose proof (pw_post _ (pi_waits _ _ Hp) tgt ut Htgt Hpost) as Hw0.
  assert (tgt <> t) as Hne by (intros ->; congruence).
  unfold signal. rewrite !upd_lookup, Htgt. cbn [fmap option_fmap option_map].
  destruct (decide (tgt = tgt)); [|done]. destruct (decide (tgt = t)); [done|].
  change (u_wait (set_jState Joining ut)) with (u_wait ut). change (u_result (set_jState Joining ut)) with (u_result ut).
  rewrite Hw0, Hres. set (p' := upd tgt _ _).
  assert (changed (fun y u => if decide (y = tgt) then set_state UTerm (set_wait [] (RPost v) (set_jState Joining u))
    else if decide (y = t) then set_var (tgt, v) u else u) (p_threads p) (p_threads p')) as Hc.
  { unfold p'. threads. chain. intros y w Hy. cbn.
    destruct (decide (y = tgt)) as [->|]; [|done]. destruct (decide (tgt = t)); [done|].
    assert (w = ut) as -> by congruence. cbn. by rewrite Hpost. }
  eapply join_keep; try exact Hc; try done.
  - intros y w Hy. cbn. unfold in_store, exists_u. destruct (decide (y = tgt)) as [->|].
    + assert (w = ut) as -> by congruence. rewrite Hpost. repeat (split; [done|]). by left.
    + destruct (decide (y = t)) as [->|]; repeat (split; [done|]); [|auto]. right. left.
      assert (w = u) as -> by congruence. cbn. by rewrite Hrun.
  - intros y w Hy. cbn. destruct (decide (y = tgt)), (decide (y = t)); done.
  - by eapply (join_collect _ (pi_waits _ _ Hp) _ t u Ht Hrun tgt ut v).
  - intros j uj x ux Hj Hst Hx. destruct (changed_inv _ _ _ _ _ Hc Hx) as (wx & Hwx & ->).
    assert (exists u1, p_threads p !! j = Some u1 /\ u_state u1 = UJoining x) as (u1 & Hu1 & Hs1)
      by (look Hc Hj; try done; by eexists).
    pose proof (pi_target _ _ Hp j u1 x wx Hu1 Hs1 Hwx) as Hlive.
    destruct (decide (x = tgt)) as [->|]; [|by destruct (decide (x = t))].
    assert (wx = ut) as -> by congruence. rewrite Hpost in Hlive. by destruct Hlive as [|[? ?]].
Qed.
End joining.

(** the five ways a join goes *)
Lemma joinThread_cases p fs t u idx : p_inv p fs -> p_threads p !! t = Some u -> u_state u = URun ->
  u_cancelled u = false -> 0 <= idx -> exists p1 r, joinThread t idx p = Ok (upd t (set_ret r) p1) /\ p_inv p1 fs /\
  match value (p_store p) idx with
  | None => p1 = p /\ r = - ESRCH
  | Some tgt => exists ut, p_threads p !! tgt = Some ut /\ u_idx ut = idx /\
      match u_jState ut with
      | Regular => r = 0 /\
          ((exists v, u_state ut = UPosting /\ u_exit ut = Some v /\ u_result ut = RPost v /\ u_wait ut = [tgt] /\
             p1 = signal tgt (upd t (set_var (tgt, v)) (upd tgt (set_jState Joining) p))) \/
           ((u_state ut = URun \/ exists x, u_state ut = UJoining x) /\
             p1 = cond_wait t tgt (UJoining tgt) (fun v => v)
               (upd tgt (set_wait [] (RJoin t)) (upd tgt (set_jState Joining) p))))
      | _ => p1 = p /\ r = - EINVAL_join
      end
  end.
Proof.
  intros Hp Ht Hrun Hnc Hidx. pose proof (ps_arr _ _ (pi_store _ _ Hp)) as Hm. unfold joinThread.
  destruct (value (p_store p) idx) as [tgt|] eqn:Hv.
  - rewrite (valid_value _ _ Hm _ _ Hv). cbn [mbind res_bind negb]. rewrite (get_value _ _ Hm _ _ Hv).
    cbn [mbind res_bind]. destruct (ps_value _ _ (pi_store _ _ Hp) idx tgt Hv) as (ut & Hut & Hin & Hi).
    rewrite Hut. unfold join. destruct (u_jState ut) eqn:Hj.
    + destruct (pw_wait _ (pi_waits _ _ Hp) tgt ut Hut) as [H|[(H1 & H2 & v & H3 & H4)|(j & uj & H1 & H2 & H3 & _)]];
        [| |congruence].
      * destruct (join_park_inv p fs t u Hp Ht Hrun Hnc tgt ut Hut Hj H Hin) as [Hi' Hlive]. rewrite H.
        eexists _, 0. split; [done|]. split; [done|]. exists ut. rewrite Hj. auto 6.
      * rewrite H1, H3. eexists _, 0. split; [done|]. split; [by eapply join_collect_inv|].
        exists ut. rewrite Hj. split; [done|]. split; [done|]. split; [done|]. left. by exists v.
    + by destruct (pw_detached _ (pi_waits _ _ Hp) tgt ut Hut).
    + eexists p, _. split; [done|]. split; [done|]. exists ut. by rewrite Hj.
  - rewrite (valid_none _ _ Hm _ Hidx Hv). eexists p, _. by split.
Qed.

(** *** exit *)
Definition calm (u : uthread) : Prop := waiting u = false /\ (u_state u = URun -> u_cancelled u = true).

(** a change by [cancel] *)
Record gentle (F : nat -> uthread -> uthread) (ts : list uthread) : Prop := {
  ge_idx y u : ts !! y = Some u -> u_idx (F y u) = u_idx u /\ in_store (F y u) = in_store u /\
    exists_u (F y u) = exists_u u /\ u_exit (F y u) = u_exit u;
  ge_run y u : ts !! y = Some u -> (u_state (F y u) = URun <-> u_state u = URun);
  ge_calm y u : ts !! y = Some u -> calm u -> calm (F y u)
}.

Lemma gentle_trans F G ts ts' : changed F ts ts' -> gentle F ts -> gentle G ts' ->
  gentle (fun y u => G y (F y u)) ts.
Proof.
  intros Hc HF HG. split; intros y u Hy; pose proof (changed_fwd _ _ _ _ _ Hc Hy) as Hy'.
  - destruct (ge_idx _ _ HF y u Hy) as (E1 & E2 & E3 & E4), (ge_idx _ _ HG y _ Hy') as (-> & -> & -> & ->). auto.
  - rewrite (ge_run _ _ HG y _ Hy'). apply (ge_run _ _ HF y u Hy).
  - intros Hcl. apply (ge_calm _ _ HG y _ Hy'), (ge_calm _ _ HF y u Hy Hcl).
Qed.

Lemma cancel_spec p x ux : waits_ok (p_threads p) -> p_threads p !! x = Some ux ->
  exists F, changed F (p_threads p) (p_threads (cancel x p)) /\ gentle F (p_threads p) /\
    waits_ok (p_threads (cancel x p)) /\ calm (F x ux) /\
    p_store (cancel x p) = p_store p /\ p_active (cancel x p) = p_active p /\
    p_existing (cancel x p) = p_existing p /\ p_cleaned (cancel x p) = p_cleaned p /\
    p_deleted (cancel x p) = p_deleted p /\
    forall y u, p_threads p !! y = Some u -> u_state (F y u) = u_state u \/
      y = x /\ (u_state (F y u) = ULost -> ended u = true).
Proof.
  intros Hw Hx. unfold cancel. rewrite Hx. destruct (waiting ux) eqn:Hwt.
  - set (p' := upd x _ _).
    assert (changed (fun y u => let u1 := off_list x u in
      if decide (y = x) then set_cancelled (set_state UTerm u1) else u1) (p_threads p) (p_threads p')) as Hc.
    { unfold p'. threads. eapply changed_ext; [eapply changed_trans; [|apply changed_alter]|].
      - instantiate (1 := fun _ => off_list x). intros y. by rewrite list_lookup_fmap.
      - intros y w Hy. cbn. destruct (decide (y = x)) as [->|]; [|done]. assert (w = ux) as -> by congruence.
        unfold waiting in Hwt. cbn. by destruct (u_state ux). }
    eexists. split; [exact Hc|]. split; [|split; [by eapply waits_cancel|]].
    + split; intros y w Hy; cbn; destruct (decide (y = x)) as [->|]; try done;
        assert (w = ux) as -> by congruence; unfold waiting, in_store, exists_u, calm in *; cbn;
        by destruct (u_state ux).
    + cbn. destruct (decide (x = x)); [|done]. repeat (split; [done|]). intros y w Hy.
      destruct (decide (y = x)) as [->|]; [by right|by left].
  - set (p' := upd x _ p).
    assert (changed (fun y u => if decide (y = x) then set_cancelled (set_state (match u_state u with
        | UPosting | UJoining _ => UTerm | UTerm => ULost | st => st end) u) else u) (p_threads p) (p_threads p')) as Hc
      by apply changed_alter.
    eexists. split; [exact Hc|]. split; [|split].
    + split; intros y w Hy; cbn; destruct (decide (y = x)) as [->|]; try done;
        assert (w = ux) as -> by congruence; unfold waiting, in_store, exists_u, calm in *; cbn;
        destruct (u_state ux); naive_solver.
    + eapply waits_quiet; [done|exact Hc|]. intros y w Hy. cbn.
      destruct (decide (y = x)) as [->|]; [|naive_solver]. assert (w = ux) as -> by congruence.
      unfold waiting in *. cbn. destruct (u_state ux); naive_solver.
    + split; [|repeat (split; [done|])].
      * cbn. destruct (decide (x = x)); [|done]. unfold calm, waiting in *. cbn. by destruct (u_state ux).
      * intros y w Hy. cbn. destruct (decide (y = x)) as [->|]; [right|by left]. unfold ended. by destruct (u_state w).
Qed.

Lemma gentle_store p p' fs F : store_ok p fs -> changed F (p_threads p) (p_threads p') -> gentle F (p_threads p) ->
  p_store p' = p_store p -> p_active p' = p_active p -> p_existing p' = p_existing p -> store_ok p' fs.
Proof.
  intros Hs Hc Hg E1 E2 E3. eapply (store_changed p _ p' F Hs Hc E1).
  - intros y u Hy. by destruct (ge_idx _ _ Hg y u Hy) as (? & ? & _).
  - rewrite E3, (ps_existing _ _ Hs). symmetry. eapply lsum_changed; [exact Hc|].
    intros y u Hy. by destruct (ge_idx _ _ Hg y u Hy) as (_ & _ & ? & _).
  - rewrite E2, (ps_active _ _ Hs). symmetry. eapply lsum_changed; [exact Hc|].
    intros y u Hy. destruct (ge_idx _ _ Hg y u Hy) as (_ & _ & _ & E). unfold active_u. by rewrite E.
Qed.

(** what the loop of exit has done when it has passed the indices [idxs] *)
Record swept (t : nat) (fs idxs : list Z) (p p' : process) (F : nat -> uthread -> uthread) : Prop := {
  sw_changed : changed F (p_threads p) (p_threads p');
  sw_gentle : gentle F (p_threads p);
  sw_ok : store_ok p' fs /\ waits_ok (p_threads p');
  sw_same : p_store p' = p_store p /\ p_cleaned p' = p_cleaned p /\ p_deleted p' = p_deleted p;
  sw_calm i y u : i ∈ idxs -> value (p_store p) i = Some y -> y <> t -> p_threads p !! y = Some u -> calm (F y u);
  sw_lost y u : p_threads p !! y = Some u -> u_state (F y u) = ULost ->
    u_state u = ULost \/ ended u = true /\ u_idx u ∈ idxs
}.

Lemma swept_skip t fs i idxs p p' F : swept t fs idxs p p' F ->
  (forall y, value (p_store p) i = Some y -> y = t) -> swept t fs (i :: idxs) p p' F.
Proof.
  intros [] Hi. split; try done.
  - intros k y u [->|Hk]%elem_of_cons Hy Hyt; [by destruct Hyt; apply Hi|by eauto].
  - intros y u Hy Hl. destruct (sw_lost0 y u Hy Hl) as [|[]]; [by left|right]. split; [done|]. apply elem_of_cons. by right.
Qed.

Lemma cancel_loop_spec fs t idxs : forall p u0, store_ok p fs -> waits_ok (p_threads p) ->
  p_threads p !! t = Some u0 -> u_state u0 = URun -> (forall i, i ∈ idxs -> 0 <= i) -> NoDup idxs ->
  exists p' F, cancel_loop t idxs p = Ok p' /\ swept t fs idxs p p' F.
Proof.
  induction idxs as [|i idxs IH]; intros p u0 Hs Hw Ht Hrun Hpos Hnd.
  - exists p, (fun _ u => u). split; [done|]. split; [apply changed_refl|by split|done|done| |by left].
    by intros i y u Hi%elem_of_nil.
  - apply NoDup_cons in Hnd as [Hni Hnd].
    assert (forall i, i ∈ idxs -> 0 <= i) as Hpos' by (intros k Hk; apply Hpos, elem_of_cons; by right).
    pose proof (Hpos i (proj2 (elem_of_cons _ _ _) (or_introl eq_refl))) as Hi0.
    pose proof (ps_arr _ _ Hs) as Hm. cbn [cancel_loop]. destruct (IH p u0 Hs Hw Ht Hrun Hpos' Hnd) as (p0 & F0 & H0 & Hsw0).
    destruct (value (p_store p) i) as [x|] eqn:Hv.
    + rewrite (valid_value _ _ Hm _ _ Hv). cbn [mbind res_bind]. rewrite (get_value _ _ Hm _ _ Hv). cbn [mbind res_bind].
      destruct (Nat.eqb_spec x t) as [->|Hne].
      { exists p0, F0. split; [done|]. apply swept_skip; [done|]. intros y Hy. congruence. }
      destruct (ps_value _ _ Hs i x Hv) as (ux & Hux & Hin & Hix).
      destruct (cancel_spec p x ux Hw Hux) as (G & Hc & Hg & Hw1 & Hcx & E1 & E2 & E3 & E4 & E5 & Hst).
      pose proof (changed_fwd _ _ _ _ _ Hc Ht) as Ht1.
      destruct (IH (cancel x p) _ (gentle_store _ _ _ _ Hs Hc Hg E1 E2 E3) Hw1 Ht1) as (p' & F & H1 & Hsw);
        [by apply (ge_run _ _ Hg t u0 Ht)|done..|].
      exists p', (fun y u => F y (G y u)). split; [done|]. destruct Hsw as [Hc' Hg' Hok Hsame Hcalm Hlost].
      split; [by eapply changed_trans|by eapply gentle_trans|done|by rewrite <- E1, <- E4, <- E5| |].
      * intros k y u [->|Hk]%elem_of_cons Hy Hyt Hu; pose proof (changed_fwd _ _ _ _ _ Hc Hu) as Hu1;
          [|by apply (Hcalm k y _ Hk); [rewrite E1| |]].
        assert (y = x) as -> by congruence. assert (u = ux) as -> by congruence. by apply (ge_calm _ _ Hg' _ _ Hu1).
      * intros y u Hu Hl. pose proof (changed_fwd _ _ _ _ _ Hc Hu) as Hu1. rewrite elem_of_cons.
        destruct (ge_idx _ _ Hg y u Hu) as (Ei & _). destruct (Hst y u Hu) as [Es|[-> Es]].
        -- destruct (Hlost y _ Hu1 Hl) as [|[He Hk]]; [left; congruence|right]. rewrite Ei in Hk.
           split; [|by right]. unfold ended in *. by rewrite Es in He.
        -- assert (u = ux) as -> by congruence. destruct (Hlost x _ Hu1 Hl) as [|[He Hk]]; [right; by auto|].
           rewrite Ei, Hix in Hk. done.
    + rewrite (valid_none _ _ Hm _ Hi0 Hv). exists p0, F0. split; [done|]. apply swept_skip; [done|]. congruence.
Qed.

(** all threads are calm, [t] ends *)
Lemma term_inv p fs t u : store_ok p fs -> waits_ok (p_threads p) -> p_threads p !! t = Some u ->
  u_state u = URun -> (forall y v, p_threads p !! y = Some v -> y <> t -> calm v) ->
  p_cleaned p = 0 -> p_deleted p = false -> p_inv (upd t (set_state UTerm) p) fs.
Proof.
  intros Hs Hw Ht Hrun Hcalm Hcl Hdel. pose proof (changed_alter (set_state UTerm) t (p_threads p)) as Hc.
  assert (forall y v, p_threads (upd t (set_state UTerm) p) !! y = Some v -> calm v) as Hcalm'.
  { intros y v Hy. destruct (changed_inv _ _ _ _ _ Hc Hy) as (w & Hw' & ->).
    destruct (decide (y = t)); [by split|by apply (Hcalm y)]. }
  assert (forall v, calm v -> quiet v) as Hcq.
  { intros v [H1 H2]. split; [done|]. intros x Hx. unfold waiting in H1. by rewrite Hx in H1. }
  assert (forall y w, p_threads p !! y = Some w -> in_store (if decide (y = t) then set_state UTerm w else w) = in_store w /\
    exists_u (if decide (y = t) then set_state UTerm w else w) = exists_u w) as Hsame.
  { intros y w Hy. destruct (decide (y = t)) as [->|]; [|done]. assert (w = u) as -> by congruence.
    unfold in_store, exists_u. by rewrite Hrun. }
  assert (lsum exists_u (p_threads (upd t (set_state UTerm) p)) = lsum exists_u (p_threads p)) as He.
  { eapply lsum_changed; [exact Hc|]. intros y w Hy. by destruct (Hsame y w Hy). }
  split; threads.
  - eapply (store_changed p); [done|exact Hc|done| | |].
    + intros y w Hy. destruct (Hsame y w Hy). split; [by destruct (decide (y = t))|done].
    + rewrite He. apply Hs.
    + threads. rewrite (ps_active _ _ Hs). symmetry. eapply lsum_changed; [exact Hc|].
      intros y w Hy. cbn beta. by destruct (decide (y = t)).
  - eapply waits_quiet; [done|exact Hc|]. intros y w Hy. cbn. destruct (decide (y = t)) as [->|]; [|naive_solver].
    assert (w = u) as -> by congruence. unfold waiting. cbn. rewrite Hrun. naive_solver.
  - intros j uj x ux Hj Hst. destruct (Hcq _ (Hcalm' j uj Hj)) as [_ H]. by destruct (H x).
  - intros x ux Hx Hxc y uy Hy. apply (Hcalm' y uy Hy).
  - intros x ux Hx Hst. right. intros y uy Hy. by apply Hcq, (Hcalm' y).
  - rewrite Hdel. pose proof (exists_running _ _ _ Ht Hrun) as H. change (alter (set_state UTerm) t (p_threads p))
      with (p_threads (upd t (set_state UTerm) p)). rewrite He. split; [done|lia].
  - assert (in_store u = true) as Hin by (unfold in_store; by rewrite Hrun).
    destruct (ma_empty (p_store p)) eqn:Hem; [|done]. exfalso.
    pose proof (proj1 (ma_empty_spec _ _ (ps_arr _ _ Hs) (ps_res _ _ Hs)) Hem (u_idx u)) as E.
    rewrite (ps_store _ _ Hs t u Ht Hin) in E. done.
Qed.

Lemma process_exit_inv p fs t u : p_inv p fs -> p_threads p !! t = Some u -> u_state u = URun ->
  u_cancelled u = false -> exists p', process_exit t p = Ok p' /\ p_inv p' fs /\
    (forall y v, p_threads p' !! y = Some v -> calm v) /\
    ((forall y v, p_threads p !! y = Some v -> ended v = false) ->
     forall y v, p_threads p' !! y = Some v -> u_state v <> ULost).
Proof.
  intros Hp Ht Hrun Hnc. pose proof (inv_fresh _ _ _ _ Hp Ht Hrun Hnc) as Hf. unfold process_exit, currentIndex.
  pose proof (ps_arr _ _ (pi_store _ _ Hp)) as Hm. pose proof (inv_index _ _ Hm) as Hidx.
  destruct (cancel_loop_spec fs t (seqZ 0 (index (p_store p))) p u (pi_store _ _ Hp) (pi_waits _ _ Hp) Ht Hrun)
    as (p' & F & H1 & [Hc Hg [Hs Hw] (E1 & E2 & E3) Hcalm Hlost]); [intros i Hi%elem_of_seqZ; lia|apply NoDup_seqZ|].
  rewrite H1. cbn [mbind res_bind mret res_ret]. pose proof (changed_fwd _ _ _ _ _ Hc Ht) as Ht'.
  assert (forall y v, p_threads p' !! y = Some v -> y <> t -> calm v) as Hcl.
  { intros y v Hy Hne. destruct (changed_inv _ _ _ _ _ Hc Hy) as (w & Hwy & ->).
    destruct (in_store w) eqn:Hin.
    - pose proof (ps_store _ _ (pi_store _ _ Hp) y w Hwy Hin) as Hv. apply (Hcalm (u_idx w) y w); try done.
      pose proof (value_nonneg _ _ _ Hv). apply elem_of_seqZ. split; [done|].
      assert (lookupZ (checkbits (p_store p)) (u_idx w) = Some true) as Hb
        by (unfold value in Hv; by destruct (lookupZ _ (u_idx w)) as [[]|]).
      destruct (inv_valid _ _ Hm _ Hb). lia.
    - apply (ge_calm _ _ Hg y w Hwy). unfold calm, waiting, in_store in *. by destruct (u_state w). }
  eexists. split; [done|]. split; [|split].
  - apply (term_inv p' fs t (F t u)); try done; [by apply (ge_run _ _ Hg t u Ht)|rewrite E2; apply Hf|rewrite E3; apply Hf].
  - intros y v Hy. destruct (changed_inv _ _ _ _ _ (changed_alter _ _ _) Hy) as (w & Hwy & ->).
    destruct (decide (y = t)); [by split|by apply (Hcl y)].
  - intros Hne y v Hy. destruct (changed_inv _ _ _ _ _ (changed_alter _ _ _) Hy) as (w & Hwy & ->).
    destruct (decide (y = t)); [done|]. destruct (changed_inv _ _ _ _ _ Hc Hwy) as (w0 & Hw0 & ->). intros Hl.
    pose proof (Hne y w0 Hw0) as Hn. destruct (Hlost y w0 Hw0 Hl) as [H|[H _]]; [unfold ended in Hn; by rewrite H in Hn|congruence].
Qed.

Lemma inv_alive p fs t u : p_inv p fs -> p_threads p !! t = Some u -> in_store u = true ->
  p_cleaned p = 0 /\ p_deleted p = false.
Proof.
  intros Hp Ht Hin. split; [by rewrite (pi_cleaned _ _ Hp), (inv_nonempty _ _ _ _ Hp Ht Hin)|].
  destruct (p_deleted p) eqn:Hd; [|done]. pose proof (proj1 (pi_deleted _ _ Hp) Hd).
  pose proof (lsum_ge exists_u _ t u (fun u => proj1 (exists_u_bounds u)) Ht) as H1.
  unfold exists_u in H1 at 1. unfold in_store in Hin. destruct (u_state u); done || lia.
Qed.

Lemma running_in_store u : u_state u = URun -> in_store u = true.
Proof. unfold in_store. by intros ->. Qed.

Lemma switch_inv p fs t u : p_inv p fs -> p_threads p !! t = Some u -> u_state u = URun -> u_cancelled u = true ->
  p_inv (upd t (set_state UTerm) p) fs.
Proof.
  intros Hp Ht Hrun Hc. destruct (inv_alive p fs t u Hp Ht (running_in_store _ Hrun)).
  apply (term_inv p fs t u); try done; try apply Hp. intros y v Hy _. apply (pi_cancelled _ _ Hp t u Ht Hc y v Hy).
Qed.

(** *** the end of a thread *)
Section ending.
Context (p : process) (fs : list Z) (t : nat) (u : uthread) (Hp : p_inv p fs) (Ht : p_threads p !! t = Some u)
  (st : ustate) (Hst : waiting u = false /\ u_state u <> URun /\
    ((u_state u = UTerm /\ st = UGone) \/ (u_state u = UGone /\ st = UDead))).

Local Definition G (y : nat) (w : uthread) : uthread := if decide (y = t) then set_state st w else w.

Lemma end_waits ts' : changed G (p_threads p) ts' -> waits_ok ts'.
Proof using Hp Ht Hst.
  intros Hc. eapply waits_quiet; [apply Hp|exact Hc|]. intros y w Hy. unfold G.
  destruct (decide (y = t)) as [->|]; [|naive_solver]. assert (w = u) as -> by congruence.
  destruct Hst as (H1 & _ & H3). repeat (split; [done|]). right. split; [done|].
  destruct H3 as [[_ ->]|[_ ->]]; done.
Qed.

(** the threads that have ended are not looked at *)
Lemma end_rest ts' : changed G (p_threads p) ts' ->
  (forall j uj x ux, ts' !! j = Some uj -> u_state uj = UJoining x -> ts' !! x = Some ux ->
    u_state ux = URun \/ exists z, u_state ux = UJoining z) /\
  (forall x ux, ts' !! x = Some ux -> u_cancelled ux = true -> forall y uy, ts' !! y = Some uy -> calm uy) /\
  (forall x ux, ts' !! x = Some ux -> ended ux = true ->
    u_jState ux = Joining \/ forall y uy, ts' !! y = Some uy -> quiet uy).
Proof using Hp Ht Hst.
  intros Hc.
  assert (forall y w, ts' !! y = Some w -> exists w0, p_threads p !! y = Some w0 /\ u_cancelled w = u_cancelled w0 /\
    u_jState w = u_jState w0 /\ ((y <> t /\ w = w0) \/ (y = t /\ (u_state w = UGone \/ u_state w = UDead)))) as Hb.
  { intros y w Hy. destruct (changed_inv _ _ _ _ _ Hc Hy) as (w0 & Hw0 & ->). exists w0. split; [done|].
    unfold G. destruct (decide (y = t)) as [->|]; [|by auto]. split; [done|]. split; [done|]. right. cbn. naive_solver. }
  split; [|split].
  - intros j uj x ux Hj Hsj Hx. destruct (Hb j uj Hj) as (vj & Hvj & _ & _ & [[_ ->]|[_ [H|H]]]); try congruence.
    destruct (Hb x ux Hx) as (vx & Hvx & _ & _ & [[_ ->]|[-> _]]); [exact (pi_target _ _ Hp j vj x vx Hvj Hsj Hvx)|].
    assert (vx = u) as -> by congruence. destruct Hst as (H1 & H2 & _). unfold waiting in H1.
    destruct (pi_target _ _ Hp j vj t u Hvj Hsj Hvx) as [|[z Hz]]; [done|]. by rewrite Hz in H1.
  - intros x ux Hx Hxc y uy Hy. destruct (Hb x ux Hx) as (vx & Hvx & Ec & _). rewrite Ec in Hxc.
    destruct (Hb y uy Hy) as (vy & Hvy & _ & _ & [[_ ->]|[_ H]]); [apply (pi_cancelled _ _ Hp x vx Hvx Hxc y vy Hvy)|].
    unfold calm, waiting. destruct H as [-> | ->]; done.
  - intros x ux Hx He. destruct (Hb x ux Hx) as (vx & Hvx & _ & _ & [[_ ->]|[_ H]]).
    + destruct (pi_term _ _ Hp x vx Hvx He) as [|Hq]; [by left|right]. intros y uy Hy.
      destruct (Hb y uy Hy) as (vy & Hvy & _ & _ & [[_ ->]|[_ H]]); [by apply (Hq y vy)|].
      unfold quiet. destruct H as [-> | ->]; split; done || (intros; done).
    + unfold ended in He. destruct H as [H|H]; by rewrite H in He.
Qed.
End ending.

Lemma preThreadSwitch_inv p fs t u : p_inv p fs -> p_threads p !! t = Some u -> u_state u = UTerm ->
  exists p' fs', preThreadSwitch t u p = Ok p' /\ p_inv p' fs'.
Proof.
  intros Hp Ht Hst. pose proof (pi_store _ _ Hp) as Hs. assert (in_store u = true) as Hin by (unfold in_store; by rewrite Hst).
  pose proof (ps_store _ _ Hs t u Ht Hin) as Hv. destruct (inv_alive p fs t u Hp Ht Hin) as [Hcl Hdel].
  destruct (ma_remove_spec _ _ _ _ (ps_arr _ _ Hs) Hv) as (m & Hrm & Hm & Hval & Hres).
  unfold preThreadSwitch. rewrite (valid_value _ _ (ps_arr _ _ Hs) _ _ Hv). cbn [mbind res_bind kassert]. rewrite Hrm.
  cbn [mbind res_bind mret res_ret]. eexists _, (u_idx u :: fs). split; [reflexivity|].
  set (p' := upd t _ _). assert (changed (G t UGone) (p_threads p) (p_threads p')) as Hc by apply changed_alter.
  assert (waiting u = false /\ u_state u <> URun /\ ((u_state u = UTerm /\ UGone = UGone) \/ (u_state u = UGone /\ UGone = UDead)))
    as Hgoal by (unfold waiting; rewrite Hst; auto).
  destruct (end_rest p fs t u Hp Ht UGone Hgoal _ Hc) as (H1 & H2 & H3).
  assert (lsum exists_u (p_threads p') = lsum exists_u (p_threads p)) as He.
  { eapply lsum_changed; [exact Hc|]. intros y w Hy. unfold G. destruct (decide (y = t)) as [->|]; [|done].
    assert (w = u) as -> by congruence. unfold exists_u. by rewrite Hst. }
  split; [|by eapply end_waits|done|exact H2|done| |].
  - split; [exact Hm|intros i Hi%Hres; by apply (ps_res _ _ Hs i)|unfold lenZ; rewrite (changed_length _ _ _ Hc); apply Hs| | |
      rewrite He; apply Hs|].
    + intros y w Hy Hwin. change (p_store p') with m. rewrite Hval. destruct (changed_inv _ _ _ _ _ Hc Hy) as (w0 & Hw0 & ->).
      unfold G in *. destruct (decide (y = t)) as [->|Hne]; [done|]. pose proof (ps_store _ _ Hs y w0 Hw0 Hwin) as Hv0.
      destruct (decide (u_idx w0 = u_idx u)); [congruence|done].
    + intros i y. change (p_store p') with m. rewrite Hval. destruct (decide (i = u_idx u)) as [|Hne]; [done|].
      intros Hy. destruct (ps_value _ _ Hs i y Hy) as (w & Hw & Hwin & Hi). exists (G t UGone y w).
      split; [by apply (changed_fwd _ _ _ _ _ Hc)|]. unfold G. destruct (decide (y = t)) as [->|]; [congruence|done].
    + change (p_active p') with (p_active p). rewrite (ps_active _ _ Hs). symmetry. eapply lsum_changed; [exact Hc|].
      intros y w Hy. unfold G. by destruct (decide (y = t)).
  - change (p_deleted p') with (p_deleted p). rewrite He. apply Hp.
  - change (p_cleaned p') with (if ma_empty m then p_cleaned p + 1 else p_cleaned p). change (p_store p') with m. rewrite Hcl. by destruct (ma_empty m).
Qed.

Lemma postThreadDestroy_inv p fs t u : p_inv p fs -> p_threads p !! t = Some u -> u_state u = UGone ->
  p_inv (postThreadDestroy t p) fs.
Proof.
  intros Hp Ht Hst. pose proof (pi_store _ _ Hp) as Hs.
  set (p' := postThreadDestroy t p). assert (changed (G t UDead) (p_threads p) (p_threads p')) as Hc by apply changed_alter.
  assert (waiting u = false /\ u_state u <> URun /\ ((u_state u = UTerm /\ UDead = UGone) \/ (u_state u = UGone /\ UDead = UDead)))
    as Hgoal by (unfold waiting; rewrite Hst; auto).
  destruct (end_rest p fs t u Hp Ht UDead Hgoal _ Hc) as (H1 & H2 & H3).
  assert (lsum exists_u (p_threads p') = lsum exists_u (p_threads p) - 1) as He.
  { rewrite (lsum_changed_at exists_u _ _ _ t u Hc Ht).
    - unfold G. destruct (decide (t = t)); [|done]. unfold exists_u at 2 3. rewrite Hst. cbn. lia.
    - intros y w Hy Hne. unfold G. by destruct (decide (y = t)). }
  assert (p_existing p' = lsum exists_u (p_threads p')) as Hex.
  { change (p_existing p') with (p_existing p - 1)%w. rewrite He, (ps_existing _ _ Hs).
    pose proof (lsum_exists_bound (p_threads p)). pose proof (ps_small _ _ Hs).
    pose proof (lsum_ge exists_u _ t u (fun u => proj1 (exists_u_bounds u)) Ht) as H5.
    unfold exists_u in H5 at 1. rewrite Hst in H5. apply wrap_small. lia. }
  split; [|by eapply end_waits|done|exact H2|done| |apply Hp].
  - eapply (store_changed p _ p' _ Hs Hc); [done| |done|].
    + intros y w Hy. unfold G. destruct (decide (y = t)) as [->|]; [|done]. assert (w = u) as -> by congruence.
      unfold in_store. by rewrite Hst.
    + change (p_active p') with (p_active p). rewrite (ps_active _ _ Hs). symmetry. eapply lsum_changed; [exact Hc|].
      intros y w Hy. unfold G. by destruct (decide (y = t)).
  - rewrite <- Hex. change (p_deleted p') with (if p_existing p' =? 0 then true else p_deleted p).
    destruct (Z.eqb_spec (p_existing p') 0); [done|].
    assert (p_deleted p = false) as ->; [|by split].
    destruct (p_deleted p) eqn:Hd; [|done]. pose proof (proj1 (pi_deleted _ _ Hp) Hd).
    pose proof (lsum_nonneg exists_u (p_threads p') (fun u => proj1 (exists_u_bounds u))). lia.
Qed.

(** *** every operation *)
Lemma running_Some t p u : running t p = Some u -> p_threads p !! t = Some u /\ u_state u = URun.
Proof. unfold running. destruct (p_threads p !! t) as [w|]; [|done]. destruct (u_state w) eqn:H; [|done..]. by intros [= ->]. Qed.

Lemma exec_inv p fs op r : p_inv p fs -> by_cancelled op p = false -> exec op p = Some r ->
  exists p' fs', r = Ok p' /\ p_inv p' fs'.
Proof.
  intros Hp Hb He. destruct op as [t|t v|t idx|t|t|t|t]; cbn in He, Hb.
  1-5: destruct (running t p) as [u|] eqn:Hr; [|done]; destruct (running_Some _ _ _ Hr) as [Ht Hrun];
    rewrite ?Ht in Hb.
  - destruct (room p) eqn:Hroom; [|done]. injection He as <-. by eapply createThread_inv.
  - injection He as <-. destruct (exitThread_inv p fs t u v Hp Ht Hrun Hb) as (p' & H & Hi). by exists p', fs.
  - injection He as <-. destruct (joinThread_cases p fs t u (wrap 64 idx) Hp Ht Hrun Hb) as (p1 & r1 & H & Hi & _);
      [by apply wrap_bounds|]. eexists _, fs. split; [exact H|by apply ret_inv].
  - injection He as <-. destruct (process_exit_inv p fs t u Hp Ht Hrun Hb) as (p' & H & Hi & _). by exists p', fs.
  - destruct (u_cancelled u) eqn:Hc; [|done]. injection He as <-. eexists _, fs. split; [done|by eapply switch_inv].
  - destruct (p_threads p !! t) as [u|] eqn:Ht; [|done]. destruct (u_state u) eqn:Hs; try done.
    injection He as <-. by eapply preThreadSwitch_inv.
  - destruct (p_threads p !! t) as [u|] eqn:Ht; [|done]. destruct (u_state u) eqn:Hs; try done.
    injection He as <-. eexists _, fs. split; [done|by eapply postThreadDestroy_inv].
Qed.

Lemma process_new_fresh : fresh_ok process_new [].
Proof.
  split; [|by split|done..]. split; [by apply ma_new_inv| |done| | |done|done].
  - intros i (H & _). cbn in H. lia.
  - done.
  - intros i t. unfold value, lookupZ. destruct (i <? 0); [done|]. by destruct (Z.to_nat i) as [|[]].
Qed.

Lemma process_exec_inv p0 : process_exec process_new = Ok p0 -> exists fs, p_inv p0 fs.
Proof.
  intros H. destruct (setup_inv process_new [] process_new_fresh eq_refl) as (i & p' & fs' & Hset & Hp & _).
  unfold process_exec in H. rewrite Hset in H. cbn in H. injection H as <-. by exists fs'.
Qed.

Lemma reach_inv p0 p : process_exec process_new = Ok p0 -> steps proc_step p0 p -> exists fs, p_inv p fs.
Proof.
  intros H0 Hs. apply (steps_invariant proc_step (fun p => exists fs, p_inv p fs)) in Hs; [done| |by apply process_exec_inv].
  intros p1 p2 [fs Hp] [op Hb He]. destruct (exec_inv _ _ _ _ Hp Hb He) as (p' & fs' & [= <-] & Hi). by exists fs'.
Qed.

Lemma exists_none ts : lsum exists_u ts = 0 <-> forall t u, ts !! t = Some u -> u_state u = UDead.
Proof.
  split.
  - intros H t u Ht. pose proof (lsum_ge exists_u ts t u (fun u => proj1 (exists_u_bounds u)) Ht).
    unfold exists_u in H0 at 1. destruct (u_state u); done || lia.
  - intros H. apply lsum_zero. intros i u Hu. unfold exists_u. by rewrite (H i u Hu).
Qed.

(** *** after exit *)
Definition steps_left (u : uthread) : Z :=
  match u_state u with URun => 3 | UTerm => 2 | UGone => 1 | _ => 0 end.
Definition pending (p : process) : Z := lsum steps_left (p_threads p).

Record ending (p : process) (fs : list Z) : Prop := {
  en_inv : p_inv p fs;
  en_calm y v : p_threads p !! y = Some v -> calm v;
  en_lost y v : p_threads p !! y = Some v -> u_state v <> ULost
}.

Lemma pending_upd f t u p : p_threads p !! t = Some u ->
  lsum steps_left (p_threads (upd t f p)) = pending p - steps_left u + steps_left (f u).
Proof. intros Ht. threads. by apply lsum_alter. Qed.

(** an ending process makes one of three kinds of steps, and comes closer to its end *)
Lemma ending_step p fs op p' : ending p fs -> by_cancelled op p = false -> exec op p = Some (Ok p') ->
  (exists fs', ending p' fs') /\ pending p' = pending p - 1.
Proof.
  intros He Hb Hx. destruct (exec_inv _ _ _ _ (en_inv _ _ He) Hb Hx) as (p1 & fs' & [= <-] & Hi).
  assert (forall t u st, p_threads p !! t = Some u -> (st = UTerm \/ st = UGone \/ st = UDead) ->
    p_threads p' = p_threads (upd t (set_state st) p) -> steps_left (set_state st u) = steps_left u - 1 ->
    (exists fs', ending p' fs') /\ pending p' = pending p - 1) as Hgo.
  { intros t u st Ht Hst Hts Hl. split.
    - exists fs'. split; [done| |]; intros y v Hy; rewrite Hts in Hy;
        destruct (changed_inv _ _ _ _ _ (changed_alter _ _ _) Hy) as (w & Hw & ->);
        destruct (decide (y = t)) as [->|]; try by eapply en_calm || (by eapply en_lost).
      + unfold calm, waiting. cbn. by destruct Hst as [-> |[-> | ->]].
      + cbn. by destruct Hst as [-> |[-> | ->]].
    - unfold pending at 1. rewrite Hts, (pending_upd _ _ _ _ Ht). lia. }
  destruct op as [t|t v|t idx|t|t|t|t]; cbn in Hx, Hb.
  1-5: destruct (running t p) as [u|] eqn:Hr; [|done]; destruct (running_Some _ _ _ Hr) as [Ht Hrun];
    rewrite ?Ht in Hb; pose proof (proj2 (en_calm _ _ He t u Ht) Hrun); try congruence.
  - destruct (u_cancelled u); [|done]. injection Hx as <-.
    apply (Hgo t u UTerm Ht); [by auto|done|]. unfold steps_left. by rewrite Hrun.
  - destruct (p_threads p !! t) as [u|] eqn:Ht; [|done]. destruct (u_state u) eqn:Hs; try done.
    injection Hx as Hx. unfold preThreadSwitch in Hx. res_inv.
    apply (Hgo t u UGone Ht); [by auto|done|]. unfold steps_left. by rewrite Hs.
  - destruct (p_threads p !! t) as [u|] eqn:Ht; [|done]. destruct (u_state u) eqn:Hs; try done.
    injection Hx as <-. apply (Hgo t u UDead Ht); [by auto|done|]. unfold steps_left. by rewrite Hs.
Qed.

Lemma ending_progress p fs : ending p fs -> p_deleted p = true \/
  exists op p', by_cancelled op p = false /\ exec op p = Some (Ok p').
Proof.
  intros He. pose proof (en_inv _ _ He) as Hp. destruct (p_deleted p) eqn:Hd; [by left|right].
  destruct (decide (Exists (fun u => exists_u u <> 0) (p_threads p))) as [Hex|Hn].
  - apply Exists_exists in Hex as (u & [t Ht]%list_elem_of_lookup & Hu).
    destruct (en_calm _ _ He t u Ht) as [Hw Hc]. pose proof (en_lost _ _ He t u Ht) as Hl.
    unfold exists_u in Hu. unfold waiting in Hw. destruct (u_state u) eqn:Hs; try done.
    + exists (OSwitch t). eexists. split; [done|]. cbn. unfold running. by rewrite Ht, Hs, (Hc eq_refl).
    + destruct (preThreadSwitch_inv p fs t u Hp Ht Hs) as (p' & _ & H & _). exists (OPreSwitch t), p'.
      split; [done|]. cbn. by rewrite Ht, Hs, H.
    + exists (ODestroy t). eexists. split; [done|]. cbn. by rewrite Ht, Hs.
  - enough (p_deleted p = true) by congruence. apply (pi_deleted _ _ Hp), exists_none. intros t u Ht.
    apply not_Exists_Forall in Hn; [|apply _]. pose proof (proj1 (Forall_lookup _ _) Hn t u Ht) as Hu. cbn in Hu.
    unfold exists_u in Hu. destruct (u_state u); done || lia.
Qed.

Lemma pending_le p : pending p <= 3 * lenZ (p_threads p).
Proof.
  unfold pending, lsum, lenZ. induction (p_threads p) as [|u ts IH]; cbn [foldr length]; [done|].
  assert (steps_left u <= 3) by (unfold steps_left; by destruct (u_state u)). lia.
Qed.

(** ** Runs *)
Fixpoint run (ops : list uop) (p : process) : option process :=
  match ops with
  | [] => Some p
  | op :: ops =>
      if by_cancelled op p then None
      else match exec op p with Some (Ok p) => run ops p | _ => None end
  end.

Lemma run_steps ops : forall p p', run ops p = Some p' -> steps proc_step p p'.
Proof.
  induction ops as [|op ops IH]; intros p p'; cbn; [intros [= ->]; constructor|].
  destruct (by_cancelled op p) eqn:Hb; [done|]. destruct (exec op p) as [[p1|]|] eqn:He; [|done..].
  intros H. eapply steps_step; [by econstructor|by apply IH].
Qed.

(** the process after [exec], and a run that ends with it *)
Definition started : process :=
  match process_exec process_new with Ok p => p | _ => process_new end.
Definition ran (ops : list uop) : process := default started (run ops started).
Definition thread (p : process) (t : nat) : uthread := default (uthread_new 0) (p_threads p !! t).
Definition two_joined : list uop := [OCreate 0; OCreate 0; OJoin 0 1; OExitThread 1 7; OExitThread 2 8].
Definition two_ended : list uop := two_joined ++ [OJoin 0 2; OExitThread 0 0;
  OPreSwitch 0; OPreSwitch 1; OPreSwitch 2; ODestroy 0; ODestroy 1; ODestroy 2].

(** what the last [exitThread] leaves behind: a thread that waits to be joined
    is not woken, and its process is never deleted *)
Lemma unjoined_thread_leaks : exists p,
  run [OCreate 0; OExitThread 1 7; OExitThread 0 0; OPreSwitch 0; ODestroy 0] started = Some p /\
  p_active p = 0 /\ p_deleted p = false /\ p_cleaned p = 0 /\ forall op, exec op p = None.
Proof.
  eexists. split; [vm_compute; reflexivity|]. repeat (split; [done|]).
  assert (forall t, match t with 0%nat | 1%nat => True | S (S t) => True end) by (by intros [|[]]).
  by intros [[|[|t]]|[|[|t]] v|[|[|t]] i|[|[|t]]|[|[|t]]|[|[|t]]|[|[|t]]].
Qed.

(** a cancelled thread that is still running can create a thread, which is not cancelled *)
Lemma cancelled_thread_creates : exists p p',
  run [OCreate 0; OExit 0] started = Some p /\ by_cancelled (OCreate 1) p = true /\
  exec (OCreate 1) p = Some (Ok p') /\
  exists u, p_threads p' !! 2%nat = Some u /\ u_state u = URun /\ u_cancelled u = false.
Proof. eexists _, _. split; [vm_compute; reflexivity|]. split; [done|]. split; [vm_compute; reflexivity|]. by eexists. Qed.

(** cancelling a thread that is about to be switched away for the last time
    takes its state from it: the process is never deleted *)
Lemma cancel_loses_thread : exists p,
  run [OCreate 0; OJoin 0 1; OExitThread 1 7; OExit 0; OPreSwitch 0; ODestroy 0] started = Some p /\
  p_deleted p = false /\ forall op, exec op p = None.
Proof.
  eexists. split; [vm_compute; reflexivity|]. split; [done|].
  by intros [[|[|t]]|[|[|t]] v|[|[|t]] i|[|[|t]]|[|[|t]]|[|[|t]]|[|[|t]]].
Qed.

(** ** The threads after a join *)
Lemma collect_lookup p t u x ux v : p_threads p !! t = Some u -> p_threads p !! x = Some ux ->
  u_state u = URun -> u_state ux = UPosting -> u_wait ux = [x] -> u_result ux = RPost v ->
  let p' := upd t (set_ret 0) (signal x (upd t (set_var (x, v)) (upd x (set_jState Joining) p))) in
  p_threads p' !! x = Some (set_state UTerm (set_wait [] (RPost v) (set_jState Joining ux))) /\
  p_threads p' !! t = Some (set_ret 0 (set_var (x, v) u)) /\
  forall y, y <> t -> y <> x -> p_threads p' !! y = p_threads p !! y.
Proof.
  intros Ht Hx Hrun Hps Hw Hres. assert (x <> t) as Hne by (intros ->; congruence). cbn zeta.
  unfold signal. rewrite !upd_lookup, Hx. cbn [fmap option_fmap option_map].
  destruct (decide (x = t)); [done|]. destruct (decide (x = x)); [|done]. destruct (decide (t = t)); [|done].
  change (u_wait (set_jState Joining ux)) with (u_wait ux). change (u_result (set_jState Joining ux)) with (u_result ux).
  rewrite Hw, Hres. repeat split.
  - rewrite !upd_lookup, Hx. destruct (decide (x = t)); [done|]. destruct (decide (x = x)); [|done]. cbn.
    by rewrite Hps.
  - rewrite !upd_lookup, Ht. destruct (decide (t = x)); [done|]. by destruct (decide (t = t)).
  - intros y H1 H2. rewrite !upd_lookup. destruct (decide (y = x)), (decide (y = t)); try done. by destruct (p_threads p !! y).
Qed.

Lemma park_lookup p t u x : p_threads p !! t = Some u -> u_cancelled u = false ->
  exists u', p_threads (upd t (set_ret 0) (cond_wait t x (UJoining x) (fun v => v)
    (upd x (set_wait [] (RJoin t)) (upd x (set_jState Joining) p)))) !! t = Some u' /\ u_state u' = UJoining x.
Proof.
  intros Ht Hnc. unfold cond_wait. rewrite !upd_lookup, Ht. cbn [fmap option_fmap option_map].
  match goal with |- context [u_cancelled ?w] => assert (u_cancelled w = false) as -> by
    (destruct (decide (t = x)); done) end.
  rewrite !upd_lookup, Ht. destruct (decide (t = x)), (decide (t = t)); try done; by eexists.
Qed.

(** * Properties *)


(** C28. A [joinThread] of a process, by any thread that is not cancelled: an
    index that is not the one of a thread of the process gives [-ESRCH] and
    one of a thread that was already joined [-EINVAL], with nothing else
    changed; a thread that waits in [post] hands over its exit value, is
    woken, and will not be joined again; for a thread that has not exited the
    caller waits. *)
Theorem process_join (p0 p : process) (t : nat) (u : uthread) (idx : Z) :
  process_exec process_new = Ok p0 -> steps proc_step p0 p -> running t p = Some u -> u_cancelled u = false ->
  0 <= idx < 2 ^ 64 -> exists p', exec (OJoin t idx) p = Some (Ok p') /\
  ((forall x ux, p_threads p !! x = Some ux -> in_store ux = true -> u_idx ux <> idx) ->
    p' = upd t (set_ret (- ESRCH)) p) /\
  (forall x ux, p_threads p !! x = Some ux -> in_store ux = true -> u_idx ux = idx ->
    (u_jState ux <> Regular -> p' = upd t (set_ret (- EINVAL_join)) p) /\
    (u_jState ux = Regular -> u_state ux = UPosting -> exists v, u_exit ux = Some v /\
      p_threads p' !! x = Some (set_state UTerm (set_wait [] (RPost v) (set_jState Joining ux))) /\
      p_threads p' !! t = Some (set_ret 0 (set_var (x, v) u)) /\
      forall y, y <> t -> y <> x -> p_threads p' !! y = p_threads p !! y) /\
    (u_jState ux = Regular -> u_state ux <> UPosting -> u_exit ux = None /\
      exists u', p_threads p' !! t = Some u' /\ u_state u' = UJoining x)).
Proof.
  intros H0 Hs Hr Hnc Hidx. destruct (reach_inv p0 p H0 Hs) as [fs Hp]. pose proof (pi_store _ _ Hp) as Hst.
  destruct (running_Some _ _ _ Hr) as [Ht Hrun].
  destruct (joinThread_cases p fs t u idx Hp Ht Hrun Hnc ltac:(lia)) as (p1 & r & H & _ & Hcase).
  eexists. split; [cbn; by rewrite Hr, wrap_small, H|]. split.
  - intros Hno. destruct (value (p_store p) idx) as [tgt|] eqn:Hv; [|by destruct Hcase as [-> ->]].
    destruct (ps_value _ _ Hst idx tgt Hv) as (ux & Hux & Hin & Hi). by destruct (Hno tgt ux Hux Hin).
  - intros x ux Hux Hin Hi. pose proof (ps_store _ _ Hst x ux Hux Hin) as Hv. rewrite Hi in Hv. rewrite Hv in Hcase.
    destruct Hcase as (ux' & Hux' & _ & Hcase). assert (ux' = ux) as -> by congruence. clear Hux'.
    destruct (u_jState ux) eqn:Hj.
    2,3: destruct Hcase as [-> ->]; split; [done|]; split; done.
    split; [done|]. destruct Hcase as [-> [(v & Hps & Hex & Hres & Hw & ->)|[Hlive ->]]].
    + split; [|done]. intros _ _. exists v. split; [done|]. by apply collect_lookup.
    + split; [intros _ E; rewrite E in Hlive; by destruct Hlive as [|[]]|]. intros _ _.
      split; [by apply (pw_exited _ (pi_waits _ _ Hp) x ux Hux)|]. by eapply park_lookup.
Qed.



Lemma process_join_witness : exists p',
  exec (OJoin 0 2) (ran two_joined) = Some (Ok p') /\
  exists u, p_threads p' !! 0%nat = Some u /\ u_var u = Some (2%nat, 8) /\ u_ret u = 0.
Proof.
  assert (steps proc_step started (ran two_joined)) as Hs by (apply (run_steps two_joined); vm_compute; reflexivity).
  destruct (process_join started (ran two_joined) 0 (thread (ran two_joined) 0) 2
    eq_refl Hs ltac:(vm_compute; reflexivity) ltac:(vm_compute; reflexivity) ltac:(lia)) as (p' & H & _ & Hj).
  exists p'. split; [exact H|].
  destruct (Hj 2%nat (thread (ran two_joined) 2)
    ltac:(vm_compute; reflexivity) ltac:(vm_compute; reflexivity) ltac:(vm_compute; reflexivity)) as (_ & Hp & _).
  destruct (Hp ltac:(vm_compute; reflexivity) ltac:(vm_compute; reflexivity)) as (v & Hv & _ & Ht & _). vm_compute in Hv. injection Hv as <-.
  eexists. split; [exact Ht|]. split; vm_compute; reflexivity.
Defined.

