(* ===== verification/Perf.v ===== *)
(** * The profiler: tools/hash.h, tools/ringbuf.cc, tools/perf.cc

    Timer interrupts put samples into one ring buffer per processor
    ([Queue]); the thread that runs [Perf::start] moves them into a hash table
    of counters ([HashMap]) until there are enough, and prints the ten
    addresses that were hit most.  The buffers and the table are statically
    sized; a cell of a buffer that was never written is [None], reading it
    gives the indeterminate value [junk]. *)
From Stdlib Require Import ZArith Lia Bool.
From stdpp Require Import base tactics option numbers list sorting.
From S2P Require Import Prelude.

(** ** HashMap: open addressing with linear probing *)
Definition TOP_SAMPLE : nat := 10.
Definition TABLE_SIZE : Z := 512.

Record HashEntry := mkEntry { key : Z; counter : Z }.
#[export] Instance HashEntry_eq_dec : EqDecision HashEntry.
Proof. solve_decision. Defined.

Definition HashMap : Type := list HashEntry.
Definition HashMap_new : HashMap := replicate (Z.to_nat TABLE_SIZE) (mkEntry 0 0).

Definition add_int (a b : Z) : Z := to_signed 32 (a + b).

Definition numberOfEntry (table : HashMap) : Z :=
  foldl (fun co e => if key e =? 0 then co else add_int co (counter e)) 0 table.

(** the loop of [put]: the slot of [k], or a free one *)
Fixpoint probe (fuel : nat) (k : Z) (table : HashMap) (hash : Z) : res Z :=
  match fuel with
  | O => Err OutOfFuel
  | S fuel =>
      e ← in_bounds (lookupZ table hash);
      if negb (key e =? 0) && negb (key e =? k) then probe fuel k table ((hash + 1) mod TABLE_SIZE)
      else mret hash
  end.

(** one round per slot *)
Definition put (k : Z) (table : HashMap) : res HashMap :=
  hash ← probe (Z.to_nat TABLE_SIZE) k table (k mod TABLE_SIZE);
  e ← in_bounds (lookupZ table hash);
  let e := if key e =? 0 then mkEntry k (counter e) else e in
  mret (insertZ hash (mkEntry (key e) (add_int (counter e) 1)) table).

Fixpoint puts (ks : list Z) (table : HashMap) : res HashMap :=
  match ks with
  | [] => mret table
  | k :: ks => table ← put k table; puts ks table
  end.

(** [topTen]: two nested loops exchange the entries *)
Definition exchange (i j : nat) (t : list HashEntry) : list HashEntry :=
  match t !! i, t !! j with
  | Some a, Some b => if counter a <? counter b then <[i := b]> (<[j := a]> t) else t
  | _, _ => t
  end.
Definition exchange_row (n i : nat) (t : list HashEntry) : list HashEntry :=
  foldl (fun t j => exchange i j t) t (seq (S i) (n - S i)).
Definition sort_samples (t : list HashEntry) : list HashEntry :=
  foldl (fun t i => exchange_row (length t) i t) t (seq 0 (length t)).
Definition topTen (table : HashMap) : list HashEntry := take TOP_SAMPLE (sort_samples table).

(** ** Queue *)
Definition QUEUE_SIZE : Z := 128.

Record Queue := mkQ { q_head : Z; q_tail : Z; q_count : Z; ringArray : list (option Z) }.

Definition Queue_new : Queue := mkQ (-1) (-1) 0 (replicate (Z.to_nat QUEUE_SIZE) None).
Definition qsize (q : Queue) : Z := q_count q.

Definition store (i item : Z) (q : Queue) : res (list (option Z)) :=
  _ ← in_bounds (lookupZ (ringArray q) i); mret (insertZ i (Some item) (ringArray q)).

Definition push (item : Z) (q : Queue) : res Queue :=
  if (q_head q =? -1) && (q_tail q =? -1) then
    a ← store 0 item q; mret (mkQ 0 0 (q_count q + 1) a)
  else if q_tail q =? QUEUE_SIZE - 1 then
    let tail := (q_tail q + 1) mod QUEUE_SIZE in
    a ← store tail item q; mret (mkQ (q_head q) tail 1 a)
  else
    let tail := (q_tail q + 1) mod QUEUE_SIZE in
    a ← store tail item q; mret (mkQ (q_head q) tail (q_count q + 1) a).

Definition data_read (q : Queue) : Queue := mkQ (q_head q) 0 0 (ringArray q).

Section Perf.
Context (junk : Z).

Definition view (i : Z) (q : Queue) : res Z :=
  c ← in_bounds (lookupZ (ringArray q) i); mret (default junk c).

(** what a round of the loop of [Perf::start] reads from a queue *)
Definition view_all (q : Queue) : list (res Z) := (fun j => view j q) <$> seqZ 0 (qsize q).

(** ** Perf *)
Definition QLIMIT : Z := 100.
Definition TOTAL_SAMPLES : Z := 10000.

(** where the thread in [Perf::start] is: asleep, about to test whether there
    is another sample [j] in queue [i], or stopped *)
Inductive phase := Sleeping | Reading (i : nat) (j : Z) | Stopped.

Record Perf := mkPerf {
  data_ready_flag : bool;
  hash_perf : HashMap;
  per_core_perf : list Queue;
  main : phase;
  taken : list Z          (* the addresses of all samples, for the specification *)
}.

Definition perf_new (cores : nat) : Perf := mkPerf false HashMap_new (replicate cores Queue_new) Sleeping [].

(** the handler of the timer interrupt on [cpu] *)
Definition put_sample (cpu : nat) (address : Z) (p : Perf) : res Perf :=
  q ← in_bounds (per_core_perf p !! cpu);
  q ← push address q;
  mret (mkPerf (if QLIMIT <=? qsize q then true else data_ready_flag p) (hash_perf p)
    (<[cpu := q]> (per_core_perf p)) (main p) (address :: taken p)).

(** one step of the loop of [start] *)
Definition start_step (p : Perf) : res Perf :=
  match main p with
  | Sleeping =>
      if numberOfEntry (hash_perf p) <=? TOTAL_SAMPLES then
        mret (mkPerf (data_ready_flag p) (hash_perf p) (per_core_perf p)
          (if data_ready_flag p then Reading 0 0 else Sleeping) (taken p))
      else mret (mkPerf (data_ready_flag p) (hash_perf p) (per_core_perf p) Stopped (taken p))
  | Reading i j =>
      match per_core_perf p !! i with
      | None => mret (mkPerf false (hash_perf p) (per_core_perf p) Sleeping (taken p))
      | Some q =>
          if j <? qsize q then
            k ← view j q;
            t ← put k (hash_perf p);
            mret (mkPerf (data_ready_flag p) t (per_core_perf p) (Reading i (j + 1)) (taken p))
          else mret (mkPerf (data_ready_flag p) (hash_perf p) (<[i := data_read q]> (per_core_perf p))
            (Reading (S i) 0) (taken p))
      end
  | Stopped => mret p
  end.

Inductive perf_op := Sample (cpu : nat) (address : Z) | Main.
Definition perf_exec (op : perf_op) (p : Perf) : option (res Perf) :=
  match op with
  | Sample cpu address =>
      if bool_decide (cpu < length (per_core_perf p))%nat && (0 <=? address) && (address <? 2 ^ 64)
      then Some (put_sample cpu address p) else None
  | Main => Some (start_step p)
  end.
Inductive perf_step (p p' : Perf) : Prop :=
  | perf_step_op op : perf_exec op p = Some (Ok p') -> perf_step p p'.
End Perf.

(** ** The hash table *)
Definition slot (k d : Z) : Z := (k + d) mod TABLE_SIZE.

(** the slots of [k] before distance [d] belong to other keys *)
Definition full (t : HashMap) (k d : Z) : Prop :=
  forall d', 0 <= d' < d -> exists e, lookupZ t (slot k d') = Some e /\ key e <> 0 /\ key e <> k.

Fixpoint occ (k : Z) (ks : list Z) : Z :=
  match ks with [] => 0 | x :: ks => (if x =? k then 1 else 0) + occ k ks end.

Definition weight (e : HashEntry) : Z := if key e =? 0 then 0 else counter e.

(** [t] counts the keys [ks] *)
Record counts (t : HashMap) (ks : list Z) : Prop := {
  hm_len : lenZ t = TABLE_SIZE;
  hm_path i e : lookupZ t i = Some e -> key e <> 0 ->
    exists d, 0 <= d < TABLE_SIZE /\ i = slot (key e) d /\ full t (key e) d;
  hm_count i e : lookupZ t i = Some e -> key e <> 0 -> counter e = occ (key e) ks /\ key e ∈ ks;
  hm_zero i e : lookupZ t i = Some e -> key e = 0 -> counter e = 0;
  hm_nonzero : 0 ∉ ks;
  hm_mem k : k ∈ ks -> exists i e, lookupZ t i = Some e /\ key e = k;
  hm_sum : lsum weight t = lenZ ks
}.

Lemma slot_bounds k d : 0 <= slot k d < TABLE_SIZE.
Proof. apply Z.mod_pos_bound. done. Qed.

Lemma slot_succ k d : (slot k d + 1) mod TABLE_SIZE = slot k (d + 1).
Proof. unfold slot. rewrite Zplus_mod_idemp_l. f_equal. lia. Qed.

Lemma slot_onto k i : 0 <= i < TABLE_SIZE -> exists d, 0 <= d < TABLE_SIZE /\ slot k d = i.
Proof.
  intros Hi. exists ((i - k) mod TABLE_SIZE). split; [apply Z.mod_pos_bound; done|].
  unfold slot. rewrite Zplus_mod_idemp_r. replace (k + (i - k)) with i by lia. by apply Z.mod_small.
Qed.

Lemma probe_spec t k : lenZ t = TABLE_SIZE -> forall fuel d, 0 <= d -> full t k d ->
  match probe fuel k t (slot k d) with
  | Ok h => exists d2 e, d <= d2 < d + Z.of_nat fuel /\ h = slot k d2 /\ full t k d2 /\
      lookupZ t h = Some e /\ (key e = 0 \/ key e = k)
  | Err OutOfFuel => full t k (d + Z.of_nat fuel)
  | Err _ => False
  end.
Proof.
  intros Hl. induction fuel as [|fuel IH]; intros d Hd Hf; cbn [probe].
  - intros d' Hd'. apply Hf. lia.
  - destruct (lookupZ_is_Some t (slot k d)) as [e He]; [rewrite Hl; apply slot_bounds|].
    rewrite He. cbn [in_bounds mbind res_bind].
    destruct (Z.eqb_spec (key e) 0) as [E|E]; cbn [negb andb]; [exists d, e; repeat split; auto; lia|].
    destruct (Z.eqb_spec (key e) k) as [E'|E']; cbn [negb]; [exists d, e; repeat split; auto; lia|].
    rewrite slot_succ. assert (full t k (d + 1)) as Hf1.
    { intros d' Hd'. destruct (decide (d' = d)) as [->|]; [by exists e|apply Hf; lia]. }
    pose proof (IH (d + 1) ltac:(lia) Hf1) as H. destruct (probe fuel k t (slot k (d + 1))) as [h|[]]; try done.
    + destruct H as (d2 & e2 & ? & H). exists d2, e2. split; [lia|done].
    + intros d' Hd'. apply H. lia.
Qed.

Lemma occ_nonneg k ks : 0 <= occ k ks <= lenZ ks.
Proof. unfold lenZ. induction ks as [|x ks IH]; cbn [occ length]; [lia|]. destruct (x =? k); lia. Qed.

Lemma occ_not_elem k ks : k ∉ ks -> occ k ks = 0.
Proof.
  induction ks as [|x ks IH]; [done|]. intros [Hne Hn]%not_elem_of_cons. cbn.
  destruct (Z.eqb_spec x k); [by subst|]. by rewrite IH.
Qed.

Lemma counts_new : counts HashMap_new [].
Proof.
  assert (forall i e, lookupZ HashMap_new i = Some e -> e = mkEntry 0 0) as Hz.
  { intros i e. unfold lookupZ. destruct (i <? 0); [done|]. intros H.
    by apply lookup_replicate in H as [? _]. }
  split; try done; intros; try (by apply Hz in H; subst).
  - apply not_elem_of_nil.
  - by apply elem_of_nil in H.
Qed.

(** two slots of one key are the same *)
Lemma counts_unique t ks i j e e' : counts t ks -> lookupZ t i = Some e -> lookupZ t j = Some e' ->
  key e = key e' -> key e <> 0 -> i = j.
Proof.
  intros Hc Hi Hj He Hn. destruct (hm_path _ _ Hc i e Hi Hn) as (d & Hd & -> & Hf).
  destruct (hm_path _ _ Hc j e' Hj ltac:(congruence)) as (d' & Hd' & -> & Hf'). rewrite <- He in *.
  destruct (Z.lt_trichotomy d d') as [H|[->|H]]; [|done|].
  - destruct (Hf' d ltac:(lia)) as (e2 & H2 & _ & H3). congruence.
  - destruct (Hf d' ltac:(lia)) as (e2 & H2 & _ & H3). congruence.
Qed.

(** a key whose probe ends at a free slot is not in the table *)
Lemma counts_absent t ks k d e : counts t ks -> k <> 0 -> 0 <= d -> full t k d ->
  lookupZ t (slot k d) = Some e -> key e = 0 -> forall i e', lookupZ t i = Some e' -> key e' <> k.
Proof.
  intros Hc Hk Hd Hf He Hz i e' Hi Hk'. destruct (hm_path _ _ Hc i e' Hi ltac:(congruence)) as (d' & Hd' & -> & Hf').
  rewrite Hk' in *. destruct (Z.lt_trichotomy d d') as [H|[->|H]].
  - destruct (Hf' d ltac:(lia)) as (e2 & H2 & H3 & _). congruence.
  - congruence.
  - destruct (Hf d' ltac:(lia)) as (e2 & H2 & _ & H3). congruence.
Qed.

Lemma lsum_insertZ {A} (f : A -> Z) l i x y : lookupZ l i = Some x -> lsum f (insertZ i y l) = lsum f l - f x + f y.
Proof. unfold lookupZ, insertZ. destruct (i <? 0); [done|]. apply lsum_insert. Qed.

Lemma add_int_small a b : 0 <= a + b < 2 ^ 31 -> add_int a b = a + b.
Proof.
  intros H. unfold add_int, to_signed. rewrite wrap_small by lia.
  by rewrite (proj2 (Z.ltb_lt _ _)) by (change (2 ^ (32 - 1)) with (2 ^ 31); lia).
Qed.

(** what a table gets when the slot [h] of [k] is counted up *)
Lemma counts_update t ks k d e : counts t ks -> k <> 0 -> 0 <= d < TABLE_SIZE -> full t k d ->
  lookupZ t (slot k d) = Some e -> (key e = 0 \/ key e = k) -> lenZ ks < 2 ^ 31 - 1 ->
  counts (insertZ (slot k d) (mkEntry k (add_int (counter e) 1)) t) (k :: ks).
Proof.
  intros Hc Hk Hd Hf He Hcase Hlen. set (h := slot k d) in *.
  pose proof (hm_len _ _ Hc) as Hl. assert (0 <= h < lenZ t) as Hh by (rewrite Hl; apply slot_bounds).
  assert (counter e = occ k ks) as Hce.
  { destruct Hcase as [Hz|Hz]; [|destruct (hm_count _ _ Hc h e He ltac:(congruence)); congruence].
    rewrite (hm_zero _ _ Hc h e He Hz). symmetry. apply occ_not_elem. intros Hin.
    destruct (hm_mem _ _ Hc k Hin) as (i & e' & Hi & Hk'). by eapply (counts_absent t ks k d e Hc Hk ltac:(lia) Hf He Hz). }
  pose proof (occ_nonneg k ks). rewrite (add_int_small (counter e) 1) by (rewrite Hce; lia).
  assert (forall i, i <> h -> lookupZ (insertZ h (mkEntry k (counter e + 1)) t) i = lookupZ t i) as Hother
    by (intros i Hne; by apply lookupZ_insertZ_ne).
  assert (lookupZ (insertZ h (mkEntry k (counter e + 1)) t) h = Some (mkEntry k (counter e + 1))) as Hhere
    by (by apply lookupZ_insertZ_eq).
  assert (forall i e', lookupZ t i = Some e' -> i <> h -> key e' <> k) as Hnk.
  { intros i e' Hi Hne Hk'. destruct Hcase as [Hz|Hz]; [exact (counts_absent t ks k d e Hc Hk ltac:(lia) Hf He Hz i e' Hi Hk')|].
    apply Hne. eapply (counts_unique t ks i h e' e Hc Hi He); congruence. }
  assert (forall k' d', k' <> k -> full t k' d' -> full (insertZ h (mkEntry k (counter e + 1)) t) k' d') as Hfull.
  { intros k' d' Hne Hf' x Hx. destruct (decide (slot k' x = h)) as [E|E].
    - rewrite E, Hhere. eexists. split; [done|]. by split.
    - rewrite Hother by done. by apply Hf'. }
  split.
  - by rewrite lenZ_insertZ.
  - intros i e' Hi Hn. destruct (decide (i = h)) as [->|Hne].
    + rewrite Hhere in Hi. injection Hi as <-. cbn [key] in *. exists d. split; [done|]. split; [done|]. intros x Hx.
      destruct (Hf x Hx) as (e2 & H2 & H3 & H4). rewrite Hother; [by exists e2|]. intros E. rewrite E in H2.
      assert (e2 = e) as -> by congruence. by destruct Hcase.
    + rewrite Hother in Hi by done. destruct (hm_path _ _ Hc i e' Hi Hn) as (d' & Hd' & Hi' & Hf').
      exists d'. split; [done|]. split; [done|]. apply Hfull; [by apply (Hnk i)|done].
  - intros i e' Hi Hn. destruct (decide (i = h)) as [->|Hne].
    + rewrite Hhere in Hi. injection Hi as <-. cbn [key counter occ]. rewrite Z.eqb_refl. split; [lia|].
      apply elem_of_cons. by left.
    + rewrite Hother in Hi by done. destruct (hm_count _ _ Hc i e' Hi Hn) as [H1 H2]. cbn [occ].
      destruct (Z.eqb_spec k (key e')) as [E|]; [by destruct (Hnk i e' Hi Hne)|]. split; [lia|].
      apply elem_of_cons. by right.
  - intros i e' Hi Hz. destruct (decide (i = h)) as [->|Hne].
    + rewrite Hhere in Hi. by injection Hi as <-.
    + rewrite Hother in Hi by done. by apply (hm_zero _ _ Hc i).
  - rewrite not_elem_of_cons. split; [congruence|apply Hc].
  - intros x [->|Hx]%elem_of_cons; [by exists h, (mkEntry k (counter e + 1))|].
    destruct (decide (x = k)) as [->|Hxk]; [by exists h, (mkEntry k (counter e + 1))|].
    destruct (hm_mem _ _ Hc x Hx) as (i & e' & Hi & Hx'). exists i, e'. split; [|done]. rewrite Hother; [done|].
    intros ->. assert (e' = e) as -> by congruence. destruct Hcase as [Hz|Hz]; [|congruence].
    apply (hm_nonzero _ _ Hc). by rewrite <- Hz, Hx'.
  - rewrite (lsum_insertZ weight t h e _ He), (hm_sum _ _ Hc), lenZ_cons. unfold weight. cbn [key counter].
    destruct (Z.eqb_spec k 0); [done|]. destruct (Z.eqb_spec (key e) 0) as [Hz|]; [|lia].
    rewrite (hm_zero _ _ Hc h e He Hz). lia.
Qed.

Lemma put_counts t ks k : counts t ks -> k <> 0 -> lenZ ks < 2 ^ 31 - 1 ->
  match put k t with
  | Ok t' => counts t' (k :: ks)
  | Err OutOfFuel => full t k TABLE_SIZE
  | Err _ => False
  end.
Proof.
  intros Hc Hk Hlen. unfold put. replace (k mod TABLE_SIZE) with (slot k 0) by (unfold slot; by rewrite Z.add_0_r).
  assert (full t k 0) as Hf0 by (intros d Hd; lia).
  pose proof (probe_spec t k (hm_len _ _ Hc) (Z.to_nat TABLE_SIZE) 0 ltac:(lia) Hf0) as H.
  destruct (probe (Z.to_nat TABLE_SIZE) k t (slot k 0)) as [h|[]]; cbn [mbind res_bind]; try done.
  destruct H as (d & e & Hd & -> & Hf & He & Hcase). rewrite He. cbn [in_bounds mbind res_bind mret res_ret].
  assert (0 <= d < TABLE_SIZE) as Hd' by (unfold TABLE_SIZE in *; lia).
  pose proof (counts_update t ks k d e Hc Hk Hd' Hf He Hcase Hlen) as Hu.
  destruct (Z.eqb_spec (key e) 0) as [Hz|Hz]; [exact Hu|]. destruct Hcase as [|Hek]; [done|]. by rewrite Hek.
Qed.

Lemma occ_perm k ks ks' : Permutation ks ks' -> occ k ks = occ k ks'.
Proof. induction 1; cbn [occ]; lia. Qed.

Lemma counts_perm t ks ks' : Permutation ks ks' -> counts t ks -> counts t ks'.
Proof.
  intros Hp [H1 H2 H3 H4 H5 H6 H7]. split; try done.
  - intros i e Hi Hn. rewrite <- (occ_perm _ _ _ Hp), <- Hp. by eapply H3.
  - by rewrite <- Hp.
  - intros k. rewrite <- Hp. apply H6.
  - unfold lenZ in *. by rewrite <- (Permutation_length Hp).
Qed.

(** [puts] stops at the first key for which there is no slot *)
Lemma puts_counts ks : forall t ks0, counts t ks0 -> 0 ∉ ks -> lenZ ks0 + lenZ ks < 2 ^ 31 ->
  match puts ks t with
  | Ok t' => counts t' (ks ++ ks0)
  | Err f => f = OutOfFuel /\ exists ks1 k ks2 t1, ks = ks1 ++ k :: ks2 /\ puts ks1 t = Ok t1 /\
      counts t1 (ks1 ++ ks0) /\ full t1 k TABLE_SIZE
  end.
Proof.
  induction ks as [|k ks IH]; intros t ks0 Hc Hnz Hlen; [done|]. rewrite not_elem_of_cons, lenZ_cons in *.
  pose proof (lenZ_nonneg ks). cbn [puts]. pose proof (put_counts t ks0 k Hc ltac:(by destruct Hnz; congruence) ltac:(lia)) as Hput.
  destruct (put k t) as [t1|f] eqn:Hp; cbn [mbind res_bind].
  - pose proof (IH t1 (k :: ks0) Hput ltac:(apply Hnz) ltac:(rewrite lenZ_cons; lia)) as H2.
    destruct (puts ks t1) as [t'|f'].
    + eapply counts_perm; [|exact H2]. by rewrite <- Permutation_middle.
    + destruct H2 as (-> & ks1 & k' & ks2 & t2 & -> & H3 & H4 & H5). split; [done|].
      exists (k :: ks1), k', ks2, t2. cbn [app puts]. rewrite Hp. repeat (split; [done|]). split; [|done].
      eapply counts_perm; [|exact H4]. by rewrite <- Permutation_middle.
  - destruct f; try done. split; [done|]. by exists [], k, ks, t.
Qed.

(** the keys in the table *)
Definition nonzero (ks : list Z) : list Z := filter (fun k => k <> 0) ks.

Lemma nonzero_NoDup l : (forall i j x, l !! i = Some x -> l !! j = Some x -> x <> 0 -> i = j) -> NoDup (nonzero l).
Proof.
  unfold nonzero. induction l as [|x l IH]; intros Hu; [constructor|].
  assert (NoDup (filter (fun k => k <> 0) l)) as Hl.
  { apply IH. intros i j y Hi Hj Hy. pose proof (Hu (S i) (S j) y Hi Hj Hy). lia. }
  rewrite filter_cons. destruct (decide (x <> 0)) as [Hx|Hx]; [|done]. apply NoDup_cons. split; [|done].
  intros [_ [i Hi]%list_elem_of_lookup]%list_elem_of_filter. pose proof (Hu 0%nat (S i) x eq_refl Hi Hx). lia.
Qed.

Lemma counts_keys t ks : counts t ks -> Permutation (nonzero (key <$> t)) (remove_dups ks).
Proof.
  intros Hc. assert (forall i e, t !! i = Some e -> lookupZ t (Z.of_nat i) = Some e) as Hn by (intros; by rewrite lookupZ_nat).
  apply NoDup_Permutation; [|apply NoDup_remove_dups|].
  - apply nonzero_NoDup. intros i j x Hi Hj Hx. apply list_lookup_fmap_Some in Hi as (e & -> & Hi), Hj as (e' & He & Hj).
    pose proof (counts_unique t ks _ _ e e' Hc (Hn _ _ Hi) (Hn _ _ Hj) He Hx). lia.
  - intros x. unfold nonzero. rewrite list_elem_of_filter, elem_of_remove_dups, list_elem_of_fmap. split.
    + intros [Hx (e & -> & [i Hi]%list_elem_of_lookup)]. by apply (hm_count _ _ Hc _ e (Hn _ _ Hi)).
    + intros Hx. split; [intros ->; by apply (hm_nonzero _ _ Hc)|]. destruct (hm_mem _ _ Hc x Hx) as (i & e & Hi & <-).
      exists e. split; [done|]. unfold lookupZ in Hi. destruct (i <? 0); [done|]. by eapply list_elem_of_lookup_2.
Qed.

Lemma filter_length_all (l : list Z) : Forall (fun k => k <> 0) l -> length (nonzero l) = length l.
Proof.
  unfold nonzero. induction 1 as [|x l Hx Hl IH]; [done|]. rewrite filter_cons_True by done. cbn. by rewrite IH.
Qed.

Lemma counts_distinct t ks : counts t ks -> (length (remove_dups ks) <= Z.to_nat TABLE_SIZE)%nat.
Proof.
  intros Hc. rewrite <- (counts_keys t ks Hc). unfold nonzero. etrans; [apply length_filter|].
  rewrite length_fmap. pose proof (hm_len _ _ Hc). unfold lenZ in *. lia.
Qed.

(** when the probe of [k] finds no slot, the table is full with other keys *)
Lemma full_distinct t ks k : counts t ks -> full t k TABLE_SIZE ->
  length (remove_dups ks) = Z.to_nat TABLE_SIZE /\ k ∉ ks.
Proof.
  intros Hc Hf.
  assert (forall i e, lookupZ t i = Some e -> key e <> 0 /\ key e <> k) as Hall.
  { intros i e Hi. pose proof (lookupZ_Some _ _ _ Hi) as Hb. rewrite (hm_len _ _ Hc) in Hb.
    destruct (slot_onto k i Hb) as (d & Hd & <-). destruct (Hf d Hd) as (e' & He' & H). assert (e' = e) as -> by congruence. done. }
  split.
  - rewrite <- (counts_keys t ks Hc), filter_length_all, length_fmap.
    + pose proof (hm_len _ _ Hc). unfold lenZ in *. lia.
    + apply Forall_lookup. intros i x Hi. apply list_lookup_fmap_Some in Hi as (e & -> & Hi).
      apply (Hall (Z.of_nat i) e). by rewrite lookupZ_nat.
  - intros Hin. destruct (hm_mem _ _ Hc k Hin) as (i & e & Hi & He). by apply (Hall i e).
Qed.

Lemma full_forever t k : lenZ t = TABLE_SIZE -> full t k TABLE_SIZE -> forall fuel d, 0 <= d ->
  probe fuel k t (slot k d) = Err OutOfFuel.
Proof.
  intros Hl Hf fuel. induction fuel as [|fuel IH]; intros d Hd; [done|]. cbn [probe].
  destruct (slot_onto k (slot k d) (slot_bounds k d)) as (d' & Hd' & Es).
  destruct (Hf d' Hd') as (e & He & H1 & H2). rewrite Es in He. rewrite He. cbn [in_bounds mbind res_bind].
  rewrite (proj2 (Z.eqb_neq _ _) H1), (proj2 (Z.eqb_neq _ _) H2). cbn [negb andb]. rewrite slot_succ. apply IH. lia.
Qed.

Lemma numberOfEntry_sum t : (forall e, e ∈ t -> 0 <= counter e) -> lsum weight t < 2 ^ 31 ->
  numberOfEntry t = lsum weight t.
Proof.
  intros Hpos Hs. unfold numberOfEntry.
  enough (forall c, 0 <= c -> c + lsum weight t < 2 ^ 31 ->
    foldl (fun co e => if key e =? 0 then co else add_int co (counter e)) c t = c + lsum weight t) as H by (apply (H 0); lia).
  clear Hs. induction t as [|e t IH]; intros c Hc Hs; [cbn; lia|].
  assert (0 <= counter e) by (apply Hpos, elem_of_cons; by left).
  assert (0 <= lsum weight t) as Hn.
  { clear IH Hs. assert (forall e', e' ∈ t -> 0 <= counter e') as Hpos' by (intros; apply Hpos, elem_of_cons; by right).
    clear Hpos. induction t as [|x t IH]; [done|]. unfold lsum in *. cbn [foldr].
    assert (0 <= weight x) by (unfold weight; destruct (key x =? 0); [done|apply Hpos', elem_of_cons; by left]).
    pose proof (IH ltac:(intros; apply Hpos', elem_of_cons; by right)). lia. }
  change (lsum weight (e :: t)) with (weight e + lsum weight t) in *. cbn [foldl]. unfold weight in Hs at 1. unfold weight at 1.
  destruct (key e =? 0).
  - rewrite IH; [lia| |done|lia]. intros; apply Hpos, elem_of_cons; by right.
  - rewrite add_int_small by lia. rewrite IH; [lia| |lia|lia]. intros; apply Hpos, elem_of_cons; by right.
Qed.

(** ** The sort of topTen *)
Definition rows_sorted (i : nat) (t : list HashEntry) : Prop :=
  forall a b x y, (a < i)%nat -> (a < b)%nat -> t !! a = Some x -> t !! b = Some y -> counter y <= counter x.
Definition row_max (i j : nat) (t : list HashEntry) : Prop :=
  forall b x y, (i < b < j)%nat -> t !! i = Some x -> t !! b = Some y -> counter y <= counter x.

Lemma exchange_cases i j t : (i < j < length t)%nat -> exists a b, t !! i = Some a /\ t !! j = Some b /\
  exchange i j t = if counter a <? counter b then <[i := b]> (<[j := a]> t) else t.
Proof.
  intros H. destruct (lookup_lt_is_Some_2 t i ltac:(lia)) as [a Ha], (lookup_lt_is_Some_2 t j ltac:(lia)) as [b Hb].
  exists a, b. unfold exchange. by rewrite Ha, Hb.
Qed.

Lemma insert_perm {A} (l : list A) i x y : l !! i = Some x -> Permutation (x :: <[i := y]> l) (y :: l).
Proof.
  revert i. induction l as [|z l IH]; intros [|i] Hi; simplify_eq/=; [apply perm_swap|].
  etrans; [apply perm_swap|]. etrans; [apply perm_skip, (IH i Hi)|]. apply perm_swap.
Qed.

Lemma exchange_perm i j t : (i < j < length t)%nat -> Permutation (exchange i j t) t.
Proof.
  intros H. destruct (exchange_cases i j t H) as (a & b & Ha & Hb & ->). destruct (counter a <? counter b); [|done].
  apply (Permutation_cons_inv (a := a)). etrans; [apply insert_perm; by rewrite list_lookup_insert_ne by lia|].
  by apply insert_perm.
Qed.

Lemma exchange_length i j t : length (exchange i j t) = length t.
Proof.
  unfold exchange. destruct (t !! i), (t !! j); try done. destruct (_ <? _); [|done]. by rewrite !length_insert.
Qed.

Lemma exchange_sorted i j t : (i < j < length t)%nat -> rows_sorted i t -> row_max i j t ->
  rows_sorted i (exchange i j t) /\ row_max i (S j) (exchange i j t).
Proof.
  intros Hij Hs Hm. destruct (exchange_cases i j t Hij) as (ea & eb & Ha & Hb & ->).
  destruct (Z.ltb_spec (counter ea) (counter eb)) as [Hlt|Hge].
  - assert (forall c x, <[i := eb]> (<[j := ea]> t) !! c = Some x ->
      (c = i /\ x = eb) \/ (c = j /\ x = ea) \/ (c <> i /\ c <> j /\ t !! c = Some x)) as Hl.
    { intros c x [(-> & <- & _)|[H1 [(-> & <- & _)|[H2 H3]]%list_lookup_insert_Some]]%list_lookup_insert_Some; naive_solver. }
    split.
    + intros a b x y Hai Hab Hx Hy. destruct (Hl a x Hx) as [[? _]|[[? _]|(_ & _ & Hx')]]; [lia..|].
      destruct (Hl b y Hy) as [[-> ->]|[[-> ->]|(_ & _ & Hy')]].
      * apply (Hs a j x eb); done || lia.
      * apply (Hs a i x ea); done || lia.
      * by apply (Hs a b x y).
    + intros b x y Hb' Hx Hy. destruct (Hl i x Hx) as [[_ ->]|[[? _]|(? & _)]]; [|lia|done].
      destruct (Hl b y Hy) as [[? _]|[[-> ->]|(_ & Hbj & Hy')]]; [lia|lia|].
      pose proof (Hm b ea y ltac:(lia) Ha Hy'). lia.
  - split; [done|]. intros b x y Hb' Hx Hy. assert (x = ea) as -> by congruence.
    destruct (decide (b = j)) as [->|]; [assert (y = eb) as -> by congruence; lia|]. apply (Hm b ea y); [lia|done|done].
Qed.

Lemma foldl_seq_ind {A} (f : A -> nat -> A) (P : nat -> A -> Prop) n : forall a i, P i a ->
  (forall j x, (i <= j < i + n)%nat -> P j x -> P (S j) (f x j)) -> P (i + n)%nat (foldl f a (seq i n)).
Proof.
  induction n as [|n IH]; intros a i Hi Hs; [by rewrite Nat.add_0_r|]. cbn [seq foldl].
  replace (i + S n)%nat with (S i + n)%nat by lia. apply IH; [apply Hs; [lia|done]|]. intros j x Hj. apply Hs. lia.
Qed.

Lemma exchange_row_spec i t : (i < length t)%nat -> rows_sorted i t ->
  Permutation (exchange_row (length t) i t) t /\ rows_sorted (S i) (exchange_row (length t) i t).
Proof.
  intros Hi Hs. unfold exchange_row.
  pose proof (foldl_seq_ind (fun t j => exchange i j t)
    (fun j u => length u = length t /\ Permutation u t /\ rows_sorted i u /\ row_max i j u) (length t - S i) t (S i)) as H.
  destruct H as (Hl & Hp & Hs' & Hm).
  - repeat (split; [done|]). intros b x y Hb. lia.
  - intros j u Hj (Hl & Hp & Hs' & Hm). destruct (exchange_sorted i j u ltac:(lia) Hs' Hm) as [H1 H2].
    split; [by rewrite exchange_length|]. split; [by rewrite exchange_perm by lia|done].
  - split; [done|]. intros a b x y Hai Hab Hx Hy. destruct (decide (a = i)) as [->|]; [|by apply (Hs' a b x y ltac:(lia))].
    apply (Hm b x y); [|done|done]. pose proof (lookup_lt_Some _ _ _ Hy). lia.
Qed.

Lemma sort_samples_spec t : Permutation (sort_samples t) t /\ rows_sorted (length t) (sort_samples t).
Proof.
  unfold sort_samples. pose proof (foldl_seq_ind (fun u i => exchange_row (length u) i u)
    (fun i u => Permutation u t /\ rows_sorted i u) (length t) t 0) as H. apply H.
  - split; [done|]. intros a b x y Ha. lia.
  - intros i u Hi [Hp Hs]. rewrite <- (Permutation_length Hp) in Hi.
    destruct (exchange_row_spec i u ltac:(lia) Hs) as [H1 H2]. split; [by etrans|done].
Qed.

Lemma rows_sorted_StronglySorted t : rows_sorted (length t) t -> StronglySorted (fun x y => counter y <= counter x) t.
Proof.
  induction t as [|x t IH]; intros Hs; constructor.
  - apply IH. intros a b y z Ha Hab Hy Hz. apply (Hs (S a) (S b) y z); [cbn; lia|lia|done|done].
  - apply Forall_lookup. intros b y Hy. apply (Hs 0%nat (S b) x y); [cbn; lia|lia|done|done].
Qed.

(** ** Queues *)
Record queue_ok (taken : list Z) (q : Queue) : Prop := {
  qo_len : lenZ (ringArray q) = QUEUE_SIZE;
  qo_tail : -1 <= q_tail q < QUEUE_SIZE;
  qo_count : 0 <= q_count q <= q_tail q + 1;
  qo_cells i a : lookupZ (ringArray q) i = Some (Some a) -> a ∈ taken
}.

Lemma queue_new_ok taken : queue_ok taken Queue_new.
Proof.
  split; try done. intros i a. unfold lookupZ. destruct (i <? 0); [done|]. intros H. by apply lookup_replicate in H as [? _].
Qed.

Lemma queue_ok_mono taken a q : queue_ok taken q -> queue_ok (a :: taken) q.
Proof. intros []. split; try done. intros i b Hb. apply elem_of_cons. right. eauto. Qed.

Lemma data_read_ok taken q : queue_ok taken q -> queue_ok taken (data_read q).
Proof. intros []. split; try done. Qed.

Lemma push_ok taken q a : queue_ok taken q -> exists q', push a q = Ok q' /\ queue_ok (a :: taken) q'.
Proof.
  intros [Hl Ht Hc Hcells].
  assert (forall i, 0 <= i < QUEUE_SIZE -> store i a q = Ok (insertZ i (Some a) (ringArray q)) /\
    lenZ (insertZ i (Some a) (ringArray q)) = QUEUE_SIZE /\
    forall k b, lookupZ (insertZ i (Some a) (ringArray q)) k = Some (Some b) -> b ∈ a :: taken) as Hs.
  { intros i Hi. rewrite lenZ_insertZ. split; [|split; [done|]].
    - unfold store. destruct (lookupZ_is_Some (ringArray q) i) as [c ->]; [lia|done].
    - intros k b Hk. apply elem_of_cons. destruct (decide (k = i)) as [->|Hne].
      + rewrite lookupZ_insertZ_eq in Hk by lia. left. congruence.
      + rewrite lookupZ_insertZ_ne in Hk by done. right. by eapply Hcells. }
  unfold push. destruct ((q_head q =? -1) && (q_tail q =? -1)) eqn:E.
  - apply andb_true_iff in E as [_ E%Z.eqb_eq]. destruct (Hs 0 ltac:(done)) as (-> & H1 & H2).
    eexists. split; [reflexivity|]. split; cbn; [done|done|lia|done].
  - assert (0 <= (q_tail q + 1) mod QUEUE_SIZE < QUEUE_SIZE) as Hb by (by apply Z.mod_pos_bound).
    destruct (Hs _ Hb) as (-> & H1 & H2). destruct (Z.eqb_spec (q_tail q) (QUEUE_SIZE - 1)) as [E1|E1].
    + eexists. split; [reflexivity|]. split; cbn; [done|lia|lia|done].
    + eexists. split; [reflexivity|]. split; cbn; [done|lia| |done].
      rewrite Z.mod_small by (unfold QUEUE_SIZE in *; lia). lia.
Qed.

(** ** Perf *)
Lemma put_keys t k : lenZ t = TABLE_SIZE ->
  match put k t with
  | Ok t' => lenZ t' = TABLE_SIZE /\ forall e, e ∈ t' -> key e = k \/ exists e0, e0 ∈ t /\ key e0 = key e
  | Err f => f = OutOfFuel /\ forall e, e ∈ t -> key e <> 0
  end.
Proof.
  intros Hl. unfold put. replace (k mod TABLE_SIZE) with (slot k 0) by (unfold slot; by rewrite Z.add_0_r).
  pose proof (probe_spec t k Hl (Z.to_nat TABLE_SIZE) 0 ltac:(lia) ltac:(intros d Hd; lia)) as H.
  destruct (probe (Z.to_nat TABLE_SIZE) k t (slot k 0)) as [h|[]]; cbn [mbind res_bind]; try done.
  - destruct H as (d & e & Hd & -> & Hf & He & Hcase). rewrite He. cbn [in_bounds mbind res_bind mret res_ret].
    split; [by rewrite lenZ_insertZ|]. intros e' [i Hi]%list_elem_of_lookup. rewrite <- lookupZ_nat in Hi.
    destruct (decide (Z.of_nat i = slot k d)) as [E|Hne].
    + rewrite E, lookupZ_insertZ_eq in Hi by (rewrite Hl; apply slot_bounds). injection Hi as <-. cbn. left.
      destruct (Z.eqb_spec (key e) 0); [done|]. by destruct Hcase.
    + rewrite lookupZ_insertZ_ne in Hi by done. right. exists e'. split; [|done]. rewrite lookupZ_nat in Hi.
      by eapply list_elem_of_lookup_2.
  - split; [done|]. intros e [i Hi]%list_elem_of_lookup. rewrite <- lookupZ_nat in Hi.
    pose proof (lookupZ_Some _ _ _ Hi) as Hb. rewrite Hl in Hb. destruct (slot_onto k _ Hb) as (d & Hd & E).
    destruct (H d Hd) as (e' & He' & H1 & _). rewrite E in He'. congruence.
Qed.

Section invariant.
Context (junk : Z).

Record perf_inv (p : Perf) : Prop := {
  pf_queues q : q ∈ per_core_perf p -> queue_ok (taken p) q;
  pf_table : lenZ (hash_perf p) = TABLE_SIZE;
  pf_keys e : e ∈ hash_perf p -> key e = 0 \/ key e = junk \/ key e ∈ taken p;
  pf_main i j : main p = Reading i j -> 0 <= j
}.

Lemma perf_new_inv n : perf_inv (perf_new n).
Proof.
  split; try done.
  - intros q [i Hi]%list_elem_of_lookup. apply lookup_replicate in Hi as [-> _]. apply queue_new_ok.
  - intros e [i Hi]%list_elem_of_lookup. apply lookup_replicate in Hi as [-> _]. by left.
Qed.

Lemma put_sample_inv p cpu a : perf_inv p -> (cpu < length (per_core_perf p))%nat ->
  exists p', put_sample cpu a p = Ok p' /\ perf_inv p'.
Proof.
  intros Hp Hcpu. destruct (lookup_lt_is_Some_2 _ _ Hcpu) as [q Hq]. unfold put_sample. rewrite Hq.
  cbn [in_bounds mbind res_bind].
  destruct (push_ok (taken p) q a) as (q' & -> & Hq'); [apply Hp; by eapply list_elem_of_lookup_2|].
  eexists. split; [reflexivity|]. split; cbn; try apply Hp.
  - intros q2 [i Hi]%list_elem_of_lookup. apply list_lookup_insert_Some in Hi as [(_ & <- & _)|[_ Hi]]; [done|].
    apply queue_ok_mono, Hp. by eapply list_elem_of_lookup_2.
  - intros e He. destruct (pf_keys _ Hp e He) as [|[|]]; [by left|by right; left|right; right]. apply elem_of_cons. by right.
Qed.

Lemma view_ok p q j : perf_inv p -> q ∈ per_core_perf p -> 0 <= j < qsize q ->
  exists k, view junk j q = Ok k /\ (k = junk \/ k ∈ taken p).
Proof.
  intros Hp Hq Hj. destruct (pf_queues _ Hp q Hq) as [Hl Ht Hc Hcells]. unfold qsize in Hj.
  destruct (lookupZ_is_Some (ringArray q) j) as [c Hcj]; [lia|]. unfold view. rewrite Hcj.
  exists (default junk c). split; [done|]. destruct c as [a|]; [right; by eapply Hcells|by left].
Qed.

Lemma start_step_inv p : perf_inv p ->
  match start_step junk p with
  | Ok p' => perf_inv p'
  | Err f => f = OutOfFuel /\ forall e, e ∈ hash_perf p -> key e <> 0
  end.
Proof.
  intros Hp. unfold start_step. destruct (main p) as [|i j|] eqn:Hm; [| |done].
  - destruct (numberOfEntry _ <=? _); (split; cbn; try apply Hp); [|done]. intros i j. destruct (data_ready_flag p); [|done].
    by intros [= _ <-].
  - destruct (per_core_perf p !! i) as [q|] eqn:Hq; [|split; cbn; try apply Hp; done].
    assert (q ∈ per_core_perf p) as Hin by (by eapply list_elem_of_lookup_2). destruct (Z.ltb_spec j (qsize q)).
    + destruct (view_ok p q j Hp Hin) as (k & -> & Hk); [pose proof (pf_main _ Hp i j Hm); lia|]. cbn [mbind res_bind].
      pose proof (put_keys (hash_perf p) k (pf_table _ Hp)) as H2. destruct (put k (hash_perf p)) as [t|f]; [|done].
      destruct H2 as [Hl Hkeys]. split; cbn; try apply Hp; [done| |].
      * intros e He. destruct (Hkeys e He) as [->|(e0 & He0 & <-)]; [naive_solver|by apply Hp].
      * intros i' j' [= <- <-]. pose proof (pf_main _ Hp i j Hm). lia.
    + split; cbn; try apply Hp; [|by intros i' j' [= _ <-]].
      intros q2 [x Hx]%list_elem_of_lookup. apply list_lookup_insert_Some in Hx as [(_ & <- & _)|[_ Hx]].
      * by apply data_read_ok, Hp.
      * apply Hp. by eapply list_elem_of_lookup_2.
Qed.

Lemma perf_reach_inv n p : steps (perf_step junk) (perf_new n) p -> perf_inv p.
Proof.
  intros Hs. apply (steps_invariant (perf_step junk) perf_inv) in Hs; [done| |apply perf_new_inv].
  intros p1 p2 Hp [[cpu a|] He]; cbn in He.
  - destruct (bool_decide _) eqn:Hb; [|done]. apply bool_decide_eq_true in Hb. cbn in He.
    destruct (_ && _); [|done]. injection He as He. destruct (put_sample_inv p1 cpu a Hp Hb) as (p' & H & Hi). congruence.
  - injection He as He. pose proof (start_step_inv p1 Hp) as H. by rewrite He in H.
Qed.
End invariant.

(** ** What a round reads *)
Fixpoint pushes (items : list Z) (q : Queue) : res Queue :=
  match items with
  | [] => mret q
  | a :: items => q ← push a q; pushes items q
  end.

Lemma pushes_spec items : forall q t, q_tail q = t -> 0 <= t -> t + lenZ items < QUEUE_SIZE ->
  lenZ (ringArray q) = QUEUE_SIZE -> exists q', pushes items q = Ok q' /\
    q_count q' = q_count q + lenZ items /\ lenZ (ringArray q') = QUEUE_SIZE /\
    (forall j, j <= t -> lookupZ (ringArray q') j = lookupZ (ringArray q) j) /\
    forall i a, items !! i = Some a -> lookupZ (ringArray q') (t + 1 + Z.of_nat i) = Some (Some a).
Proof.
  induction items as [|a items IH]; intros q t Ht H0 Hlen Hl.
  - exists q. split; [done|]. unfold lenZ. cbn. repeat split; try done. lia.
  - rewrite lenZ_cons in *. pose proof (lenZ_nonneg items). cbn [pushes]. unfold push. rewrite Ht.
    rewrite (proj2 (Z.eqb_neq t (-1))), andb_false_r by lia. rewrite (proj2 (Z.eqb_neq t (QUEUE_SIZE - 1))) by lia.
    unfold QUEUE_SIZE in Hlen. rewrite Z.mod_small by (unfold QUEUE_SIZE; lia). unfold store.
    destruct (lookupZ_is_Some (ringArray q) (t + 1)) as [c ->]; [unfold QUEUE_SIZE in Hl; lia|]. cbn [in_bounds mbind res_bind mret res_ret].
    set (q1 := mkQ _ _ _ _).
    destruct (IH q1 (t + 1) eq_refl ltac:(lia) ltac:(unfold QUEUE_SIZE; lia)) as (q' & H1 & H2 & H3 & H4 & H5);
      [cbn; by rewrite lenZ_insertZ|].
    exists q'. split; [exact H1|]. split; [rewrite H2; cbn; lia|]. split; [done|]. split.
    + intros j Hj. rewrite H4 by lia. cbn. apply lookupZ_insertZ_ne. lia.
    + intros [|i] b Hb; cbn in Hb.
      * injection Hb as <-. rewrite Z.add_0_r, H4 by lia. cbn. apply lookupZ_insertZ_eq. unfold QUEUE_SIZE in Hl. lia.
      * replace (t + 1 + Z.of_nat (S i)) with (t + 1 + 1 + Z.of_nat i) by lia. by apply H5.
Qed.

Lemma view_all_lookup junk q (l : list Z) : q_count q = lenZ l ->
  (forall i a, l !! i = Some a -> view junk (Z.of_nat i) q = Ok a) -> view_all junk q = Ok <$> l.
Proof.
  intros Hc Hv. unfold view_all, qsize. rewrite Hc. apply list_eq. intros i. rewrite !list_lookup_fmap.
  destruct (l !! i) as [a|] eqn:Hi.
  - pose proof (lookup_lt_Some _ _ _ Hi). rewrite lookup_seqZ_lt by (unfold lenZ; lia).
    rewrite Z.add_0_l. cbn. f_equal. by apply Hv.
  - apply lookup_ge_None in Hi. by rewrite lookup_seqZ_ge by (unfold lenZ; lia).
Qed.

(** up to the first reading, a buffer is read in the order of the samples *)
Lemma first_batch junk items : lenZ items <= QUEUE_SIZE -> exists q, pushes items Queue_new = Ok q /\
  view_all junk q = Ok <$> items.
Proof.
  destruct items as [|a items]; [by exists Queue_new|]. rewrite lenZ_cons. intros Hlen.
  assert (push a Queue_new = Ok (mkQ 0 0 1 (insertZ 0 (Some a) (ringArray Queue_new)))) as Hp by reflexivity.
  cbn [pushes]. rewrite Hp. cbn [mbind res_bind]. set (q1 := mkQ _ _ _ _).
  destruct (pushes_spec items q1 0 eq_refl ltac:(lia) ltac:(lia) eq_refl) as (q & H1 & H2 & H3 & H4 & H5).
  exists q. split; [done|]. apply view_all_lookup; [rewrite H2, lenZ_cons; cbn; lia|]. intros [|i] b Hb; unfold view; cbn in Hb.
  - injection Hb as <-. change (Z.of_nat 0) with 0. by rewrite (H4 0) by lia.
  - replace (Z.of_nat (S i)) with (0 + 1 + Z.of_nat i) by lia. by rewrite (H5 i b Hb).
Qed.

(** later, what is in cell 0 is read again, and the last sample is not read *)
Lemma later_batch junk q items : lenZ (ringArray q) = QUEUE_SIZE -> lenZ items < QUEUE_SIZE ->
  exists q', pushes items (data_read q) = Ok q' /\
    view_all junk q' = Ok <$> take (length items) (default junk (default None (lookupZ (ringArray q) 0)) :: items).
Proof.
  intros Hl Hlen. destruct (pushes_spec items (data_read q) 0 eq_refl ltac:(lia) ltac:(lia) Hl) as (q' & H1 & H2 & H3 & H4 & H5).
  exists q'. split; [done|]. destruct (lookupZ_is_Some (ringArray q) 0) as [c Hc]; [by rewrite Hl|]. rewrite Hc. cbn [default].
  apply view_all_lookup.
  - rewrite H2. unfold lenZ. rewrite length_take. cbn. lia.
  - intros i b Hb. apply lookup_take_Some in Hb as [Hb Hi]. unfold view. destruct i as [|i]; cbn in Hb.
    + injection Hb as <-. change (Z.of_nat 0) with 0. rewrite (H4 0) by lia. cbn [ringArray data_read]. by rewrite Hc.
    + replace (Z.of_nat (S i)) with (0 + 1 + Z.of_nat i) by lia. by rewrite (H5 i b Hb).
Qed.

(** a buffer that was empty when it was read is read from a cell that was never written *)
Lemma empty_batch junk a : exists q, pushes [a] (data_read Queue_new) = Ok q /\ view_all junk q = [Ok junk].
Proof. eexists. by split; [vm_compute; reflexivity|]. Qed.

(** the 129th sample without a reading throws the other 128 away *)
Lemma wrap_loses_samples junk : exists q, pushes (seqZ 1 129) Queue_new = Ok q /\ view_all junk q = [Ok 129].
Proof. eexists. by split; [vm_compute; reflexivity|]. Qed.

(** samples of address 0 are counted for the next address that comes to the slot *)
Lemma zero_inflates : exists t t', puts [0; 0; 0] HashMap_new = Ok t /\ numberOfEntry t = 0 /\
  put 512 t = Ok t' /\ lookupZ t' 0 = Some (mkEntry 512 4).
Proof. eexists _, _. split; [vm_compute; reflexivity|]. split; [done|]. by split; [vm_compute; reflexivity|]. Qed.

(** * Properties *)

(** C30. The hash table of the profiler counts: after [put] of any sequence of
    nonzero addresses, every address of the sequence has exactly one slot, with the
    number of its occurrences, no other address has one, and [numberOfEntry]
    is the length of the sequence.  [put] always comes to its end while there are at
    most 512 different addresses; at the 513th it probes for ever. *)
Theorem hash_counts (ks : list Z) : ~ (0 ∈ ks) -> lenZ ks < 2 ^ 31 ->
  match puts ks HashMap_new with
  | Ok t => (length (remove_dups ks) <= Z.to_nat TABLE_SIZE)%nat /\ numberOfEntry t = lenZ ks /\
      (forall i e, lookupZ t i = Some e -> key e <> 0 -> key e ∈ ks /\ counter e = occ (key e) ks) /\
      (forall k, k ∈ ks -> exists i, lookupZ t i = Some (mkEntry k (occ k ks)) /\
        forall j e, lookupZ t j = Some e -> key e = k -> j = i)
  | Err _ => (Z.to_nat TABLE_SIZE < length (remove_dups ks))%nat /\
      exists ks1 k ks2 t, ks = ks1 ++ k :: ks2 /\ puts ks1 HashMap_new = Ok t /\
        length (remove_dups ks1) = Z.to_nat TABLE_SIZE /\ ~ (k ∈ ks1) /\
        forall fuel, probe fuel k t (k mod TABLE_SIZE) = Err OutOfFuel
  end.
Proof.
  intros Hnz Hlen. pose proof (puts_counts ks HashMap_new [] counts_new Hnz ltac:(done)) as H.
  destruct (puts ks HashMap_new) as [t|f].
  - rewrite app_nil_r in H. split; [by eapply counts_distinct|]. split; [|split].
    + rewrite numberOfEntry_sum; [apply H| |rewrite (hm_sum _ _ H); done].
      intros e [i Hi]%list_elem_of_lookup. rewrite <- lookupZ_nat in Hi.
      destruct (decide (key e = 0)) as [Hz|Hn]; [by rewrite (hm_zero _ _ H _ e Hi Hz)|].
      destruct (hm_count _ _ H _ e Hi Hn) as [-> _]. apply occ_nonneg.
    + intros i e Hi Hn. by destruct (hm_count _ _ H i e Hi Hn).
    + intros k Hk. destruct (hm_mem _ _ H k Hk) as (i & e & Hi & <-). exists i.
      assert (key e <> 0) as Hn by (intros E; rewrite E in Hk; done).
      destruct (hm_count _ _ H i e Hi Hn) as [<- _]. split; [by destruct e|].
      intros j e' Hj He. symmetry. by apply (counts_unique t ks i j e e' H Hi Hj).
  - destruct H as (-> & ks1 & k & ks2 & t1 & -> & Hp & Hc & Hf). rewrite app_nil_r in Hc.
    destruct (full_distinct t1 ks1 k Hc Hf) as [Hd Hk]. split.
    + assert (length (remove_dups (k :: ks1)) <= length (remove_dups (ks1 ++ k :: ks2)))%nat as Hle.
      { apply submseteq_length, NoDup_submseteq; [apply NoDup_remove_dups|]. intros x.
        rewrite !elem_of_remove_dups, elem_of_app, !elem_of_cons. tauto. }
      cbn [remove_dups] in Hle. destruct (decide_rel elem_of k ks1); [done|]. cbn [length] in Hle. lia.
    + exists ks1, k, ks2, t1. repeat (split; [done|]). intros fuel.
      replace (k mod TABLE_SIZE) with (slot k 0) by (unfold slot; by rewrite Z.add_0_r).
      by apply full_forever; [apply Hc| |].
Qed.

Lemma hash_counts_witness : exists t, puts [700; 188; 700] HashMap_new = Ok t /\ numberOfEntry t = 3 /\
  exists i, lookupZ t i = Some (mkEntry 700 2).
Proof.
  assert (~ (0 ∈ [700; 188; 700])) as Hnz by (rewrite !not_elem_of_cons; repeat split; try done; apply not_elem_of_nil).
  pose proof (hash_counts [700; 188; 700] Hnz ltac:(vm_compute; reflexivity)) as H.
  destruct (puts [700; 188; 700] HashMap_new) as [t|f] eqn:Hp; [|destruct H as [H _]; vm_compute in H; lia].
  exists t. split; [done|]. destruct H as (_ & H1 & _ & H2). split; [exact H1|].
  destruct (H2 700) as (i & Hi & _); [apply elem_of_cons; by left|]. by exists i.
Defined.

(** [topTen] prints ten entries of the table in the order of their
    counters, and no entry that is not printed has a greater counter. *)
Theorem top_ten (table : HashMap) : lenZ table = TABLE_SIZE ->
  length (topTen table) = 10%nat /\
  StronglySorted (fun x y => counter y <= counter x) (topTen table) /\
  exists rest, Permutation table (topTen table ++ rest) /\
    forall x y, x ∈ topTen table -> y ∈ rest -> counter y <= counter x.
Proof.
  intros Hl. destruct (sort_samples_spec table) as [Hp Hs]. pose proof (Permutation_length Hp) as Hlen.
  rewrite <- Hlen in Hs. apply rows_sorted_StronglySorted in Hs. unfold topTen.
  split; [rewrite length_take, Hlen; unfold lenZ, TABLE_SIZE, TOP_SAMPLE in *; lia|].
  rewrite <- (take_drop TOP_SAMPLE (sort_samples table)) in Hs.
  split; [by eapply StronglySorted_app_1_l|].
  exists (drop TOP_SAMPLE (sort_samples table)). split; [by rewrite take_drop|].
  intros x y Hx Hy. exact (StronglySorted_app_1_elem_of _ _ _ x y Hs Hx Hy).
Qed.

Lemma top_ten_witness : exists t, put 7 HashMap_new = Ok t /\ length (topTen t) = 10%nat /\
  StronglySorted (fun x y => counter y <= counter x) (topTen t).
Proof.
  eexists. split; [vm_compute; reflexivity|].
  match goal with |- context [topTen ?t] => destruct (top_ten t ltac:(vm_compute; reflexivity)) as (H1 & H2 & _) end.
  by split.
Defined.


