(* ===== verification/Gdb.v ===== *)
(** * The debugger stub: gdb/Gdb.cc

    The remote serial protocol of gdb: packets over the serial port, and the
    commands on registers, memory and breakpoints.  The serial port is the
    stream of the bytes that arrive and the list of the bytes that are sent
    (Devices.v has the port itself); a function that needs a byte that does
    not come waits ([None]).  A [char] is a byte in [0, 256), a C string the
    list of its bytes before the 0. *)
From Stdlib Require Import ZArith Lia Bool Ascii String.
From stdpp Require Import base tactics option numbers list gmap.
From S2P Require Import Prelude.

Definition ch (c : ascii) : Z := Z.of_N (N_of_ascii c).
Definition str (s : string) : list Z := ch <$> list_ascii_of_string s.

(** ** The remote serial protocol *)
Definition hexchars : list Z := str "0123456789abcdef" ++ [0].
Definition hexchar (i : Z) : res Z := in_bounds (lookupZ hexchars i).

Definition char2hex (c : Z) : Z :=
  if (ch "0" <=? c) && (c <=? ch "9") then c - ch "0"
  else if (ch "a" <=? c) && (c <=? ch "f") then c - ch "a" + 10
  else if (ch "A" <=? c) && (c <=? ch "F") then c - ch "A" + 10
  else -1.

Definition buflen : Z := 4096.

(** where [getpacket] is: looking for the start of a packet, in its data, at
    the first or second digit of the checksum *)
Inductive gpstate := Hunt | Data (checksum count : Z) | Sum1 (checksum : Z) | Sum2 (checksum xmitcsum : Z).

(** the bytes that are sent, and the packet: the index of its first byte in
    the buffer, the buffer, and the bytes that have not been read *)
Definition received : Type := list Z * option (Z * list Z * list Z).
Definition sending (bs : list Z) (r : res received) : res received :=
  '(sent, p) ← r; mret (bs ++ sent, p).

Definition buf_put (i c : Z) (buffer : list Z) : res (list Z) :=
  _ ← in_bounds (lookupZ buffer i); mret (insertZ i c buffer).

Fixpoint getpacket (st : gpstate) (buffer inp : list Z) : res received :=
  match inp with
  | [] => mret ([], None)
  | c :: inp =>
      match st with
      | Hunt => getpacket (if c =? ch "$" then Data 0 0 else Hunt) buffer inp
      | Data checksum count =>
          if c =? ch "$" then getpacket (Data 0 0) buffer inp
          else if c =? ch "#" then
            buffer ← buf_put count 0 buffer;
            getpacket (Sum1 checksum) buffer inp
          else
            buffer ← buf_put count c buffer;
            if count + 1 <? buflen - 1 then getpacket (Data (wrap 8 (checksum + c)) (count + 1)) buffer inp
            else buffer ← buf_put (count + 1) 0 buffer; getpacket Hunt buffer inp
      | Sum1 checksum => getpacket (Sum2 checksum (wrap 8 (Z.shiftl (char2hex c) 4))) buffer inp
      | Sum2 checksum xmitcsum =>
          if negb (checksum =? wrap 8 (xmitcsum + char2hex c)) then sending [ch "-"] (getpacket Hunt buffer inp)
          else
            c2 ← in_bounds (lookupZ buffer 2);
            if c2 =? ch ":" then
              c0 ← in_bounds (lookupZ buffer 0); c1 ← in_bounds (lookupZ buffer 1);
              mret ([ch "+"; c0; c1], Some (3, buffer, inp))
            else mret ([ch "+"], Some (0, buffer, inp))
      end
  end.

Definition checksum (s : list Z) : Z := foldl (fun sum c => wrap 8 (sum + c)) 0 s.

(** one round of [putpacket] *)
Definition frame (s : list Z) : res (list Z) :=
  hi ← hexchar (Z.shiftr (checksum s) 4);
  lo ← hexchar (checksum s mod 16);
  mret ([ch "$"] ++ s ++ [ch "#"; hi; lo]).

Fixpoint putpacket (s inp : list Z) : res (list Z * option (list Z)) :=
  f ← frame s;
  match inp with
  | [] => mret (f, None)
  | c :: inp =>
      if c =? ch "+" then mret (f, Some inp)
      else '(sent, rest) ← putpacket s inp; mret (f ++ sent, rest)
  end.

(** ** Hexadecimal *)

(** [mem2hex] on the bytes at its argument, [None] where the access faults:
    the text, and whether it was cut off by a fault *)
Fixpoint mem2hex (mem : list (option Z)) : res (list Z * bool) :=
  match mem with
  | [] => mret ([], false)
  | None :: _ => mret ([], true)
  | Some c :: mem =>
      hi ← hexchar (Z.shiftr c 4); lo ← hexchar (c mod 16);
      '(text, fault) ← mem2hex mem;
      mret (hi :: lo :: text, fault)
  end.
Definition hex_of (bs : list Z) : res (list Z) := '(text, _) ← mem2hex (Some <$> bs); mret text.

(** [*ptr++]; a pointer into [in] is the rest of the buffer *)
Definition next (p : list Z) : res (Z * list Z) :=
  match p with c :: p => mret (c, p) | [] => Err OutOfBounds end.

(** the bytes that [hex2mem] stores *)
Fixpoint hex2mem (p : list Z) (count : nat) : res (list Z) :=
  match count with
  | O => mret []
  | S count =>
      '(c, p) ← next p; '(d, p) ← next p;
      rest ← hex2mem p count;
      mret (wrap 8 (wrap 8 (Z.shiftl (char2hex c) 4) + char2hex d) :: rest)
  end.

(** [hexToInt]: the number of digits, the value, a [long], and the pointer *)
Fixpoint hexToInt_from (n v : Z) (p : list Z) : res (Z * Z * list Z) :=
  match p with
  | [] => Err OutOfBounds
  | c :: p' =>
      if c =? 0 then mret (n, v, p)
      else if 0 <=? char2hex c then hexToInt_from (n + 1) (Z.lor (Z.shiftl v 4 mod 2 ^ 64) (char2hex c)) p'
      else mret (n, v, p)
  end.
Definition hexToInt (p : list Z) : res (Z * Z * list Z) := hexToInt_from 0 0 p.

(** [!strncmp(p, s, strlen(s))] *)
Fixpoint starts (s p : list Z) : bool :=
  match s, p with
  | [], _ => true
  | a :: s, b :: p => if a =? b then starts s p else false
  | _, [] => false
  end.

(** ** The state of the stub *)
Inductive cpu_state := Unknown | Stopped | Running.
Record GdbCpu := mkCpu { reg64buf : list Z; reg32buf : list Z; state : cpu_state }.
Record VCont := mkVCont { action : Z; signal : Z; tid : Z }.

Definition reg64cnt : Z := 17.
Definition reg32cnt : Z := 7.
Definition RIP : Z := 16.

Record stub := mkStub {
  cpus : list GdbCpu;
  memory : gmap Z Z;                 (* the bytes that can be read *)
  bpMap : gmap Z Z;
  Unwind_DebugHook_addr : Z;
  Unwind_DebugHook_break : bool;
  Htid : Z;
  vCont : VCont;
  gdbFaultHandlerEnabled : bool
}.

Definition with_cpus (x : list GdbCpu) (s : stub) : stub := mkStub x (memory s) (bpMap s)
  (Unwind_DebugHook_addr s) (Unwind_DebugHook_break s) (Htid s) (vCont s) (gdbFaultHandlerEnabled s).
Definition with_memory (x : gmap Z Z) (s : stub) : stub := mkStub (cpus s) x (bpMap s)
  (Unwind_DebugHook_addr s) (Unwind_DebugHook_break s) (Htid s) (vCont s) (gdbFaultHandlerEnabled s).
Definition with_bpMap (x : gmap Z Z) (s : stub) : stub := mkStub (cpus s) (memory s) x
  (Unwind_DebugHook_addr s) (Unwind_DebugHook_break s) (Htid s) (vCont s) (gdbFaultHandlerEnabled s).
Definition with_hook (a : Z) (b : bool) (s : stub) : stub := mkStub (cpus s) (memory s) (bpMap s)
  a b (Htid s) (vCont s) (gdbFaultHandlerEnabled s).
Definition with_Htid (x : Z) (s : stub) : stub := mkStub (cpus s) (memory s) (bpMap s)
  (Unwind_DebugHook_addr s) (Unwind_DebugHook_break s) x (vCont s) (gdbFaultHandlerEnabled s).
Definition with_vCont (x : VCont) (s : stub) : stub := mkStub (cpus s) (memory s) (bpMap s)
  (Unwind_DebugHook_addr s) (Unwind_DebugHook_break s) (Htid s) x (gdbFaultHandlerEnabled s).
Definition with_fault (x : bool) (s : stub) : stub := mkStub (cpus s) (memory s) (bpMap s)
  (Unwind_DebugHook_addr s) (Unwind_DebugHook_break s) (Htid s) (vCont s) x.

(** the bytes of a word in memory *)
Fixpoint le_split (n : nat) (x : Z) : list Z :=
  match n with O => [] | S n => x mod 256 :: le_split n (Z.shiftr x 8) end.
Fixpoint le_combine (bs : list Z) : Z :=
  match bs with [] => 0 | b :: bs => b + 256 * le_combine bs end.

Definition E01 : list Z := str "E01".
Definition OK_ : list Z := str "OK".

Section stub.
Context (cTID : Z) (writable : Z -> bool).

(** *** queries: [None] when the query is another one *)
Definition handle_qSupported (p : list Z) : option (list Z) :=
  if starts (str "Supported") p then Some (str "PacketSize=1000") else None.
Definition handle_qC (p : list Z) : res (option (list Z)) :=
  '(c, _) ← next p;
  if c =? ch "C" then
    hi ← hexchar (Z.shiftr cTID 4); lo ← hexchar (cTID mod 16); mret (Some (str "QC" ++ [hi; lo]))
  else mret None.
Definition handle_qAttached (p : list Z) : option (list Z) :=
  if starts (str "Attached") p then Some (str "0") else None.
Definition handle_qOffsets (p : list Z) : option (list Z) :=
  if starts (str "Offsets") p then Some (str "Text=0;Data=0;Bss=0") else None.

Definition symbolName : list Z := str "_Unwind_DebugHook".
Definition handle_qSymbol (p : list Z) : res (option (list Z)) :=
  if starts (str "Symbol::") p then text ← hex_of symbolName; mret (Some (str "qSymbol:" ++ text))
  else mret None.
Definition handle_qSymbolResponse (p : list Z) (s : stub) : res (option (list Z * stub)) :=
  if starts (str "Symbol:") p then
    '(n, addr, p) ← hexToInt (drop 7 p);
    if n =? 0 then mret None
    else
      '(_, p) ← next p;
      buf ← hex2mem p (length symbolName);
      kassert (bool_decide (buf = symbolName));;
      mret (Some (OK_, with_hook addr (Unwind_DebugHook_break s) s))
  else mret None.
Definition handle_qTStatus (p : list Z) : bool := starts (str "TStatus") p.

Fixpoint thread_list (i : Z) (n : nat) : res (list Z) :=
  match n with
  | O => mret []
  | S n =>
      hi ← hexchar (Z.shiftr (i + 1) 4); lo ← hexchar ((i + 1) mod 16);
      rest ← thread_list (i + 1) n;
      mret ((if 0 <? i then [ch ","] else []) ++ [hi; lo] ++ rest)
  end.
Definition handle_qfThreadInfo (p : list Z) (s : stub) : res (option (list Z)) :=
  if starts (str "fThreadInfo") p then l ← thread_list 0 (length (cpus s)); mret (Some (ch "m" :: l))
  else mret None.
Definition handle_qsThreadInfo (p : list Z) : option (list Z) :=
  if starts (str "sThreadInfo") p then Some (str "l") else None.

(** decimal digits, as [snprintf] prints them; 20 digits are enough for 64 bits *)
Fixpoint decimal (fuel : nat) (x : Z) (acc : list Z) : list Z :=
  match fuel with
  | O => acc
  | S fuel => let acc := ch "0" + x mod 10 :: acc in if x / 10 =? 0 then acc else decimal fuel (x / 10) acc
  end.
Definition state_name (st : cpu_state) : list Z :=
  str (match st with Unknown => "Unknown" | Stopped => "Stopped" | Running => "Running" end).
Definition handle_qThreadExtraInfo (p : list Z) (s : stub) : res (option (list Z)) :=
  if starts (str "ThreadExtraInfo") p then
    '(n, threadId, _) ← hexToInt (drop 16 p);
    if n =? 0 then mret None
    else
      c ← in_bounds (lookupZ (cpus s) (threadId - 1)%w);
      text ← hex_of (take 39 (str "CPU " ++ decimal 20 (threadId - 1)%w [] ++ str " [" ++ state_name (state c) ++ str "]"));
      mret (Some text)
  else mret None.

(** *** commands *)
Definition handleThreadAlive (p : list Z) (s : stub) : res (list Z) :=
  '(n, threadId, _) ← hexToInt p;
  if negb (n =? 0) && (1 <=? threadId) && (threadId <=? lenZ (cpus s)) then mret OK_ else mret E01.

(** the thread of the last [H] packet, or the current one *)
Definition selected (s : stub) : Z * stub :=
  if negb (Htid s =? -2) then (Htid s, with_Htid (-2) s) else (cTID, s).
Definition getCPU (idx : Z) (s : stub) : res GdbCpu := in_bounds (lookupZ (cpus s) idx).

Definition handleReasonTargetHalted (sigval : Z) (s : stub) : res (list Z * stub) :=
  let '(idx, s) := selected s in
  s1 ← hexchar (Z.shiftr sigval 4); s2 ← hexchar (sigval mod 16);
  i1 ← hexchar (Z.shiftr idx 4); i2 ← hexchar (idx mod 16);
  r1 ← hexchar (Z.shiftr RIP 4); r2 ← hexchar (RIP mod 16);
  c ← getCPU (idx - 1) s;
  val ← in_bounds (lookupZ (reg64buf c) RIP);
  text ← hex_of (le_split 8 val);
  mret ([ch "T"; s1; s2] ++ str "thread:" ++ [i1; i2; ch ";"; r1; r2; ch ":"] ++ text ++ [ch ";"], with_fault false s).

Definition registers (c : GdbCpu) : list Z := (reg64buf c ≫= le_split 8) ++ (reg32buf c ≫= le_split 4).
Definition handleReadRegisters (s : stub) : res (list Z * stub) :=
  let '(idx, s) := selected s in
  c ← getCPU (idx - 1) s;
  text ← hex_of (registers c);
  mret (text, with_fault false s).

(** the words of [n] bytes that memory holds *)
Fixpoint words_of (n : nat) (k : nat) (bs : list Z) : list Z :=
  match k with O => [] | S k => le_combine (take n bs) :: words_of n k (drop n bs) end.
Definition set_registers (bs : list Z) (c : GdbCpu) : GdbCpu :=
  mkCpu (words_of 8 (Z.to_nat reg64cnt) bs) (words_of 4 (Z.to_nat reg32cnt) (drop 136 bs)) (state c).
Definition setCPU (idx : Z) (c : GdbCpu) (s : stub) : stub := with_cpus (insertZ idx c (cpus s)) s.

Definition handleWriteRegisters (p : list Z) (s : stub) : res (list Z * stub) :=
  let '(idx, s) := selected s in
  c ← getCPU (idx - 1) s;
  bs ← hex2mem p 164;
  mret (OK_, with_fault false (setCPU (idx - 1) (set_registers bs c) s)).

(** [hexToInt(&in, &regno) && *in++ == '=']: the number, signed *)
Definition register_number (p : list Z) : res (option (Z * list Z)) :=
  '(n, regno, p) ← hexToInt p;
  if n =? 0 then mret None
  else '(c, p) ← next p; mret (if c =? ch "=" then Some (to_signed 64 regno, p) else None).

Definition handleReadRegister (p : list Z) (s : stub) : res (list Z * stub) :=
  let '(idx, s) := selected s in
  r ← register_number p;
  match r with
  | Some (regno, _) =>
      if (0 <=? regno) && (regno <? reg64cnt) then
        c ← getCPU (idx - 1) s;
        val ← in_bounds (lookupZ (reg64buf c) regno);
        text ← hex_of (le_split 8 val); mret (text, with_fault false s)
      else
        let regno := regno - reg64cnt in
        if (0 <=? regno) && (regno <? reg32cnt) then
          c ← getCPU (idx - 1) s;
          val ← in_bounds (lookupZ (reg32buf c) regno);
          text ← hex_of (le_split 4 val); mret (text, with_fault false s)
        else mret (E01, s)
  | None => mret (E01, s)
  end.

Definition handleWriteRegister (p : list Z) (s : stub) : res (list Z * stub) :=
  let '(idx, s) := selected s in
  r ← register_number p;
  match r with
  | Some (regno, p) =>
      if (0 <=? regno) && (regno <? reg64cnt) then
        c ← getCPU (idx - 1) s;
        bs ← hex2mem p 8;
        mret (OK_, with_fault false (setCPU (idx - 1) (mkCpu (insertZ regno (le_combine bs) (reg64buf c)) (reg32buf c) (state c)) s))
      else
        let regno := regno - reg64cnt in
        if (0 <=? regno) && (regno <? reg32cnt) then
          c ← getCPU (idx - 1) s;
          bs ← hex2mem p 4;
          mret (OK_, with_fault false (setCPU (idx - 1) (mkCpu (reg64buf c) (insertZ regno (le_combine bs) (reg32buf c)) (state c)) s))
        else mret (E01, s)
  | None => mret (E01, s)
  end.

Definition handleH (p : list Z) (s : stub) : res (list Z * stub) :=
  '(op, p) ← next p;
  if op =? ch "g" then
    '(n, threadId, _) ← hexToInt p;
    if negb (n =? 0) && (0 <? to_signed 64 threadId) then mret (OK_, with_Htid (to_signed 32 threadId) s)
    else mret (E01, s)
  else mret (E01, s).

(** [hexToInt(&in, &addr) && *in++ == ',' && hexToInt(&in, &length)] *)
Definition addr_length (p : list Z) : res (option (Z * Z * list Z)) :=
  '(n, addr, p) ← hexToInt p;
  if n =? 0 then mret None
  else
    '(c, p) ← next p;
    if c =? ch "," then
      '(n, length, p) ← hexToInt p; mret (if n =? 0 then None else Some (addr, length, p))
    else mret None.

Definition bytes_from (addr : Z) (n : Z) (mem : gmap Z Z) : list (option Z) :=
  (fun i => mem !! (addr + i)%w) <$> seqZ 0 n.

Definition handleReadMemory (p : list Z) (s : stub) : res (list Z * stub) :=
  r ← addr_length p;
  match r with
  | Some (addr, length, _) =>
      '(text, fault) ← mem2hex (bytes_from addr (to_signed 32 length) (memory s));
      _ ← in_bounds (if lenZ text <? 4096 then Some tt else None);   (* the size of out *)
      mret (if (fault : bool) then E01 else text, with_fault fault s)
  | None => mret (E01, s)
  end.

Definition set_char (addr v : Z) (mem : gmap Z Z) : option (gmap Z Z) :=
  if writable addr && bool_decide (is_Some (mem !! addr)) then Some (<[addr := v]> mem) else None.

(** [hex2mem] to memory: the memory, and whether a store faulted *)
Fixpoint hex2mem_at (p : list Z) (addr : Z) (count : nat) (mem : gmap Z Z) : res (gmap Z Z * bool) :=
  match count with
  | O => mret (mem, false)
  | S count =>
      '(c, p) ← next p; '(d, p) ← next p;
      match set_char addr (wrap 8 (wrap 8 (Z.shiftl (char2hex c) 4) + char2hex d)) mem with
      | Some mem => hex2mem_at p (addr + 1)%w count mem
      | None => mret (mem, true)
      end
  end.

Definition handleWriteMemory (p : list Z) (s : stub) : res (list Z * stub) :=
  r ← addr_length p;
  match r with
  | Some (addr, length, p) =>
      '(c, p) ← next p;
      if c =? ch ":" then
        '(mem, fault) ← hex2mem_at p addr (Z.to_nat (to_signed 32 length)) (memory s);
        mret (if (fault : bool) then E01 else OK_, with_fault fault (with_memory mem s))
      else mret (E01, s)
  | None => mret (E01, s)
  end.

Definition handleSetSoftBreak (p : list Z) (s : stub) : res (list Z * stub) :=
  r ← addr_length p;
  match r with
  | Some (addr, length, _) =>
      let s := with_fault true s in
      match memory s !! addr with
      | None => mret (E01, s)
      | Some opCode =>
          let s := with_bpMap (<[addr := opCode]> (bpMap s)) s in
          kassert (to_signed 64 length =? 1);;
          match set_char addr 0xcc (memory s) with
          | None => mret (E01, s)
          | Some mem =>
              let s := with_memory mem s in
              let s := if addr =? Unwind_DebugHook_addr s then with_hook addr true s else s in
              mret (OK_, with_fault false s)
          end
      end
  | None => mret (E01, s)
  end.

Definition handleRemoveSoftBreak (p : list Z) (s : stub) : res (list Z * stub) :=
  r ← addr_length p;
  match r with
  | Some (addr, length, _) =>
      match bpMap s !! addr with
      | None => mret (E01, s)
      | Some opCode =>
          let s := with_fault true s in
          match set_char addr opCode (memory s) with
          | None => mret (E01, s)
          | Some mem =>
              let s := with_memory mem s in
              let s := if addr =? Unwind_DebugHook_addr s then with_hook addr false s else s in
              mret (OK_, with_fault false s)
          end
      end
  | None => mret (E01, s)
  end.

(** *** vCont *)
Definition pending (v : VCont) : bool :=
  negb (action v =? 0) && ((to_signed 64 (tid v) <=? 0) || (tid v =? cTID)).
Definition detach : VCont := mkVCont (ch "c") 0 (2 ^ 64 - 1).

Fixpoint skip_spaces (p : list Z) : list Z :=
  match p with c :: p' => if c =? ch " " then skip_spaces p' else p | [] => [] end.
Definition tolower (c : Z) : Z := if (ch "A" <=? c) && (c <=? ch "Z") then c + 32 else c.

(** the end of [parse], after the signal *)
Definition parse_tid (a sig : Z) (p : list Z) (v : VCont) : res VCont :=
  '(c, p') ← next p;
  if c =? ch ":" then
    '(n, t, _) ← hexToInt p';
    if n =? 0 then mret (mkVCont (action v) sig t)
    else mret (mkVCont (if (a =? ch "c") || (a =? ch "s") then a else action v) sig t)
  else mret (mkVCont (if (a =? ch "c") || (a =? ch "s") then a else action v) sig (2 ^ 64 - 1)).

Definition vCont_parse (p : list Z) (v : VCont) : res (list Z * VCont) :=
  if negb (starts (str "Cont") p) then mret ([], v)
  else
    '(c, p) ← next (drop 4 p);
    if c =? ch "?" then mret (str "vCont;c;C;s;S", v)
    else
      kassert (action v =? 0);;
      if negb (c =? ch ";") then mret ([], v)
      else
        '(a, p) ← next p;
        if (a =? ch "C") || (a =? ch "S") then
          '(n, sig, p) ← hexToInt (skip_spaces p);
          if n =? 0 then mret ([], mkVCont (action v) sig (tid v))
          else v ← parse_tid (tolower a) sig p v; mret ([], v)
        else v ← parse_tid a 0 p v; mret ([], v).

(** ** Packets: the packets that are sent in reply *)
Definition or_else (o : option (list Z)) (k : res (list (list Z) * stub)) (s : stub) : res (list (list Z) * stub) :=
  match o with Some out => mret ([out], s) | None => k end.
Definition reply (r : res (list Z * stub)) : res (list (list Z) * stub) :=
  '(out, s) ← r; mret (match out with [] => [] | _ => [out] end, s).

Definition handle_q (p : list Z) (s : stub) : res (list (list Z) * stub) :=
  or_else (handle_qSupported p) (
  r ← handle_qC p; or_else r (
  or_else (handle_qAttached p) (
  or_else (handle_qOffsets p) (
  r ← handle_qSymbol p; or_else r (
  r ← handle_qSymbolResponse p s;
  match r with Some (out, s) => mret ([out], with_fault false s) | None =>
  if handle_qTStatus p then mret ([[]], s)
  else
    r ← handle_qfThreadInfo p s; or_else r (
    or_else (handle_qsThreadInfo p) (
    r ← handle_qThreadExtraInfo p s; or_else r (mret ([str "qUnimplemented"], s)) (with_fault false s)) s) s
  end) (with_fault false s)) s) s) s) s.

Definition handle_Z (set : bool) (p : list Z) (s : stub) : res (list Z * stub) :=
  '(n, type, p) ← hexToInt p;
  if n =? 0 then mret ([], s)
  else
    '(_, p) ← next p;
    if type =? 0 then (if set then handleSetSoftBreak p s else handleRemoveSoftBreak p s) else mret (E01, s).

Definition handlePacket (sigval : Z) (ptr : list Z) (s : stub) : res (list (list Z) * stub) :=
  '(c, p) ← next ptr;
  let after r := '(out, s) ← r; mret (out, with_Htid (-2) s) in
  if c =? ch "q" then after (handle_q p s)
  else if c =? ch "v" then after (reply ('(out, v) ← vCont_parse p (vCont s); mret (out, with_vCont v s)))
  else if c =? ch "T" then after (reply (out ← handleThreadAlive p s; mret (out, s)))
  else if c =? ch "?" then after (reply (handleReasonTargetHalted sigval s))
  else if c =? ch "g" then after (reply (handleReadRegisters s))
  else if c =? ch "G" then after (reply (handleWriteRegisters p s))
  else if c =? ch "p" then after (reply (handleReadRegister p s))
  else if c =? ch "P" then after (reply (handleWriteRegister p s))
  else if c =? ch "H" then reply (handleH p s)
  else if c =? ch "m" then after (reply (handleReadMemory p s))
  else if c =? ch "M" then after (reply (handleWriteMemory p s))
  else if c =? ch "k" then after (mret ([], with_vCont detach s))
  else if c =? ch "Z" then after (reply (handle_Z true p s))
  else if c =? ch "z" then after (reply (handle_Z false p s))
  else after (mret ([E01], s)).
End stub.

(** ** The ends of handle_exception *)

(** the signal that is reported for an exception *)
Definition signal_of (vec : Z) : Z :=
  default 7 (lookupZ [8; 5; 0; 5; 16; 16; 4; 8; 7; 11; 11; 11; 11; 11; 11; 7; 7] vec).

Definition EFLAGS : Z := 0.
Definition TF : Z := 0x100.

(** after a breakpoint the instruction pointer goes back to it *)
Definition enter_exception (vec : Z) (mem : gmap Z Z) (c : GdbCpu) : res GdbCpu :=
  if vec =? 3 then
    rip ← in_bounds (lookupZ (reg64buf c) RIP);
    kassert (bool_decide (mem !! (rip - 1)%w = Some 0xCC));;
    mret (mkCpu (insertZ RIP (rip - 1)%w (reg64buf c)) (reg32buf c) Stopped)
  else mret (mkCpu (reg64buf c) (reg32buf c) Stopped).

(** the trap flag is set for a single step only *)
Definition resume_eflags (v : VCont) (c : GdbCpu) : res GdbCpu :=
  eflags ← in_bounds (lookupZ (reg32buf c) EFLAGS);
  let eflags := Z.land eflags (2 ^ 32 - 1 - TF) in
  let eflags := if action v =? ch "s" then Z.lor eflags TF else eflags in
  mret (mkCpu (reg64buf c) (insertZ EFLAGS eflags (reg32buf c)) (state c)).

(** ** Hexadecimal round trips *)
Definition byte (b : Z) : Prop := 0 <= b < 256.
Definition hexc (i : Z) : Z := default 0 (lookupZ hexchars i).
Definition hexs (bs : list Z) : list Z := bs ≫= fun b => [hexc (Z.shiftr b 4); hexc (b mod 16)].

(** a character of a packet's data *)
Definition plain (c : Z) : Prop := 0 < c < 256 /\ c <> ch "$" /\ c <> ch "#".

Lemma char2hex_bound c : -1 <= char2hex c < 16.
Proof.
  unfold char2hex. change (ch "0") with 48. change (ch "9") with 57. change (ch "a") with 97. change (ch "f") with 102.
  change (ch "A") with 65. change (ch "F") with 70.
  destruct (Z.leb_spec 48 c), (Z.leb_spec c 57), (Z.leb_spec 97 c), (Z.leb_spec c 102), (Z.leb_spec 65 c), (Z.leb_spec c 70);
    cbn [andb]; lia.
Qed.

Lemma hexchar_digit i : 0 <= i < 16 -> hexchar i = Ok (hexc i) /\ char2hex (hexc i) = i /\ plain (hexc i).
Proof.
  intros Hi. assert (forallb (fun i => bool_decide (hexchar i = Ok (hexc i) /\ char2hex (hexc i) = i /\
      (0 < hexc i < 256 /\ hexc i <> ch "$" /\ hexc i <> ch "#"))) (seqZ 0 16) = true) as H by (vm_compute; reflexivity).
  pose proof (proj1 (forallb_forall _ _) H i) as Hd. apply bool_decide_eq_true_1 in Hd; [done|].
  rewrite <- list_elem_of_In. apply elem_of_seqZ. lia.
Qed.

Lemma nibbles b : byte b -> 0 <= Z.shiftr b 4 < 16 /\ 0 <= b mod 16 < 16 /\ wrap 8 (wrap 8 (Z.shiftl (Z.shiftr b 4) 4) + b mod 16) = b.
Proof.
  unfold byte. intros Hb. rewrite Z.shiftr_div_pow2, Z.shiftl_mul_pow2 by lia. change (2 ^ 4) with 16.
  pose proof (Z.div_mod b 16 ltac:(lia)). pose proof (Z.mod_pos_bound b 16 ltac:(lia)).
  assert (0 <= b / 16 < 16) by (split; [apply Z.div_pos; lia|apply Z.div_lt_upper_bound; lia]).
  split; [done|]. split; [done|]. rewrite (wrap_small 8 (b / 16 * 16)), wrap_small by lia. lia.
Qed.

Lemma mem2hex_bytes bs : Forall byte bs -> mem2hex (Some <$> bs) = Ok (hexs bs, false).
Proof.
  induction 1 as [|b bs Hb Hbs IH]; [done|]. destruct (nibbles b Hb) as (H1 & H2 & _). cbn [fmap list_fmap mem2hex].
  destruct (hexchar_digit _ H1) as [-> _], (hexchar_digit _ H2) as [-> _]. cbn [mbind res_bind].
  change (list_fmap Z (option Z) Some bs) with (Some <$> bs). by rewrite IH.
Qed.

Lemma mem2hex_cut bs mem : Forall byte bs -> mem2hex ((Some <$> bs) ++ None :: mem) = Ok (hexs bs, true).
Proof.
  induction 1 as [|b bs Hb Hbs IH]; [done|]. destruct (nibbles b Hb) as (H1 & H2 & _). cbn [fmap list_fmap mem2hex app].
  destruct (hexchar_digit _ H1) as [-> _], (hexchar_digit _ H2) as [-> _]. cbn [mbind res_bind].
  change (list_fmap Z (option Z) Some bs) with (Some <$> bs). by rewrite IH.
Qed.

Lemma hex_of_bytes bs : Forall byte bs -> hex_of bs = Ok (hexs bs).
Proof. intros H. unfold hex_of. by rewrite mem2hex_bytes. Qed.

Lemma hexs_length bs : length (hexs bs) = (2 * length bs)%nat.
Proof. unfold hexs. induction bs as [|b bs IH]; cbn in *; [done|]. rewrite IH. lia. Qed.

Lemma hexs_plain bs : Forall byte bs -> Forall plain (hexs bs).
Proof.
  induction 1 as [|b bs Hb Hbs IH]; [constructor|]. destruct (nibbles b Hb) as (H1 & H2 & _).
  change (hexs (b :: bs)) with (hexc (Z.shiftr b 4) :: hexc (b mod 16) :: hexs bs).
  destruct (hexchar_digit _ H1) as (_ & _ & ?), (hexchar_digit _ H2) as (_ & _ & ?). by constructor; [|constructor].
Qed.

Lemma hex2mem_hexs bs rest : Forall byte bs -> hex2mem (hexs bs ++ rest) (length bs) = Ok bs.
Proof.
  induction 1 as [|b bs Hb Hbs IH]; [done|]. destruct (nibbles b Hb) as (H1 & H2 & H3).
  change (hexs (b :: bs) ++ rest) with (hexc (Z.shiftr b 4) :: hexc (b mod 16) :: (hexs bs ++ rest)).
  cbn [length hex2mem next mbind res_bind mret res_ret]. rewrite IH. cbn [mbind res_bind].
  destruct (hexchar_digit _ H1) as (_ & -> & _), (hexchar_digit _ H2) as (_ & -> & _). by rewrite H3.
Qed.

(** a number in hexadecimal, as gdb writes it *)
Definition hex_value (v : Z) (ds : list Z) : Z := foldl (fun v c => Z.lor (Z.shiftl v 4 mod 2 ^ 64) (char2hex c)) v ds.
Definition hexdigit (c : Z) : Prop := 0 < c /\ 0 <= char2hex c.

Lemma hexToInt_digits ds : forall n v c rest, Forall hexdigit ds -> c = 0 \/ char2hex c < 0 ->
  hexToInt_from n v (ds ++ c :: rest) = Ok (n + lenZ ds, hex_value v ds, c :: rest).
Proof.
  induction ds as [|d ds IH]; intros n v c rest Hds Hc.
  - cbn. rewrite Z.add_0_r. destruct (Z.eqb_spec c 0); [done|]. destruct Hc as [|Hc]; [done|].
    by rewrite (proj2 (Z.leb_gt _ _) Hc).
  - apply Forall_cons in Hds as [[H1 H2] Hds]. cbn [app hexToInt_from]. rewrite (proj2 (Z.eqb_neq d 0)) by lia.
    rewrite (proj2 (Z.leb_le _ _) H2), IH by done. rewrite lenZ_cons. cbn [hex_value foldl]. do 3 f_equal. lia.
Qed.

(** ** Packets *)
Lemma buf_put_Ok i c buffer : 0 <= i < lenZ buffer -> buf_put i c buffer = Ok (insertZ i c buffer).
Proof. intros Hi. unfold buf_put. by destruct (lookupZ_is_Some buffer i Hi) as [x ->]. Qed.

Lemma getpacket_junk junk buffer inp : Forall (fun c => c <> ch "$") junk ->
  getpacket Hunt buffer (junk ++ ch "$" :: inp) = getpacket (Data 0 0) buffer inp.
Proof.
  induction 1 as [|c junk Hc Hj IH]; [done|]. cbn [app getpacket]. by rewrite (proj2 (Z.eqb_neq _ _) Hc).
Qed.

(** the data of a packet goes to the buffer *)
Record holds (buffer buffer' : list Z) (count : Z) (s : list Z) : Prop := {
  ho_len : lenZ buffer' = lenZ buffer;
  ho_data i c : s !! i = Some c -> lookupZ buffer' (count + Z.of_nat i) = Some c;
  ho_end : lookupZ buffer' (count + lenZ s) = Some 0;
  ho_rest j : j < count \/ count + lenZ s < j -> lookupZ buffer' j = lookupZ buffer j
}.

Lemma getpacket_data s : forall sum count buffer inp, Forall plain s -> 0 <= count -> count + lenZ s < buflen - 1 ->
  lenZ buffer = buflen -> exists buffer',
    getpacket (Data sum count) buffer (s ++ ch "#" :: inp) =
      getpacket (Sum1 (foldl (fun sum c => wrap 8 (sum + c)) sum s)) buffer' inp /\ holds buffer buffer' count s.
Proof.
  induction s as [|c s IH]; intros sum count buffer inp Hs H0 Hn Hl.
  - unfold lenZ in Hn. cbn [length Z.of_nat] in Hn. cbn [app getpacket foldl]. rewrite buf_put_Ok by (rewrite Hl; unfold buflen in *; lia).
    cbn [mbind res_bind]. eexists. split; [done|]. split; [apply lenZ_insertZ|done| |]; change (lenZ (@nil Z)) with 0.
    + rewrite Z.add_0_r. apply lookupZ_insertZ_eq. rewrite Hl. unfold buflen in *. lia.
    + intros j Hj. apply lookupZ_insertZ_ne. lia.
  - apply Forall_cons in Hs as [(Hc & Hc1 & Hc2) Hs]. rewrite lenZ_cons in Hn. pose proof (lenZ_nonneg s).
    cbn [app getpacket]. rewrite (proj2 (Z.eqb_neq _ _) Hc1), (proj2 (Z.eqb_neq _ _) Hc2).
    rewrite buf_put_Ok by (rewrite Hl; unfold buflen in *; lia). cbn [mbind res_bind].
    rewrite (proj2 (Z.ltb_lt _ _)) by lia.
    destruct (IH (wrap 8 (sum + c)) (count + 1) (insertZ count c buffer) inp Hs ltac:(lia) ltac:(lia)) as (buffer' & H1 & Hh);
      [by rewrite lenZ_insertZ|].
    exists buffer'. split; [exact H1|]. destruct Hh as [G1 G2 G3 G4]. rewrite lenZ_insertZ in G1.
    assert (0 <= count < lenZ buffer) as Hcb by (rewrite Hl; unfold buflen in *; lia).
    split; [done| | |].
    + intros [|i] d Hi; cbn in Hi.
      * injection Hi as <-. rewrite Z.add_0_r, G4 by lia. by apply lookupZ_insertZ_eq.
      * replace (count + Z.of_nat (S i)) with (count + 1 + Z.of_nat i) by lia. by apply G2.
    + rewrite lenZ_cons. by replace (count + (1 + lenZ s)) with (count + 1 + lenZ s) by lia.
    + intros j Hj. rewrite lenZ_cons in Hj. rewrite G4 by lia. apply lookupZ_insertZ_ne. lia.
Qed.

Lemma holds_take buffer buffer' s : holds buffer buffer' 0 s -> take (S (length s)) buffer' = s ++ [0].
Proof.
  intros [_ G2 G3 _]. apply list_eq. intros i. destruct (Nat.lt_trichotomy i (length s)) as [Hi|[->|Hi]].
  - rewrite lookup_take_lt, lookup_app_l by lia. destruct (lookup_lt_is_Some_2 s i Hi) as [c Hc]. rewrite Hc.
    rewrite <- lookupZ_nat. by apply G2.
  - rewrite lookup_take_lt, lookup_app_r, Nat.sub_diag by lia. rewrite <- lookupZ_nat. exact G3.
  - rewrite lookup_take_ge, lookup_ge_None_2; [done| |lia]. rewrite length_app. cbn. lia.
Qed.

Lemma checksum_byte s : byte (checksum s).
Proof.
  unfold checksum. assert (forall sum, byte sum -> byte (foldl (fun sum c => wrap 8 (sum + c)) sum s)) as H; [|by apply H].
  induction s as [|c s IH]; intros sum Hs; [done|]. apply IH, wrap_bounds. done.
Qed.

Definition digits (s : list Z) : list Z := [hexc (Z.shiftr (checksum s) 4); hexc (checksum s mod 16)].
Lemma frame_Ok s : frame s = Ok ([ch "$"] ++ s ++ ch "#" :: digits s).
Proof.
  unfold frame. destruct (nibbles _ (checksum_byte s)) as (H1 & H2 & _).
  by destruct (hexchar_digit _ H1) as [-> _], (hexchar_digit _ H2) as [-> _].
Qed.

(** what a packet carries: no sequence number, and it fits *)
Definition payload (s buffer : list Z) : Prop :=
  Forall plain s /\ lenZ s < buflen - 1 /\ lenZ buffer = buflen /\
  (if 2 <=? lenZ s then s !! 2%nat else lookupZ buffer 2) <> Some (ch ":").

Lemma holds_colon s buffer buffer' : payload s buffer -> holds buffer buffer' 0 s -> exists c,
  lookupZ buffer' 2 = Some c /\ c <> ch ":".
Proof.
  intros (_ & Hn & Hl & Hc) [G1 G2 G3 G4]. destruct (lookupZ_is_Some buffer' 2) as [c Hc2]; [rewrite G1, Hl; done|].
  exists c. split; [done|]. intros ->. destruct (Z.leb_spec 2 (lenZ s)) as [H|H].
  - destruct (s !! 2%nat) as [c|] eqn:Hs; [pose proof (G2 2%nat c Hs) as E; change (0 + Z.of_nat 2) with 2 in E; congruence|].
    apply lookup_ge_None in Hs. assert (lenZ s = 2) as E by (unfold lenZ in *; lia). rewrite E in G3.
    change (0 + 2) with 2 in G3. rewrite Hc2 in G3. done.
  - rewrite <- (G4 2) in Hc by lia. congruence.
Qed.

Lemma getpacket_accept s buffer rest : payload s buffer -> exists buffer',
  getpacket (Data 0 0) buffer (s ++ ch "#" :: digits s ++ rest) = Ok ([ch "+"], Some (0, buffer', rest)) /\
  holds buffer buffer' 0 s.
Proof.
  intros Hp. pose proof Hp as (Hs & Hn & Hl & _).
  destruct (getpacket_data s 0 0 buffer (digits s ++ rest) Hs ltac:(lia) ltac:(lia) Hl) as (buffer' & H & Hh).
  exists buffer'. split; [|done]. rewrite H. unfold digits. cbn [app getpacket].
  destruct (nibbles _ (checksum_byte s)) as (H1 & H2 & H3).
  destruct (hexchar_digit _ H1) as (_ & -> & _), (hexchar_digit _ H2) as (_ & -> & _). rewrite H3.
  change (foldl (fun sum c => wrap 8 (sum + c)) 0 s) with (checksum s). rewrite Z.eqb_refl. cbn [negb].
  destruct (holds_colon s buffer buffer' Hp Hh) as (c & -> & Hc). cbn [in_bounds mbind res_bind].
  by rewrite (proj2 (Z.eqb_neq _ _) Hc).
Qed.

Lemma getpacket_reject s hi lo buffer rest : Forall plain s -> lenZ s < buflen - 1 -> lenZ buffer = buflen ->
  wrap 8 (wrap 8 (Z.shiftl (char2hex hi) 4) + char2hex lo) <> checksum s -> exists buffer',
  getpacket (Data 0 0) buffer (s ++ ch "#" :: hi :: lo :: rest) = sending [ch "-"] (getpacket Hunt buffer' rest) /\
  holds buffer buffer' 0 s.
Proof.
  intros Hs Hn Hl Hsum. destruct (getpacket_data s 0 0 buffer (hi :: lo :: rest) Hs ltac:(lia) ltac:(lia) Hl) as (buffer' & H & Hh).
  exists buffer'. split; [|done]. rewrite H. cbn [getpacket].
  change (foldl (fun sum c => wrap 8 (sum + c)) 0 s) with (checksum s). by rewrite (proj2 (Z.eqb_neq _ _)) by congruence.
Qed.

Lemma putpacket_acks s nacks rest : Forall (fun c => c <> ch "+") nacks -> exists sent,
  frame s = Ok sent /\
  putpacket s (nacks ++ ch "+" :: rest) = Ok (concat (replicate (S (length nacks)) sent), Some rest).
Proof.
  intros Hn. exists ([ch "$"] ++ s ++ ch "#" :: digits s). split; [apply frame_Ok|].
  induction Hn as [|c nacks Hc Hn IH].
  - cbn [app putpacket]. rewrite frame_Ok. cbn [mbind res_bind]. rewrite Z.eqb_refl. cbn [length replicate concat]. by rewrite app_nil_r.
  - cbn [app putpacket] in *. rewrite frame_Ok. cbn [mbind res_bind]. rewrite (proj2 (Z.eqb_neq _ _) Hc), IH. done.
Qed.

(** ** Memory *)
Lemma hexToInt_number ds c rest : Forall hexdigit ds -> c = 0 \/ char2hex c < 0 ->
  hexToInt (ds ++ c :: rest) = Ok (lenZ ds, hex_value 0 ds, c :: rest).
Proof. intros Hds Hc. unfold hexToInt. by rewrite hexToInt_digits. Qed.

Definition number (ds : list Z) : Prop := ds <> [] /\ Forall hexdigit ds.

Lemma number_len ds : number ds -> (lenZ ds =? 0) = false.
Proof. intros [Hn _]. apply Z.eqb_neq. destruct ds; [done|]. rewrite lenZ_cons. pose proof (lenZ_nonneg ds). lia. Qed.

Lemma addr_length_numbers da dl c rest : number da -> number dl -> c = 0 \/ char2hex c < 0 ->
  addr_length (da ++ ch "," :: dl ++ c :: rest) = Ok (Some (hex_value 0 da, hex_value 0 dl, c :: rest)).
Proof.
  intros Ha Hl Hc. unfold addr_length. rewrite hexToInt_number; [|apply Ha|by right]. cbn [mbind res_bind next].
  rewrite (number_len _ Ha). cbn [mret res_ret mbind res_bind]. rewrite Z.eqb_refl, hexToInt_number; [|apply Hl|done].
  cbn [mbind res_bind]. by rewrite (number_len _ Hl).
Qed.

Section memory.
Context (cTID : Z) (writable : Z -> bool).

Definition storable (mem : gmap Z Z) (a : Z) : Prop := writable a = true /\ is_Some (mem !! a).

Fixpoint store (addr : Z) (bs : list Z) (mem : gmap Z Z) : gmap Z Z :=
  match bs with [] => mem | b :: bs => store (addr + 1)%w bs (<[addr := b]> mem) end.

Lemma set_char_Some a v mem : storable mem a -> set_char writable a v mem = Some (<[a := v]> mem).
Proof. intros [H1 H2]. unfold set_char. rewrite H1. by rewrite bool_decide_true. Qed.

Lemma set_char_None a v mem : ~ storable mem a -> set_char writable a v mem = None.
Proof.
  intros H. unfold set_char. destruct (writable a) eqn:E; [|done]. cbn. rewrite bool_decide_false; [done|].
  intros H2. by apply H.
Qed.

Lemma storable_dec mem a : storable mem a \/ ~ storable mem a.
Proof. unfold storable. destruct (writable a), (mem !! a); [left|right|right|right]; naive_solver. Qed.

Lemma storable_insert mem a v x : storable mem a -> storable (<[a := v]> mem) x <-> storable mem x.
Proof.
  intros [_ Ha]. unfold storable. destruct (decide (a = x)) as [->|]; [rewrite lookup_insert_eq; naive_solver|].
  by rewrite lookup_insert_ne.
Qed.

Lemma at_zero addr : is_word 64 addr -> wrap 64 (addr + Z.of_nat 0) = addr.
Proof. intros Ha. rewrite Z.add_0_r. by apply wrap_small. Qed.
Lemma at_succ addr i : wrap 64 (wrap 64 (addr + 1) + Z.of_nat i) = wrap 64 (addr + Z.of_nat (S i)).
Proof. unfold wrap. rewrite Zplus_mod_idemp_l. f_equal. lia. Qed.

Lemma hex2mem_at_hexs bs rest : Forall byte bs -> forall addr mem, is_word 64 addr -> exists k, (k <= length bs)%nat /\
  hex2mem_at writable (hexs bs ++ rest) addr (length bs) mem = Ok (store addr (take k bs) mem, bool_decide (k < length bs)%nat) /\
  (forall i, (i < k)%nat -> storable mem (wrap 64 (addr + Z.of_nat i))) /\
  ((k < length bs)%nat -> ~ storable mem (wrap 64 (addr + Z.of_nat k))).
Proof.
  induction 1 as [|b bs Hb Hbs IH]; intros addr mem Ha.
  - exists 0%nat. split; [done|]. split; [done|]. split; [lia|cbn; lia].
  - destruct (nibbles b Hb) as (H1 & H2 & H3).
    change (hexs (b :: bs) ++ rest) with (hexc (Z.shiftr b 4) :: hexc (b mod 16) :: (hexs bs ++ rest)).
    cbn [length hex2mem_at next mbind res_bind mret res_ret].
    destruct (hexchar_digit _ H1) as (_ & -> & _), (hexchar_digit _ H2) as (_ & -> & _). rewrite H3.
    destruct (storable_dec mem addr) as [Hs|Hs].
    + rewrite (set_char_Some _ _ _ Hs).
      destruct (IH (addr + 1)%w (<[addr := b]> mem) ltac:(by apply wrap_bounds)) as (k & Hk & Hx & Hall & Hno).
      exists (S k). split; [lia|]. split; [|split].
      * rewrite Hx. cbn [take store]. do 2 f_equal. apply bool_decide_ext. lia.
      * intros [|i] Hi; [by rewrite at_zero|]. rewrite <- at_succ. apply (storable_insert mem addr b _ Hs), Hall. lia.
      * intros Hlt Hst. rewrite <- at_succ in Hst. apply (Hno ltac:(lia)). by apply (storable_insert mem addr b _ Hs).
    + rewrite (set_char_None _ _ _ Hs). exists 0%nat. split; [lia|]. split; [done|]. split; [lia|]. by rewrite at_zero.
Qed.

Lemma store_other bs : forall addr mem a, is_word 64 addr -> (forall i, (i < length bs)%nat -> a <> wrap 64 (addr + Z.of_nat i)) ->
  store addr bs mem !! a = mem !! a.
Proof.
  induction bs as [|b bs IH]; intros addr mem a Ha Hne; [done|]. cbn [store length] in *. rewrite IH.
  - apply lookup_insert_ne. intros ->. apply (Hne 0%nat); [lia|]. by rewrite at_zero.
  - by apply wrap_bounds.
  - intros i Hi. rewrite at_succ. apply Hne. lia.
Qed.

Lemma store_here bs : forall addr mem i b, is_word 64 addr -> (Z.of_nat (length bs) < 2 ^ 63) -> bs !! i = Some b ->
  store addr bs mem !! wrap 64 (addr + Z.of_nat i) = Some b.
Proof.
  induction bs as [|b0 bs IH]; intros addr mem i b Ha Hn Hi; [done|]. cbn [store length] in *. destruct i as [|i]; cbn in Hi.
  - injection Hi as ->. rewrite at_zero, store_other; [by rewrite lookup_insert_eq|by apply wrap_bounds| |done].
    intros i Hi E. rewrite at_succ in E. unfold is_word, wrap in *.
    pose proof (Z.div_mod (addr + Z.of_nat (S i)) (2 ^ 64) ltac:(lia)). nia.
  - rewrite <- at_succ. apply IH; [by apply wrap_bounds|lia|done].
Qed.

Lemma hex_value_word ds : Forall hexdigit ds -> is_word 64 (hex_value 0 ds).
Proof.
  unfold hex_value. assert (forall v, is_word 64 v -> Forall hexdigit ds -> is_word 64 (foldl (fun v c => Z.lor (Z.shiftl v 4 mod 2 ^ 64) (char2hex c)) v ds)) as H;
    [|by apply H].
  induction ds as [|d ds IH]; intros v Hv Hds; [done|]. apply Forall_cons in Hds as [[H1 H2] Hds]. cbn [foldl]. apply IH; [|done].
  pose proof (Z.mod_pos_bound (Z.shiftl v 4) (2 ^ 64) ltac:(lia)).
  pose proof (char2hex_bound d).
  apply word_of_testbit; [lia|by apply Z.lor_nonneg; lia|]. intros i Hi. rewrite Z.lor_spec.
  rewrite (word_testbit_high 64 _ i), (word_testbit_high 4 (char2hex d) i); [done|unfold is_word; lia|lia|unfold is_word; lia|done].
Qed.

(** reading: the bytes, or a fault *)
Lemma bytes_from_cases addr n mem : map_Forall (fun _ b => byte b) mem -> 0 <= n ->
  (exists bs, Forall byte bs /\ bytes_from addr n mem = Some <$> bs /\ lenZ bs = n /\
     forall i b, bs !! i = Some b -> mem !! (addr + Z.of_nat i)%w = Some b) \/
  (exists bs i rest, Forall byte bs /\ bytes_from addr n mem = (Some <$> bs) ++ None :: rest /\ lenZ bs < n /\
     0 <= i < n /\ mem !! (addr + i)%w = None).
Proof.
  intros Hm. unfold bytes_from. revert n. apply natlike_ind.
  - left. exists []. by repeat split.
  - intros n Hn IH. rewrite <- Z.add_1_r, seqZ_app, fmap_app, (seqZ_cons (0 + n)), (seqZ_nil _ (Z.pred 1)) by lia.
    cbn [fmap list_fmap]. rewrite Z.add_0_l.
    destruct IH as [(bs & Hbs & E & Hl & Hat)|(bs & i & rest & Hbs & E & Hl & Hi & Hn')].
    + rewrite E. destruct (mem !! (addr + n)%w) as [b|] eqn:Hb.
      * left. exists (bs ++ [b]). rewrite fmap_app, lenZ_app. split; [|split; [done|split]].
        -- apply Forall_app. split; [done|]. constructor; [by apply (Hm _ _ Hb)|constructor].
        -- rewrite Hl. unfold lenZ. cbn. lia.
        -- intros i c Hi. apply lookup_app_Some in Hi as [Hi|[Hge Hi]]; [by apply Hat|].
           destruct (i - length bs)%nat eqn:Ei; [|done]. injection Hi as <-. unfold lenZ in Hl.
           by replace (Z.of_nat i) with n by lia.
      * right. exists bs, n, []. repeat split; try done; lia.
    + right. exists bs, i, (rest ++ [mem !! (addr + n)%w]). rewrite E, <- app_assoc. cbn. repeat split; try done; lia.
Qed.
End memory.

Lemma bytes_from_exact addr bs mem : (forall i b, bs !! i = Some b -> mem !! (addr + Z.of_nat i)%w = Some b) ->
  bytes_from addr (lenZ bs) mem = Some <$> bs.
Proof.
  intros H. unfold bytes_from. apply list_eq. intros i. rewrite !list_lookup_fmap. destruct (bs !! i) as [b|] eqn:Hi.
  - pose proof (lookup_lt_Some _ _ _ Hi). rewrite lookup_seqZ_lt by (unfold lenZ; lia). rewrite Z.add_0_l. cbn. f_equal. by apply H.
  - apply lookup_ge_None in Hi. by rewrite lookup_seqZ_ge by (unfold lenZ; lia).
Qed.

Lemma hexs_lenZ bs : lenZ (hexs bs) = 2 * lenZ bs.
Proof. unfold lenZ. rewrite hexs_length. lia. Qed.

(** a reply that is not empty is sent *)
Lemma reply_sent out s : out <> [] -> reply (mret (out, s)) = mret ([out], s).
Proof. by destruct out. Qed.

Definition m_packet (da dl tail : list Z) : list Z := str "m" ++ da ++ str "," ++ dl ++ 0 :: tail.
Definition M_packet (da dl bs tail : list Z) : list Z := str "M" ++ da ++ str "," ++ dl ++ str ":" ++ hexs bs ++ 0 :: tail.

Section commands.
Context (cTID : Z) (writable : Z -> bool) (sigval : Z).

Lemma dispatch_m da dl tail s : number da -> number dl -> handlePacket cTID writable sigval (m_packet da dl tail) s =
  ('(out, s) ← reply (
    '(text, fault) ← mem2hex (bytes_from (hex_value 0 da) (to_signed 32 (hex_value 0 dl)) (memory s));
    _ ← in_bounds (if lenZ text <? 4096 then Some tt else None);
    mret (if (fault : bool) then E01 else text, with_fault fault s)); mret (out, with_Htid (-2) s)).
Proof.
  intros Ha Hl. change (handlePacket cTID writable sigval (m_packet da dl tail) s) with
    ('(out, s) ← reply (handleReadMemory (da ++ ch "," :: dl ++ 0 :: tail) s); mret (out, with_Htid (-2) s)).
  unfold handleReadMemory. rewrite addr_length_numbers by (auto; by left). done.
Qed.

Lemma dispatch_M da dl bs tail s : number da -> number dl -> handlePacket cTID writable sigval (M_packet da dl bs tail) s =
  ('(out, s) ← reply (
    '(mem, fault) ← hex2mem_at writable (hexs bs ++ 0 :: tail) (hex_value 0 da) (Z.to_nat (to_signed 32 (hex_value 0 dl))) (memory s);
    mret (if (fault : bool) then E01 else OK_, with_fault fault (with_memory mem s))); mret (out, with_Htid (-2) s)).
Proof.
  intros Ha Hl. change (handlePacket cTID writable sigval (M_packet da dl bs tail) s) with
    ('(out, s) ← reply (handleWriteMemory writable (da ++ ch "," :: dl ++ ch ":" :: hexs bs ++ 0 :: tail) s); mret (out, with_Htid (-2) s)).
  unfold handleWriteMemory. rewrite addr_length_numbers by (auto; by right). done.
Qed.

(** the length of the buffers keeps the count of a command small *)
Lemma small_count n : 0 <= n < 2 ^ 31 -> to_signed 32 n = n.
Proof.
  intros H. unfold to_signed. rewrite wrap_small by lia. by rewrite (proj2 (Z.ltb_lt _ _)) by (change (2 ^ (32 - 1)) with (2 ^ 31); lia).
Qed.

Lemma read_bytes da dl bs tail s : number da -> number dl -> Forall byte bs -> hex_value 0 dl = lenZ bs -> 0 < lenZ bs < 2048 ->
  bytes_from (hex_value 0 da) (lenZ bs) (memory s) = Some <$> bs ->
  handlePacket cTID writable sigval (m_packet da dl tail) s = Ok ([hexs bs], with_Htid (-2) (with_fault false s)).
Proof.
  intros Ha Hl Hbs Hn Hb Hfrom. rewrite dispatch_m, Hn, small_count, Hfrom, mem2hex_bytes by (done || lia).
  cbn [mbind res_bind]. rewrite (proj2 (Z.ltb_lt _ _)) by (rewrite hexs_lenZ; lia). cbn [in_bounds mbind res_bind].
  rewrite reply_sent; [done|]. intros E. pose proof (hexs_lenZ bs) as Hh. rewrite E in Hh. change (lenZ (@nil Z)) with 0 in Hh. lia.
Qed.
End commands.

(** ** Registers *)
Lemma le_split_length n : forall x, length (le_split n x) = n.
Proof. induction n as [|n IH]; intros x; [done|]. cbn. by rewrite IH. Qed.

Lemma le_split_bytes n : forall x, Forall byte (le_split n x).
Proof. induction n as [|n IH]; intros x; constructor; [apply Z.mod_pos_bound; lia|apply IH]. Qed.

Lemma le_split_combine bs : Forall byte bs -> le_split (length bs) (le_combine bs) = bs.
Proof.
  unfold byte. induction 1 as [|b bs Hb Hbs IH]; [done|]. cbn [length le_combine le_split].
  rewrite Z.shiftr_div_pow2 by lia. change (2 ^ 8) with 256.
  rewrite (Z.mul_comm 256), Z.mod_add, Z.div_add, Z.mod_small, Z.div_small by lia. by rewrite Z.add_0_l, IH.
Qed.

Lemma le_combine_split n : forall x, 0 <= x < 256 ^ Z.of_nat n -> le_combine (le_split n x) = x.
Proof.
  induction n as [|n IH]; intros x Hx; [cbn in *; lia|]. rewrite Nat2Z.inj_succ, Z.pow_succ_r in Hx by lia. cbn [le_split le_combine].
  rewrite Z.shiftr_div_pow2 by lia. change (2 ^ 8) with 256. rewrite IH.
  - pose proof (Z.div_mod x 256 ltac:(lia)). lia.
  - split; [apply Z.div_pos; lia|]. apply Z.div_lt_upper_bound; lia.
Qed.

Lemma words_of_split n k : forall bs, Forall byte bs -> length bs = (n * k)%nat -> (words_of n k bs ≫= le_split n) = bs.
Proof.
  induction k as [|k IH]; intros bs Hbs Hl.
  - rewrite Nat.mul_0_r in Hl. by destruct bs.
  - cbn [words_of]. change ((le_combine (take n bs) :: words_of n k (drop n bs)) ≫= le_split n) with
      (le_split n (le_combine (take n bs)) ++ (words_of n k (drop n bs) ≫= le_split n)).
    rewrite IH; [|by apply Forall_drop|rewrite length_drop; lia].
    pose proof (le_split_combine (take n bs) ltac:(by apply Forall_take)) as Ht.
    rewrite length_take, Nat.min_l in Ht by lia. rewrite Ht. apply take_drop.
Qed.

Lemma set_registers_bytes bs c : Forall byte bs -> length bs = 164%nat -> registers (set_registers bs c) = bs.
Proof.
  intros Hbs Hl. unfold registers, set_registers. cbn [reg64buf reg32buf].
  assert (forall k, words_of 8 k bs = words_of 8 k (take (8 * k) bs)) as Htake.
  { intros k. revert bs Hbs Hl. assert (forall k bs, words_of 8 k bs = words_of 8 k (take (8 * k) bs)) as H; [|intros; apply H].
    clear. induction k as [|k IH]; intros bs; [done|]. cbn [words_of]. rewrite take_take.
    replace (8 `min` (8 * S k))%nat with 8%nat by lia. f_equal. rewrite IH, (IH (drop 8 (take _ bs))).
    f_equal. rewrite skipn_firstn_comm, take_take. f_equal. lia. }
  rewrite Htake, !words_of_split; [by apply (take_drop 136 bs)| | | |]; try (by apply Forall_drop || by apply Forall_take).
  - rewrite length_drop, Hl. done.
  - rewrite length_take, Hl. done.
Qed.

Lemma registers_bytes c : Forall byte (registers c).
Proof.
  unfold registers. apply Forall_app. split; apply Forall_bind, Forall_true; intros; apply le_split_bytes.
Qed.

(** what [G] stores, [g] reads back; other processors keep their registers *)
Lemma gdb_registers cTID writable sigval s c bs tail : Htid s = -2 -> lookupZ (cpus s) (cTID - 1) = Some c ->
  Forall byte bs -> length bs = 164%nat ->
  let ask := handlePacket cTID writable sigval in
  (exists s', ask (str "g" ++ 0 :: tail) s = Ok (match registers c with [] => [] | _ => [hexs (registers c)] end, s') /\ cpus s' = cpus s) /\
  exists s', ask (str "G" ++ hexs bs ++ 0 :: tail) s = Ok ([OK_], s') /\ memory s' = memory s /\
    (exists s'', ask (str "g" ++ 0 :: tail) s' = Ok ([hexs bs], s'')) /\
    forall i, i <> cTID - 1 -> lookupZ (cpus s') i = lookupZ (cpus s) i.
Proof.
  intros Ht Hc Hbs Hl ask.
  assert (forall s c, Htid s = -2 -> lookupZ (cpus s) (cTID - 1) = Some c ->
    ask (str "g" ++ 0 :: tail) s = Ok (match registers c with [] => [] | _ => [hexs (registers c)] end, with_Htid (-2) (with_fault false s))) as Hg.
  { intros s0 c0 Ht0 Hc0. change (ask (str "g" ++ 0 :: tail) s0) with
      ('(out, s) ← reply (handleReadRegisters cTID s0); mret (out, with_Htid (-2) s)).
    unfold handleReadRegisters, selected, getCPU. rewrite Ht0, Z.eqb_refl. cbn [negb]. rewrite Hc0. cbn [in_bounds mbind res_bind].
    rewrite hex_of_bytes by apply registers_bytes. cbn [mbind res_bind]. by destruct (registers c0). }
  split; [eexists; split; [by apply Hg|done]|].
  set (s' := with_Htid (-2) (with_fault false (setCPU (cTID - 1) (set_registers bs c) s))). exists s'.
  pose proof (lookupZ_Some _ _ _ Hc) as Hb. split; [|split; [done|split]].
  - change (ask (str "G" ++ hexs bs ++ 0 :: tail) s) with
      ('(out, s) ← reply (handleWriteRegisters cTID (hexs bs ++ 0 :: tail) s); mret (out, with_Htid (-2) s)).
    unfold handleWriteRegisters, selected, getCPU. rewrite Ht, Z.eqb_refl. cbn [negb]. rewrite Hc. cbn [in_bounds mbind res_bind].
    by rewrite <- Hl, hex2mem_hexs.
  - eexists. rewrite (Hg s' (set_registers bs c) eq_refl); [|by apply lookupZ_insertZ_eq].
    rewrite set_registers_bytes by done. by destruct bs.
  - intros i Hi. by apply lookupZ_insertZ_ne.
Qed.

(** ** Breakpoints *)
Definition Z_packet (set : bool) (da tail : list Z) : list Z := str (if set then "Z0," else "z0,") ++ da ++ str ",1" ++ 0 :: tail.

Lemma dispatch_Z cTID writable sigval set da tail s : number da ->
  handlePacket cTID writable sigval (Z_packet set da tail) s =
  ('(out, s) ← reply ((if set : bool then handleSetSoftBreak writable else handleRemoveSoftBreak writable)
     (da ++ ch "," :: [ch "1"] ++ 0 :: tail) s); mret (out, with_Htid (-2) s)).
Proof. intros Ha. by destruct set. Qed.

Lemma one_number : number [ch "1"].
Proof. split; [done|]. constructor; [|constructor]. by split. Qed.

(** exactly the trap flag changes, as the command wants it *)
Lemma resume_eflags_spec v c e : lookupZ (reg32buf c) EFLAGS = Some e -> is_word 32 e -> exists c' e',
  resume_eflags v c = Ok c' /\ lookupZ (reg32buf c') EFLAGS = Some e' /\ reg64buf c' = reg64buf c /\
  (forall i, i <> EFLAGS -> lookupZ (reg32buf c') i = lookupZ (reg32buf c) i) /\
  forall i, 0 <= i -> Z.testbit e' i = if i =? 8 then action v =? ch "s" else Z.testbit e i.
Proof.
  intros He Hw. unfold resume_eflags. rewrite He. cbn [in_bounds mbind res_bind]. eexists _, _. split; [reflexivity|].
  pose proof (lookupZ_Some _ _ _ He). cbn [reg32buf reg64buf]. rewrite lookupZ_insertZ_eq by done. split; [done|]. split; [done|].
  split; [intros i Hi; by apply lookupZ_insertZ_ne|]. intros i Hi.
  assert (forall i, 0 <= i -> Z.testbit (2 ^ 32 - 1 - TF) i = (i <? 32) && negb (i =? 8)) as Hm.
  { intros j Hj. destruct (Z.ltb_spec j 32).
    - assert (forallb (fun j => Bool.eqb (Z.testbit (2 ^ 32 - 1 - TF) j) (negb (j =? 8))) (seqZ 0 32) = true) as Hall by (vm_compute; reflexivity).
      apply Bool.eqb_prop, (proj1 (forallb_forall _ _) Hall). rewrite <- list_elem_of_In. apply elem_of_seqZ. lia.
    - apply (word_testbit_high 32); [done|lia]. }
  assert (Z.testbit (Z.land e (2 ^ 32 - 1 - TF)) i = if i =? 8 then false else Z.testbit e i) as Hl.
  { rewrite Z.land_spec, Hm by done. destruct (Z.eqb_spec i 8) as [->|]; [by rewrite andb_comm|]. destruct (Z.ltb_spec i 32); [by rewrite andb_true_r|].
    rewrite andb_false_r. symmetry. by apply (word_testbit_high 32). }
  destruct (action v =? ch "s"); [|exact Hl]. rewrite Z.lor_spec, Hl. change TF with (2 ^ 8). rewrite pow2_testbit by lia.
  destruct (Z.eqb_spec i 8); [done|]. by rewrite orb_false_r.
Qed.

(** ** Requests that go wrong *)

(** four bytes at 0x1000, the last one read-only, and two processors *)
Definition stub0 : stub :=
  mkStub [mkCpu (replicate 17 0) (replicate 7 0) Stopped; mkCpu (replicate 17 0) (replicate 7 0) Stopped]
    (<[0x1000 := 0x55]> (<[0x1001 := 0x48]> (<[0x1002 := 0x89]> (<[0x1003 := 0xe5]> ∅)))) ∅ 0 false (-2) (mkVCont 0 0 0) false.
Definition rw (a : Z) : bool := negb (a =? 0x1003).
Definition ask0 (p : string) (s : stub) : res (list (list Z) * stub) := handlePacket 1 rw 5 (str p ++ [0]) s.

(** a symbol that gdb does not know is asked for again, for ever *)
Lemma unknown_symbol_loops : exists s text, ask0 "qSymbol::5f556e77696e645f4465627567486f6f6b" stub0 = Ok ([str "qSymbol:" ++ text], s) /\
  ask0 "qSymbol::" stub0 = Ok ([str "qSymbol:" ++ text], s).
Proof. eexists _, _. by split; vm_compute. Qed.

(** [p], as gdb sends it, is always refused *)
Lemma read_register_refused : exists s, ask0 "p10" stub0 = Ok ([E01], s).
Proof. eexists. vm_compute. reflexivity. Qed.

(** packets that must be answered with an empty packet are not answered *)
Lemma no_empty_reply : exists s, ask0 "vMustReplyEmpty" stub0 = Ok ([], s).
Proof. eexists. vm_compute. reflexivity. Qed.

(** a breakpoint that is set twice is never taken out *)
Lemma breakpoint_set_twice : exists s1 s2 s3, ask0 "Z0,1000,1" stub0 = Ok ([OK_], s1) /\ ask0 "Z0,1000,1" s1 = Ok ([OK_], s2) /\
  ask0 "z0,1000,1" s2 = Ok ([OK_], s3) /\ memory s3 !! 0x1000 = Some 0xcc.
Proof. eexists _, _, _. split; [vm_compute; reflexivity|]. split; [vm_compute; reflexivity|]. by split; [vm_compute; reflexivity|]. Qed.

(** after a read that faults, the fault handler of the stub stays active when the kernel goes on *)
Lemma fault_handler_left_on : exists s1 s2, ask0 "m2000,4" stub0 = Ok ([E01], s1) /\ ask0 "vCont;c" s1 = Ok ([], s2) /\
  action (vCont s2) = ch "c" /\ gdbFaultHandlerEnabled s2 = true.
Proof. eexists _, _. split; [vm_compute; reflexivity|]. by split; [vm_compute; reflexivity|]. Qed.

(** the thread of a query is not checked *)
Lemma thread_info_out_of_bounds : ask0 "qThreadExtraInfo,7" stub0 = Err OutOfBounds.
Proof. vm_compute. reflexivity. Qed.

(** a request for more than 2047 bytes overflows the reply buffer *)
Lemma read_memory_overflow mem : (forall i, 0 <= i < 2048 -> mem !! i = Some 0) ->
  ask0 "m0,800" (with_memory mem stub0) = Err OutOfBounds.
Proof.
  intros Hm. change (ask0 "m0,800" (with_memory mem stub0)) with
    (handlePacket 1 rw 5 (m_packet (str "0") (str "800") []) (with_memory mem stub0)).
  assert (number (str "0") /\ number (str "800")) as [H0 H8] by (repeat split; try done; repeat constructor; done).
  rewrite dispatch_m by done. change (hex_value 0 (str "0")) with 0. change (hex_value 0 (str "800")) with 2048.
  change (to_signed 32 2048) with 2048. change (memory (with_memory mem stub0)) with mem.
  assert (bytes_from 0 (lenZ (replicate 2048 0)) mem = Some <$> replicate 2048 0) as Hb.
  { apply bytes_from_exact. intros i b Hi. apply lookup_replicate in Hi as [-> Hi]. rewrite Z.add_0_l, wrap_small by lia.
    apply Hm. lia. }
  change (lenZ (replicate 2048 0)) with 2048 in Hb. rewrite Hb, mem2hex_bytes by (by apply Forall_replicate).
  cbn [mbind res_bind]. by rewrite (proj2 (Z.ltb_ge _ _)) by (rewrite hexs_lenZ; done).
Qed.

(** the [:] of an older packet is taken for one of a packet that is shorter *)
Lemma stale_sequence_number : exists b1 b2 rest,
  getpacket Hunt (replicate 4096 0) (str "$ab:c#60$g#67") = Ok (str "+ab", Some (3, b1, str "$g#67")) /\
  getpacket Hunt b1 (str "$g#67") = Ok ([ch "+"; ch "g"; 0], Some (3, b2, rest)) /\ lookupZ b2 3 = Some (ch "c").
Proof. eexists _, _, _. split; [vm_compute; reflexivity|]. by split; [vm_compute; reflexivity|]. Qed.

(** * Properties *)

(** C32. Packets go through: whatever bytes came before it, the frame that
    [putpacket] makes of a payload is received by [getpacket], which acknowledges
    it and returns the payload, 0-terminated; a packet whose checksum does not match is answered
    with [-] and thrown away; and [putpacket] sends its frame again until
    it is acknowledged.  (A payload has no [$], [#] or 0, fits in the buffer,
    and neither has the [:] of a sequence number at index 2 nor lets an older one show there.) *)
Theorem gdb_packets (s buffer : list Z) : payload s buffer ->
  exists f, frame s = Ok f /\
  (forall junk rest, Forall (fun c => c <> ch "$") junk -> exists buffer',
    getpacket Hunt buffer (junk ++ f ++ rest) = Ok ([ch "+"], Some (0, buffer', rest)) /\
    lenZ buffer' = buflen /\ take (S (length s)) buffer' = s ++ [0]) /\
  (forall junk hi lo rest, Forall (fun c => c <> ch "$") junk ->
    wrap 8 (wrap 8 (Z.shiftl (char2hex hi) 4) + char2hex lo) <> checksum s -> exists buffer', lenZ buffer' = buflen /\
    getpacket Hunt buffer (junk ++ ch "$" :: s ++ ch "#" :: hi :: lo :: rest) = sending [ch "-"] (getpacket Hunt buffer' rest)) /\
  (forall nacks rest, Forall (fun c => c <> ch "+") nacks ->
    putpacket s (nacks ++ ch "+" :: rest) = Ok (concat (replicate (S (length nacks)) f), Some rest)).
Proof.
  intros Hp. pose proof Hp as (Hs & Hn & Hl & _). exists ([ch "$"] ++ s ++ ch "#" :: digits s).
  split; [apply frame_Ok|]. split; [|split].
  - intros junk rest Hj. destruct (getpacket_accept s buffer rest Hp) as (buffer' & H & Hh). exists buffer'.
    replace (([ch "$"] ++ s ++ ch "#" :: digits s) ++ rest) with (ch "$" :: s ++ ch "#" :: digits s ++ rest)
      by (cbn [app]; by rewrite <- app_assoc).
    rewrite getpacket_junk by done. split; [exact H|].
    split; [by rewrite (ho_len _ _ _ _ Hh)|by eapply holds_take].
  - intros junk hi lo rest Hj Hsum. destruct (getpacket_reject s hi lo buffer rest Hs Hn Hl Hsum) as (buffer' & H & Hh).
    exists buffer'. split; [by rewrite (ho_len _ _ _ _ Hh)|]. by rewrite getpacket_junk.
  - intros nacks rest Hna. destruct (putpacket_acks s nacks rest Hna) as (sent & Hf & H). rewrite frame_Ok in Hf.
    injection Hf as <-. exact H.
Qed.

(** The memory commands, for an address and a length in hexadecimal: [m]
    replies with the bytes of memory, or with an error if one of them cannot
    be read, and changes nothing; [M] stores its bytes in order up to the first that
    cannot be stored, touches nothing else, and replies [OK] exactly when it
    stored them all, in which case [m] then reads them back. *)
Theorem gdb_memory (cTID : Z) (writable : Z -> bool) (sigval : Z) (s : stub) (da dl bs tail : list Z) :
  number da -> number dl -> Forall byte bs -> hex_value 0 dl = lenZ bs -> 0 < lenZ bs < 2048 ->
  map_Forall (fun _ b => byte b) (memory s) ->
  let at_ i := (hex_value 0 da + Z.of_nat i)%w in
  let ask := handlePacket cTID writable sigval in
  (exists out s', ask (m_packet da dl tail) s = Ok ([out], s') /\ memory s' = memory s /\
    ((out = E01 /\ gdbFaultHandlerEnabled s' = true /\ exists i, (i < length bs)%nat /\ memory s !! at_ i = None) \/
     (exists bs', out = hexs bs' /\ gdbFaultHandlerEnabled s' = false /\ length bs' = length bs /\
       forall i b, bs' !! i = Some b -> memory s !! at_ i = Some b))) /\
  (exists k s', (k <= length bs)%nat /\
    ask (M_packet da dl bs tail) s = Ok ([if bool_decide (k < length bs)%nat then E01 else OK_], s') /\
    (forall i, (i < k)%nat -> storable writable (memory s) (at_ i)) /\
    ((k < length bs)%nat -> ~ storable writable (memory s) (at_ k)) /\
    (forall i b, (i < k)%nat -> bs !! i = Some b -> memory s' !! at_ i = Some b) /\
    (forall a, (forall i, (i < k)%nat -> a <> at_ i) -> memory s' !! a = memory s !! a) /\
    (k = length bs -> exists s'', ask (m_packet da dl tail) s' = Ok ([hexs bs], s''))).
Proof.
  intros Ha Hl Hbs Hn Hb Hm at_ ask. pose proof (hex_value_word da (proj2 Ha)) as Haddr. split.
  - destruct (bytes_from_cases (hex_value 0 da) (lenZ bs) (memory s) Hm ltac:(lia))
      as [(bs' & Hbs' & E & Hl' & Hat)|(bs' & i & rest & Hbs' & E & Hl' & Hi & Hnone)].
    + exists (hexs bs'), (with_Htid (-2) (with_fault false s)). split; [|split; [done|]].
      * apply read_bytes; try done; rewrite Hl'; done.
      * right. exists bs'. repeat split; try done. unfold lenZ in Hl'. lia.
    + exists E01, (with_Htid (-2) (with_fault true s)). split; [|split; [done|]].
      * unfold ask. rewrite dispatch_m, Hn, small_count, E, mem2hex_cut by (done || lia). cbn [mbind res_bind].
        by rewrite (proj2 (Z.ltb_lt _ _)) by (rewrite hexs_lenZ; lia).
      * left. split; [done|]. split; [done|]. exists (Z.to_nat i). unfold lenZ in Hi. split; [lia|]. unfold at_. by rewrite Z2Nat.id by lia.
  - destruct (hex2mem_at_hexs writable bs (0 :: tail) Hbs _ (memory s) Haddr) as (k & Hk & Hx & Hall & Hno).
    assert (Z.of_nat (length (take k bs)) < 2 ^ 63) as Hsmall by (rewrite length_take; unfold lenZ in Hb; lia).
    set (s' := with_Htid (-2) (with_fault (bool_decide (k < length bs)%nat) (with_memory (store (hex_value 0 da) (take k bs) (memory s)) s))).
    assert (forall i b, (i < k)%nat -> bs !! i = Some b -> memory s' !! at_ i = Some b) as Hhere.
    { intros i b Hi Hib. cbn. apply store_here; [done|done|]. by rewrite lookup_take_lt. }
    exists k, s'. split; [done|]. split; [|split; [done|split; [done|split; [done|split]]]].
    + unfold ask. rewrite dispatch_M, Hn, small_count by (done || lia). unfold lenZ. rewrite Nat2Z.id, Hx. cbn [mbind res_bind].
      by destruct (bool_decide _).
    + intros a Hne. cbn. apply store_other; [done|]. intros i Hi. rewrite length_take in Hi. apply Hne. lia.
    + intros ->. eexists. apply read_bytes; try done. apply bytes_from_exact. intros i b Hi. apply Hhere; [|done].
      by eapply lookup_lt_Some.
Qed.

(** A software breakpoint: [Z0] saves the byte at the address and puts
    [0xcc] there, [z0] puts the saved byte back, so that setting a breakpoint and removing
    it leaves memory as it was, whatever happened to other addresses
    in between; a breakpoint at an address that cannot be read or written, or the
    removal of one that was never set, is answered with an error and changes no memory. *)
Theorem gdb_breakpoints (cTID : Z) (writable : Z -> bool) (sigval : Z) (s : stub) (da tail : list Z) : number da ->
  let addr := hex_value 0 da in
  let ask set := handlePacket cTID writable sigval (Z_packet set da tail) in
  (storable writable (memory s) addr -> exists op s1, memory s !! addr = Some op /\ ask true s = Ok ([OK_], s1) /\
    memory s1 = <[addr := 0xcc]> (memory s) /\ bpMap s1 = <[addr := op]> (bpMap s) /\
    forall s2, bpMap s2 = bpMap s1 -> storable writable (memory s2) addr ->
      exists s3, ask false s2 = Ok ([OK_], s3) /\ memory s3 = <[addr := op]> (memory s2)) /\
  (~ storable writable (memory s) addr -> exists s1, ask true s = Ok ([E01], s1) /\ memory s1 = memory s) /\
  (bpMap s !! addr = None -> exists s1, ask false s = Ok ([E01], s1) /\ memory s1 = memory s /\ bpMap s1 = bpMap s).
Proof.
  intros Ha addr ask.
  assert (addr_length (da ++ ch "," :: [ch "1"] ++ 0 :: tail) = Ok (Some (addr, 1, 0 :: tail))) as Hparse.
  { rewrite (addr_length_numbers da [ch "1"] 0 tail Ha one_number) by (by left). done. }
  split; [|split].
  - intros Hst. pose proof Hst as [_ [op Hop]]. exists op. unfold ask. rewrite dispatch_Z by done.
    unfold handleSetSoftBreak. rewrite Hparse. cbn [mbind res_bind].
    change (memory (with_fault true s)) with (memory s). rewrite Hop.
    change (kassert (to_signed 64 1 =? 1)) with (Ok tt). cbn [mbind res_bind].
    change (memory (with_bpMap _ _)) with (memory s). rewrite (set_char_Some _ _ _ _ Hst).
    eexists. split; [done|]. split; [reflexivity|]. split; [by destruct (addr =? _)|].
    match goal with |- bpMap ?s1 = _ /\ _ => assert (bpMap s1 = <[addr := op]> (bpMap s)) as Hb1 by (by destruct (addr =? _)) end.
    split; [exact Hb1|]. intros s2 Hbp Hst2. unfold ask. rewrite dispatch_Z by done. unfold handleRemoveSoftBreak. rewrite Hparse. cbn [mbind res_bind].
    assert (bpMap s2 !! addr = Some op) as -> by (rewrite Hbp, Hb1; by rewrite lookup_insert_eq).
    change (memory (with_fault true s2)) with (memory s2). rewrite (set_char_Some _ _ _ _ Hst2).
    eexists. split; [reflexivity|]. match goal with |- context [if ?b then _ else _] => by destruct b end.
  - intros Hst. unfold ask. rewrite dispatch_Z by done. unfold handleSetSoftBreak. rewrite Hparse. cbn [mbind res_bind].
    change (memory (with_fault true s)) with (memory s). destruct (memory s !! addr); [|by eexists].
    change (kassert (to_signed 64 1 =? 1)) with (Ok tt). cbn [mbind res_bind].
    change (memory (with_bpMap _ _)) with (memory s). rewrite (set_char_None _ _ _ _ Hst). by eexists.
  - intros Hn. unfold ask. rewrite dispatch_Z by done. unfold handleRemoveSoftBreak. rewrite Hparse. cbn [mbind res_bind].
    rewrite Hn. by eexists.
Qed.

Lemma gdb_packets_witness : payload (str "m1000,4") (replicate 4096 0) /\ exists f, frame (str "m1000,4") = Ok f /\ f = str "$m1000,4#8e" /\
  putpacket (str "m1000,4") (str "-+") = Ok (f ++ f ++ [], Some []).
Proof.
  assert (payload (str "m1000,4") (replicate 4096 0)) as Hp.
  { split; [|split; [done|split; [done|done]]]. apply Forall_forall. intros c Hc.
    assert (forallb (fun c => bool_decide (0 < c < 256 /\ c <> ch "$" /\ c <> ch "#")) (str "m1000,4") = true) as H by (vm_compute; reflexivity).
    apply (bool_decide_eq_true_1 _ (proj1 (forallb_forall _ _) H c (proj1 (list_elem_of_In _ _) Hc))). }
  split; [exact Hp|]. destruct (gdb_packets _ _ Hp) as (f & Hf & _ & _ & Hput). exists f. split; [exact Hf|]. split.
  - vm_compute in Hf. by injection Hf as <-.
  - apply (Hput (str "-") []). constructor; [done|constructor].
Defined.

Lemma gdb_memory_witness : exists k s', (k <= 2)%nat /\
  handlePacket 1 rw 5 (M_packet (str "1000") (str "2") [1; 2] []) stub0 = Ok ([if bool_decide (k < 2)%nat then E01 else OK_], s').
Proof.
  assert (number (str "1000") /\ number (str "2")) as [H1 H2] by (repeat split; try done; repeat constructor; done).
  assert (Forall byte [1; 2]) as Hb by (constructor; [done|constructor; [done|constructor]]).
  assert (map_Forall (fun _ b => byte b) (memory stub0)) as Hm.
  { intros a b Hab. cbn in Hab. rewrite !lookup_insert_Some in Hab. unfold byte. naive_solver lia. }
  destruct (gdb_memory 1 rw 5 stub0 (str "1000") (str "2") [1; 2] [] H1 H2 Hb eq_refl ltac:(done) Hm) as (_ & k & s' & Hk & Hs & _).
  exists k, s'. by split.
Defined.

Lemma gdb_breakpoints_witness : exists op s1, memory stub0 !! 0x1000 = Some op /\
  handlePacket 1 rw 5 (Z_packet true (str "1000") []) stub0 = Ok ([OK_], s1).
Proof.
  assert (number (str "1000")) as H1 by (split; [done|repeat constructor; done]).
  destruct (gdb_breakpoints 1 rw 5 stub0 (str "1000") [] H1) as [H _].
  destruct H as (op & s1 & Hop & Hs & _); [split; [done|by eexists]|]. exists op, s1. by split.
Defined.
