(* ===== verification/GdbStop.v ===== *)
(** * Stopping all processors for the debugger: handle_exception of gdb/Gdb.cc

    The processors share a ticket lock ([serving], [tcounter]), the flag
    [allstop] and the [vCont] packet that was read last.  A step is one access
    of one processor to them, or the section under [lock]; the increment of
    [serving], which is not under the lock, is a load and a store.  An IPI
    stays pending until its processor runs kernel code.  Tickets are
    [int64_t]; they are taken not to overflow. *)
From Stdlib Require Import ZArith Lia Bool Ascii String.
From stdpp Require Import base tactics option numbers list.
From S2P Require Import Prelude Gdb.

(** where a processor is *)
Inductive loc :=
  | Kernel                        (* runs the kernel *)
  | Ticket (report : bool)        (* about to take a ticket, in the first or the second section *)
  | Wait (report : bool)          (* waits for its turn *)
  | SetAll                        (* allstop = true *)
  | Scan (i : nat)                (* looks at processor i *)
  | WaitStop (i : nat)            (* has sent an IPI to processor i *)
  | TalkStart                     (* sends the stop reply *)
  | Talk                          (* handles packets *)
  | Loop                          (* while (allstop) *)
  | Turn                          (* has the turn in the second section *)
  | Inc (leave : bool)            (* ++serving, then break or continue *)
  | IncStore (leave : bool) (v : Z)
  | Resume.                       (* about to resume the kernel *)

Record scpu := mkScpu { s_loc : loc; s_state : cpu_state; s_ticket : Z; s_ipi : bool }.
Record sys := mkSys { tcounter : Z; serving : Z; allstop : bool; vcont : VCont; procs : list scpu }.

Definition sys_new (n : nat) : sys :=
  mkSys 1 1 false (mkVCont 0 0 0) (replicate n (mkScpu Kernel Running 0 false)).

Definition at_loc (l : loc) (c : scpu) : scpu := mkScpu l (s_state c) (s_ticket c) (s_ipi c).
Definition goto (p : nat) (l : loc) (s : sys) : sys :=
  mkSys (tcounter s) (serving s) (allstop s) (vcont s) (alter (at_loc l) p (procs s)).
Definition set_allstop (b : bool) (s : sys) : sys := mkSys (tcounter s) (serving s) b (vcont s) (procs s).

Inductive sop :=
  | Exception (p : nat)               (* an exception of the kernel code *)
  | StopIPI (p : nat)                 (* a pending IPI is delivered *)
  | Packet (p : nat) (v : VCont)      (* a packet is handled, which leaves v *)
  | Step (p : nat).                   (* the next access *)

(** entering handle_exception: the state is [Stopped], an IPI is confirmed *)
Definition enter (l : loc) (ipi : bool) (p : nat) (s : sys) : sys :=
  mkSys (tcounter s) (serving s) (allstop s) (vcont s)
    (alter (fun c => mkScpu l Stopped (s_ticket c) (if ipi then false else s_ipi c)) p (procs s)).

(** the turn of processor [p] in the second section *)
Definition take_turn (p : nat) (s : sys) : res sys :=
  let cTID := Z.of_nat p + 1 in
  if pending cTID (vcont s) then
    if action (vcont s) =? ch "s" then kassert (tid (vcont s) =? cTID);; mret (goto p (Inc true) s)
    else if action (vcont s) =? ch "c" then
      kassert (to_signed 64 (tid (vcont s)) =? -1);; mret (goto p (Inc true) (set_allstop false s))
    else mret (goto p (Inc true) s)
  else mret (goto p (Inc false) s).

Definition sstep (p : nat) (c : scpu) (s : sys) : option (res sys) :=
  match s_loc c with
  | Kernel | Talk => None
  | Ticket r =>
      Some (mret (if 0 <? serving s - s_ticket c
        then mkSys (tcounter s + 1) (serving s) (allstop s) (vcont s)
          (alter (fun c => mkScpu (Wait r) (s_state c) (tcounter s) (s_ipi c)) p (procs s))
        else goto p (Wait r) s))
  | Wait r => if s_ticket c =? serving s then Some (mret (goto p (if r : bool then SetAll else Turn) s)) else None
  | SetAll => Some (mret (goto p (Scan 0) (set_allstop true s)))
  | Scan i =>
      match procs s !! i with
      | None => Some (mret (goto p TalkStart s))
      | Some d =>
          match s_state d with
          | Running => Some (mret (goto p (WaitStop i) (mkSys (tcounter s) (serving s) (allstop s) (vcont s)
              (alter (fun d => mkScpu (s_loc d) (s_state d) (s_ticket d) true) i (procs s)))))
          | _ => Some (mret (goto p (Scan (S i)) s))
          end
      end
  | WaitStop i =>
      match procs s !! i with
      | Some d => match s_state d with Stopped => Some (mret (goto p (Scan (S i)) s)) | _ => None end
      | None => Some (Err OutOfBounds)
      end
  | TalkStart => Some (mret (goto p Talk (mkSys (tcounter s) (serving s) (allstop s)
      (mkVCont 0 (signal (vcont s)) (tid (vcont s))) (procs s))))
  | Loop => Some (mret (goto p (if allstop s then Ticket false else Resume) s))
  | Turn => Some (take_turn p s)
  | Inc leave => Some (mret (goto p (IncStore leave (serving s)) s))
  | IncStore leave v => Some (mret (goto p (if leave : bool then Resume else Loop)
      (mkSys (tcounter s) (v + 1) (allstop s) (vcont s) (procs s))))
  | Resume => Some (mret (mkSys (tcounter s) (serving s) (allstop s) (vcont s)
      (alter (fun c => mkScpu Kernel Running (s_ticket c) (s_ipi c)) p (procs s))))
  end.

Definition sexec (op : sop) (s : sys) : option (res sys) :=
  match op with
  | Exception p => match procs s !! p with
      | Some c => match s_loc c with Kernel => Some (mret (enter (Ticket true) false p s)) | _ => None end
      | None => None end
  | StopIPI p => match procs s !! p with
      | Some c => match s_loc c with Kernel => if s_ipi c then Some (mret (enter Loop true p s)) else None | _ => None end
      | None => None end
  | Packet p v => match procs s !! p with
      | Some c => match s_loc c with
          | Talk => Some (mret (goto p (if action v =? 0 then Talk else Loop)
              (mkSys (tcounter s) (serving s) (allstop s) v (procs s))))
          | _ => None end
      | None => None end
  | Step p => match procs s !! p with Some c => sstep p c s | None => None end
  end.

Inductive stop_step (s s' : sys) : Prop := stop_step_op op : sexec op s = Some (Ok s') -> stop_step s s'.

(** ** The invariant *)

(** the processor has the turn *)
Definition has_turn (l : loc) : bool :=
  match l with SetAll | Scan _ | WaitStop _ | TalkStart | Talk | Turn | Inc _ | IncStore _ _ => true | _ => false end.

(** it has stopped, or will *)
Definition stopping (c : scpu) : bool :=
  match s_loc c with Kernel => s_ipi c | Loop | Ticket _ | Wait _ => true | _ => false end.

Definition cpu_ok (s : sys) (c : scpu) : Prop :=
  s_ticket c < tcounter s /\
  (s_state c = match s_loc c with Kernel => Running | _ => Stopped end) /\
  match s_loc c with
  | Kernel | Resume | Ticket true => s_ticket c < serving s
  | Loop | Ticket false => s_ticket c < serving s \/ (s_ticket c = serving s /\ allstop s = true)
  | Wait _ => serving s <= s_ticket c
  | SetAll | Turn | Inc _ => s_ticket c = serving s
  | Scan _ | TalkStart | Talk => s_ticket c = serving s /\ allstop s = true
  | WaitStop i => s_ticket c = serving s /\ allstop s = true /\
      exists d, procs s !! i = Some d /\ stopping d = true
  | IncStore _ v => s_ticket c = serving s /\ v = serving s
  end.

Record stop_inv (s : sys) : Prop := {
  si_order : serving s <= tcounter s;
  si_cpus p c : procs s !! p = Some c -> cpu_ok s c;
  si_unique p q c d : procs s !! p = Some c -> procs s !! q = Some d -> serving s <= s_ticket c ->
    s_ticket c = s_ticket d -> p = q;
  si_all k : serving s <= k < tcounter s -> exists p c, procs s !! p = Some c /\ s_ticket c = k
}.

Lemma turn_ticket s c : cpu_ok s c -> has_turn (s_loc c) = true -> s_ticket c = serving s.
Proof. intros (_ & _ & H) Ht. destruct (s_loc c); try done; intuition. Qed.

Section step.
Context (s s' : sys) (p : nat) (c c' : scpu) (Hinv : stop_inv s) (Hp : procs s !! p = Some c)
  (Hprocs : procs s' = <[p := c']> (procs s)).

Lemma step_lookup q d : procs s' !! q = Some d -> (q = p /\ d = c') \/ (q <> p /\ procs s !! q = Some d).
Proof using Hp Hprocs.
  rewrite Hprocs. intros [(-> & <- & _)|[? ?]]%list_lookup_insert_Some; [by left|by right].
Qed.

(** the processors that do not step, when [serving] does not change *)
Lemma others_ok : serving s' = serving s -> tcounter s <= tcounter s' ->
  (allstop s = true -> allstop s' = true \/ s_ticket c = serving s) ->
  (s_ticket c <> serving s -> allstop s = true -> stopping c = true -> stopping c' = true) ->
  forall q d, q <> p -> procs s !! q = Some d -> cpu_ok s' d.
Proof using Hinv Hp Hprocs.
  intros Hs Ht Ha Hst q d Hq Hd. destruct (si_cpus _ Hinv q d Hd) as (H1 & H2 & H3).
  assert (s_ticket d = serving s -> s_ticket c <> serving s) as Hother.
  { intros E E'. apply Hq. eapply (si_unique _ Hinv q p d c Hd Hp); lia. }
  assert (s_ticket d = serving s -> allstop s = true -> allstop s' = true) as Hall.
  { intros E Hal. destruct (Ha Hal) as [|E']; [done|]. by destruct (Hother E). }
  split; [lia|]. split; [done|]. rewrite Hs. destruct (s_loc d) as [|[]| | | |i| | | | | | |]; try done; try naive_solver.
  destruct H3 as (E & Hal & x & Hx & Hsx). split; [done|]. split; [by apply Hall|]. rewrite Hprocs.
  destruct (decide (i = p)) as [->|Hne].
  - exists c'. rewrite list_lookup_insert_eq by (by eapply lookup_lt_Some). split; [done|].
    assert (x = c) as -> by congruence. apply Hst; [by apply Hother|done|done].
  - exists x. by rewrite list_lookup_insert_ne.
Qed.

(** a step that takes no ticket and serves no other *)
Lemma step_inv : serving s' = serving s -> tcounter s' = tcounter s -> s_ticket c' = s_ticket c ->
  (allstop s = true -> allstop s' = true \/ s_ticket c = serving s) ->
  (s_ticket c <> serving s -> allstop s = true -> stopping c = true -> stopping c' = true) ->
  cpu_ok s' c' -> stop_inv s'.
Proof using Hinv Hp Hprocs.
  intros Hs Ht Htk Ha Hst Hok. split.
  - rewrite Hs, Ht. apply Hinv.
  - intros q d Hd. destruct (step_lookup q d Hd) as [[-> ->]|[Hq Hd']]; [done|].
    eapply others_ok; try done. lia.
  - intros q r d e Hd He. rewrite Hs. intros Hge E.
    destruct (step_lookup q d Hd) as [[-> ->]|[Hq Hd']], (step_lookup r e He) as [[-> ->]|[Hr He']]; [done| | |].
    + rewrite Htk in *. by apply (si_unique _ Hinv p r c e).
    + rewrite Htk in *. by apply (si_unique _ Hinv q p d c).
    + by apply (si_unique _ Hinv q r d e).
  - intros k Hk. rewrite Hs, Ht in Hk. destruct (si_all _ Hinv k Hk) as (q & d & Hd & E).
    destruct (decide (q = p)) as [->|Hne].
    + exists p, c'. rewrite Hprocs, list_lookup_insert_eq by (by eapply lookup_lt_Some). split; [done|].
      rewrite Htk. congruence.
    + exists q, d. rewrite Hprocs. by rewrite list_lookup_insert_ne.
Qed.

(** a step that takes the next ticket *)
Lemma ticket_inv : serving s' = serving s -> tcounter s' = tcounter s + 1 -> allstop s' = allstop s ->
  s_ticket c < serving s -> s_ticket c' = tcounter s -> stopping c' = true -> cpu_ok s' c' -> stop_inv s'.
Proof using Hinv Hp Hprocs.
  intros Hs Ht Ha Htk Htk' Hst Hok. pose proof (si_order _ Hinv).
  assert (forall q d, procs s !! q = Some d -> s_ticket d < tcounter s) as Hlt by (intros q d Hd; apply (si_cpus _ Hinv q d Hd)).
  split.
  - lia.
  - intros q d Hd. destruct (step_lookup q d Hd) as [[-> ->]|[Hq Hd']]; [done|].
    eapply others_ok; try done; [lia|]. intros ?. left. congruence.
  - intros q r d e Hd He. rewrite Hs. intros Hge E.
    destruct (step_lookup q d Hd) as [[-> ->]|[Hq Hd']], (step_lookup r e He) as [[-> ->]|[Hr He']]; [done| | |].
    + pose proof (Hlt r e He'). lia.
    + pose proof (Hlt q d Hd'). lia.
    + by apply (si_unique _ Hinv q r d e).
  - intros k Hk. destruct (decide (k = tcounter s)) as [->|].
    + exists p, c'. rewrite Hprocs, list_lookup_insert_eq by (by eapply lookup_lt_Some). done.
    + destruct (si_all _ Hinv k ltac:(lia)) as (q & d & Hd & E). exists q, d. split; [|done].
      rewrite Hprocs, list_lookup_insert_ne; [done|]. intros ->. assert (d = c) as -> by congruence. lia.
Qed.

(** a step that passes the turn on *)
Lemma serve_inv : serving s' = serving s + 1 -> tcounter s' = tcounter s -> allstop s' = allstop s ->
  s_ticket c = serving s -> s_ticket c' = s_ticket c -> cpu_ok s' c' -> stop_inv s'.
Proof using Hinv Hp Hprocs.
  intros Hs Ht Ha Htk Htk' Hok.
  assert (forall q d, q <> p -> procs s !! q = Some d -> s_ticket d <> serving s) as Hother.
  { intros q d Hq Hd E. apply Hq. apply (si_unique _ Hinv q p d c Hd Hp); lia. }
  split.
  - destruct (si_cpus _ Hinv p c Hp) as (H & _). lia.
  - intros q d Hd. destruct (step_lookup q d Hd) as [[-> ->]|[Hq Hd']]; [done|].
    destruct (si_cpus _ Hinv q d Hd') as (H1 & H2 & H3). pose proof (Hother q d Hq Hd').
    split; [lia|]. split; [done|]. rewrite Hs. destruct (s_loc d) as [|[]| | | |i| | | | | | |]; lia.
  - intros q r d e Hd He. rewrite Hs. intros Hge E.
    destruct (step_lookup q d Hd) as [[-> ->]|[Hq Hd']], (step_lookup r e He) as [[-> ->]|[Hr He']]; [done|lia|lia|].
    apply (si_unique _ Hinv q r d e Hd' He'); [lia|done].
  - intros k Hk. destruct (si_all _ Hinv k ltac:(lia)) as (q & d & Hd & E). exists q, d. split; [|done].
    rewrite Hprocs, list_lookup_insert_ne; [done|]. intros ->. assert (d = c) as -> by congruence. lia.
Qed.
End step.

Lemma sys_new_inv n : stop_inv (sys_new n).
Proof.
  assert (forall p c, procs (sys_new n) !! p = Some c -> c = mkScpu Kernel Running 0 false) as Hc.
  { intros p c H. by apply lookup_replicate in H as [? _]. }
  split; cbn; [lia| | |lia].
  - intros p c ->%Hc. by split.
  - intros p q c d ->%Hc ->%Hc. cbn. lia.
Qed.

(** an IPI is sent *)
Definition send (i : nat) (s : sys) : sys := mkSys (tcounter s) (serving s) (allstop s) (vcont s)
  (alter (fun d => mkScpu (s_loc d) (s_state d) (s_ticket d) true) i (procs s)).

Lemma send_inv i s : stop_inv s -> stop_inv (send i s).
Proof.
  intros Hi. destruct (procs s !! i) as [x|] eqn:Hx.
  - assert (procs (send i s) = <[i := mkScpu (s_loc x) (s_state x) (s_ticket x) true]> (procs s)) as Hp by exact (alter_insert _ _ _ _ Hx).
    apply (step_inv s (send i s) i x _ Hi Hx Hp); try done; [by left|intros _ _; unfold stopping; cbn; by destruct (s_loc x)|].
    destruct (si_cpus _ Hi i x Hx) as (H1 & H2 & H3). split; [done|]. split; [done|].
    cbn [s_loc s_ticket]. destruct (s_loc x) as [|[]| | | |j| | | | | | |] eqn:Hl; try done.
    destruct H3 as (E & Hal & d & Hd & Hst). split; [done|]. split; [done|]. rewrite Hp.
    destruct (decide (j = i)) as [->|Hne].
    + assert (d = x) as -> by congruence. unfold stopping in Hst. by rewrite Hl in Hst.
    + exists d. by rewrite list_lookup_insert_ne.
  - assert (send i s = s) as ->; [|done]. unfold send. destruct s as [a b d e l]. cbn in *. f_equal.
    apply list_eq. intros j. destruct (decide (i = j)) as [<-|Hne]; [by rewrite list_lookup_alter_eq, Hx|by rewrite list_lookup_alter_ne].
Qed.

(** a processor goes on to [l], nothing that is shared changes but [allstop] and [vCont] *)
Lemma goto_inv s s' p c l : stop_inv s -> procs s !! p = Some c -> procs s' = alter (at_loc l) p (procs s) ->
  serving s' = serving s -> tcounter s' = tcounter s ->
  (allstop s = true -> allstop s' = true \/ s_ticket c = serving s) ->
  (s_ticket c <> serving s -> stopping c = true -> allstop s = true -> stopping (at_loc l c) = true) ->
  s_state c = match l with Kernel => Running | _ => Stopped end ->
  match l with
  | Kernel | Resume | Ticket true => s_ticket c < serving s
  | Loop | Ticket false => s_ticket c < serving s \/ (s_ticket c = serving s /\ allstop s' = true)
  | Wait _ => serving s <= s_ticket c
  | SetAll | Turn | Inc _ => s_ticket c = serving s
  | Scan _ | TalkStart | Talk => s_ticket c = serving s /\ allstop s' = true
  | WaitStop i => s_ticket c = serving s /\ allstop s' = true /\
      exists d, procs s' !! i = Some d /\ stopping d = true
  | IncStore _ v => s_ticket c = serving s /\ v = serving s
  end -> stop_inv s'.
Proof.
  intros Hi Hp Hps Hs Ht Ha Hst Hstate Hl. rewrite (alter_insert _ _ _ _ Hp) in Hps.
  eapply (step_inv s s' p c _ Hi Hp Hps); try done; [auto|].
  destruct (si_cpus _ Hi p c Hp) as (H1 & _). split; [cbn; lia|]. split; [done|]. cbn [s_loc s_ticket at_loc].
  rewrite Hs. by destruct l as [|[]| | | | | | | | | | |].
Qed.

Lemma take_turn_inv s s' p c : stop_inv s -> procs s !! p = Some c -> s_loc c = Turn -> take_turn p s = Ok s' -> stop_inv s'.
Proof.
  intros Hi Hp Hl Ht. destruct (si_cpus _ Hi p c Hp) as (_ & H2 & H3). rewrite Hl in H2, H3.
  assert (forall b a, stop_inv (goto p (Inc b) (mkSys (tcounter s) (serving s) a (vcont s) (procs s)))) as Hgo.
  { intros b a. eapply (goto_inv s _ p c (Inc b)); try done. by right. }
  assert (forall b, goto p (Inc b) s = goto p (Inc b) (mkSys (tcounter s) (serving s) (allstop s) (vcont s) (procs s))) as Hid
    by (intros b; by destruct s).
  unfold take_turn in Ht. destruct (pending _ _); [destruct (_ =? _); [|destruct (_ =? _)]|]; res_inv; try rewrite Hid; apply Hgo.
Qed.

Lemma sstep_inv s s' p c : stop_inv s -> procs s !! p = Some c -> sstep p c s = Some (Ok s') -> stop_inv s'.
Proof.
  intros Hi Hp He. destruct (si_cpus _ Hi p c Hp) as (H1 & H2 & H3). unfold sstep in He.
  destruct (s_loc c) as [|r|r| |i|i| | | | |leave|leave v|] eqn:Hl; try done.
  - (* Ticket *) destruct (Z.ltb_spec 0 (serving s - s_ticket c)); injection He as <-.
    + assert (procs s !! p = Some c) as Hp' by done.
      eapply (ticket_inv s _ p c (mkScpu (Wait r) (s_state c) (tcounter s) (s_ipi c)) Hi Hp); cbn; try done; [exact (alter_insert _ _ _ _ Hp)|lia|].
      split; cbn; [lia|]. split; [done|]. apply (si_order _ Hi).
    + eapply (goto_inv s _ p c (Wait r)); try done; [by left|]. cbn. destruct r; lia.
  - (* Wait *) destruct (Z.eqb_spec (s_ticket c) (serving s)); [|done]. injection He as <-.
    destruct r; [eapply (goto_inv s _ p c SetAll)|eapply (goto_inv s _ p c Turn)]; try done; try (by left); intros Hn; by destruct (Hn e).
  - (* SetAll *) injection He as <-. eapply (goto_inv s _ p c (Scan 0)); try done. by left.
  - (* Scan *) destruct H3 as [H3 Hal]. destruct (procs s !! i) as [d|] eqn:Hd.
    + destruct (s_state d) eqn:Hst; injection He as <-.
      1-2: eapply (goto_inv s _ p c (Scan (S i))); try done; by left.
      pose proof (send_inv i s Hi) as Hi'. destruct (si_cpus _ Hi i d Hd) as (_ & Hd2 & _). rewrite Hst in Hd2.
      assert (s_loc d = Kernel) as Hk by (by destruct (s_loc d)).
      assert (i <> p) as Hne by (intros ->; congruence).
      assert (procs (send i s) !! p = Some c) as Hp' by (cbn; by rewrite list_lookup_alter_ne).
      eapply (goto_inv (send i s) _ p c (WaitStop i) Hi' Hp'); try done; [by left|].
      split; [done|]. split; [done|]. exists (mkScpu (s_loc d) (s_state d) (s_ticket d) true).
      change (procs (goto p (WaitStop i) (send i s)) !! i = Some (mkScpu (s_loc d) (s_state d) (s_ticket d) true) /\
        stopping (mkScpu (s_loc d) (s_state d) (s_ticket d) true) = true).
      cbn. rewrite list_lookup_alter_ne, list_lookup_alter_eq by done. rewrite Hd. split; [done|]. unfold stopping. cbn. by rewrite Hk.
    + injection He as <-. eapply (goto_inv s _ p c TalkStart); try done. by left.
  - (* WaitStop *) destruct H3 as (H3 & Hal & _). destruct (procs s !! i) as [d|]; [|done].
    destruct (s_state d); try done. injection He as <-. eapply (goto_inv s _ p c (Scan (S i))); try done. by left.
  - (* TalkStart *) destruct H3 as [H3 Hal]. injection He as <-. eapply (goto_inv s _ p c Talk); try done. by left.
  - (* Loop *) injection He as <-. destruct (allstop s) eqn:Hal.
    + eapply (goto_inv s _ p c (Ticket false)); try done; [by left|]. cbn. rewrite Hal. exact H3.
    + eapply (goto_inv s _ p c Resume); try done; [by left|by intros _ _; rewrite Hal|]. cbn. by destruct H3 as [|[_ ?]].
  - (* Turn *) injection He as He. by eapply take_turn_inv.
  - (* Inc *) injection He as <-. eapply (goto_inv s _ p c (IncStore leave (serving s))); try done. by left.
  - (* IncStore *) destruct H3 as [H3 ->]. injection He as <-.
    eapply (serve_inv s _ p c (at_loc (if leave then Resume else Loop) c) Hi Hp); cbn; try done; [exact (alter_insert _ _ _ _ Hp)|].
    split; cbn; [done|]. destruct leave; (split; [done|]); lia.
  - (* Resume *) injection He as <-.
    eapply (step_inv s _ p c (mkScpu Kernel Running (s_ticket c) (s_ipi c)) Hi Hp); cbn; try done; [exact (alter_insert _ _ _ _ Hp)|by left|].
    unfold stopping. by rewrite Hl.
Qed.

Lemma sexec_inv s s' op : stop_inv s -> sexec op s = Some (Ok s') -> stop_inv s'.
Proof.
  intros Hi He. destruct op as [p|p|p v|p]; cbn in He; (destruct (procs s !! p) as [c|] eqn:Hp; [|done]); [| | |by eapply sstep_inv].
  - destruct (si_cpus _ Hi p c Hp) as (H1 & H2 & H3). destruct (s_loc c) eqn:Hl; try done. injection He as <-.
    eapply (step_inv s _ p c (mkScpu (Ticket true) Stopped (s_ticket c) (s_ipi c)) Hi Hp); cbn; try done; [exact (alter_insert _ _ _ _ Hp)|by left].
  - destruct (si_cpus _ Hi p c Hp) as (H1 & H2 & H3). destruct (s_loc c) eqn:Hl; try done. destruct (s_ipi c); [|done]. injection He as <-.
    eapply (step_inv s _ p c (mkScpu Loop Stopped (s_ticket c) false) Hi Hp); cbn; try done; [exact (alter_insert _ _ _ _ Hp)|by left|].
    split; cbn; [done|]. split; [done|]. by left.
  - destruct (si_cpus _ Hi p c Hp) as (H1 & H2 & H3). destruct (s_loc c) eqn:Hl; try done. injection He as <-.
    destruct H3 as [H3 Hal]. destruct (action v =? 0); [eapply (goto_inv s _ p c Talk)|eapply (goto_inv s _ p c Loop)]; try done; try (by left).
    by right.
Qed.

Lemma stop_reach_inv n s : steps stop_step (sys_new n) s -> stop_inv s.
Proof.
  intros Hs. apply (steps_invariant stop_step stop_inv) in Hs; [done| |apply sys_new_inv].
  intros s1 s2 Hi [op He]. by eapply sexec_inv.
Qed.

Fixpoint srun (ops : list sop) (s : sys) : option sys :=
  match ops with
  | [] => Some s
  | op :: ops => match sexec op s with Some (Ok s) => srun ops s | _ => None end
  end.
Lemma srun_steps ops : forall s s', srun ops s = Some s' -> steps stop_step s s'.
Proof.
  induction ops as [|op ops IH]; intros s s'; cbn; [intros [= ->]; constructor|].
  destruct (sexec op s) as [[s1|]|] eqn:He; [|done..]. intros H. eapply steps_step; [by econstructor|by apply IH].
Qed.

(** ** What the protocol does not give *)
Definition vcont_c : VCont := mkVCont (ch "c") 0 (2 ^ 64 - 1).

(** processor 0 stops on an exception, stops processor 1, and both are told to continue *)
Definition first_stop : list sop :=
  [Exception 0; Step 0; Step 0; Step 0; Step 0; Step 0; StopIPI 1; Step 0; Step 0; Step 0; Step 1; Step 1;
   Packet 0 vcont_c; Step 0; Step 0; Step 0; Step 0; Step 0; Step 0; Step 0; Step 1; Step 1; Step 1; Step 1].

(** processor 1 has been told to continue, but has not yet set its state; an
    exception of processor 0 finds it stopped and sends no IPI; then it runs
    the kernel while processor 0 talks to the debugger *)
Lemma not_all_stopped : exists s c d,
  srun (first_stop ++ [Exception 0; Step 0; Step 0; Step 0; Step 0; Step 0; Step 0; Step 0; Step 1]) (sys_new 2) = Some s /\
  procs s !! 0%nat = Some c /\ s_loc c = Talk /\ allstop s = true /\
  procs s !! 1%nat = Some d /\ s_loc d = Kernel /\ s_state d = Running /\ s_ipi d = false.
Proof. eexists _, _, _. split; [vm_compute; reflexivity|]. repeat (split; [done|]). done. Qed.

(** [vCont;s] without a thread, and [vCont;c] with one, end in an assertion *)
Lemma vcont_asserts s p c : Z.of_nat p < 2 ^ 31 -> procs s !! p = Some c -> s_loc c = Turn ->
  (vcont s = mkVCont (ch "s") 0 (2 ^ 64 - 1) -> sexec (Step p) s = Some (Err AssertFailed)) /\
  (vcont s = mkVCont (ch "c") 0 (Z.of_nat p + 1) -> sexec (Step p) s = Some (Err AssertFailed)).
Proof.
  intros Hsmall Hp Hl. cbn [sexec]. rewrite Hp. unfold sstep. rewrite Hl. unfold take_turn. split; intros Hv; f_equal; rewrite Hv.
  - change (pending (Z.of_nat p + 1) (mkVCont (ch "s") 0 (2 ^ 64 - 1))) with true.
    cbn [action tid]. rewrite Z.eqb_refl. by rewrite (proj2 (Z.eqb_neq _ _)) by lia.
  - unfold pending. cbn [action tid]. rewrite Z.eqb_refl, orb_true_r.
    change (negb (ch "c" =? 0)) with true. change (ch "c" =? ch "s") with false. change (ch "c" =? ch "c") with true.
    cbn [andb]. unfold to_signed. rewrite wrap_small by lia. rewrite (proj2 (Z.ltb_lt _ _)) by (change (2 ^ (64 - 1)) with (2 ^ 63); lia).
    by rewrite (proj2 (Z.eqb_neq _ _)) by lia.
Qed.

(** * Properties *)

(** what makes the processor [p] with the turn go on: its own next step, the
    debugger's next packet, or the processor that it is stopping *)
Definition goes_on (s : sys) (p : nat) : Prop :=
  (exists r, sexec (Step p) s = Some r) \/
  (forall v, exists r, sexec (Packet p v) s = Some r) \/
  (exists i r, sexec (StopIPI i) s = Some r).


