(* ===== verification/Pthread.v ===== *)
(** * Semaphores, mutexes and conditions of user programs

    The system calls [semCreate], [semDestroy], [semP], [semV] of
    kernel/syscalls.cc, and the user library on top of them: [Benaphore] of
    include/pthread.h and ulib/pthread.cc.  The kernel side is cut where it
    passes from the lock of the semaphore store to the lock of the semaphore;
    that a thread which waits on a semaphore is granted in one step is what
    BlockingSync.v shows.  The user side is cut at each access to the atomic
    counter and at the system calls. *)
From Stdlib Require Import ZArith Lia Bool.
From stdpp Require Import base tactics option numbers list gmap.
From S2P Require Import Prelude ManagedArray.

(** ** kernel/syscalls.cc *)
Record ksem := mkSem { s_counter : Z; s_bq : list nat; s_lock : bool }.
Record kproc := mkK { semStore : marray Z; sems : gmap Z ksem }.

Definition with_sem (p : Z) (s : ksem) (k : kproc) : kproc := mkK (semStore k) (<[p := s]> (sems k)).
Definition sem_at (p : Z) (k : kproc) : res ksem :=
  match sems k !! p with Some s => Ok s | None => Err NullDeref end.

(** [p]: the address of the new semaphore *)
Definition semCreate (p init : Z) (k : kproc) : res (Z * kproc) :=
  '(sid, st) ← ma_put (fun _ => true) p (semStore k);
  mret (sid, mkK st (<[p := mkSem init [] false]> (sems k))).

Definition semDestroy (sid : Z) (k : kproc) : res (Z * kproc) :=
  v ← valid (semStore k) sid;
  if negb v then mret (-1, k) else
  p ← ma_get sid (semStore k);
  s ← sem_at p k;
  if negb (bool_decide (s_bq s = [])) then mret (-1, k) else
  st ← ma_remove sid (semStore k);
  mret (0, mkK st (delete p (sems k))).

(** the common start of [semP] and [semV]: the result is the address of the
    semaphore, which is locked then, or [None] for the return value -1; the
    step cannot be taken while another thread holds the lock *)
Definition sem_enter (sid : Z) (k : kproc) : option (res (option Z * kproc)) :=
  match (v ← valid (semStore k) sid;
         if negb v then mret None else
         p ← ma_get sid (semStore k); s ← sem_at p k; mret (Some (p, s))) with
  | Err f => Some (Err f)
  | Ok None => Some (mret (None, k))
  | Ok (Some (p, s)) =>
      if s_lock s then None
      else Some (mret (Some p, with_sem p (mkSem (s_counter s) (s_bq s) true) k))
  end.

(** the rest of [semP]: thread [i] waits (true) or has its permit *)
Definition sem_P (i : nat) (p : Z) (k : kproc) : res (bool * kproc) :=
  s ← sem_at p k;
  if s_counter s <? 1 then mret (true, with_sem p (mkSem (s_counter s) (s_bq s ++ [i]) false) k)
  else mret (false, with_sem p (mkSem (s_counter s - 1) (s_bq s) false) k).

(** the rest of [semV]: the thread that is resumed *)
Definition sem_V (p : Z) (k : kproc) : res (option nat * kproc) :=
  s ← sem_at p k;
  match s_bq s with
  | t :: q => mret (Some t, with_sem p (mkSem (s_counter s) q false) k)
  | [] => mret (None, with_sem p (mkSem (wrap 64 (s_counter s + 1)) [] false) k)
  end.

(** ** include/pthread.h, ulib/pthread.cc *)
Inductive pkind := PMutex | PCond.
(** an object with its [Benaphore]; [o_live]: initialised and not destroyed *)
Record obj := mkObj { o_kind : pkind; counter : Z; kSem : Z; o_live : bool }.

(** where a thread is, with the number of the object it works on *)
Inductive upc :=
  | UIdle
  | UTryBack (b : nat)           (* tryP failed, about to increment the counter *)
  | UCallP (b : nat)             (* about to call semP *)
  | UInP (b : nat) (p : Z)       (* in semP, holds the lock of the semaphore at p *)
  | UBlocked (b : nat)           (* waits in semP *)
  | URetP (b : nat)              (* semP returns *)
  | UCallV (b : nat) (all : bool)
  | UInV (b : nat) (p : Z) (all : bool)
  | USignal (b : nat) (all : bool)   (* signal, or the loop of broadcast: about to call empty *)
  | USignalV (b : nat) (all : bool). (* empty was false, about to call V *)

(** [t_owned]: the mutexes the thread has locked and not unlocked *)
Record uthr := mkThr { t_pc : upc; t_owned : list nat }.
Record upstate := mkPS { kern : kproc; objs : list obj; thrs : list uthr }.

Fixpoint remove_one (b : nat) (l : list nat) : list nat :=
  match l with [] => [] | x :: l => if decide (x = b) then l else x :: remove_one b l end.

Definition sword (x : Z) : Z := to_signed 64 x.

Definition with_kern (k : kproc) (s : upstate) : upstate := mkPS k (objs s) (thrs s).
Definition add_counter (b : nat) (d : Z) (s : upstate) : upstate :=
  mkPS (kern s) (alter (fun o => mkObj (o_kind o) (sword (counter o + d)) (kSem o) (o_live o)) b (objs s)) (thrs s).
Definition move (i : nat) (pc : upc) (s : upstate) : upstate :=
  mkPS (kern s) (objs s) (alter (fun x => mkThr pc (t_owned x)) i (thrs s)).
Definition disown (i b : nat) (s : upstate) : upstate :=
  mkPS (kern s) (objs s) (alter (fun x => mkThr (t_pc x) (remove_one b (t_owned x))) i (thrs s)).

(** P returns: lock has the mutex, wait is over *)
Definition grant (i b : nat) (k : pkind) (s : upstate) : upstate :=
  mkPS (kern s) (objs s)
    (alter (fun x => mkThr UIdle (match k with PMutex => b :: t_owned x | PCond => t_owned x end)) i (thrs s)).

(** Benaphore::P up to the system call *)
Definition ben_P (i b : nat) (o : obj) (s : upstate) : upstate :=
  let s := add_counter b (-1) s in
  if 0 <=? sword (counter o - 1) then grant i b (o_kind o) s else move i (UCallP b) s.

(** Benaphore::tryP up to the increment *)
Definition ben_tryP (i b : nat) (o : obj) (s : upstate) : upstate :=
  let s := add_counter b (-1) s in
  if 0 <=? sword (counter o - 1) then grant i b (o_kind o) s else move i (UTryBack b) s.

(** where a thread goes on after V: the loop of broadcast *)
Definition after_V (b : nat) (all : bool) : upc := if all then USignal b true else UIdle.

(** Benaphore::V up to the system call *)
Definition ben_V (i b : nat) (all : bool) (o : obj) (s : upstate) : upstate :=
  let s := add_counter b 1 s in
  if 1 <=? sword (counter o + 1) then move i (after_V b all) s else move i (UCallV b all) s.

(** the next step of thread [i] *)
Definition ustep (i : nat) (s : upstate) : option (res upstate) :=
  x ← thrs s !! i;
  match t_pc x with
  | UIdle | UBlocked _ => None
  | UTryBack b => Some (mret (move i UIdle (add_counter b 1 s)))
  | UCallP b =>
      o ← objs s !! b;
      r ← sem_enter (kSem o) (kern s);
      Some ('(p, k) ← r;
            mret (move i (match p with Some p => UInP b p | None => URetP b end) (with_kern k s)))
  | UInP b p =>
      Some ('(blocked, k) ← sem_P i p (kern s);
            mret (move i (if blocked : bool then UBlocked b else URetP b) (with_kern k s)))
  | URetP b => o ← objs s !! b; Some (mret (grant i b (o_kind o) s))
  | UCallV b all =>
      o ← objs s !! b;
      r ← sem_enter (kSem o) (kern s);
      Some ('(p, k) ← r;
            mret (move i (match p with Some p => UInV b p all | None => after_V b all end) (with_kern k s)))
  | UInV b p all =>
      Some ('(woken, k) ← sem_V p (kern s);
            let s := match woken with Some t => move t (URetP b) s | None => s end in
            mret (move i (after_V b all) (with_kern k s)))
  | USignal b all =>
      o ← objs s !! b;
      Some (mret (move i (if 0 <=? counter o then UIdle else USignalV b all) s))
  | USignalV b all => o ← objs s !! b; Some (mret (ben_V i b all o s))
  end.

Inductive pop :=
  | Init (k : pkind) (p : Z)         (* mutex_init, cond_init; p: the address of the semaphore *)
  | Destroy (b : nat)               (* mutex_destroy, cond_destroy *)
  | MutexLock (i b : nat)
  | MutexTrylock (i b : nat)
  | MutexUnlock (i b : nat)
  | CondWait (i b m : nat)
  | CondSignal (i b : nat)
  | CondBroadcast (i b : nat)
  | Run (i : nat).

(** a call of thread [i], which is not in another one *)
Definition pcall (i b : nat) (f : obj -> upstate -> upstate) (s : upstate) : option (res upstate) :=
  x ← thrs s !! i; o ← objs s !! b;
  match t_pc x with UIdle => Some (mret (f o s)) | _ => None end.

Definition pexec (op : pop) (s : upstate) : option (res upstate) :=
  match op with
  | Init k p =>
      if decide (is_Some (sems (kern s) !! p)) then None
      else Some ('(sid, kn) ← semCreate p 0 (kern s);
                 mret (mkPS kn (objs s ++ [mkObj k (match k with PMutex => 1 | PCond => 0 end) sid true]) (thrs s)))
  | Destroy b =>
      o ← objs s !! b;
      Some ('(_, kn) ← semDestroy (kSem o) (kern s); mret (mkPS kn (alter (fun o => mkObj (o_kind o) (counter o) (kSem o) false) b (objs s)) (thrs s)))
  | MutexLock i b => pcall i b (ben_P i b) s
  | MutexTrylock i b => pcall i b (ben_tryP i b) s
  | MutexUnlock i b => pcall i b (fun o s => ben_V i b false o (disown i b s)) s
  | CondWait i b m => pcall i b (ben_P i b) s
  | CondSignal i b => pcall i b (fun _ => move i (USignal b false)) s
  | CondBroadcast i b => pcall i b (fun _ => move i (USignal b true)) s
  | Run i => ustep i s
  end.

Definition upstate_new (n : nat) : upstate := mkPS (mkK (ma_new 0) ∅) [] (replicate n (mkThr UIdle [])).

Fixpoint prun (ops : list pop) (s : upstate) : option (res upstate) :=
  match ops with
  | [] => Some (mret s)
  | op :: ops => match pexec op s with
      | Some (Ok s') => prun ops s'
      | r => r
      end
  end.

(** ** The discipline of the programs

    The calls get initialised objects of their type, a mutex is unlocked by
    its owner, an object is destroyed when no thread is in a call on it and,
    for a mutex, none owns it.  Beyond POSIX, no mutex is unlocked while a
    failing [pthread_mutex_trylock] is between its two accesses. *)
Definition subject (pc : upc) : option nat :=
  match pc with
  | UIdle => None
  | UTryBack b | UCallP b | UInP b _ | UBlocked b | URetP b | UCallV b _ | UInV b _ _
  | USignal b _ | USignalV b _ => Some b
  end.

Definition n_waits (b : nat) (x : uthr) : Z :=
  match t_pc x with UCallP b' | UInP b' _ | UBlocked b' => if decide (b' = b) then 1 else 0 | _ => 0 end.
Definition n_pend (b : nat) (x : uthr) : Z :=
  match t_pc x with UCallV b' _ | UInV b' _ _ => if decide (b' = b) then 1 else 0 | _ => 0 end.
Definition n_tries (b : nat) (x : uthr) : Z :=
  match t_pc x with UTryBack b' => if decide (b' = b) then 1 else 0 | _ => 0 end.
Definition n_sigs (b : nat) (x : uthr) : Z :=
  match t_pc x with USignalV b' _ => if decide (b' = b) then 1 else 0 | _ => 0 end.
Definition n_inside (b : nat) (x : uthr) : Z :=
  match t_pc x with UInP b' _ | UInV b' _ _ => if decide (b' = b) then 1 else 0 | _ => 0 end.
Definition occ (b : nat) (l : list nat) : Z := lsum (fun x => if decide (x = b) then 1 else 0) l.
Definition n_owns (b : nat) (x : uthr) : Z :=
  occ b (t_owned x) + match t_pc x with URetP b' => if decide (b' = b) then 1 else 0 | _ => 0 end.

Definition live (k : pkind) (b : nat) (s : upstate) : bool :=
  match objs s !! b with
  | Some o => o_live o && match k, o_kind o with PMutex, PMutex | PCond, PCond => true | _, _ => false end
  | None => false end.

Definition proper (op : pop) (s : upstate) : bool :=
  match op with
  | Init _ _ => capacity (semStore (kern s)) <? 2 ^ 61
  | Destroy b => (live PMutex b s || live PCond b s) &&
      forallb (fun x => negb (bool_decide (subject (t_pc x) = Some b)) && (occ b (t_owned x) =? 0)) (thrs s)
  | MutexLock _ b | MutexTrylock _ b => live PMutex b s
  | MutexUnlock i b => live PMutex b s && (lsum (n_tries b) (thrs s) =? 0) &&
      match thrs s !! i with Some x => bool_decide (b ∈ t_owned x) | None => false end
  | CondWait _ b _ | CondSignal _ b | CondBroadcast _ b => live PCond b s
  | Run _ => true
  end.

Inductive pstep (s s' : upstate) : Prop :=
  pstep_op op : proper op s = true -> pexec op s = Some (Ok s') -> pstep s s'.

(** ** The invariant *)
(** the counter without the decrements that will be taken back *)
Definition eff (T : Z) (o : obj) : Z := counter o + T.

(** the counts of the threads that wait, are about to post, will increment
    again, are about to signal, own, hold the lock *)
Record nums (n : nat) (W P T S O I : Z) (o : obj) (k : ksem) : Prop := {
  nu_waits : s_counter k + P + Z.max 0 (- eff T o) = W;
  nu_count : 0 <= s_counter k;
  nu_tries : 0 < T -> eff T o <= 0;
  nu_mutex : o_kind o = PMutex -> O + s_counter k + P + Z.max 0 (eff T o) = 1;
  nu_cond : o_kind o = PCond -> T = 0 /\ eff T o + S <= Z.of_nat n;
  nu_lock : I = Z.b2z (s_lock k)
}.

Record obj_inv (n : nat) (ts : list uthr) (b : nat) (o : obj) (k : ksem) : Prop := {
  oi_nums : nums n (lsum (n_waits b) ts) (lsum (n_pend b) ts) (lsum (n_tries b) ts) (lsum (n_sigs b) ts)
    (lsum (n_owns b) ts) (lsum (n_inside b) ts) o k;
  oi_nodup : NoDup (s_bq k);
  oi_queue i : i ∈ s_bq k <-> exists l, ts !! i = Some (mkThr (UBlocked b) l);
  oi_empty : s_bq k <> [] -> s_counter k = 0
}.

Definition addr (b : nat) (s : upstate) : option Z :=
  o ← objs s !! b; if o_live o then value (semStore (kern s)) (kSem o) else None.

Definition kind_ok (pc : upc) (k : pkind) : Prop :=
  match pc with
  | UTryBack _ => k = PMutex
  | USignal _ _ | USignalV _ _ => k = PCond
  | UCallV _ all | UInV _ _ all => all = true -> k = PCond
  | _ => True
  end.

Definition pc_ok (s : upstate) (pc : upc) : Prop :=
  forall b, subject pc = Some b -> exists o, objs s !! b = Some o /\ o_live o = true /\ kind_ok pc (o_kind o) /\
    match pc with UInP _ p | UInV _ p _ => addr b s = Some p | _ => True end.

Record ps_inv (n : nat) (s : upstate) : Prop := {
  pi_len : length (thrs s) = n;
  pi_store : exists fs, ma_inv (semStore (kern s)) fs /\ (forall i, ~ reserved (semStore (kern s)) fs i);
  pi_objs b o : objs s !! b = Some o -> o_live o = true -> exists p k, addr b s = Some p /\
    sems (kern s) !! p = Some k /\ obj_inv n (thrs s) b o k;
  pi_addr b c p : addr b s = Some p -> addr c s = Some p -> b = c;
  pi_pcs i x : thrs s !! i = Some x -> pc_ok s (t_pc x);
  pi_owned i x b : thrs s !! i = Some x -> b ∈ t_owned x -> (b < length (objs s))%nat
}.

(** *** Occurrences *)
Lemma occ_ge0 b l : 0 <= occ b l.
Proof. apply lsum_nonneg. intros. destruct (decide _); lia. Qed.

Lemma occ_cons b x l : occ b (x :: l) = (if decide (x = b) then 1 else 0) + occ b l.
Proof. done. Qed.
Arguments occ : simpl never.

Lemma occ_remove_ne b c l : b <> c -> occ c (remove_one b l) = occ c l.
Proof.
  intros Hne. induction l as [|x l IH]; [done|]. cbn. rewrite occ_cons.
  destruct (decide (x = b)) as [->|]; rewrite ?occ_cons, ?IH; [by rewrite decide_False|done].
Qed.

Lemma occ_remove b l : b ∈ l -> occ b (remove_one b l) = occ b l - 1.
Proof.
  induction l as [|x l IH]; [by intros ?%elem_of_nil|]. intros H. cbn. rewrite occ_cons.
  destruct (decide (x = b)) as [->|Hne]; [lia|]. rewrite occ_cons, decide_False by done.
  rewrite IH; [lia|]. apply elem_of_cons in H as [|]; [congruence|done].
Qed.

Lemma occ_zero b l : occ b l = 0 <-> b ∉ l.
Proof.
  induction l as [|x l IH]; [split; [by intros _ ?%elem_of_nil|done]|].
  rewrite occ_cons, not_elem_of_cons. pose proof (occ_ge0 b l).
  destruct (decide (x = b)) as [->|]; [split; [lia|by intros []]|]. rewrite <- IH. split; [split; [congruence|lia]|lia].
Qed.

(** *** Other objects *)
Lemma lsum_ext {A} (f : A -> Z) (l l' : list A) : (forall j, f <$> l' !! j = f <$> l !! j) -> lsum f l' = lsum f l.
Proof.
  revert l'. induction l as [|x l IH]; intros [|y l'] H; [done|by specialize (H 0%nat)|by specialize (H 0%nat)|].
  pose proof (H 0%nat) as H0. cbn in H0. simplify_eq. unfold lsum in *. cbn.
  rewrite (IH l') by (intros j; apply (H (S j))). lia.
Qed.

(** [y'] differs from [y] in what concerns the object [b] only *)
Definition only (b : nat) (y y' : uthr) : Prop :=
  (subject (t_pc y) = None \/ subject (t_pc y) = Some b) /\ (subject (t_pc y') = None \/ subject (t_pc y') = Some b) /\
  forall c, c <> b -> occ c (t_owned y') = occ c (t_owned y).

Definition changed (b : nat) (ts ts' : list uthr) : Prop :=
  forall j, option_Forall2 (fun y y' => y' = y \/ only b y y') (ts !! j) (ts' !! j).

Lemma changed_insert b ts i x x' : ts !! i = Some x -> only b x x' -> changed b ts (<[i := x']> ts).
Proof.
  intros Hx Ho j. destruct (decide (i = j)) as [<-|Hne].
  - rewrite list_lookup_insert_eq by (by eapply lookup_lt_Some). rewrite Hx. constructor. by right.
  - rewrite list_lookup_insert_ne by done. destruct (ts !! j); constructor. by left.
Qed.

Lemma changed_insert2 b ts i x x' j y y' : ts !! i = Some x -> ts !! j = Some y -> only b x x' -> only b y y' ->
  i <> j -> changed b ts (<[i := x']> (<[j := y']> ts)).
Proof.
  intros Hx Hy Ho Ho' Hij c. destruct (decide (i = c)) as [<-|Hne].
  - rewrite list_lookup_insert_eq by (rewrite length_insert; by eapply lookup_lt_Some). rewrite Hx. constructor. by right.
  - rewrite list_lookup_insert_ne by done. by apply (changed_insert b ts j y y' Hy Ho').
Qed.

Lemma not_subject (c b : nat) pc : subject pc = None \/ subject pc = Some b -> c <> b -> subject pc <> Some c.
Proof. intros [-> | ->] ? ?; [done|congruence]. Qed.

Lemma counts_other b x l : subject (t_pc x) <> Some b ->
  n_waits b x = 0 /\ n_pend b x = 0 /\ n_tries b x = 0 /\ n_sigs b x = 0 /\ n_inside b x = 0 /\
  n_owns b x = occ b (t_owned x) /\ x <> mkThr (UBlocked b) l.
Proof.
  intros H. split_and!; [..|intros ->; by apply H].
  all: unfold n_waits, n_pend, n_tries, n_sigs, n_inside, n_owns; destruct (t_pc x); cbn in *; try lia;
    try (destruct (decide _) as [->|]; [by destruct H|lia]).
Qed.

(** a change that concerns [b] only keeps the invariant of another object *)
Lemma obj_inv_frame n ts ts' b c o k : changed b ts ts' -> c <> b -> obj_inv n ts c o k -> obj_inv n ts' c o k.
Proof.
  intros Hch Hcb Hi.
  assert (forall f, (forall y y', only b y y' -> f y' = f y) -> lsum f ts' = lsum f ts) as Hf.
  { intros f Hf. apply lsum_ext. intros j. pose proof (Hch j) as H. inversion H as [y y' Hy E1 E2|E1 E2]; [|done].
    cbn. destruct Hy as [->|Hy]; [done|]. by rewrite (Hf _ _ Hy). }
  assert (forall y y', only b y y' -> forall l, n_waits c y' = n_waits c y /\ n_pend c y' = n_pend c y /\ n_tries c y' = n_tries c y /\
    n_sigs c y' = n_sigs c y /\ n_inside c y' = n_inside c y /\ n_owns c y' = n_owns c y /\
    y <> mkThr (UBlocked c) l /\ y' <> mkThr (UBlocked c) l) as Hall.
  { intros y y' (H1 & H2 & H3) l. specialize (H3 c Hcb).
    destruct (counts_other c y l (not_subject _ _ _ H1 Hcb)) as (?&?&?&?&?&?&?).
    destruct (counts_other c y' l (not_subject _ _ _ H2 Hcb)) as (?&?&?&?&?&?&?). split_and!; congruence. }
  destruct Hi. split; try done.
  { rewrite (Hf (n_waits c)), (Hf (n_pend c)), (Hf (n_tries c)), (Hf (n_sigs c)), (Hf (n_owns c)), (Hf (n_inside c))
      by (intros; by apply (Hall _ _ H [])). done. }
  intros i. rewrite oi_queue0. pose proof (Hch i) as H. inversion H as [y y' Hy E1 E2|E1 E2]; [|done].
  destruct Hy as [->|Hy]; [done|].
  split; intros (l & E); destruct (Hall _ _ Hy l) as (_&_&_&_&_&_&?&?); congruence.
Qed.

(** a step that concerns the object [b] only *)
Lemma local_inv n s s' b o o' p k k' : ps_inv n s ->
  objs s !! b = Some o -> addr b s = Some p -> sems (kern s) !! p = Some k ->
  changed b (thrs s) (thrs s') -> objs s' = <[b := o']> (objs s) ->
  semStore (kern s') = semStore (kern s) -> sems (kern s') = <[p := k']> (sems (kern s)) ->
  o_kind o' = o_kind o -> kSem o' = kSem o -> o_live o' = o_live o ->
  (forall j y y', thrs s !! j = Some y -> thrs s' !! j = Some y' -> y' = y \/ pc_ok s (t_pc y')) ->
  obj_inv n (thrs s') b o' k' -> ps_inv n s'.
Proof.
  intros Hi Ho Hp Hk Hch Eo Est Ek Ekd Eks Elv Hpc Hob. pose proof (lookup_lt_Some _ _ _ Ho) as Hlt.
  assert (forall c, addr c s' = addr c s) as Ha.
  { intros c. unfold addr. rewrite Eo, Est. destruct (decide (b = c)) as [<-|Hne].
    - rewrite list_lookup_insert_eq, Ho by done. cbn. by rewrite Eks, Elv.
    - by rewrite list_lookup_insert_ne. }
  assert (forall pc, pc_ok s pc -> pc_ok s' pc) as Hpcs.
  { intros pc H c Hc. destruct (H c Hc) as (oc & H1 & H2 & H3 & H4). rewrite Eo. destruct (decide (b = c)) as [<-|Hne].
    - exists o'. rewrite list_lookup_insert_eq by done. assert (oc = o) as -> by congruence. rewrite Elv, Ekd.
      split_and!; try done. by destruct pc; rewrite ?Ha.
    - exists oc. rewrite list_lookup_insert_ne by done. split_and!; try done. by destruct pc; rewrite ?Ha. }
  split.
  - rewrite <- (pi_len _ _ Hi). apply Nat.le_antisymm; apply Nat.le_ngt; intros H;
      [pose proof (Hch (length (thrs s))) as H'|pose proof (Hch (length (thrs s'))) as H'].
    + rewrite lookup_ge_None_2 in H' by lia. inversion H' as [|E]. symmetry in H0. apply lookup_ge_None_1 in H0. lia.
    + rewrite (lookup_ge_None_2 (thrs s')) in H' by lia. inversion H' as [|E]. symmetry in E. apply lookup_ge_None_1 in E. lia.
  - rewrite Est. apply Hi.
  - intros c oc Hoc Hl. rewrite Ha. rewrite Eo in Hoc. destruct (decide (c = b)) as [->|Hne].
    + rewrite list_lookup_insert_eq in Hoc by done. simplify_eq. exists p, k'. split; [done|].
      rewrite Ek. by rewrite lookup_insert_eq.
    + rewrite list_lookup_insert_ne in Hoc by done. destruct (pi_objs _ _ Hi c oc Hoc Hl) as (pc & kc & H1 & H2 & H3).
      exists pc, kc. split; [done|]. rewrite Ek, lookup_insert_ne; [split; [done|]; by eapply obj_inv_frame|].
      intros ->. apply Hne. by apply (pi_addr _ _ Hi c b pc).
  - intros c d q. rewrite !Ha. apply Hi.
  - intros j y' Hy'. pose proof (Hch j) as H. rewrite Hy' in H. inversion H as [y y'' Hy E1 E2|]. subst.
    destruct (Hpc j y y' (eq_sym E1) Hy') as [->|]; [|by apply Hpcs]. apply Hpcs. by apply (pi_pcs _ _ Hi j).
  - intros j y' c Hy' Hc. rewrite Eo, length_insert. pose proof (Hch j) as H. rewrite Hy' in H.
    inversion H as [y y'' Hy E1 E2|]. subst. destruct (decide (c = b)) as [->|Hne]; [done|].
    apply (pi_owned _ _ Hi j y c (eq_sym E1)). destruct Hy as [->|(_ & _ & Hy)]; [done|]. specialize (Hy c Hne).
    destruct (decide (c ∈ t_owned y)) as [|Hn]; [done|]. exfalso.
    apply occ_zero in Hn. rewrite <- Hy in Hn. by apply occ_zero in Hn.
Qed.

(** *** The counts of the object of a step *)
Lemma list_alter_insert_eq {A} (f : A -> A) (l : list A) i x y : l !! i = Some x -> alter f i (<[i := y]> l) = <[i := f y]> l.
Proof.
  intros Hx. rewrite (alter_insert _ _ _ y) by (by rewrite list_lookup_insert_eq by (by eapply lookup_lt_Some)).
  apply list_insert_insert_eq.
Qed.

Definition bounded (n : nat) (W P T S O : Z) : Prop :=
  0 <= W <= Z.of_nat n /\ 0 <= P /\ 0 <= T <= Z.of_nat n /\ 0 <= S <= Z.of_nat n /\ 0 <= O.

Lemma sums_bounded b ts : bounded (length ts) (lsum (n_waits b) ts) (lsum (n_pend b) ts) (lsum (n_tries b) ts)
  (lsum (n_sigs b) ts) (lsum (n_owns b) ts).
Proof.
  assert (forall x, 0 <= n_waits b x <= 1 /\ 0 <= n_pend b x <= 1 /\ 0 <= n_tries b x <= 1 /\ 0 <= n_sigs b x <= 1 /\ 0 <= n_owns b x) as H.
  { intros x. pose proof (occ_ge0 b (t_owned x)). unfold n_waits, n_pend, n_tries, n_sigs, n_owns.
    destruct (t_pc x); try (destruct (decide _)); lia. }
  unfold bounded. split_and!; try (apply lsum_nonneg; intros; apply H); try (apply lsum_le; intros; apply H).
Qed.

Lemma inside_nonneg b x : 0 <= n_inside b x.
Proof. unfold n_inside. destruct (t_pc x); try destruct (decide _); lia. Qed.

(** the thread waits in the queue of [b] *)
Definition queued (b : nat) (x : uthr) : bool := match t_pc x with UBlocked b' => bool_decide (b' = b) | _ => false end.

Lemma queued_spec b x : queued b x = true <-> exists l, x = mkThr (UBlocked b) l.
Proof.
  unfold queued. destruct x as [pc l]; cbn. split; [|intros (l' & [= -> ->]); by rewrite bool_decide_true].
  destruct pc; try done. intros ->%bool_decide_eq_true. by exists l.
Qed.

Lemma nums_step n ts b o k i x x' o' k' : obj_inv n ts b o k -> length ts = n -> ts !! i = Some x ->
  (forall W P T S O I, bounded n W P T S O -> T = lsum (n_tries b) ts -> n_inside b x <= I -> nums n W P T S O I o k ->
    nums n (W - n_waits b x + n_waits b x') (P - n_pend b x + n_pend b x') (T - n_tries b x + n_tries b x')
      (S - n_sigs b x + n_sigs b x') (O - n_owns b x + n_owns b x') (I - n_inside b x + n_inside b x') o' k') ->
  nums n (lsum (n_waits b) (<[i := x']> ts)) (lsum (n_pend b) (<[i := x']> ts)) (lsum (n_tries b) (<[i := x']> ts))
    (lsum (n_sigs b) (<[i := x']> ts)) (lsum (n_owns b) (<[i := x']> ts)) (lsum (n_inside b) (<[i := x']> ts)) o' k'.
Proof.
  intros Hi Hn Hx Hnum. rewrite !(lsum_insert _ _ _ _ _ Hx).
  apply Hnum; [rewrite <- Hn; apply sums_bounded|done| |apply Hi].
  apply lsum_ge with (i := i); [apply inside_nonneg|done].
Qed.

Lemma obj_step n ts b o k i x x' o' k' : obj_inv n ts b o k -> length ts = n -> ts !! i = Some x ->
  queued b x = false -> queued b x' = false -> s_bq k' = s_bq k -> (s_bq k <> [] -> s_counter k' = s_counter k) ->
  (forall W P T S O I, bounded n W P T S O -> T = lsum (n_tries b) ts -> n_inside b x <= I -> nums n W P T S O I o k ->
    nums n (W - n_waits b x + n_waits b x') (P - n_pend b x + n_pend b x') (T - n_tries b x + n_tries b x')
      (S - n_sigs b x + n_sigs b x') (O - n_owns b x + n_owns b x') (I - n_inside b x + n_inside b x') o' k') ->
  obj_inv n (<[i := x']> ts) b o' k'.
Proof.
  intros Hi Hn Hx Hq Hq' Eq Ec Hnum. pose proof Hi as [_ Hnd Hqu He]. split.
  - by eapply nums_step.
  - by rewrite Eq.
  - intros j. rewrite Eq, Hqu. destruct (decide (i = j)) as [<-|Hne]; [|by rewrite list_lookup_insert_ne].
    rewrite list_lookup_insert_eq by (by eapply lookup_lt_Some). rewrite Hx.
    split; intros (l & [= ->]); [pose proof (proj2 (queued_spec b (mkThr (UBlocked b) l)) ltac:(eauto)); congruence|].
    pose proof (proj2 (queued_spec b (mkThr (UBlocked b) l)) ltac:(eauto)); congruence.
  - rewrite Eq. intros H. by rewrite Ec, He.
Qed.

Lemma sword_small x : - 2 ^ 63 <= x < 2 ^ 63 -> sword x = x.
Proof.
  intros H. unfold sword, to_signed, wrap. destruct (Z.lt_ge_cases x 0).
  - rewrite <- (Z.mod_add x 1) by lia. rewrite Z.mod_small by lia. destruct (Z.ltb_spec (x + 1 * 2 ^ 64) (2 ^ (64 - 1))); lia.
  - rewrite Z.mod_small by lia. destruct (Z.ltb_spec x (2 ^ (64 - 1))); lia.
Qed.

(** the counter does not overflow *)
Lemma counter_small n W P T S O I o k : bounded n W P T S O -> nums n W P T S O I o k -> Z.of_nat n < 2 ^ 61 ->
  - 2 ^ 62 < counter o < 2 ^ 62.
Proof.
  intros (HW & HP & HT & HS & HO) [] Hn. unfold eff in *.
  destruct (o_kind o); [specialize (nu_mutex0 eq_refl); lia|specialize (nu_cond0 eq_refl); lia].
Qed.

(** *** The steps *)
Lemma with_sem_id p k kn : sems kn !! p = Some k -> with_sem p k kn = kn.
Proof. intros H. unfold with_sem. rewrite insert_id by done. by destruct kn. Qed.

Lemma pc_ok_intro s b o pc : objs s !! b = Some o -> o_live o = true -> (subject pc = None \/ subject pc = Some b) ->
  kind_ok pc (o_kind o) -> match pc with UInP _ p | UInV _ p _ => addr b s = Some p | _ => True end -> pc_ok s pc.
Proof. intros Ho Hl Hs Hk Ha c Hc. assert (c = b) as -> by (destruct Hs; congruence). by exists o. Qed.

Lemma step_at n s s' i x x' b o o' p k k' : ps_inv n s -> thrs s !! i = Some x ->
  objs s !! b = Some o -> o_live o = true -> addr b s = Some p -> sems (kern s) !! p = Some k -> obj_inv n (thrs s) b o k ->
  thrs s' = <[i := x']> (thrs s) -> objs s' = <[b := o']> (objs s) -> kern s' = with_sem p k' (kern s) ->
  o_kind o' = o_kind o -> kSem o' = kSem o -> o_live o' = o_live o ->
  (subject (t_pc x) = None \/ subject (t_pc x) = Some b) -> (subject (t_pc x') = None \/ subject (t_pc x') = Some b) ->
  (forall c, c <> b -> occ c (t_owned x') = occ c (t_owned x)) ->
  kind_ok (t_pc x') (o_kind o) -> match t_pc x' with UInP _ q | UInV _ q _ => q = p | _ => True end ->
  queued b x = false -> queued b x' = false -> s_bq k' = s_bq k -> (s_bq k <> [] -> s_counter k' = s_counter k) ->
  (forall W P T S O I, bounded n W P T S O -> T = lsum (n_tries b) (thrs s) -> n_inside b x <= I -> nums n W P T S O I o k ->
    nums n (W - n_waits b x + n_waits b x') (P - n_pend b x + n_pend b x') (T - n_tries b x + n_tries b x')
      (S - n_sigs b x + n_sigs b x') (O - n_owns b x + n_owns b x') (I - n_inside b x + n_inside b x') o' k') ->
  ps_inv n s'.
Proof.
  intros Hi Hx Ho Hl Ha Hk Hob Et Eo Ek Ekd Eks Elv Hs Hs' Hocc Hkd Had Hq Hq' Ebq Ec Hn.
  apply (local_inv n s s' b o o' p k k'); try done.
  - rewrite Et. by eapply changed_insert.
  - by rewrite Ek.
  - by rewrite Ek.
  - intros j y y' Hy. rewrite Et. intros [(<- & <- & _)|[_ E]]%list_lookup_insert_Some; [|left; congruence].
    right. eapply pc_ok_intro; try done. by destruct (t_pc x'); rewrite ?Had.
  - rewrite Et. eapply obj_step; try done. apply Hi.
Qed.

(** what is known of the object of a thread, or of a call *)
Lemma obj_of n s b o : ps_inv n s -> objs s !! b = Some o -> o_live o = true -> exists p k,
  addr b s = Some p /\ value (semStore (kern s)) (kSem o) = Some p /\ sems (kern s) !! p = Some k /\ obj_inv n (thrs s) b o k.
Proof.
  intros Hi Ho Hl. destruct (pi_objs _ _ Hi b o Ho Hl) as (p & k & Ha & Hk & Hob). exists p, k. split_and!; try done.
  unfold addr in Ha. rewrite Ho in Ha. cbn in Ha. by rewrite Hl in Ha.
Qed.

Lemma live_spec k b s : live k b s = true -> exists o, objs s !! b = Some o /\ o_live o = true /\ o_kind o = k.
Proof.
  unfold live. destruct (objs s !! b) as [o|]; [|done]. intros [Hl Hk]%andb_true_iff. exists o. by destruct k, (o_kind o).
Qed.

Ltac numeric := 
  let Hb := fresh in let Hnu := fresh in let HT := fresh "HT" in
  let HI := fresh "HI" in intros ?W ?P ?T ?S ?O ?I Hb HT HI Hnu;
  pose proof (counter_small _ _ _ _ _ _ _ _ _ Hb Hnu ltac:(done));
  destruct Hb as (? & ? & ? & ? & ?), Hnu as [?A1 ?A2 ?A3 ?A4 ?A5 ?A6];
  unfold eff in *;
  unfold n_inside in HI; unfold n_waits, n_pend, n_tries, n_sigs, n_owns, n_inside; cbn in *;
  rewrite ?decide_True in * by done;
  split; unfold eff in *; cbn; rewrite ?sword_small by lia; intros;
  repeat match goal with
  | H : o_kind ?o = ?k -> _, K : o_kind ?o = ?k |- _ => specialize (H K)
  | H : 0 < ?t -> _ |- _ => destruct (Z.lt_ge_cases 0 t); [specialize (H ltac:(assumption))|clear H]
  end; try congruence; try lia.

Lemma wake_queue (ts : list uthr) b t q i p l lt all : ts !! t = Some (mkThr (UBlocked b) lt) -> ts !! i = Some (mkThr (UInV b p all) l) -> t ∉ q ->
  (forall j : nat, j ∈ t :: q <-> exists l, ts !! j = Some (mkThr (UBlocked b) l)) ->
  forall j : nat, j ∈ q <-> exists l', <[i := mkThr (after_V b all) l]> (<[t := mkThr (URetP b) lt]> ts) !! j = Some (mkThr (UBlocked b) l').
Proof.
  intros Ht Hx Htq Hqu j. pose proof (lookup_lt_Some _ _ _ Hx). pose proof (lookup_lt_Some _ _ _ Ht).
  destruct (decide (i = j)) as [<-|].
  { rewrite list_lookup_insert_eq by (by rewrite length_insert). split; [|intros (l' & [= E]); by destruct (all : bool)].
    intros Hj. destruct (proj1 (Hqu i)) as (? & ?); [by apply list_elem_of_further|congruence]. }
  rewrite list_lookup_insert_ne by done. destruct (decide (t = j)) as [<-|].
  { rewrite list_lookup_insert_eq by done. split; [done|]. by intros (? & ?). }
  rewrite list_lookup_insert_ne by done. rewrite <- Hqu, elem_of_cons. split; [by right|]. by intros [->|].
Qed.

Lemma sem_enter_live kn fs sid p k : ma_inv (semStore kn) fs -> value (semStore kn) sid = Some p -> sems kn !! p = Some k ->
  sem_enter sid kn = if s_lock k then None
    else Some (Ok (Some p, with_sem p (mkSem (s_counter k) (s_bq k) true) kn)).
Proof.
  intros Hi Hv Hk. unfold sem_enter. rewrite (valid_value _ fs Hi sid p Hv). cbn [mbind res_bind negb].
  rewrite (get_value _ fs Hi sid p Hv). cbn [mbind res_bind]. unfold sem_at. by rewrite Hk.
Qed.

Section step.
Context (n : nat) (Hn : Z.of_nat n < 2 ^ 61) (s : upstate) (Hi : ps_inv n s) (i b : nat) (l : list nat) (o : obj)
  (Ho : objs s !! b = Some o) (Hl : o_live o = true).

(** the object [b] changes to [o'], the semaphore to [k'], thread [i] to [x'] *)
Ltac at_step x' :=
  let p := fresh "p" in let k := fresh "k" in
  destruct (obj_of n s b o Hi Ho Hl) as (p & k & ?Ha & ?Hv & ?Hk & ?Hob);
  eapply (step_at n s _ i _ x' b o _ p k k Hi); try eassumption;
  [cbn; by erewrite alter_insert by eassumption
  |cbn; first [by erewrite alter_insert by eassumption | by rewrite list_insert_id]
  |by rewrite with_sem_id
  |try done..].

Lemma grant_inv : thrs s !! i = Some (mkThr UIdle l) -> 0 <= sword (counter o - 1) ->
  ps_inv n (grant i b (o_kind o) (add_counter b (-1) s)).
Proof using Hn Hi Ho Hl.
  intros Hx Hd. at_step (mkThr UIdle (match o_kind o with PMutex => b :: l | PCond => l end)).
  - cbn. by left.
  - cbn. by left.
  - intros c Hc. cbn. destruct (o_kind o); [|done]. rewrite occ_cons, decide_False by done. lia.
  - destruct (o_kind o) eqn:Ek; numeric; rewrite ?sword_small in * by lia; rewrite ?occ_cons, ?decide_True by done; lia.
Qed.

Lemma callP_inv : thrs s !! i = Some (mkThr UIdle l) -> sword (counter o - 1) < 0 ->
  ps_inv n (move i (UCallP b) (add_counter b (-1) s)).
Proof using Hn Hi Ho Hl.
  intros Hx Hd. at_step (mkThr (UCallP b) l).
  - by left.
  - by right.
  - numeric; rewrite ?sword_small in * by lia; lia.
Qed.

Lemma tryP_inv : thrs s !! i = Some (mkThr UIdle l) -> o_kind o = PMutex -> sword (counter o - 1) < 0 ->
  ps_inv n (move i (UTryBack b) (add_counter b (-1) s)).
Proof using Hn Hi Ho Hl.
  intros Hx Hm Hd. at_step (mkThr (UTryBack b) l).
  - by left.
  - by right.
  - numeric; rewrite ?sword_small in * by lia; lia.
Qed.

Lemma tryback_inv : thrs s !! i = Some (mkThr (UTryBack b) l) -> o_kind o = PMutex ->
  ps_inv n (move i UIdle (add_counter b 1 s)).
Proof using Hn Hi Ho Hl.
  intros Hx Hm. at_step (mkThr UIdle l).
  - by right.
  - by left.
  - numeric; rewrite ?sword_small in * by lia; lia.
Qed.

Lemma retP_inv : thrs s !! i = Some (mkThr (URetP b) l) -> ps_inv n (grant i b (o_kind o) s).
Proof using Hn Hi Ho Hl.
  intros Hx. at_step (mkThr UIdle (match o_kind o with PMutex => b :: l | PCond => l end)).
  - cbn. by right.
  - cbn. by left.
  - intros c Hc. cbn. destruct (o_kind o); [|done]. rewrite occ_cons, decide_False by done. lia.
  - destruct (o_kind o) eqn:Ek; numeric; rewrite ?occ_cons, ?decide_True by done; lia.
Qed.

Lemma signal_inv all : thrs s !! i = Some (mkThr (USignal b all) l) -> o_kind o = PCond ->
  ps_inv n (move i (if 0 <=? counter o then UIdle else USignalV b all) s).
Proof using Hn Hi Ho Hl.
  intros Hx Hc. at_step (mkThr (if 0 <=? counter o then UIdle else USignalV b all) l).
  1-5: by destruct (0 <=? counter o); cbn; auto.
  destruct (Z.leb_spec 0 (counter o)); numeric; lia.
Qed.

(** V by the owner of a mutex, which is not being tried, or by a signal *)
Lemma V_inv all x : thrs s !! i = Some x ->
  (t_pc x = UIdle /\ all = false /\ o_kind o = PMutex /\ lsum (n_tries b) (thrs s) = 0 /\ b ∈ t_owned x /\ l = remove_one b (t_owned x)) \/
  (t_pc x = USignalV b all /\ o_kind o = PCond /\ l = t_owned x) ->
  forall s', kern s' = kern s -> objs s' = <[b := mkObj (o_kind o) (sword (counter o + 1)) (kSem o) (o_live o)]> (objs s) ->
  thrs s' = <[i := mkThr (if 1 <=? sword (counter o + 1) then after_V b all else UCallV b all) l]> (thrs s) -> ps_inv n s'.
Proof using Hn Hi Ho Hl.
  intros Hx Hc s' Es Eo Et. destruct (obj_of n s b o Hi Ho Hl) as (p & k & Ha & Hv & Hk & Hob).
  destruct x as [pc lx]. cbn in Hc.
  assert (forall c, c <> b -> occ c l = occ c lx) as Hocc.
  { intros c Hcb. destruct Hc as [(_ & _ & _ & _ & _ & ->)|(_ & _ & ->)]; [|done]. apply occ_remove_ne. congruence. }
  assert (o_kind o = PMutex -> occ b l = occ b lx - 1) as Hocb.
  { destruct Hc as [(_ & _ & _ & _ & Hin & ->)|(_ & -> & _)]; [intros _; by apply occ_remove|done]. }
  eapply (step_at n s s' i _ _ b o _ p k k Hi Hx Ho Hl Ha Hk Hob Et Eo); try done.
  - by rewrite with_sem_id.
  - destruct Hc as [(-> & _)|(-> & _)]; cbn; auto.
  - destruct (1 <=? _), all; cbn; auto.
  - cbn. destruct Hc as [(-> & -> & -> & _)|(-> & -> & _)], (1 <=? _); try done; by destruct (all : bool).
  - destruct (1 <=? _), all; done.
  - destruct Hc as [(-> & _)|(-> & _)]; done.
  - destruct (1 <=? _), all; done.
  - destruct Hc as [(-> & -> & Ek & E0 & _)|(-> & Ek & _)], (Z.leb_spec 1 (sword (counter o + 1)));
      try destruct (all : bool); numeric; rewrite ?sword_small in * by lia; lia.
Qed.

Lemma start_signal_inv all : thrs s !! i = Some (mkThr UIdle l) -> o_kind o = PCond ->
  ps_inv n (move i (USignal b all) s).
Proof using Hn Hi Ho Hl.
  intros Hx Hc. at_step (mkThr (USignal b all) l).
  - by left.
  - by right.
  - numeric; lia.
Qed.

(** the steps in the system calls *)
Section kernel.
Context (p : Z) (k : ksem) (Ha : addr b s = Some p) (Hk : sems (kern s) !! p = Some k) (Hob : obj_inv n (thrs s) b o k).

Ltac in_kernel :=
  eapply (step_at n s _ i _ _ b o _ p k _ Hi); try eassumption;
  [cbn; by erewrite alter_insert by eassumption
  |cbn; by rewrite list_insert_id
  |done|try done..].

Lemma enterP_inv : thrs s !! i = Some (mkThr (UCallP b) l) -> s_lock k = false ->
  ps_inv n (move i (UInP b p) (with_kern (with_sem p (mkSem (s_counter k) (s_bq k) true) (kern s)) s)).
Proof using Hn Hi Ho Hl Ha Hk Hob.
  intros Hx Hlk. in_kernel; [by right..|]. numeric; rewrite Hlk in *; cbn in *; lia.
Qed.

Lemma enterV_inv all : thrs s !! i = Some (mkThr (UCallV b all) l) -> (all = true -> o_kind o = PCond) -> s_lock k = false ->
  ps_inv n (move i (UInV b p all) (with_kern (with_sem p (mkSem (s_counter k) (s_bq k) true) (kern s)) s)).
Proof using Hn Hi Ho Hl Ha Hk Hob.
  intros Hx Hall Hlk. in_kernel; [by right..|]. numeric; rewrite Hlk in *; cbn in *; lia.
Qed.

Lemma permitP_inv : thrs s !! i = Some (mkThr (UInP b p) l) -> 1 <= s_counter k ->
  ps_inv n (move i (URetP b) (with_kern (with_sem p (mkSem (s_counter k - 1) (s_bq k) false) (kern s)) s)).
Proof using Hn Hi Ho Hl Ha Hk Hob.
  intros Hx Hc. in_kernel; [by right..| |].
  - intros H. apply (oi_empty _ _ _ _ _ Hob) in H. lia.
  - numeric; destruct (s_lock k); cbn in *; lia.
Qed.

Lemma postV_inv all : thrs s !! i = Some (mkThr (UInV b p all) l) -> (all = true -> o_kind o = PCond) -> s_bq k = [] ->
  ps_inv n (move i (after_V b all) (with_kern (with_sem p (mkSem (wrap 64 (s_counter k + 1)) [] false) (kern s)) s)).
Proof using Hn Hi Ho Hl Ha Hk Hob.
  intros Hx Hall Hq. in_kernel.
  1-5: destruct (all : bool); cbn; auto.
  assert (0 <= s_counter k < 2 ^ 62) as Hc.
  { pose proof (sums_bounded b (thrs s)) as (H1 & H2 & _). rewrite (pi_len _ _ Hi) in H1.
    destruct (oi_nums _ _ _ _ _ Hob). lia. }
  rewrite wrap_small by lia. destruct (all : bool); numeric; destruct (s_lock k); cbn in *; lia.
Qed.

(** semP has to wait *)
Lemma waitP_inv : thrs s !! i = Some (mkThr (UInP b p) l) -> s_counter k < 1 ->
  ps_inv n (move i (UBlocked b) (with_kern (with_sem p (mkSem (s_counter k) (s_bq k ++ [i]) false) (kern s)) s)).
Proof using Hn Hi Ho Hl Ha Hk Hob.
  intros Hx Hc. pose proof (lookup_lt_Some _ _ _ Hx) as Hlt. set (s' := move _ _ _).
  assert (thrs s' = <[i := mkThr (UBlocked b) l]> (thrs s)) as Et by (cbn; by erewrite alter_insert by eassumption).
  eapply (local_inv n s s' b o o p k _ Hi Ho Ha Hk); try done.
  - rewrite Et. eapply changed_insert; [done|]. repeat split; cbn; auto.
  - by rewrite list_insert_id.
  - intros j y y' Hy. rewrite Et. intros [(<- & <- & _)|[_ E]]%list_lookup_insert_Some; [|left; congruence].
    right. apply (pc_ok_intro s b o); cbn; auto.
  - rewrite Et. pose proof Hob as [_ Hnd Hqu He]. split; cbn.
    + eapply nums_step; [done|apply Hi|done|]. numeric; destruct (s_lock k); cbn in *; lia.
    + apply NoDup_app. split; [done|]. split; [|apply NoDup_singleton].
      intros j (l' & Hj)%Hqu ->%list_elem_of_singleton. congruence.
    + intros j. rewrite elem_of_app, list_elem_of_singleton, Hqu. destruct (decide (i = j)) as [<-|Hne].
      * rewrite list_lookup_insert_eq by done. naive_solver.
      * rewrite list_lookup_insert_ne by done. naive_solver.
    + intros _. pose proof (nu_count _ _ _ _ _ _ _ _ _ (oi_nums _ _ _ _ _ Hob)). lia.
Qed.

(** semV resumes the first thread in the queue *)
Lemma wakeV_inv all t q : thrs s !! i = Some (mkThr (UInV b p all) l) -> (all = true -> o_kind o = PCond) -> s_bq k = t :: q ->
  ps_inv n (move i (after_V b all) (with_kern (with_sem p (mkSem (s_counter k) q false) (kern s)) (move t (URetP b) s))).
Proof using Hn Hi Ho Hl Ha Hk Hob.
  intros Hx Hall Hq. pose proof Hob as [Hnu Hnd Hqu He].
  destruct (proj1 (Hqu t) ltac:(rewrite Hq; apply list_elem_of_here)) as (lt & Ht).
  assert (i <> t) as Hne by congruence. set (s' := move _ _ _).
  assert (thrs s' = <[i := mkThr (after_V b all) l]> (<[t := mkThr (URetP b) lt]> (thrs s))) as Et.
  { cbn. rewrite (alter_insert _ _ _ _ Ht). by rewrite (alter_insert _ _ i (mkThr (UInV b p all) l))
      by (by rewrite list_lookup_insert_ne). }
  eapply (local_inv n s s' b o o p k _ Hi Ho Ha Hk); try done.
  - rewrite Et. eapply changed_insert2; try done; repeat split; cbn; auto. destruct (all : bool); cbn; auto.
  - by rewrite list_insert_id.
  - intros j y y' Hy. rewrite Et. intros [(<- & <- & _)|[_ [(<- & <- & _)|[_ E]]%list_lookup_insert_Some]]%list_lookup_insert_Some;
      [..|left; congruence]; right; apply (pc_ok_intro s b o); cbn; auto; destruct (all : bool); cbn; auto.
  - rewrite Et. assert (<[t := mkThr (URetP b) lt]> (thrs s) !! i = Some (mkThr (UInV b p all) l)) as Hx'
      by (by rewrite list_lookup_insert_ne). rewrite Hq in Hnd, He. apply NoDup_cons in Hnd as [Htq Hnd]. split; cbn; [|done| |].
    + rewrite !(lsum_insert _ _ _ _ _ Hx'), !(lsum_insert _ _ _ _ _ Ht).
      specialize (He ltac:(done)). generalize Hnu.
      generalize (lsum_ge _ _ _ _ (inside_nonneg b) Hx). generalize (eq_refl (lsum (n_tries b) (thrs s))).
      generalize (sums_bounded b (thrs s)). rewrite (pi_len _ _ Hi).
      generalize (lsum (n_waits b) (thrs s)) (lsum (n_pend b) (thrs s)) (lsum (n_tries b) (thrs s)) (lsum (n_sigs b) (thrs s))
        (lsum (n_owns b) (thrs s)) (lsum (n_inside b) (thrs s)).
      destruct (all : bool); numeric; destruct (s_lock k); cbn in *; lia.
    + eapply wake_queue; try done. intros j. by rewrite <- Hq.
    + intros Hqn. by apply He.
Qed.

End kernel.
End step.

(** a thread that is not in a call on [b] and does not own it *)
Lemma away b ts k : (forall i x, ts !! i = Some x -> subject (t_pc x) <> Some b /\ occ b (t_owned x) = 0) ->
  (forall f, f = n_waits \/ f = n_pend \/ f = n_tries \/ f = n_sigs \/ f = n_inside \/ f = n_owns -> lsum (f b) ts = 0) /\
  ((forall i : nat, i ∈ s_bq k <-> exists l, ts !! i = Some (mkThr (UBlocked b) l)) -> s_bq k = []).
Proof.
  intros H. split.
  - intros f Hf. apply lsum_zero. intros i x Hx. destruct (H i x Hx) as [Hs Ho].
    destruct (counts_other b x [] Hs) as (?&?&?&?&?&?&?). naive_solver congruence.
  - intros Hq. destruct (s_bq k) as [|t q]; [done|]. destruct (proj1 (Hq t)) as (l & Ht); [by apply list_elem_of_here|].
    by destruct (H t _ Ht).
Qed.

Lemma init_inv n s k p : ps_inv n s -> capacity (semStore (kern s)) < 2 ^ 61 -> sems (kern s) !! p = None ->
  exists sid kn, semCreate p 0 (kern s) = Ok (sid, kn) /\
    ps_inv n (mkPS kn (objs s ++ [mkObj k (match k with PMutex => 1 | PCond => 0 end) sid true]) (thrs s)).
Proof.
  intros Hi Hc Hp. destruct (pi_store _ _ Hi) as (fs & Hm & Hr).
  destruct (ma_put_spec (fun _ => true) _ fs p Hm Hc eq_refl) as (sid & st & fs' & Hput & Hm' & Hnone & _ & Hval & Hres).
  unfold semCreate. rewrite Hput. cbn [mbind res_bind]. eexists sid, _. split; [done|].
  set (o := mkObj k _ sid true). set (b := length (objs s)).
  assert (forall c, (c < b)%nat -> addr c (mkPS (mkK st (<[p:=mkSem 0 [] false]> (sems (kern s)))) (objs s ++ [o]) (thrs s)) = addr c s) as Ha.
  { intros c Hcb. unfold addr. cbn. rewrite lookup_app_l by done. destruct (lookup_lt_is_Some_2 _ _ Hcb) as (oc & Hoc).
    rewrite Hoc. cbn. destruct (o_live oc) eqn:Hl; [|done]. rewrite Hval.
    destruct (obj_of n s c oc Hi Hoc Hl) as (pc & kc & _ & Hv & _). rewrite decide_False; [done|]. congruence. }
  assert (addr b (mkPS (mkK st (<[p:=mkSem 0 [] false]> (sems (kern s)))) (objs s ++ [o]) (thrs s)) = Some p) as Hab.
  { unfold addr. cbn. rewrite lookup_app_r, Nat.sub_diag by done. cbn. rewrite Hval. by rewrite decide_True. }
  assert (forall c q, addr c s = Some q -> (c < b)%nat /\ q <> p) as Hold.
  { intros c q Hq. unfold addr in Hq. destruct (objs s !! c) as [oc|] eqn:Hoc; [|done]. cbn in Hq.
    split; [by eapply lookup_lt_Some|]. destruct (o_live oc) eqn:Hl; [|done].
    destruct (obj_of n s c oc Hi Hoc Hl) as (pc & kc & _ & Hv & Hs & _). congruence. }
  split; cbn.
  - apply Hi.
  - exists fs'. split; [done|]. intros i Hi'. by apply (Hr i), Hres.
  - intros c oc [Hoc|[Hcb Hoc]]%lookup_app_Some Hl.
    + pose proof (lookup_lt_Some _ _ _ Hoc). destruct (pi_objs _ _ Hi c oc Hoc Hl) as (pc & kc & H1 & H2 & H3).
      exists pc, kc. rewrite Ha by done. split; [done|]. split; [|done]. rewrite lookup_insert_ne; [done|].
      intros ->. by destruct (Hold c pc H1).
    + assert (c = b) as -> by (apply lookup_lt_Some in Hoc; cbn in Hoc; unfold b; lia). fold b in Hoc.
      rewrite Nat.sub_diag in Hoc. injection Hoc as <-. exists p, (mkSem 0 [] false). split; [done|].
      rewrite lookup_insert_eq. split; [done|]. destruct (away b (thrs s) (mkSem 0 [] false)) as [Hz _].
      { intros i x Hx. split; [intros E; destruct (pi_pcs _ _ Hi i x Hx b E) as (ob & E' & _); apply lookup_lt_Some in E'; unfold b in E'; lia|].
        apply occ_zero. intros Hin. pose proof (pi_owned _ _ Hi i x b Hx Hin). unfold b in *. lia. }
      split; cbn; [|constructor| |done].
      * rewrite (Hz n_waits), (Hz n_pend), (Hz n_tries), (Hz n_sigs), (Hz n_owns), (Hz n_inside) by tauto.
        destruct k; split; unfold eff, o; cbn; try done; lia.
      * intros i. split; [by intros ?%elem_of_nil|]. intros (l & Hx). destruct (pi_pcs _ _ Hi i _ Hx b eq_refl) as (ob & E & _).
        apply lookup_lt_Some in E. unfold b in E. lia.
  - intros c d q Hc1 Hd1.
    assert (forall c, addr c (mkPS (mkK st (<[p:=mkSem 0 [] false]> (sems (kern s)))) (objs s ++ [o]) (thrs s)) = Some q ->
      (c < b)%nat \/ c = b) as Hlt.
    { intros e He. unfold addr in He. destruct ((objs s ++ [o]) !! e) eqn:E; cbn in He; rewrite E in He; [|done].
      apply lookup_lt_Some in E. rewrite length_app in E. cbn in E. unfold b. lia. }
    destruct (Hlt c Hc1) as [Hcb| ->], (Hlt d Hd1) as [Hdb| ->]; [| | |done].
    + rewrite Ha in Hc1, Hd1 by done. by apply (pi_addr _ _ Hi c d q).
    + rewrite Ha in Hc1 by done. destruct (Hold c q Hc1). congruence.
    + rewrite Ha in Hd1 by done. destruct (Hold d q Hd1). congruence.
  - intros i x Hx c Hs. destruct (pi_pcs _ _ Hi i x Hx c Hs) as (oc & H1 & H2 & H3 & H4). exists oc.
    pose proof (lookup_lt_Some _ _ _ H1). cbn. rewrite lookup_app_l by done. split_and!; try done.
    by destruct (t_pc x); rewrite ?Ha.
  - intros i x c Hx Hin. rewrite length_app. pose proof (pi_owned _ _ Hi i x c Hx Hin). lia.
Qed.

Lemma destroy_inv n s b o : ps_inv n s -> objs s !! b = Some o -> o_live o = true ->
  (forall i x, thrs s !! i = Some x -> subject (t_pc x) <> Some b /\ occ b (t_owned x) = 0) ->
  exists kn, semDestroy (kSem o) (kern s) = Ok (0, kn) /\
    ps_inv n (mkPS kn (alter (fun o => mkObj (o_kind o) (counter o) (kSem o) false) b (objs s)) (thrs s)).
Proof.
  intros Hi Ho Hl Haway. destruct (pi_store _ _ Hi) as (fs & Hm & Hr).
  destruct (obj_of n s b o Hi Ho Hl) as (p & k & Ha & Hv & Hk & Hob).
  destruct (away b (thrs s) k Haway) as [_ Hq]. specialize (Hq (oi_queue _ _ _ _ _ Hob)).
  destruct (ma_remove_spec _ fs _ p Hm Hv) as (st & Hrem & Hm' & Hval & Hres).
  unfold semDestroy. rewrite (valid_value _ fs Hm _ p Hv). cbn [mbind res_bind negb].
  rewrite (get_value _ fs Hm _ p Hv). cbn [mbind res_bind]. unfold sem_at. rewrite Hk. cbn [mbind res_bind].
  rewrite bool_decide_true by done. cbn [negb]. rewrite Hrem. cbn [mbind res_bind]. eexists. split; [done|].
  rewrite (alter_insert _ _ _ _ Ho). set (o' := mkObj _ _ _ false). set (s' := mkPS _ _ _).
  pose proof (lookup_lt_Some _ _ _ Ho) as Hlt.
  assert (addr b s' = None) as Hb by (unfold addr; cbn; by rewrite list_lookup_insert_eq).
  assert (forall c, c <> b -> addr c s' = addr c s) as Hac.
  { intros c Hne. unfold addr. cbn. rewrite list_lookup_insert_ne by done. destruct (objs s !! c) as [oc|] eqn:Hoc; [|done]. cbn.
    destruct (o_live oc) eqn:Hlc; [|done]. rewrite Hval. destruct (obj_of n s c oc Hi Hoc Hlc) as (pc & kc & Hpc & Hvc & _).
    rewrite decide_False; [done|]. intros E. apply Hne. apply (pi_addr _ _ Hi c b p); [|done]. congruence. }
  assert (forall c q, addr c s' = Some q -> c <> b) as Hne by (intros c q Hc ->; congruence).
  split; cbn.
  - apply Hi.
  - exists (kSem o :: fs). split; [done|]. intros i Hi'. by apply (Hr i), Hres.
  - intros c oc Hoc Hlc. destruct (decide (c = b)) as [->|Hcb].
    { rewrite list_lookup_insert_eq in Hoc by done. injection Hoc as <-. done. }
    rewrite list_lookup_insert_ne in Hoc by done. destruct (pi_objs _ _ Hi c oc Hoc Hlc) as (pc & kc & H1 & H2 & H3).
    exists pc, kc. rewrite Hac by done. split; [done|]. split; [|done]. rewrite lookup_delete_ne; [done|].
    intros ->. apply Hcb. by apply (pi_addr _ _ Hi c b pc).
  - intros c d q Hc Hd. pose proof (Hne c q Hc). pose proof (Hne d q Hd). rewrite Hac in Hc, Hd by done.
    by apply (pi_addr _ _ Hi c d q).
  - intros i x Hx c Hs. destruct (Haway i x Hx) as [Hsb _]. assert (c <> b) as Hcb by congruence.
    destruct (pi_pcs _ _ Hi i x Hx c Hs) as (oc & H1 & H2 & H3 & H4). exists oc. cbn.
    rewrite list_lookup_insert_ne by done. split_and!; try done. by destruct (t_pc x); rewrite ?Hac.
  - intros i x c Hx Hin. rewrite length_insert. by apply (pi_owned _ _ Hi i x).
Qed.

(** ** All operations *)
Lemma pcall_inv s i b (f : obj -> upstate -> upstate) r : pcall i b f s = Some r -> exists o l,
  objs s !! b = Some o /\ thrs s !! i = Some (mkThr UIdle l) /\ r = Ok (f o s).
Proof.
  unfold pcall. destruct (thrs s !! i) as [[pc l]|]; [|done]. cbn. destruct (objs s !! b) as [o|]; [|done]. cbn.
  destruct pc; try done. intros [= <-]. by exists o, l.
Qed.

Lemma ustep_inv n s i r : Z.of_nat n < 2 ^ 61 -> ps_inv n s -> ustep i s = Some r -> exists s', r = Ok s' /\ ps_inv n s'.
Proof.
  intros Hn Hi. unfold ustep. destruct (thrs s !! i) as [[pc l]|] eqn:Hx; [|done]. cbn.
  pose proof (pi_pcs _ _ Hi i _ Hx) as Hpc. cbn in Hpc. destruct (pi_store _ _ Hi) as (fs & Hm & _).
  destruct pc as [|b|b|b p|b|b|b all|b p all|b all|b all]; try done;
    destruct (Hpc b eq_refl) as (o & Ho & Hl & Hkd & Hap); cbn in Hkd;
    destruct (obj_of n s b o Hi Ho Hl) as (p' & k & Ha & Hv & Hk & Hob); rewrite ?Ho; cbn.
  - intros [= <-]. eexists. split; [done|]. by eapply tryback_inv.
  - rewrite (sem_enter_live _ fs _ p' k Hm Hv Hk). destruct (s_lock k) eqn:El; [done|]. cbn. intros [= <-].
    eexists. split; [done|]. by eapply enterP_inv.
  - assert (p' = p) as -> by congruence. unfold sem_P, sem_at. rewrite Hk. cbn. destruct (Z.ltb_spec (s_counter k) 1); cbn;
      intros [= <-]; eexists; (split; [done|]); [by eapply waitP_inv|by eapply permitP_inv].
  - intros [= <-]. eexists. split; [done|]. by eapply retP_inv.
  - rewrite (sem_enter_live _ fs _ p' k Hm Hv Hk). destruct (s_lock k) eqn:El; [done|]. cbn. intros [= <-].
    eexists. split; [done|]. by eapply enterV_inv.
  - assert (p' = p) as -> by congruence. unfold sem_V, sem_at. rewrite Hk. cbn. destruct (s_bq k) as [|t q] eqn:Eq; cbn;
      intros [= <-]; eexists; (split; [done|]); [by eapply postV_inv|].
    by eapply wakeV_inv.
  - intros [= <-]. eexists. split; [done|]. by eapply signal_inv.
  - intros [= <-]. eexists. split; [done|]. eapply V_inv; [done..|by right| | |]; unfold ben_V;
      destruct (1 <=? _); cbn; rewrite ?(alter_insert _ _ _ _ Ho), ?(alter_insert _ _ _ _ Hx); try done.
Qed.

Lemma pexec_inv n s op r : Z.of_nat n < 2 ^ 61 -> ps_inv n s -> proper op s = true -> pexec op s = Some r ->
  exists s', r = Ok s' /\ ps_inv n s'.
Proof.
  intros Hn Hi. destruct op as [k p|b|i b|i b|i b|i b m|i b|i b|i]; cbn [pexec proper].
  - intros Hc%Z.ltb_lt. destruct (decide _) as [|Hp]; [done|]. intros [= <-].
    destruct (init_inv n s k p Hi Hc) as (sid & kn & -> & Hi'); [by apply eq_None_not_Some|]. cbn. eauto.
  - intros [Hlv Haw]%andb_true_iff. assert (exists o, objs s !! b = Some o /\ o_live o = true) as (o & Ho & Hl).
    { apply orb_true_iff in Hlv as [H|H]; apply live_spec in H as (o & ? & ? & _); eauto. }
    rewrite Ho. cbn. intros [= <-]. destruct (destroy_inv n s b o Hi Ho Hl) as (kn & -> & Hi'); [|cbn; eauto].
    intros i x Hx. rewrite forallb_forall in Haw. specialize (Haw x ltac:(apply list_elem_of_In; by eapply list_elem_of_lookup_2)).
    apply andb_true_iff in Haw as [H1%negb_true_iff%bool_decide_eq_false H2%Z.eqb_eq]. done.
  - intros (o & Ho & Hl & Hkd)%live_spec (o' & l & Ho' & Hx & ->)%pcall_inv. assert (o' = o) as -> by congruence.
    eexists. split; [done|]. unfold ben_P. destruct (Z.leb_spec 0 (sword (counter o - 1)));
      [by eapply grant_inv|by eapply callP_inv].
  - intros (o & Ho & Hl & Hkd)%live_spec (o' & l & Ho' & Hx & ->)%pcall_inv. assert (o' = o) as -> by congruence.
    eexists. split; [done|]. unfold ben_tryP. destruct (Z.leb_spec 0 (sword (counter o - 1)));
      [by eapply grant_inv|by eapply tryP_inv].
  - intros [[(o & Ho & Hl & Hkd)%live_spec Ht%Z.eqb_eq]%andb_true_iff Hown]%andb_true_iff (o' & l & Ho' & Hx & ->)%pcall_inv.
    assert (o' = o) as -> by congruence. rewrite Hx in Hown. apply bool_decide_eq_true in Hown.
    eexists. split; [done|]. eapply V_inv; [done..|by left| | |]; unfold ben_V, disown;
      destruct (1 <=? _); cbn; rewrite ?(alter_insert _ _ _ _ Ho), ?(alter_insert _ _ _ _ Hx); try done.
    all: by erewrite list_alter_insert_eq by eassumption.
  - intros (o & Ho & Hl & Hkd)%live_spec (o' & l & Ho' & Hx & ->)%pcall_inv. assert (o' = o) as -> by congruence.
    eexists. split; [done|]. unfold ben_P. destruct (Z.leb_spec 0 (sword (counter o - 1)));
      [by eapply grant_inv|by eapply callP_inv].
  - intros (o & Ho & Hl & Hkd)%live_spec (o' & l & Ho' & Hx & ->)%pcall_inv. assert (o' = o) as -> by congruence.
    eexists. split; [done|]. by eapply start_signal_inv.
  - intros (o & Ho & Hl & Hkd)%live_spec (o' & l & Ho' & Hx & ->)%pcall_inv. assert (o' = o) as -> by congruence.
    eexists. split; [done|]. by eapply start_signal_inv.
  - intros _. by apply ustep_inv.
Qed.

Lemma upstate_new_inv n : ps_inv n (upstate_new n).
Proof.
  assert (forall i x, thrs (upstate_new n) !! i = Some x -> x = mkThr UIdle []) as H by (intros i x Hx; by apply lookup_replicate in Hx as [-> _]).
  split.
  - apply length_replicate.
  - exists []. split; [by apply ma_new_inv|]. intros i (Hi & _). cbn in Hi. lia.
  - done.
  - done.
  - by intros i x ->%H c.
  - by intros i x b ->%H ?%elem_of_nil.
Qed.

Lemma psteps_inv n s : Z.of_nat n < 2 ^ 61 -> steps pstep (upstate_new n) s -> ps_inv n s.
Proof.
  intros Hn Hs. refine (steps_invariant pstep (ps_inv n) _ _ _ Hs (upstate_new_inv n)).
  intros s1 s2 Hi [op Hp He]. destruct (pexec_inv n s1 op _ Hn Hi Hp He) as (s' & [= ->] & Hi'). done.
Qed.

Definition is_owner (b : nat) (x : uthr) : Prop := b ∈ t_owned x \/ t_pc x = URetP b.

Lemma owner_count b x : is_owner b x -> 1 <= n_owns b x.
Proof.
  pose proof (occ_ge0 b (t_owned x)). unfold n_owns. intros [Hin|E].
  - destruct (decide (occ b (t_owned x) = 0)) as [E|]; [by apply occ_zero in E|].
    destruct (t_pc x); try destruct (decide _); lia.
  - rewrite E, decide_True by done. lia.
Qed.

Lemma n_owns_nonneg b x : 0 <= n_owns b x.
Proof. unfold n_owns. pose proof (occ_ge0 b (t_owned x)). destruct (t_pc x); try destruct (decide _); lia. Qed.

(** C2. The user library's mutexes exclude each other, for any number of
    threads (below 2^61) whose calls, atomic accesses and system calls
    interleave in any way: no call faults - in particular the kernel never
    uses a semaphore that was destroyed - and at most one thread owns a
    mutex.  The programs use the library as intended, and no mutex is
    unlocked in the middle of a failing [pthread_mutex_trylock] (see
    [trylock_breaks_mutex]). *)
Theorem pthread_mutex_exclusion n s :
  Z.of_nat n < 2 ^ 61 -> steps pstep (upstate_new n) s ->
  (forall op r, proper op s = true -> pexec op s = Some r -> is_ok r = true) /\
  (forall b i j x y, live PMutex b s = true -> thrs s !! i = Some x -> thrs s !! j = Some y ->
    is_owner b x -> is_owner b y -> i = j).
Proof.
  intros Hn Hs. pose proof (psteps_inv n s Hn Hs) as Hi. split.
  - intros op r Hp He. by destruct (pexec_inv n s op r Hn Hi Hp He) as (s' & -> & _).
  - intros b i j x y (o & Ho & Hl & Hk)%live_spec Hx Hy Hox Hoy.
    destruct (obj_of n s b o Hi Ho Hl) as (p & k & _ & _ & _ & Hob). destruct (decide (i = j)) as [|Hne]; [done|exfalso].
    pose proof (lsum_ge2 _ _ _ _ _ _ (n_owns_nonneg b) Hx Hy Hne) as H2.
    apply owner_count in Hox. apply owner_count in Hoy. pose proof (sums_bounded b (thrs s)) as (_ & ? & _).
    destruct (oi_nums _ _ _ _ _ Hob). specialize (nu_mutex0 Hk). lia.
Qed.

Definition race_free : list pop :=
  [Init PMutex 4096; MutexLock 0 0; MutexLock 1 0; Run 1; Run 1; MutexUnlock 0 0; Run 0; Run 0; Run 1].

Definition runp (ops : list pop) (s : upstate) : upstate :=
  foldl (fun s op => match pexec op s with Some (Ok s') => s' | _ => s end) s ops.

Fixpoint proper_run (ops : list pop) (s : upstate) : bool :=
  match ops with
  | [] => true
  | op :: ops => proper op s && match pexec op s with Some (Ok s') => proper_run ops s' | _ => false end
  end.

Lemma proper_run_steps ops s : proper_run ops s = true -> steps pstep s (runp ops s).
Proof.
  unfold runp. revert s. induction ops as [|op ops IH]; intros s; cbn; [constructor|].
  intros [Hp H]%andb_true_iff. destruct (pexec op s) as [[s'|]|] eqn:E; try done.
  eapply steps_step; [by exists op|]. by apply IH.
Qed.

Lemma pthread_mutex_exclusion_witness :
  let s := runp race_free (upstate_new 3) in
  map t_owned (thrs s) = [[]; [0]; []]%nat /\ (forall op r, proper op s = true -> pexec op s = Some r -> is_ok r = true).
Proof.
  split; [vm_compute; reflexivity|].
  refine (proj1 (pthread_mutex_exclusion 3 _ _ _)); [lia|]. apply proper_run_steps. vm_compute. reflexivity.
Defined.

(** ** No wake-up is lost *)
Lemma lock_held_runs n s b o p k : Z.of_nat n < 2 ^ 61 -> ps_inv n s -> objs s !! b = Some o -> o_live o = true ->
  addr b s = Some p -> sems (kern s) !! p = Some k -> obj_inv n (thrs s) b o k -> s_lock k = true ->
  exists i, ustep i s <> None.
Proof.
  intros Hn Hi Ho Hl Ha Hk Hob Hlk. pose proof (nu_lock _ _ _ _ _ _ _ _ _ (oi_nums _ _ _ _ _ Hob)) as Hin.
  rewrite Hlk in Hin. destruct (lsum_pos (n_inside b) (thrs s)) as (i & [pc l] & Hx & Hpos); [cbn in Hin; lia|].
  exists i. unfold ustep. rewrite Hx. cbn. unfold n_inside in Hpos. cbn in Hpos.
  destruct pc; try lia; done.
Qed.

(** the threads that cannot run *)
Lemma stuck_pcs n s i x : Z.of_nat n < 2 ^ 61 -> ps_inv n s -> (forall i, pexec (Run i) s = None) -> thrs s !! i = Some x ->
  t_pc x = UIdle \/ exists b, t_pc x = UBlocked b.
Proof.
  intros Hn Hi Hno Hx. destruct (pi_store _ _ Hi) as (fs & Hm & _). pose proof (Hno i) as H. cbn in H. unfold ustep in H.
  rewrite Hx in H. cbn in H. destruct (t_pc x) as [|b|b|b p|b|b|b all|b p all|b all|b all] eqn:Epc; eauto; exfalso;
    destruct (pi_pcs _ _ Hi i x Hx b ltac:(by rewrite Epc)) as (o & Ho & Hl & _);
    destruct (obj_of n s b o Hi Ho Hl) as (p' & k & Ha & Hv & Hk & Hob); rewrite ?Ho in H; cbn in H; try done.
  all: rewrite (sem_enter_live _ fs _ p' k Hm Hv Hk) in H; destruct (s_lock k) eqn:El; [|done];
    destruct (lock_held_runs n s b o p' k Hn Hi Ho Hl Ha Hk Hob El) as (j & Hj); by apply Hj, (Hno j).
Qed.

(** C12. No wake-up is lost in the user library: when no thread can take a
    step by itself, every thread in a call waits in the kernel, the counter of
    each mutex and condition is minus the number of threads that wait on it,
    and a mutex that threads wait for is owned by a thread. *)
Theorem pthread_no_lost_wakeup n s :
  Z.of_nat n < 2 ^ 61 -> steps pstep (upstate_new n) s -> (forall i, pexec (Run i) s = None) ->
  (forall i x, thrs s !! i = Some x -> t_pc x = UIdle \/ exists b, t_pc x = UBlocked b) /\
  (forall b o, objs s !! b = Some o -> o_live o = true ->
    lsum (n_waits b) (thrs s) = Z.max 0 (- counter o)) /\
  (forall b i x, live PMutex b s = true -> thrs s !! i = Some x -> t_pc x = UBlocked b ->
    exists j y, thrs s !! j = Some y /\ b ∈ t_owned y).
Proof.
  intros Hn Hs Hno. pose proof (psteps_inv n s Hn Hs) as Hi.
  pose proof (fun i x => stuck_pcs n s i x Hn Hi Hno) as Hpc.
  assert (forall f b, f = n_pend \/ f = n_tries -> lsum (f b) (thrs s) = 0) as Hz.
  { intros f b Hf. apply lsum_zero. intros i x Hx. unfold n_pend, n_tries in Hf.
    destruct (Hpc i x Hx) as [E|[c E]], Hf as [-> | ->]; by rewrite E. }
  split; [done|]. split.
  - intros b o Ho Hl. destruct (obj_of n s b o Hi Ho Hl) as (p & k & _ & _ & _ & Hob). destruct Hob as [[] _ Hq He].
    rewrite (Hz n_pend), (Hz n_tries) in nu_waits0 by tauto. unfold eff in nu_waits0.
    destruct (s_bq k) as [|t q] eqn:Eq.
    + assert (lsum (n_waits b) (thrs s) = 0) as Hw; [|lia]. apply lsum_zero. intros i [pc l] Hx. unfold n_waits.
      destruct (Hpc i _ Hx) as [E|[c E]]; cbn in *; subst; [done|]. destruct (decide (c = b)) as [->|]; [|done].
      exfalso. apply (not_elem_of_nil i), Hq. eauto.
    + rewrite (He ltac:(done)) in nu_waits0. rewrite Z.add_0_r in nu_waits0. lia.
  - intros b i [pc l] (o & Ho & Hl & Hk)%live_spec Hx Eb. cbn in Eb. subst pc.
    destruct (obj_of n s b o Hi Ho Hl) as (p & k & _ & _ & _ & Hob). destruct Hob as [[] _ Hq He].
    assert (i ∈ s_bq k) as Hin by (apply Hq; eauto). assert (s_bq k <> []) as Hne by (intros E; by rewrite E in Hin; apply elem_of_nil in Hin).
    specialize (He Hne). specialize (nu_mutex0 Hk). rewrite (Hz n_pend), (Hz n_tries) in * by tauto.
    pose proof (lsum_ge (n_waits b) _ _ _ (fun x => ltac:(unfold n_waits; destruct (t_pc x); try destruct (decide _); lia)) Hx) as Hw.
    unfold n_waits in Hw at 1. cbn in Hw. rewrite decide_True in Hw by done.
    destruct (lsum_pos (n_owns b) (thrs s)) as (j & y & Hy & Hpos); [lia|]. exists j, y. split; [done|].
    unfold n_owns in Hpos. destruct (Hpc j y Hy) as [E|[c E]]; rewrite E in Hpos; destruct (decide (b ∈ t_owned y)) as [|Hn']; try done;
      apply occ_zero in Hn'; lia.
Qed.

Lemma pthread_no_lost_wakeup_witness :
  let s := runp [Init PMutex 4096; MutexLock 0 0; MutexLock 1 0; Run 1; Run 1] (upstate_new 2) in
  map t_pc (thrs s) = [UIdle; UBlocked 0] /\
  (forall b i x, live PMutex b s = true -> thrs s !! i = Some x -> t_pc x = UBlocked b ->
    exists j y, thrs s !! j = Some y /\ b ∈ t_owned y).
Proof.
  split; [vm_compute; reflexivity|].
  refine (proj2 (proj2 (pthread_no_lost_wakeup 2 _ _ _ _))); [lia|apply proper_run_steps; vm_compute; reflexivity|].
  intros [|[|i]]; vm_compute; reflexivity.
Defined.

(** ** What goes wrong *)

(** T1 holds the mutex, T2's trylock has decremented the counter and not yet
    incremented it when T1 unlocks; T0 and T1 then lock the mutex *)
Definition race : list pop :=
  [Init PMutex 4096; MutexLock 1 0; MutexTrylock 2 0; MutexUnlock 1 0; Run 1; Run 1; Run 2;
   MutexLock 0 0; MutexLock 1 0; Run 1; Run 1; Run 1].
Lemma trylock_breaks_mutex :
  match prun race (upstate_new 3) with
  | Some (Ok s) => map t_owned (thrs s) = [[0]; [0]; []]%nat
  | _ => False
  end.
Proof. vm_compute. reflexivity. Qed.

(** pthread_cond_wait does not release the mutex: the thread that should
    signal waits for it, and no thread can run *)
Lemma cond_wait_keeps_mutex :
  let s := runp [Init PMutex 4096; Init PCond 8192; MutexLock 0 0; CondWait 0 1 0; Run 0; Run 0; MutexLock 1 0; Run 1; Run 1]
    (upstate_new 2) in
  thrs s = [mkThr (UBlocked 1) [0%nat]; mkThr (UBlocked 0) []] /\ forall i, pexec (Run i) s = None.
Proof. split; [vm_compute; reflexivity|]. intros [|[|i]]; vm_compute; reflexivity. Qed.

(** semDestroy does not see a thread that is in semP and not yet in the queue *)
Lemma destroyed_in_use :
  prun [Init PMutex 4096; MutexLock 0 0; MutexLock 1 0; Run 1; Destroy 0; Run 1] (upstate_new 2) = Some (Err NullDeref).
Proof. vm_compute. reflexivity. Qed.

(** after an object was destroyed, P returns as if the mutex was locked *)
Lemma lock_after_destroy :
  let s := runp [Init PMutex 4096; Destroy 0; MutexLock 0 0; MutexLock 1 0; Run 1; Run 1] (upstate_new 2) in
  map t_owned (thrs s) = [[0]; [0]]%nat.
Proof. vm_compute. reflexivity. Qed.
