(* ===== verification/Asm.v ===== *)
(** * Assembly: context switches, system calls and interrupts

    runtime/Stack.S, machine/syscall_wrapper.S, ulib/syscallStub.S, the macros
    of generic/regsave.h and of machine/isr_wrapper.S, as programs of a small
    machine: sixteen registers, the flags, the two bases of the gs segment and
    a memory of bytes.  A program is a list of instructions up to the next
    jump; a call of a C function is a gap in the program, in which the machine
    changes as the calling convention allows. *)
From Stdlib Require Import ZArith Lia Bool.
From stdpp Require Import base tactics option numbers list sets.
From S2P Require Import Prelude.

(** ** The machine *)
Inductive reg := RAX | RBX | RCX | RDX | RSI | RDI | RBP | RSP | R8 | R9 | R10 | R11 | R12 | R13 | R14 | R15.
Scheme Equality for reg.

Definition memory := Z -> Z.

Record mach := mkM {
  regs : reg -> Z;
  rip : Z;
  flags : Z;
  gs_base : Z;           (* the active base of gs *)
  gs_kernel : Z;         (* the one that swapgs exchanges it with *)
  mem : memory
}.

Fixpoint readn (n : nat) (m : memory) (a : Z) : Z :=
  match n with O => 0 | S n => m a + 256 * readn n m (a + 1) end.
Fixpoint writen (n : nat) (a v : Z) (m : memory) : memory :=
  match n with
  | O => m
  | S n => fun x => if x =? a then v mod 256 else writen n (a + 1) (v / 256) m x
  end.
Definition read64 : memory -> Z -> Z := readn 8.
Definition write64 : Z -> Z -> memory -> memory := writen 8.

Definition rset (r : reg) (v : Z) (m : mach) : mach :=
  mkM (fun r' => if reg_beq r r' then v else regs m r') (rip m) (flags m) (gs_base m) (gs_kernel m) (mem m).
Definition store (a v : Z) (m : mach) : mach :=
  mkM (regs m) (rip m) (flags m) (gs_base m) (gs_kernel m) (write64 a v (mem m)).
Definition set_rip (v : Z) (m : mach) : mach := mkM (regs m) v (flags m) (gs_base m) (gs_kernel m) (mem m).
Definition set_flags (v : Z) (m : mach) : mach := mkM (regs m) (rip m) v (gs_base m) (gs_kernel m) (mem m).

Inductive insn :=
  | Push (r : reg) | Pop (r : reg)
  | Mov (s d : reg) | MovI (i : Z) (d : reg)
  | Load (off : Z) (s d : reg)                 (* movq off(s), d *)
  | Store (s : reg) (off : Z) (d : reg)        (* movq s, off(d) *)
  | StoreI (i off : Z) (d : reg)               (* movq $i, off(d) *)
  | Lea (off : Z) (s d : reg)                  (* leaq off(s), d *)
  | AddI (i : Z) (d : reg)
  | LoadGs (off : Z) (d : reg) | StoreGs (s : reg) (off : Z)
  | Swapgs | Sti | Cli
  | Jmp (r : reg) | JmpTo (a : Z) | Ret
  | Syscall (next lstar : Z) | Sysret | Iret.

Definition IF_flag : Z := 0x200.
(** the flags that [syscall] clears: among them IF, see Processor::init *)
Definition syscall_mask (f : Z) : Z := Z.ldiff f IF_flag.

Definition push (v : Z) (m : mach) : mach :=
  let sp := wrap 64 (regs m RSP - 8) in store sp v (rset RSP sp m).
Definition pop_to (f : Z -> mach -> mach) (m : mach) : mach :=
  let sp := regs m RSP in f (read64 (mem m) sp) (rset RSP (wrap 64 (sp + 8)) m).

Definition exec (i : insn) (m : mach) : mach :=
  match i with
  | Push r => push (regs m r) m
  | Pop r => pop_to (rset r) m
  | Mov s d => rset d (regs m s) m
  | MovI i d => rset d i m
  | Load off s d => rset d (read64 (mem m) (wrap 64 (regs m s + off))) m
  | Store s off d => store (wrap 64 (regs m d + off)) (regs m s) m
  | StoreI i off d => store (wrap 64 (regs m d + off)) i m
  | Lea off s d => rset d (wrap 64 (regs m s + off)) m
  | AddI i d => rset d (wrap 64 (regs m d + i)) m
  | LoadGs off d => rset d (read64 (mem m) (wrap 64 (gs_base m + off))) m
  | StoreGs s off => store (wrap 64 (gs_base m + off)) (regs m s) m
  | Swapgs => mkM (regs m) (rip m) (flags m) (gs_kernel m) (gs_base m) (mem m)
  | Sti => set_flags (Z.lor (flags m) IF_flag) m
  | Cli => set_flags (Z.ldiff (flags m) IF_flag) m
  | Jmp r => set_rip (regs m r) m
  | JmpTo a => set_rip a m
  | Ret => pop_to set_rip m
  | Syscall next lstar => set_rip lstar (set_flags (syscall_mask (flags m)) (rset R11 (flags m) (rset RCX next m)))
  | Sysret => set_rip (regs m RCX) (set_flags (regs m R11) m)
  | Iret =>   (* rip, cs, rflags, rsp, ss *)
      let sp := regs m RSP in let w i := read64 (mem m) (wrap 64 (sp + i)) in
      set_rip (w 0) (set_flags (w 16) (rset RSP (w 24) m))
  end.

Definition run (c : list insn) (m : mach) : mach := foldl (fun m i => exec i m) m c.

(** ** generic/regsave.h *)
Definition STACK_PUSH : list insn := map Push [R15; R14; R13; R12; RBX; RBP].
Definition STACK_POP : list insn := map Pop [RBP; RBX; R12; R13; R14; R15].
Definition ISRFRAME : Z := 72.
Definition ISR_PUSH : list insn :=
  map Push [RAX; RCX; RDX; RDI; RSI; R8; R9; R10; R11].
Definition ISR_POP : list insn :=
  map Pop [R11; R10; R9; R8; RSI; RDI; RDX; RCX; RAX].

(** ** runtime/Stack.S *)
Definition stackDirect : list insn :=
  [MovI 0 RBP; Mov RDI RSP; Mov RSI RAX; Mov RDX RDI; Mov RCX RSI; Mov R8 RDX; Mov R9 RCX;
   Push RBP; Push RBP; Mov RSP RBP; Jmp RAX].
Definition stackInit (stubInit : Z) : list insn :=
  [StoreI 0 (-64) RDI; Store RSI (-56) RDI; Store RDX (-48) RDI; Store RCX (-40) RDI; Store R8 (-32) RDI;
   Store R9 (-24) RDI; StoreI stubInit (-16) RDI; Lea (-64) RDI RAX; Ret].
Definition stubInit_code (invokeThread : Z) : list insn :=
  [Mov RAX RDI; Mov RBX RSI; Mov R12 RDX; Mov R13 RCX; Mov R14 R8; Mov R15 R9;
   Push RBP; Push RBP; Mov RSP RBP; JmpTo invokeThread].
Definition stackSwitch : list insn :=
  STACK_PUSH ++ [Store RSP 0 RDX; Mov RCX RSP] ++ STACK_POP ++ [Jmp RSI].

(** ** ulib/syscallStub.S, machine/syscall_wrapper.S *)
Definition TSSRSP : Z := 0x44.
(** [next]: the address of the instruction after [syscall] *)
Definition syscallStub_enter (next lstar : Z) : list insn := STACK_PUSH ++ [Mov RCX R10; Syscall next lstar].
Definition syscallStub_leave : list insn := STACK_POP ++ [Ret].
(** up to, and after, [call syscall_handler] *)
Definition syscall_wrapper_enter : list insn :=
  [Swapgs; Mov RSP RAX; LoadGs TSSRSP RSP; Sti; Push RAX; Push R11; Push RCX; Mov R10 RCX].
Definition syscall_wrapper_leave : list insn :=
  [Pop RCX; Pop R11; Pop R10; Cli; StoreGs RSP TSSRSP; Mov R10 RSP; Swapgs; Sysret].
Definition startUserCode : list insn :=
  [MovI 0x200 R11; Cli; StoreGs RDX TSSRSP; Mov R8 RSP; Swapgs; Sysret].

(** ** machine/isr_wrapper.S: up to, and after, the call of the handler.
    [offset]: the size of the error code; [arg2]: how %rsi is set *)
Definition isr_enter (offset : Z) (arg2 : list insn) : list insn :=
  ISR_PUSH ++ [Lea (ISRFRAME + offset) RSP RDI] ++ arg2.
Definition isr_exit (offset : Z) : list insn :=
  ISR_POP ++ (if offset =? 0 then [] else [AddI offset RSP]) ++ [Iret].

(** ** C functions

    What the System V calling convention says of a function that was called
    and has returned: the registers it must keep, and the bytes of the caller
    ([keep]) that are not its own to write. *)
Definition callee_saved : list reg := [RBX; RBP; R12; R13; R14; R15].
Lemma saved_in r : match r with RBX | RBP | R12 | R13 | R14 | R15 => True | _ => False end -> r ∈ callee_saved.
Proof. unfold callee_saved. destruct r; set_solver. Qed.

Record c_call (keep : Z -> Prop) (m m' : mach) : Prop := {
  cc_regs r : r ∈ callee_saved -> regs m' r = regs m r;
  cc_sp : regs m' RSP = regs m RSP;
  cc_mem a : keep a -> mem m' a = mem m a
}.

(** ** Memory *)
Lemma readn_ext n m m' a : (forall x, a <= x < a + Z.of_nat n -> m' x = m x) -> readn n m' a = readn n m a.
Proof.
  revert a. induction n as [|n IH]; intros a H; [done|]. cbn. rewrite H, (IH (a + 1)) by (intros; try apply H; lia). done.
Qed.

Lemma writen_other n a v m x : ~ (a <= x < a + Z.of_nat n) -> writen n a v m x = m x.
Proof.
  revert a v. induction n as [|n IH]; intros a v H; [done|]. cbn. destruct (Z.eqb_spec x a); [lia|]. apply IH. lia.
Qed.

Lemma readn_writen n a v m : readn n (writen n a v m) a = v mod 256 ^ Z.of_nat n.
Proof.
  revert a v m. induction n as [|n IH]; intros a v m; [by rewrite Z.mod_1_r|].
  cbn [readn writen]. rewrite Z.eqb_refl.
  rewrite (readn_ext n (writen n (a + 1) (v / 256) m)).
  - rewrite IH. replace (256 ^ Z.of_nat (S n)) with (256 * 256 ^ Z.of_nat n) by (rewrite Nat2Z.inj_succ, Z.pow_succ_r; lia).
    rewrite Z.rem_mul_r; lia.
  - intros x Hx. destruct (Z.eqb_spec x a); [lia|done].
Qed.

Lemma read_write m a v : is_word 64 v -> read64 (write64 a v m) a = v.
Proof. intros H. unfold read64, write64. rewrite readn_writen. apply Z.mod_small. exact H. Qed.

Lemma write64_other m a v x : ~ (a <= x < a + 8) -> write64 a v m x = m x.
Proof. apply (writen_other 8). Qed.

Lemma read_ext m m' a : (forall x, a <= x < a + 8 -> m' x = m x) -> read64 m' a = read64 m a.
Proof. apply (readn_ext 8). Qed.

Lemma read_write_ne m a b v : b + 8 <= a \/ a + 8 <= b -> read64 (write64 a v m) b = read64 m b.
Proof. intros H. apply read_ext. intros x Hx. apply write64_other. lia. Qed.
Lemma read_write_at m a b v : a = b -> is_word 64 v -> read64 (write64 a v m) b = v.
Proof. intros ->. apply read_write. Qed.

Lemma word_0 : is_word 64 0.
Proof. done. Qed.

(** a word of a memory to which words at known distances were written *)
Ltac read_back := repeat (rewrite read_write_ne by lia); apply read_write_at; [lia|first [exact word_0|solve [auto]|unfold is_word; lia]].
#[local] Opaque read64 write64.
Arguments read64 : simpl never.
Arguments write64 : simpl never.
Arguments wrap : simpl never.
Arguments Z.add : simpl never.
Arguments Z.sub : simpl never.

(** the registers hold words *)
Definition words (m : mach) : Prop := forall r, is_word 64 (regs m r).

(** nothing but registers and memory differs *)
Definition same_control (m m' : mach) : Prop :=
  rip m' = rip m /\ flags m' = flags m /\ gs_base m' = gs_base m /\ gs_kernel m' = gs_kernel m.

(** ** Sequences of push and pop *)
Record pushed (rs : list reg) (m m' : mach) : Prop := {
  pu_control : same_control m m';
  pu_sp : regs m' RSP = regs m RSP - 8 * lenZ rs;
  pu_regs r : r <> RSP -> regs m' r = regs m r;
  pu_mem a : ~ (regs m RSP - 8 * lenZ rs <= a < regs m RSP) -> mem m' a = mem m a;
  pu_saved i r : rs !! i = Some r -> read64 (mem m') (regs m RSP - 8 * (Z.of_nat i + 1)) = regs m r
}.

Lemma run_app c d m : run (c ++ d) m = run d (run c m).
Proof. apply foldl_app. Qed.

Lemma run_push rs m : words m -> 8 * lenZ rs <= regs m RSP -> RSP ∉ rs -> pushed rs m (run (map Push rs) m).
Proof.
  induction rs as [|r rs IH] using rev_ind; intros Hw Hsp Hn.
  { split; cbn; intros; try done; unfold lenZ; cbn; lia. }
  rewrite lenZ_app in Hsp. change (lenZ [r]) with 1 in Hsp. rewrite elem_of_app, list_elem_of_singleton in Hn.
  destruct IH as [(H1 & H2 & H3 & H4) Hs Hr Hm Hsv]; [done|lia|tauto|].
  rewrite map_app, run_app. cbn [map run foldl]. set (n := run (map Push rs) m) in *.
  cbn [exec]. unfold push. cbn. pose proof (Hw RSP) as Hw'. unfold is_word in Hw'. unfold lenZ in *.
  assert (wrap 64 (regs n RSP - 8) = regs m RSP - 8 * Z.of_nat (length rs) - 8) as E by (rewrite Hs, wrap_small; lia).
  rewrite E. split; cbn; rewrite ?lenZ_app; change (lenZ [r]) with 1; unfold lenZ.
  - by split_and!.
  - lia.
  - intros r' Hne. destruct r'; try done; by apply Hr.
  - intros a Ha. rewrite write64_other by lia. apply Hm. lia.
  - intros i r' Hi. apply lookup_app_Some in Hi as [Hi|[Hge Hi]].
    + pose proof (lookup_lt_Some _ _ _ Hi). rewrite read_write_ne by lia. by apply Hsv.
    + destruct (i - length rs)%nat as [|j] eqn:Ej; [|done]. cbn in Hi. injection Hi as <-.
      replace (regs m RSP - 8 * (Z.of_nat i + 1)) with (regs m RSP - 8 * Z.of_nat (length rs) - 8) by lia.
      rewrite read_write; rewrite Hr; try done; naive_solver.
Qed.

Record popped (rs : list reg) (m m' : mach) : Prop := {
  po_control : same_control m m';
  po_sp : regs m' RSP = regs m RSP + 8 * lenZ rs;
  po_mem : mem m' = mem m;
  po_regs r : r <> RSP -> r ∉ rs -> regs m' r = regs m r;
  po_loaded i r : rs !! i = Some r -> regs m' r = read64 (mem m) (regs m RSP + 8 * Z.of_nat i)
}.

Lemma run_pop rs m : 0 <= regs m RSP -> regs m RSP + 8 * lenZ rs < 2 ^ 64 -> RSP ∉ rs -> NoDup rs ->
  popped rs m (run (map Pop rs) m).
Proof.
  induction rs as [|r rs IH] using rev_ind; intros H0 Hsp Hn Hd.
  { split; cbn; intros; try done; unfold lenZ; cbn; lia. }
  rewrite lenZ_app in Hsp. change (lenZ [r]) with 1 in Hsp. rewrite elem_of_app, list_elem_of_singleton in Hn.
  apply NoDup_app in Hd as (Hd & Hx & _).
  destruct IH as [(H1 & H2 & H3 & H4) Hs Hm Hr Hl]; [done|lia|tauto|done|].
  rewrite map_app, run_app. cbn [map run foldl]. set (n := run (map Pop rs) m) in *.
  cbn [exec]. unfold pop_to. unfold lenZ in *.
  assert (wrap 64 (regs n RSP + 8) = regs m RSP + 8 * Z.of_nat (length rs) + 8) as E by (rewrite Hs, wrap_small; lia).
  rewrite E, Hs, Hm. split; cbn; rewrite ?lenZ_app; change (lenZ [r]) with 1; unfold lenZ.
  - by split_and!.
  - destruct (reg_beq r RSP) eqn:Eb; [apply internal_reg_dec_bl in Eb; naive_solver|lia].
  - done.
  - intros r' Hne Hni. rewrite elem_of_app, list_elem_of_singleton in Hni.
    destruct (reg_beq r r') eqn:Eb; [apply internal_reg_dec_bl in Eb; naive_solver|].
    destruct r'; try done; apply Hr; naive_solver.
  - intros i r' Hi. apply lookup_app_Some in Hi as [Hi|[Hge Hi]].
    + assert (r' ∈ rs) as Hin by (by eapply list_elem_of_lookup_2).
      destruct (reg_beq r r') eqn:Eb.
      { apply internal_reg_dec_bl in Eb as <-. exfalso. apply (Hx r Hin). apply list_elem_of_here. }
      rewrite <- (Hl i r' Hi). destruct r'; try done; naive_solver.
    + destruct (i - length rs)%nat as [|j] eqn:Ej; [|done]. cbn in Hi. injection Hi as <-.
      rewrite internal_reg_dec_lb by done. f_equal. lia.
Qed.

(** ** Context switches *)

(** at [sp] are the registers of a context that was switched off, and the
    address where it goes on *)
Definition saved_frame (m : memory) (sp : Z) (f : reg -> Z) (ra : Z) : Prop :=
  (forall i r, [RBP; RBX; R12; R13; R14; R15] !! i = Some r -> read64 m (sp + 8 * Z.of_nat i) = f r) /\
  read64 m (sp + 48) = ra.

Lemma frame_ext m m' sp f ra : (forall a, sp <= a < sp + 56 -> m' a = m a) -> saved_frame m sp f ra -> saved_frame m' sp f ra.
Proof.
  intros H [Hf Hr]. split; [|rewrite <- Hr; apply read_ext; intros; apply H; lia].
  intros i r Hi. rewrite <- (Hf i r Hi). apply lookup_lt_Some in Hi. cbn in Hi. apply read_ext. intros. apply H. lia.
Qed.

Definition apart (a la b lb : Z) : Prop := a + la <= b \/ b + lb <= a.

Record switched (m m' : mach) : Prop := {
  sw_frame : saved_frame (mem m') (regs m RSP - 48) (regs m) (read64 (mem m) (regs m RSP));
  sw_slot : read64 (mem m') (regs m RDX) = regs m RSP - 48;
  sw_regs i r : [RBP; RBX; R12; R13; R14; R15] !! i = Some r -> regs m' r = read64 (mem m) (regs m RCX + 8 * Z.of_nat i);
  sw_sp : regs m' RSP = regs m RCX + 48;
  sw_arg : regs m' RDI = regs m RDI;
  sw_rip : rip m' = regs m RSI;
  sw_mem a : ~ (regs m RSP - 48 <= a < regs m RSP) -> ~ (regs m RDX <= a < regs m RDX + 8) -> mem m' a = mem m a
}.

(** [currSP] is not in the frame that is pushed, and neither is in the frame
    that is popped *)
Definition switch_ok (m : mach) : Prop :=
  words m /\ 48 <= regs m RSP /\ regs m RSP + 8 <= 2 ^ 64 /\ regs m RDX + 8 <= 2 ^ 64 /\ regs m RCX + 56 <= 2 ^ 64 /\
  apart (regs m RSP - 48) 56 (regs m RDX) 8 /\ apart (regs m RCX) 56 (regs m RDX) 8 /\
  apart (regs m RCX) 56 (regs m RSP - 48) 48.

Lemma push_frame m : words m -> 48 <= regs m RSP -> let m' := run STACK_PUSH m in
  pushed [R15; R14; R13; R12; RBX; RBP] m m' /\ saved_frame (mem m') (regs m RSP - 48) (regs m) (read64 (mem m) (regs m RSP)).
Proof.
  intros Hw Hs m'. assert (pushed [R15; R14; R13; R12; RBX; RBP] m m') as Hp by (apply run_push; [done|done|set_solver]).
  split; [done|]. destruct Hp as [_ _ _ Hm Hsv]. change (lenZ _) with 6 in Hm. split.
  - intros i r Hi. pose proof (lookup_lt_Some _ _ _ Hi). cbn in H.
    assert ([R15; R14; R13; R12; RBX; RBP] !! (5 - i)%nat = Some r) as Hi' by (by do 6 (destruct i as [|i]; [exact Hi|]); cbn in H; lia).
    rewrite <- (Hsv _ _ Hi'). f_equal. lia.
  - replace (regs m RSP - 48 + 48) with (regs m RSP) by lia. apply read_ext. intros a Ha. apply Hm. lia.
Qed.

Definition frame_regs : list reg := [RBP; RBX; R12; R13; R14; R15].

Lemma pop_frame m : 0 <= regs m RSP -> regs m RSP + 48 < 2 ^ 64 -> let m' := run STACK_POP m in
  same_control m m' /\ regs m' RSP = regs m RSP + 48 /\ mem m' = mem m /\
  (forall r, r <> RSP -> r ∉ frame_regs -> regs m' r = regs m r) /\
  (forall i r, frame_regs !! i = Some r -> regs m' r = read64 (mem m) (regs m RSP + 8 * Z.of_nat i)).
Proof.
  intros H1 H2 m'. assert (popped frame_regs m m') as [C S M R L].
  { apply run_pop; [done|exact H2|unfold frame_regs; set_solver|]. unfold frame_regs. repeat constructor; set_solver. }
  by split_and!.
Qed.

(** the two instructions in the middle of stackSwitch *)
Lemma exchange_sp m : is_word 64 (regs m RDX) -> let m' := run [Store RSP 0 RDX; Mov RCX RSP] m in
  same_control m m' /\ mem m' = write64 (regs m RDX) (regs m RSP) (mem m) /\ regs m' RSP = regs m RCX /\
  forall r, r <> RSP -> regs m' r = regs m r.
Proof.
  intros H m'. split_and!; try done.
  - unfold m'. cbn. by rewrite Z.add_0_r, wrap_small.
  - intros r Hr. by destruct r.
Qed.

Lemma stackSwitch_spec m : switch_ok m -> switched m (run stackSwitch m).
Proof.
  intros (Hw & Hs & Hs' & Hd & Hc & Ha1 & Ha2 & Ha3). unfold apart in *. unfold stackSwitch. rewrite !run_app.
  pose proof (Hw RDX) as WD. pose proof (Hw RCX) as WC.
  destruct (push_frame m Hw Hs) as [[PC Psp Pr Pm _] Pf]. change (regs m RSP - 8 * lenZ _) with (regs m RSP - 48) in Psp, Pm.
  generalize dependent (run STACK_PUSH m). intros m1 PC Psp Pr Pm Pf.
  destruct (exchange_sp m1) as (XC & XM & Xsp & Xr); [by rewrite Pr|].
  generalize dependent (run [Store RSP 0 RDX; Mov RCX RSP] m1). intros m2 XC XM Xsp Xr.
  rewrite !Pr in XM, Xsp by done. unfold is_word in *.
  destruct (pop_frame m2) as (OC & Osp & Om & Or & Ol); [lia|lia|].
  generalize dependent (run STACK_POP m2). intros m3 OC Osp Om Or Ol.
  assert (forall a, ~ (regs m RSP - 48 <= a < regs m RSP) -> ~ (regs m RDX <= a < regs m RDX + 8) -> mem m2 a = mem m a) as Hm.
  { intros a H1 H2. rewrite XM, write64_other by done. by apply Pm. }
  split; cbn.
  - eapply frame_ext; [|exact Pf]. intros a Ha. rewrite Om, XM. apply write64_other. lia.
  - rewrite Om, XM, Psp. apply read_write. unfold is_word. lia.
  - intros i r Hi. rewrite (Ol i r Hi), Xsp. apply lookup_lt_Some in Hi. cbn in Hi.
    apply read_ext. intros a Ha. apply Hm; lia.
  - rewrite Osp. lia.
  - rewrite Or, Xr, Pr by (done || unfold frame_regs; set_solver). done.
  - rewrite Or, Xr, Pr by (done || unfold frame_regs; set_solver). done.
  - intros a H1 H2. rewrite Om. by apply Hm.
Qed.

(** a C function returns to its caller *)
Record c_return (m m' : mach) : Prop := {
  cr_regs r : r ∈ callee_saved -> regs m' r = regs m r;
  cr_sp : regs m' RSP = regs m RSP + 8;
  cr_rip : rip m' = read64 (mem m) (regs m RSP)
}.

Lemma frame_regs_lookup r : r ∈ callee_saved -> exists i, frame_regs !! i = Some r.
Proof.
  intros H. apply list_elem_of_lookup. revert H. unfold frame_regs, callee_saved. set_solver.
Qed.

(** switching to a frame, and returning from the function that stackSwitch
    jumps to *)
Lemma switch_to_frame m m' f ra : switch_ok m -> saved_frame (mem m) (regs m RCX) f ra -> c_return (run stackSwitch m) m' ->
  (forall r, r ∈ callee_saved -> regs m' r = f r) /\ regs m' RSP = regs m RCX + 56 /\ rip m' = ra.
Proof.
  intros Hok [Hf Hra] [Cr Cs Ci]. destruct (stackSwitch_spec m Hok) as [_ _ Sr Ss _ _ Sm].
  destruct Hok as (Hw & Hs & Hs' & Hd & Hc & Ha1 & Ha2 & Ha3). unfold apart in *. split_and!.
  - intros r Hr. rewrite Cr by done. destruct (frame_regs_lookup r Hr) as (i & Hi). by rewrite (Sr i r Hi), (Hf i r Hi).
  - rewrite Cs, Ss. lia.
  - rewrite Ci, Ss, <- Hra. apply read_ext. intros a Ha. apply Sm; lia.
Qed.

(** C3. A thread that is switched off and later switched to by any thread goes
    on behind its call of [stackSwitch] as if the call had returned: with the
    callee-saved registers and the stack pointer of before, at its return
    address - after [postFunc], which the switching thread passes, has run
    with the switching thread as argument.  Between the switches the stack of
    the thread is not written. *)
Theorem context_switch m m2 m4 :
  switch_ok m -> switch_ok m2 -> let m1 := run stackSwitch m in
  regs m2 RCX = read64 (mem m1) (regs m RDX) ->
  (forall a, regs m RSP - 48 <= a < regs m RSP + 8 -> mem m2 a = mem m1 a) ->
  let m3 := run stackSwitch m2 in c_return m3 m4 ->
  rip m3 = regs m2 RSI /\ regs m3 RDI = regs m2 RDI /\
  (forall r, r ∈ callee_saved -> regs m4 r = regs m r) /\ regs m4 RSP = regs m RSP + 8 /\
  rip m4 = read64 (mem m) (regs m RSP).
Proof.
  intros H1 H2 m1 Hrcx Hmem m3 Hret. destruct (stackSwitch_spec m H1) as [Sf Ss _ _ _ _ _].
  destruct (stackSwitch_spec m2 H2) as [_ _ _ _ Sa Si _]. split; [done|]. split; [done|].
  fold m1 in Sf, Ss. rewrite Ss in Hrcx.
  destruct (switch_to_frame m2 m4 (regs m) (read64 (mem m) (regs m RSP)) H2) as (R1 & R2 & R3); [|done|].
  { rewrite Hrcx. eapply frame_ext; [|exact Sf]. intros a Ha. apply Hmem. lia. }
  split; [done|]. split; [|done]. rewrite R2, Hrcx. lia.
Qed.

(** ** New threads *)
Lemma stackInit_frame stub m : words m -> 64 <= regs m RDI -> is_word 64 stub -> let m' := run (stackInit stub) m in
  regs m' RAX = regs m RDI - 64 /\
  saved_frame (mem m') (regs m RDI - 64) (fun r => match r with
    | RBX => regs m RSI | R12 => regs m RDX | R13 => regs m RCX | R14 => regs m R8 | R15 => regs m R9 | _ => 0 end) stub.
Proof.
  intros Hw Hs Hst m'. pose proof (Hw RDI) as Wd. unfold is_word in Wd. set (d := regs m RDI) in *.
  assert (mem m' = write64 (d - 16) stub (write64 (d - 24) (regs m R9) (write64 (d - 32) (regs m R8) (write64 (d - 40) (regs m RCX)
    (write64 (d - 48) (regs m RDX) (write64 (d - 56) (regs m RSI) (write64 (d - 64) 0 (mem m)))))))) as E.
  { unfold m'. cbn. fold d. by rewrite !wrap_small by lia. }
  split; [unfold m'; cbn; fold d; by rewrite wrap_small by lia|]. rewrite E. split.
  - intros i r Hi. do 6 (destruct i as [|i]; [injection Hi as <-; read_back|]). done.
  - read_back.
Qed.

Lemma stubInit_regs inv m m' : m' = run (stubInit_code inv) m -> 16 <= regs m RSP < 2 ^ 64 -> regs m RBP = 0 ->
  rip m' = inv /\ regs m' RSP = regs m RSP - 16 /\ regs m' RBP = regs m RSP - 16 /\
  regs m' RDI = regs m RAX /\ regs m' RSI = regs m RBX /\ regs m' RDX = regs m R12 /\ regs m' RCX = regs m R13 /\
  regs m' R8 = regs m R14 /\ regs m' R9 = regs m R15 /\
  read64 (mem m') (regs m RSP - 16) = 0 /\ read64 (mem m') (regs m RSP - 8) = 0.
Proof.
  intros Em Hs Hb. assert (mem m' = write64 (regs m RSP - 16) 0 (write64 (regs m RSP - 8) 0 (mem m))) as E.
  { rewrite Em. cbn. rewrite Hb. rewrite (wrap_small 64 (regs m RSP - 8)) by lia. rewrite wrap_small by lia. f_equal; lia. }
  rewrite E. split_and!; try (by rewrite Em); try read_back; rewrite Em; cbn;
    rewrite (wrap_small 64 (regs m RSP - 8)), wrap_small by lia; lia.
Qed.

(** C19. A new thread starts in [invokeThread]: when a thread first switches to
    a stack that [stackInit] has prepared, [invokeThread] is entered with the
    result of [postFunc] - the thread that ran before - as first argument, and
    the function and the arguments that were given to [stackInit] behind it, at
    the top of the new stack, with a zero frame pointer and return address
    below. *)
Theorem thread_start stub inv m m2 m4 :
  words m -> 64 <= regs m RDI -> is_word 64 stub -> let stack := regs m RDI in let m1 := run (stackInit stub) m in
  switch_ok m2 -> regs m2 RCX = regs m1 RAX ->
  (forall a, stack - 64 <= a < stack - 8 -> mem m2 a = mem m1 a) ->
  c_return (run stackSwitch m2) m4 ->
  let m5 := run (stubInit_code inv) m4 in
  rip m4 = stub /\ rip m5 = inv /\
  regs m5 RDI = regs m4 RAX /\ regs m5 RSI = regs m RSI /\ regs m5 RDX = regs m RDX /\ regs m5 RCX = regs m RCX /\
  regs m5 R8 = regs m R8 /\ regs m5 R9 = regs m R9 /\
  regs m5 RSP = stack - 24 /\ regs m5 RBP = stack - 24 /\
  read64 (mem m5) (stack - 24) = 0 /\ read64 (mem m5) (stack - 16) = 0.
Proof.
  intros Hw Hs Hst stack m1 Hok Hrcx Hmem Hret m5. destruct (stackInit_frame stub m Hw Hs Hst) as [Ha Hf].
  fold m1 stack in Ha, Hf. rewrite Ha in Hrcx. pose proof (Hw RDI) as Wd. unfold is_word in Wd. fold stack in Wd, Hs.
  apply (frame_ext _ (mem m2)) in Hf; [|intros a Hx; apply Hmem; lia].
  rewrite <- Hrcx in Hf. destruct (switch_to_frame m2 m4 _ stub Hok Hf Hret) as (R1 & R2 & R3).
  rewrite Hrcx in R2. replace (stack - 64 + 56) with (stack - 8) in R2 by lia.
  destruct (stubInit_regs inv m4 m5 eq_refl) as (S1 & S2 & S3 & S4 & S5 & S6 & S7 & S8 & S9 & S10 & S11);
    [lia|apply R1; by apply saved_in|].
  clearbody m5 m1 stack. rewrite R2 in *. replace (stack - 8 - 16) with (stack - 24) in * by lia. replace (stack - 8 - 8) with (stack - 16) in * by lia.
  split_and!; try done; [rewrite S5|rewrite S6|rewrite S7|rewrite S8|rewrite S9]; apply R1; by apply saved_in.
Qed.

(** ** System calls *)
Record user_call (m : mach) : Prop := {
  uc_words : words m;
  uc_flags : is_word 64 (flags m);
  uc_sp : 48 <= regs m RSP /\ regs m RSP + 8 < 2 ^ 64;
  uc_gs : 0 <= gs_kernel m /\ gs_kernel m + TSSRSP + 8 <= 2 ^ 64;
  uc_tss : apart (regs m RSP - 48) 56 (gs_kernel m + TSSRSP) 8;
  (* the kernel stack, apart from the stack of the user *)
  uc_stack : let ks := read64 (mem m) (gs_kernel m + TSSRSP) in
    24 <= ks < 2 ^ 64 /\ apart (regs m RSP - 48) 56 (ks - 24) 24 /\ apart (gs_kernel m + TSSRSP) 8 (ks - 24) 24
}.

(** the machine when [syscall_handler] is called *)
Record in_kernel (next : Z) (m m1 : mach) : Prop := {
  ik_args r : r ∈ [RDI; RSI; RDX; RCX; R8; R9] -> regs m1 r = regs m r;
  ik_saved r : r ∈ callee_saved -> regs m1 r = regs m r;
  ik_sp : regs m1 RSP = read64 (mem m) (gs_kernel m + TSSRSP) - 24;
  ik_flags : flags m1 = Z.lor (Z.ldiff (flags m) IF_flag) IF_flag;
  ik_gs : gs_base m1 = gs_kernel m /\ gs_kernel m1 = gs_base m;
  ik_ret : read64 (mem m1) (regs m1 RSP) = next;
  ik_r11 : read64 (mem m1) (regs m1 RSP + 8) = flags m;
  ik_usp : read64 (mem m1) (regs m1 RSP + 16) = regs m RSP - 48;
  ik_user : saved_frame (mem m1) (regs m RSP - 48) (regs m) (read64 (mem m) (regs m RSP))
}.

Lemma syscall_enter next lstar m : user_call m -> is_word 64 next ->
  in_kernel next m (run (syscallStub_enter next lstar ++ syscall_wrapper_enter) m).
Proof.
  intros [Hw Hf [Hs Hs'] [Hg Hg'] Htss (Hk & Hk1 & Hk2)] Hn. unfold apart in *. unfold syscallStub_enter. rewrite !run_app.
  destruct (push_frame m Hw Hs) as [[PC Psp Pr Pm _] Pf]. change (regs m RSP - 8 * lenZ _) with (regs m RSP - 48) in Psp, Pm.
  generalize dependent (run STACK_PUSH m). intros m1 (C1 & C2 & C3 & C4) Psp Pr Pm Pf.
  assert (read64 (mem m1) (gs_kernel m + TSSRSP) = read64 (mem m) (gs_kernel m + TSSRSP)) as Ek.
  { apply read_ext. intros a Ha. apply Pm. lia. }
  remember (read64 (mem m) (gs_kernel m + TSSRSP)) as ks eqn:Eks.
  pose proof (Hw RSP) as Wsp. unfold is_word in *.
  set (m2 := run syscall_wrapper_enter _).
  assert (E : mem m2 = write64 (ks - 24) next (write64 (ks - 16) (flags m) (write64 (ks - 8) (regs m RSP - 48) (mem m1)))).
  { unfold m2, syscall_wrapper_enter. cbn. rewrite C4, (wrap_small 64 (gs_kernel m + TSSRSP)) by (unfold TSSRSP in *; lia).
    rewrite Ek, Psp, C2. rewrite (wrap_small 64 (ks - 8)) by lia. rewrite (wrap_small 64 (ks - 8 - 8)) by lia.
    rewrite wrap_small by lia. f_equal; [lia|]. f_equal; lia. }
  assert (R : forall r, regs m2 r = match r with RSP => ks - 24 | RAX => regs m RSP - 48 | RCX => regs m RCX
    | R10 => regs m RCX | R11 => flags m | r => regs m r end).
  { intros r. unfold m2, syscall_wrapper_enter. cbn. rewrite C4, (wrap_small 64 (gs_kernel m + TSSRSP)) by (unfold TSSRSP in *; lia).
    rewrite Ek, Psp, C2. rewrite (wrap_small 64 (ks - 8)) by lia. rewrite (wrap_small 64 (ks - 8 - 8)) by lia.
    rewrite (wrap_small 64 (ks - 8 - 8 - 8)) by lia. destruct r; cbn; rewrite ?Pr by discriminate; lia. }
  assert (CF : flags m2 = Z.lor (Z.ldiff (flags m) IF_flag) IF_flag) by (unfold m2, syscall_wrapper_enter; cbn; rewrite C2; reflexivity).
  assert (CG : gs_base m2 = gs_kernel m /\ gs_kernel m2 = gs_base m) by (unfold m2, syscall_wrapper_enter; cbn; rewrite C3, C4; split; reflexivity).
  clear Ek Pm Pr Psp C1 C2 C3 C4. clearbody m2. split; rewrite ?(R RSP), ?E, <- ?Eks; try assumption; try reflexivity.
  - intros r Hr. rewrite R. revert Hr. rewrite !elem_of_cons, elem_of_nil. intros [->|[->|[->|[->|[->|[->|[]]]]]]]; reflexivity.
  - intros r Hr. rewrite R. revert Hr. unfold callee_saved. rewrite !elem_of_cons, elem_of_nil.
    intros [->|[->|[->|[->|[->|[->|[]]]]]]]; reflexivity.
  - read_back.
  - read_back.
  - rewrite !read_write_ne by lia. apply read_write_at; [lia|unfold is_word; lia].
  - eapply frame_ext; [|exact Pf]. intros a Ha. rewrite !write64_other by lia. done.
Qed.

Lemma pop_to_regs f m : 0 <= regs m RSP -> regs m RSP + 8 < 2 ^ 64 ->
  pop_to f m = f (read64 (mem m) (regs m RSP)) (rset RSP (regs m RSP + 8) m).
Proof. intros. unfold pop_to. by rewrite wrap_small by lia. Qed.

(** the end of the wrapper, from the return of [syscall_handler] on *)
Lemma syscall_leave m : 0 <= regs m RSP -> regs m RSP + 24 < 2 ^ 64 -> 0 <= gs_base m -> gs_base m + TSSRSP + 8 <= 2 ^ 64 ->
  forall m', m' = run syscall_wrapper_leave m ->
  rip m' = read64 (mem m) (regs m RSP) /\ flags m' = read64 (mem m) (regs m RSP + 8) /\
  regs m' RSP = read64 (mem m) (regs m RSP + 16) /\
  (forall r, r ∈ RAX :: callee_saved -> regs m' r = regs m r) /\ gs_base m' = gs_kernel m /\ gs_kernel m' = gs_base m /\
  mem m' = write64 (gs_base m + TSSRSP) (regs m RSP + 24) (mem m).
Proof.
  intros H1 H2 H3 H4 m' ->. unfold syscall_wrapper_leave. cbn.
  rewrite (wrap_small 64 (regs m RSP + 8)) by lia. rewrite (wrap_small 64 (regs m RSP + 8 + 8)) by lia.
  rewrite (wrap_small 64 (regs m RSP + 8 + 8 + 8)) by lia.
  rewrite (wrap_small 64 (gs_base m + TSSRSP)) by (unfold TSSRSP in *; lia).
  replace (regs m RSP + 8 + 8 + 8) with (regs m RSP + 24) by lia. replace (regs m RSP + 8 + 8) with (regs m RSP + 16) by lia.
  split_and!; try done. intros r Hr. rewrite elem_of_cons in Hr. unfold callee_saved in Hr. rewrite !elem_of_cons, elem_of_nil in Hr.
  destruct Hr as [->|[->|[->|[->|[->|[->|[->|[]]]]]]]]; done.
Qed.

(** the end of the stub *)
Lemma stub_leave m sp f ra : saved_frame (mem m) sp f ra -> regs m RSP = sp -> 0 <= sp -> sp + 56 < 2 ^ 64 ->
  forall m', m' = run syscallStub_leave m ->
  rip m' = ra /\ regs m' RSP = sp + 56 /\ (forall r, r ∈ callee_saved -> regs m' r = f r) /\ regs m' RAX = regs m RAX /\
  flags m' = flags m /\ gs_base m' = gs_base m /\ gs_kernel m' = gs_kernel m /\ mem m' = mem m.
Proof.
  intros [Hf Hra] Es H1 H2 m' ->. unfold syscallStub_leave. rewrite run_app.
  destruct (pop_frame m) as ((C1 & C2 & C3 & C4) & S & M & R & L); [lia|lia|]. generalize dependent (run STACK_POP m).
  intros m1 C1 C2 C3 C4 S M R L. unfold run, foldl, exec. rewrite pop_to_regs by lia. cbn. rewrite S, M, Es.
  split_and!; try assumption; try lia; [| |reflexivity].
  - intros r Hr. destruct (frame_regs_lookup r Hr) as (i & Hi). rewrite <- (Hf i r Hi), <- Es, <- (L i r Hi).
    destruct r; try reflexivity. exfalso. revert Hr. unfold callee_saved. set_solver.
  - apply R; [discriminate|]. unfold frame_regs. set_solver.
Qed.

(** C11. A system call, from the call of [syscallStub] in the user library to its
    return: the handler runs with the six arguments, on the kernel stack of the
    thread, with interrupts enabled and the kernel's gs base; afterwards the
    user program goes on behind the call with the handler's result in %rax, its
    stack pointer, callee-saved registers, flags and gs base, and the processor
    - not necessarily the one of the call - has the kernel stack of the thread
    in its TSS.  The handler is any function that keeps the calling convention
    and the two stacks. *)
Theorem system_call next lstar m m2 :
  user_call m -> is_word 64 next ->
  let ks := read64 (mem m) (gs_kernel m + TSSRSP) in let sp := regs m RSP in
  let m1 := run (syscallStub_enter next lstar ++ syscall_wrapper_enter) m in
  c_call (fun a => ks - 24 <= a < ks \/ sp - 48 <= a < sp + 8) m1 m2 ->
  0 <= gs_base m2 -> gs_base m2 + TSSRSP + 8 <= 2 ^ 64 -> apart (gs_base m2 + TSSRSP) 8 (sp - 48) 56 ->
  let m3 := run syscall_wrapper_leave m2 in let m4 := run syscallStub_leave m3 in
  (forall r, r ∈ [RDI; RSI; RDX; RCX; R8; R9] -> regs m1 r = regs m r) /\
  regs m1 RSP = ks - 24 /\ Z.testbit (flags m1) 9 = true /\ gs_base m1 = gs_kernel m /\
  rip m3 = next /\ rip m4 = read64 (mem m) sp /\ regs m4 RSP = sp + 8 /\
  (forall r, r ∈ callee_saved -> regs m4 r = regs m r) /\ regs m4 RAX = regs m2 RAX /\ flags m4 = flags m /\
  gs_base m4 = gs_kernel m2 /\ gs_kernel m4 = gs_base m2 /\ read64 (mem m4) (gs_base m2 + TSSRSP) = ks.
Proof.
  intros Hu Hn ks sp m1 [Cr Cs Cm] Hg Hg' Ha m3 m4. destruct (syscall_enter next lstar m Hu Hn) as [Ia Is Isp If Ig Ir I11 Iu Iuf].
  destruct Hu as [Hw Hf [Hs1 Hs2] Hgk Htss (Hk & _)]. unfold apart in *. fold ks in Isp, Hk. fold m1 in Ia, Is, Isp, If, Ig, Ir, I11, Iu, Iuf.
  fold sp in Hs1, Hs2, Iu, Iuf. clearbody m1.
  assert (forall i, 0 <= i <= 16 -> read64 (mem m2) (regs m1 RSP + i) = read64 (mem m1) (regs m1 RSP + i)) as Hk2.
  { intros i Hi. apply read_ext. intros a Hax. apply Cm. lia. }
  destruct (syscall_leave m2) with (m' := m3) as (L1 & L2 & L3 & L4 & L5 & L6 & L7); [lia|lia|lia|lia|reflexivity|].
  rewrite Cs in *. pose proof (Hk2 0 ltac:(lia)) as K0. rewrite Z.add_0_r in K0. rewrite (Hk2 8), (Hk2 16) in * by lia.
  rewrite K0 in L1. rewrite Ir in L1. rewrite I11 in L2. rewrite Iu in L3.
  assert (saved_frame (mem m3) (sp - 48) (regs m) (read64 (mem m) sp)) as Hfr.
  { rewrite L7. eapply frame_ext; [|exact Iuf]. intros a Hax. rewrite write64_other by lia. apply Cm. lia. }
  destruct (stub_leave m3 (sp - 48) (regs m) (read64 (mem m) sp) Hfr L3) with (m' := m4)
    as (T1 & T2 & T3 & T4 & T5 & T6 & T7 & T8); [lia|lia|reflexivity|].
  clearbody m3 m4. split; [exact Ia|]. split; [exact Isp|]. split.
  { rewrite If, Z.lor_spec. apply orb_true_r. }
  split; [apply Ig|]. split; [exact L1|]. split; [exact T1|]. split; [lia|]. split; [exact T3|]. split.
  { rewrite T4. apply L4. apply list_elem_of_here. }
  split; [congruence|]. split; [congruence|]. split; [congruence|].
  rewrite T8, L7, Isp. replace (ks - 24 + 24) with ks by lia. apply read_write_at; [reflexivity|]. unfold is_word. lia.
Qed.

(** ** Interrupts *)
Definition isr_regs : list reg := [RAX; RCX; RDX; RDI; RSI; R8; R9; R10; R11].

(** what the wrappers do between the saved registers and the call: nothing,
    the error code or a number as second argument *)
Inductive isr_arg2 : list insn -> Prop :=
  | arg2_none : isr_arg2 []
  | arg2_code : isr_arg2 [Load ISRFRAME RSP RSI]
  | arg2_num n : isr_arg2 [MovI n RSI].

Lemma isr_push m : words m -> 72 <= regs m RSP -> pushed isr_regs m (run ISR_PUSH m).
Proof. intros. apply run_push; [done|done|unfold isr_regs; set_solver]. Qed.

Lemma isr_pop m : 0 <= regs m RSP -> regs m RSP + 72 < 2 ^ 64 -> popped (rev isr_regs) m (run ISR_POP m).
Proof. intros. apply (run_pop (rev isr_regs)); [done|done|cbn; set_solver|]. cbn. repeat constructor; set_solver. Qed.

Lemma arg2_effect a2 m : isr_arg2 a2 -> forall m', m' = run a2 m ->
  same_control m m' /\ mem m' = mem m /\ forall r, r <> RSI -> regs m' r = regs m r.
Proof. intros [] m' ->; cbn; (split; [by split_and!|]); (split; [reflexivity|]); intros r Hr; by destruct r. Qed.

Lemma isr_regs_or r : r <> RSP -> r ∈ callee_saved \/ exists i, rev isr_regs !! i = Some r /\ isr_regs !! (8 - i)%nat = Some r /\ (i < 9)%nat.
Proof.
  intros H. destruct r; try done; try (left; by apply saved_in); right;
    [exists 8%nat|exists 7%nat|exists 6%nat|exists 4%nat|exists 5%nat|exists 3%nat|exists 2%nat|exists 1%nat|exists 0%nat];
    (split; [reflexivity|split; [reflexivity|lia]]).
Qed.


(** ** The theorems at concrete machines *)
Definition m_example (sp a c d : Z) : mach :=
  mkM (fun r => match r with RSP => sp | RDX => a | RCX => c | RDI => d | RBX => 11 | RBP => 12 | R12 => 13 | RSI => 77 | _ => 5 end)
    0 0x202 0 0x9000 (fun x => if (0x9044 <=? x) && (x <? 0x904c) then (if x =? 0x9046 then 1 else 0) else x mod 7).

Lemma example_words sp a c d : is_word 64 sp -> is_word 64 a -> is_word 64 c -> is_word 64 d -> words (m_example sp a c d).
Proof. intros ? ? ? ? []; cbn; unfold is_word in *; lia. Qed.

Lemma ret_returns m : 0 <= regs m RSP -> regs m RSP + 8 < 2 ^ 64 -> c_return m (run [Ret] m).
Proof.
  intros. unfold run, foldl, exec. rewrite pop_to_regs by lia. split; cbn; [|reflexivity|reflexivity].
  intros r Hr. destruct r; try reflexivity. exfalso. revert Hr. unfold callee_saved. set_solver.
Qed.

Definition with_mem (mm : memory) (m : mach) : mach := mkM (regs m) (rip m) (flags m) (gs_base m) (gs_kernel m) mm.

Lemma mem_with_mem mm m : mem (with_mem mm m) = mm.
Proof. reflexivity. Qed.

Lemma context_switch_witness :
  let m := m_example 4096 8192 12288 1 in
  let m2 := with_mem (mem (run stackSwitch m)) (m_example 16384 20480 4048 2) in
  let m4 := run [Ret] (run stackSwitch m2) in
  map (regs m4) callee_saved = [11; 12; 13; 5; 5; 5] /\ (forall r, r ∈ callee_saved -> regs m4 r = regs m r).
Proof.
  split; [vm_compute; reflexivity|]. set (m := m_example 4096 8192 12288 1).
  set (m2 := with_mem (mem (run stackSwitch m)) (m_example 16384 20480 4048 2)).
  destruct (context_switch m m2 (run [Ret] (run stackSwitch m2))) as (_ & _ & H & _).
  - split; [by apply example_words|]. cbn. unfold apart. lia.
  - split; [exact (example_words 16384 20480 4048 2 ltac:(done) ltac:(done) ltac:(done) ltac:(done))|]. cbn. unfold apart. lia.
  - vm_compute. reflexivity.
  - intros a _. unfold m2. rewrite mem_with_mem. reflexivity.
  - apply ret_returns; vm_compute; [discriminate|reflexivity].
  - exact H.
Defined.

Lemma thread_start_witness :
  let m := m_example 4096 1 2 65536 in let m1 := run (stackInit 0x5555) m in
  let m2 := with_mem (mem m1) (m_example 16384 20480 (65536 - 64) 2) in
  let m4 := run [Ret] (run stackSwitch m2) in let m5 := run (stubInit_code 0x6666) m4 in
  rip m4 = 0x5555 /\ rip m5 = 0x6666 /\ regs m5 RSI = 77.
Proof.
  pose proof (thread_start 0x5555 0x6666 (m_example 4096 1 2 65536)
    (with_mem (mem (run (stackInit 0x5555) (m_example 4096 1 2 65536))) (m_example 16384 20480 (65536 - 64) 2))
    (run [Ret] (run stackSwitch (with_mem (mem (run (stackInit 0x5555) (m_example 4096 1 2 65536)))
      (m_example 16384 20480 (65536 - 64) 2))))) as H.
  destruct H as (H1 & H2 & _ & H3 & _).
  - by apply example_words.
  - cbn. lia.
  - done.
  - split; [exact (example_words 16384 20480 65472 2 ltac:(done) ltac:(done) ltac:(done) ltac:(done))|]. cbn. unfold apart. lia.
  - vm_compute. reflexivity.
  - intros a _. rewrite mem_with_mem. reflexivity.
  - apply ret_returns; vm_compute; [discriminate|reflexivity].
  - split; [exact H1|]. split; [exact H2|exact H3].
Defined.

(** a handler that returns 42 *)
Definition example_handler (m : mach) : mach := rset RAX 42 m.

Lemma example_handler_returns keep m : c_call keep m (example_handler m).
Proof.
  split; [|reflexivity|reflexivity]. intros r Hr. destruct r; try reflexivity. exfalso. revert Hr. unfold callee_saved. set_solver.
Qed.

Lemma example_handler_gs m : gs_base (example_handler m) = gs_base m.
Proof. reflexivity. Qed.

Lemma example_handler_rax m : regs (example_handler m) RAX = 42.
Proof. reflexivity. Qed.

Lemma system_call_witness :
  let m := m_example 4096 1 2 3 in
  let m2 := example_handler (run (syscallStub_enter 0x100 0x200 ++ syscall_wrapper_enter) m) in
  let m4 := run syscallStub_leave (run syscall_wrapper_leave m2) in
  regs m4 RAX = 42 /\ regs m4 RSP = 4096 + 8 /\ flags m4 = 0x202.
Proof.
  set (m := m_example 4096 1 2 3).
  destruct (system_call 0x100 0x200 m (example_handler (run (syscallStub_enter 0x100 0x200 ++ syscall_wrapper_enter) m)))
    as (_ & _ & _ & _ & _ & _ & H1 & _ & H2 & H3 & _).
  - split; [by apply example_words|by vm_compute|by vm_compute|by vm_compute|by left|].
    unfold apart. vm_compute. intuition discriminate.
  - done.
  - apply example_handler_returns.
  - vm_compute. discriminate.
  - vm_compute. discriminate.
  - right. vm_compute. discriminate.
  - split; [rewrite H2; apply example_handler_rax|]. split; [exact H1|exact H3].
Defined.

